(* ===== verification/_CoqProject ===== *)
-Q . S2P
Prelude.v
Locks.v
Abi.v
Irq.v
Nameserver.v
Addr.v
Fdt.v
BitmapAlloc.v
Boot.v
QuickFit.v
Ipc.v
Elf.v
Sched.v
Heap.v
KernIpc.v
Demangle.v
Backtrace.v
Vm.v
Aspace.v
Device.v
Vminit.v
Gic.v
Machine.v
Umem.v
Loader.v
Timer.v
Trap.v
Userlib.v
Servers.v
Display.v
Text.v
Tasks.v
X86.v
X86Boot.v
X86Mach.v
X86Trap.v
Console.v
Iprint.v
