(* ===== verification/Prelude.v ===== *)
(** * r9x: a verification of the kernel, its user library and its ports

    r9x is a small message-passing kernel in Rust.  On aarch64 it boots on one
    core, builds page tables and a physical page allocator from the devicetree,
    loads user programs from embedded ELF images, and schedules them by
    priority with a periodic tick.  Processes talk through bounded channels;
    drivers are user processes that claim interrupts and map device pages.  The
    x86_64 port is younger: it builds the address space of the first core, loads
    the descriptor tables and has the trap entry and the context switch.

    ** The parts and the files

    Each file models one part; below, the part, its sources under [src/], and
    how state and operations correspond.

    - [Prelude]: the outcomes of Rust code ([res]: a value, a panic, or a loop
      that does not end), [Result] ([result]), machine integers as [Z] with
      their checks and wrap-around written out, arrays, little-endian strings,
      and the lemmas shared by all files.
    - [Locks] ([port/src/mcslock.rs], [port/src/once.rs]): the
      queue lock (Module [Mcs]) and the one-time cell (Module [OnceCell]) as
      step systems of atomic accesses by any number of threads.
    - [Abi] ([abi/src/lib.rs]): system-call numbers, codes and limits.
    - [Irq] ([port/src/irq.rs], [aarch64/src/irq.rs]): the guard that masks
      interrupts, and the interrupt depth of each core.
    - [Nameserver] ([cmd/nameserver/src]): the user program that binds names to
      channels: its table and its request loop.
    - [Addr] ([core/src/addr.rs], [port/src/maths.rs]): rounding, [PhysAddr] and
      its [Step] functions (Module [Pa]), [PhysRange] (Module [Range]) and
      [VirtRange] (Module [Virt]).
    - [Fdt] ([core/src/fdt.rs], Module [Fd]): the reader of the flattened
      devicetree: header, tokens, node and property iterators, queries, [reg]
      and its translation.
    - [BitmapAlloc] ([port/src/bitmapalloc.rs]): the physical page allocator:
      nested bitmaps, scan cursor, the byte iterator with the state of its
      closure, allocation, release, the boot-time setup and the usage report.
    - [Boot] ([aarch64/src/boot.rs], [kmem.rs], [deviceutil.rs] and the setup parts
      of [pagealloc.rs] and [timer.rs]): the page allocator set up from the devicetree, the timer's
      interrupt number read from it.
    - [QuickFit] ([port/src/allocator.rs], Module [Qf]): the kernel heap: the
      bump allocator, the nine quick-fit lists and the list of larger blocks,
      whose headers live in the memory itself.
    - [Ipc] ([port/src/ipc.rs]): the ring buffer (Module [Queue]) and the channel
      operations over an interface of the scheduler ([IpcScheduler], the source's
      trait of that name).
    - [Sched] ([aarch64/src/process.rs]): the process table, [pick_next],
      [switch_out], blocking, waking, deadlines, exit, fault, installation.  The
      register swap of [swtch] is the change of TPIDR; an operation that
      switches is modelled up to the switch, and what follows when the process
      has the CPU back is [resume_handler].
    - [Heap] (the heap part of [process.rs]): [heap_grow], [heap_shrink],
      [heap_alloc_page] over an interface of the address space ([AspaceOps] with
      its laws [AspaceLaws]).
    - [KernIpc] ([aarch64/src/ipc.rs]): the kernel state ([Kernel]), the channel
      table, the scheduler seam ([KernSched], an [IpcScheduler]), interrupt
      routing, process death and the system calls of the module, over an
      interface of user memory ([UserMem]).
    - [Elf] ([port/src/elf.rs]): the ELF reader.
    - [Vm] ([aarch64/src/vm.rs], Module [Pt]): page-table entries, the recursive
      walk through the live root, mapping, the user-range check; the hardware
      walk [mmu] is part of the machine, not of the program.
    - [Aspace] ([aarch64/src/aspace.rs], [aarch64/src/pagealloc.rs]): address
      spaces over [Vm] and [BitmapAlloc], which discharges [Vm]'s interface of
      the page allocator ([phys_laws]).
    - [Vminit] ([aarch64/src/pre_mmu/vminit.rs], Module [Vi]): the page tables of
      early boot, built at physical addresses from a fixed pool: the pool, the
      mapper, and [init_vm] with the kernel tree and the identity tree.
    - [Device] ([aarch64/src/deviceutil.rs] and the device mappings of [vm.rs],
      Module [Dv]): the kernel's map of the registers of a device.
    - [Gic] ([aarch64/src/gic.rs], [aarch64/src/io.rs], Module [Gc]): the
      interrupt controller driver over the register behaviour that the GICv2
      architecture documents (class [Gicv2], with a register file as instance).
    - [Machine] (Module [Mc]): the laws of [AspaceOps] proved of the real page
      tables and the bitmap allocator, and the heap on them.
    - [Umem] (Module [Um]): the interface of user memory proved of the page tables
      and the bytes of physical memory, and messages on them.
    - [Demangle] ([aarch64/src/demangle.rs], Module [Dm]): the demangler of symbol
      names.
    - [Backtrace] ([aarch64/src/backtrace.rs], Module [Bk]): the walk over a
      faulting process's stack and the lookup of symbols; the lines printed are a
      list.
    - [Loader] ([process.rs], [aarch64/src/registry.rs]): the image registry, the
      ELF loader and spawning, over an interface of the memory system
      ([LoaderOps]).
    - [Timer] ([aarch64/src/timer.rs], Module [Tm]): the timer table, arming and
      the interrupt handler; Module [Smp] has the handler as atomic steps of
      several cores.
    - [Trap] ([aarch64/src/trap.rs], [aarch64/src/reg/esr_el1.rs], the acknowledge
      of [aarch64/src/gic.rs]): the exception entry and the system-call dispatch,
      which composes all of the above.
    - [Userlib] ([std/src], Module [Us]): the library of user programs: the trap
      with its registers, the wrappers of the system calls, the program heap, the
      memory builtins, the bounded formatting of the print macros.
    - [Servers] ([std/src/console.rs], [cmd/console/src], Module [Sv]): the console
      client and the console server, in a small system of queues with the
      nameserver; the UART is an interface ([Pl011] with its laws).
    - [Display] ([aarch64/src/mailbox.rs], [cmd/mailbox/src], [cmd/display/src],
      Module [Mb]): the requests to the property mailbox, the mailbox server and
      the display server; the VideoCore is an interface ([VideoCore] with the
      laws its documentation gives).

    - [Text] (Module [Tx]): strings as lists of code points, and what the build
      tool uses of Rust's [str], [BTreeMap] and [BTreeSet].
    - [Tasks] ([xtask/src/tasks.rs], Module [Tk]): the task index of the build
      tool: front matter, references in prose, the findings of [--check], and
      [--fix].  The directory is given as data; the printed lines and the text
      written are results.

    - [X86] ([x86_64/src/dat.rs], [x86_64/src/vsvm.rs], [x86_64/src/cpu.rs], Module
      [Xd]): byte memory, the [repr(C)] layouts, descriptors, gates, the task state
      segment, the [Mach], and the part of the processor that reads them (the page
      walk, the delivery of a vector).
    - [X86Boot] ([x86_64/src/node0.rs], Module [Xb]): [init0], the page tables of the
      first core, as the stores the code makes, in order.
    - [X86Mach] (Module [Xm]): [vsvm::init] on the tables of [X86Boot].
    - [X86Trap] ([x86_64/src/trap.rs], [x86_64/src/syscall.rs],
      [x86_64/src/proc.rs], Module [Xt]): the naked functions as lists of
      instructions, with an interpreter of the instructions they use.

    - [Console] ([port/src/devcons.rs], [aarch64/src/devcons.rs], the UART drivers
      and the setup of [aarch64/src/mailbox.rs], Module [Co]): [println!], [iprint!],
      the PL011 and the mini UART over the laws of their manuals ([BcmUart]), and the
      bring-up of the console.
    - [Iprint] (Module [Ip]): [iprint!] as a step system of several cores.

    How they call each other: [Trap] runs the handlers of [KernIpc], [Loader],
    [Sched] and [Timer]; [KernIpc] runs [Ipc] over [Sched]; [Loader] runs [Elf]
    and installs into [Sched]; [Aspace] runs [Vm] over [BitmapAlloc] over
    [Addr]; [Device] runs [Vm]; [Vminit] builds the kernel tree that [Device] edits,
    and reads the devicetree with [Fdt]; [Boot] runs [BitmapAlloc] over [Fdt]; [Machine]
    joins [Heap] to [Aspace]; [Gic] runs [Device] and [Boot]'s devicetree
    queries; [Backtrace] reads user memory with [KernIpc] and names with [Demangle];
    [Userlib] traps into [Trap]; [Servers] runs [Nameserver]; [X86Mach] runs [X86]
    on the tables of [X86Boot]; [Console] runs [Device], [Boot]'s devicetree queries,
    [Gic]'s register access, [Display]'s mailbox requests and [Irq]'s guard.
    [Locks], [Irq], [QuickFit], [Nameserver] and [Tasks] stand alone: the other
    files take a section under a lock or a guard as one step.

    ** What the theorems show

    - Memory: an allocated page was free and is then marked, none is missed
      ([allocate_correct]); the boot map frees exactly the unused pages
      ([page_allocator_correct]); [map_to] changes the translation of one page
      and nothing else, through the recursive slot of a live or a foreign tree,
      and restores the slot ([map_to_correct]); a heap page given to a process
      was free and is seen by it alone ([map_user_data_page_correct]); growing a
      heap on these tables keeps all trees apart ([heap_grow_on_tables]); the
      user-range check accepts exactly the mapped ranges
      ([user_range_ok_exact]).
    - Early boot: the tables map the kernel image and the devicetree at [KZERO]
      with the right protection, and nothing else ([init_vm_correct]); the
      running kernel maps devices in them without touching that
      ([device_after_boot]).
    - The kernel heap: live blocks are disjoint and aligned and a reallocation
      keeps the bytes, as long as requests are small ([heap_safe]); large ones
      break it ([large_requests_broken]).
    - The devicetree: the iterators end and give the nodes of a tree in
      preorder, a query finds what the tree holds, [reg] values round trip.
    - Locks and masks: one holder at a time, in the order of arrival
      ([mutual_exclusion], [handover_fifo]); a one-time cell is seen only when it
      is complete ([once_published]); nested guards restore the mask
      ([guards_nest]).
    - The interrupt controller: what the bring-up leaves enabled
      ([bring_up_correct]).
    - Messages: the ring buffer refines a bounded FIFO; messages come out in
      order and exactly once; no channel operation panics or leaves a stale
      waiter; a blocked sender goes on when there is room; a message crosses
      address spaces intact ([message_crosses]), on the page tables themselves and
      with nothing else changed ([message_on_tables]); the nameserver's table
      refines a map with a capacity ([nameserver_refines_map]).
    - Scheduling: in every reachable state at most one process is Running and it
      is the current one ([reachable_single_running]); the choice is by urgency,
      then round robin; a switch does exactly what it should; the tick preempts,
      end to end from the interrupt to the return ([tick_preempts]).
    - Processes: the reader accepts exactly the well-formed executables; a loaded
      image has the right bytes, protection, stack and heap; a spawn installs
      exactly one child; the death of a process touches nobody else
      ([process_death_isolated]); a trap preserves the registers it must.
    - Faults: a backtrace ends whatever the stack holds, and names the nearest
      symbol ([backtrace_bounded]); the demangler undoes the mangling
      ([demangle_roundtrip]).
    - User space: a program's blocks are disjoint and mapped ([user_heap_safe]);
      what is printed on every branch ([printing_exact]); the memory builtins
      ([builtins_correct]); data written to the console reaches the UART in
      order, through the nameserver and the console server
      ([console_write_delivers]); the display server gets the frame buffer that
      the firmware configured ([display_gets_framebuffer]) and draws its frames
      exactly ([write_frame_exact]).
    - The task index: a well-formed header is read back exactly
      ([front_matter_roundtrip]) and every loaded file is well typed
      ([load_well_typed]); references are found without a slice out of range and
      reported at their line ([extract_refs_total], [unresolved_refs_located]); the
      index check is exact ([index_check_exact]); [--fix] reconciles the list and
      is idempotent ([fix_reconciles]).
    - Timers: due timers fire once, in order, and the hardware is armed in the
      future; several cores never claim one periodic expiry twice.
    - The x86_64 port: the first address space maps exactly what it means to, for
      every 64-bit address ([init0_maps_exactly]), and shows its own tables at
      their recursive addresses, one excepted ([recursive_region]); every vector is
      delivered to its stub on its stack ([traps_delivered]); a trap hands over and
      restores every register ([trap_round_trip]); a context switched out is
      resumed as it was ([swtch_resumes]).
    - The kernel's console: it comes up on the mapped registers and prints exactly
      its text ([console_comes_up]); [iprint!] keeps texts whole and in order on
      several cores ([iprint_interlock]) and never waits ([iprint_wait_free]).
    - Where the code does something else than it says, a theorem or lemma shows
      the exact behaviour (for example [deallocate_wrong_page],
      [second_sender_overwrites_first], [heap_regrow_remaps],
      [oneshot_restart_fires_early], [device_mappings_overlap],
      [long_names_collide], [short_message_panics], [init_cpu_reaches_shared],
      [long_number_panics], [underscore_misread], [second_results_lost],
      [alloc_page_reused], [short_request_exits], [request_size_short], [io_ports_open],
      [special_trap], [ret_shifted], [no_uart_hangs],
      [last_block_lost], [self_slot_reached], [first_line_ignored],
      [fix_keeps_done_path], [fix_drops_cr]).

    ** Loops and fuel

    Loops over arrays and ranges are structural.  The others take fuel, and a
    theorem that says a call returns also says the fuel is enough: one unit per
    pass of the blocking loops of [send] and [receive] (the theorems take one
    more than the passes they need), [(hi - lo) / 4096 + 1] for the pages of a
    segment, [size / 4096 + 2] and [n / 4096 + 3] for the page loops of
    [sys_map_mmio] and [user_range_ok], one per bitmap byte for the scan of the
    allocator, one per byte of the token block for the devicetree iterators, one per
    byte and one for the demangler, 33 for the 32 frames of a backtrace, one per
    message and one for a console write, 33 and 481 for the columns and rows of a
    frame, one per character and one for the references of a line, as many polls of a device register as its laws allow, and
    257 passes for the gap before an aligned block that the kernel heap gives
    back in pieces of at least 64 bytes, which is at most 16384 bytes long.

    ** Assumptions

    The workspace builds with overflow checks and debug assertions on, so
    overflow panics.  The machine is one core, except in [Smp], [Locks], [Irq],
    [Gic] and [Iprint]: a section under a lock or with interrupts masked is one step, and
    while a process is suspended the rest of the machine is an arbitrary
    function ([others]).  Memory is sequentially consistent and there is no TLB:
    barriers and invalidations have no effect in the model.  A tree of tables
    is described by its paths; class [Looped] says which tables have a pointer
    to themselves in the last slot: the root alone in the trees of processes
    ([no_loops]), and all tables of early boot in the kernel's ([boot_loops]).

    In the x86_64 files a call from assembly to a Rust function is any function
    that keeps the C calling convention ([trap_round_trip] states it), and the
    instructions act on the registers, the memory and the two flags they test.

    ** Not modelled

    The assembly of the aarch64 port and of the boot
    paths, the formatting of printed lines, tracing, the riscv64 port, the rest of the build tool (command
    lines and processes) and the test programs.  [LoaderOps], the loader's interface of the
    memory system, has no instance over the page tables, as [Machine] and [Umem]
    have for the heap and for user memory. *)

From stdpp Require Export base tactics numbers list list_numbers gmap strings.
From Stdlib Require Export ZArith Znumtheory Lia Sorted.

#[global] Open Scope Z_scope.

(** ** Outcomes of Rust code

    The workspace builds every profile with [overflow-checks] and
    [debug-assertions] on, so arithmetic overflow, an index out of range, a
    failed assertion and an [unwrap] of [None] all panic.  [Timeout] marks a loop
    that has not ended: one that used up the fuel its Rocq definition was given,
    or one the code never leaves (it spins when there is no current process). *)

Inductive res (A : Type) : Type :=
  | Ok (a : A)
  | Panic
  | Timeout.

Arguments Ok {A} a.
Arguments Panic {A}.
Arguments Timeout {A}.

#[global] Instance res_ret : MRet res := @Ok.

#[global] Instance res_bind : MBind res := fun A B f m =>
  match m with
  | Ok a => f a
  | Panic => Panic
  | Timeout => Timeout
  end.

#[global] Instance res_fmap : FMap res := fun A B f m =>
  match m with
  | Ok a => Ok (f a)
  | Panic => Panic
  | Timeout => Timeout
  end.

#[global] Instance res_eq_dec {A} `{EqDecision A} : EqDecision (res A).
Proof. solve_decision. Defined.

#[global] Instance Ok_inj {A} : Inj (=) (=) (@Ok A).
Proof. by intros ?? [=]. Qed.

Definition is_ok {A} (m : res A) : bool :=
  match m with Ok _ => true | _ => false end.

(** Rust's [Result]. *)
Inductive result (A E : Type) : Type :=
  | Val (a : A)
  | Err (e : E).

Arguments Val {A E} a.
Arguments Err {A E} e.

#[global] Instance result_eq_dec {A E} `{EqDecision A, EqDecision E} : EqDecision (result A E).
Proof. solve_decision. Defined.

(** [assert!] and [debug_assert!]. *)
Definition assert (b : bool) : res unit := if b then Ok tt else Panic.

(** [Option::unwrap] / [expect]. *)
Definition unwrap {A} (o : option A) : res A :=
  match o with Some a => Ok a | None => Panic end.

(** The [?] operator: an [Err] returns from the enclosing function. *)
Definition try_bind {A B E} (m : res (result A E)) (f : A -> res (result B E)) : res (result B E) :=
  r ← m; match r with Val a => f a | Err e => Ok (Err e) end.

Notation "x ←? y ; z" := (try_bind y (fun x => z))
  (at level 20, y at level 100, z at level 200, only parsing) : stdpp_scope.

(** [ok_or(e)?]. *)
Definition ok_or {A E} (o : option A) (e : E) : res (result A E) :=
  Ok (match o with Some a => Val a | None => Err e end).

(** ** Machine integers

    A [w]-bit unsigned integer is a [Z] in [0, 2^w).  [usize] and [u64] are both
    64 bits wide on the target. *)

Definition W64 : Z := 2 ^ 64.
Definition W32 : Z := 2 ^ 32.
Definition W16 : Z := 2 ^ 16.
Definition W8 : Z := 2 ^ 8.

Definition is_u (w n : Z) : Prop := 0 <= n < w.
Abbreviation is_u64 := (is_u W64).
Abbreviation is_u32 := (is_u W32).
Abbreviation is_u16 := (is_u W16).
Abbreviation is_u8 := (is_u W8).

(** Checked arithmetic ([+], [-], [*], [/], [%] with overflow checks). *)
Definition uadd (a b : Z) : res Z := if a + b <? W64 then Ok (a + b) else Panic.
Definition usub (a b : Z) : res Z := if b <=? a then Ok (a - b) else Panic.
Definition umul (a b : Z) : res Z := if a * b <? W64 then Ok (a * b) else Panic.
Definition udiv (a b : Z) : res Z := if b =? 0 then Panic else Ok (a / b).
Definition umod (a b : Z) : res Z := if b =? 0 then Panic else Ok (a mod b).

(** [checked_add] / [checked_sub] / [checked_mul] / [saturating_sub] /
    [wrapping_add] on [u64]. *)
Definition checked_add (a b : Z) : option Z :=
  if a + b <? W64 then Some (a + b) else None.
Definition checked_sub (a b : Z) : option Z :=
  if b <=? a then Some (a - b) else None.
Definition checked_mul (a b : Z) : option Z :=
  if a * b <? W64 then Some (a * b) else None.
Definition saturating_sub (a b : Z) : Z := Z.max 0 (a - b).
Definition saturating_add (a b : Z) : Z := Z.min (W64 - 1) (a + b).
Definition wrapping_add (a b : Z) : Z := (a + b) mod W64.
Definition wrapping_sub (a b : Z) : Z := (a - b) mod W64.

(** [!n] on a [w]-bit integer. *)
Definition unot (w n : Z) : Z := w - 1 - n.

(** [is_power_of_two]: exactly one bit set. *)
Definition is_power_of_two (n : Z) : bool := (0 <? n) && (Z.land n (n - 1) =? 0).

(** Bit helpers on bytes and words. *)
Definition set_bit (n i : Z) : Z := Z.lor n (Z.shiftl 1 i).
Definition clear_bit (w n i : Z) : Z := Z.land n (unot w (Z.shiftl 1 i)).

(** [u8::trailing_ones] and [u8::count_zeros]. *)
Fixpoint count_trailing_ones (n : nat) (b i : Z) : Z :=
  match n with
  | O => 0
  | S n' => if Z.testbit b i then 1 + count_trailing_ones n' b (i + 1) else 0
  end.
Definition trailing_ones (b : Z) : Z := count_trailing_ones 8 b 0.

Definition bit_range (n : nat) : list Z := seqZ 0 (Z.of_nat n).
Definition count_zeros (b : Z) : Z :=
  Z.of_nat (length (filter (fun i => Z.testbit b i = false) (bit_range 8))).

(** ** Arrays and slices: indexing panics out of range *)

Section arrays.
Context {A : Type}.

Definition len (l : list A) : Z := Z.of_nat (length l).

Definition aget (l : list A) (i : Z) : res A :=
  if i <? 0 then Panic else unwrap (l !! Z.to_nat i).

Definition aset (l : list A) (i : Z) (v : A) : res (list A) :=
  if (0 <=? i) && (i <? len l) then Ok (<[Z.to_nat i := v]> l) else Panic.

(** [slice.get(start..start + n)]. *)
Definition sget (l : list A) (start n : Z) : option (list A) :=
  if (0 <=? start) && (0 <=? n) && (start + n <=? len l)
  then Some (take (Z.to_nat n) (drop (Z.to_nat start) l)) else None.
End arrays.

(** ** Little- and big-endian byte strings *)

Fixpoint from_le (bs : list Z) : Z :=
  match bs with
  | [] => 0
  | b :: bs' => b + W8 * from_le bs'
  end.

Fixpoint to_le (n : nat) (z : Z) : list Z :=
  match n with
  | O => []
  | S n' => z mod W8 :: to_le n' (z / W8)
  end.

Definition from_be (bs : list Z) : Z := from_le (reverse bs).
Definition to_be (n : nat) (z : Z) : list Z := reverse (to_le n z).

(** ** Generic lemmas *)

#[global] Instance Z_divide_dec a b : Decision (a | b) := Zdivide_dec a b.

Lemma bind_Ok {A B} (m : res A) (f : A -> res B) b :
  m ≫= f = Ok b <-> exists a, m = Ok a /\ f a = Ok b.
Proof. destruct m; simpl; naive_solver. Qed.

Lemma fmap_Ok {A B} (m : res A) (f : A -> B) b :
  f <$> m = Ok b <-> exists a, m = Ok a /\ f a = b.
Proof. destruct m; unfold fmap, res_fmap; naive_solver. Qed.

Lemma assert_Ok b u : assert b = Ok u <-> b = true.
Proof. destruct u, b; naive_solver. Qed.

Lemma unwrap_Ok {A} (o : option A) a : unwrap o = Ok a <-> o = Some a.
Proof. destruct o; naive_solver. Qed.

Lemma W64_val : W64 = 18446744073709551616.
Proof. reflexivity. Qed.

Lemma uadd_ok a b : a + b < W64 -> uadd a b = Ok (a + b).
Proof. unfold uadd; intros; by rewrite (proj2 (Z.ltb_lt _ _)). Qed.

Lemma usub_ok a b : b <= a -> usub a b = Ok (a - b).
Proof. unfold usub; intros; by rewrite (proj2 (Z.leb_le _ _)). Qed.

Lemma umul_ok a b : a * b < W64 -> umul a b = Ok (a * b).
Proof. unfold umul; intros; by rewrite (proj2 (Z.ltb_lt _ _)). Qed.

Lemma udiv_ok a b : b <> 0 -> udiv a b = Ok (a / b).
Proof. unfold udiv; intros; by rewrite (proj2 (Z.eqb_neq _ _)). Qed.

Lemma umod_ok a b : b <> 0 -> umod a b = Ok (a mod b).
Proof. unfold umod; intros; by rewrite (proj2 (Z.eqb_neq _ _)). Qed.

Lemma bind_uadd {B} a b (f : Z -> res B) : a + b < W64 -> uadd a b ≫= f = f (a + b).
Proof. intros; by rewrite uadd_ok. Qed.

Lemma bind_usub {B} a b (f : Z -> res B) : b <= a -> usub a b ≫= f = f (a - b).
Proof. intros; by rewrite usub_ok. Qed.

Lemma bind_umul {B} a b (f : Z -> res B) : a * b < W64 -> umul a b ≫= f = f (a * b).
Proof. intros; by rewrite umul_ok. Qed.

Lemma uadd_Ok a b c : uadd a b = Ok c <-> c = a + b /\ a + b < W64.
Proof. unfold uadd; destruct (Z.ltb_spec (a + b) W64); naive_solver lia. Qed.

Lemma usub_Ok a b c : usub a b = Ok c <-> c = a - b /\ b <= a.
Proof. unfold usub; destruct (Z.leb_spec b a); naive_solver lia. Qed.

Lemma umul_Ok a b c : umul a b = Ok c <-> c = a * b /\ a * b < W64.
Proof. unfold umul; destruct (Z.ltb_spec (a * b) W64); naive_solver lia. Qed.

Lemma checked_add_Some a b c : checked_add a b = Some c <-> c = a + b /\ a + b < W64.
Proof. unfold checked_add; destruct (Z.ltb_spec (a + b) W64); naive_solver lia. Qed.

Lemma checked_sub_Some a b c : checked_sub a b = Some c <-> c = a - b /\ b <= a.
Proof. unfold checked_sub; destruct (Z.leb_spec b a); naive_solver lia. Qed.

Section array_lemmas.
Context {A : Type}.
Implicit Types (l : list A) (i : Z).

Lemma aget_Ok l i v : aget l i = Ok v <-> 0 <= i /\ l !! Z.to_nat i = Some v.
Proof.
  unfold aget; destruct (Z.ltb_spec i 0); [naive_solver lia|].
  rewrite unwrap_Ok; naive_solver.
Qed.

Lemma aget_lt l i : 0 <= i < len l -> exists v, aget l i = Ok v /\ l !! Z.to_nat i = Some v.
Proof.
  unfold len; intros Hi.
  destruct (lookup_lt_is_Some_2 l (Z.to_nat i)) as [v Hv]; [lia|].
  exists v; rewrite aget_Ok; naive_solver lia.
Qed.

Lemma aget_ge l i : len l <= i -> aget l i = Panic.
Proof.
  unfold aget, len; intros; rewrite lookup_ge_None_2 by lia; by destruct (i <? 0).
Qed.

Lemma aset_Ok l i v l' :
  aset l i v = Ok l' <-> 0 <= i < len l /\ l' = <[Z.to_nat i := v]> l.
Proof.
  unfold aset; destruct (Z.leb_spec 0 i), (Z.ltb_spec i (len l)); naive_solver lia.
Qed.

Lemma aset_lt l i v : 0 <= i < len l -> aset l i v = Ok (<[Z.to_nat i := v]> l).
Proof. intros; by apply aset_Ok. Qed.

Lemma len_app l1 l2 : len (l1 ++ l2) = len l1 + len l2.
Proof. unfold len; rewrite length_app; lia. Qed.

Lemma len_insert l (i : nat) v : len (<[i := v]> l) = len l.
Proof. unfold len; by rewrite length_insert. Qed.

Lemma len_nonneg l : 0 <= len l.
Proof. unfold len; lia. Qed.

Lemma sget_Some l s n r :
  sget l s n = Some r <->
  0 <= s /\ 0 <= n /\ s + n <= len l /\ r = take (Z.to_nat n) (drop (Z.to_nat s) l).
Proof.
  unfold sget; destruct (Z.leb_spec 0 s), (Z.leb_spec 0 n), (Z.leb_spec (s + n) (len l));
    naive_solver lia.
Qed.

Lemma sget_len l s n r : sget l s n = Some r -> len r = n.
Proof.
  rewrite sget_Some; intros (?&?&?&->); unfold len in *.
  rewrite length_take, length_drop; lia.
Qed.
End array_lemmas.

Lemma filter_ext_in {A} (P Q : A -> Prop) `{!forall x, Decision (P x), !forall x, Decision (Q x)} (l : list A) :
  (forall x, x ∈ l -> P x <-> Q x) -> filter P l = filter Q l.
Proof.
  induction l as [|x l IH]; intros HPQ; [done|]; rewrite !filter_cons, IH by (intros; apply HPQ; by right).
  specialize (HPQ x ltac:(left)) as Hx; repeat case_decide; tauto.
Qed.

(** Little-endian strings *)

Definition bytes_ok (bs : list Z) : Prop := Forall (is_u W8) bs.

Lemma to_le_ok n z : bytes_ok (to_le n z).
Proof.
  revert z; induction n; intros; constructor; [|apply IHn].
  unfold is_u, W8; apply Z.mod_pos_bound; lia.
Qed.

Lemma length_to_le n z : length (to_le n z) = n.
Proof. revert z; induction n; simpl; auto. Qed.

Lemma from_to_le n z : 0 <= z < 256 ^ Z.of_nat n -> from_le (to_le n z) = z.
Proof.
  revert z; induction n as [|n IH]; intros z Hz; [simpl in *; lia|].
  rewrite Nat2Z.inj_succ, Z.pow_succ_r in Hz by lia.
  cbn [from_le to_le]; unfold W8 in *; rewrite IH.
  - pose proof (Z.div_mod z (2^8)); lia.
  - split; [apply Z.div_pos; lia|apply Z.div_lt_upper_bound; lia].
Qed.

Lemma from_le_bound bs : bytes_ok bs -> 0 <= from_le bs < 256 ^ Z.of_nat (length bs).
Proof.
  induction 1 as [|b bs Hb _ IH]; [simpl; lia|].
  cbn [from_le length]; rewrite Nat2Z.inj_succ, Z.pow_succ_r by lia.
  unfold is_u, W8 in *; lia.
Qed.

Lemma to_from_le bs : bytes_ok bs -> to_le (length bs) (from_le bs) = bs.
Proof.
  induction 1 as [|b bs Hb _ IH]; [done|].
  cbn [from_le length to_le]; unfold is_u, W8 in *.
  rewrite (Z.mul_comm (2 ^ 8)), Z.mod_add, Z.div_add, Z.mod_small, (Z.div_small b) by lia.
  by rewrite Z.add_0_l, IH.
Qed.

(** Bits *)

Lemma land_ones_mask n k : 0 <= k -> Z.land n (2 ^ k - 1) = n mod 2 ^ k.
Proof.
  intros; rewrite <- Z.land_ones by lia; f_equal; rewrite Z.ones_equiv; lia.
Qed.

(** [!m] on [w] bits clears the bits of [m] from the all-ones word, so
    [n & !m] is [n] without the bits of [m]. *)
Lemma unot_ldiff w m : 0 <= w -> 0 <= m < 2 ^ w -> unot (2 ^ w) m = Z.ldiff (Z.ones w) m.
Proof.
  intros Hw Hm; unfold unot.
  replace (2 ^ w - 1 - m) with (Z.ones w - m) by (rewrite Z.ones_equiv; lia).
  apply Z.sub_nocarry_ldiff, Z.bits_inj'; intros j Hj.
  rewrite Z.ldiff_spec, Z.bits_0, Z.testbit_ones_nonneg by lia.
  destruct (Z.ltb_spec j w); simpl; [by rewrite andb_false_r|].
  rewrite andb_true_r; destruct (Z.eq_dec m 0) as [->|]; [apply Z.bits_0|].
  apply Z.bits_above_log2; [lia|].
  enough (Z.log2 m < w) by lia; apply Z.log2_lt_pow2; lia.
Qed.

Lemma land_unot w n m :
  0 <= w -> 0 <= n < 2 ^ w -> 0 <= m < 2 ^ w -> Z.land n (unot (2 ^ w) m) = Z.ldiff n m.
Proof.
  intros Hw Hn Hm; rewrite unot_ldiff, !Z.ldiff_land, Z.land_assoc by lia.
  by rewrite Z.land_ones, Z.mod_small by lia.
Qed.

(** Clearing the low [k] bits of a [u64] with [& !(2^k - 1)]. *)
Lemma land_unot_mask n k :
  0 <= k <= 64 -> is_u64 n -> Z.land n (unot W64 (2 ^ k - 1)) = n - n mod 2 ^ k.
Proof.
  intros Hk Hn; unfold is_u, W64 in *.
  pose proof (Z.pow_le_mono_r 2 k 64 ltac:(lia) ltac:(lia)).
  rewrite land_unot by lia.
  replace (2 ^ k - 1) with (Z.ones k) by (rewrite Z.ones_equiv; lia).
  rewrite Z.ldiff_ones_r, Z.shiftl_mul_pow2, Z.shiftr_div_pow2 by lia.
  pose proof (Z.div_mod n (2 ^ k)); lia.
Qed.

Lemma shiftl_1 i : 0 <= i -> Z.shiftl 1 i = 2 ^ i.
Proof. intros; by rewrite Z.shiftl_mul_pow2, Z.mul_1_l. Qed.

Lemma set_bit_spec n i j : 0 <= i -> 0 <= j ->
  Z.testbit (set_bit n i) j = (i =? j) || Z.testbit n j.
Proof.
  intros; unfold set_bit; rewrite Z.lor_spec, shiftl_1, Z.pow2_bits_eqb by lia.
  apply orb_comm.
Qed.

Lemma clear_bit_spec w n i j : 0 <= n < 2 ^ w -> 0 <= i < w -> 0 <= j ->
  Z.testbit (clear_bit (2 ^ w) n i) j = negb (i =? j) && Z.testbit n j.
Proof.
  intros; unfold clear_bit; rewrite shiftl_1, land_unot by
    (repeat split; try lia; apply Z.pow_lt_mono_r; lia).
  rewrite Z.ldiff_spec, Z.pow2_bits_eqb by lia; apply andb_comm.
Qed.

Lemma set_bit_u w n i : 0 <= n < 2 ^ w -> 0 <= i < w -> 0 <= set_bit n i < 2 ^ w.
Proof.
  intros Hn Hi.
  assert (0 <= set_bit n i) by (apply Z.lor_nonneg; rewrite shiftl_1 by lia; lia).
  split; [done|]. apply Z.bounded_iff_bits_nonneg; [lia|done|]; intros l Hl.
  rewrite set_bit_spec by lia; destruct (Z.eqb_spec i l); [lia|]; simpl.
  apply (Z.bounded_iff_bits_nonneg w n); lia.
Qed.

Lemma clear_bit_u w n i : 0 <= n < 2 ^ w -> 0 <= i < w -> 0 <= clear_bit (2 ^ w) n i < 2 ^ w.
Proof.
  intros Hn Hi.
  assert (0 <= clear_bit (2 ^ w) n i) by (apply Z.land_nonneg; lia).
  split; [done|]. apply Z.bounded_iff_bits_nonneg; [lia|done|]; intros l Hl.
  rewrite clear_bit_spec by lia; apply andb_false_iff; right.
  apply (Z.bounded_iff_bits_nonneg w n); lia.
Qed.

Lemma land_bit_pos n i : 0 <= n -> 0 <= i -> (0 <? Z.land n (Z.shiftl 1 i)) = Z.testbit n i.
Proof.
  intros; rewrite shiftl_1 by lia.
  destruct (Z.testbit n i) eqn:E.
  - apply Z.ltb_lt. assert (0 <= Z.land n (2 ^ i)) by (apply Z.land_nonneg; lia).
    enough (Z.land n (2 ^ i) <> 0) by lia; intros Hz.
    apply (f_equal (fun z => Z.testbit z i)) in Hz.
    by rewrite Z.land_spec, Z.pow2_bits_true, Z.bits_0, E in Hz by lia.
  - apply Z.ltb_ge; replace (Z.land n (2 ^ i)) with 0; [done|].
    symmetry; apply Z.bits_inj'; intros j Hj.
    rewrite Z.land_spec, Z.pow2_bits_eqb, Z.bits_0 by lia.
    destruct (Z.eqb_spec i j); [by subst; rewrite E|by rewrite andb_false_r].
Qed.

(** A byte other than [0xff] has its lowest clear bit at [trailing_ones]. *)
Lemma count_trailing_ones_spec n b i : 0 <= i ->
  (exists j, i <= j < i + Z.of_nat n /\ Z.testbit b j = false) ->
  i <= i + count_trailing_ones n b i < i + Z.of_nat n /\
  Z.testbit b (i + count_trailing_ones n b i) = false.
Proof.
  revert i; induction n as [|n IH]; intros i Hi (j & Hj & Hb); [lia|].
  cbn [count_trailing_ones]; destruct (Z.testbit b i) eqn:E; [|rewrite Z.add_0_r; split; [lia|done]].
  assert (i <> j) by congruence.
  destruct (IH (i + 1)) as [H1 H2]; [lia|exists j; split; [lia|done]|].
  rewrite Z.add_assoc; split; [lia|done].
Qed.

Lemma byte_full b : is_u8 b -> (forall j, 0 <= j < 8 -> Z.testbit b j = true) -> b = 255.
Proof.
  intros Hb Hj; change 255 with (Z.ones 8); apply Z.bits_inj'; intros j ?.
  rewrite Z.testbit_ones_nonneg by lia; destruct (Z.ltb_spec j 8); [by apply Hj|].
  apply (Z.bounded_iff_bits_nonneg 8 b); unfold is_u, W8 in *; lia.
Qed.

Lemma trailing_ones_spec b : is_u8 b -> b <> 255 ->
  0 <= trailing_ones b < 8 /\ Z.testbit b (trailing_ones b) = false.
Proof.
  intros Hb Hne; unfold trailing_ones.
  assert (Hex : exists j, 0 <= j < 0 + Z.of_nat 8 /\ Z.testbit b j = false).
  { destruct (decide (Forall (fun j => Z.testbit b j = true) (bit_range 8))) as [HF|HF].
    - exfalso; apply Hne, byte_full; [done|]; intros j Hj.
      rewrite Forall_forall in HF; apply HF; unfold bit_range; rewrite elem_of_seqZ; lia.
    - apply not_Forall_Exists, Exists_exists in HF as (j & Hin & Hj); [|apply _].
      unfold bit_range in Hin; rewrite elem_of_seqZ in Hin.
      exists j; split; [lia|by apply not_true_is_false]. }
  by apply (count_trailing_ones_spec 8 b 0).
Qed.

Lemma is_power_of_two_spec n :
  is_power_of_two n = true <-> exists k, 0 <= k /\ n = 2 ^ k.
Proof.
  unfold is_power_of_two; rewrite andb_true_iff, Z.ltb_lt, Z.eqb_eq; split.
  - intros [Hpos Hland]; exists (Z.log2 n); split; [apply Z.log2_nonneg|].
    pose proof (Z.log2_spec n Hpos) as [Hlo Hhi].
    pose proof (Z.log2_nonneg n).
    destruct (Z.eq_dec n (2 ^ Z.log2 n)) as [|Hne]; [done|exfalso].
    assert (Hlog : Z.log2 (n - 1) = Z.log2 n) by (apply Z.log2_unique; lia).
    assert (Hb : Z.testbit (Z.land n (n - 1)) (Z.log2 n) = true).
    { rewrite Z.land_spec, Z.bit_log2 by lia.
      rewrite <- Hlog at 1; apply Z.bit_log2.
      pose proof (Z.pow_pos_nonneg 2 (Z.log2 n)); lia. }
    by rewrite Hland, Z.bits_0 in Hb.
  - intros (k & Hk & ->); split; [lia|].
    rewrite land_ones_mask by lia; apply Z.mod_same; lia.
Qed.

Lemma pow2_lt_W64 k : 0 <= k -> 2 ^ k < W64 -> k < 64.
Proof. intros ? H; unfold W64 in H; apply Z.pow_lt_mono_r_iff in H; lia. Qed.

(** ** Automation *)

Create HintDb r9.
#[export] Hint Resolve len_nonneg to_le_ok : r9.

(** Evaluate the leading checked operation of a computation, when the side
    condition is arithmetic. *)
Ltac res_arith := solve [assumption | rewrite ?W64_val in *; lia | rewrite ?W64_val in *; nia].

Ltac res_step :=
  lazymatch goal with
  | |- context [mbind _ (uadd ?a ?b)] => rewrite (bind_uadd a b) by res_arith
  | |- context [mbind _ (usub ?a ?b)] => rewrite (bind_usub a b) by res_arith
  | |- context [mbind _ (umul ?a ?b)] => rewrite (bind_umul a b) by res_arith
  end; cbn beta.

(** Split the hypotheses of the form [m ≫= f = Ok b]. *)
Ltac res_inv :=
  repeat match goal with
  | H : Ok _ = Ok _ |- _ => apply (inj Ok) in H
  | H : _ ≫= _ = Ok _ |- _ => apply bind_Ok in H as (?&?&?)
  | H : _ <$> _ = Ok _ |- _ => apply fmap_Ok in H as (?&?&?)
  | H : mret _ = Ok _ |- _ => apply (inj Ok) in H
  | H : assert _ = Ok _ |- _ => apply assert_Ok in H
  | H : unwrap _ = Ok _ |- _ => apply unwrap_Ok in H
  | H : uadd _ _ = Ok _ |- _ => apply uadd_Ok in H as [? ?]
  | H : usub _ _ = Ok _ |- _ => apply usub_Ok in H as [? ?]
  | H : umul _ _ = Ok _ |- _ => apply umul_Ok in H as [? ?]
  | H : aget _ _ = Ok _ |- _ => apply aget_Ok in H as [? ?]
  | H : aset _ _ _ = Ok _ |- _ => apply aset_Ok in H as [? ?]
  end; simplify_eq/=.

(** Turn boolean comparisons into propositions. *)
Ltac bsplit :=
  repeat match goal with
  | H : _ && _ = true |- _ => apply andb_true_iff in H as [? ?]
  | H : _ || _ = false |- _ => apply orb_false_iff in H as [? ?]
  | H : negb _ = true |- _ => apply negb_true_iff in H
  | H : negb _ = false |- _ => apply negb_false_iff in H
  | H : (_ <? _) = true |- _ => apply Z.ltb_lt in H
  | H : (_ <? _) = false |- _ => apply Z.ltb_ge in H
  | H : (_ <=? _) = true |- _ => apply Z.leb_le in H
  | H : (_ <=? _) = false |- _ => apply Z.leb_gt in H
  | H : (_ =? _) = true |- _ => apply Z.eqb_eq in H
  | H : (_ =? _) = false |- _ => apply Z.eqb_neq in H
  end.

(** Case split on the first comparison the goal branches on. *)
Ltac zcase :=
  match goal with
  | |- context [?a <? ?b] => destruct (Z.ltb_spec a b)
  | |- context [?a <=? ?b] => destruct (Z.leb_spec a b)
  | |- context [?a =? ?b] => destruct (Z.eqb_spec a b)
  end.
