(* ===== verification/Locks.v ===== *)
(** * Locks and set-once cells ([port/src/mcslock.rs], [port/src/once.rs])

    The MCS queue lock and [Once], as transition systems whose steps are the
    atomic operations of the code: any number of cores, any interleaving. *)

From S2P Require Import Prelude.

(** ** The MCS lock *)
Module Mcs.

(** A [LockNode], named by its address; every acquisition uses a node of its
    own. *)
Definition Node := Z.

(** Where the owner of a node is. *)
Inductive Pc :=
  | Out                     (** not using the lock *)
  | Cleared                 (** [next] set to null *)
  | Ready                   (** [locked] set to false *)
  | Queued (pred : Node)    (** swapped in behind [pred] *)
  | Marked (pred : Node)    (** [locked] set to true *)
  | Waiting                 (** linked; spins on [locked] *)
  | Inside                  (** holds the lock *)
  | NoNext                  (** in [unlock]: saw no successor *)
  | NeedNext                (** in [unlock]: waits for the successor *)
  | HasNext (next : Node).  (** in [unlock]: loaded the successor *)

Record Lock := { queue : option Node; next : Node -> option Node; locked : Node -> bool; pcs : Node -> Pc }.

Definition upd {B} (f : Node -> B) (n : Node) (v : B) : Node -> B := fun x => if decide (x = n) then v else f x.

Definition goto (s : Lock) (n : Node) (p : Pc) : Lock :=
  {| queue := queue s; next := next s; locked := locked s; pcs := upd (pcs s) n p |}.
Definition set_next (s : Lock) (n : Node) (v : option Node) : Lock :=
  {| queue := queue s; next := upd (next s) n v; locked := locked s; pcs := pcs s |}.
Definition set_locked (s : Lock) (n : Node) (v : bool) : Lock :=
  {| queue := queue s; next := next s; locked := upd (locked s) n v; pcs := pcs s |}.
Definition set_queue (s : Lock) (v : option Node) : Lock :=
  {| queue := v; next := next s; locked := locked s; pcs := pcs s |}.

(** The swap of [lock]. *)
Definition swap (s : Lock) (n : Node) : Lock :=
  goto (set_queue s (Some n)) n (match queue s with None => Inside | Some p => Queued p end).

(** The steps of [lock] and [unlock]; [weak] is whether a
    [compare_exchange_weak] may fail although the values are equal. *)
Inductive step (weak : bool) (s : Lock) : Lock -> Prop :=
  | l_next n : pcs s n = Out -> step weak s (goto (set_next s n None) n Cleared)
  | l_locked n : pcs s n = Cleared -> step weak s (goto (set_locked s n false) n Ready)
  | l_swap n : pcs s n = Ready -> step weak s (swap s n)
  | l_mark n p : pcs s n = Queued p -> step weak s (goto (set_locked s n true) n (Marked p))
  | l_link n p : pcs s n = Marked p -> step weak s (goto (set_next s p (Some n)) n Waiting)
  | l_enter n : pcs s n = Waiting -> locked s n = false -> step weak s (goto s n Inside)
  | u_load n : pcs s n = Inside ->
      step weak s (goto s n (match next s n with None => NoNext | Some _ => NeedNext end))
  | u_cas n : pcs s n = NoNext -> queue s = Some n -> step weak s (goto (set_queue s None) n Out)
  | u_fail n : pcs s n = NoNext -> queue s <> Some n \/ weak = true -> step weak s (goto s n NeedNext)
  | u_next n m : pcs s n = NeedNext -> next s n = Some m -> step weak s (goto s n (HasNext m))
  | u_wake n m : pcs s n = HasNext m -> step weak s (goto (set_locked s m false) n Out).

Definition free : Lock := {| queue := None; next := fun _ => None; locked := fun _ => false; pcs := fun _ => Out |}.

(** Between the swap and the hand-over. *)
Definition engaged (p : Pc) : bool := match p with Out | Cleared | Ready => false | _ => true end.

Definition holding (p : Pc) : bool :=
  match p with Inside | NoNext | NeedNext | HasNext _ => true | _ => false end.

(** *** The queue behind the pointers *)

Definition head_ok (s : Lock) (n : Node) : Prop :=
  match pcs s n with
  | Inside | NoNext | NeedNext => True
  | HasNext m => next s n = Some m
  | Waiting => locked s n = false
  | _ => False
  end.

(** [n] right behind [p]. *)
Definition link_ok (s : Lock) (p n : Node) : Prop :=
  match pcs s n with
  | Queued p' => p' = p /\ next s p = None
  | Marked p' => p' = p /\ next s p = None /\ locked s n = true
  | Waiting => next s p = Some n /\ locked s n = true
  | _ => False
  end.

(** The nodes in the order of their swaps. *)
Record queue_ok (s : Lock) (q : list Node) : Prop := {
  q_nodup : NoDup q;
  q_engaged : forall n, n ∈ q <-> engaged (pcs s n) = true;
  q_last : queue s = last q;
  q_head : forall n, head q = Some n -> head_ok s n;
  q_links : forall i p n, q !! i = Some p -> q !! S i = Some n -> link_ok s p n;
  q_end : forall n, last q = Some n -> next s n = None;
  q_fresh : forall n, pcs s n = Cleared \/ pcs s n = Ready -> next s n = None;
}.

Lemma upd_eq {B} (f : Node -> B) n v : upd f n v n = v.
Proof. unfold upd; by rewrite decide_True. Qed.

Lemma upd_ne {B} (f : Node -> B) n v x : x <> n -> upd f n v x = f x.
Proof. intros; unfold upd; by rewrite decide_False. Qed.

Section queue.
Context (s : Lock) (q : list Node) (Hq : queue_ok s q).

Lemma lookup_inj i j n : q !! i = Some n -> q !! j = Some n -> i = j.
Proof. apply NoDup_lookup, Hq. Qed.

(** A node that is not waiting behind another is the head. *)
Lemma at_head n : engaged (pcs s n) = true ->
  (match pcs s n with Queued _ | Marked _ => False | Waiting => locked s n = false | _ => True end) ->
  q !! 0%nat = Some n.
Proof.
  intros He Hn; apply (q_engaged s q Hq), list_elem_of_lookup in He as [[|i] Hi]; [done|].
  destruct (lookup_lt_is_Some_2 q i) as [p Hp]; [apply lookup_lt_Some in Hi; lia|].
  pose proof (q_links s q Hq i p n Hp Hi) as Hl; unfold link_ok in Hl; destruct (pcs s n); try done.
  destruct Hl; congruence.
Qed.

(** A node still linking itself is right behind its predecessor. *)
Lemma behind n p : pcs s n = Queued p \/ pcs s n = Marked p ->
  exists i, q !! i = Some p /\ q !! S i = Some n /\ next s p = None.
Proof.
  intros Hpc; assert (He : n ∈ q) by (apply (q_engaged s q Hq); by destruct Hpc as [-> | ->]).
  apply list_elem_of_lookup in He as [[|i] Hi].
  - assert (Hh : head_ok s n) by (apply (q_head s q Hq); by rewrite head_lookup).
    unfold head_ok in Hh; by destruct Hpc as [Hp|Hp]; rewrite Hp in Hh.
  - destruct (lookup_lt_is_Some_2 q i) as [p' Hp']; [apply lookup_lt_Some in Hi; lia|].
    pose proof (q_links s q Hq i p' n Hp' Hi) as Hl; unfold link_ok in Hl.
    destruct Hpc as [Hp|Hp]; rewrite Hp in Hl; destruct Hl as [-> Hl]; exists i; intuition.
Qed.

Lemma head_last n : q !! 0%nat = Some n -> last q = Some n -> q = [n].
Proof.
  intros H0 Hl; rewrite last_lookup in Hl; pose proof (lookup_inj _ _ _ H0 Hl) as Hp.
  destruct q as [|x [|y r]]; cbn in *; [done|by injection H0 as ->|lia].
Qed.

Lemma not_last i p n : q !! i = Some p -> q !! S i = Some n -> last q <> Some p.
Proof.
  intros Hp Hn Hl; rewrite last_lookup in Hl; pose proof (lookup_inj _ _ _ Hp Hl) as ->.
  apply lookup_lt_Some in Hn; lia.
Qed.

(** A step of the head that changes only its program counter. *)
Lemma head_moves n p : q !! 0%nat = Some n -> engaged p = true ->
  (match p with Inside | NoNext | NeedNext => True | HasNext m => next s n = Some m | _ => False end) ->
  queue_ok (goto s n p) q.
Proof.
  intros H0 He Hp; pose proof Hq as [H1 H2 H3 H4 H5 H6 H7]; split; cbn; auto.
  - intros x; rewrite H2; destruct (decide (x = n)) as [->|Hx]; [|by rewrite upd_ne].
    rewrite upd_eq, He; split; [done|]; intros _; apply H2; by eapply list_elem_of_lookup_2.
  - intros x Hx; rewrite head_lookup, H0 in Hx; injection Hx as <-; unfold head_ok; cbn; rewrite upd_eq; by destruct p.
  - intros i p' x Hi Hx; specialize (H5 i p' x Hi Hx); unfold link_ok in *; cbn; rewrite upd_ne; [done|].
    intros ->; by pose proof (lookup_inj _ _ _ H0 Hx).
  - intros x; destruct (decide (x = n)) as [->|Hx]; [rewrite upd_eq; intros [-> | ->]; done|].
    rewrite upd_ne by done; apply H7.
Qed.

(** A step of a node outside the queue. *)
Lemma outside_moves s' n : n ∉ q -> queue s' = queue s ->
  (forall x, x <> n -> pcs s' x = pcs s x /\ next s' x = next s x /\ locked s' x = locked s x) ->
  engaged (pcs s' n) = false -> (pcs s' n <> Out -> next s' n = None) -> queue_ok s' q.
Proof.
  intros Hn Hqu Hx He Hf; pose proof Hq as [H1 H2 H3 H4 H5 H6 H7].
  assert (Hin : forall x, x ∈ q -> pcs s' x = pcs s x /\ next s' x = next s x /\ locked s' x = locked s x)
    by (intros x Hxq; apply Hx; by intros ->).
  split; auto.
  - intros x; rewrite H2; destruct (decide (x = n)) as [->|Hne]; [|by rewrite (proj1 (Hx x Hne))].
    rewrite He; split; [|done]; intros Hen; by destruct Hn; apply H2.
  - congruence.
  - intros x Hhd; destruct (Hin x) as (Ha & Hb & Hc); [rewrite head_lookup in Hhd; by eapply list_elem_of_lookup_2|].
    unfold head_ok; rewrite Ha, Hb, Hc; by apply H4.
  - intros i p x Hp Hxi; destruct (Hin p) as (_ & Hb & _); [by eapply list_elem_of_lookup_2|].
    destruct (Hin x) as (Ha & _ & Hc); [by eapply list_elem_of_lookup_2|].
    unfold link_ok; rewrite Ha, Hb, Hc; by apply (H5 i p x).
  - intros x Hl; destruct (Hin x) as (_ & -> & _); [rewrite last_lookup in Hl; by eapply list_elem_of_lookup_2|].
    by apply H6.
  - intros x Hxp; destruct (decide (x = n)) as [->|Hne]; [apply Hf; destruct Hxp; congruence|].
    destruct (Hx x Hne) as (Ha & -> & _); apply H7; by rewrite <- Ha.
Qed.

Lemma not_engaged n : engaged (pcs s n) = false -> n ∉ q.
Proof. intros He Hin; apply (q_engaged s q Hq) in Hin; congruence. Qed.

Lemma swap_ok n : pcs s n = Ready -> queue_ok (swap s n) (q ++ [n]).
Proof.
  intros Hpc; assert (Hn : n ∉ q) by (apply not_engaged; by rewrite Hpc).
  pose proof Hq as [H1 H2 H3 H4 H5 H6 H7]; pose proof (H7 n (or_intror Hpc)) as Hnext.
  set (p0 := match queue s with None => Inside | Some p => Queued p end).
  assert (Hne : forall x, x ∈ q -> upd (pcs s) n p0 x = pcs s x) by (intros x Hx; apply upd_ne; by intros ->).
  split; unfold swap; cbn; fold p0.
  - apply NoDup_app; split_and!; [done|intros x Hx ->%list_elem_of_singleton; done|apply NoDup_singleton].
  - intros x; rewrite elem_of_app, list_elem_of_singleton; destruct (decide (x = n)) as [->|Hx].
    + rewrite upd_eq; split; [|by right]; intros _; unfold p0; by destruct (queue s).
    + rewrite upd_ne by done; rewrite H2; naive_solver.
  - by rewrite last_snoc.
  - intros x Hx; destruct q as [|y r]; cbn in Hx; injection Hx as ->; unfold head_ok; cbn.
    + rewrite upd_eq; unfold p0; by rewrite H3.
    + rewrite Hne by left; by apply (H4 x).
  - intros i p x Hp Hx; destruct (decide (S i < length q)%nat) as [Hlt|Hge].
    + rewrite lookup_app_l in Hp, Hx by lia; specialize (H5 i p x Hp Hx); unfold link_ok in *; cbn.
      rewrite Hne by (by eapply list_elem_of_lookup_2); done.
    + assert (Hlen : length q = S i) by (apply lookup_lt_Some in Hx; rewrite length_app in Hx; cbn in Hx; lia).
      rewrite lookup_app_l in Hp by lia; rewrite lookup_app_r, Hlen, Nat.sub_diag in Hx by lia; injection Hx as <-.
      assert (Hlp : last q = Some p) by (rewrite last_lookup, Hlen; exact Hp).
      unfold link_ok; cbn; rewrite upd_eq; unfold p0; rewrite H3, Hlp; split; [done|by apply H6].
  - intros x; rewrite last_snoc; by intros [= <-].
  - intros x; destruct (decide (x = n)) as [->|Hx]; [done|]; rewrite upd_ne by done; apply H7.
Qed.

Lemma mark_ok n p : pcs s n = Queued p -> queue_ok (goto (set_locked s n true) n (Marked p)) q.
Proof.
  intros Hpc; destruct (behind n p (or_introl Hpc)) as (i & Hp & Hn & Hnone).
  pose proof Hq as [H1 H2 H3 H4 H5 H6 H7]; split; cbn; auto.
  - intros x; rewrite H2; destruct (decide (x = n)) as [->|]; [by rewrite upd_eq, Hpc|by rewrite upd_ne].
  - intros x Hx; specialize (H4 x Hx); unfold head_ok in *; cbn; destruct (decide (x = n)) as [->|].
    + by rewrite Hpc in H4.
    + by rewrite !upd_ne.
  - intros j p' x Hj Hx; specialize (H5 j p' x Hj Hx); unfold link_ok in *; cbn; destruct (decide (x = n)) as [->|].
    + rewrite !upd_eq; rewrite Hpc in H5; destruct H5 as [-> ?]; done.
    + by rewrite !upd_ne.
  - intros x; destruct (decide (x = n)) as [->|]; [rewrite upd_eq; intros []; done|].
    rewrite upd_ne by done; apply H7.
Qed.

Lemma link_step_ok n p : pcs s n = Marked p -> queue_ok (goto (set_next s p (Some n)) n Waiting) q.
Proof.
  intros Hpc; destruct (behind n p (or_intror Hpc)) as (i & Hp & Hn & Hnone).
  assert (Hnp : n <> p) by (intros ->; pose proof (lookup_inj _ _ _ Hp Hn); lia).
  pose proof Hq as [H1 H2 H3 H4 H5 H6 H7]; split; cbn; auto.
  - intros x; rewrite H2; destruct (decide (x = n)) as [->|]; [by rewrite upd_eq, Hpc|by rewrite upd_ne].
  - intros x Hx; specialize (H4 x Hx); unfold head_ok in *; cbn; destruct (decide (x = n)) as [->|].
    + by rewrite Hpc in H4.
    + rewrite (upd_ne (pcs s)) by done; destruct (pcs s x) eqn:E; try done.
      rewrite upd_ne; [done|]; intros ->; congruence.
  - intros j p' x Hj Hx; specialize (H5 j p' x Hj Hx); unfold link_ok in *; cbn; destruct (decide (x = n)) as [->|Hxn].
    + rewrite upd_eq; rewrite Hpc in H5; destruct H5 as [-> [_ Hl]]; by rewrite upd_eq.
    + rewrite (upd_ne (pcs s)) by done; rewrite upd_ne; [done|]; intros ->.
      pose proof (lookup_inj _ _ _ Hp Hj); subst j; congruence.
  - intros x Hx; destruct (decide (x = p)) as [->|]; [by destruct (not_last i p n Hp Hn)|rewrite upd_ne by done; by apply H6].
  - intros x; destruct (decide (x = n)) as [->|]; [rewrite upd_eq; intros []; done|].
    rewrite upd_ne by done; intros Hx; rewrite upd_ne; [by apply H7|]; intros ->.
    assert (Hpe : engaged (pcs s p) = true) by (apply H2; by eapply list_elem_of_lookup_2).
    by destruct Hx as [Hx|Hx]; rewrite Hx in Hpe.
Qed.

Lemma cas_ok n : pcs s n = NoNext -> queue s = Some n -> queue_ok (goto (set_queue s None) n Out) [].
Proof.
  intros Hpc Hqu; assert (H0 : q !! 0%nat = Some n) by (apply at_head; rewrite Hpc; done).
  pose proof Hq as [H1 H2 H3 H4 H5 H6 H7]; rewrite H3 in Hqu; pose proof (head_last n H0 Hqu) as ->.
  split; cbn; try done; [constructor|..].
  - intros x; split; [by intros ?%elem_of_nil|]; destruct (decide (x = n)) as [->|Hx]; [by rewrite upd_eq|].
    rewrite upd_ne by done; intros He; apply H2, list_elem_of_singleton in He; done.
  - intros x; destruct (decide (x = n)) as [->|]; [rewrite upd_eq; intros []; done|rewrite upd_ne by done; apply H7].
Qed.

Lemma wake_ok n m : pcs s n = HasNext m ->
  exists r, q = n :: m :: r /\ queue_ok (goto (set_locked s m false) n Out) (m :: r).
Proof.
  intros Hpc; assert (H0 : q !! 0%nat = Some n) by (apply at_head; rewrite Hpc; done).
  pose proof Hq as [H1 H2 H3 H4 H5 H6 H7].
  assert (Hnm : next s n = Some m).
  { assert (Hh : head_ok s n) by (apply H4; by rewrite head_lookup); unfold head_ok in Hh; by rewrite Hpc in Hh. }
  destruct (q !! 1%nat) as [m'|] eqn:Hm1.
  2:{ assert (Hl : last q = Some n).
      { rewrite last_lookup; apply lookup_ge_None in Hm1; apply lookup_lt_Some in H0 as Hl0.
        replace (pred (length q)) with 0%nat by lia; done. }
      specialize (H6 n Hl); congruence. }
  pose proof (H5 0%nat n m' H0 Hm1) as Hl; unfold link_ok in Hl.
  assert (Hw : m' = m /\ pcs s m = Waiting).
  { destruct (pcs s m') eqn:E; try done; [destruct Hl; congruence|destruct Hl as (_ & ? & _); congruence|].
    destruct Hl as [Hl _]; split; congruence. }
  destruct Hw as [-> Hw]; destruct q as [|x [|y r]]; cbn in H0, Hm1; try done; injection H0 as ->; injection Hm1 as ->.
  exists r; split; [done|]; apply NoDup_cons in H1 as [Hnr Hnd]; pose proof Hnd as Hnd0; apply NoDup_cons in Hnd0 as [Hmr _].
  assert (Hmn : m <> n) by (intros ->; apply Hnr; left).
  assert (Hne : forall x, x ∈ m :: r -> x <> n) by (intros x Hx ->; done).
  split; cbn; [done| | | | | |].
  - intros x; destruct (decide (x = n)) as [->|Hx]; [rewrite upd_eq; split; [by intros ?|done]|].
    rewrite upd_ne by done; rewrite <- H2, (elem_of_cons _ x n); naive_solver.
  - exact H3.
  - intros x [= <-]; unfold head_ok; cbn; rewrite upd_ne, Hw by done; by rewrite upd_eq.
  - intros i p x Hp Hx; pose proof (H5 (S i) p x Hp Hx) as Hlk; unfold link_ok in *; cbn.
    rewrite (upd_ne (pcs s)) by (apply Hne; right; by eapply list_elem_of_lookup_2); rewrite upd_ne; [done|]; intros ->.
    apply Hmr; by eapply list_elem_of_lookup_2.
  - intros x Hx; by apply H6.
  - intros x; destruct (decide (x = n)) as [->|]; [rewrite upd_eq; intros []; done|rewrite upd_ne by done; apply H7].
Qed.
End queue.

Lemma step_queue weak s s' q : queue_ok s q -> step weak s s' -> exists q', queue_ok s' q'.
Proof.
  intros Hq Hst; destruct Hst as [n Hpc|n Hpc|n Hpc|n p Hpc|n p Hpc|n Hpc Hl|n Hpc|n Hpc Hqu|n Hpc Hf|n m Hpc Hnx|n m Hpc].
  - exists q; apply (outside_moves s q Hq _ n); cbn; rewrite ?upd_eq; try done.
    + apply (not_engaged s q Hq); by rewrite Hpc.
    + intros x Hx; by rewrite !upd_ne.
  - exists q; apply (outside_moves s q Hq _ n); cbn; rewrite ?upd_eq; try done.
    + apply (not_engaged s q Hq); by rewrite Hpc.
    + intros x Hx; by rewrite !upd_ne.
    + intros _; apply (q_fresh s q Hq); by left.
  - eexists; by apply swap_ok.
  - exists q; by apply mark_ok.
  - exists q; by apply link_step_ok.
  - exists q; apply head_moves; auto; apply (at_head s q Hq); by rewrite Hpc.
  - exists q; apply head_moves; auto; [apply (at_head s q Hq); by rewrite Hpc|by destruct (next s n)..].
  - eexists; by eapply cas_ok.
  - exists q; apply head_moves; auto; apply (at_head s q Hq); by rewrite Hpc.
  - exists q; apply head_moves; auto; apply (at_head s q Hq); by rewrite Hpc.
  - destruct (wake_ok s q Hq n m Hpc) as (r & _ & Hr); by eexists.
Qed.

Lemma free_queue : queue_ok free [].
Proof. split; cbn; try done; [constructor|]; intros n; split; [by intros ?%elem_of_nil|done]. Qed.

Lemma reachable_queue weak s : rtc (step weak) free s -> exists q, queue_ok s q.
Proof.
  intros H; assert (H0 : exists q, queue_ok free q) by (exists []; apply free_queue).
  revert H0; induction H as [|s1 s2 s3 Hst _ IH]; [done|]; intros [q Hq]; by apply IH, (step_queue weak s1 s2 q).
Qed.

(** C13: mutual exclusion: in every reachable state, whatever the interleaving and
    even with spurious failures of the compare-and-exchange, at most one node
    is between the acquisition of the lock and its release. *)
Theorem mutual_exclusion (weak : bool) (s : Lock) (n n' : Node) (Hreach : rtc (step weak) free s)
    (Hn : holding (pcs s n) = true) (Hn' : holding (pcs s n') = true) : n = n'.
Proof.
  destruct (reachable_queue weak s Hreach) as [q Hq].
  assert (Hh : forall x, holding (pcs s x) = true -> q !! 0%nat = Some x).
  { intros x Hx; apply (at_head s q Hq); by destruct (pcs s x). }
  pose proof (Hh n Hn); pose proof (Hh n' Hn'); congruence.
Qed.

Lemma mutual_exclusion_witness : exists s, rtc (step false) free s /\ holding (pcs s 1) = true /\
  forall n, holding (pcs s n) = true -> n = 1.
Proof.
  set (s1 := goto (set_next free 1 None) 1 Cleared); set (s2 := goto (set_locked s1 1 false) 1 Ready).
  assert (Hr : rtc (step false) free (swap s2 1)).
  { apply (rtc_l _ _ s1); [by apply l_next|]; apply (rtc_l _ _ s2); [by apply l_locked|]; apply rtc_once; by apply l_swap. }
  exists (swap s2 1); split; [exact Hr|]; split; [reflexivity|]; intros n Hn.
  exact (mutual_exclusion false (swap s2 1) n 1 Hr Hn eq_refl).
Defined.

(** *** Hand-over *)

(** The node behind [p] finishes linking itself. *)
Lemma to_waiting s q i p m : queue_ok s q -> q !! i = Some p -> q !! S i = Some m ->
  exists s', rtc (step false) s s' /\ queue_ok s' q /\ next s' p = Some m /\ pcs s' p = pcs s p.
Proof.
  intros Hq Hp Hm; pose proof (q_links s q Hq i p m Hp Hm) as Hl; unfold link_ok in Hl.
  assert (Hne : p <> m) by (intros ->; pose proof (lookup_inj s q Hq _ _ _ Hp Hm); lia).
  assert (Hmark : forall s0, queue_ok s0 q -> pcs s0 m = Marked p -> pcs s0 p = pcs s p ->
    exists s', rtc (step false) s0 s' /\ queue_ok s' q /\ next s' p = Some m /\ pcs s' p = pcs s p).
  { intros s0 Hq0 Hpc0 Hpp; eexists; split; [apply rtc_once, l_link; exact Hpc0|].
    split; [by apply link_step_ok|]; cbn; by rewrite upd_eq, upd_ne. }
  destruct (pcs s m) as [| | |p'|p'| | | | |] eqn:Hpc; try done.
  - destruct Hl as [-> Hl]; destruct (Hmark (goto (set_locked s m true) m (Marked p))) as (s' & Hr & H).
    + by apply mark_ok.
    + cbn; by rewrite upd_eq.
    + cbn; by rewrite upd_ne.
    + exists s'; split; [|exact H]; eapply rtc_l; [apply l_mark; exact Hpc|exact Hr].
  - destruct Hl as [-> Hl]; by apply Hmark.
  - destruct Hl as [Hl _]; exists s; split_and!; auto; apply rtc_refl.
Qed.

(** The holder, once its successor is linked, reaches the hand-over. *)
Lemma to_handover s q n m : queue_ok s q -> q !! 0%nat = Some n -> holding (pcs s n) = true -> next s n = Some m ->
  exists s', rtc (step false) s s' /\ queue_ok s' q /\ pcs s' n = HasNext m.
Proof.
  intros Hq H0 Hh Hnx.
  assert (Hneed : forall s0, queue_ok s0 q -> pcs s0 n = NeedNext -> next s0 n = Some m ->
    exists s', rtc (step false) s0 s' /\ queue_ok s' q /\ pcs s' n = HasNext m).
  { intros s0 Hq0 Hpc0 Hn0; eexists; split; [apply rtc_once, (u_next _ _ n m); done|].
    split; [by apply (head_moves s0)|]; cbn; by rewrite upd_eq. }
  assert (Hgo : queue_ok (goto s n NeedNext) q) by (by apply (head_moves s)).
  assert (Hpc : pcs (goto s n NeedNext) n = NeedNext) by (cbn; by rewrite upd_eq).
  destruct (pcs s n) as [| | | | | | | | |m'] eqn:E; try done.
  - destruct (Hneed _ Hgo Hpc Hnx) as (s' & Hr & H); exists s'; split; [|exact H].
    eapply rtc_l; [|exact Hr]; pose proof (u_load false s n E) as Hst; by rewrite Hnx in Hst.
  - destruct (Hneed _ Hgo Hpc Hnx) as (s' & Hr & H); exists s'; split; [|exact H].
    eapply rtc_l; [apply u_fail; [exact E|left]|exact Hr]; rewrite (q_last s q Hq); intros Hl.
    pose proof (q_end s q Hq n Hl); congruence.
  - by apply Hneed.
  - exists s; split_and!; [apply rtc_refl|done|].
    assert (Hho : head_ok s n) by (apply (q_head s q Hq); by rewrite head_lookup); unfold head_ok in Hho.
    rewrite E in Hho; congruence.
Qed.

Lemma handover_spec s n m r : queue_ok s (n :: m :: r) -> holding (pcs s n) = true ->
  exists s', rtc (step false) s s' /\ queue_ok s' (m :: r) /\ pcs s' m = Inside /\ pcs s' n = Out.
Proof.
  intros Hq Hn; destruct (to_waiting s (n :: m :: r) 0 n m Hq) as (s1 & R1 & Hq1 & Hnx & Hpc); [done..|].
  destruct (to_handover s1 (n :: m :: r) n m Hq1) as (s2 & R2 & Hq2 & Hpc2); [done|by rewrite Hpc|done|].
  destruct (wake_ok s2 _ Hq2 n m Hpc2) as (r' & [= <-] & Hq3).
  set (s3 := goto (set_locked s2 m false) n Out) in *.
  assert (Hw : pcs s3 m = Waiting /\ locked s3 m = false).
  { assert (Hmn : m <> n) by (intros ->; pose proof (q_nodup _ _ Hq2) as Hnd; apply NoDup_cons in Hnd as [Hni _]; apply Hni; left).
    pose proof (q_links _ _ Hq2 0%nat n m eq_refl eq_refl) as Hl; unfold link_ok in Hl.
    assert (Hnx2 : next s2 n = Some m).
    { pose proof (q_head _ _ Hq2 n eq_refl) as Hh; unfold head_ok in Hh; by rewrite Hpc2 in Hh. }
    cbn; rewrite upd_ne, upd_eq by done; split; [|done].
    destruct (pcs s2 m); try done; [destruct Hl; congruence|destruct Hl as (_ & ? & _); congruence]. }
  destruct Hw as [Hw Hl]; exists (goto s3 m Inside); split_and!.
  - etransitivity; [exact R1|]; etransitivity; [exact R2|].
    eapply rtc_l; [apply u_wake; exact Hpc2|]; apply rtc_once, l_enter; done.
  - by apply (head_moves s3).
  - cbn; by rewrite upd_eq.
  - cbn; rewrite upd_ne, upd_eq; [done|]; intros ->.
    pose proof (q_nodup _ _ Hq2) as Hnd; apply NoDup_cons in Hnd as [Hni _]; apply Hni; left.
Qed.

(** The lock is handed over in the order of arrival: in every reachable state
    the engaged nodes form a queue whose last element is the lock word, and,
    with a strong compare-and-exchange, whenever the first of them holds the
    lock and another is next, those two alone can always go on, without a step
    of any other core, to a state in which the next one holds the lock and the
    rest of the queue is as it was. *)
Lemma handover_fifo (s : Lock) (Hreach : rtc (step false) free s) :
  exists q, queue s = last q /\ (forall n, n ∈ q <-> engaged (pcs s n) = true) /\
    forall n m r, q = n :: m :: r -> holding (pcs s n) = true ->
      exists s', rtc (step false) s s' /\ queue_ok s' (m :: r) /\ pcs s' m = Inside /\ pcs s' n = Out.
Proof.
  destruct (reachable_queue false s Hreach) as [q Hq]; exists q; split_and!; [apply Hq|apply Hq|].
  intros n m r -> Hn; by apply handover_spec.
Qed.

(** Two contenders: the second is queued behind the first. *)
Definition one_in : Lock := swap (goto (set_locked (goto (set_next free 1 None) 1 Cleared) 1 false) 1 Ready) 1.
Definition two_queued : Lock := swap (goto (set_locked (goto (set_next one_in 2 None) 2 Cleared) 2 false) 2 Ready) 2.

Lemma one_in_reachable weak : rtc (step weak) free one_in.
Proof.
  eapply rtc_l; [by apply (l_next _ _ 1)|]; eapply rtc_l; [by apply (l_locked _ _ 1)|]; apply rtc_once; by apply (l_swap _ _ 1).
Qed.

Lemma two_queued_reachable weak : rtc (step weak) free two_queued.
Proof.
  etransitivity; [apply one_in_reachable|]; eapply rtc_l; [by apply (l_next _ _ 2)|].
  eapply rtc_l; [by apply (l_locked _ _ 2)|]; apply rtc_once; by apply (l_swap _ _ 2).
Qed.

(** With the weak compare-and-exchange of the code, [unlock] can hang: a
    reachable state in which a single core has used the lock, its
    [compare_exchange_weak] failed spuriously, and it now waits for a successor
    that does not exist; no step is possible except the arrival of another
    core. *)
Lemma weak_unlock_stuck : exists s, rtc (step true) free s /\ pcs s 1 = NeedNext /\
  (forall n, n <> 1 -> pcs s n = Out) /\
  forall s', step true s s' -> exists n, n <> 1 /\ s' = goto (set_next s n None) n Cleared.
Proof.
  set (s1 := goto one_in 1 NoNext); exists (goto s1 1 NeedNext).
  assert (Hpc : forall n, pcs (goto s1 1 NeedNext) n = if decide (n = 1) then NeedNext else Out).
  { intros n; cbn; unfold upd; by repeat case_decide. }
  split_and!.
  - etransitivity; [apply one_in_reachable|]; apply (rtc_l _ _ s1); [exact (u_load true one_in 1 eq_refl)|].
    apply rtc_once, u_fail; [reflexivity|by right].
  - by rewrite Hpc.
  - intros n Hn; by rewrite Hpc, decide_False.
  - intros s' Hst; destruct Hst as [n H|n H|n H|n p H|n p H|n H ?|n H|n H ?|n H ?|n m H Hm|n m H];
      rewrite Hpc in H; case_decide as Hn; try discriminate H; [by exists n|].
    by subst n.
Qed.
End Mcs.

(** ** [Once] *)
Module OnceCell.
Section once.
Context {T : Type}.

Definition UNINIT : Z := 0.
Definition WRITING : Z := 1.
Definition READY : Z := 2.

(** Where a core is in [set] or [get]. *)
Inductive Pc :=
  | Idle
  | Won (v : T)        (** [set]: won the election *)
  | Writing (v : T)    (** [set]: in the middle of the write *)
  | Wrote (v : T)      (** [set]: the value is in place *)
  | SawReady.          (** [get]: observed READY *)

(** The cell, the cores, and what was returned: [oks] by the successful calls of
    [set], [gets] by the calls of [get] that found the cell ready, [None] for a
    value that is not (or not completely) written. *)
Record Once := { state : Z; value : option T; pcs : Z -> Pc; oks : list T; gets : list (option T) }.

Definition goto (s : Once) (c : Z) (p : Pc) : Once :=
  {| state := state s; value := value s; pcs := Mcs.upd (pcs s) c p; oks := oks s; gets := gets s |}.
Definition with_state (s : Once) (st : Z) : Once :=
  {| state := st; value := value s; pcs := pcs s; oks := oks s; gets := gets s |}.
Definition with_value (s : Once) (v : option T) : Once :=
  {| state := state s; value := v; pcs := pcs s; oks := oks s; gets := gets s |}.
Definition ret_set (s : Once) (v : T) : Once :=
  {| state := state s; value := value s; pcs := pcs s; oks := v :: oks s; gets := gets s |}.
Definition ret_get (s : Once) (v : option T) : Once :=
  {| state := state s; value := value s; pcs := pcs s; oks := oks s; gets := v :: gets s |}.

(** A [set] that loses the election returns at once and changes nothing, as does
    a [get] that does not see READY. *)
Inductive step (s : Once) : Once -> Prop :=
  | o_win c v : pcs s c = Idle -> state s = UNINIT -> step s (goto (with_state s WRITING) c (Won v))
  | o_begin c v : pcs s c = Won v -> step s (goto (with_value s None) c (Writing v))
  | o_end c v : pcs s c = Writing v -> step s (goto (with_value s (Some v)) c (Wrote v))
  | o_publish c v : pcs s c = Wrote v -> step s (goto (ret_set (with_state s READY) v) c Idle)
  | o_ready c : pcs s c = Idle -> state s = READY -> step s (goto s c SawReady)
  | o_read c : pcs s c = SawReady -> step s (goto (ret_get s (value s)) c Idle).

Definition new : Once := {| state := UNINIT; value := None; pcs := fun _ => Idle; oks := []; gets := [] |}.

Definition writing (p : Pc) : option T := match p with Won v | Writing v | Wrote v => Some v | _ => None end.

(** At most one core writes, only while the state is WRITING; once READY the
    value is in place and everything returned is that value. *)
Definition cell_ok (s : Once) : Prop :=
  (state s = UNINIT /\ oks s = [] /\ gets s = [] /\ (forall c, pcs s c = Idle)) \/
  (state s = WRITING /\ oks s = [] /\ gets s = [] /\
     exists c v, writing (pcs s c) = Some v /\ (pcs s c = Wrote v -> value s = Some v) /\
       forall c', c' <> c -> pcs s c' = Idle) \/
  (state s = READY /\ exists v, value s = Some v /\ oks s = [v] /\ Forall (fun g => g = Some v) (gets s) /\
     forall c, pcs s c = Idle \/ pcs s c = SawReady).

Ltac at_core := cbn; unfold Mcs.upd; repeat case_decide; subst; try done; eauto.

(** While one core writes, a step is a step of that core. *)
Lemma writer_step s s' c v : state s = WRITING -> oks s = [] -> gets s = [] -> writing (pcs s c) = Some v ->
  (pcs s c = Wrote v -> value s = Some v) -> (forall c', c' <> c -> pcs s c' = Idle) -> step s s' -> cell_ok s'.
Proof.
  intros Hst Hok Hg Hw Hv Hid Hs.
  assert (Hwho : forall c0, pcs s c0 <> Idle -> c0 = c) by (intros c0 Hc0; destruct (decide (c0 = c)); [done|by destruct Hc0; apply Hid]).
  destruct Hs as [c0 v0 Hp Hu|c0 v0 Hp|c0 v0 Hp|c0 v0 Hp|c0 Hp Hr|c0 Hp];
    try (rewrite Hst in Hu; discriminate Hu); try (rewrite Hst in Hr; discriminate Hr);
    assert (c0 = c) as -> by (apply Hwho; congruence); rewrite Hp in Hw, Hv; cbn in Hw; try congruence; injection Hw as ->.
  - right; left; cbn; split_and!; auto; exists c, v; split_and!; [by at_core|at_core|intros c' Hc'; at_core].
  - right; left; cbn; split_and!; auto; exists c, v; split_and!; [by at_core|at_core|intros c' Hc'; at_core].
  - right; right; cbn; split; [done|]; exists v; rewrite Hok, Hg; split_and!; auto.
    intros c'; at_core; left; by apply Hid.
Qed.

Lemma step_cell s s' : cell_ok s -> step s s' -> cell_ok s'.
Proof.
  intros [(Hst & Hok & Hg & Hid)|[(Hst & Hok & Hg & c & v & Hw & Hv & Hid)|(Hst & v & Hv & Hok & Hg & Hid)]] Hs.
  - destruct Hs as [c0 v0 Hp Hu|c0 v0 Hp|c0 v0 Hp|c0 v0 Hp|c0 Hp Hr|c0 Hp]; try (rewrite Hid in Hp; discriminate Hp).
    + right; left; cbn; split_and!; auto; exists c0, v0; split_and!; [by at_core|at_core|intros c' Hc'; at_core].
    + by rewrite Hst in Hr.
  - by eapply writer_step.
  - destruct Hs as [c0 v0 Hp Hu|c0 v0 Hp|c0 v0 Hp|c0 v0 Hp|c0 Hp Hr|c0 Hp];
      try (by rewrite Hst in Hu); try (by destruct (Hid c0) as [H|H]; rewrite H in Hp);
      right; right; cbn; (split; [done|]); exists v; split_and!; auto; intros c; at_core.
Qed.

Lemma reachable_cell s : rtc step new s -> cell_ok s.
Proof.
  intros H; assert (H0 : cell_ok new) by (left; cbn; auto).
  revert H0; induction H as [|s1 s2 s3 Hst _ IH]; [done|]; intros Hc; by apply IH, (step_cell s1).
Qed.

(** A [Once] is set at most once and read only complete: in every interleaving
    of any number of cores at most one [set] succeeds, and every [get] that
    finds the cell ready returns, in full, the value that [set] published. *)
Lemma once_published (s : Once) (Hreach : rtc step new s) :
  (oks s = [] /\ gets s = []) \/ exists v, oks s = [v] /\ Forall (fun g => g = Some v) (gets s).
Proof.
  destruct (reachable_cell s Hreach) as [(_ & H1 & H2 & _)|[(_ & H1 & H2 & _)|(_ & v & _ & H1 & H2 & _)]]; [by left..|].
  right; by exists v.
Qed.
End once.

End OnceCell.
