(* ===== verification/Abi.v ===== *)
(** * The system-call ABI ([abi/src/lib.rs])

    The numbers and limits both the kernel and the user library read. *)

From S2P Require Import Prelude.

Definition IMAGE_BASE : Z := 0x100000.
Definition HANDLES_VA : Z := 0x1000000.
Definition PAGE_SIZE : Z := 4096.
Definition MSG_MAX : Z := 256.

Definition SYSEXIT : Z := 0.
Definition SYSYIELD : Z := 1.
Definition SYCSEND : Z := 16.
Definition SYCRECEIVE : Z := 17.
Definition SYCREPLY : Z := 18.
Definition SYSIRQCLAIM : Z := 19.
Definition SYSMAPMMIO : Z := 20.
Definition SYCCREATECHAN : Z := 21.
Definition SYS_ALLOC : Z := 22.
Definition SYS_FREE : Z := 23.
Definition SYS_SPAWN : Z := 24.
Definition SYS_CLOCK : Z := 25.
Definition SYS_RECEIVE_AT : Z := 26.
Definition SYS_ALLOC_PAGE : Z := 27.
Definition SYS_WAIT : Z := 28.
Definition WAIT_TIMEOUT : Z := 0xffffffff.
Definition WAIT_BAD_ID : Z := 0xfffffffe.
Definition SYS_KILL : Z := 29.
Definition KILL_BAD_ID : Z := 1.
Definition SYS_SETPRIO : Z := 30.
Definition SETPRIO_BAD_ID : Z := 1.
Definition SETPRIO_BAD_PRIO : Z := 2.
Definition SYS_PRINT : Z := 31.

Definition SPAWN_ERR_MIN : Z := 128.
Definition SPAWN_BAD_INDEX : Z := 128.
Definition SPAWN_NO_SLOT : Z := 129.
Definition SPAWN_BAD_STATE : Z := 130.
Definition RECEIVE_TIMEOUT : Z := 0xffff.
Definition RECEIVE_CLOSED : Z := 2.
Definition SPAWN_MAX_HANDLES : Z := 512.
