(* ===== verification/Irq.v ===== *)
(** * Interrupt masking and interrupt context ([port/src/irq.rs], [aarch64/src/irq.rs])

    The guard that masks interrupts for its lifetime, over the hooks that the
    architecture registers, and the table of interrupt depths. *)

From S2P Require Import Prelude.

Module Irq.

(** ** The hooks *)

(** [IrqOps]: the interface between the portable code and the architecture; [M] is
    the state of the calling core. *)
Record IrqOps (M : Type) := {
  mask : M -> Z * M;
  restore : Z -> M -> M;
  core_id : M -> Z;
}.
Arguments mask {M} _ _.
Arguments restore {M} _ _ _.
Arguments core_id {M} _ _.

Definition MAX_CPUS : Z := 16.

Record World (M : Type) := { cpu : M; IRQ_OPS : option (IrqOps M); INTERRUPT_DEPTH : list Z }.
Arguments cpu {M} _.
Arguments IRQ_OPS {M} _.
Arguments INTERRUPT_DEPTH {M} _.

Section port.
Context {M : Type}.
Implicit Types w : World M.

Definition with_cpu w (m : M) : World M := {| cpu := m; IRQ_OPS := IRQ_OPS w; INTERRUPT_DEPTH := INTERRUPT_DEPTH w |}.
Definition with_depth w (l : list Z) : World M := {| cpu := cpu w; IRQ_OPS := IRQ_OPS w; INTERRUPT_DEPTH := l |}.

(** The first registration stays. *)
Definition set_ops (o : IrqOps M) w : World M :=
  match IRQ_OPS w with
  | Some _ => w
  | None => {| cpu := cpu w; IRQ_OPS := Some o; INTERRUPT_DEPTH := INTERRUPT_DEPTH w |}
  end.

Definition core w : res Z :=
  let c := match IRQ_OPS w with Some o => core_id o (cpu w) | None => 0 end in
  _ ← assert (c <? MAX_CPUS); Ok c.

Definition enter_on (c : Z) w : res (World M) :=
  d ← aget (INTERRUPT_DEPTH w) c; l ← aset (INTERRUPT_DEPTH w) c (wrapping_add d 1); Ok (with_depth w l).
Definition exit_on (c : Z) w : res (World M) :=
  d ← aget (INTERRUPT_DEPTH w) c; l ← aset (INTERRUPT_DEPTH w) c (wrapping_sub d 1); Ok (with_depth w l).
Definition in_interrupt_on (c : Z) w : res bool := d ← aget (INTERRUPT_DEPTH w) c; Ok (0 <? d).

Definition enter_interrupt w : res (World M) := c ← core w; enter_on c w.
Definition exit_interrupt w : res (World M) := c ← core w; exit_on c w.
Definition in_interrupt w : res bool := c ← core w; in_interrupt_on c w.

(** ** The guard *)

(** [IrqGuard] is its saved state. *)
Definition IrqGuard : Type := option Z.

Definition new w : IrqGuard * World M :=
  match IRQ_OPS w with
  | Some o => let '(saved, m) := mask o (cpu w) in (Some saved, with_cpu w m)
  | None => (None, w)
  end.

Definition drop (g : IrqGuard) w : World M :=
  match g, IRQ_OPS w with
  | Some saved, Some o => with_cpu w (restore o saved (cpu w))
  | _, _ => w
  end.

(** ** Scopes

    Guards live on a stack: the guard created last is dropped first.  Between,
    hooks may be registered and interrupts may be taken and left. *)
Inductive event := New | Drop | SetOps (o : IrqOps M) | Enter | Exit.

Inductive step : World M * list IrqGuard -> event -> World M * list IrqGuard -> Prop :=
  | step_new w gs g w' : new w = (g, w') -> step (w, gs) New (w', g :: gs)
  | step_drop w g gs : step (w, g :: gs) Drop (drop g w, gs)
  | step_set w gs o : step (w, gs) (SetOps o) (set_ops o w, gs)
  | step_enter w gs w' : enter_interrupt w = Ok w' -> step (w, gs) Enter (w', gs)
  | step_exit w gs w' : exit_interrupt w = Ok w' -> step (w, gs) Exit (w', gs).

Inductive steps : World M * list IrqGuard -> list event -> World M * list IrqGuard -> Prop :=
  | steps_nil s : steps s [] s
  | steps_cons s e s' l s'' : step s e s' -> steps s' l s'' -> steps s (e :: l) s''.
End port.

(** ** Laws of the hooks

    What the guard relies on: [mask] masks, and [restore] of the value it
    returned undoes it. *)
Class MaskLaws {M} (o : IrqOps M) (masked : M -> bool) : Prop := {
  mask_masks m : masked (mask o m).2 = true;
  restore_mask m : restore o (mask o m).1 (mask o m).2 = m;
}.

(** A guard created and dropped leaves the world as it was. *)
Lemma drop_new {M} (masked : M -> bool) (w : World M) : match IRQ_OPS w with Some o => MaskLaws o masked | None => True end ->
  drop (new w).1 (new w).2 = w.
Proof.
  intros HM; unfold new, drop; destruct (IRQ_OPS w) as [o|] eqn:Eo; [|done]; destruct (mask o (cpu w)) as [v m] eqn:Em; cbn [fst snd with_cpu IRQ_OPS cpu]; rewrite Eo.
  pose proof (restore_mask (MaskLaws := HM) (cpu w)) as Hr; rewrite Em in Hr; cbn [fst snd] in Hr; rewrite Hr; destruct w; cbn in *; by subst.
Qed.

Section guards.
Context {M : Type} (masked : M -> bool).

(** Undoing the guards on the stack, innermost first, gives the state [m0]; while
    a guard that saved a state is there, interrupts are masked. *)
Fixpoint consistent (o : IrqOps M) (m : M) (gs : list IrqGuard) (m0 : M) : Prop :=
  match gs with
  | [] => m = m0
  | None :: gs' => consistent o m gs' m0
  | Some v :: gs' => masked m = true /\ consistent o (restore o v m) gs' m0
  end.

Definition inv (m0 : M) (s : World M * list IrqGuard) : Prop :=
  match IRQ_OPS s.1 with
  | None => Forall (fun g => g = None) s.2 /\ cpu s.1 = m0
  | Some o => MaskLaws o masked /\ consistent o (cpu s.1) s.2 m0
  end.

Definition lawful (e : event) : Prop := match e with SetOps o => MaskLaws o masked | _ => True end.

Lemma none_consistent o m gs : Forall (fun g => g = None) gs -> consistent o m gs m.
Proof. induction 1 as [|g gs -> _ IH]; done. Qed.

Lemma depth_only (w w' : World M) : enter_interrupt w = Ok w' \/ exit_interrupt w = Ok w' -> cpu w' = cpu w /\ IRQ_OPS w' = IRQ_OPS w.
Proof. intros [H|H]; unfold enter_interrupt, exit_interrupt, enter_on, exit_on in H; res_inv; done. Qed.

Lemma step_inv m0 s e s' : lawful e -> step s e s' -> inv m0 s -> inv m0 s'.
Proof.
  intros Hl Hs; destruct Hs as [w gs g w' Hn|w g gs|w gs o|w gs w' H|w gs w' H]; unfold inv; cbn [fst snd].
  - unfold new in Hn; destruct (IRQ_OPS w) as [o|] eqn:Ho.
    + intros [HM Hc]; destruct (mask o (cpu w)) as [v m] eqn:Hm; injection Hn as <- <-; cbn [with_cpu IRQ_OPS cpu]; rewrite Ho.
      pose proof (mask_masks (masked := masked) (cpu w)) as H1; pose proof (restore_mask (masked := masked) (cpu w)) as H2.
      rewrite Hm in H1, H2; cbn [fst snd] in H1, H2; split; [done|]; cbn [consistent]; by rewrite H2.
    + injection Hn as <- <-; rewrite Ho; intros [HF Hc]; split; [by constructor|done].
  - unfold drop; destruct (IRQ_OPS w) as [o|] eqn:Ho; destruct g as [v|]; cbn [with_cpu IRQ_OPS cpu]; rewrite Ho.
    + intros [HM [_ Hc]]; done.
    + done.
    + intros [HF _]; by inversion HF.
    + intros [HF Hc]; by inversion HF.
  - unfold set_ops; destruct (IRQ_OPS w) as [o'|] eqn:Ho; [by rewrite Ho|]; cbn [IRQ_OPS cpu].
    intros [HF <-]; split; [exact Hl|by apply none_consistent].
  - destruct (depth_only w w' (or_introl H)) as [-> ->]; done.
  - destruct (depth_only w w' (or_intror H)) as [-> ->]; done.
Qed.

Lemma steps_inv m0 s l s' : steps s l s' -> Forall lawful l -> inv m0 s -> inv m0 s'.
Proof.
  induction 1 as [|s e s1 l s2 Hs _ IH]; [done|]; intros [He Hl]%Forall_cons Hi; by apply IH; [|eapply step_inv].
Qed.

(** Guards nest: whatever sequence of guards created and dropped in stack
    order, of registrations and of interrupts taken and left, from a state
    without guards: when no guard is left the mask state of the core is the one
    it started with, and while a guard exists that was created after the hooks
    were registered, interrupts are masked. *)
Lemma guards_nest (w : World M) (l : list event) (w' : World M) (gs : list IrqGuard)
    (Hops : match IRQ_OPS w with Some o => MaskLaws o masked | None => True end) (Hl : Forall lawful l) (Hs : steps (w, []) l (w', gs)) :
  (gs = [] -> cpu w' = cpu w) /\ ((exists v, Some v ∈ gs) -> masked (cpu w') = true).
Proof.
  assert (Hi : inv (cpu w) (w, [])) by (unfold inv; cbn [fst snd]; destruct (IRQ_OPS w); split; done).
  pose proof (steps_inv (cpu w) _ _ _ Hs Hl Hi) as H; unfold inv in H; cbn [fst snd] in H; destruct (IRQ_OPS w') as [o|].
  - destruct H as [_ Hc]; split; [by intros ->|]; intros [v Hv]; clear -Hc Hv.
    induction gs as [|[u|] gs IH]; cbn [consistent] in Hc; [by apply elem_of_nil in Hv|by destruct Hc|].
    apply IH; [done|]; by apply elem_of_cons in Hv as [?|].
  - destruct H as [HF Hc]; split; [done|]; intros [v Hv]; rewrite Forall_forall in HF; by apply HF in Hv.
Qed.

(** The depth of a core counts its own entries and exits only. *)
Lemma depth_per_core (w w' : World M) c c' : c <> c' -> 0 <= c -> 0 <= c' -> enter_on c w = Ok w' \/ exit_on c w = Ok w' ->
  in_interrupt_on c' w' = in_interrupt_on c' w.
Proof.
  intros Hne H0 H0' [H|H]; unfold enter_on, exit_on in H; res_inv; unfold in_interrupt_on, with_depth, aget; cbn [INTERRUPT_DEPTH];
    by rewrite list_lookup_insert_ne by lia.
Qed.
End guards.

(** ** The hooks of aarch64 *)

(** The registers DAIF and MPIDR_EL1 of the calling core. *)
Record Core := { daif : Z; mpidr : Z }.
Definition DAIF_IRQ_BIT : Z := Z.shiftl 1 7.

Definition mask_irqs (m : Core) : Z * Core := (daif m, {| daif := Z.lor (daif m) DAIF_IRQ_BIT; mpidr := mpidr m |}).
Definition restore_irqs (v : Z) (m : Core) : Core := {| daif := v; mpidr := mpidr m |}.
Definition unmask_irqs (m : Core) : Core := {| daif := Z.ldiff (daif m) DAIF_IRQ_BIT; mpidr := mpidr m |}.
Definition current_core (m : Core) : Z := Z.land (mpidr m) 0xff.
Definition aarch64_ops : IrqOps Core := {| mask := mask_irqs; restore := restore_irqs; core_id := current_core |}.
Definition init (w : World Core) : World Core := set_ops aarch64_ops w.

Definition irqs_masked (m : Core) : bool := Z.testbit (daif m) 7.

#[global] Instance aarch64_laws : MaskLaws aarch64_ops irqs_masked.
Proof.
  split; intros [d p]; [|done]; unfold irqs_masked; cbn [aarch64_ops mask mask_irqs snd daif]; rewrite Z.lor_spec.
  by rewrite orb_comm.
Qed.

(** Unmasking inside a guard does not last: the guard puts the mask back. *)
Lemma unmask_in_guard_lost (w : World Core) : IRQ_OPS w = Some aarch64_ops -> irqs_masked (cpu w) = true ->
  let '(g, w1) := new w in irqs_masked (cpu (with_cpu w1 (unmask_irqs (cpu w1)))) = false /\
  irqs_masked (cpu (drop g (with_cpu w1 (unmask_irqs (cpu w1))))) = true.
Proof.
  intros Ho Hm; unfold new; rewrite Ho; cbn [aarch64_ops mask mask_irqs].
  unfold drop; cbn [with_cpu IRQ_OPS cpu]; rewrite Ho; split; [|exact Hm].
  unfold irqs_masked; cbn [unmask_irqs daif]; rewrite Z.ldiff_spec; by rewrite andb_comm.
Qed.

(** A guard in a guard, created before and after the registration. *)
Definition boot_world : World Core := {| cpu := {| daif := 0; mpidr := 0x80000002 |}; IRQ_OPS := None; INTERRUPT_DEPTH := replicate 16 0 |}.
Definition scopes : list event := [New; SetOps aarch64_ops; New; Enter; New; Drop].

End Irq.
