(* ===== verification/Nameserver.v ===== *)
(** * The nameserver ([cmd/nameserver/src/bind_table.rs], [cmd/nameserver/src/main.rs])

    The bind table, a fixed array of entries searched in order, and the loop
    that serves bind, resolve and unbind requests.  The table refines a finite
    map with room for eight names. *)

From S2P Require Import Prelude Abi.

Module Ns.

Record Pair := { in_h : Z; out_h : Z }.

Definition R_OK : Z := 0.
Definition R_ENOENT : Z := 1.
Definition R_EFULL : Z := 2.
Definition NAME_MAX : Z := 32.
Definition NENT : Z := 8.

Record Entry := { name : list Z; namelen : Z; pair : Pair; used : bool }.

Definition EMPTY : Entry := {| name := replicate (Z.to_nat NAME_MAX) 0; namelen := 0; pair := {| in_h := 0; out_h := 0 |}; used := false |}.

(** [self.name[..n]], which panics past the end. *)
Definition prefix_of (l : list Z) (n : Z) : res (list Z) := unwrap (sget l 0 n).

Definition matches (e : Entry) (nm : list Z) : res bool :=
  if negb (used e) then Ok false else
  if negb (namelen e =? len nm) then Ok false else
  p ← prefix_of (name e) (len nm); Ok (bool_decide (p = nm)).

Definition BindTable : Type := list Entry.
Definition new : BindTable := replicate (Z.to_nat NENT) EMPTY.

(** ** [bind] *)

(** The first loop: [None] when it runs to the end. *)
Fixpoint replace_entry (t : BindTable) (nm : list Z) (nl : Z) (p : Pair) : res (option BindTable) :=
  match t with
  | [] => Ok None
  | e :: t' =>
      hit ← (if negb (used e) then Ok false else if negb (namelen e =? nl) then Ok false else
             a ← prefix_of (name e) nl; b ← prefix_of nm nl; Ok (bool_decide (a = b)));
      if (hit : bool) then Ok (Some ({| name := name e; namelen := namelen e; pair := p; used := used e |} :: t'))
      else r ← replace_entry t' nm nl p; Ok (option_map (cons e) r)
  end.

(** The second loop: the first free slot. *)
Fixpoint take_slot (t : BindTable) (nm : list Z) (nl : Z) (p : Pair) : res (option BindTable) :=
  match t with
  | [] => Ok None
  | e :: t' =>
      if negb (used e) then
        _ ← prefix_of (name e) nl;
        b ← prefix_of nm nl;
        Ok (Some ({| name := b ++ drop (Z.to_nat nl) (name e); namelen := nl mod W8; pair := p; used := true |} :: t'))
      else r ← take_slot t' nm nl p; Ok (option_map (cons e) r)
  end.

Definition bind (t : BindTable) (nm : list Z) (p : Pair) : res (Z * BindTable) :=
  let nl := Z.min (len nm) NAME_MAX in
  r ← replace_entry t nm nl p;
  match r with
  | Some t' => Ok (R_OK, t')
  | None =>
      r2 ← take_slot t nm nl p;
      match r2 with Some t' => Ok (R_OK, t') | None => Ok (R_EFULL, t) end
  end.

(** ** [resolve] and [unbind] *)

Fixpoint resolve (t : BindTable) (nm : list Z) : res (option Pair) :=
  match t with
  | [] => Ok None
  | e :: t' => b ← matches e nm; if (b : bool) then Ok (Some (pair e)) else resolve t' nm
  end.

Fixpoint unbind (t : BindTable) (nm : list Z) : res (Z * BindTable) :=
  match t with
  | [] => Ok (R_ENOENT, [])
  | e :: t' =>
      b ← matches e nm;
      if (b : bool) then Ok (R_OK, {| name := name e; namelen := namelen e; pair := pair e; used := false |} :: t')
      else '(r, t2) ← unbind t' nm; Ok (r, e :: t2)
  end.

(** ** The server loop *)

Definition OP_BIND : Z := 0.
Definition OP_RESOLVE : Z := 1.
Definition OP_UNBIND : Z := 2.

Record Reply := { reply_chan : Z; result_op : Z; rtag : Z; body : list Z }.

(** [u32::from_le_bytes(l[i..j].try_into().unwrap())]. *)
Definition u32_at (l : list Z) (i : Z) : res Z := b ← unwrap (sget l i 4); Ok (from_le b).

(** One turn of the loop: [buf] holds what [receive] stored, [bytes] what it returned. *)
Definition serve (t : BindTable) (op : Z) (buf : list Z) (bytes tag : Z) : res (Reply * BindTable) :=
  payload ← prefix_of buf (Z.min bytes MSG_MAX);
  i ← usub (len payload) 4;
  chan ← u32_at payload i;
  '(result, found, t') ←
    (if op =? OP_BIND then
       name_len ← usub (len payload) 12;
       nm ← prefix_of payload name_len;
       a ← u32_at payload name_len;
       j ← uadd name_len 4;
       b ← u32_at payload j;
       '(r, t1) ← bind t nm {| in_h := a; out_h := b |};
       Ok (r, None, t1)
     else if op =? OP_RESOLVE then
       nm ← prefix_of payload i;
       o ← resolve t nm;
       Ok (match o with Some p => R_OK | None => R_ENOENT end, o, t)
     else if op =? OP_UNBIND then
       nm ← prefix_of payload i;
       '(r, t1) ← unbind t nm;
       Ok (r, None, t1)
     else Ok (R_ENOENT, None, t));
  let out := match found with Some p => to_le 4 (in_h p) ++ to_le 4 (out_h p) | None => [] end in
  Ok ({| reply_chan := chan; result_op := result; rtag := tag; body := out |}, t').

(** ** The abstract table *)

Definition key (e : Entry) : list Z := take (Z.to_nat (namelen e)) (name e).
Definition kv (t : BindTable) : list (list Z * Pair) := omap (fun e => if used e then Some (key e, pair e) else None) t.
Definition view (t : BindTable) : gmap (list Z) Pair := list_to_map (kv t).

Definition entry_ok (e : Entry) : Prop := len (name e) = NAME_MAX /\ 0 <= namelen e <= NAME_MAX.

Record inv (t : BindTable) : Prop := {
  inv_len : len t = NENT;
  inv_ok : Forall entry_ok t;
  inv_keys : NoDup (kv t).*1;
}.

Lemma sget_prefix (l : list Z) n : 0 <= n <= len l -> sget l 0 n = Some (take (Z.to_nat n) l).
Proof. intros Hn; unfold sget; rewrite (proj2 (Z.leb_le 0 n)), (proj2 (Z.leb_le _ (len l))) by lia; done. Qed.

Lemma prefix_ok (l : list Z) n : 0 <= n <= len l -> prefix_of l n = Ok (take (Z.to_nat n) l).
Proof. intros Hn; unfold prefix_of; by rewrite sget_prefix. Qed.

Lemma len_key e : entry_ok e -> len (key e) = namelen e.
Proof. intros [Hl Hn]; unfold key, len in *; rewrite length_take; lia. Qed.

(** A name is compared with the key of an entry in use. *)
Lemma hit_key e nm nl : entry_ok e -> 0 <= nl <= NAME_MAX -> nl <= len nm ->
  (if negb (used e) then Ok false else if negb (namelen e =? nl) then Ok false else
     a ← prefix_of (name e) nl; b ← prefix_of nm nl; Ok (bool_decide (a = b))) =
  Ok (used e && bool_decide (key e = take (Z.to_nat nl) nm)).
Proof.
  intros He Hn Hl; pose proof (len_key e He) as Hk; destruct He as [Hm Hr]; destruct (used e); cbn [negb andb]; [|done].
  destruct (Z.eqb_spec (namelen e) nl) as [Heq|Hne]; cbn [negb].
  - rewrite !prefix_ok by lia; cbn [mbind res_bind]; unfold key; by rewrite Heq.
  - rewrite bool_decide_false; [done|]; intros Hkey; rewrite Hkey in Hk; unfold len in *; rewrite length_take in Hk; lia.
Qed.

Lemma matches_key e nm : entry_ok e -> matches e nm = Ok (used e && bool_decide (key e = nm)).
Proof.
  intros He; unfold matches; pose proof (len_key e He) as Hk; destruct He as [Hm Hr]; destruct (used e); cbn [negb andb]; [|done].
  destruct (Z.eqb_spec (namelen e) (len nm)) as [Heq|Hne]; cbn [negb].
  - rewrite prefix_ok by lia; cbn [mbind res_bind]; unfold key; by rewrite Heq.
  - rewrite bool_decide_false; [done|]; intros Hkey; rewrite Hkey in Hk; lia.
Qed.

(** *** The table as a map *)

Lemma kv_used e t : used e = true -> kv (e :: t) = (key e, pair e) :: kv t.
Proof. intros H; unfold kv; cbn [omap list_omap]; by rewrite H. Qed.
Lemma kv_free e t : used e = false -> kv (e :: t) = kv t.
Proof. intros H; unfold kv; cbn [omap list_omap]; by rewrite H. Qed.
Lemma view_used e t : used e = true -> view (e :: t) = <[key e := pair e]> (view t).
Proof. intros H; unfold view; by rewrite kv_used. Qed.
Lemma view_free e t : used e = false -> view (e :: t) = view t.
Proof. intros H; unfold view; by rewrite kv_free. Qed.

Lemma view_none t n : view t !! n = None <-> n ∉ (kv t).*1.
Proof. symmetry; apply not_elem_of_list_to_map. Qed.

Lemma resolve_view t nm : Forall entry_ok t -> resolve t nm = Ok (view t !! nm).
Proof.
  induction 1 as [|e t He _ IH]; [done|]; cbn [resolve]; rewrite matches_key by done; cbn [mbind res_bind].
  destruct (used e) eqn:Hu; cbn [andb]; [rewrite view_used by done|by rewrite view_free].
  case_bool_decide as Hk; [by rewrite Hk, lookup_insert_eq|by rewrite lookup_insert_ne].
Qed.

(** The first loop of [bind]. *)
Lemma replace_view t nm nl p : Forall entry_ok t -> 0 <= nl <= NAME_MAX -> nl <= len nm -> let n := take (Z.to_nat nl) nm in
  exists r, replace_entry t nm nl p = Ok r /\
  match r with
  | Some t' => is_Some (view t !! n) /\ view t' = <[n := p]> (view t) /\ (kv t').*1 = (kv t).*1 /\ Forall entry_ok t' /\ length t' = length t
  | None => view t !! n = None
  end.
Proof.
  intros Ht Hn Hl n; induction Ht as [|e t He Ht IH]; [by exists None|]; cbn [replace_entry].
  rewrite hit_key by done; cbn [mbind res_bind]; fold n; destruct IH as (r & -> & Hr).
  destruct (used e) eqn:Hu; cbn [andb]; [case_bool_decide as Hk|].
  - eexists; split; [reflexivity|]; rewrite view_used, Hk by done; set (e' := {| name := name e; namelen := namelen e; pair := p; used := true |}).
    assert (Hk' : key e' = n) by exact Hk; rewrite (view_used e'), !kv_used by done; cbn [fmap list_fmap fst]; rewrite Hk', Hk.
    split_and!; [by rewrite lookup_insert_eq|by rewrite insert_insert_eq|done|by constructor|done].
  - cbn [mbind res_bind]; eexists; split; [reflexivity|]; destruct r as [t'|]; cbn [option_map].
    + destruct Hr as (H1 & H2 & H3 & H4 & H5); rewrite !view_used, !kv_used, lookup_insert_ne by done; cbn [fmap list_fmap].
      split_and!; [done|by rewrite H2, insert_insert_ne|by f_equal|by constructor|cbn; by rewrite H5].
    + by rewrite view_used, lookup_insert_ne.
  - cbn [mbind res_bind]; eexists; split; [reflexivity|]; destruct r as [t'|]; cbn [option_map]; rewrite !view_free, ?kv_free by done; [|done].
    destruct Hr as (H1 & H2 & H3 & H4 & H5); split_and!; [done..|by constructor|cbn; by rewrite H5].
Qed.

(** The second loop. *)
Lemma take_slot_view t nm nl p : Forall entry_ok t -> 0 <= nl <= NAME_MAX -> nl <= len nm -> let n := take (Z.to_nat nl) nm in view t !! n = None ->
  exists r, take_slot t nm nl p = Ok r /\
  match r with
  | Some t' => view t' = <[n := p]> (view t) /\ (kv t').*1 ≡ₚ n :: (kv t).*1 /\ Forall entry_ok t' /\ length t' = length t
  | None => length (kv t) = length t
  end.
Proof.
  intros Ht Hn Hl n; induction Ht as [|e t He Ht IH]; intros Hv; [by exists None|]; cbn [take_slot].
  destruct (used e) eqn:Hu; cbn [negb].
  - rewrite view_used in Hv by done; apply lookup_insert_None in Hv as [Hv Hne]; destruct (IH Hv) as (r & -> & Hr); cbn [mbind res_bind].
    eexists; split; [reflexivity|]; destruct r as [t'|]; cbn [option_map]; rewrite ?view_used, ?kv_used by done; [|cbn; by rewrite Hr].
    destruct Hr as (H2 & H3 & H4 & H5); cbn [fmap list_fmap]; split_and!; [by rewrite H2, insert_insert_ne| |by constructor|cbn; by rewrite H5].
    rewrite H3; apply Permutation_swap.
  - rewrite !prefix_ok by (destruct He; lia); cbn [mbind res_bind]; fold n; eexists; split; [reflexivity|]; set (e' := {| name := _; namelen := _; pair := _; used := _ |}).
    assert (Hmod : nl mod W8 = nl) by (apply Z.mod_small; unfold NAME_MAX in Hn; change W8 with 256; lia).
    assert (Hlen : length n = Z.to_nat nl) by (unfold n; rewrite length_take; unfold len in Hl; lia).
    assert (Hk : key e' = n) by (unfold key, e'; cbn [namelen name]; rewrite Hmod; apply take_app_length'; done).
    cbv beta iota; rewrite (view_used e'), (kv_used e') by done; rewrite view_free, kv_free, Hk by done; split_and!; [done|done| |done].
    constructor; [|done]; destruct He as [Hm Hr]; split; cbn [e' name namelen]; [|lia].
    unfold len in *; rewrite length_app, Hlen, length_drop; lia.
Qed.

Lemma length_kv t : (length (kv t) <= length t)%nat.
Proof. induction t as [|e t IH]; [done|]; destruct (used e) eqn:Hu; [rewrite kv_used by done|rewrite kv_free by done]; cbn; lia. Qed.

Lemma size_view t : NoDup (kv t).*1 -> size (view t) = length (kv t).
Proof. intros H; unfold view; by rewrite map_size_list_to_map. Qed.

(** ** The specification: a finite map with room for eight names *)

Inductive request := Bind (n : list Z) (p : Pair) | Resolve (n : list Z) | Unbind (n : list Z).

Definition spec_step (m : gmap (list Z) Pair) (r : request) : Z * option Pair * gmap (list Z) Pair :=
  match r with
  | Bind n p => if bool_decide (is_Some (m !! n)) || (Z.of_nat (size m) <? NENT) then (R_OK, None, <[n := p]> m) else (R_EFULL, None, m)
  | Resolve n => (match m !! n with Some _ => R_OK | None => R_ENOENT end, m !! n, m)
  | Unbind n => match m !! n with Some _ => (R_OK, None, delete n m) | None => (R_ENOENT, None, m) end
  end.

(** [bind] keeps the first 32 bytes of a name. *)
Lemma bind_spec t nm p : inv t -> let n := take (Z.to_nat (Z.min (len nm) NAME_MAX)) nm in
  exists r t', bind t nm p = Ok (r, t') /\ inv t' /\ spec_step (view t) (Bind n p) = (r, None, view t').
Proof.
  intros [Hl Hok Hk] n; pose proof (len_nonneg nm) as Hnn; unfold bind, spec_step.
  destruct (replace_view t nm (Z.min (len nm) NAME_MAX) p Hok) as (r & -> & Hr); [unfold NAME_MAX; lia..|]; fold n in Hr; cbn [mbind res_bind].
  destruct r as [t'|].
  { destruct Hr as (H1 & H2 & H3 & H4 & H5); exists R_OK, t'; rewrite bool_decide_true by done; cbn [orb]; rewrite H2; split_and!; [done| |done].
    split; [unfold len in *; lia|done|by rewrite H3]. }
  rewrite bool_decide_false by (rewrite Hr; by intros [? ?]); cbn [orb].
  destruct (take_slot_view t nm (Z.min (len nm) NAME_MAX) p Hok) as (r & -> & Hr2); [unfold NAME_MAX; lia..|done|]; fold n in Hr2; cbn [mbind res_bind].
  rewrite size_view by done; destruct r as [t'|].
  - destruct Hr2 as (H2 & H3 & H4 & H5); exists R_OK, t'; rewrite H2; assert (Hi : inv t').
    { split; [unfold len in *; lia|done|]; rewrite H3; constructor; [by apply view_none|done]. }
    split; [done|]; split; [done|]; rewrite (proj2 (Z.ltb_lt _ NENT)); [done|].
    assert (Hlt : (length (kv t').*1 = S (length (kv t)))%nat) by (rewrite H3; cbn; by rewrite length_fmap).
    rewrite length_fmap in Hlt; pose proof (length_kv t') as Hle; unfold len in *; lia.
  - exists R_EFULL, t; rewrite Hr2, (proj2 (Z.ltb_ge _ NENT)) by (unfold len in Hl; lia); split_and!; done.
Qed.

Lemma unbind_view t nm : Forall entry_ok t -> NoDup (kv t).*1 ->
  exists r t', unbind t nm = Ok (r, t') /\ Forall entry_ok t' /\ length t' = length t /\ NoDup (kv t').*1 /\ (forall x, x ∈ (kv t').*1 -> x ∈ (kv t).*1) /\
    spec_step (view t) (Unbind nm) = (r, None, view t').
Proof.
  induction 1 as [|e t He Ht IH]; intros Hnd; [by exists R_ENOENT, []|]; cbn [unbind]; rewrite matches_key by done; cbn [mbind res_bind].
  destruct (used e) eqn:Hu; cbn [andb]; [rewrite kv_used in Hnd by done; apply NoDup_cons in Hnd as [Hni Hnd]; cbn [fst] in Hni; case_bool_decide as Hk|].
  - eexists R_OK, _; split; [reflexivity|]; set (e' := {| name := _; namelen := _; pair := _; used := false |}).
    rewrite (kv_free e'), (view_free e'), kv_used, view_used by done; split_and!; [by constructor|done|done|intros x Hx; by right|].
    unfold spec_step; rewrite Hk, lookup_insert_eq, delete_insert_id; [done|]; apply view_none; by rewrite <- Hk.
  - destruct (IH Hnd) as (r & t' & -> & H1 & H2 & H3 & H4 & H5); cbn [mbind res_bind]; exists r, (e :: t'); split; [done|].
    rewrite !kv_used, !view_used by done; cbn [fmap list_fmap fst]; split_and!; [by constructor|cbn; by rewrite H2|constructor; [|done]; intros Hx; by apply Hni, H4| |].
    + intros x [->|Hx]%elem_of_cons; [left|right; by apply H4].
    + unfold spec_step in *; rewrite lookup_insert_ne by done; destruct (view t !! nm); injection H5 as <- <-; [by rewrite delete_insert_ne|done].
  - rewrite kv_free in Hnd by done; destruct (IH Hnd) as (r & t' & -> & H1 & H2 & H3 & H4 & H5); cbn [mbind res_bind]; exists r, (e :: t'); split; [done|].
    rewrite !kv_free, !view_free by done; split_and!; try done; [by constructor|cbn; by rewrite H2].
Qed.

(** ** Requests on the wire *)

Definition opcode (r : request) : Z := match r with Bind _ _ => OP_BIND | Resolve _ => OP_RESOLVE | Unbind _ => OP_UNBIND end.

(** A request as a client sends it, [chan] the channel for the reply. *)
Definition encode (r : request) (chan : Z) : list Z :=
  match r with
  | Bind n p => n ++ to_le 4 (in_h p) ++ to_le 4 (out_h p) ++ to_le 4 chan
  | Resolve n | Unbind n => n ++ to_le 4 chan
  end.

Definition request_name (r : request) : list Z := match r with Bind n _ | Resolve n | Unbind n => n end.

(** Names of at most 32 bytes, handles of 32 bits. *)
Definition request_ok (r : request) (chan : Z) : Prop :=
  len (request_name r) <= NAME_MAX /\ is_u32 chan /\ match r with Bind _ p => is_u32 (in_h p) /\ is_u32 (out_h p) | _ => True end.

Definition reply_body (found : option Pair) : list Z := match found with Some p => to_le 4 (in_h p) ++ to_le 4 (out_h p) | None => [] end.

Lemma len_to_le4 z : len (to_le 4 z) = 4.
Proof. unfold len; by rewrite length_to_le. Qed.

Lemma u32_at_app l z r : is_u32 z -> u32_at (l ++ to_le 4 z ++ r) (len l) = Ok z.
Proof.
  intros Hz; unfold u32_at, sget; pose proof (len_nonneg l); pose proof (len_nonneg r); rewrite !len_app, len_to_le4.
  rewrite (proj2 (Z.leb_le 0 (len l))), (proj2 (Z.leb_le (len l + 4) _)) by lia; change (0 <=? 4) with true; cbn [andb unwrap mbind res_bind].
  replace (Z.to_nat (len l)) with (length l) by (unfold len; lia); rewrite drop_app_length, take_app_length' by (by rewrite length_to_le).
  by rewrite from_to_le by (unfold is_u in Hz; exact Hz).
Qed.

Lemma prefix_app (l r : list Z) : prefix_of (l ++ r) (len l) = Ok l.
Proof.
  rewrite prefix_ok by (rewrite len_app; pose proof (len_nonneg l); pose proof (len_nonneg r); lia).
  replace (Z.to_nat (len l)) with (length l) by (unfold len; lia); by rewrite take_app_length.
Qed.

Lemma encode_len r chan : request_ok r chan -> 4 <= len (encode r chan) <= MSG_MAX.
Proof.
  intros (Hn & _); pose proof (len_nonneg (request_name r)); unfold NAME_MAX, MSG_MAX in *.
  destruct r; cbn [encode request_name] in *; rewrite !len_app, !len_to_le4; lia.
Qed.

Lemma serve_step t r chan rest tag : inv t -> request_ok r chan ->
  exists rep t' res found, serve t (opcode r) (encode r chan ++ rest) (len (encode r chan)) tag = Ok (rep, t') /\ inv t' /\
    spec_step (view t) r = (res, found, view t') /\
    rep = {| reply_chan := chan; result_op := res; rtag := tag; body := reply_body found |}.
Proof.
  intros Hi Hok; pose proof (encode_len r chan Hok) as Hlen; destruct Hok as (Hn & Hc & Hp); pose proof Hi as [Hl Hent Hk].
  unfold serve; rewrite Z.min_l by lia; rewrite prefix_app; cbn [mbind res_bind]; rewrite (usub_ok _ 4) by lia; cbn [mbind res_bind].
  destruct r as [n p|n|n]; cbn [encode opcode request_name] in *.
  - rewrite !len_app, !len_to_le4; replace (len n + (4 + (4 + 4)) - 4) with (len (n ++ to_le 4 (in_h p) ++ to_le 4 (out_h p))) by (rewrite !len_app, !len_to_le4; lia).
    pose proof (u32_at_app (n ++ to_le 4 (in_h p) ++ to_le 4 (out_h p)) chan [] Hc) as E1; rewrite app_nil_r, <- !(assoc_L (++)) in E1; rewrite E1; cbn [mbind res_bind].
    change (OP_BIND =? OP_BIND) with true; cbn iota; rewrite usub_ok by (pose proof (len_nonneg n); lia); cbn [mbind res_bind].
    replace (len n + (4 + (4 + 4)) - 12) with (len n) by lia; rewrite prefix_app; cbn [mbind res_bind]; destruct Hp as [Hp1 Hp2].
    rewrite u32_at_app by done; cbn [mbind res_bind]; rewrite uadd_ok by (unfold NAME_MAX in Hn; rewrite W64_val; lia); cbn [mbind res_bind].
    pose proof (u32_at_app (n ++ to_le 4 (in_h p)) (out_h p) (to_le 4 chan) Hp2) as E2; rewrite len_app, len_to_le4, <- !(assoc_L (++)) in E2; rewrite E2; cbn [mbind res_bind].
    destruct (bind_spec t n {| in_h := in_h p; out_h := out_h p |} Hi) as (r & t' & -> & Hi' & Hs); cbn [mbind res_bind].
    rewrite Z.min_l in Hs by lia; rewrite take_ge in Hs by (unfold len; lia); destruct p as [a b]; cbn [in_h out_h] in *.
    eexists _, t', r, None; split; [reflexivity|]; split_and!; done.
  - rewrite len_app, len_to_le4, Z.add_simpl_r; pose proof (u32_at_app n chan [] Hc) as E1; rewrite app_nil_r in E1; rewrite E1; cbn [mbind res_bind].
    change (OP_RESOLVE =? OP_BIND) with false; change (OP_RESOLVE =? OP_RESOLVE) with true; cbn iota; rewrite prefix_app; cbn [mbind res_bind].
    rewrite resolve_view by done; cbn [mbind res_bind]; eexists _, t, _, (view t !! n); split; [reflexivity|]; split_and!; [done|done|by destruct (view t !! n)].
  - rewrite len_app, len_to_le4, Z.add_simpl_r; pose proof (u32_at_app n chan [] Hc) as E1; rewrite app_nil_r in E1; rewrite E1; cbn [mbind res_bind].
    change (OP_UNBIND =? OP_BIND) with false; change (OP_UNBIND =? OP_RESOLVE) with false; change (OP_UNBIND =? OP_UNBIND) with true; cbn iota; rewrite prefix_app; cbn [mbind res_bind].
    destruct (unbind_view t n Hent Hk) as (r & t' & -> & H1 & H2 & H3 & _ & H5); cbn [mbind res_bind].
    eexists _, t', r, None; split; [reflexivity|]; split_and!; [split; [unfold len in *; lia|done|done]|done|done].
Qed.

(** ** A run of the server *)

(** The loop over the requests that arrive, each with its reply channel, its tag
    and whatever the buffer held behind it. *)
Fixpoint run (t : BindTable) (reqs : list (request * Z * Z * list Z)) : res (list Reply * BindTable) :=
  match reqs with
  | [] => Ok ([], t)
  | (r, chan, tag, rest) :: reqs' =>
      '(rep, t1) ← serve t (opcode r) (encode r chan ++ rest) (len (encode r chan)) tag;
      '(reps, t2) ← run t1 reqs';
      Ok (rep :: reps, t2)
  end.

(** What the map answers. *)
Fixpoint spec_run (m : gmap (list Z) Pair) (reqs : list (request * Z * Z * list Z)) : list Reply :=
  match reqs with
  | [] => []
  | (r, chan, tag, _) :: reqs' =>
      let '(res, found, m') := spec_step m r in
      {| reply_chan := chan; result_op := res; rtag := tag; body := reply_body found |} :: spec_run m' reqs'
  end.

Lemma run_refines reqs : forall t, inv t -> Forall (fun x => request_ok x.1.1.1 x.1.1.2) reqs ->
  exists t', run t reqs = Ok (spec_run (view t) reqs, t') /\ inv t'.
Proof.
  induction reqs as [|[[[r chan] tag] rest] reqs IH]; intros t Hi Hok; [by exists t|]; apply Forall_cons in Hok as [H1 H2]; cbn [run spec_run].
  destruct (serve_step t r chan rest tag Hi H1) as (rep & t1 & res & found & -> & Hi1 & -> & ->); cbn [mbind res_bind].
  destruct (IH t1 Hi1 H2) as (t' & -> & Hi'); by exists t'.
Qed.

Lemma new_inv : inv new /\ view new = ∅.
Proof. split; [split; [done|apply Forall_replicate; split; [done|unfold NAME_MAX; cbn; lia]|constructor]|done]. Qed.

(** C28: the nameserver answers every sequence of requests, from its empty table
    on, as a finite map with room for eight names would: a bind adds or
    replaces (or reports that the table is full), a resolve returns the pair
    bound last, an unbind removes; each reply goes to the channel that its
    request named, with its tag; for names of at most 32 bytes and handles of
    32 bits it never panics. *)
Theorem nameserver_refines_map (reqs : list (request * Z * Z * list Z)) (Hok : Forall (fun x => request_ok x.1.1.1 x.1.1.2) reqs) :
  exists t', run new reqs = Ok (spec_run ∅ reqs, t') /\ inv t'.
Proof. destruct new_inv as [Hi Hv]; rewrite <- Hv; by apply run_refines. Qed.

(** Names longer than 32 bytes: [bind] cuts the name without an error, so the
    name that was bound does not resolve, and its first 32 bytes, a name that
    nobody bound, resolve to the pair (replacing whatever they were bound to). *)
Lemma long_names_collide (t : BindTable) (nm : list Z) (p : Pair) (t' : BindTable) (Hi : inv t) (Hlong : NAME_MAX < len nm)
    (Hb : bind t nm p = Ok (R_OK, t')) :
  resolve t' nm = Ok None /\ resolve t' (take (Z.to_nat NAME_MAX) nm) = Ok (Some p).
Proof.
  destruct (bind_spec t nm p Hi) as (r & t2 & Hb' & Hi' & Hs); rewrite Hb in Hb'; injection Hb' as <- <-; rewrite Z.min_r in Hs by lia.
  rewrite !resolve_view by apply Hi'; split; f_equal.
  - apply view_none; intros ((k & q) & -> & Hin)%list_elem_of_fmap; unfold kv in Hin; apply list_elem_of_omap in Hin as (e & He & Hu).
    destruct (used e); [|done]; injection Hu as Hk _; pose proof (inv_ok _ Hi') as Hok; rewrite Forall_forall in Hok; specialize (Hok e He).
    pose proof (len_key e Hok) as Hlk; cbn [fst] in Hlong; rewrite <- Hk in Hlong; destruct Hok; lia.
  - unfold spec_step in Hs; destruct (_ || _); injection Hs as Hs; [by rewrite <- Hs, lookup_insert_eq|discriminate Hs].
Qed.

(** A message of fewer than four bytes, such as the empty one that [receive]
    returns when the channel is closed, ends the server. *)
Lemma short_message_panics t op buf bytes tag : 0 <= bytes < 4 -> bytes <= len buf -> serve t op buf bytes tag = Panic.
Proof.
  intros Hb Hl; unfold serve; rewrite Z.min_l by (unfold MSG_MAX; lia); rewrite prefix_ok by lia; cbn [mbind res_bind].
  assert (Hu : usub (len (take (Z.to_nat bytes) buf)) 4 = Panic); [|by rewrite Hu].
  unfold usub; rewrite (proj2 (Z.leb_gt _ _)); [done|]; unfold len in *; rewrite length_take; lia.
Qed.

(** ** A server and two clients *)
Module NsDemo.
Definition console : list Z := [47; 100; 101; 118; 47; 99; 111; 110; 115].
Definition cons_pair : Pair := {| in_h := 7; out_h := 0x1234 |}.
Definition demo : list (request * Z * Z * list Z) :=
  [(Bind console cons_pair, 3, 1, []); (Resolve console, 4, 9, [1; 2]); (Unbind console, 3, 2, []); (Resolve console, 4, 10, [])].

Lemma nameserver_refines_map_witness : exists t', run new demo =
  Ok ([{| reply_chan := 3; result_op := R_OK; rtag := 1; body := [] |}; {| reply_chan := 4; result_op := R_OK; rtag := 9; body := [7; 0; 0; 0; 0x34; 0x12; 0; 0] |};
       {| reply_chan := 3; result_op := R_OK; rtag := 2; body := [] |}; {| reply_chan := 4; result_op := R_ENOENT; rtag := 10; body := [] |}], t').
Proof.
  destruct (nameserver_refines_map demo) as (t' & H & _).
  - repeat apply Forall_cons_2; [unfold request_ok; cbn; unfold is_u; rewrite ?W32_val; split_and!; try done; vm_compute; intros [=]..|constructor].
  - exists t'; exact H.
Defined.

Definition long_name : list Z := replicate 40 97.
End NsDemo.
End Ns.
