(* ===== verification/Addr.v ===== *)
(** * Physical and virtual addresses

    The neutral layer of [core/src/addr.rs] and the [usize] rounding helpers of
    [port/src/maths.rs]: power-of-two rounding, [VirtRange], [PhysAddr] with
    its [Step] instance, and [PhysRange] with the page iterator
    [step_by_rounded] that the page allocator and the page-table code walk. *)

From S2P Require Import Prelude.

(** [PhysAddr] is a transparent wrapper of a [u64]. *)
Definition PhysAddr : Type := Z.

(** [param::KZERO]: the start of the kernel half. *)
Definition KZERO : Z := 0xffff800000000000.

Definition PAGE_SIZE_4K : Z := Z.shiftl 4 10.
Definition PAGE_SIZE_2M : Z := Z.shiftl 2 20.
Definition PAGE_SIZE_1G : Z := Z.shiftl 1 30.

(** ** Rounding *)

Definition round_up2_u64 (n step : Z) : res Z :=
  _ ← assert (is_power_of_two step);
  a ← uadd n step;
  b ← usub a 1;
  m ← usub step 1;
  Ok (Z.land b (unot W64 m)).

Definition round_down2_u64 (n step : Z) : res Z :=
  _ ← assert (is_power_of_two step);
  m ← usub step 1;
  Ok (Z.land n (unot W64 m)).

(** [usize] is [u64]-sized, and the bodies are the same. *)
Definition round_up2_usize (n step : Z) : res Z :=
  _ ← assert (is_power_of_two step);
  a ← uadd n step;
  b ← usub a 1;
  m ← usub step 1;
  Ok (Z.land b (unot W64 m)).

Definition round_down2_usize (n step : Z) : res Z :=
  _ ← assert (is_power_of_two step);
  m ← usub step 1;
  Ok (Z.land n (unot W64 m)).

(** ** Device-tree register blocks ([core/src/fdt.rs]) *)

Record RegBlock := { rb_addr : Z; rb_len : option Z }.

(** ** Virtual ranges *)

Record VirtRange := { vstart : Z; vend : Z }.

Module Virt.

Definition with_len (start len : Z) : res VirtRange :=
  e ← uadd start len; Ok {| vstart := start; vend := e |}.

Definition contains (r : VirtRange) (addr : Z) : bool :=
  (vstart r <=? addr) && (addr <? vend r).

Definition offset_addr (r : VirtRange) (offset : Z) : res (option Z) :=
  addr ← uadd (vstart r) offset;
  Ok (if contains r addr then Some addr else None).

Definition size (r : VirtRange) : res Z := usub (vend r) (vstart r).

Definition from_reg (r : RegBlock) : res VirtRange :=
  e ← uadd (rb_addr r) (default 0 (rb_len r));
  Ok {| vstart := rb_addr r; vend := e |}.

End Virt.

(** ** Physical addresses *)

Module Pa.

Definition round_up2 (pa : PhysAddr) (step : Z) : res PhysAddr := round_up2_u64 pa step.
Definition round_down2 (pa : PhysAddr) (step : Z) : res PhysAddr := round_down2_u64 pa step.

(** [u64::is_multiple_of]: a zero divisor divides only zero. *)
Definition is_multiple_of (pa : PhysAddr) (n : Z) : bool :=
  if n =? 0 then pa =? 0 else pa mod n =? 0.

Definition add (pa : PhysAddr) (offset : Z) : res PhysAddr := uadd pa offset.

(** The [Step] instance. *)
Definition steps_between (startpa endpa : PhysAddr) : Z * option Z :=
  if startpa <=? endpa then
    match checked_sub endpa startpa with
    | Some diff => (diff, Some diff)
    | None => (0, None)
    end
  else (0, None).

Definition forward_checked (startpa : PhysAddr) (count : Z) : option PhysAddr :=
  checked_add startpa count.
Definition backward_checked (startpa : PhysAddr) (count : Z) : option PhysAddr :=
  checked_sub startpa count.
Definition forward_overflowing (startpa : PhysAddr) (count : Z) : PhysAddr * bool :=
  (wrapping_add startpa count, W64 <=? startpa + count).
Definition backward_overflowing (startpa : PhysAddr) (count : Z) : PhysAddr * bool :=
  (wrapping_sub startpa count, startpa <? count).

End Pa.

(** ** Physical ranges *)

Record PhysRange := { start : PhysAddr; end_ : PhysAddr }.

#[global] Instance PhysRange_eq_dec : EqDecision PhysRange.
Proof. solve_decision. Defined.

Definition from_physrange (pr : PhysRange) (offset : Z) : res VirtRange :=
  s ← uadd (start pr) offset;
  e ← uadd (end_ pr) offset;
  Ok {| vstart := s; vend := e |}.

Module Range.

Definition new (s e : PhysAddr) : PhysRange := {| start := s; end_ := e |}.
Definition with_end (s e : Z) : PhysRange := {| start := s; end_ := e |}.

Definition with_len (s len : Z) : res PhysRange :=
  e ← uadd s len; Ok {| start := s; end_ := e |}.

Definition with_pa_len (s : PhysAddr) (len : Z) : res PhysRange :=
  e ← uadd s len; Ok {| start := s; end_ := e |}.

(** [None] when the reg block has no length. *)
Definition from_regblock (r : RegBlock) : res (option PhysRange) :=
  match rb_len r with
  | None => Ok None
  | Some len => Some <$> with_len (rb_addr r) len
  end.

Definition from_reg (r : RegBlock) : res PhysRange :=
  e ← Pa.add (rb_addr r) (default 0 (rb_len r)); Ok (new (rb_addr r) e).

Definition contains (r : PhysRange) (addr : PhysAddr) : bool :=
  (start r <=? addr) && (addr <? end_ r).

Definition offset_addr (r : PhysRange) (offset : Z) : res (option PhysAddr) :=
  addr ← Pa.add (start r) offset;
  Ok (if contains r addr then Some addr else None).

Definition size (r : PhysRange) : res Z := usub (end_ r) (start r).

(** [Range<PhysAddr>::step_by]: the start, then repeated [forward_checked] by
    the step, as long as the address is below the end. *)
Fixpoint step_by_from (fuel : nat) (pa e step : Z) : list PhysAddr :=
  match fuel with
  | O => []
  | S fuel' =>
      if pa <? e then
        pa :: match Pa.forward_checked pa step with
              | Some pa' => step_by_from fuel' pa' e step
              | None => []
              end
      else []
  end.

(** One step per multiple of [step] between the ends is enough fuel:
    [step_by_from_spec] below. *)
Definition step_by (s e step : Z) : list PhysAddr :=
  step_by_from (Z.to_nat ((e - s) / step + 1)) s e step.

Definition step_by_rounded (r : PhysRange) (step_size : Z) : res (list PhysAddr) :=
  startpa ← Pa.round_down2 (start r) step_size;
  endpa ← Pa.round_up2 (end_ r) step_size;
  Ok (step_by startpa endpa step_size).

Definition add (r other : PhysRange) : PhysRange :=
  {| start := Z.min (start r) (start other); end_ := Z.max (end_ r) (end_ other) |}.

Definition round (r : PhysRange) (step_size : Z) : res PhysRange :=
  s ← Pa.round_down2 (start r) step_size;
  e ← Pa.round_up2 (end_ r) step_size;
  Ok {| start := s; end_ := e |}.

End Range.

(** ** Rounding lemmas *)

Lemma round_down2_eval n k :
  0 <= k < 64 -> is_u64 n -> round_down2_u64 n (2 ^ k) = Ok (n - n mod 2 ^ k).
Proof.
  intros Hk Hn; unfold round_down2_u64.
  rewrite (proj2 (is_power_of_two_spec _)) by (exists k; lia); simpl.
  rewrite usub_ok by lia; simpl; by rewrite land_unot_mask by (done || lia).
Qed.

Lemma round_up2_eval n k :
  0 <= k < 64 -> is_u64 n -> n + 2 ^ k < W64 ->
  round_up2_u64 n (2 ^ k) = Ok (n + 2 ^ k - 1 - (n + 2 ^ k - 1) mod 2 ^ k).
Proof.
  intros Hk Hn Hov; unfold round_up2_u64, is_u in *.
  rewrite (proj2 (is_power_of_two_spec _)) by (exists k; lia); simpl.
  rewrite uadd_ok by lia; simpl.
  rewrite !usub_ok by lia; simpl; rewrite land_unot_mask; [done|lia|unfold is_u; lia].
Qed.

Lemma round_up2_usize_eq n step : round_up2_usize n step = round_up2_u64 n step.
Proof. reflexivity. Qed.

Lemma round_down2_usize_eq n step : round_down2_usize n step = round_down2_u64 n step.
Proof. reflexivity. Qed.

(** Rounding up gives the least multiple at or above, rounding down the greatest
    multiple at or below. *)
Lemma round_down_bounds n s : 0 < s ->
  (s | n - n mod s) /\ n - s < n - n mod s <= n.
Proof.
  intros Hs; pose proof (Z.mod_pos_bound n s Hs).
  split; [exists (n / s); pose proof (Z.div_mod n s); lia|lia].
Qed.

Lemma divide_gap s a b : 0 < s -> (s | a) -> (s | b) -> a < b -> a + s <= b.
Proof. intros ? [x ->] [y ->] ?; assert (x < y) by nia; nia. Qed.

Lemma step_by_from_spec fuel s e step : 0 < step -> is_u64 e ->
  Z.to_nat ((e - s) / step + 1) = fuel -> forall pa,
  pa ∈ Range.step_by_from fuel s e step <-> s <= pa < e /\ (step | pa - s).
Proof.
  intros Hstep He; revert s; induction fuel as [|fuel IH]; intros s Hf pa; cbn [Range.step_by_from].
  { destruct (Z.le_gt_cases s e); [|rewrite elem_of_nil; lia].
    pose proof (Z.div_pos (e - s) step); lia. }
  destruct (Z.ltb_spec s e); [|rewrite elem_of_nil; lia].
  assert (Hrest : (s + step <= pa < e /\ (step | pa - (s + step))) \/ pa = s
                  <-> s <= pa < e /\ (step | pa - s)).
  { split.
    - intros [[Hb Hd]| ->]; [|split; [lia|exists 0; lia]].
      split; [lia|]. replace (pa - s) with (pa - (s + step) + step) by lia.
      by apply Z.divide_add_r; [|apply Z.divide_refl].
    - intros [Hb Hd]; destruct (Z.eq_dec pa s); [by right|left].
      assert (s + step <= pa).
      { destruct Hd as [q Hq]; assert (0 < q) by nia; nia. }
      split; [lia|]. replace (pa - (s + step)) with (pa - s - step) by lia.
      by apply Z.divide_sub_r; [|apply Z.divide_refl]. }
  rewrite elem_of_cons; unfold Pa.forward_checked, checked_add.
  destruct (Z.ltb_spec (s + step) W64).
  - rewrite IH; [rewrite <- Hrest; tauto|].
    replace (e - (s + step)) with (e - s + (-1) * step) by lia.
    rewrite Z.div_add by lia; lia.
  - rewrite elem_of_nil; rewrite <- Hrest; unfold is_u in *; naive_solver lia.
Qed.

Lemma step_by_from_lb fuel s e step : 0 <= step ->
  Forall (fun pa => s <= pa) (Range.step_by_from fuel s e step).
Proof.
  intros Hstep; revert s; induction fuel as [|fuel IH]; intros s; cbn [Range.step_by_from]; [constructor|].
  destruct (s <? e); [|constructor].
  constructor; [lia|]. unfold Pa.forward_checked, checked_add.
  destruct (_ <? _); [|constructor].
  eapply Forall_impl; [apply IH|]; simpl; lia.
Qed.

Lemma step_by_from_NoDup fuel s e step : 0 < step ->
  NoDup (Range.step_by_from fuel s e step).
Proof.
  intros Hstep; revert s; induction fuel as [|fuel IH]; intros s; cbn [Range.step_by_from]; [constructor|].
  destruct (s <? e); [|constructor].
  unfold Pa.forward_checked, checked_add.
  destruct (_ <? _); [|repeat constructor; apply not_elem_of_nil].
  constructor; [|apply IH].
  intros Hin; pose proof (step_by_from_lb fuel (s + step) e step ltac:(lia)) as HF.
  rewrite Forall_forall in HF; specialize (HF _ Hin); simpl in HF; lia.
Qed.

(** The page iterator: every page that overlaps the range, once each. *)
Lemma step_by_rounded_spec r k :
  0 <= k < 64 -> is_u64 (start r) -> is_u64 (end_ r) -> end_ r + 2 ^ k < W64 ->
  exists pas, Range.step_by_rounded r (2 ^ k) = Ok pas /\ NoDup pas /\
    forall pa, pa ∈ pas <-> (2 ^ k | pa) /\ start r - 2 ^ k < pa < end_ r.
Proof.
  intros Hk Hs He Hov; unfold Range.step_by_rounded, Pa.round_down2, Pa.round_up2.
  rewrite round_down2_eval, round_up2_eval by done; cbn [mbind res_bind].
  set (P := 2 ^ k) in *; assert (0 < P) by (subst P; lia).
  set (s := start r) in *; set (e := end_ r) in *.
  destruct (round_down_bounds s P) as [Ds Bs]; [done|].
  destruct (round_down_bounds (e + P - 1) P) as [De Be]; [done|].
  eexists; split; [reflexivity|split].
  { by apply step_by_from_NoDup. }
  intros pa; unfold Range.step_by; rewrite (step_by_from_spec _ _ _ _ ltac:(done)) by (unfold is_u in *; lia).
  split.
  - intros [Hpa Hd].
    assert (Dpa : (P | pa)).
    { replace pa with (pa - (s - s mod P) + (s - s mod P)) by lia; by apply Z.divide_add_r. }
    split; [done|]. split; [lia|].
    pose proof (divide_gap P pa _ ltac:(done) Dpa De ltac:(lia)); lia.
  - intros [Dpa Hpa]; split; [split|by apply Z.divide_sub_r].
    + destruct (Z.le_gt_cases (s - s mod P) pa); [done|].
      pose proof (divide_gap P pa _ ltac:(done) Dpa Ds ltac:(lia)); lia.
    + destruct (Z.lt_ge_cases pa (e + P - 1 - (e + P - 1) mod P)); [done|lia].
Qed.
