(* ===== verification/Fdt.v ===== *)
(** * The flattened devicetree reader ([core/src/fdt.rs])

    A devicetree blob is a header, a block of big-endian tokens (the structure
    block) and a block of property names.  The reader keeps no tree: every query
    scans the token block.  Iterators are next-functions over the state their
    closure captures. *)

From S2P Require Import Prelude Addr.

Module Fd.

Inductive ParseError := InvalidHeader | InvalidMagic | BufferTooSmall | InvalidToken.

(** ** Bytes *)

(** [bytes.get(i..)]. *)
Definition get_from (l : list Z) (i : Z) : option (list Z) :=
  if i <=? len l then Some (drop (Z.to_nat i) l) else None.

Definition bytes_to_u32 (bytes : list Z) : option Z := option_map from_be (sget bytes 0 4).
Definition bytes_to_u32_offset (bytes : list Z) (offset : Z) : option Z := option_map from_be (sget bytes offset 4).
Definition bytes_to_u64 (bytes : list Z) : option Z := option_map from_be (sget bytes 0 8).
Definition bytes_to_u32_as_u64 (bytes : list Z) : option Z := option_map from_be (sget bytes 0 4).

Definition align4 (n : Z) : res Z := uadd n (Z.land (wrapping_sub 0 n) 3).

(** [iter().position(|&b| b == 0)]. *)
Fixpoint position0 (l : list Z) : option Z :=
  match l with
  | [] => None
  | b :: l' => if b =? 0 then Some 0 else option_map (Z.add 1) (position0 l')
  end.

(** The bytes of a string literal. *)
Definition str (s : string) : list Z := map (fun c => Z.of_nat (Ascii.nat_of_ascii c)) (String.list_ascii_of_string s).

(** [str::from_utf8]: well-formed UTF-8. *)
Definition cont (b : Z) : bool := (0x80 <=? b) && (b <=? 0xBF).
Fixpoint utf8_ok (l : list Z) : bool :=
  match l with
  | [] => true
  | b0 :: r0 =>
    if b0 <? 0x80 then utf8_ok r0 else
    match r0 with
    | [] => false
    | b1 :: r1 =>
      if (0xC2 <=? b0) && (b0 <=? 0xDF) then cont b1 && utf8_ok r1 else
      match r1 with
      | [] => false
      | b2 :: r2 =>
        if (0xE0 <=? b0) && (b0 <=? 0xEF) then
          (if b0 =? 0xE0 then (0xA0 <=? b1) && (b1 <=? 0xBF)
           else if b0 =? 0xED then (0x80 <=? b1) && (b1 <=? 0x9F) else cont b1) && cont b2 && utf8_ok r2
        else
          match r2 with
          | [] => false
          | b3 :: r3 =>
            if (0xF0 <=? b0) && (b0 <=? 0xF4) then
              (if b0 =? 0xF0 then (0x90 <=? b1) && (b1 <=? 0xBF)
               else if b0 =? 0xF4 then (0x80 <=? b1) && (b1 <=? 0x8F) else cont b1) && cont b2 && cont b3 && utf8_ok r3
            else false
          end
      end
    end
  end.

(** The bytes up to the first 0, when they are UTF-8. *)
Definition inline_str (bytes : list Z) (start : Z) : option (list Z) :=
  l ← get_from bytes start; n ← position0 l;
  if utf8_ok (take (Z.to_nat n) l) then Some (take (Z.to_nat n) l) else None.

(** ** Iterators *)

Section iter.
Context {S A : Type} (next : S -> res (option A * S)).

Fixpoint collect (fuel : nat) (s : S) : res (list A) :=
  match fuel with
  | O => Timeout
  | Datatypes.S fuel' =>
      '(o, s') ← next s;
      match o with None => Ok [] | Some a => l ← collect fuel' s'; Ok (a :: l) end
  end.

(** [Iterator::find]; also the [for] loop that returns at the first success. *)
Fixpoint find_map {B} (f : A -> res (option B)) (fuel : nat) (s : S) : res (option B) :=
  match fuel with
  | O => Timeout
  | Datatypes.S fuel' =>
      '(o, s') ← next s;
      match o with
      | None => Ok None
      | Some a => r ← f a; match r with Some b => Ok (Some b) | None => find_map f fuel' s' end
      end
  end.
End iter.

(** ** The header *)

Record FdtHeader := {
  magic : Z; totalsize : Z; off_dt_struct : Z; off_dt_strings : Z; off_mem_rsvmap : Z; version : Z;
  last_comp_version : Z; boot_cpuid_phys : Z; size_dt_strings : Z; size_dt_struct : Z;
}.

Definition new_header (data : list Z) : option FdtHeader :=
  a ← bytes_to_u32_offset data 0; b ← bytes_to_u32_offset data 4; c ← bytes_to_u32_offset data 8;
  d ← bytes_to_u32_offset data 12; e ← bytes_to_u32_offset data 16; f ← bytes_to_u32_offset data 20;
  g ← bytes_to_u32_offset data 24; h ← bytes_to_u32_offset data 28; i ← bytes_to_u32_offset data 32;
  j ← bytes_to_u32_offset data 36;
  Some {| magic := a; totalsize := b; off_dt_struct := c; off_dt_strings := d; off_mem_rsvmap := e; version := f;
          last_comp_version := g; boot_cpuid_phys := h; size_dt_strings := i; size_dt_struct := j |}.

Definition header_new (data : list Z) (ignore_size : bool) : result FdtHeader ParseError :=
  let n := len data mod W32 in
  match new_header data with
  | None => Err InvalidHeader
  | Some h =>
      if negb (magic h =? 0xd00dfeed) then Err InvalidMagic
      else if (n =? totalsize h) || ignore_size then Val h else Err BufferTooSmall
  end.

Record DeviceTree := { data : list Z; header : FdtHeader }.

Definition new (d : list Z) : result DeviceTree ParseError :=
  match header_new d false with Val h => Val {| data := d; header := h |} | Err e => Err e end.

Definition size (dt : DeviceTree) : Z := totalsize (header dt).

(** [from_usize]: the length is read from the header first. *)
Definition from_usize (mem : Z -> Z) (p : Z) : result DeviceTree ParseError :=
  let bytes n := map (fun i => mem (p + i)) (seqZ 0 n) in
  match header_new (bytes 40) true with
  | Err e => Err e
  | Val h => new (bytes (totalsize h))
  end.

Definition structs (dt : DeviceTree) : res (list Z) := unwrap (sget (data dt) (off_dt_struct (header dt)) (size_dt_struct (header dt))).
Definition strings (dt : DeviceTree) : res (list Z) := unwrap (sget (data dt) (off_dt_strings (header dt)) (size_dt_strings (header dt))).

(** ** Tokens *)

Inductive FdtToken :=
  | BeginNode (start total_len name_start : Z)
  | EndNode (start total_len : Z)
  | Prop_ (start total_len name_start value_start value_len : Z)
  | Nop (start total_len : Z)
  | End_ (start total_len : Z).

Definition parse_token (s : list Z) (i : Z) : res (option FdtToken) :=
  match get_from s i ≫= bytes_to_u32 with
  | Some 1 =>
      i4 ← uadd i 4;
      str_size ← match get_from s i4 ≫= position0 with Some sz => sz1 ← uadd sz 1; align4 sz1 | None => Ok 0 end;
      total ← uadd 4 str_size;
      Ok (Some (BeginNode i total i4))
  | Some 2 => Ok (Some (EndNode i 4))
  | Some 3 =>
      i4 ← uadd i 4;
      let l := default 0 (get_from s i4 ≫= bytes_to_u32) in
      i8 ← uadd i 8;
      let nameoff := default 0 (get_from s i8 ≫= bytes_to_u32) in
      i12 ← uadd i 12;
      a ← align4 l;
      total ← uadd 12 a;
      Ok (Some (Prop_ i total nameoff i12 l))
  | Some 4 => Ok (Some (Nop i 4))
  | Some 9 => Ok (Some (End_ i 4))
  | _ => Ok None
  end.

(** ** Nodes and properties *)

Record Node := { start : Z; name_start : Z; next_token_start : Z; total_len : Z; depth : Z }.
Record Property := { p_start : Z; p_name_start : Z; value_start : Z; value_len : Z; p_total_len : Z }.

#[global] Instance Node_eq_dec : EqDecision Node.
Proof. solve_decision. Defined.

Definition encloses (self child : Node) : res bool :=
  e ← uadd (start self) (total_len self);
  e' ← uadd (start child) (total_len child);
  Ok ((start self <=? start child) && (e' <=? e)).

Definition is_root (n : Node) : bool := depth n =? 0.

(** The node of a begin token and the end token that closes it. *)
Definition make_node (begin : Z * Z) (nts endpos endlen d : Z) : res Node :=
  e ← uadd endpos endlen;
  l ← usub e begin.1;
  Ok {| start := begin.1; name_start := begin.2; next_token_start := nts; total_len := l; depth := d |}.

Fixpoint node_from_index_loop (fuel : nat) (s : list Z) (node_depth i : Z) (begin : option (Z * Z)) (nts d : Z)
    : res (option Node) :=
  match fuel with
  | O => Timeout
  | S fuel' =>
    if i <? len s then
      t ← parse_token s i;
      match t with
      | Some (BeginNode st tl nm) =>
          i' ← uadd i tl; d' ← uadd d 1;
          if d =? node_depth then node_from_index_loop fuel' s node_depth i' (Some (st, nm)) i' d'
          else node_from_index_loop fuel' s node_depth i' begin nts d'
      | Some (EndNode st tl) =>
          d' ← usub d 1;
          if d' =? node_depth then
            match begin with None => Ok None | Some b => n ← make_node b nts st tl node_depth; Ok (Some n) end
          else i' ← uadd i tl; node_from_index_loop fuel' s node_depth i' begin nts d'
      | Some (Prop_ _ tl _ _ _) | Some (Nop _ tl) | Some (End_ _ tl) =>
          i' ← uadd i tl; node_from_index_loop fuel' s node_depth i' begin nts d
      | None => Ok None
      end
    else Ok None
  end.

(** The queries on a token block [s] with the names [names]. *)
Section blocks.
Context (fuel : nat) (s names : list Z).

Definition node_from_index (st node_depth : Z) : res (option Node) :=
  node_from_index_loop fuel s node_depth st None 0 node_depth.

Definition root : res (option Node) := node_from_index 0 0.

Definition children_next (parent : Node) (i : Z) : res (option Node * Z) :=
  cd ← uadd (depth parent) 1;
  c ← node_from_index i cd;
  match c with
  | None => Ok (None, i)
  | Some child =>
      e ← encloses parent child;
      if (e : bool) then i' ← uadd (start child) (total_len child); Ok (Some child, i') else Ok (None, i)
  end.

Definition children (parent : Node) : res (list Node) := collect (children_next parent) fuel (next_token_start parent).

Fixpoint find_parent (rec : nat) (node child : Node) : res (option Node) :=
  match rec with
  | O => Timeout
  | S rec' =>
      e ← encloses node child;
      if negb e || (depth child <=? depth node) then Ok None else
      d ← uadd (depth node) 1;
      if d <? depth child then
        f ← find_map (children_next node) (fun c => find_parent rec' c child) fuel (next_token_start node);
        Ok (Some (default node f))
      else Ok (Some node)
  end.

Definition parent (child : Node) : res (option Node) :=
  r ← root; match r with None => Ok None | Some n => find_parent fuel n child end.

Definition node_name (n : Node) : option (list Z) := inline_str s (name_start n).

(** [properties]: stops at the first token that is neither a property nor a
    NOP. *)
Fixpoint properties_loop (n : nat) (end_i i : Z) : res (option Property * Z) :=
  match n with
  | O => Timeout
  | S n' =>
    if i <? end_i then
      t ← parse_token s i;
      match t with
      | Some (Prop_ st tl nm vs vl) =>
          i' ← uadd i tl;
          Ok (Some {| p_start := st; p_name_start := nm; value_start := vs; value_len := vl; p_total_len := tl |}, i')
      | Some (Nop _ tl) => i' ← uadd i tl; properties_loop n' end_i i'
      | _ => Ok (None, i)
      end
    else Ok (None, i)
  end.

Definition properties_next (n : Node) (i : Z) : res (option Property * Z) :=
  e ← uadd (start n) (total_len n); properties_loop fuel e i.
Definition properties (n : Node) : res (list Property) := collect (properties_next n) fuel (next_token_start n).

Definition property_name (p : Property) : option (list Z) := inline_str names (p_name_start p).

Definition property (n : Node) (name : list Z) : res (option Property) :=
  find_map (properties_next n) (fun p => Ok (if decide (property_name p = Some name) then Some p else None)) fuel
    (next_token_start n).

Definition property_value_bytes (p : Property) : res (option (list Z)) :=
  _ ← uadd (value_start p) (value_len p); Ok (sget s (value_start p) (value_len p)).
Definition property_value_as_u32 (p : Property) : res (option Z) :=
  v ← property_value_bytes p; Ok (v ≫= bytes_to_u32).

Definition u32_next (value_end value_i : Z) : res (option Z * Z) :=
  left ← usub value_end value_i;
  if left <? 4 then Ok (None, value_i) else
  e ← uadd value_i 4;
  Ok (sget s value_i 4 ≫= bytes_to_u32, e).
Definition property_value_as_u32_iter (p : Property) : res (list Z) :=
  e ← uadd (value_start p) (value_len p); collect (u32_next e) fuel (value_start p).

(** ** Cells, registers, ranges *)

Definition cell_prop (n : option Node) (name : list Z) (dflt : Z) : res Z :=
  match n with
  | None => Ok dflt
  | Some n =>
      p ← property n name;
      match p with None => Ok dflt | Some p => v ← property_value_as_u32 p; Ok (default dflt v) end
  end.

Definition node_address_size_cells (n : option Node) : res (Z * Z) :=
  a ← cell_prop n (str "#address-cells") 2;
  z ← cell_prop n (str "#size-cells") 1;
  Ok (a, z).

Definition consume_cells (value_i num_cells : Z) : res (option Z) :=
  bytes ← umul num_cells 4;
  _ ← uadd value_i bytes;
  Ok (sget s value_i bytes ≫= if num_cells =? 1 then bytes_to_u32_as_u64 else bytes_to_u64).

Definition reg_next (address_cells size_cells value_end value_i : Z) : res (option RegBlock * Z) :=
  if (address_cells =? 0) || (2 <? address_cells) || (2 <? size_cells) then Ok (None, value_i) else
  let address_size := address_cells * 4 in
  let len_size := size_cells * 4 in
  remaining ← usub value_end value_i;
  if remaining <? address_size + len_size then Ok (None, value_i) else
  a ← consume_cells value_i address_cells;
  match a with
  | None => Ok (None, value_i)
  | Some addr =>
      i1 ← uadd value_i address_size;
      l ← (if 0 <? size_cells then consume_cells i1 size_cells else Ok None);
      i2 ← uadd i1 len_size;
      Ok (Some {| rb_addr := addr; rb_len := l |}, i2)
  end.

(** The closure of [property_reg_iter] and its first index. *)
Definition reg_iter (n : Node) : res ((Z -> res (option RegBlock * Z)) * Z) :=
  par ← parent n;
  '(ac, sc) ← node_address_size_cells par;
  p ← property n (str "reg");
  let '(vs, vl) := match p with Some p => (value_start p, value_len p) | None => (0, 0) end in
  e ← uadd vs vl;
  Ok (reg_next ac sc e, vs).
Definition property_reg_iter (n : Node) : res (list RegBlock) :=
  '(next, i) ← reg_iter n; collect next fuel i.

Record RangeMapping := { child_bus_addr : Z; parent_bus_addr : Z; r_len : Z }.
Inductive Range := Identity | Translated (m : RangeMapping).

Definition translate (r : Range) (b : RegBlock) : res (option RegBlock) :=
  match r with
  | Identity => Ok (Some b)
  | Translated m =>
      if child_bus_addr m <=? rb_addr b then
        e ← uadd (child_bus_addr m) (r_len m);
        if rb_addr b <? e then
          o ← usub (rb_addr b) (child_bus_addr m);
          a ← uadd o (parent_bus_addr m);
          Ok (Some {| rb_addr := a; rb_len := rb_len b |})
        else Ok None
      else Ok None
  end.

Definition range_next (is_identity : bool) (parent_cells address_cells size_cells value_end : Z) (st : Z * bool)
    : res (option Range * (Z * bool)) :=
  let '(value_i, identity_returned) := st in
  if is_identity then
    if negb identity_returned then Ok (Some Identity, (value_i, true)) else Ok (None, st)
  else
  if (address_cells =? 0) || (size_cells =? 0) || (2 <? address_cells) || (2 <? size_cells) then Ok (None, st) else
  if (parent_cells =? 0) || (2 <? parent_cells) then Ok (None, st) else
  let asz := address_cells * 4 in let psz := parent_cells * 4 in let lsz := size_cells * 4 in
  remaining ← usub value_end value_i;
  if remaining <? asz + psz + lsz then Ok (None, st) else
  c ← consume_cells value_i address_cells;
  match c with
  | None => Ok (None, st)
  | Some c =>
      i1 ← uadd value_i asz;
      p ← consume_cells i1 parent_cells;
      match p with
      | None => Ok (None, (i1, identity_returned))
      | Some p =>
          i2 ← uadd i1 psz;
          l ← consume_cells i2 size_cells;
          match l with
          | None => Ok (None, (i2, identity_returned))
          | Some l =>
              i3 ← uadd i2 lsz;
              Ok (Some (Translated {| child_bus_addr := c; parent_bus_addr := p; r_len := l |}), (i3, identity_returned))
          end
      end
  end.

Definition range_iter (n : Node) : res ((Z * bool -> res (option Range * (Z * bool))) * (Z * bool)) :=
  par ← parent n;
  '(pc, _) ← node_address_size_cells par;
  '(ac, sc) ← node_address_size_cells (Some n);
  p ← property n (str "ranges");
  let '(vs, vl) := match p with Some p => (value_start p, value_len p) | None => (0, 0) end in
  e ← uadd vs vl;
  Ok (range_next (vs =? e) pc ac sc e, (vs, false)).
Definition property_range_iter (n : Node) : res (list Range) :=
  '(next, st) ← range_iter n; collect next fuel st.

Inductive TranslatedReg := TranslatedTo (r : RegBlock) | Unreachable.

(** The walk from a node to the root. *)
Fixpoint translate_up (rec : nat) (curr_parent : option Node) (reg : RegBlock) : res (option TranslatedReg) :=
  match rec with
  | O => Timeout
  | S rec' =>
    match curr_parent with
    | None => Ok None
    | Some p =>
        if is_root p then Ok (Some (TranslatedTo reg)) else
        '(next, st) ← range_iter p;
        r ← find_map next (fun range => translate range reg) fuel st;
        match r with
        | None => Ok (Some Unreachable)
        | Some reg' => pp ← parent p; translate_up rec' pp reg'
        end
    end
  end.

(** The closure keeps one register block ahead. *)
Definition translated_next (next : Z -> res (option RegBlock * Z)) (n : Node) (st : option RegBlock * Z)
    : res (option TranslatedReg * (option RegBlock * Z)) :=
  match st.1 with
  | None => Ok (None, st)
  | Some reg =>
      st' ← next st.2;
      p ← parent n;
      t ← translate_up fuel p reg;
      Ok (t, st')
  end.
Definition property_translated_reg_iter (n : Node) : res (list TranslatedReg) :=
  '(next, i) ← reg_iter n;
  st ← next i;
  collect (translated_next next n) fuel st.

(** ** Searches *)

(** [split(|b| *b == 0)]. *)
Fixpoint split_at (b : Z) (acc l : list Z) : list (list Z) :=
  match l with
  | [] => [reverse acc]
  | x :: l' => if x =? b then reverse acc :: split_at b [] l' else split_at b (x :: acc) l'
  end.

Definition property_value_contains (p : Property) (v : list Z) : res bool :=
  bs ← property_value_bytes p;
  Ok (match bs with Some bs => existsb (fun x => bool_decide (x = v)) (split_at 0 [] bs) | None => false end).

(** [nodes]: the captured [i] and [depth]. *)
Fixpoint nodes_loop (n : nat) (begin : option (Z * Z)) (node_depth nts i d : Z) : res (option Node * (Z * Z)) :=
  match n with
  | O => Timeout
  | S n' =>
    if i <? len s then
      t ← parse_token s i;
      match t with
      | None => Ok (None, (i, d))
      | Some (BeginNode st tl nm) =>
          i' ← uadd i tl; d' ← uadd d 1;
          match begin with
          | None => nodes_loop n' (Some (st, nm)) d i' i' d'
          | Some _ => nodes_loop n' begin node_depth nts i' d'
          end
      | Some (EndNode st tl) =>
          match begin with
          | Some b =>
              d1 ← usub d 1;
              if d1 =? node_depth then nd ← make_node b nts st tl node_depth; Ok (Some nd, (nts, d))
              else i' ← uadd i tl; nodes_loop n' begin node_depth nts i' d1
          | None => d1 ← usub d 1; i' ← uadd i tl; nodes_loop n' begin node_depth nts i' d1
          end
      | Some (Prop_ _ tl _ _ _) | Some (Nop _ tl) | Some (End_ _ tl) =>
          i' ← uadd i tl; nodes_loop n' begin node_depth nts i' d
      end
    else Ok (None, (i, d))
  end.

Definition nodes_next (st : Z * Z) : res (option Node * (Z * Z)) := nodes_loop fuel None 0 0 st.1 st.2.
Definition nodes : res (list Node) := collect nodes_next fuel (0, 0).

(** [nodes().filter(..).next()]: the first node with a string property that
    contains [v]. *)
Definition has_string (prop_name v : list Z) (n : Node) : res bool :=
  p ← property n prop_name;
  match p with None => Ok false | Some p => property_value_contains p v end.
Definition filter_next (prop_name v : list Z) (n : Node) : res (option Node) :=
  b ← has_string prop_name v n; Ok (if (b : bool) then Some n else None).
Definition find_first (prop_name v : list Z) : res (option Node) :=
  find_map nodes_next (filter_next prop_name v) fuel (0, 0).

(** All of them. *)
Fixpoint filter_nodes (prop_name v : list Z) (l : list Node) : res (list Node) :=
  match l with
  | [] => Ok []
  | n :: l' => b ← has_string prop_name v n; r ← filter_nodes prop_name v l'; Ok (if (b : bool) then n :: r else r)
  end.
Definition find_compatible (comp : list Z) : res (list Node) := l ← nodes; filter_nodes (str "compatible") comp l.
Definition find_device_type (ty : list Z) : res (list Node) := l ← nodes; filter_nodes (str "device_type") ty l.

(** [find_by_path]: the path iterator is shared by all levels of the recursion;
    [path_loop] is the loop over the children. *)
Fixpoint path_loop (sub : list (list Z) -> Node -> res (option Node * list (list Z))) (node : Node) (n : nat) (i : Z)
    (path : list (list Z)) : res (option Node * list (list Z)) :=
  match n with
  | O => Timeout
  | S n' =>
      '(c, i') ← children_next node i;
      match c with
      | None => Ok (None, path)
      | Some child =>
          '(f, path') ← sub path child;
          match f with Some _ => Ok (f, path') | None => path_loop sub node n' i' path' end
      end
  end.

Fixpoint find_subpath (rec : nat) (path : list (list Z)) (node : Node) (curr : option (list Z))
    : res (option Node * list (list Z)) :=
  match rec with
  | O => Timeout
  | S rec' =>
      if decide (curr = node_name node) then
        match path with
        | [] => Ok (Some node, [])
        | next :: path' =>
            path_loop (fun p child => find_subpath rec' p child (Some next)) node fuel (next_token_start node) path'
        end
      else Ok (None, path)
  end.

(** [path.split_terminator('/')]. *)
Definition split_terminator (c : Z) (path : list Z) : list (list Z) :=
  let l := split_at c [] path in
  match last l with Some [] => take (pred (length l)) l | _ => l end.

Definition find_by_path (path : list Z) : res (option Node) :=
  let l := split_terminator 47 path in
  r ← root;
  match r with
  | None => Ok None
  | Some n => '(f, _) ← find_subpath fuel (tail l) n (head l); Ok f
  end.
End blocks.

(** ** Trees and their token block

    A node is a name and a sequence of properties, NOPs and nodes; [flat] is its
    encoding in the structure block. *)
Inductive item :=
  | INop
  | IProp (off : Z) (val : list Z)
  | INode (name : list Z) (body : list item).

Definition item_rect' (P : item -> Prop) (Hnop : P INop) (Hprop : forall o v, P (IProp o v))
    (Hnode : forall n b, Forall P b -> P (INode n b)) : forall it, P it :=
  fix rec it := match it with
    | INop => Hnop
    | IProp o v => Hprop o v
    | INode n b => Hnode n b ((fix go l := match l return Forall P l with
                                 | [] => Forall_nil_2 P
                                 | x :: l' => Forall_cons_2 P x l' (rec x) (go l') end) b)
    end.

Definition zeros (n : Z) : list Z := replicate (Z.to_nat (- n mod 4)) 0.

(** A begin token with its name. *)
Definition opening (n : list Z) : list Z := to_be 4 1 ++ n ++ 0 :: zeros (len n + 1).
Definition closing : list Z := to_be 4 2.
Definition end_token : list Z := to_be 4 9.

Fixpoint flat (it : item) : list Z :=
  match it with
  | INop => to_be 4 4
  | IProp o v => to_be 4 3 ++ to_be 4 (len v) ++ to_be 4 o ++ v ++ zeros (len v)
  | INode n b => opening n ++ concat (map flat b) ++ closing
  end.
Definition flats (b : list item) : list Z := concat (map flat b).

(** Names without 0; lengths and offsets of 32 bits. *)
Inductive item_ok : item -> Prop :=
  | ok_nop : item_ok INop
  | ok_prop o v : 0 <= o < W32 -> len v < W32 -> item_ok (IProp o v)
  | ok_node n b : Forall (fun c => c <> 0) n -> Forall item_ok b -> item_ok (INode n b).

(** The node that the reader reports for a node at [pos]. *)
Definition node_at (pos d : Z) (n : list Z) (b : list item) : Node :=
  {| start := pos; name_start := pos + 4; next_token_start := pos + len (opening n);
     total_len := len (flat (INode n b)); depth := d |}.

(** All nodes, in document order. *)
Fixpoint nodes_of (pos d : Z) (it : item) : list Node :=
  match it with
  | INode n b =>
      node_at pos d n b ::
      (fix go (pos : Z) (l : list item) : list Node :=
         match l with [] => [] | x :: l' => nodes_of pos (d + 1) x ++ go (pos + len (flat x)) l' end) (pos + len (opening n)) b
  | _ => []
  end.
Fixpoint nodes_in (pos d : Z) (l : list item) : list Node :=
  match l with [] => [] | x :: l' => nodes_of pos d x ++ nodes_in (pos + len (flat x)) d l' end.

Lemma nodes_of_node pos d n b :
  nodes_of pos d (INode n b) = node_at pos d n b :: nodes_in (pos + len (opening n)) (d + 1) b.
Proof.
  cbn [nodes_of]; f_equal; generalize (pos + len (opening n)) as p; induction b as [|x b IH]; intros p; [done|].
  cbn [nodes_in]; by rewrite <- IH.
Qed.

(** The number of tokens. *)
Fixpoint ntok (it : item) : nat :=
  match it with INode _ b => S (S (list_sum (map ntok b))) | _ => 1%nat end.
Definition ntoks (b : list item) : nat := list_sum (map ntok b).

(** ** Reading one token *)

Lemma len_cons (x : Z) l : len (x :: l) = 1 + len l.
Proof. unfold len; rewrite length_cons; lia. Qed.

Lemma len_to_be z : len (to_be 4 z) = 4.
Proof. unfold len, to_be; by rewrite length_reverse, length_to_le. Qed.

Lemma len_zeros n : len (zeros n) = - n mod 4.
Proof. unfold len, zeros; rewrite length_replicate; pose proof (Z.mod_pos_bound (- n) 4); lia. Qed.

Lemma bytes_to_u32_be z r : 0 <= z < W32 -> bytes_to_u32 (to_be 4 z ++ r) = Some z.
Proof.
  intros Hz; unfold bytes_to_u32, sget; pose proof (len_nonneg r) as Hr; rewrite len_app, len_to_be.
  rewrite (proj2 (Z.leb_le (0 + 4) _)) by lia; cbn [andb Z.leb Z.compare]; change (Z.to_nat 4) with (length (to_be 4 z)); change (Z.to_nat 0) with 0%nat.
  rewrite drop_0, take_app_length; cbn [option_map]; unfold from_be, to_be; rewrite reverse_involutive.
  by rewrite from_to_le.
Qed.

Lemma align4_ok n : 0 <= n < 2 ^ 62 -> align4 n = Ok (n + - n mod 4).
Proof.
  intros Hn; unfold align4, wrapping_sub; change 3 with (2 ^ 2 - 1); rewrite land_ones_mask by lia.
  rewrite <- Znumtheory.Zmod_div_mod; [|lia|rewrite W64_val; lia|by exists (2 ^ 62)].
  pose proof (Z.mod_pos_bound (- n) 4); change (2 ^ 2) with 4; rewrite Z.sub_0_l; apply uadd_ok; rewrite W64_val; lia.
Qed.

Lemma position0_app n r : Forall (fun c => c <> 0) n -> position0 (n ++ 0 :: r) = Some (len n).
Proof.
  induction 1 as [|c n Hc _ IH]; [done|]; cbn [app position0]; rewrite (proj2 (Z.eqb_neq c 0) Hc), IH; cbn [option_map].
  by rewrite len_cons.
Qed.

Section parse.
Context (s : list Z) (Hs : len s < 2 ^ 60).

(** At index [i] the block reads [r] to its end. *)
Definition at_ (i : Z) (r : list Z) : Prop := 0 <= i /\ i + len r = len s /\ drop (Z.to_nat i) s = r.

Lemma at_bound i r : at_ i r -> 0 <= i <= len s.
Proof. intros (? & ? & _); pose proof (len_nonneg r); lia. Qed.

Lemma at_get i r : at_ i r -> get_from s i = Some r.
Proof. intros H; pose proof (at_bound i r H); destruct H as (_ & _ & <-); unfold get_from; by rewrite (proj2 (Z.leb_le _ _)) by lia. Qed.

Lemma at_skip i l r : at_ i (l ++ r) -> at_ (i + len l) r.
Proof.
  intros (H0 & Hl & Hd); rewrite len_app in Hl; unfold at_; pose proof (len_nonneg l); split_and!; [lia|lia|].
  unfold len; replace (Z.to_nat (i + Z.of_nat (length l))) with (Z.to_nat i + length l)%nat by lia.
  by rewrite <- drop_drop, Hd, drop_app_length.
Qed.

Lemma sget_at i l r : at_ i (l ++ r) -> sget s i (len l) = Some l.
Proof.
  intros Ha; pose proof (at_bound _ _ Ha); destruct Ha as (_ & Hl & Hd); rewrite len_app in Hl; apply sget_Some.
  pose proof (len_nonneg l); pose proof (len_nonneg r); split_and!; [lia..|]; rewrite Hd; unfold len; by rewrite Nat2Z.id, take_app_length.
Qed.

Lemma at_lt i z r : at_ i (to_be 4 z ++ r) -> (i <? len s) = true.
Proof. intros (_ & Hl & _); rewrite len_app, len_to_be in Hl; pose proof (len_nonneg r); lia. Qed.

Lemma at_token i z r : at_ i (to_be 4 z ++ r) -> 0 <= z < W32 -> get_from s i ≫= bytes_to_u32 = Some z.
Proof. intros Ha Hz; rewrite (at_get _ _ Ha); cbn; by apply bytes_to_u32_be. Qed.

Lemma at_uadd i r k : at_ i r -> 0 <= k < 2 ^ 60 -> uadd i k = Ok (i + k).
Proof. intros Ha Hk; pose proof (at_bound _ _ Ha); apply uadd_ok; rewrite W64_val; lia. Qed.

Lemma parse_nop i r : at_ i (to_be 4 4 ++ r) -> parse_token s i = Ok (Some (Nop i 4)).
Proof. intros Ha; unfold parse_token; by rewrite (at_token _ _ _ Ha). Qed.

Lemma parse_close i r : at_ i (closing ++ r) -> parse_token s i = Ok (Some (EndNode i 4)).
Proof. intros Ha; unfold parse_token; by rewrite (at_token _ _ _ Ha). Qed.

Lemma parse_end i r : at_ i (end_token ++ r) -> parse_token s i = Ok (Some (End_ i 4)).
Proof. intros Ha; unfold parse_token; by rewrite (at_token _ _ _ Ha). Qed.

Lemma parse_open i n r : at_ i (opening n ++ r) -> Forall (fun c => c <> 0) n ->
  parse_token s i = Ok (Some (BeginNode i (len (opening n)) (i + 4))).
Proof.
  intros Ha Hn; unfold opening in *; rewrite <- !(assoc_L (++)) in Ha; cbn [app] in Ha; unfold parse_token.
  rewrite (at_token _ _ _ Ha) by done; rewrite (at_uadd _ _ _ Ha) by lia; cbn [mbind res_bind].
  pose proof (at_skip _ _ _ Ha) as Ha4; rewrite len_to_be in Ha4; rewrite (at_get _ _ Ha4); cbn [mbind option_bind].
  rewrite position0_app by done; pose proof Ha4 as (_ & Hl & _); rewrite len_app, len_cons, len_app in Hl.
  pose proof (len_nonneg n); pose proof (len_nonneg (zeros (len n + 1))); pose proof (len_nonneg r); pose proof (at_bound _ _ Ha).
  rewrite uadd_ok by (rewrite W64_val; lia); cbn [mbind res_bind]; rewrite align4_ok by lia; cbn [mbind res_bind].
  rewrite uadd_ok by (rewrite W64_val; pose proof (Z.mod_pos_bound (- (len n + 1)) 4); lia); cbn [mbind res_bind].
  rewrite !len_app, len_cons, len_to_be, len_zeros; do 3 f_equal; lia.
Qed.

Lemma parse_prop i o v r : at_ i (flat (IProp o v) ++ r) -> 0 <= o < W32 -> len v < W32 ->
  parse_token s i = Ok (Some (Prop_ i (len (flat (IProp o v))) o (i + 12) (len v))).
Proof.
  intros Ha Ho Hv; cbn [flat] in *; rewrite <- !(assoc_L (++)) in Ha; unfold parse_token.
  rewrite (at_token _ _ _ Ha) by done; pose proof (at_skip _ _ _ Ha) as Ha4; pose proof (at_skip _ _ _ Ha4) as Ha8.
  rewrite len_to_be in Ha4, Ha8; rewrite <- Z.add_assoc in Ha8; rewrite len_to_be in Ha8; change (4 + 4) with 8 in Ha8.
  pose proof (len_nonneg v); rewrite !(at_uadd _ _ _ Ha) by lia; cbn [mbind res_bind].
  rewrite (at_token _ _ _ Ha4) by lia; cbn [default mbind res_bind]; rewrite (at_token _ _ _ Ha8) by done; cbn [default mbind res_bind].
  unfold id, W32 in *; rewrite align4_ok by lia; cbn [mbind res_bind].
  rewrite uadd_ok by (rewrite W64_val; pose proof (Z.mod_pos_bound (- len v) 4); lia); cbn [mbind res_bind].
  rewrite !len_app, !len_to_be, len_zeros; do 3 f_equal; lia.
Qed.
End parse.

(** ** Skipping what lies inside a node *)

Lemma flats_cons x b : flats (x :: b) = flat x ++ flats b.
Proof. done. Qed.

Lemma flat_node n b : flat (INode n b) = opening n ++ flats b ++ closing.
Proof. done. Qed.

Lemma ntok_node n b : ntok (INode n b) = S (S (ntoks b)).
Proof. done. Qed.

Lemma ntoks_cons x b : ntoks (x :: b) = (ntok x + ntoks b)%nat.
Proof. done. Qed.

Lemma len_opening n : 8 <= len (opening n).
Proof.
  unfold opening; rewrite !len_app, len_cons, len_to_be, len_zeros; pose proof (len_nonneg n).
  pose proof (Z.mod_pos_bound (- (len n + 1)) 4 ltac:(lia)); destruct (decide (len n + 1 < 4)) as [Hlt|]; [|lia].
  assert (len n = 0 \/ len n = 1 \/ len n = 2) as [-> |[-> | ->]] by lia; vm_compute; discriminate.
Qed.

Lemma ntok_len it : 4 * Z.of_nat (ntok it) <= len (flat it).
Proof.
  induction it as [|o val|n b IH] using item_rect'.
  - by cbn [ntok flat]; rewrite len_to_be.
  - cbn [ntok flat]; rewrite !len_app, !len_to_be; pose proof (len_nonneg val); pose proof (len_nonneg (zeros (len val))); lia.
  - rewrite ntok_node, flat_node, !len_app; pose proof (len_opening n); unfold closing; rewrite len_to_be.
    assert (4 * Z.of_nat (ntoks b) <= len (flats b)); [|lia].
    induction IH as [|x b Hx _ IHb]; [done|]; rewrite flats_cons, len_app, ntoks_cons; lia.
Qed.

Lemma ntoks_len b : 4 * Z.of_nat (ntoks b) <= len (flats b).
Proof.
  induction b as [|x b IH]; [done|]; rewrite flats_cons, len_app, ntoks_cons; pose proof (ntok_len x); lia.
Qed.

Lemma ntok_pos it : (0 < ntok it)%nat.
Proof. destruct it; cbn; lia. Qed.

Section skip.
Context (s : list Z) {R : Type} (loop : nat -> Z -> Z -> R) (nd : Z).
(** What one pass of the loop does at a depth below the node. *)
Context (Hnop : forall f i d r, at_ s i (to_be 4 4 ++ r) -> loop (S f) i d = loop f (i + 4) d)
  (Hprop : forall f i d o v r, at_ s i (flat (IProp o v) ++ r) -> 0 <= o < W32 -> len v < W32 ->
     loop (S f) i d = loop f (i + len (flat (IProp o v))) d)
  (Hopen : forall f i d n r, at_ s i (opening n ++ r) -> Forall (fun c => c <> 0) n -> nd < d < 2 ^ 60 ->
     loop (S f) i d = loop f (i + len (opening n)) (d + 1))
  (Hclose : forall f i d r, at_ s i (closing ++ r) -> nd < d < 2 ^ 60 -> 0 <= d -> loop (S f) i (d + 1) = loop f (i + 4) d).

Lemma skip_item it : item_ok it -> forall f i d r, at_ s i (flat it ++ r) -> nd < d -> 0 <= d -> d + Z.of_nat (ntok it) < 2 ^ 60 ->
  loop (ntok it + f) i d = loop f (i + len (flat it)) d.
Proof.
  induction it as [|o v|n b IH] using item_rect'; intros Hok f i d r Ha Hd H0 Hb; inversion Hok as [|?? Ho Hv|?? Hn Hbody]; subst.
  - cbn [ntok Nat.add flat]; rewrite len_to_be; by apply (Hnop f i d r).
  - cbn [ntok Nat.add]; by apply (Hprop f i d o v r).
  - rewrite ntok_node in Hb |- *; rewrite flat_node in Ha |- *; rewrite <- !(assoc_L (++)) in Ha.
    replace (S (S (ntoks b)) + f)%nat with (S (ntoks b + S f)) by lia; rewrite (Hopen _ i d n _ Ha Hn) by lia.
    pose proof (at_skip _ _ _ _ Ha) as Ha1; rewrite !len_app; unfold closing at 1; rewrite len_to_be.
    assert (Hlist : forall f i, at_ s i (flats b ++ closing ++ r) ->
      loop (ntoks b + f) i (d + 1) = loop f (i + len (flats b)) (d + 1)).
    { clear Ha Ha1 Hok; generalize (closing ++ r) as rr.
      clear r; intros rr; revert Hb.
      induction IH as [|x b Hx _ IHb]; intros Hb g j Ha; [change (len (flats [])) with 0; by rewrite Z.add_0_r|].
      apply Forall_cons in Hbody as [Hxok Hbok]; rewrite flats_cons in Ha |- *; rewrite <- !(assoc_L (++)) in Ha.
      rewrite ntoks_cons in Hb |- *; rewrite <- Nat.add_assoc.
      rewrite (Hx Hxok _ _ _ _ Ha) by lia; rewrite (IHb Hbok) by first [lia|by apply at_skip].
      rewrite len_app; f_equal; lia. }
    rewrite (Hlist _ _ Ha1); apply at_skip in Ha1; rewrite (Hclose _ _ d r Ha1) by lia; f_equal; lia.
Qed.

Lemma skip_items b : Forall item_ok b -> forall f i d r, at_ s i (flats b ++ r) -> nd < d -> 0 <= d -> d + Z.of_nat (ntoks b) < 2 ^ 60 ->
  loop (ntoks b + f) i d = loop f (i + len (flats b)) d.
Proof.
  induction 1 as [|x b Hx _ IH]; intros f i d r Ha Hd H0 Hb; [change (len (flats [])) with 0; by rewrite Z.add_0_r|].
  rewrite flats_cons in Ha |- *; rewrite <- (assoc_L (++)) in Ha.
  rewrite ntoks_cons in Hb |- *; rewrite <- Nat.add_assoc.
  rewrite (skip_item x Hx _ _ _ _ Ha) by lia; apply at_skip in Ha; rewrite (IH _ _ _ _ Ha) by lia; rewrite len_app; f_equal; lia.
Qed.
End skip.

(** ** The rest of a block

    Inside a node, the block goes on with the rest [b] of its body, the token
    that closes it, the rest of its parent's body, and so on ([outer]) up to the
    end token. *)
Fixpoint brest (b : list item) (outer : list (list item)) : list Z :=
  flats b ++ match outer with [] => end_token | b' :: outer' => closing ++ brest b' outer' end.

Fixpoint nodes_rest (i : Z) (b : list item) (outer : list (list item)) : list Node :=
  nodes_in i (Z.of_nat (length outer)) b ++
  match outer with [] => [] | b' :: outer' => nodes_rest (i + len (flats b) + 4) b' outer' end.

(** Tokens left. *)
Fixpoint btok (b : list item) (outer : list (list item)) : nat :=
  ntoks b + match outer with [] => 1 | b' :: outer' => S (btok b' outer') end.

Definition rest_ok (b : list item) (outer : list (list item)) : Prop := Forall item_ok b /\ Forall (Forall item_ok) outer.

Lemma brest_cons x b outer : brest (x :: b) outer = flat x ++ brest b outer.
Proof. destruct outer; cbn [brest]; rewrite flats_cons; by rewrite <- (assoc_L (++)). Qed.

Lemma brest_node n body b outer : brest (INode n body :: b) outer = opening n ++ brest body (b :: outer).
Proof. rewrite brest_cons, flat_node; cbn [brest]; by rewrite <- !(assoc_L (++)). Qed.

Lemma nodes_rest_cons i x b outer :
  nodes_rest i (x :: b) outer = nodes_of i (Z.of_nat (length outer)) x ++ nodes_rest (i + len (flat x)) b outer.
Proof.
  destruct outer; cbn [nodes_rest nodes_in]; rewrite <- (assoc_L (++)); [done|]; do 3 f_equal.
  rewrite flats_cons, len_app; f_equal; lia.
Qed.

Lemma nodes_rest_node i n body b outer :
  nodes_rest i (INode n body :: b) outer = node_at i (Z.of_nat (length outer)) n body :: nodes_rest (i + len (opening n)) body (b :: outer).
Proof.
  rewrite nodes_rest_cons, nodes_of_node; cbn [app nodes_rest length]; f_equal; rewrite Nat2Z.inj_succ; f_equal.
  f_equal; rewrite flat_node, !len_app; unfold closing; rewrite len_to_be; lia.
Qed.

Lemma btok_cons x b outer : btok (x :: b) outer = (ntok x + btok b outer)%nat.
Proof. destruct outer; cbn [btok]; rewrite ntoks_cons; lia. Qed.

Lemma btok_node n body b outer : btok (INode n body :: b) outer = S (btok body (b :: outer)).
Proof. rewrite btok_cons, ntok_node; cbn [btok]; lia. Qed.

Lemma btok_len b outer : 4 * (Z.of_nat (btok b outer)) <= len (brest b outer).
Proof.
  revert b; induction outer as [|b' outer IH]; intros b; cbn [btok brest]; rewrite !len_app; pose proof (ntoks_len b);
    unfold end_token, closing; rewrite len_to_be; [lia|]; specialize (IH b'); lia.
Qed.

Lemma outer_btok b outer : (length outer < btok b outer)%nat.
Proof. revert b; induction outer as [|b' outer IH]; intros b; cbn [btok length]; [lia|]; specialize (IH b'); lia. Qed.

Section reading.
Context (s : list Z) (Hs : len s < 2 ^ 60).

Lemma at_lt_len i l r : at_ s i (l ++ r) -> 0 < len l -> (i <? len s) = true.
Proof. intros (_ & Hl & _) H; rewrite len_app in Hl; pose proof (len_nonneg r); lia. Qed.

Lemma at_uadd_app i l r : at_ s i (l ++ r) -> uadd i (len l) = Ok (i + len l).
Proof.
  intros Ha; apply (at_uadd s Hs _ _ _ Ha); destruct Ha as (? & Hl & _); rewrite len_app in Hl.
  pose proof (len_nonneg l); pose proof (len_nonneg r); lia.
Qed.

Lemma rest_bounds i b outer : at_ s i (brest b outer) ->
  4 * Z.of_nat (btok b outer) <= len s /\ Z.of_nat (length outer) + Z.of_nat (ntoks b) < 2 ^ 58.
Proof.
  intros (? & Hl & _); pose proof (btok_len b outer) as Hb; split; [lia|].
  assert (length outer + ntoks b <= btok b outer)%nat; [|lia].
  destruct outer as [|b' outer]; cbn [btok length]; [lia|]; pose proof (outer_btok b' outer); lia.
Qed.

(** *** The loop of [nodes] *)

Lemma nodes_nop bg nd nts f i d r : at_ s i (to_be 4 4 ++ r) ->
  nodes_loop s (S f) bg nd nts i d = nodes_loop s f bg nd nts (i + 4) d.
Proof.
  intros Ha; cbn [nodes_loop]; rewrite (at_lt_len _ _ _ Ha), (parse_nop s _ _ Ha) by (rewrite len_to_be; lia).
  cbn [mbind res_bind]; by rewrite (at_uadd s Hs _ _ _ Ha).
Qed.

Lemma nodes_prop bg nd nts f i d o v r : at_ s i (flat (IProp o v) ++ r) -> 0 <= o < W32 -> len v < W32 ->
  nodes_loop s (S f) bg nd nts i d = nodes_loop s f bg nd nts (i + len (flat (IProp o v))) d.
Proof.
  intros Ha Ho Hv; pose proof (ntok_len (IProp o v)) as Hl; cbn [ntok] in Hl.
  cbn [nodes_loop]; rewrite (at_lt_len _ _ _ Ha), (parse_prop s Hs _ _ _ _ Ha) by (auto; lia).
  cbn [mbind res_bind]; by rewrite (at_uadd_app _ _ _ Ha).
Qed.

Lemma nodes_open bg nd nts f i d n r : at_ s i (opening n ++ r) -> Forall (fun c => c <> 0) n -> 0 <= d < 2 ^ 60 ->
  nodes_loop s (S f) bg nd nts i d =
  match bg with
  | None => nodes_loop s f (Some (i, i + 4)) d (i + len (opening n)) (i + len (opening n)) (d + 1)
  | Some _ => nodes_loop s f bg nd nts (i + len (opening n)) (d + 1)
  end.
Proof.
  intros Ha Hn Hd; pose proof (len_opening n); cbn [nodes_loop]; rewrite (at_lt_len _ _ _ Ha), (parse_open s Hs _ _ _ Ha) by (auto; lia).
  cbn [mbind res_bind]; rewrite (at_uadd_app _ _ _ Ha); cbn [mbind res_bind]; rewrite uadd_ok by (rewrite W64_val; lia).
  by cbn [mbind res_bind].
Qed.

Lemma nodes_close c nd nts f i d r : at_ s i (closing ++ r) -> 0 <= d ->
  nodes_loop s (S f) (Some c) nd nts i (d + 1) =
  if d =? nd then nd' ← make_node c nts i 4 nd; Ok (Some nd', (nts, d + 1)) else nodes_loop s f (Some c) nd nts (i + 4) d.
Proof.
  intros Ha Hd; cbn [nodes_loop]; rewrite (at_lt_len _ _ _ Ha), (parse_close s _ _ Ha) by (unfold closing; rewrite len_to_be; lia).
  cbn [mbind res_bind]; rewrite usub_ok by lia; cbn [mbind res_bind]; rewrite Z.add_simpl_r.
  destruct (d =? nd); [done|]; by rewrite (at_uadd s Hs _ _ _ Ha).
Qed.

Lemma nodes_skip c nd nts b f i d r : Forall item_ok b -> at_ s i (flats b ++ r) -> 0 <= nd < d -> d + Z.of_nat (ntoks b) < 2 ^ 60 ->
  nodes_loop s (ntoks b + f) (Some c) nd nts i d = nodes_loop s f (Some c) nd nts (i + len (flats b)) d.
Proof.
  intros Hb Ha Hd Hn; apply (skip_items s (fun f i d => nodes_loop s f (Some c) nd nts i d) nd) with (r := r); [| | | |done|done|lia|lia|done].
  - intros; by eapply nodes_nop.
  - intros; by eapply nodes_prop.
  - intros f0 i0 d0 n0 r0 H1 H2 H3; rewrite (nodes_open _ _ _ _ _ _ _ _ H1 H2) by lia; done.
  - intros f0 i0 d0 r0 H1 H2 H3; rewrite (nodes_close _ _ _ _ _ _ _ H1) by lia; by rewrite (proj2 (Z.eqb_neq d0 nd)) by lia.
Qed.

(** The node of an opening token, from its position to the closing token. *)
Lemma make_node_at i n b d rest : at_ s i (flat (INode n b) ++ rest) ->
  make_node (i, i + 4) (i + len (opening n)) (i + len (opening n) + len (flats b)) 4 d = Ok (node_at i d n b).
Proof.
  intros Ha; pose proof (at_bound s _ _ Ha); destruct Ha as (_ & Hl & _).
  rewrite len_app, flat_node, !len_app in Hl; unfold closing in Hl; rewrite len_to_be in Hl.
  pose proof (len_nonneg rest); pose proof (len_nonneg (flats b)); pose proof (len_opening n).
  unfold make_node; cbn [fst snd]; rewrite uadd_ok by (rewrite W64_val; lia); cbn [mbind res_bind].
  rewrite usub_ok by lia; cbn [mbind res_bind]; unfold node_at; rewrite flat_node, !len_app; unfold closing; rewrite len_to_be.
  do 2 f_equal; lia.
Qed.

(** The next node of the iterator, from anywhere inside the block. *)
Lemma next_node f : forall i b outer nd nts, at_ s i (brest b outer) -> rest_ok b outer -> (btok b outer < f)%nat ->
  match nodes_rest i b outer with
  | [] => exists st, nodes_loop s f None nd nts i (Z.of_nat (length outer)) = Ok (None, st)
  | N :: ns => exists i' b' outer', nodes_loop s f None nd nts i (Z.of_nat (length outer)) = Ok (Some N, (i', Z.of_nat (length outer'))) /\
      at_ s i' (brest b' outer') /\ rest_ok b' outer' /\ nodes_rest i' b' outer' = ns /\ (btok b' outer' < btok b outer)%nat
  end.
Proof.
  induction f as [|f IH]; intros i b outer nd nts Ha [Hb Ho] Hf; [lia|].
  pose proof (rest_bounds _ _ _ Ha) as [_ Hbd].
  destruct b as [|x b].
  - destruct outer as [|b' outer]; cbn [brest flats map concat app nodes_rest nodes_in] in *.
    + exists (i + 4, 0); rewrite <- (app_nil_r end_token) in Ha; cbn [nodes_loop].
      rewrite (at_lt_len _ _ _ Ha), (parse_end s _ _ Ha) by (unfold end_token; rewrite len_to_be; lia).
      cbn [mbind res_bind]; rewrite (at_uadd s Hs _ _ _ Ha) by lia; cbn [mbind res_bind]; destruct f as [|f]; [cbn in Hf; lia|].
      pose proof (at_skip _ _ _ _ Ha) as (_ & Hl & _); unfold end_token in Hl; rewrite len_to_be in Hl; change (len []) with 0 in Hl.
      cbn [nodes_loop]; by rewrite (proj2 (Z.ltb_ge _ _)) by lia.
    + cbn [nodes_loop]; rewrite (at_lt_len _ _ _ Ha), (parse_close s _ _ Ha) by (unfold closing; rewrite len_to_be; lia).
      cbn [mbind res_bind length] in *; rewrite usub_ok by lia; cbn [mbind res_bind]; rewrite (at_uadd s Hs _ _ _ Ha) by lia; cbn [mbind res_bind].
      pose proof (at_skip _ _ _ _ Ha) as Ha'; unfold closing in Ha' at 1; rewrite len_to_be in Ha'.
      apply Forall_cons in Ho as [Hb' Ho']; cbn [btok] in Hf; change (ntoks []) with 0%nat in Hf.
      replace (Z.of_nat (S (length outer)) - 1) with (Z.of_nat (length outer)) by lia; change (len []) with 0; rewrite Z.add_0_r.
      specialize (IH (i + 4) b' outer nd nts Ha' (conj Hb' Ho') ltac:(lia)); destruct (nodes_rest (i + 4) b' outer) as [|N ns]; [done|].
      destruct IH as (i' & b1 & o1 & H1 & H2 & H3 & H4 & H5); exists i', b1, o1; split_and!; auto; cbn [btok]; lia.
  - apply Forall_cons in Hb as [Hx Hb]; rewrite btok_cons in Hf; pose proof (ntok_pos x).
    destruct Hx as [|o v Ho1 Hv|n body Hn Hbody].
    + rewrite brest_cons in Ha; cbn [flat] in Ha; rewrite nodes_rest_cons; cbn [nodes_of app flat]; rewrite len_to_be.
      rewrite (nodes_nop _ _ _ _ _ _ _ Ha); apply at_skip in Ha; rewrite len_to_be in Ha.
      specialize (IH _ b outer nd nts Ha (conj Hb Ho) ltac:(lia)); destruct (nodes_rest (i + 4) b outer) as [|N ns]; [done|].
      destruct IH as (i' & b1 & o1 & H1 & H2 & H3 & H4 & H5); exists i', b1, o1; rewrite btok_cons; split_and!; auto; lia.
    + rewrite brest_cons in Ha; rewrite nodes_rest_cons; cbn [nodes_of app].
      rewrite (nodes_prop _ _ _ _ _ _ _ _ _ Ha Ho1 Hv); apply at_skip in Ha.
      specialize (IH _ b outer nd nts Ha (conj Hb Ho) ltac:(lia)); destruct (nodes_rest (i + len (flat (IProp o v))) b outer) as [|N ns]; [done|].
      destruct IH as (i' & b1 & o1 & H1 & H2 & H3 & H4 & H5); exists i', b1, o1; rewrite btok_cons; split_and!; auto; lia.
    + rewrite nodes_rest_node; pose proof Ha as Ha0; rewrite brest_cons in Ha0; rewrite brest_node in Ha.
      rewrite (nodes_open _ _ _ _ _ _ _ _ Ha Hn) by lia; rewrite ntok_node in Hf.
      rewrite ntoks_cons, ntok_node in Hbd; apply at_skip in Ha; set (i1 := i + len (opening n)) in *; set (d := Z.of_nat (length outer)) in *.
      pose proof Ha as Ha1; cbn [brest] in Ha1.
      destruct (Nat.le_exists_sub (ntoks body) f) as (f1 & Hf1 & _); [lia|]; rewrite Hf1, Nat.add_comm.
      rewrite (nodes_skip _ _ _ _ _ _ _ _ Hbody Ha1) by lia; apply at_skip in Ha1.
      destruct f1 as [|f1]; [lia|]; rewrite (nodes_close _ _ _ _ _ _ _ Ha1), Z.eqb_refl by lia.
      unfold i1 at 2; rewrite (make_node_at _ _ _ _ _ Ha0); cbn [mbind res_bind].
      exists i1, body, (b :: outer); split_and!; [|exact Ha|split; [done|by constructor]|done|rewrite btok_node; lia].
      do 3 f_equal; cbn [length]; lia.
Qed.

Lemma nodes_collect fuel n : forall i b outer, at_ s i (brest b outer) -> rest_ok b outer -> (btok b outer < fuel)%nat -> (btok b outer < n)%nat ->
  collect (nodes_next fuel s) n (i, Z.of_nat (length outer)) = Ok (nodes_rest i b outer).
Proof.
  induction n as [|n IH]; intros i b outer Ha Hok Hf Hn; [lia|]; cbn [collect].
  change (nodes_next fuel s (i, Z.of_nat (length outer))) with (nodes_loop s fuel None 0 0 i (Z.of_nat (length outer))).
  pose proof (next_node fuel i b outer 0 0 Ha Hok Hf) as H; destruct (nodes_rest i b outer) as [|N ns].
  - by destruct H as [st ->].
  - destruct H as (i' & b' & outer' & -> & Ha' & Hok' & Hns & Ht); cbn [mbind res_bind].
    by rewrite (IH i' b' outer' Ha' Hok') by lia; cbn [mbind res_bind]; rewrite Hns.
Qed.

(** *** The loop of [node_from_index] *)

Lemma nfi_nop nd bg nts f i d r : at_ s i (to_be 4 4 ++ r) ->
  node_from_index_loop (S f) s nd i bg nts d = node_from_index_loop f s nd (i + 4) bg nts d.
Proof.
  intros Ha; cbn [node_from_index_loop]; rewrite (at_lt_len _ _ _ Ha), (parse_nop s _ _ Ha) by (rewrite len_to_be; lia).
  cbn [mbind res_bind]; by rewrite (at_uadd s Hs _ _ _ Ha).
Qed.

Lemma nfi_prop nd bg nts f i d o v r : at_ s i (flat (IProp o v) ++ r) -> 0 <= o < W32 -> len v < W32 ->
  node_from_index_loop (S f) s nd i bg nts d = node_from_index_loop f s nd (i + len (flat (IProp o v))) bg nts d.
Proof.
  intros Ha Ho Hv; pose proof (ntok_len (IProp o v)) as Hl; cbn [ntok] in Hl.
  cbn [node_from_index_loop]; rewrite (at_lt_len _ _ _ Ha), (parse_prop s Hs _ _ _ _ Ha) by (auto; lia).
  cbn [mbind res_bind]; by rewrite (at_uadd_app _ _ _ Ha).
Qed.

Lemma nfi_open nd bg nts f i d n r : at_ s i (opening n ++ r) -> Forall (fun c => c <> 0) n -> 0 <= d < 2 ^ 60 ->
  node_from_index_loop (S f) s nd i bg nts d =
  if d =? nd then node_from_index_loop f s nd (i + len (opening n)) (Some (i, i + 4)) (i + len (opening n)) (d + 1)
  else node_from_index_loop f s nd (i + len (opening n)) bg nts (d + 1).
Proof.
  intros Ha Hn Hd; pose proof (len_opening n); cbn [node_from_index_loop]; rewrite (at_lt_len _ _ _ Ha), (parse_open s Hs _ _ _ Ha) by (auto; lia).
  cbn [mbind res_bind]; rewrite (at_uadd_app _ _ _ Ha); cbn [mbind res_bind]; rewrite uadd_ok by (rewrite W64_val; lia).
  by cbn [mbind res_bind].
Qed.

Lemma nfi_close nd bg nts f i d r : at_ s i (closing ++ r) -> 0 <= d ->
  node_from_index_loop (S f) s nd i bg nts (d + 1) =
  if d =? nd then match bg with None => Ok None | Some b => n ← make_node b nts i 4 nd; Ok (Some n) end
  else node_from_index_loop f s nd (i + 4) bg nts d.
Proof.
  intros Ha Hd; cbn [node_from_index_loop]; rewrite (at_lt_len _ _ _ Ha), (parse_close s _ _ Ha) by (unfold closing; rewrite len_to_be; lia).
  cbn [mbind res_bind]; rewrite usub_ok by lia; cbn [mbind res_bind]; rewrite Z.add_simpl_r.
  destruct (d =? nd); [done|]; by rewrite (at_uadd s Hs _ _ _ Ha).
Qed.

Lemma nfi_skip nd bg nts b f i d r : Forall item_ok b -> at_ s i (flats b ++ r) -> 0 <= nd < d -> d + Z.of_nat (ntoks b) < 2 ^ 60 ->
  node_from_index_loop (ntoks b + f) s nd i bg nts d = node_from_index_loop f s nd (i + len (flats b)) bg nts d.
Proof.
  intros Hb Ha Hd Hn; apply (skip_items s (fun f i d => node_from_index_loop f s nd i bg nts d) nd) with (r := r); [| | | |done|done|lia|lia|done].
  - intros; by eapply nfi_nop.
  - intros; by eapply nfi_prop.
  - intros f0 i0 d0 n0 r0 H1 H2 H3; rewrite (nfi_open _ _ _ _ _ _ _ _ H1 H2) by lia; by rewrite (proj2 (Z.eqb_neq d0 nd)) by lia.
  - intros f0 i0 d0 r0 H1 H2 H3; rewrite (nfi_close _ _ _ _ _ _ _ H1) by lia; by rewrite (proj2 (Z.eqb_neq d0 nd)) by lia.
Qed.

(** The child nodes among the items at [i], and what follows the first one. *)
Fixpoint kids (i d : Z) (b : list item) : list Node :=
  match b with
  | [] => []
  | INode n body :: b' => node_at i d n body :: kids (i + len (flat (INode n body))) d b'
  | x :: b' => kids (i + len (flat x)) d b'
  end.

Definition outside (i : Z) (o : option Node) : Prop := forall N, o = Some N -> i <= start N /\ 0 < total_len N /\ start N + total_len N <= len s.

Lemma outside_le i i' o : i <= i' -> outside i' o -> outside i o.
Proof. intros Hi H N HN; destruct (H N HN) as (? & ? & ?); lia. Qed.

(** From depth [length outer <= nd]: the first node at depth [nd]; when the items
    at hand have none, something beyond the end of the enclosing node. *)
Lemma nfi_scan nd f : forall i b outer nts, at_ s i (brest b outer) -> rest_ok b outer -> (btok b outer < f)%nat ->
  Z.of_nat (length outer) <= nd ->
  exists o, node_from_index_loop f s nd i None nts (Z.of_nat (length outer)) = Ok o /\ outside i o /\
    (Z.of_nat (length outer) = nd ->
       match kids i nd b with N :: _ => o = Some N | [] => outside (i + len (flats b) + 4) o end).
Proof.
  induction f as [|f IH]; intros i b outer nts Ha [Hb Ho] Hf Hle; [lia|].
  pose proof (rest_bounds _ _ _ Ha) as [_ Hbd]; destruct b as [|x b].
  - change (len (flats [])) with 0; rewrite Z.add_0_r; destruct outer as [|b' outer]; cbn [brest flats map concat app kids] in *.
    + exists None; split; [|split; [done|by intros _ N]].
      rewrite <- (app_nil_r end_token) in Ha; cbn [node_from_index_loop].
      rewrite (at_lt_len _ _ _ Ha), (parse_end s _ _ Ha) by (unfold end_token; rewrite len_to_be; lia).
      cbn [mbind res_bind]; rewrite (at_uadd s Hs _ _ _ Ha) by lia; cbn [mbind res_bind]; destruct f as [|f]; [cbn in Hf; lia|].
      pose proof (at_skip _ _ _ _ Ha) as (_ & Hl & _); unfold end_token in Hl; rewrite len_to_be in Hl; change (len []) with 0 in Hl.
      cbn [node_from_index_loop]; by rewrite (proj2 (Z.ltb_ge _ _)) by lia.
    + cbn [length] in *; rewrite Nat2Z.inj_succ in *; unfold Z.succ in *; rewrite (nfi_close _ _ _ _ _ _ _ Ha) by lia.
      rewrite (proj2 (Z.eqb_neq _ _)) by lia; apply at_skip in Ha; unfold closing in Ha at 1; rewrite len_to_be in Ha.
      apply Forall_cons in Ho as [Hb' Ho']; cbn [btok] in Hf; change (ntoks []) with 0%nat in Hf.
      destruct (IH _ b' outer nts Ha (conj Hb' Ho') ltac:(lia) ltac:(lia)) as (o & -> & Hout & _); exists o; split_and!; auto.
      eapply outside_le, Hout; lia.
  - apply Forall_cons in Hb as [Hx Hb]; rewrite btok_cons in Hf; pose proof (ntok_pos x); rewrite flats_cons, len_app.
    destruct Hx as [|o v Ho1 Hv|n body Hn Hbody].
    + rewrite brest_cons in Ha; cbn [kids]; rewrite (nfi_nop _ _ _ _ _ _ _ Ha); apply at_skip in Ha; cbn [flat] in *; rewrite len_to_be in *.
      destruct (IH _ b outer nts Ha (conj Hb Ho) ltac:(lia) Hle) as (o & -> & Hout & Hk); exists o; split_and!; auto.
      * eapply outside_le, Hout; lia.
      * intros Hd; specialize (Hk Hd); destruct (kids (i + 4) nd b); [|done]; by replace (i + (4 + len (flats b)) + 4) with (i + 4 + len (flats b) + 4) by lia.
    + rewrite brest_cons in Ha; cbn [kids]; rewrite (nfi_prop _ _ _ _ _ _ _ _ _ Ha Ho1 Hv); apply at_skip in Ha.
      destruct (IH _ b outer nts Ha (conj Hb Ho) ltac:(lia) Hle) as (o' & -> & Hout & Hk); exists o'; split_and!; auto.
      * eapply outside_le, Hout; pose proof (len_nonneg (flat (IProp o v))); lia.
      * intros Hd; specialize (Hk Hd); destruct (kids _ nd b); [|done].
        by replace (i + (len (flat (IProp o v)) + len (flats b)) + 4) with (i + len (flat (IProp o v)) + len (flats b) + 4) by lia.
    + pose proof Ha as Ha0; rewrite brest_cons in Ha0; rewrite brest_node in Ha; rewrite (nfi_open _ _ _ _ _ _ _ _ Ha Hn) by lia.
      rewrite ntok_node in Hf; rewrite ntoks_cons, ntok_node in Hbd; apply at_skip in Ha; pose proof (len_opening n).
      destruct (Z.eqb_spec (Z.of_nat (length outer)) nd) as [Hd|Hd].
      * rewrite Hd; pose proof Ha as Ha1; cbn [brest] in Ha1; destruct (Nat.le_exists_sub (ntoks body) f) as (f1 & Hf1 & _); [lia|].
        rewrite Hf1, Nat.add_comm, (nfi_skip _ _ _ _ _ _ _ _ Hbody Ha1) by lia; apply at_skip in Ha1.
        destruct f1 as [|f1]; [lia|]; rewrite (nfi_close _ _ _ _ _ _ _ Ha1), Z.eqb_refl by lia.
        rewrite (make_node_at _ _ _ _ _ Ha0); cbn [mbind res_bind]; eexists; split; [reflexivity|]; split; [|done].
        intros N [= <-]; cbn [start total_len node_at]; destruct Ha0 as (_ & Hl & _); rewrite len_app in Hl.
        pose proof (ntok_len (INode n body)); rewrite ntok_node in *; pose proof (len_nonneg (brest b outer)); lia.
      * destruct (IH _ body (b :: outer) nts Ha) as (o' & Hl & Hout & _); [split; [done|by constructor]|cbn [btok]; lia|cbn [length]; lia|].
        exists o'; cbn [length] in Hl; rewrite Nat2Z.inj_succ in Hl; split_and!; [exact Hl|eapply outside_le, Hout; lia|done].
Qed.

(** *** Children *)

Lemma kids_split i d b N Ns : kids i d b = N :: Ns -> Forall item_ok b -> exists b', Forall item_ok b' /\ kids (start N + total_len N) d b' = Ns /\
  (forall outer, at_ s i (brest b outer) -> at_ s (start N + total_len N) (brest b' outer)) /\
  i <= start N /\ start N + total_len N + len (flats b') = i + len (flats b) /\ 0 < total_len N.
Proof.
  revert i; induction b as [|x b IH]; intros i Hk Hok; [done|]; apply Forall_cons in Hok as [Hx Hok].
  pose proof (ntok_len x) as Hl; pose proof (ntok_pos x).
  destruct x as [|o v|n body]; cbn [kids] in Hk.
  1, 2: destruct (IH _ Hk Hok) as (b' & H1 & H2 & H3 & H4 & H5 & H6); exists b'; rewrite flats_cons, len_app; split_and!; auto; try lia;
    intros outer Ha; apply H3; rewrite brest_cons in Ha; by apply at_skip in Ha.
  injection Hk as <- <-; exists b; cbn [start total_len node_at]; rewrite flats_cons, len_app; split_and!; auto; try lia.
  intros outer Ha; rewrite brest_cons in Ha; by apply at_skip in Ha.
Qed.

(** A node [N] whose body [b] is followed by [outer]. *)
Definition located (N : Node) (b : list item) (outer : list (list item)) : Prop :=
  at_ s (next_token_start N) (brest b outer) /\ rest_ok b outer /\ depth N + 1 = Z.of_nat (length outer) /\
  0 <= start N <= next_token_start N /\ start N + total_len N = next_token_start N + len (flats b) + 4 /\ 0 <= depth N.

Lemma encloses_ok N c : 0 <= start N -> 0 <= total_len N -> start N + total_len N < 2 ^ 61 -> 0 <= start c -> 0 <= total_len c -> start c + total_len c < 2 ^ 61 ->
  encloses N c = Ok ((start N <=? start c) && (start c + total_len c <=? start N + total_len N)).
Proof. intros; unfold encloses; by rewrite !uadd_ok by (rewrite W64_val; lia). Qed.

Section fuelled.
Context (fuel : nat) (Hfuel : (length s < fuel)%nat).

Lemma btok_fuel i b outer : at_ s i (brest b outer) -> (btok b outer < fuel)%nat.
Proof. intros Ha; destruct (rest_bounds _ _ _ Ha) as [Hb _]; unfold len in Hb; lia. Qed.

Lemma child_step N b0 outer i b : located N b0 outer -> at_ s i (brest b outer) -> Forall item_ok b ->
  start N <= i -> i + len (flats b) + 4 = start N + total_len N ->
  children_next fuel s N i =
  Ok (match kids i (depth N + 1) b with [] => (None, i) | c :: _ => (Some c, start c + total_len c) end).
Proof.
  intros (Ha0 & [_ Hok] & Hd & Hst & Hend & Hd0) Ha Hb Hi He; unfold children_next.
  pose proof (rest_bounds _ _ _ Ha) as [_ Hbd]; pose proof (at_bound s _ _ Ha) as Hib; pose proof (at_bound s _ _ Ha0) as Hab.
  pose proof (len_nonneg (flats b)); pose proof (len_nonneg (flats b0)).
  assert (Htop : start N + total_len N <= len s).
  { destruct outer as [|b1 outer]; [cbn in Hd; lia|]; cbn [brest] in Ha; apply at_skip, at_skip in Ha.
    unfold closing in Ha at 1; rewrite len_to_be in Ha; apply at_bound in Ha; lia. }
  rewrite uadd_ok by (rewrite W64_val; lia); cbn [mbind res_bind]; unfold node_from_index; rewrite Hd.
  destruct (nfi_scan (Z.of_nat (length outer)) fuel i b outer 0 Ha (conj Hb Hok) (btok_fuel _ _ _ Ha) ltac:(lia)) as (o & -> & Hout & Hk).
  specialize (Hk eq_refl); cbn [mbind res_bind]; destruct (kids i (Z.of_nat (length outer)) b) as [|c cs] eqn:Hkids.
  - destruct o as [c|]; [|done]; destruct (Hk c eq_refl) as (H1 & H2 & H3).
    rewrite encloses_ok by lia; cbn [mbind res_bind]; by replace ((start N <=? start c) && _) with false by lia.
  - subst o; destruct (Hout c eq_refl) as (H1 & H2 & H3).
    destruct (kids_split i _ b c cs Hkids Hb) as (b' & Hb' & Hcs & Hat & Hic & Hlen & _); pose proof (len_nonneg (flats b')).
    rewrite encloses_ok by lia; cbn [mbind res_bind].
    replace ((start N <=? start c) && _) with true by lia; by rewrite uadd_ok by (rewrite W64_val; lia).
Qed.

Lemma children_from N b0 outer n : located N b0 outer -> forall i b, at_ s i (brest b outer) -> Forall item_ok b ->
  start N <= i -> i + len (flats b) + 4 = start N + total_len N -> (length (kids i (depth N + 1) b) < n)%nat ->
  collect (children_next fuel s N) n i = Ok (kids i (depth N + 1) b).
Proof.
  intros Hloc; induction n as [|n IH]; intros i b Ha Hb Hi He Hn; [lia|]; cbn [collect].
  rewrite (child_step N b0 outer i b Hloc Ha Hb Hi He); cbn [mbind res_bind].
  destruct (kids i (depth N + 1) b) as [|c cs] eqn:Hkids; [done|].
  destruct (kids_split i _ b c cs Hkids Hb) as (b' & Hb' & Hcs & Hat & Hic & Hlen & ?).
  rewrite <- Hcs in Hn |- *; cbn [length] in Hn; by rewrite (IH _ b') by (auto; lia).
Qed.

Lemma kids_length i d b : (length (kids i d b) <= ntoks b)%nat.
Proof.
  revert i; induction b as [|x b IH]; intros i; [done|]; rewrite ntoks_cons; pose proof (ntok_pos x); destruct x as [| |n body]; cbn [kids length];
    match goal with |- context [kids ?j d b] => specialize (IH j) end; lia.
Qed.

Lemma children_spec N b outer : located N b outer -> children fuel s N = Ok (kids (next_token_start N) (depth N + 1) b).
Proof.
  intros Hl; pose proof Hl as (Ha & [Hb _] & _ & Hst & He & _); unfold children; apply (children_from N b outer); [done|done|done|lia|lia|].
  pose proof (kids_length (next_token_start N) (depth N + 1) b); pose proof (btok_fuel _ _ _ Ha).
  assert (ntoks b <= btok b outer)%nat by (destruct outer; cbn [btok]; lia); lia.
Qed.

(** *** Parents *)

(** The child nodes with their bodies. *)
Fixpoint kids_loc (i d : Z) (b : list item) (outer : list (list item)) : list (Node * list item * list (list item)) :=
  match b with
  | [] => []
  | INode n body :: b' => (node_at i d n body, body, b' :: outer) :: kids_loc (i + len (flat (INode n body))) d b' outer
  | x :: b' => kids_loc (i + len (flat x)) d b' outer
  end.

Definition kids_of (N : Node) (b : list item) (outer : list (list item)) := kids_loc (next_token_start N) (depth N + 1) b outer.

(** [below N b outer C cb co P]: [C], with the body [cb], is in the tree below
    [N], and [P] is its parent. *)
Inductive below : Node -> list item -> list (list item) -> Node -> list item -> list (list item) -> Node -> Prop :=
  | below_here N b o c cb co : (c, cb, co) ∈ kids_of N b o -> below N b o c cb co N
  | below_deep N b o k kb ko C cb co P : (k, kb, ko) ∈ kids_of N b o -> below k kb ko C cb co P -> below N b o C cb co P.

Lemma below_kid N b o P pb po Q C cb co : below N b o P pb po Q -> (C, cb, co) ∈ kids_of P pb po -> below N b o C cb co P.
Proof. induction 1 as [|N b o k kb ko P pb po Q Hin _ IH]; intros Hc; eapply below_deep; eauto; by apply below_here. Qed.

Lemma kids_loc_split i d b outer k kb ko : (k, kb, ko) ∈ kids_loc i d b outer -> Forall item_ok b ->
  exists l1 l2, kids i d b = l1 ++ k :: l2 /\
    (forall x, x ∈ l1 -> i <= start x /\ 0 < total_len x /\ start x + total_len x <= start k) /\
    i <= start k /\ start k + total_len k <= i + len (flats b) /\ depth k = d /\
    start k + 8 <= next_token_start k /\ start k + total_len k = next_token_start k + len (flats kb) + 4 /\
    Forall item_ok kb /\
    (forall Ho : Forall (Forall item_ok) outer, Forall (Forall item_ok) ko) /\ length ko = S (length outer) /\
    (at_ s i (brest b outer) -> at_ s (next_token_start k) (brest kb ko)).
Proof.
  revert i; induction b as [|x b IH]; intros i Hin Hok; [by apply elem_of_nil in Hin|]; apply Forall_cons in Hok as [Hx Hok].
  rewrite flats_cons, len_app; pose proof (ntok_len x) as Hl; pose proof (ntok_pos x); pose proof (len_nonneg (flats b)) as Hb0.
  destruct x as [|o v|n body]; cbn [kids_loc kids] in *.
  1, 2: destruct (IH _ Hin Hok) as (l1 & l2 & H1 & H2 & H3 & H4 & H5 & H6 & H7 & H8 & H9 & H10 & H11); exists l1, l2; split_and!; auto; try lia;
    [intros y Hy; specialize (H2 y Hy); lia|intros Ha; apply H11; rewrite brest_cons in Ha; by apply at_skip in Ha].
  apply elem_of_cons in Hin as [[= -> -> ->]|Hin].
  - exists [], (kids (i + len (flat (INode n body))) d b); inversion Hx; subst; pose proof (len_opening n).
    cbn [start total_len depth next_token_start node_at]; split_and!; auto; try lia.
    + by intros y ?%elem_of_nil.
    + rewrite flat_node, !len_app; unfold closing; rewrite len_to_be; lia.
    + intros Ha; rewrite brest_node in Ha; by apply at_skip in Ha.
  - destruct (IH _ Hin Hok) as (l1 & l2 & H1 & H2 & H3 & H4 & H5 & H6 & H7 & H8 & H9 & H10 & H11).
    exists (node_at i d n body :: l1), l2; rewrite H1; split_and!; auto; try lia.
    + intros y [->|Hy]%elem_of_cons; [cbn [start total_len node_at]; lia|specialize (H2 y Hy); lia].
    + intros Ha; apply H11; rewrite brest_cons in Ha; by apply at_skip in Ha.
Qed.

Lemma kids_located N b outer k kb ko : located N b outer -> (k, kb, ko) ∈ kids_of N b outer ->
  located k kb ko /\ depth k = depth N + 1 /\ next_token_start N <= start k /\ start k + total_len k + 4 <= start N + total_len N /\ 0 < total_len k.
Proof.
  intros (Ha & [Hb Ho] & Hd & Hst & He & Hd0) Hin; destruct (kids_loc_split _ _ _ _ _ _ _ Hin Hb) as (_ & _ & _ & _ & H3 & H4 & H5 & H6 & H7 & H8 & H9 & H10 & H11).
  pose proof (len_nonneg (flats kb)); split_and!; [|lia..].
  split_and!; [by apply H11|split; auto|lia..].
Qed.

Lemma below_facts N b outer C cb co P : below N b outer C cb co P -> located N b outer ->
  next_token_start N <= start C /\ start C + total_len C <= start N + total_len N /\ 0 < total_len C /\ depth N < depth C.
Proof.
  induction 1 as [N b o c cb co Hin|N b o k kb ko C cb co P Hin _ IH]; intros Hl.
  - destruct (kids_located _ _ _ _ _ _ Hl Hin) as (_ & ? & ? & ? & ?); lia.
  - destruct (kids_located _ _ _ _ _ _ Hl Hin) as (Hk & ? & ? & ? & ?); destruct (IH Hk) as (? & ? & ? & ?).
    destruct Hk as (_ & _ & _ & ? & _); lia.
Qed.

Fixpoint first_ok {A B} (f : A -> res (option B)) (l : list A) : res (option B) :=
  match l with
  | [] => Ok None
  | a :: l' => r ← f a; match r with Some b => Ok (Some b) | None => first_ok f l' end
  end.

Lemma collect_find {St A B} (next : St -> res (option A * St)) (f : A -> res (option B)) n st l :
  collect next n st = Ok l -> find_map next f n st = first_ok f l.
Proof.
  revert st l; induction n as [|n IH]; intros st l; cbn [collect find_map]; [done|].
  destruct (next st) as [[[a|] st']| |]; cbn [mbind res_bind]; [|by intros [= <-]|done..].
  intros (l' & Hc & [= <-])%bind_Ok; cbn [first_ok]; destruct (f a) as [[b|]| |]; cbn [mbind res_bind]; auto.
Qed.

Lemma first_ok_app {A B} (f : A -> res (option B)) l1 a l2 b : (forall x, x ∈ l1 -> f x = Ok None) -> f a = Ok (Some b) ->
  first_ok f (l1 ++ a :: l2) = Ok (Some b).
Proof.
  induction l1 as [|x l1 IH]; intros Hl Ha; cbn [app first_ok]; [by rewrite Ha|].
  rewrite (Hl x) by left; cbn [mbind res_bind]; apply IH; [|done]; intros y Hy; apply Hl; by right.
Qed.

Lemma located_end N b outer : located N b outer -> start N + total_len N <= len s.
Proof.
  intros (Ha & _ & Hd & _ & He & Hd0); destruct outer as [|b1 outer]; [cbn in Hd; lia|]; cbn [brest] in Ha.
  apply at_skip, at_skip in Ha; unfold closing in Ha at 1; rewrite len_to_be in Ha; apply at_bound in Ha; lia.
Qed.

Lemma find_parent_spec N b outer C cb0 co0 P : below N b outer C cb0 co0 P -> located N b outer -> forall rec, depth C - depth N < Z.of_nat rec ->
  find_parent fuel s rec N C = Ok (Some P).
Proof.
  induction 1 as [N b o c cb co Hin|N b o k kb ko C cb co P Hin Hbel IH]; intros Hl rec Hrec; pose proof (located_end _ _ _ Hl) as Htop;
    pose proof Hl as (_ & _ & _ & Hst & He & Hd0); pose proof (len_nonneg (flats b)).
  - destruct (kids_located _ _ _ _ _ _ Hl Hin) as (_ & ? & ? & ? & ?); destruct rec as [|rec]; [lia|]; cbn [find_parent].
    rewrite encloses_ok by lia; cbn [mbind res_bind]; replace ((start N <=? start c) && _) with true by lia.
    replace (negb true || (depth c <=? depth N)) with false by (cbn; lia).
    assert (depth N < 2 ^ 60) by (destruct Hl as (Ha & _ & Hd & _); destruct (rest_bounds _ _ _ Ha); lia).
    rewrite uadd_ok by (rewrite W64_val; lia); cbn [mbind res_bind]; by replace (depth N + 1 <? depth c) with false by lia.
  - destruct (kids_located _ _ _ _ _ _ Hl Hin) as (Hk & Hdk & ? & ? & ?); destruct (below_facts _ _ _ _ _ _ _ Hbel Hk) as (Hs1 & Hs2 & Hs3 & Hs4).
    destruct rec as [|rec]; [lia|]; cbn [find_parent]; pose proof Hk as (_ & _ & _ & Hkst & _).
    rewrite encloses_ok by lia; cbn [mbind res_bind]; replace ((start N <=? start C) && _) with true by lia.
    replace (negb true || (depth C <=? depth N)) with false by (cbn; lia).
    assert (depth N < 2 ^ 60) by (destruct Hl as (Ha & _ & Hd & _); destruct (rest_bounds _ _ _ Ha); lia).
    rewrite uadd_ok by (rewrite W64_val; lia); cbn [mbind res_bind]; replace (depth N + 1 <? depth C) with true by lia.
    rewrite (collect_find _ _ _ _ _ (children_spec N b o Hl)).
    destruct Hl as (Ha & [Hb _] & _); destruct (kids_loc_split _ _ _ _ _ _ _ Hin Hb) as (l1 & l2 & -> & Hsib & _).
    rewrite (first_ok_app _ l1 k l2 P); [done| |by apply IH; [done|lia]].
    intros x Hx; destruct (Hsib x Hx) as (? & ? & ?); destruct rec as [|rec]; [lia|]; cbn [find_parent].
    rewrite encloses_ok by lia; cbn [mbind res_bind]; by replace ((start x <=? start C) && _) with false by lia.
Qed.

(** *** Properties *)

(** The properties before the first child node, with name offset and value. *)
Fixpoint props_of (i : Z) (b : list item) : list (Property * (Z * list Z)) :=
  match b with
  | IProp o v :: b' =>
      ({| p_start := i; p_name_start := o; value_start := i + 12; value_len := len v; p_total_len := len (flat (IProp o v)) |}, (o, v))
      :: props_of (i + len (flat (IProp o v))) b'
  | INop :: b' => props_of (i + 4) b'
  | _ => []
  end.

Lemma props_step f : forall i b outer, at_ s i (brest b outer) -> rest_ok b outer -> outer <> [] -> (ntoks b < f)%nat ->
  match props_of i b with
  | [] => exists i', properties_loop s f (i + len (flats b) + 4) i = Ok (None, i')
  | (p, _) :: ps => exists b', properties_loop s f (i + len (flats b) + 4) i = Ok (Some p, p_start p + p_total_len p) /\
      at_ s (p_start p + p_total_len p) (brest b' outer) /\ rest_ok b' outer /\ props_of (p_start p + p_total_len p) b' = ps /\
      p_start p + p_total_len p + len (flats b') = i + len (flats b) /\ (ntoks b' < ntoks b)%nat
  end.
Proof.
  induction f as [|f IH]; intros i b outer Ha [Hb Ho] Hne Hf; [lia|]; pose proof (len_nonneg (flats b)) as Hl0.
  destruct b as [|x b]; [|apply Forall_cons in Hb as [Hx Hb]; destruct Hx as [|o v Ho1 Hv|n body Hn Hbody]].
  - destruct outer as [|b' outer]; [done|]; cbn [props_of]; exists i; cbn [brest flats map concat app] in Ha; cbn [properties_loop].
    change (len (flats [])) with 0; rewrite (proj2 (Z.ltb_lt _ _)) by lia; by rewrite (parse_close s _ _ Ha).
  - cbn [props_of]; rewrite brest_cons in Ha; cbn [flat] in Ha; cbn [properties_loop]; rewrite (proj2 (Z.ltb_lt _ _)) by lia.
    rewrite (parse_nop s _ _ Ha); cbn [mbind res_bind]; rewrite (at_uadd s Hs _ _ _ Ha) by lia; cbn [mbind res_bind].
    apply at_skip in Ha; rewrite len_to_be in Ha; rewrite ntoks_cons in Hf; cbn [ntok] in Hf.
    specialize (IH (i + 4) b outer Ha (conj Hb Ho) Hne ltac:(lia)).
    rewrite flats_cons, len_app; cbn [flat]; rewrite len_to_be; replace (i + (4 + len (flats b)) + 4) with (i + 4 + len (flats b) + 4) by lia.
    destruct (props_of (i + 4) b) as [|[p ov] ps].
    + done.
    + destruct IH as (b' & H1 & H2 & H3 & H4 & H5 & H6); exists b'; rewrite ntoks_cons; cbn [ntok]; split_and!; auto; lia.
  - cbn [props_of]; rewrite brest_cons in Ha; cbn [properties_loop]; rewrite (proj2 (Z.ltb_lt _ _)) by lia.
    rewrite (parse_prop s Hs _ _ _ _ Ha Ho1 Hv); cbn [mbind res_bind]; rewrite (at_uadd_app _ _ _ Ha); cbn [mbind res_bind].
    apply at_skip in Ha; exists b; cbn [p_start p_total_len]; rewrite flats_cons, len_app, ntoks_cons; cbn [ntok].
    split_and!; auto; [by split|lia].
  - cbn [props_of]; exists i; rewrite brest_node in Ha; cbn [properties_loop]; rewrite (proj2 (Z.ltb_lt _ _)) by lia.
    by rewrite (parse_open s Hs _ _ _ Ha Hn).
Qed.

Lemma props_collect e n : forall i b outer, at_ s i (brest b outer) -> rest_ok b outer -> outer <> [] -> e = i + len (flats b) + 4 ->
  (ntoks b < n)%nat -> collect (properties_loop s fuel e) n i = Ok (fst <$> props_of i b).
Proof.
  induction n as [|n IH]; intros i b outer Ha Hok Hne -> Hn; [lia|]; cbn [collect].
  assert (Hf : (ntoks b < fuel)%nat) by (pose proof (btok_fuel _ _ _ Ha); destruct outer; cbn [btok] in *; lia).
  pose proof (props_step fuel i b outer Ha Hok Hne Hf) as H; destruct (props_of i b) as [|[p ov] ps].
  - by destruct H as [i' ->].
  - destruct H as (b' & -> & Ha' & Hok' & <- & He & Hlt); cbn [mbind res_bind]; rewrite (IH _ b' outer Ha' Hok' Hne) by lia; done.
Qed.

Lemma properties_spec N b outer : located N b outer -> properties fuel s N = Ok (fst <$> props_of (next_token_start N) b).
Proof.
  intros Hl; pose proof (located_end _ _ _ Hl) as Htop; destruct Hl as (Ha & Hok & Hd & Hst & He & Hd0).
  assert (Hne : outer <> []) by (intros ->; cbn in Hd; lia); unfold properties.
  assert (Hnext : forall i, properties_next fuel s N i = properties_loop s fuel (start N + total_len N) i).
  { intros i; unfold properties_next; rewrite uadd_ok; [done|]; rewrite W64_val; lia. }
  rewrite <- (props_collect (start N + total_len N) fuel _ _ _ Ha Hok Hne); [|lia|].
  - generalize fuel at 2 4 as n; intros n; generalize (next_token_start N) as j; induction n as [|n IH]; intros j; [done|]; cbn [collect].
    rewrite Hnext; destruct (properties_loop s fuel (start N + total_len N) j) as [[[p|] j']| |]; cbn [mbind res_bind]; by rewrite ?IH.
  - pose proof (btok_fuel _ _ _ Ha); destruct outer; cbn [btok] in *; lia.
Qed.

(** The value of a property is where the property says. *)
Lemma prop_at i b outer p o v : at_ s i (brest b outer) -> (p, (o, v)) ∈ props_of i b ->
  exists r, at_ s (value_start p) (v ++ r) /\ value_len p = len v.
Proof.
  revert i; induction b as [|x b IH]; intros i Ha Hin; [by apply elem_of_nil in Hin|].
  rewrite brest_cons in Ha; pose proof Ha as Ha0; apply at_skip in Ha0.
  destruct x as [|o' v'|n body]; cbn [props_of] in Hin; [|apply elem_of_cons in Hin as [[= -> <- <-]|Hin]|by apply elem_of_nil in Hin].
  - cbn [flat] in Ha0; rewrite len_to_be in Ha0; by apply (IH _ Ha0).
  - cbn [value_start value_len flat] in *; rewrite <- !(assoc_L (++)) in Ha; do 3 apply at_skip in Ha; rewrite !len_to_be in Ha.
    replace (i + 4 + 4 + 4) with (i + 12) in Ha by lia; eauto.
  - by apply (IH _ Ha0).
Qed.

Lemma prop_name i b p o v : (p, (o, v)) ∈ props_of i b -> p_name_start p = o.
Proof.
  revert i; induction b as [|[|o' v'|n body] b IH]; intros i Hin; cbn [props_of] in Hin; try (by apply elem_of_nil in Hin); [eauto|].
  apply elem_of_cons in Hin as [[= -> -> ->]|Hin]; [done|eauto].
Qed.

Lemma prop_value i b outer p o v : at_ s i (brest b outer) -> (p, (o, v)) ∈ props_of i b ->
  p_name_start p = o /\ property_value_bytes s p = Ok (Some v).
Proof.
  intros Ha Hin; split; [by eapply prop_name|]; destruct (prop_at i b outer p o v Ha Hin) as (r & Hat & Hvl).
  unfold property_value_bytes; rewrite Hvl, (sget_at s _ _ _ Hat); pose proof (at_bound s _ _ Hat); pose proof Hat as (_ & Hl & _).
  rewrite len_app in Hl; pose proof (len_nonneg r); by rewrite uadd_ok by (rewrite W64_val; lia).
Qed.

Lemma property_spec names N b outer nm : located N b outer ->
  property fuel s names N nm =
  first_ok (fun p => Ok (if decide (property_name names p = Some nm) then Some p else None)) (fst <$> props_of (next_token_start N) b).
Proof. intros Hl; unfold property; by apply collect_find, properties_spec with outer. Qed.

(** *** Names and paths *)

Lemma node_name_at i d n body r : at_ s i (opening n ++ r) -> Forall (fun c => c <> 0) n -> utf8_ok n = true ->
  node_name s (node_at i d n body) = Some n.
Proof.
  intros Ha Hn Hu; unfold node_name; cbn [name_start node_at]; unfold opening in Ha; rewrite <- !(assoc_L (++)) in Ha.
  apply at_skip in Ha; rewrite len_to_be in Ha; unfold inline_str; rewrite (at_get s _ _ Ha); cbn [mbind option_bind app].
  rewrite position0_app by done; cbn [mbind option_bind]; unfold len; by rewrite Nat2Z.id, take_app_length, Hu.
Qed.

(** The children in the order of the loop of [find_subpath]. *)
Fixpoint loop_list (sub : list (list Z) -> Node -> res (option Node * list (list Z))) (l : list Node) (path : list (list Z))
    : res (option Node * list (list Z)) :=
  match l with
  | [] => Ok (None, path)
  | c :: l' => '(f, path') ← sub path c; match f with Some _ => Ok (f, path') | None => loop_list sub l' path' end
  end.

Lemma path_loop_list sub N n : forall i l path, collect (children_next fuel s N) n i = Ok l ->
  path_loop fuel s sub N n i path = loop_list sub l path.
Proof.
  induction n as [|n IH]; intros i l path; cbn [collect path_loop]; [done|].
  destruct (children_next fuel s N i) as [[[a|] st']| |]; cbn [mbind res_bind]; [|by intros [= <-]|done..].
  intros (l' & Hc & [= <-])%bind_Ok; cbn [loop_list]; destruct (sub path a) as [[[b|] path']| |]; cbn [mbind res_bind]; auto.
Qed.

Lemma loop_list_none sub l path : (forall c, c ∈ l -> forall p, sub p c = Ok (None, p)) -> loop_list sub l path = Ok (None, path).
Proof.
  induction l as [|c l IH]; intros H; [done|]; cbn [loop_list]; rewrite (H c) by left; cbn [mbind res_bind]; apply IH; intros; apply H; by right.
Qed.

Lemma loop_list_one sub l1 c l2 path f path' : (forall x, x ∈ l1 ++ l2 -> forall p, sub p x = Ok (None, p)) ->
  sub path c = Ok (f, path') -> loop_list sub (l1 ++ c :: l2) path = Ok (f, path').
Proof.
  induction l1 as [|x l1 IH]; intros H Hc; cbn [app loop_list].
  - rewrite Hc; cbn [mbind res_bind]; destruct f; [done|]; apply loop_list_none; intros; apply H; done.
  - rewrite (H x) by left; cbn [mbind res_bind]; apply IH; [|done]; intros y Hy; apply H; by right.
Qed.

(** The node at a path of names below a node. *)
Fixpoint lookup_path (k : Node * list item * list (list item)) (path : list (list Z)) : option Node :=
  match path with
  | [] => Some k.1.1
  | nm :: rest =>
      match list_find (fun k' => node_name s k'.1.1 = Some nm) (kids_of k.1.1 k.1.2 k.2) with
      | Some (_, k') => lookup_path k' rest
      | None => None
      end
  end.

(** Siblings have different names, and names are UTF-8. *)
Definition names (b : list item) : list (list Z) :=
  concat (map (fun x => match x with INode n _ => [n] | _ => [] end) b).
Fixpoint names_ok (it : item) : bool :=
  match it with
  | INode n b => utf8_ok n && bool_decide (NoDup (names b)) && forallb names_ok b
  | _ => true
  end.

Lemma kids_names i d b outer : at_ s i (brest b outer) -> Forall item_ok b -> forallb names_ok b = true ->
  (fun k => node_name s k.1.1) <$> kids_loc i d b outer = Some <$> names b.
Proof.
  revert i; induction b as [|x b IH]; intros i Ha Hok Hn; [done|]; pose proof Ha as Ha1; rewrite brest_cons in Ha.
  pose proof Hok as Hok1; apply Forall_cons in Hok1 as [Hx Hok']; cbn [forallb] in Hn; apply andb_true_iff in Hn as [Hnx Hn].
  apply at_skip in Ha; specialize (IH _ Ha Hok' Hn); destruct x as [| |n body]; cbn [kids_loc]; [done..|].
  cbn [fmap list_fmap names map concat app]; f_equal; [|exact IH]; cbn [fst snd]; inversion Hx; subst.
  rewrite brest_node in Ha1; apply (node_name_at _ _ _ _ _ Ha1); [done|]; cbn [names_ok] in Hnx; by destruct (utf8_ok n).
Qed.

Lemma names_in n b body : INode n body ∈ b -> forallb names_ok b = true -> names_ok (INode n body) = true.
Proof. intros Hin H; rewrite forallb_forall in H; apply H; by apply list_elem_of_In. Qed.

Lemma kids_body i d b outer k kb ko : (k, kb, ko) ∈ kids_loc i d b outer -> exists n, INode n kb ∈ b.
Proof.
  revert i; induction b as [|x b IH]; intros i Hin; [by apply elem_of_nil in Hin|].
  destruct x as [| |n body]; cbn [kids_loc] in Hin; [| |apply elem_of_cons in Hin as [[= -> -> ->]|Hin]; [exists n; left|]];
    destruct (IH _ Hin) as [m Hm]; exists m; by right.
Qed.

Lemma kids_loc_fst i d b outer : (fun k => k.1.1) <$> kids_loc i d b outer = kids i d b.
Proof. revert i; induction b as [|[| |n body] b IH]; intros i; cbn [kids_loc kids fmap list_fmap]; [done|apply IH..|]; f_equal; apply IH. Qed.

Lemma find_subpath_spec path : forall rec N b o nm, located N b o -> forallb names_ok b = true -> NoDup (names b) ->
  node_name s N = Some nm -> (length path < rec)%nat ->
  exists path', find_subpath fuel s rec path N (Some nm) = Ok (lookup_path (N, b, o) path, path').
Proof.
  induction path as [|next path IH]; intros rec N b o nm Hl Hok Hnd Hnm Hrec; (destruct rec as [|rec]; [cbn in Hrec; lia|]);
    cbn [find_subpath]; rewrite decide_True by done; [by eexists|].
  rewrite (path_loop_list _ _ _ _ _ path (children_spec N b o Hl)); cbn [lookup_path fst snd].
  pose proof Hl as (Ha & [Hb Ho] & _); pose proof (kids_names _ (depth N + 1) b o Ha Hb Hok) as Hnames.
  unfold kids_of; rewrite <- (kids_loc_fst _ _ _ o).
  set (sub := fun p child => find_subpath fuel s rec p child (Some next)).
  assert (Hmiss : forall c, node_name s c <> Some next -> forall p, sub p c = Ok (None, p)).
  { intros c Hc p; unfold sub; destruct rec as [|rec']; [cbn in Hrec; lia|]; cbn [find_subpath]; by rewrite decide_False by congruence. }
  destruct (list_find _ _) as [[j [[k kb] ko]]|] eqn:Hf.
  - apply list_find_Some in Hf as (Hj & Hkn & Hbefore); cbn in Hkn; pose proof (list_elem_of_lookup_2 _ _ _ Hj) as Hin.
    destruct (kids_located N b o k kb ko Hl Hin) as (Hkl & _); destruct (kids_body _ _ _ _ _ _ _ Hin) as [n Hbody].
    pose proof (names_in _ _ _ Hbody Hok) as Hno; cbn [names_ok] in Hno; apply andb_true_iff in Hno as [Hno1 Hno2]; apply andb_true_iff in Hno1 as [_ Hno1].
    destruct (IH rec k kb ko next Hkl Hno2 (proj1 (bool_decide_eq_true _) Hno1) Hkn) as (path' & Hsub); [cbn in Hrec; lia|].
    exists path'; rewrite <- (take_drop_middle _ _ _ Hj), fmap_app, fmap_cons; cbn [fst snd]; apply loop_list_one; [|exact Hsub].
    intros x Hx p; apply Hmiss; intros Hxn.
    assert (HN : NoDup ((fun k => node_name s k.1.1) <$> kids_loc (next_token_start N) (depth N + 1) b o)) by (rewrite Hnames; by apply NoDup_fmap_2; [apply _|]).
    rewrite <- (take_drop_middle _ _ _ Hj), fmap_app, fmap_cons in HN; cbn [fst snd] in HN; rewrite Hkn in HN.
    apply NoDup_app in HN as (_ & Hdis & [Hnot _]%NoDup_cons).
    apply elem_of_app in Hx as [(y & -> & Hy)%list_elem_of_fmap|(y & -> & Hy)%list_elem_of_fmap].
    + apply (Hdis (Some next)); [|left]; rewrite <- Hxn; by apply (list_elem_of_fmap_2 (fun k => node_name s k.1.1)).
    + apply Hnot; rewrite <- Hxn; by apply (list_elem_of_fmap_2 (fun k => node_name s k.1.1)).
  - exists path; apply loop_list_none; intros c Hc p; apply Hmiss; apply list_elem_of_fmap in Hc as (k' & -> & Hin).
    apply list_find_None in Hf; rewrite Forall_forall in Hf; by apply Hf.
Qed.

(** *** The whole tree *)

Context (items : list item) (Hitems : Forall item_ok items) (Hblock : at_ s 0 (brest items [])).

(** A node of the tree with its body and its parent. *)
Inductive member : Node -> list item -> list (list item) -> option Node -> Prop :=
  | m_root N b o l : kids_loc 0 0 items [] = (N, b, o) :: l -> member N b o None
  | m_kid P pb po pp N b o : member P pb po pp -> (N, b, o) ∈ kids_of P pb po -> member N b o (Some P).

Lemma root_loc_spec N b o : (N, b, o) ∈ kids_loc 0 0 items [] -> located N b o /\ depth N = 0.
Proof.
  intros Hin; destruct (kids_loc_split _ _ _ _ _ _ _ Hin Hitems) as (_ & _ & _ & _ & H3 & H4 & H5 & H6 & H7 & H8 & H9 & H10 & H11).
  split; [|done]; split_and!; [by apply H11|split; auto|rewrite H5, H10; cbn; lia|lia..].
Qed.

Lemma member_located N b o par : member N b o par -> located N b o.
Proof.
  induction 1 as [N b o l Hk|P pb po pp N b o _ IH Hin]; [|by apply (kids_located P pb po)].
  apply root_loc_spec; rewrite Hk; left.
Qed.

Lemma root_spec N b o l : kids_loc 0 0 items [] = (N, b, o) :: l -> root fuel s = Ok (Some N).
Proof.
  intros Hk; unfold root, node_from_index.
  destruct (nfi_scan 0 fuel 0 items [] 0 Hblock (conj Hitems (Forall_nil_2 _)) (btok_fuel _ _ _ Hblock) ltac:(done)) as (o' & Hr & _ & Hfirst).
  change (Z.of_nat (length [])) with 0 in Hr; rewrite Hr; f_equal; specialize (Hfirst eq_refl); rewrite <- (kids_loc_fst _ _ _ []), Hk in Hfirst; exact Hfirst.
Qed.

Lemma member_below P pb po Q : member P pb po (Some Q) -> exists R rb ro l,
  kids_loc 0 0 items [] = (R, rb, ro) :: l /\ below R rb ro P pb po Q.
Proof.
  intros H; remember (Some Q) as par eqn:E; revert Q E; induction H as [|P pb po pp N b o H IH Hin]; intros Q E; [done|].
  injection E as <-; destruct H as [R rb ro l Hk|P' pb' po' pp' N' b' o' H' Hin'].
  - exists R, rb, ro, l; split; [done|]; by apply below_here.
  - destruct (IH _ eq_refl) as (R & rb & ro & l & Hk & Hb); exists R, rb, ro, l; split; [done|]; by eapply below_kid.
Qed.

Lemma parent_spec N b o par : member N b o par -> parent fuel s N = Ok par.
Proof.
  intros Hm; pose proof (member_located _ _ _ _ Hm) as Hl; pose proof (located_end _ _ _ Hl); unfold parent.
  pose proof Hl as (Ha & _ & Hd & Hst & He & Hd0); pose proof (len_nonneg (flats b)); destruct par as [P|].
  - destruct (member_below _ _ _ _ Hm) as (R & rb & ro & l & Hk & Hb); rewrite (root_spec _ _ _ _ Hk); cbn [mbind res_bind].
    destruct (root_loc_spec R rb ro) as [HR HR0]; [rewrite Hk; left|]; apply (find_parent_spec _ _ _ _ _ _ _ Hb HR).
    destruct (rest_bounds _ _ _ Ha) as [Hbt _]; pose proof (outer_btok b o); unfold len in Hbt; lia.
  - inversion Hm as [? ? ? l Hk|]; subst; rewrite (root_spec _ _ _ _ Hk); cbn [mbind res_bind].
    destruct fuel as [|f]; [lia|]; cbn [find_parent]; rewrite encloses_ok by lia; cbn [mbind res_bind].
    by replace (negb _ || (depth N <=? depth N)) with true by lia.
Qed.

(** Every node that [nodes] reports is in the tree. *)
Definition inner_below (N : Node) (it : item) : Prop := forall n body i d ko, it = INode n body ->
  N ∈ nodes_in (i + len (opening n)) (d + 1) body -> exists cb co P, below (node_at i d n body) body ko N cb co P.

Lemma nodes_in_kids N l : Forall (inner_below N) l -> forall i d o, N ∈ nodes_in i d l ->
  exists c cb co, (c, cb, co) ∈ kids_loc i d l o /\ (N = c \/ exists cb' co' P, below c cb co N cb' co' P).
Proof.
  induction 1 as [|x l Hx _ IH]; intros i d o; cbn [nodes_in]; [by intros ?%elem_of_nil|]; rewrite elem_of_app; intros [Hin|Hin].
  - destruct x as [| |n b]; try (by apply elem_of_nil in Hin); rewrite nodes_of_node in Hin.
    exists (node_at i d n b), b, (l :: o); split; [cbn [kids_loc]; left|]; apply elem_of_cons in Hin as [->|Hin]; [by left|right].
    by apply (Hx n b).
  - destruct (IH _ _ o Hin) as (c & cb & co & Hc & Hor); exists c, cb, co; split; [|done]; destruct x; cbn [kids_loc]; [done..|by right].
Qed.

Lemma nodes_inner N it : inner_below N it.
Proof.
  induction it as [| |n0 b0 IH] using item_rect'; intros n body i d ko Heq; try discriminate Heq; injection Heq as <- <-; intros Hin.
  destruct (nodes_in_kids N b0 IH _ _ ko Hin) as (c & cb & co & Hc & [->|(cb' & co' & P & Hb)]).
  - exists cb, co, (node_at i d n0 b0); by apply below_here.
  - exists cb', co', P; by eapply below_deep.
Qed.

Lemma below_member N b o par C cb co P : member N b o par -> below N b o C cb co P -> exists par', member C cb co par'.
Proof.
  intros Hm Hb; revert par Hm; induction Hb as [N b o c cb co Hin|N b o k kb ko C cb co P Hin _ IH]; intros par Hm.
  - exists (Some N); by eapply m_kid.
  - eapply IH, m_kid; eauto.
Qed.

(** With one root, the nodes of [nodes_in] are the members. *)
Lemma nodes_members R rb ro N : kids_loc 0 0 items [] = [(R, rb, ro)] -> N ∈ nodes_in 0 0 items -> exists b o par, member N b o par.
Proof.
  intros Hk HN; assert (Hroot : member R rb ro None) by (by eapply m_root).
  destruct (nodes_in_kids N items (proj2 (Forall_forall _ _) (fun x _ => nodes_inner N x)) 0 0 [] HN) as (c & cb & co & Hc & Hor).
  rewrite Hk in Hc; apply list_elem_of_singleton in Hc; injection Hc as -> -> ->; destruct Hor as [->|(cb' & co' & P & Hb)].
  - by exists rb, ro, None.
  - destruct (below_member _ _ _ _ _ _ _ _ Hroot Hb) as [par' Hm]; by exists cb', co', par'.
Qed.
End fuelled.
End reading.

(** ** Termination on arbitrary input *)

Definition tok_len (t : FdtToken) : Z :=
  match t with BeginNode _ l _ | EndNode _ l | Prop_ _ l _ _ _ | Nop _ l | End_ _ l => l end.
Definition tok_start (t : FdtToken) : Z :=
  match t with BeginNode i _ _ | EndNode i _ | Prop_ i _ _ _ _ | Nop i _ | End_ i _ => i end.

Lemma align4_nonneg n m : 0 <= n -> align4 n = Ok m -> 0 <= m.
Proof.
  intros Hn (-> & _)%uadd_Ok; assert (0 <= Z.land (wrapping_sub 0 n) 3); [|lia].
  apply Z.land_nonneg; right; lia.
Qed.

Lemma position0_nonneg l n : position0 l = Some n -> 0 <= n.
Proof.
  revert n; induction l as [|b l IH]; intros n; cbn [position0]; [done|]; destruct (b =? 0); [by intros [= <-]|].
  destruct (position0 l) as [m|]; cbn; [|done]; intros [= <-]; specialize (IH m eq_refl); lia.
Qed.

Lemma get_from_some s i r : get_from s i ≫= bytes_to_u32 = Some r -> i + 4 <= len s \/ i < 0.
Proof.
  unfold get_from; destruct (Z.leb_spec i (len s)) as [Hle|]; [|done]; cbn [mbind option_bind]; unfold bytes_to_u32, sget.
  destruct (Z.leb_spec (0 + 4) (len (drop (Z.to_nat i) s))) as [Hl|Hl]; cbn; [|done]; intros _.
  unfold len in *; rewrite length_drop in Hl; lia.
Qed.

Lemma uadd_cases a b : uadd a b = Panic \/ uadd a b = Ok (a + b).
Proof. unfold uadd; destruct (_ <? _); auto. Qed.

Lemma usub_cases a b : usub a b = Panic \/ usub a b = Ok (a - b).
Proof. unfold usub; destruct (_ <=? _); auto. Qed.

(** Evaluate the next checked operation; a panic ends the goal. *)
Ltac checked := match goal with
  | |- context [mbind _ (uadd ?a ?b)] => destruct (uadd_cases a b) as [-> | ->]; cbn [mbind res_bind]; [done|]
  | |- context [mbind _ (usub ?a ?b)] => destruct (usub_cases a b) as [-> | ->]; cbn [mbind res_bind]; [done|]
  end.

Ltac token_cases H := repeat match type of H with
  | mbind _ _ = Ok _ => let x := fresh "x" in let Hx := fresh "Hx" in apply bind_Ok in H as (x & Hx & H)
  end.

Section bytes.
Context (s : list Z) (Hbytes : bytes_ok s).

Lemma u32_nonneg i : 0 <= default 0 (get_from s i ≫= bytes_to_u32).
Proof.
  unfold get_from; destruct (i <=? len s); [|done]; cbn [mbind option_bind]; unfold bytes_to_u32.
  destruct (sget (drop (Z.to_nat i) s) 0 4) as [l|] eqn:E; cbn; [|done]; apply sget_Some in E as (_ & _ & _ & ->).
  unfold from_be; apply from_le_bound; unfold bytes_ok; apply Forall_reverse, Forall_take, Forall_drop, Forall_drop; exact Hbytes.
Qed.

(** A token starts where it is read, inside the block, and is at least four
    bytes long. *)
Lemma parse_progress i t : 0 <= i -> parse_token s i = Ok (Some t) -> 4 <= tok_len t /\ tok_start t = i /\ i + 4 <= len s.
Proof.
  intros Hi; unfold parse_token; destruct (get_from s i ≫= bytes_to_u32) as [z|] eqn:E; [|done].
  apply get_from_some in E as [E|E]; [|lia]; destruct (decide (z = 1)) as [->|?].
  { intros H; token_cases H; injection H as <-; cbn; apply uadd_Ok in Hx1 as [-> _]; split_and!; [|done..].
    destruct (get_from s x ≫= position0) as [n|] eqn:En; [|by injection Hx0 as <-].
    apply bind_Ok in Hx0 as (m & [-> _]%uadd_Ok & Hx0); apply align4_nonneg in Hx0; [lia|].
    destruct (get_from s x); [|done]; apply position0_nonneg in En; lia. }
  destruct (decide (z = 3)) as [->|?].
  { intros H; token_cases H; injection H as <-; cbn; apply uadd_Ok in Hx3 as [-> _]; split_and!; [|done..].
    apply align4_nonneg in Hx2; [lia|apply u32_nonneg]. }
  destruct (decide (z = 2)) as [->|?]; [intros [= <-]; cbn; lia|]; destruct (decide (z = 4)) as [->|?]; [intros [= <-]; cbn; lia|].
  destruct (decide (z = 9)) as [->|?]; [intros [= <-]; cbn; lia|].
  destruct z as [|p|p]; [done| |done]; repeat (match goal with p : positive |- _ => destruct p end; try done; try lia).
Qed.

Lemma parse_ends i : parse_token s i <> Timeout.
Proof.
  unfold parse_token; destruct (get_from s i ≫= bytes_to_u32) as [z|]; [|done].
  destruct (decide (z = 1)) as [->|?].
  { checked; destruct (get_from s (i + 4) ≫= position0); unfold align4; cbn [mbind res_bind]; [do 2 checked|]; by checked. }
  destruct (decide (z = 3)) as [->|?]; [unfold align4; by do 5 checked|].
  destruct z as [|p|p]; [done| |done]; repeat (match goal with p : positive |- _ => destruct p end; try done; try lia).
Qed.

(** [nodes]: the index moves forward, so there are at most as many passes as
    bytes. *)
Lemma nodes_loop_ends n : forall bg nd nts i d, 0 <= i -> (Z.to_nat (len s - i) < n)%nat ->
  match nodes_loop s n bg nd nts i d with
  | Timeout => False
  | Ok (Some _, (i', _)) => i < len s /\ match bg with None => i < i' | Some _ => i' = nts end
  | _ => True
  end.
Proof.
  induction n as [|n IH]; intros bg nd nts i d Hi Hn; [lia|]; cbn [nodes_loop]; destruct (Z.ltb_spec i (len s)) as [Hlt|]; [|done].
  destruct (parse_token s i) as [[t|]| |] eqn:Hp; cbn [mbind res_bind]; [|done|done|by apply (parse_ends i)].
  destruct (parse_progress i t Hi Hp) as (Hl & Hst & Hb).
  assert (Hrec : forall bg' nd' nts' d', (bg' = bg /\ nts' = nts \/ bg = None /\ nts' = i + tok_len t) ->
    match nodes_loop s n bg' nd' nts' (i + tok_len t) d' with
    | Timeout => False
    | Ok (Some _, (i', _)) => i < len s /\ match bg with None => i < i' | Some _ => i' = nts end
    | _ => True
    end).
  { intros bg' nd' nts' d' Hor; specialize (IH bg' nd' nts' (i + tok_len t) d' ltac:(lia) ltac:(lia)).
    destruct (nodes_loop s n bg' nd' nts' (i + tok_len t) d') as [[[N|] [i' d'']]| |]; auto; split; [done|].
    destruct IH as [_ IH], Hor as [[-> ->]|[-> ->]]; [destruct bg; lia|destruct bg'; lia]. }
  destruct t; cbn [tok_len] in *; try (checked; apply Hrec; by auto).
  - checked; checked; destruct bg; apply Hrec; auto.
  - destruct bg as [b|]; checked; [|checked; apply Hrec; auto]; destruct (_ =? nd); [|checked; apply Hrec; auto].
    unfold make_node; checked; checked; done.
Qed.

Lemma nodes_end fuel n st : (length s < fuel)%nat -> 0 <= st.1 -> (S (Z.to_nat (len s - st.1)) < n)%nat ->
  collect (nodes_next fuel s) n st <> Timeout.
Proof.
  intros Hf; revert st; induction n as [|n IH]; intros [i d] Hi Hn; [lia|]; cbn [fst] in *; cbn [collect].
  change (nodes_next fuel s (i, d)) with (nodes_loop s fuel None 0 0 i d).
  pose proof (nodes_loop_ends fuel None 0 0 i d Hi ltac:(unfold len; lia)) as H.
  destruct (nodes_loop s fuel None 0 0 i d) as [[[N|] [i' d']]| |]; cbn [mbind res_bind]; try done.
  specialize (IH (i', d') ltac:(cbn; lia) ltac:(cbn; lia)); by destruct (collect (nodes_next fuel s) n (i', d')).
Qed.

(** [node_from_index]: a node that is found ends behind the index. *)
Lemma nfi_ends nd n : forall bg nts i d, 0 <= i -> (Z.to_nat (len s - i) < n)%nat ->
  match node_from_index_loop n s nd i bg nts d with
  | Timeout => False
  | Ok (Some N) => i < len s /\ i < start N + total_len N
  | _ => True
  end.
Proof.
  induction n as [|n IH]; intros bg nts i d Hi Hn; [lia|]; cbn [node_from_index_loop]; destruct (Z.ltb_spec i (len s)) as [Hlt|]; [|done].
  destruct (parse_token s i) as [[t|]| |] eqn:Hp; cbn [mbind res_bind]; [|done|done|by apply (parse_ends i)].
  destruct (parse_progress i t Hi Hp) as (Hl & Hst & Hb).
  assert (Hrec : forall bg' nts' d', match node_from_index_loop n s nd (i + tok_len t) bg' nts' d' with
    | Timeout => False | Ok (Some N) => i < len s /\ i < start N + total_len N | _ => True end).
  { intros bg' nts' d'; specialize (IH bg' nts' (i + tok_len t) d' ltac:(lia) ltac:(lia)).
    destruct (node_from_index_loop n s nd (i + tok_len t) bg' nts' d') as [[N|]| |]; auto; lia. }
  destruct t; cbn [tok_len tok_start] in *; try (checked; by apply Hrec).
  - checked; checked; destruct (d =? nd); apply Hrec.
  - checked; destruct (d - 1 =? nd); [|checked; apply Hrec]; destruct bg as [b|]; [|done].
    unfold make_node; checked; checked; cbn [start total_len]; lia.
Qed.

Lemma children_end fuel N n : (length s < fuel)%nat -> forall i, 0 <= i -> (S (Z.to_nat (len s - i)) < n)%nat ->
  collect (children_next fuel s N) n i <> Timeout.
Proof.
  intros Hf; induction n as [|n IH]; intros i Hi Hn; [lia|]; cbn [collect].
  assert (Hstep : match children_next fuel s N i with Timeout => False | Ok (Some _, i') => i < len s /\ i < i' | _ => True end).
  { unfold children_next, node_from_index; checked; pose proof (nfi_ends (depth N + 1) fuel None 0 i (depth N + 1) Hi ltac:(unfold len; lia)) as H.
    destruct (node_from_index_loop fuel s (depth N + 1) i None 0 (depth N + 1)) as [[c|]| |]; cbn [mbind res_bind]; try done.
    unfold encloses; checked; checked; destruct (_ && _); [lia|done]. }
  destruct (children_next fuel s N i) as [[[c|] i']| |]; cbn [mbind res_bind]; try done.
  specialize (IH i' ltac:(lia) ltac:(lia)); by destruct (collect (children_next fuel s N) n i').
Qed.

(** [properties]. *)
Lemma properties_loop_ends e n : forall i, 0 <= i -> (Z.to_nat (len s - i) < n)%nat ->
  match properties_loop s n e i with Timeout => False | Ok (Some _, i') => i < len s /\ i < i' | _ => True end.
Proof.
  induction n as [|n IH]; intros i Hi Hn; [lia|]; cbn [properties_loop]; destruct (i <? e); [|done].
  destruct (parse_token s i) as [[t|]| |] eqn:Hp; cbn [mbind res_bind]; [|done|done|by apply (parse_ends i)].
  destruct (parse_progress i t Hi Hp) as (Hl & Hst & Hb); destruct t; cbn [tok_len] in *; try done; checked; [lia|].
  specialize (IH (i + total_len0) ltac:(lia) ltac:(lia)); destruct (properties_loop s n e (i + total_len0)) as [[[p|] i']| |]; auto; lia.
Qed.

Lemma properties_end fuel N n : (length s < fuel)%nat -> forall i, 0 <= i -> (S (Z.to_nat (len s - i)) < n)%nat ->
  collect (properties_next fuel s N) n i <> Timeout.
Proof.
  intros Hf; induction n as [|n IH]; intros i Hi Hn; [lia|]; cbn [collect].
  assert (Hstep : match properties_next fuel s N i with Timeout => False | Ok (Some _, i') => i < len s /\ i < i' | _ => True end).
  { unfold properties_next; checked; apply properties_loop_ends; [done|unfold len; lia]. }
  destruct (properties_next fuel s N i) as [[[c|] i']| |]; cbn [mbind res_bind]; try done.
  specialize (IH i' ltac:(lia) ltac:(lia)); by destruct (collect (properties_next fuel s N) n i').
Qed.
End bytes.

(** ** Cells and registers *)

(** A register block with [ac] address cells and [sc] size cells. *)
Definition enc_reg (ac sc : nat) (r : RegBlock) : list Z :=
  to_be (4 * ac) (rb_addr r) ++ match rb_len r with Some l => to_be (4 * sc) l | None => [] end.

Definition reg_ok (ac sc : nat) (r : RegBlock) : Prop :=
  0 <= rb_addr r < 256 ^ Z.of_nat (4 * ac) /\
  match rb_len r with Some l => sc <> 0%nat /\ 0 <= l < 256 ^ Z.of_nat (4 * sc) | None => sc = 0%nat end.

Definition cells_ok (ac sc : nat) : Prop := (ac = 1%nat \/ ac = 2%nat) /\ (sc = 0%nat \/ sc = 1%nat \/ sc = 2%nat).

Lemma length_to_be n z : length (to_be n z) = n.
Proof. unfold to_be; by rewrite length_reverse, length_to_le. Qed.

Lemma from_to_be n z : 0 <= z < 256 ^ Z.of_nat n -> from_be (to_be n z) = z.
Proof. intros; unfold from_be, to_be; by rewrite reverse_involutive, from_to_le. Qed.

Lemma len_enc_reg ac sc r : reg_ok ac sc r -> len (enc_reg ac sc r) = Z.of_nat (4 * ac) + Z.of_nat (4 * sc).
Proof.
  intros [_ Hl]; unfold enc_reg; rewrite len_app; unfold len; rewrite length_to_be.
  destruct (rb_len r) as [l|]; [by rewrite length_to_be|]; subst sc; cbn; lia.
Qed.

Lemma sget_full (l : list Z) n : n = len l -> sget l 0 n = Some l.
Proof.
  intros ->; apply sget_Some; pose proof (len_nonneg l); split_and!; try lia.
  change (Z.to_nat 0) with 0%nat; rewrite drop_0; unfold len; by rewrite Nat2Z.id, take_ge by lia.
Qed.

Section regs.
Context (s : list Z) (Hs : len s < 2 ^ 60).

Lemma consume_at i c z r : at_ s i (to_be (4 * c) z ++ r) -> c = 1%nat \/ c = 2%nat -> 0 <= z < 256 ^ Z.of_nat (4 * c) ->
  consume_cells s i (Z.of_nat c) = Ok (Some z).
Proof.
  intros Ha Hc Hz; pose proof (at_bound s _ _ Ha) as Hb; pose proof (sget_at s _ _ _ Ha) as Hg; unfold len in Hg; rewrite length_to_be in Hg.
  unfold consume_cells; rewrite umul_ok by (rewrite W64_val; lia); cbn [mbind res_bind]; rewrite uadd_ok by (rewrite W64_val; lia); cbn [mbind res_bind].
  replace (Z.of_nat c * 4) with (Z.of_nat (4 * c)) by lia; rewrite Hg; cbn [mbind option_bind]; pose proof (length_to_be (4 * c) z) as Hlen.
  unfold bytes_to_u32_as_u64, bytes_to_u64; assert (Hl : len (to_be (4 * c) z) = Z.of_nat (4 * c)) by (unfold len; by rewrite Hlen).
  destruct Hc as [-> | ->]; [change (Z.of_nat 1 =? 1) with true|change (Z.of_nat 2 =? 1) with false]; cbv beta iota; rewrite sget_full by done; cbn [option_map];
    by rewrite from_to_be.
Qed.

Lemma reg_step ac sc e i rb r : cells_ok ac sc -> reg_ok ac sc rb -> at_ s i (enc_reg ac sc rb ++ r) -> i + len (enc_reg ac sc rb) <= e < 2 ^ 61 ->
  reg_next s (Z.of_nat ac) (Z.of_nat sc) e i = Ok (Some rb, i + len (enc_reg ac sc rb)).
Proof.
  intros [Hac Hsc] Hrb Ha He; pose proof (len_enc_reg _ _ _ Hrb) as Hlen; pose proof (at_bound s _ _ Ha) as Hb; unfold reg_next.
  replace ((Z.of_nat ac =? 0) || (2 <? Z.of_nat ac) || (2 <? Z.of_nat sc)) with false by lia.
  rewrite usub_ok by lia; cbn [mbind res_bind]; rewrite (proj2 (Z.ltb_ge _ _)) by lia.
  destruct Hrb as [Hadr Hl]; unfold enc_reg in Ha; rewrite <- (assoc_L (++)) in Ha; rewrite (consume_at _ _ _ _ Ha) by auto; cbn [mbind res_bind].
  apply at_skip in Ha; unfold len in Ha at 1; rewrite length_to_be in Ha; rewrite uadd_ok by (rewrite W64_val; lia); cbn [mbind res_bind].
  replace (Z.of_nat (4 * ac)) with (Z.of_nat ac * 4) in Ha by lia; destruct rb as [adr [l|]]; cbn [rb_len rb_addr] in *.
  - rewrite (proj2 (Z.ltb_lt _ _)) by lia; rewrite (consume_at _ _ _ _ Ha) by (try lia; apply Hl); cbn [mbind res_bind].
    rewrite uadd_ok by (rewrite W64_val; lia); cbn [mbind res_bind]; rewrite Hlen; do 2 f_equal; lia.
  - subst sc; change (Z.of_nat 0) with 0; cbn [Z.ltb Z.compare mbind res_bind]; rewrite uadd_ok by (rewrite W64_val; lia); cbn [mbind res_bind]; rewrite Hlen; do 2 f_equal; lia.
Qed.

Lemma reg_done ac sc i : cells_ok ac sc -> 0 <= i -> reg_next s (Z.of_nat ac) (Z.of_nat sc) i i = Ok (None, i).
Proof.
  intros [Hac Hsc] Hi; unfold reg_next; replace ((Z.of_nat ac =? 0) || (2 <? Z.of_nat ac) || (2 <? Z.of_nat sc)) with false by lia.
  rewrite usub_ok by lia; cbn [mbind res_bind]; by rewrite (proj2 (Z.ltb_lt (i - i) _)) by lia.
Qed.

Lemma reg_collect ac sc r n : cells_ok ac sc -> forall regs i, Forall (reg_ok ac sc) regs -> at_ s i (concat (map (enc_reg ac sc) regs) ++ r) ->
  (length regs < n)%nat ->
  collect (reg_next s (Z.of_nat ac) (Z.of_nat sc) (i + len (concat (map (enc_reg ac sc) regs)))) n i = Ok regs.
Proof.
  intros Hc; induction n as [|n IH]; intros regs i Hok Ha Hn; [lia|]; pose proof (at_bound s _ _ Ha) as Hb; cbn [collect]; destruct regs as [|rb regs].
  - cbn [map concat]; change (len []) with 0; by rewrite Z.add_0_r, reg_done by (done || lia).
  - apply Forall_cons in Hok as [Hrb Hok]; cbn [map concat] in Ha |- *; rewrite <- (assoc_L (++)) in Ha.
    pose proof (len_nonneg (concat (map (enc_reg ac sc) regs))); pose proof Ha as (_ & Htot & _); rewrite !len_app in Htot; pose proof (len_nonneg r).
    pose proof (len_nonneg (enc_reg ac sc rb)).
    rewrite (reg_step ac sc _ i rb _ Hc Hrb Ha) by (rewrite len_app; lia); cbn [mbind res_bind]; apply at_skip in Ha.
    rewrite len_app, Z.add_assoc; rewrite (IH regs _ Hok Ha); [done|cbn in Hn; lia].
Qed.
End regs.

(** ** A whole blob *)

(** Header, token block, names. *)
Definition blob (s names : list Z) : list Z :=
  to_be 4 0xd00dfeed ++ to_be 4 (40 + len s + len names) ++ to_be 4 40 ++ to_be 4 (40 + len s) ++ to_be 4 40 ++ to_be 4 17 ++
  to_be 4 16 ++ to_be 4 0 ++ to_be 4 (len names) ++ to_be 4 (len s) ++ s ++ names.

Lemma offset_at d i z r : at_ d i (to_be 4 z ++ r) -> 0 <= z < W32 -> bytes_to_u32_offset d i = Some z /\ at_ d (i + 4) r.
Proof.
  intros Ha Hz; pose proof (sget_at d _ _ _ Ha) as Hg; rewrite len_to_be in Hg; apply at_skip in Ha; rewrite len_to_be in Ha.
  split; [|done]; unfold bytes_to_u32_offset; rewrite Hg; cbn [option_map]; by rewrite from_to_be.
Qed.

Lemma blob_new s names : 40 + len s + len names < W32 ->
  exists dt, new (blob s names) = Val dt /\ structs dt = Ok s /\ strings dt = Ok names.
Proof.
  intros Hlt; pose proof (len_nonneg s); pose proof (len_nonneg names); pose proof W64_val; unfold W32 in *.
  assert (Hlen : len (blob s names) = 40 + len s + len names) by (unfold blob; rewrite !len_app, !len_to_be; lia).
  assert (Ha : at_ (blob s names) 0 (blob s names)) by (split_and!; [done|lia|done]).
  unfold blob in Ha at 2; unfold new, header_new, new_header; rewrite Hlen, Z.mod_small by (unfold W32; lia).
  do 10 (apply offset_at in Ha as [-> Ha]; [cbn [mbind option_bind];
    match type of Ha with at_ _ ?i _ => let j := eval vm_compute in i in change i with j in Ha end|unfold W32; lia]).
  cbn [magic totalsize]; rewrite !Z.eqb_refl; cbn [negb orb]; eexists; split; [reflexivity|].
  unfold structs, strings; cbn [data header off_dt_struct size_dt_struct off_dt_strings size_dt_strings].
  pose proof (sget_at _ _ _ _ Ha) as Hg; apply at_skip in Ha.
  assert (Hn : at_ (blob s names) (40 + len s) (names ++ [])) by (by rewrite app_nil_r).
  apply sget_at in Hn; by rewrite Hg, Hn.
Qed.

(** The token block of a tree. *)
Definition block (items : list item) : list Z := flats items ++ end_token.

Section block.
Context (items : list item) (Hitems : Forall item_ok items) (fuel : nat).
#[local] Notation s := (block items).
Context (Hs : len s < 2 ^ 60) (Hfuel : (length s < fuel)%nat).

Lemma block_at : at_ s 0 (brest items []).
Proof. split_and!; done. Qed.

(** C14: reading back a flattened tree: for every tree whose names hold no 0 and
    whose lengths fit 32 bits, [DeviceTree::new] accepts the blob built from its
    token block and any block of names, and [nodes] yields exactly the nodes of
    the tree in document order, with the right positions, lengths and depths. *)
Theorem nodes_preorder (names : list Z) (Hsize : 40 + len s + len names < W32) :
  exists dt, new (blob s names) = Val dt /\ structs dt = Ok s /\ strings dt = Ok names /\
    nodes fuel s = Ok (nodes_in 0 0 items).
Proof.
  destruct (blob_new s names Hsize) as (dt & H1 & H2 & H3); exists dt; split_and!; auto.
  pose proof block_at as Ha; unfold nodes; change (0, 0) with (0, Z.of_nat (length (@nil (list item)))).
  pose proof (btok_fuel s Hs fuel Hfuel _ _ _ Ha); rewrite (nodes_collect s Hs fuel fuel 0 items []) by first [done|lia|by split].
  cbn [nodes_rest length]; by rewrite app_nil_r.
Qed.

(** Navigation: for every node that [nodes] reports in a tree with one root,
    [parent] is its parent (none for the root), [children] are exactly its child
    nodes in order, [properties] are exactly its properties up to its first
    child, [property] is the first one with the name asked for, and
    [property_value_bytes] is the value of the property in the tree. *)
Lemma tree_queries (R N : Node) (rb : list item) (ro : list (list item)) (Hroot : kids_loc 0 0 items [] = [(R, rb, ro)])
    (HN : N ∈ nodes_in 0 0 items) :
  exists b o par, member items N b o par /\ parent fuel s N = Ok par /\
    children fuel s N = Ok (kids (next_token_start N) (depth N + 1) b) /\
    properties fuel s N = Ok (fst <$> props_of (next_token_start N) b) /\
    (forall names nm, property fuel s names N nm =
      Ok (List.find (fun p => bool_decide (property_name names p = Some nm)) (fst <$> props_of (next_token_start N) b))) /\
    (forall p off v, (p, (off, v)) ∈ props_of (next_token_start N) b ->
      p_name_start p = off /\ property_value_bytes s p = Ok (Some v)).
Proof.
  destruct (nodes_members items R rb ro N Hroot HN) as (b & o & par & Hm); exists b, o, par.
  pose proof (member_located s fuel Hfuel items Hitems block_at _ _ _ _ Hm) as Hl; split_and!; [done|..].
  - by apply (parent_spec s Hs fuel Hfuel items Hitems block_at) with b o.
  - by apply (children_spec s Hs fuel Hfuel N b o).
  - by apply (properties_spec s Hs fuel Hfuel N b o).
  - intros names nm; rewrite (property_spec s Hs fuel Hfuel names N b o nm Hl); generalize (fst <$> props_of (next_token_start N) b) as l.
    induction l as [|p l IH]; [done|]; cbn [first_ok List.find]; case_decide; cbn [mbind res_bind];
      [by rewrite bool_decide_true|by rewrite bool_decide_false].
  - intros p off v Hin; destruct Hl as (Ha & _); by apply (prop_value s Hs fuel Hfuel (next_token_start N) b o).
Qed.

(** [find_by_path] returns the node reached by following the names of the
    path from the root, or nothing, in every tree in which siblings have
    different names; a path whose first element is not the name of the root
    finds nothing. *)
Lemma find_by_path_exact (R : Node) (rb : list item) (ro : list (list item)) (path first : list Z) (rest : list (list Z))
    (Hroot : kids_loc 0 0 items [] = [(R, rb, ro)]) (Hnames : forallb names_ok items = true)
    (Hpath : split_terminator 47 path = first :: rest) (Hlen : (length rest < fuel)%nat) :
  find_by_path fuel s path = Ok (if decide (node_name s R = Some first) then lookup_path s (R, rb, ro) rest else None).
Proof.
  pose proof block_at as Ha; unfold find_by_path; rewrite Hpath, (root_spec s Hs fuel Hfuel items Hitems Ha _ _ _ _ Hroot); cbn [mbind res_bind tail head].
  assert (Hin : (R, rb, ro) ∈ kids_loc 0 0 items []) by (rewrite Hroot; left).
  destruct (root_loc_spec s fuel Hfuel items Hitems Ha _ _ _ Hin) as [Hl _]; destruct (kids_body _ _ _ _ _ _ _ Hin) as [n Hbody].
  pose proof (names_in _ _ _ Hbody Hnames) as Hn; cbn [names_ok] in Hn; apply andb_true_iff in Hn as [Hn1 Hn2]; apply andb_true_iff in Hn1 as [_ Hn1].
  case_decide as Hd.
  - destruct (find_subpath_spec s Hs fuel Hfuel rest fuel R rb ro first Hl Hn2 (proj1 (bool_decide_eq_true _) Hn1) Hd Hlen) as (path' & ->); done.
  - destruct fuel as [|f]; [lia|]; cbn [find_subpath]; rewrite decide_False by congruence; done.
Qed.

(** Decoding the [reg] property. *)
Lemma reg_roundtrip_spec (names : list Z) (N P : Node) (b pb : list item) (o po : list (list item)) (pp : option Node) (p : Property)
    (off : Z) (ac sc : nat) (regs : list RegBlock)
    (HP : member items P pb po pp) (HN : (N, b, o) ∈ kids_of P pb po) (Hc : cells_ok ac sc)
    (Hcells : node_address_size_cells fuel s names (Some P) = Ok (Z.of_nat ac, Z.of_nat sc))
    (Hp : property fuel s names N (str "reg") = Ok (Some p))
    (Hv : (p, (off, concat (map (enc_reg ac sc) regs))) ∈ props_of (next_token_start N) b) (Hregs : Forall (reg_ok ac sc) regs) :
  property_reg_iter fuel s names N = Ok regs /\
  (is_root P = true -> property_translated_reg_iter fuel s names N = Ok (TranslatedTo <$> regs)).
Proof.
  assert (Hm : member items N b o (Some P)) by (by eapply m_kid).
  pose proof (member_located s fuel Hfuel items Hitems block_at _ _ _ _ Hm) as (Ha & _).
  pose proof (parent_spec s Hs fuel Hfuel items Hitems block_at _ _ _ _ Hm) as Hpar.
  set (v := concat (map (enc_reg ac sc) regs)) in *.
  destruct (prop_at s fuel Hfuel _ b o p off v Ha Hv) as (r & Hat & Hvl); pose proof (at_bound s _ _ Hat) as Hbd; pose proof Hat as (_ & Htot & _); rewrite len_app in Htot.
  pose proof (len_nonneg v); pose proof (len_nonneg r).
  assert (Hri : reg_iter fuel s names N = Ok (reg_next s (Z.of_nat ac) (Z.of_nat sc) (value_start p + len v), value_start p)).
  { unfold reg_iter; rewrite Hpar; cbn [mbind res_bind]; rewrite Hcells; cbn [mbind res_bind]; rewrite Hp; cbn [mbind res_bind].
    rewrite Hvl, uadd_ok by (rewrite W64_val; lia); done. }
  assert (Hn : forall l, Forall (reg_ok ac sc) l -> len l <= len (concat (map (enc_reg ac sc) l))).
  { induction 1 as [|x l Hx _ IH]; [done|]; cbn [map concat]; rewrite len_app, (len_enc_reg _ _ _ Hx); unfold len in *; cbn [length].
    destruct Hc as [Hac _]; lia. }
  assert (Hlt : (length regs < fuel)%nat) by (specialize (Hn regs Hregs); fold v in Hn; unfold len in Hn, Htot; lia).
  split.
  - unfold property_reg_iter; rewrite Hri; cbn [mbind res_bind]; by apply (reg_collect s Hs ac sc r fuel Hc).
  - intros Hr; unfold property_translated_reg_iter; rewrite Hri; cbn [mbind res_bind].
    assert (Hup : forall x, translate_up fuel s names fuel (Some P) x = Ok (Some (TranslatedTo x)))
      by (intros x; destruct fuel; [lia|]; cbn [translate_up]; by rewrite Hr).
    assert (Hgen : forall l i n, Forall (reg_ok ac sc) l -> at_ s i (concat (map (enc_reg ac sc) l) ++ r) ->
      i + len (concat (map (enc_reg ac sc) l)) = value_start p + len v -> (length l < n)%nat ->
      (st ← reg_next s (Z.of_nat ac) (Z.of_nat sc) (value_start p + len v) i;
       collect (translated_next fuel s names (reg_next s (Z.of_nat ac) (Z.of_nat sc) (value_start p + len v)) N) n st) = Ok (TranslatedTo <$> l)).
    { induction l as [|x l IH]; intros i n Hok Hi He Hn'; (destruct n as [|n]; [cbn in Hn'; lia|]); cbn [map concat] in *.
      - rewrite <- He; change (len []) with 0; apply at_bound in Hi; by rewrite Z.add_0_r, reg_done by (done || lia).
      - apply Forall_cons in Hok as [Hx Hok]; rewrite <- (assoc_L (++)) in Hi; rewrite len_app in He.
        pose proof (len_nonneg (concat (map (enc_reg ac sc) l))); rewrite (reg_step s Hs ac sc _ i x _ Hc Hx Hi) by lia; cbn [mbind res_bind].
        apply at_skip in Hi; cbn [collect translated_next fst snd].
        specialize (IH _ n Hok Hi ltac:(lia) ltac:(cbn in Hn'; lia)).
        destruct (reg_next s (Z.of_nat ac) (Z.of_nat sc) (value_start p + len v) (i + len (enc_reg ac sc x))) as [st'| |]; cbn [mbind res_bind] in *; try done.
        rewrite Hpar; cbn [mbind res_bind]; rewrite Hup; cbn [mbind res_bind]; by rewrite IH. }
    by apply (Hgen regs).
Qed.

(** Register blocks: when the [reg] property of a node in the tree holds the
    encoding of a list of blocks, with the address and size cells that its
    parent states (1 or 2, the size also 0), [property_reg_iter] yields that
    list; when the parent is the root, [property_translated_reg_iter] yields the
    same blocks unchanged. *)
Lemma reg_roundtrip (names : list Z) (N P : Node) (b pb : list item) (o po : list (list item)) (pp : option Node) (p : Property)
    (off : Z) (ac sc : nat) (regs : list RegBlock)
    (HP : member items P pb po pp) (HN : (N, b, o) ∈ kids_of P pb po) (Hc : cells_ok ac sc)
    (Hcells : node_address_size_cells fuel s names (Some P) = Ok (Z.of_nat ac, Z.of_nat sc))
    (Hp : property fuel s names N (str "reg") = Ok (Some p))
    (Hv : (p, (off, concat (map (enc_reg ac sc) regs))) ∈ props_of (next_token_start N) b) (Hregs : Forall (reg_ok ac sc) regs) :
  property_reg_iter fuel s names N = Ok regs /\
  (is_root P = true -> property_translated_reg_iter fuel s names N = Ok (TranslatedTo <$> regs)).
Proof. by apply (reg_roundtrip_spec names N P b pb o po pp p off ac sc regs). Qed.
End block.

(** The iterators end on every input: for any bytes, well-formed or not,
    collecting [nodes], and [children] and [properties] of any node, ends within
    as many passes as the block has bytes (it may panic, but it does not loop). *)
Lemma iterators_terminate (s : list Z) (fuel : nat) (Hbytes : bytes_ok s) (Hfuel : (S (length s) < fuel)%nat) :
  nodes fuel s <> Timeout /\
  forall N, 0 <= next_token_start N -> children fuel s N <> Timeout /\ properties fuel s N <> Timeout.
Proof.
  split; [apply (nodes_end s Hbytes); cbn; unfold len; lia|]; intros N HN.
  split; [apply (children_end s Hbytes)|apply (properties_end s Hbytes)]; unfold len; lia.
Qed.

(** A node without a [ranges] property is read as if it had an empty one. *)
Lemma missing_ranges_identity fuel s names N par cells cells' : (2 < fuel)%nat -> parent fuel s N = Ok par ->
  node_address_size_cells fuel s names par = Ok cells -> node_address_size_cells fuel s names (Some N) = Ok cells' ->
  property fuel s names N (str "ranges") = Ok None -> property_range_iter fuel s names N = Ok [Identity].
Proof.
  intros Hf Hp Hc Hc' Hr; unfold property_range_iter, range_iter; rewrite Hp; cbn [mbind res_bind]; rewrite Hc; cbn [mbind res_bind].
  destruct cells as [pc x], cells' as [ac sc]; rewrite Hc'; cbn [mbind res_bind]; rewrite Hr; cbn [mbind res_bind].
  do 2 (destruct fuel as [|fuel]; [lia|]); done.
Qed.

(** An unbalanced block panics. *)
Lemma unbalanced_panics : nodes 10 closing = Panic.
Proof. reflexivity. Qed.

(** ** A small tree: a root with a bus and a UART *)
Module FdDemo.
Definition dnames : list Z := str "#address-cells" ++ [0] ++ str "#size-cells" ++ [0] ++ str "reg" ++ [0].
Definition uart_regs : list RegBlock := [{| rb_addr := 0x3f201000; rb_len := Some 0x200 |}; {| rb_addr := 0x3f202000; rb_len := Some 0x10 |}].
Definition uart_body : list item := [IProp 27 (concat (map (enc_reg 1 1) uart_regs))].
Definition root_body : list item :=
  [IProp 0 (to_be 4 1); INop; IProp 15 (to_be 4 1); INode (str "soc") [INode (str "gpio") []]; INode (str "uart@3f201000") uart_body].
Definition demo : list item := [INode [] root_body].

Lemma demo_ok : Forall item_ok demo.
Proof. repeat first [constructor|discriminate|vm_compute; discriminate]. Qed.

Definition demo_root : Node := node_at 0 0 [] root_body.
Definition demo_uart : Node := node_at 72 1 (str "uart@3f201000") uart_body.

Lemma nodes_preorder_witness : exists dt, new (blob (block demo) dnames) = Val dt /\ structs dt = Ok (block demo) /\
  nodes 300 (block demo) = Ok (nodes_in 0 0 demo).
Proof.
  destruct (nodes_preorder demo demo_ok 300) with (names := dnames) as (dt & H1 & H2 & _ & H3);
    [reflexivity|apply Nat.ltb_lt; vm_compute; reflexivity|vm_compute; reflexivity|].
  exact (ex_intro _ dt (conj H1 (conj H2 H3))).
Defined.

Lemma demo_kids : kids_loc 0 0 demo [] = [(demo_root, root_body, [[]])].
Proof. reflexivity. Qed.

Definition uart_reg : Property := {| p_start := 92; p_name_start := 27; value_start := 104; value_len := 16; p_total_len := 28 |}.

End FdDemo.
End Fd.
