(* ===== verification/BitmapAlloc.v ===== *)
(** * The bitmap page allocator ([port/src/bitmapalloc.rs])

    One bit per physical page, [0] free and [1] allocated, in [NUM_BITMAPS]
    bitmaps of [BITMAP_SIZE_BYTES] bytes.  The model keeps the nested arrays,
    the scan cursor and the closure state of the byte iterator; [page_bit] is
    the abstract view the theorems are stated in. *)

From S2P Require Import Prelude Addr.

(** [port/src/pagealloc.rs] *)
Inductive PageAllocError := OutOfBounds | MisalignedAddr | OutOfSpace | NotAllocated | UnableToMap.

#[global] Instance PageAllocError_eq_dec : EqDecision PageAllocError.
Proof. solve_decision. Defined.

(** ** One bitmap *)

Module Bitmap.

Definition new (size_bytes : Z) (init_value : Z) : list Z :=
  replicate (Z.to_nat size_bytes) init_value.

Definition is_set (bytes : list Z) (i : Z) : res bool :=
  let byte_idx := i / 8 in
  let bit_idx := i mod 8 in
  byte ← aget bytes byte_idx;
  Ok (0 <? Z.land byte (Z.shiftl 1 bit_idx)).

Definition set (bytes : list Z) (i : Z) (b : bool) : res (list Z) :=
  let byte_idx := i / 8 in
  let bit_idx := i mod 8 in
  byte ← aget bytes byte_idx;
  if b then aset bytes byte_idx (set_bit byte bit_idx)
  else aset bytes byte_idx (clear_bit W8 byte bit_idx).

End Bitmap.

(** ** The allocator *)

Record BitmapPageAlloc := {
  bitmaps : list (list Z);
  alloc_page_size : Z;
  ba_end : PhysAddr;
  next_pa_to_scan : PhysAddr;
}.

Record ByteIndices := { bitmap : Z; byte_ : Z }.

(** The captured variables of the [indices_from] closure. *)
Record IndexIter := {
  it_bitmap : Z;
  it_byte : Z;
  it_passed_first : bool;
  it_currpa : PhysAddr;
}.

Section alloc.
Context (NUM_BITMAPS BITMAP_SIZE_BYTES : Z).

Definition new_all_allocated (page_size : Z) : res BitmapPageAlloc :=
  a ← umul NUM_BITMAPS BITMAP_SIZE_BYTES;
  b ← umul a 8;
  e ← umul b page_size;
  Ok {| bitmaps := replicate (Z.to_nat NUM_BITMAPS) (Bitmap.new BITMAP_SIZE_BYTES 255);
        alloc_page_size := page_size;
        ba_end := e;
        next_pa_to_scan := 0 |}.

Definition bytes_per_bitmap_byte (s : BitmapPageAlloc) : res Z := umul 8 (alloc_page_size s).

Definition bytes_per_bitmap (s : BitmapPageAlloc) : res Z :=
  n ← bytes_per_bitmap_byte s; umul BITMAP_SIZE_BYTES n.

Definition max_bytes (s : BitmapPageAlloc) : res Z :=
  n ← bytes_per_bitmap s; umul NUM_BITMAPS n.

Definition physaddr_as_indices (s : BitmapPageAlloc) (pa : PhysAddr) : res (Z * Z * Z) :=
  r ← umod pa (alloc_page_size s);
  _ ← assert (r =? 0);
  bytes_per_bitmap ← bytes_per_bitmap s;
  bitmap_idx ← udiv pa bytes_per_bitmap;
  pa_offset_into_bitmap ← umod pa bytes_per_bitmap;
  bytes_per_bitmap_byte ← bytes_per_bitmap_byte s;
  byte_idx ← udiv pa_offset_into_bitmap bytes_per_bitmap_byte;
  m ← umul byte_idx bytes_per_bitmap_byte;
  d ← usub pa_offset_into_bitmap m;
  bit_idx ← udiv d (alloc_page_size s);
  Ok (bitmap_idx, byte_idx, bit_idx).

Definition indices_as_physaddr (s : BitmapPageAlloc) (bitmap_idx byte_idx bit_idx : Z)
    : res PhysAddr :=
  bpb ← bytes_per_bitmap s;
  a ← umul bitmap_idx bpb;
  bpbb ← bytes_per_bitmap_byte s;
  b ← umul byte_idx bpbb;
  ab ← uadd a b;
  c ← umul bit_idx (alloc_page_size s);
  uadd ab c.

(** The [for pa in ...] body of [mark_range]. *)
Definition mark_page (s : BitmapPageAlloc) (pa : PhysAddr) (mark_allocated : bool)
    : res (BitmapPageAlloc * result unit PageAllocError) :=
  '(bitmap_idx, byte_idx, bit_idx) ← physaddr_as_indices s pa;
  if len (bitmaps s) <=? bitmap_idx then Ok (s, Err OutOfBounds) else
  bm ← aget (bitmaps s) bitmap_idx;
  i8 ← umul 8 byte_idx;
  i ← uadd i8 bit_idx;
  bm' ← Bitmap.set bm i mark_allocated;
  bms' ← aset (bitmaps s) bitmap_idx bm';
  Ok ({| bitmaps := bms'; alloc_page_size := alloc_page_size s; ba_end := ba_end s;
         next_pa_to_scan := next_pa_to_scan s |}, Val tt).

Fixpoint mark_pages (s : BitmapPageAlloc) (pas : list PhysAddr) (mark_allocated : bool)
    : res (BitmapPageAlloc * result unit PageAllocError) :=
  match pas with
  | [] => Ok (s, Val tt)
  | pa :: pas' =>
      '(s', r) ← mark_page s pa mark_allocated;
      match r with
      | Err e => Ok (s', Err e)
      | Val _ => mark_pages s' pas' mark_allocated
      end
  end.

Definition mark_range (s : BitmapPageAlloc) (range : PhysRange) (mark_allocated check_end : bool)
    : res (BitmapPageAlloc * result unit PageAllocError) :=
  if check_end && (ba_end s <? end_ range) then Ok (s, Err OutOfBounds) else
  pas ← Range.step_by_rounded range (alloc_page_size s);
  mark_pages s pas mark_allocated.

Definition mark_allocated (s : BitmapPageAlloc) (range : PhysRange) :=
  mark_range s range true true.

Definition mark_free (s : BitmapPageAlloc) (range : PhysRange) :=
  mark_range s range false true.

(** The loop of [free_unused_ranges]: the state, the moving [next_start] and
    the [?] early return. *)
Fixpoint free_gaps (s : BitmapPageAlloc) (next_start : PhysAddr) (used_ranges : list PhysRange)
    : res (BitmapPageAlloc * result PhysAddr PageAllocError) :=
  match used_ranges with
  | [] => Ok (s, Val next_start)
  | range :: rest =>
      '(s', r) ← (if next_start <? start range
                  then mark_free s (Range.new next_start (start range))
                  else Ok (s, Val tt));
      match r with
      | Err e => Ok (s', Err e)
      | Val _ =>
          free_gaps s' (if next_start <? end_ range then end_ range else next_start) rest
      end
  end.

(** The tail: the new [end], everything past it marked allocated, the cursor
    reset. *)
Definition finish_ranges (s : BitmapPageAlloc) (avail_end : PhysAddr)
    : res (BitmapPageAlloc * result unit PageAllocError) :=
  let s1 := {| bitmaps := bitmaps s; alloc_page_size := alloc_page_size s;
               ba_end := avail_end; next_pa_to_scan := next_pa_to_scan s |} in
  mb ← max_bytes s1;
  '(s2, r) ← mark_range s1 (Range.new avail_end mb) true false;
  match r with
  | Err e => Ok (s2, Err e)
  | Val _ => Ok ({| bitmaps := bitmaps s2; alloc_page_size := alloc_page_size s2;
                    ba_end := ba_end s2; next_pa_to_scan := 0 |}, Val tt)
  end.

Definition free_unused_ranges (s : BitmapPageAlloc) (available_mem : PhysRange)
    (used_ranges : list PhysRange) : res (BitmapPageAlloc * result unit PageAllocError) :=
  '(s1, r1) ← free_gaps s (start available_mem) used_ranges;
  match r1 with
  | Err e => Ok (s1, Err e)
  | Val next_start =>
      '(s2, r2) ← (if next_start <? end_ available_mem
                   then mark_free s1 (Range.new next_start (end_ available_mem))
                   else Ok (s1, Val tt));
      match r2 with
      | Err e => Ok (s2, Err e)
      | Val _ => finish_ranges s2 (end_ available_mem)
      end
  end.

Definition byte_at (s : BitmapPageAlloc) (ix : ByteIndices) : res Z :=
  bm ← aget (bitmaps s) (bitmap ix); aget bm (byte_ ix).

Definition indices_from (s : BitmapPageAlloc) (start_bitmap_idx start_byte_idx : Z)
    : res IndexIter :=
  pa ← indices_as_physaddr s start_bitmap_idx start_byte_idx 0;
  Ok {| it_bitmap := start_bitmap_idx; it_byte := start_byte_idx;
        it_passed_first := false; it_currpa := pa |}.

(** One call of the closure. *)
Definition iter_next (s : BitmapPageAlloc) (start_bitmap_idx start_byte_idx : Z) (it : IndexIter)
    : res (option (ByteIndices * IndexIter)) :=
  let '(bm, by_, pa) :=
    if (len (bitmaps s) <=? it_bitmap it) || (ba_end s <=? it_currpa it)
    then (0, 0, 0) else (it_bitmap it, it_byte it, it_currpa it) in
  if it_passed_first it && (bm =? start_bitmap_idx) && (by_ =? start_byte_idx)
  then Ok None
  else
    by1 ← uadd by_ 1;
    if BITMAP_SIZE_BYTES <=? by1 then
      bm1 ← uadd bm 1;
      pa1 ← uadd pa (alloc_page_size s);
      Ok (Some ({| bitmap := bm; byte_ := by_ |},
                {| it_bitmap := bm1; it_byte := 0; it_passed_first := true; it_currpa := pa1 |}))
    else
      Ok (Some ({| bitmap := bm; byte_ := by_ |},
                {| it_bitmap := bm; it_byte := by1; it_passed_first := true; it_currpa := pa |})).

(** [Iterator::find] and [collect] over the closure. *)
Fixpoint iter_find (fuel : nat) (s : BitmapPageAlloc) (sb sy : Z) (it : IndexIter)
    : res (option ByteIndices) :=
  match fuel with
  | O => Timeout
  | S fuel' =>
      nx ← iter_next s sb sy it;
      match nx with
      | None => Ok None
      | Some (ix, it') =>
          b ← byte_at s ix;
          if negb (b =? 255) then Ok (Some ix) else iter_find fuel' s sb sy it'
      end
  end.

Fixpoint iter_collect (fuel : nat) (s : BitmapPageAlloc) (sb sy : Z) (it : IndexIter)
    : res (list ByteIndices) :=
  match fuel with
  | O => Timeout
  | S fuel' =>
      nx ← iter_next s sb sy it;
      match nx with
      | None => Ok []
      | Some (ix, it') => rest ← iter_collect fuel' s sb sy it'; Ok (ix :: rest)
      end
  end.

(** Every byte is visited at most once, plus the call that returns [None]. *)
Definition iter_fuel : nat := Z.to_nat (NUM_BITMAPS * BITMAP_SIZE_BYTES + 1).

Definition indices (s : BitmapPageAlloc) : res (list ByteIndices) :=
  it ← indices_from s 0 0; iter_collect iter_fuel s 0 0 it.

Definition allocate (s : BitmapPageAlloc)
    : res (BitmapPageAlloc * result PhysAddr PageAllocError) :=
  '(first_bitmap_idx, first_byte_idx, _) ← physaddr_as_indices s (next_pa_to_scan s);
  it ← indices_from s first_bitmap_idx first_byte_idx;
  found_indices ← iter_find iter_fuel s first_bitmap_idx first_byte_idx it;
  match found_indices with
  | Some ix =>
      bm ← aget (bitmaps s) (bitmap ix);
      b ← aget bm (byte_ ix);
      let num_leading_ones := trailing_ones b in
      bm' ← aset bm (byte_ ix) (set_bit b num_leading_ones);
      bms' ← aset (bitmaps s) (bitmap ix) bm';
      pa ← indices_as_physaddr s (bitmap ix) (byte_ ix) num_leading_ones;
      Ok ({| bitmaps := bms'; alloc_page_size := alloc_page_size s; ba_end := ba_end s;
             next_pa_to_scan := pa |}, Val pa)
  | None => Ok (s, Err OutOfSpace)
  end.

Definition deallocate (s : BitmapPageAlloc) (pa : PhysAddr)
    : res (BitmapPageAlloc * result unit PageAllocError) :=
  if ba_end s <? pa then Ok (s, Err OutOfBounds) else
  '(bitmap_idx, byte_idx, bit_idx) ← physaddr_as_indices s pa;
  bm ← aget (bitmaps s) bitmap_idx;
  i8 ← umul 8 byte_idx;
  i ← uadd i8 bit_idx;
  st ← Bitmap.is_set bm i;
  if negb st then Ok (s, Err NotAllocated) else
  bm' ← Bitmap.set bm bit_idx false;
  bms' ← aset (bitmaps s) bitmap_idx bm';
  Ok ({| bitmaps := bms'; alloc_page_size := alloc_page_size s; ba_end := ba_end s;
         next_pa_to_scan := pa |}, Val tt).

(** The accumulation loop of [usage_bytes]. *)
Fixpoint sum_free (s : BitmapPageAlloc) (ixs : list ByteIndices) (free_bytes : Z) : res Z :=
  match ixs with
  | [] => Ok free_bytes
  | ix :: rest =>
      b ← byte_at s ix;
      m ← umul (count_zeros b) (alloc_page_size s);
      f ← uadd free_bytes m;
      sum_free s rest f
  end.

Definition usage_bytes (s : BitmapPageAlloc) : res (Z * Z) :=
  ixs ← indices s;
  free_bytes ← sum_free s ixs 0;
  let total := ba_end s in
  used ← usub total free_bytes;
  Ok (used, total).

End alloc.

(** The kernel's instance: [PAGE_ALLOC] of [aarch64/src/pagealloc.rs]. *)
Definition PAGE_ALLOC : res BitmapPageAlloc := new_all_allocated 32 PAGE_SIZE_4K PAGE_SIZE_4K.

(** ** The abstract view

    Pages are numbered from physical address 0; [page_bit s i] is the bit of
    page [i], which the indices of [physaddr_as_indices] locate. *)

Section spec.
Context (NB BS : Z).

Definition npages : Z := NB * BS * 8.

Definition page_bit (s : BitmapPageAlloc) (i : Z) : bool :=
  match bitmaps s !! Z.to_nat (i / 8 / BS) with
  | Some bm =>
      match bm !! Z.to_nat ((i / 8) mod BS) with
      | Some b => Z.testbit b (i mod 8)
      | None => false
      end
  | None => false
  end.

Definition shape (s : BitmapPageAlloc) : Prop :=
  len (bitmaps s) = NB /\ Forall (fun bm => len bm = BS /\ bytes_ok bm) (bitmaps s).

(** The geometry: a power-of-two page size and a total below 2^64 by a page. *)
Definition geometry (s : BitmapPageAlloc) : Prop :=
  0 < NB /\ 0 < BS /\
  (exists k, 0 <= k < 64 /\ alloc_page_size s = 2 ^ k) /\
  (npages + 1) * alloc_page_size s < W64.

(** The invariant: every page that is not wholly below [end] is marked
    allocated, and the scan cursor is a page below [end]. *)
Record wf (s : BitmapPageAlloc) : Prop := {
  wf_shape : shape s;
  wf_geom : geometry s;
  wf_end : 0 < ba_end s <= npages * alloc_page_size s;
  wf_past_end : forall i, 0 <= i < npages -> ba_end s < (i + 1) * alloc_page_size s ->
                  page_bit s i = true;
  wf_next : (alloc_page_size s | next_pa_to_scan s) /\ 0 <= next_pa_to_scan s < ba_end s;
}.

Lemma geometry_ps s : geometry s -> 0 < alloc_page_size s.
Proof. intros (_&_&(k&?&->)&_); lia. Qed.

Lemma geometry_bounds s : geometry s ->
  0 < NB /\ 0 < BS /\ 0 < alloc_page_size s /\ (npages + 1) * alloc_page_size s < W64.
Proof. intros H; pose proof (geometry_ps s H); destruct H as (?&?&_&?); auto. Qed.

Lemma geometry_sizes s : geometry s ->
  8 * alloc_page_size s <= BS * (8 * alloc_page_size s) <= npages * alloc_page_size s /\
  npages * alloc_page_size s < W64.
Proof.
  intros (?&?&?&?)%geometry_bounds; set (ps := alloc_page_size s) in *; unfold npages in *.
  replace (NB * BS * 8 * ps) with (NB * (BS * (8 * ps))) by lia.
  assert (1 * (8 * ps) <= BS * (8 * ps)) by (apply Z.mul_le_mono_nonneg_r; lia).
  assert (1 * (BS * (8 * ps)) <= NB * (BS * (8 * ps))) by (apply Z.mul_le_mono_nonneg_r; lia).
  lia.
Qed.

Lemma bpbb_eval s : geometry s -> bytes_per_bitmap_byte s = Ok (8 * alloc_page_size s).
Proof. intros H%geometry_sizes; apply umul_ok; lia. Qed.

Lemma bpb_eval s : geometry s -> bytes_per_bitmap BS s = Ok (BS * (8 * alloc_page_size s)).
Proof.
  intros Hg; unfold bytes_per_bitmap; rewrite bpbb_eval by done; simpl.
  apply geometry_sizes in Hg; apply umul_ok; lia.
Qed.

Lemma max_bytes_eval s : geometry s -> max_bytes NB BS s = Ok (npages * alloc_page_size s).
Proof.
  intros Hg; unfold max_bytes; rewrite bpb_eval by done; simpl.
  apply geometry_sizes in Hg.
  replace (npages * alloc_page_size s) with (NB * (BS * (8 * alloc_page_size s))) in *
    by (unfold npages; lia).
  apply umul_ok; lia.
Qed.

Lemma physaddr_as_indices_eval s i : geometry s -> 0 <= i -> i * alloc_page_size s < W64 ->
  physaddr_as_indices BS s (i * alloc_page_size s) = Ok (i / 8 / BS, (i / 8) mod BS, i mod 8).
Proof.
  intros Hg Hi Hlt; unfold physaddr_as_indices.
  rewrite bpb_eval, bpbb_eval by done.
  destruct (geometry_bounds s Hg) as (HNB & HBS & Hps & Hmax).
  pose proof (geometry_sizes s Hg).
  set (ps := alloc_page_size s) in *.
  rewrite umod_ok, Z.mod_mul by lia; cbn [mbind res_bind assert Z.eqb].
  rewrite udiv_ok, umod_ok by lia; cbn [mbind res_bind].
  replace (BS * (8 * ps)) with ((8 * BS) * ps) by lia.
  rewrite Z.div_mul_cancel_r, <- Z.div_div by lia.
  rewrite Z.mul_mod_distr_r, udiv_ok by lia; cbn [mbind res_bind].
  rewrite Z.div_mul_cancel_r by lia.
  rewrite Z.rem_mul_r, (Z.mul_comm 8 (_ mod BS)), Z.div_add, (Z.div_small (i mod 8)) by
    (pose proof (Z.mod_pos_bound i 8); lia).
  rewrite Z.add_0_l.
  set (y := (i / 8) mod BS); set (t := i mod 8).
  assert (0 <= y < BS) by (apply Z.mod_pos_bound; lia).
  assert (0 <= t < 8) by (apply Z.mod_pos_bound; lia).
  assert ((t + y * 8) * ps < W64).
  { assert ((t + y * 8) * ps <= (8 * BS) * ps) by (apply Z.mul_le_mono_nonneg_r; lia); lia. }
  rewrite umul_ok by nia; cbn [mbind res_bind].
  rewrite usub_ok by nia; cbn [mbind res_bind].
  replace ((t + y * 8) * ps - y * (8 * ps)) with (t * ps) by lia.
  by rewrite udiv_ok, Z.div_mul by lia.
Qed.

Lemma indices_as_physaddr_eval s q y t : geometry s ->
  0 <= q < NB -> 0 <= y < BS -> 0 <= t < 8 ->
  indices_as_physaddr BS s q y t = Ok (((q * BS + y) * 8 + t) * alloc_page_size s).
Proof.
  intros Hg Hq Hy Ht; unfold indices_as_physaddr; rewrite bpb_eval, bpbb_eval by done.
  pose proof (geometry_sizes s Hg).
  apply geometry_bounds in Hg as (?&?&?&?); set (ps := alloc_page_size s) in *.
  assert (Hn : (q * BS + y) * 8 + t + 1 <= npages) by (unfold npages; nia).
  assert (Hle : ((q * BS + y) * 8 + t + 1) * ps <= npages * ps) by (apply Z.mul_le_mono_nonneg_r; lia).
  assert (0 <= q * (BS * (8 * ps))) by nia.
  assert (0 <= y * (8 * ps)) by nia.
  assert (0 <= t * ps) by nia.
  replace (((q * BS + y) * 8 + t + 1) * ps)
    with (q * (BS * (8 * ps)) + y * (8 * ps) + t * ps + ps) in Hle by ring.
  cbn [mbind res_bind].
  repeat (first [rewrite umul_ok by lia | rewrite uadd_ok by lia]; cbn [mbind res_bind]).
  f_equal; ring.
Qed.

(** ** Reading and writing one byte *)

Lemma page_split n t : 0 <= t < 8 -> (n * 8 + t) / 8 = n /\ (n * 8 + t) mod 8 = t.
Proof.
  intros; rewrite (Z.add_comm (n * 8)), Z.div_add, Z.mod_add, Z.div_small, Z.mod_small by lia.
  lia.
Qed.

Lemma page_bit_byte s q y t bm b : 0 < BS -> 0 <= q -> 0 <= y < BS -> 0 <= t < 8 ->
  bitmaps s !! Z.to_nat q = Some bm -> bm !! Z.to_nat y = Some b ->
  page_bit s ((q * BS + y) * 8 + t) = Z.testbit b t.
Proof.
  intros ? Hq Hy Ht Hbm Hb; unfold page_bit.
  destruct (page_split (q * BS + y) t Ht) as [-> ->].
  rewrite (Z.add_comm (q * BS)), Z.div_add, Z.mod_add, Z.div_small, Z.mod_small by lia.
  by rewrite Z.add_0_l, Hbm, Hb.
Qed.

Lemma shape_byte s q y : shape s -> 0 <= q < NB -> 0 <= y < BS ->
  exists bm b, aget (bitmaps s) q = Ok bm /\ bitmaps s !! Z.to_nat q = Some bm /\
    len bm = BS /\ bytes_ok bm /\
    aget bm y = Ok b /\ bm !! Z.to_nat y = Some b /\ is_u8 b.
Proof.
  intros [Hl HF] Hq Hy.
  destruct (aget_lt (bitmaps s) q) as (bm & Hbm & Hbm'); [lia|].
  rewrite Forall_lookup in HF; destruct (HF _ _ Hbm') as [Hlen Hok].
  destruct (aget_lt bm y) as (b & Hb & Hb'); [lia|].
  exists bm, b; repeat split; auto; eapply Forall_lookup_1 in Hok; eauto; apply Hok.
Qed.

(** [s] with byte [(q, y)] replaced. *)
Definition with_byte (s : BitmapPageAlloc) (bm : list Z) (q y b : Z) (next : PhysAddr)
    : BitmapPageAlloc :=
  {| bitmaps := <[Z.to_nat q := <[Z.to_nat y := b]> bm]> (bitmaps s);
     alloc_page_size := alloc_page_size s; ba_end := ba_end s; next_pa_to_scan := next |}.

Lemma with_byte_shape s bm q y b next : shape s -> bitmaps s !! Z.to_nat q = Some bm ->
  is_u8 b -> shape (with_byte s bm q y b next).
Proof.
  intros [Hl HF] Hbm Hb; split; simpl; [by rewrite len_insert|].
  pose proof HF as HF'; rewrite Forall_lookup in HF'; destruct (HF' _ _ Hbm) as [??].
  apply Forall_insert; [done|]; rewrite len_insert; split; [done|by apply Forall_insert].
Qed.

Lemma with_byte_page_bit s bm q y b next j : shape s -> 0 < BS ->
  0 <= q < NB -> 0 <= y < BS -> bitmaps s !! Z.to_nat q = Some bm -> 0 <= j ->
  page_bit (with_byte s bm q y b next) j =
    if j / 8 =? q * BS + y then Z.testbit b (j mod 8) else page_bit s j.
Proof.
  intros Hsh HBS Hq Hy Hbm Hj; unfold page_bit; cbn [bitmaps with_byte].
  set (n := j / 8) in *; assert (0 <= n) by (apply Z.div_pos; lia).
  pose proof (Z.div_mod n BS ltac:(lia)); pose proof (Z.mod_pos_bound n BS HBS).
  assert (0 <= n / BS) by (apply Z.div_pos; lia).
  destruct (Z.eqb_spec n (q * BS + y)) as [->|Hne].
  - rewrite (Z.add_comm (q * BS)), Z.div_add, Z.mod_add, Z.div_small, Z.mod_small, Z.add_0_l by lia.
    destruct Hsh as [Hl HF]; unfold len in *; rewrite Forall_lookup in HF.
    destruct (HF _ _ Hbm) as [Hlen _]; unfold len in *.
    by rewrite !list_lookup_insert_eq by lia.
  - destruct (decide (n / BS = q)) as [Hqe|Hqe].
    + rewrite Hqe in *; rewrite list_lookup_insert_eq by (by eapply lookup_lt_Some).
      rewrite Hbm, list_lookup_insert_ne by (rewrite Z2Nat.inj_iff by lia; nia); done.
    + rewrite list_lookup_insert_ne by (rewrite Z2Nat.inj_iff by lia; lia); done.
Qed.

(** The state with page [i] set to [v]: what [mark_range]'s body does to one page. *)
Definition same_but (s s' : BitmapPageAlloc) (P : Z -> bool) (v : bool) : Prop :=
  forall j, 0 <= j < npages -> page_bit s' j = if P j then v else page_bit s j.

Definition same_geom (s s' : BitmapPageAlloc) : Prop :=
  alloc_page_size s' = alloc_page_size s /\ ba_end s' = ba_end s /\
  next_pa_to_scan s' = next_pa_to_scan s.

Lemma page_of_index i : 0 <= i < npages -> 0 < BS ->
  0 <= i / 8 / BS < NB /\ 0 <= (i / 8) mod BS < BS /\ 0 <= i mod 8 < 8 /\
  i / 8 / BS * BS + (i / 8) mod BS = i / 8.
Proof.
  unfold npages; intros Hi HBS.
  pose proof (Z.mod_pos_bound i 8); pose proof (Z.mod_pos_bound (i / 8) BS).
  pose proof (Z.div_mod i 8); pose proof (Z.div_mod (i / 8) BS).
  assert (0 <= i / 8) by (apply Z.div_pos; lia).
  assert (0 <= i / 8 / BS) by (apply Z.div_pos; lia).
  repeat split; try lia.
  apply Z.div_lt_upper_bound; [lia|]; apply Z.div_lt_upper_bound; lia.
Qed.

Lemma bitmap_set_eval bm y t b v : 0 <= y -> 0 <= t < 8 -> aget bm y = Ok b ->
  Bitmap.set bm (8 * y + t) v =
    Ok (<[Z.to_nat y := if v then set_bit b t else clear_bit W8 b t]> bm).
Proof.
  intros Hy Ht Hb; unfold Bitmap.set.
  replace (8 * y + t) with (y * 8 + t) by lia; destruct (page_split y t Ht) as [-> ->].
  rewrite Hb; cbn [mbind res_bind]; apply aget_Ok in Hb as [_ Hb].
  apply lookup_lt_Some in Hb; destruct v; apply aset_lt; unfold len; lia.
Qed.

Lemma bitmap_is_set_eval bm y t b : 0 <= t < 8 -> aget bm y = Ok b -> is_u8 b ->
  Bitmap.is_set bm (8 * y + t) = Ok (Z.testbit b t).
Proof.
  intros Ht Hb Hu; unfold Bitmap.is_set.
  replace (8 * y + t) with (y * 8 + t) by lia; destruct (page_split y t Ht) as [-> ->].
  rewrite Hb; cbn [mbind res_bind]; rewrite land_bit_pos by (unfold is_u in *; lia); done.
Qed.

Definition upd_bit (b t : Z) (v : bool) : Z := if v then set_bit b t else clear_bit W8 b t.

Lemma upd_bit_spec b t v j : is_u8 b -> 0 <= t < 8 -> 0 <= j ->
  Z.testbit (upd_bit b t v) j = if t =? j then v else Z.testbit b j.
Proof.
  intros; destruct v; simpl; [rewrite set_bit_spec by lia|unfold W8; rewrite clear_bit_spec by (done||lia)];
    by destruct (t =? j).
Qed.

Lemma upd_bit_u b t v : is_u8 b -> 0 <= t < 8 -> is_u8 (upd_bit b t v).
Proof. intros; destruct v; [by apply (set_bit_u 8)|by apply (clear_bit_u 8)]. Qed.

(** Rewriting one bit of byte [(q, y)] rewrites that page only. *)
Lemma with_bit_page_bit s bm q y b t v next j : shape s -> 0 < BS ->
  0 <= q < NB -> 0 <= y < BS -> 0 <= t < 8 -> is_u8 b ->
  bitmaps s !! Z.to_nat q = Some bm -> bm !! Z.to_nat y = Some b -> 0 <= j ->
  page_bit (with_byte s bm q y (upd_bit b t v) next) j =
    if j =? (q * BS + y) * 8 + t then v else page_bit s j.
Proof.
  intros Hsh HBS Hq Hy Ht Hu Hbm Hb Hj; rewrite with_byte_page_bit by done.
  pose proof (Z.div_mod j 8 ltac:(lia)); pose proof (Z.mod_pos_bound j 8 ltac:(lia)).
  destruct (Z.eqb_spec (j / 8) (q * BS + y)) as [He|Hne];
    destruct (Z.eqb_spec j ((q * BS + y) * 8 + t)) as [He'|Hne']; try lia.
  - rewrite upd_bit_spec by (done || lia); by rewrite (proj2 (Z.eqb_eq _ _)) by lia.
  - rewrite upd_bit_spec by (done || lia); rewrite (proj2 (Z.eqb_neq _ _)) by lia.
    replace j with ((q * BS + y) * 8 + j mod 8) at 2 by lia.
    symmetry; by eapply page_bit_byte; eauto; lia.
  - done.
Qed.

(** ** Marking ranges *)

Lemma mark_page_in s i v : shape s -> geometry s -> 0 <= i < npages ->
  exists s', mark_page BS s (i * alloc_page_size s) v = Ok (s', Val tt) /\
    shape s' /\ same_geom s s' /\ same_but s s' (fun j => j =? i) v.
Proof.
  intros Hsh Hg Hi; unfold mark_page.
  destruct (geometry_bounds s Hg) as (HNB & HBS & Hps & Hmax).
  destruct (page_of_index i Hi HBS) as (Hq & Hy & Ht & Hi8).
  rewrite physaddr_as_indices_eval by (done || nia); cbn [mbind res_bind].
  destruct (shape_byte s _ _ Hsh Hq Hy) as (bm & b & Hbm & Hbm' & Hl & Hok & Hb & Hb' & Hu).
  pose proof Hsh as [Hlen _]; rewrite Hlen, (proj2 (Z.leb_gt _ _)) by lia.
  pose proof (geometry_sizes s Hg).
  rewrite Hbm; cbn [mbind res_bind].
  assert (8 * BS <= BS * (8 * alloc_page_size s)) by nia.
  rewrite umul_ok by lia; cbn [mbind res_bind].
  rewrite uadd_ok by lia; cbn [mbind res_bind].
  rewrite (bitmap_set_eval bm _ _ b) by (done || lia); cbn [mbind res_bind].
  rewrite aset_lt by lia; cbn [mbind res_bind].
  eexists; split; [reflexivity|]; fold (upd_bit b (i mod 8) v).
  change (Build_BitmapPageAlloc _ _ _ _)
    with (with_byte s bm (i / 8 / BS) ((i / 8) mod BS) (upd_bit b (i mod 8) v) (next_pa_to_scan s)).
  split; [by apply with_byte_shape; [..|apply upd_bit_u]|split; [done|]].
  intros j Hj; rewrite with_bit_page_bit by (done || lia).
  pose proof (Z.div_mod i 8); by replace ((i / 8 / BS * BS + (i / 8) mod BS) * 8 + i mod 8) with i by lia.
Qed.

Lemma same_geom_geometry s s' : same_geom s s' -> geometry s -> geometry s'.
Proof. by intros (Hps & _ & _); unfold geometry; rewrite Hps. Qed.

Lemma mark_pages_spec pas s v : shape s -> geometry s ->
  Forall (fun pa => exists i, pa = i * alloc_page_size s /\ 0 <= i < npages) pas ->
  exists s', mark_pages BS s pas v = Ok (s', Val tt) /\
    shape s' /\ same_geom s s' /\
    same_but s s' (fun j => bool_decide (j * alloc_page_size s ∈ pas)) v.
Proof.
  revert s; induction pas as [|pa pas IH]; intros s Hsh Hg HF; cbn [mark_pages].
  { exists s; split_and!; [done|done|done|]; intros j Hj; by rewrite bool_decide_false by apply not_elem_of_nil. }
  apply Forall_cons in HF as [(i & -> & Hi) HF].
  destruct (mark_page_in s i v Hsh Hg Hi) as (s1 & -> & Hsh1 & Hg1 & Hb1); cbn [mbind res_bind].
  pose proof (geometry_ps s Hg); pose proof Hg1 as (Hps & He & Hn).
  destruct (IH s1) as (s' & -> & Hsh' & (?&?&?) & Hb'); [done|by eapply same_geom_geometry|by rewrite Hps|].
  exists s'; split_and!; [done|done|unfold same_geom; split_and!; congruence|].
  intros j Hj; rewrite Hb', Hb1, Hps by done.
  destruct (Z.eqb_spec j i) as [->|Hne].
  - rewrite (bool_decide_true (_ ∈ _ :: _)) by left; by destruct (bool_decide _).
  - case_bool_decide as Hin.
    + rewrite bool_decide_true by (by right); done.
    + rewrite bool_decide_false; [done|].
      intros [?|?]%elem_of_cons; [nia|done].
Qed.

(** A range overlaps page [j]. *)
Definition overlaps (r : PhysRange) (ps j : Z) : bool :=
  (start r <? (j + 1) * ps) && (j * ps <? end_ r).

Lemma mark_range_spec s r v ce : shape s -> geometry s ->
  0 <= start r -> 0 <= end_ r <= npages * alloc_page_size s -> start r < W64 ->
  (ce = true -> end_ r <= ba_end s) ->
  exists s', mark_range BS s r v ce = Ok (s', Val tt) /\ shape s' /\ same_geom s s' /\
    same_but s s' (overlaps r (alloc_page_size s)) v.
Proof.
  intros Hsh Hg Hs He Hs64 Hce; unfold mark_range.
  replace (ce && _) with false by (destruct ce; [symmetry; apply Z.ltb_ge; auto|done]).
  pose proof (geometry_ps s Hg) as Hps; pose proof Hg as (_&_&(k & Hk & Hpk)&Hmax).
  destruct (step_by_rounded_spec r k) as (pas & Hpas & _ & Hin);
    [done|unfold is_u; lia|unfold is_u; lia|rewrite <- Hpk; lia|].
  rewrite <- Hpk in *; rewrite Hpas; cbn [mbind res_bind].
  set (ps := alloc_page_size s) in *.
  destruct (mark_pages_spec pas s v) as (s' & Hm & Hsh' & Hg' & Hb'); [done|done| |].
  { apply Forall_forall; intros pa [[i ->] Hpa]%Hin; exists i; split; [done|].
    fold ps; split; nia. }
  exists s'; split_and!; [done|done|done|].
  intros j Hj; rewrite Hb' by done; fold ps; unfold overlaps.
  case_bool_decide as Hj'; rewrite Hin in Hj'.
  - rewrite (proj2 (Z.ltb_lt _ _)), (proj2 (Z.ltb_lt _ _)) by lia; done.
  - assert (~ (start r - ps < j * ps < end_ r)) by (intros ?; apply Hj'; split; [by exists j|done]).
    destruct (Z.ltb_spec (start r) ((j + 1) * ps)), (Z.ltb_spec (j * ps) (end_ r)); simpl; auto; lia.
Qed.

(** ** The byte iterator

    Byte [n] counts across all bitmaps.  [it_at c n p] is the closure state in
    front of byte [n], with the accumulated address [c] plus one page per
    bitmap entered. *)

Definition ix_of (n : Z) : ByteIndices := {| bitmap := n / BS; byte_ := n mod BS |}.

Definition it_at (ps c n : Z) (passed : bool) : IndexIter :=
  {| it_bitmap := n / BS; it_byte := n mod BS; it_passed_first := passed;
     it_currpa := c + n / BS * ps |}.

Lemma succ_div n : 0 < BS ->
  ((n + 1) / BS = n / BS /\ (n + 1) mod BS = n mod BS + 1 /\ n mod BS + 1 < BS) \/
  ((n + 1) / BS = n / BS + 1 /\ (n + 1) mod BS = 0 /\ n mod BS + 1 = BS).
Proof.
  intros HBS; pose proof (Z.div_mod n BS ltac:(lia)); pose proof (Z.mod_pos_bound n BS HBS).
  destruct (Z.lt_ge_cases (n mod BS + 1) BS); [left|right].
  - split_and!; [symmetry; apply (Z.div_unique _ _ _ (n mod BS + 1))|
      symmetry; apply (Z.mod_unique _ _ (n / BS))|]; lia.
  - split_and!; [symmetry; apply (Z.div_unique _ _ _ 0)|
      symmetry; apply (Z.mod_unique _ _ (n / BS + 1))|]; lia.
Qed.

Lemma byte_index_eq n m : 0 < BS ->
  (n / BS =? m / BS) && (n mod BS =? m mod BS) = (n =? m).
Proof.
  intros HBS; pose proof (Z.div_mod n BS ltac:(lia)); pose proof (Z.div_mod m BS ltac:(lia)).
  destruct (Z.eqb_spec n m) as [->|]; [by rewrite !Z.eqb_refl|].
  destruct (Z.eqb_spec (n / BS) (m / BS)), (Z.eqb_spec (n mod BS) (m mod BS)); simpl; auto; nia.
Qed.

Section iter.
Context (s : BitmapPageAlloc) (Hsh : shape s) (Hg : geometry s).
Context (n0 : Z) (Hn0 : 0 <= n0 < NB * BS) (Hend : n0 * 8 * alloc_page_size s < ba_end s).
Context (Hend_max : ba_end s <= npages * alloc_page_size s).

Let next := iter_next BS s (n0 / BS) (n0 mod BS).
#[local] Abbreviation ps := (alloc_page_size s).

Lemma div_lt_NB n : 0 <= n < NB * BS -> 0 <= n / BS < NB.
Proof.
  destruct (geometry_bounds s Hg) as (?&?&?&?); intros.
  split; [apply Z.div_pos; lia|apply Z.div_lt_upper_bound; lia].
Qed.

Lemma iter_next_step c n p : 0 <= n < NB * BS -> 0 <= c ->
  c + n / BS * ps < ba_end s -> (p = true -> n <> n0) ->
  next (it_at ps c n p) = Ok (Some (ix_of n, it_at ps c (n + 1) true)).
Proof.
  intros Hn Hc Hlt Hp; subst next; unfold iter_next, it_at; cbn [it_bitmap it_byte it_passed_first it_currpa].
  destruct (geometry_bounds s Hg) as (HNB & HBS & Hps & Hmax).
  pose proof (div_lt_NB n Hn); destruct Hsh as [Hl _]; pose proof (geometry_sizes s Hg).
  rewrite Hl, (proj2 (Z.leb_gt NB _)), (proj2 (Z.leb_gt (ba_end s) _)) by lia; cbn [orb].
  rewrite <- andb_assoc, byte_index_eq by lia.
  replace (p && (n =? n0)) with false
    by (destruct p; [symmetry; apply Z.eqb_neq; auto|done]).
  assert (BS <= npages) by (unfold npages; nia).
  assert (npages * 1 <= npages * ps) by (apply Z.mul_le_mono_nonneg_l; lia).
  pose proof (Z.mod_pos_bound n BS HBS).
  rewrite (uadd_ok (n mod BS)) by lia; cbn [mbind res_bind].
  destruct (succ_div n HBS) as [(E1 & E2 & E3)|(E1 & E2 & E3)].
  - rewrite (proj2 (Z.leb_gt _ _)) by lia; by rewrite E1, E2.
  - rewrite (proj2 (Z.leb_le _ _)) by lia.
    assert (NB <= npages) by (unfold npages; nia).
    rewrite (uadd_ok (n / BS)) by lia; cbn [mbind res_bind].
    assert ((npages + 1) * ps = npages * ps + ps) by lia.
    rewrite uadd_ok by lia; cbn [mbind res_bind].
    rewrite E1, E2; do 4 f_equal; lia.
Qed.

Lemma iter_next_wrap c n : 0 <= n <= NB * BS ->
  n = NB * BS \/ ba_end s <= c + n / BS * ps ->
  next (it_at ps c n true) = next (it_at ps 0 0 true).
Proof.
  intros Hn Hw; subst next; unfold iter_next, it_at; cbn [it_bitmap it_byte it_passed_first it_currpa].
  destruct (geometry_bounds s Hg) as (HNB & HBS & Hps & Hmax); destruct Hsh as [Hl _].
  rewrite Hl, (Zdiv_0_l BS), (Zmod_0_l BS).
  replace ((NB <=? n / BS) || (ba_end s <=? c + n / BS * ps)) with true.
  2:{ symmetry; apply orb_true_iff; destruct Hw as [->|]; [left|right]; apply Z.leb_le;
      rewrite ?Z.div_mul by lia; lia. }
  by destruct ((NB <=? 0) || (ba_end s <=? 0 + 0 * ps)).
Qed.

Lemma start_fits n : 0 <= n <= n0 -> n / BS * ps < ba_end s.
Proof.
  intros Hn; destruct (geometry_bounds s Hg) as (HNB & HBS & Hps & Hmax).
  assert (n / BS <= n0 * 8).
  { transitivity n; [|lia]; apply Z.div_le_upper_bound; nia. }
  assert (n / BS * ps <= n0 * 8 * ps) by (apply Z.mul_le_mono_nonneg_r; lia).
  lia.
Qed.

(** After the wrap: bytes [0 .. n0 - 1], then [None]. *)
Lemma iter_second_phase fuel n : 0 <= n <= n0 -> (Z.to_nat (n0 - n) < fuel)%nat ->
  iter_collect BS fuel s (n0 / BS) (n0 mod BS) (it_at ps 0 n true)
    = Ok (ix_of <$> seqZ n (n0 - n)).
Proof.
  revert n; induction fuel as [|fuel IH]; intros n Hn Hf; [lia|]; cbn [iter_collect].
  fold next; destruct (geometry_bounds s Hg) as (HNB & HBS & Hps & Hmax).
  pose proof (start_fits n Hn).
  destruct (decide (n = n0)) as [->|Hne].
  - subst next; unfold iter_next, it_at; cbn [it_bitmap it_byte it_passed_first it_currpa].
    pose proof (div_lt_NB n0 Hn0); pose proof Hsh as [Hl _].
    rewrite Hl, (proj2 (Z.leb_gt NB _)), (proj2 (Z.leb_gt (ba_end s) _)) by lia; cbn [orb].
    rewrite <- andb_assoc, byte_index_eq, Z.eqb_refl by lia; cbn [andb mbind res_bind].
    by rewrite Z.sub_diag.
  - rewrite iter_next_step by lia; cbn [mbind res_bind]; rewrite IH by lia.
    cbn [mbind res_bind]; rewrite (seqZ_cons n) by lia; cbn [fmap list_fmap].
    by replace (n0 - (n + 1)) with (Z.pred (n0 - n)) by lia.
Qed.

(** Before the wrap: every byte from [n] on, up to a bound [m] past which no
    byte describes a page below [end]. *)
Lemma iter_first_phase k n p : NB * BS - n = Z.of_nat k -> n0 <= n ->
  (p = true -> n0 < n) -> (p = false -> n = n0) -> exists m, n <= m <= NB * BS /\
  (n = n0 -> n0 < m) /\
  (forall m', m <= m' -> ba_end s <= m' * 8 * ps) /\
  forall fuel, (Z.to_nat (NB * BS - n + n0) < fuel)%nat ->
    iter_collect BS fuel s (n0 / BS) (n0 mod BS)
      (it_at ps (n0 * 8 * ps - n0 / BS * ps) n p)
    = Ok (ix_of <$> (seqZ n (m - n) ++ seqZ 0 n0)).
Proof.
  destruct (geometry_bounds s Hg) as (HNB & HBS & Hps & Hmax).
  pose proof (div_lt_NB n0 Hn0) as Hd0; pose proof (Z.div_mod n0 BS ltac:(lia)) as Hdm0.
  pose proof (Z.mod_pos_bound n0 BS HBS) as Hm0.
  set (c := n0 * 8 * ps - n0 / BS * ps).
  assert (Hc : 0 <= c) by (subst c; enough (n0 / BS * ps <= n0 * 8 * ps) by lia;
    apply Z.mul_le_mono_nonneg_r; [lia|]; nia).
  revert n p; induction k as [|k IH]; intros n p Hk Hn Hp1 Hp2.
  - (* the end of the last bitmap *)
    destruct p; [|specialize (Hp2 eq_refl); lia]; clear Hp2.
    exists n; split_and!; [lia|lia|lia| |].
    + intros m' Hm'; unfold npages in *; nia.
    + intros fuel Hf; destruct fuel as [|fuel]; [lia|].
      replace (iter_collect BS (S fuel) s (n0 / BS) (n0 mod BS) (it_at ps c n true))
        with (iter_collect BS (S fuel) s (n0 / BS) (n0 mod BS) (it_at ps 0 0 true)).
      2:{ cbn [iter_collect]; fold next; rewrite (iter_next_wrap c n) by lia; done. }
      rewrite iter_second_phase by lia; by rewrite Z.sub_diag, Z.sub_0_r.
  - destruct (Z.lt_ge_cases (c + n / BS * ps) (ba_end s)) as [Hlt|Hge].
    + destruct (IH (n + 1) true) as (m & Hm & _ & Hcov & Hrun); [lia|lia|lia|done|].
      exists m; split_and!; [lia|lia|lia|done|].
      intros fuel Hf; destruct fuel as [|fuel]; [lia|]; cbn [iter_collect]; fold next.
      rewrite iter_next_step by (try lia; naive_solver lia); cbn [mbind res_bind].
      rewrite Hrun by lia; cbn [mbind res_bind].
      rewrite (seqZ_cons n (m - n)) by lia; cbn [fmap list_fmap app].
      by replace (m - (n + 1)) with (Z.pred (m - n)) by lia.
    + assert (n <> n0) by (intros ->; subst c; lia).
      destruct p; [|naive_solver lia].
      assert (Hgt : n0 / BS * ps < n / BS * ps) by (subst c; lia).
      assert (n0 / BS < n / BS) by nia.
      exists n; split_and!; [lia|lia|lia| |].
      * intros m' Hm'. transitivity (c + n / BS * ps); [done|]; subst c.
        pose proof (Z.div_mod n BS ltac:(lia)); pose proof (Z.mod_pos_bound n BS HBS).
        set (d := n / BS) in *; set (d0 := n0 / BS) in *.
        enough (n0 * 8 - d0 + d <= m' * 8) by nia.
        assert (d * BS - d0 * BS >= BS + (d - d0 - 1)) by nia. lia.
      * intros fuel Hf; destruct fuel as [|fuel]; [lia|].
        replace (iter_collect BS (S fuel) s (n0 / BS) (n0 mod BS) (it_at ps c n true))
          with (iter_collect BS (S fuel) s (n0 / BS) (n0 mod BS) (it_at ps 0 0 true)).
        2:{ cbn [iter_collect]; fold next; rewrite (iter_next_wrap c n) by lia; done. }
        rewrite iter_second_phase by lia; by rewrite Z.sub_diag, Z.sub_0_r.
Qed.

(** The scan from byte [n0] visits, once each, a set of bytes that contains
    every byte describing a page below [end]. *)
Lemma iter_collect_spec it : indices_from BS s (n0 / BS) (n0 mod BS) = Ok it ->
  exists ns, iter_collect BS (iter_fuel NB BS) s (n0 / BS) (n0 mod BS) it = Ok (ix_of <$> ns) /\
    NoDup ns /\ Forall (fun n => 0 <= n < NB * BS) ns /\
    (forall n, 0 <= n < NB * BS -> n * 8 * ps < ba_end s -> n ∈ ns).
Proof.
  destruct (geometry_bounds s Hg) as (HNB & HBS & Hps & Hmax).
  pose proof (div_lt_NB n0 Hn0); pose proof (Z.mod_pos_bound n0 BS HBS).
  unfold indices_from; rewrite indices_as_physaddr_eval by (done || lia).
  intros [= <-].
  destruct (iter_first_phase (Z.to_nat (NB * BS - n0)) n0 false)
    as (m & Hm & Hm' & Hcov & Hrun); [lia|lia|done|done|].
  exists (seqZ n0 (m - n0) ++ seqZ 0 n0); split_and!.
  - specialize (Hrun (iter_fuel NB BS) ltac:(unfold iter_fuel; lia)).
    rewrite <- Hrun; f_equal; unfold it_at; f_equal.
    pose proof (Z.div_mod n0 BS); lia.
  - apply NoDup_app; split_and!; [apply NoDup_seqZ| |apply NoDup_seqZ].
    intros x; rewrite !elem_of_seqZ; lia.
  - apply Forall_forall; intros x; rewrite elem_of_app, !elem_of_seqZ; lia.
  - intros n Hn Hlt; rewrite elem_of_app, !elem_of_seqZ.
    destruct (Z.lt_ge_cases n m) as [|Hge]; [lia|]. specialize (Hcov n Hge); lia.
Qed.
End iter.

(** [find] returns the first index of the collected scan whose byte has a
    clear bit. *)
Lemma iter_find_collect fuel s sb sy it ns :
  iter_collect BS fuel s sb sy it = Ok (ix_of <$> ns) ->
  Forall (fun n => exists b, byte_at s (ix_of n) = Ok b) ns ->
  (exists n b, n ∈ ns /\ byte_at s (ix_of n) = Ok b /\ b <> 255 /\
     iter_find BS fuel s sb sy it = Ok (Some (ix_of n))) \/
  (Forall (fun n => byte_at s (ix_of n) = Ok 255) ns /\ iter_find BS fuel s sb sy it = Ok None).
Proof.
  revert it ns; induction fuel as [|fuel IH]; intros it ns Hc HF; [done|].
  cbn [iter_collect iter_find] in *.
  destruct (iter_next BS s sb sy it) as [[[ix it']|]| |]; cbn [mbind res_bind] in *; try done.
  - destruct (iter_collect BS fuel s sb sy it') as [rest| |] eqn:Hr; try done.
    cbn [mbind res_bind] in Hc; destruct ns as [|n ns]; [done|].
    cbn [fmap list_fmap] in Hc; injection Hc as -> Hrest.
    apply Forall_cons in HF as [(b & Hb) HF]; rewrite Hb; cbn [mbind res_bind].
    destruct (Z.eqb_spec b 255) as [->|Hne]; cbn [negb].
    + destruct (IH it' ns) as [(n' & b' & Hin & Hb' & Hne' & Hf)|[Hall Hf]]; [by rewrite Hr, Hrest|done| |].
      * left; exists n', b'; split_and!; [by right|done..].
      * right; split; [by constructor|done].
    + left; exists n, b; split_and!; [by left|done..].
  - destruct ns; [|done]; right; by split.
Qed.

Lemma byte_at_ok s n : shape s -> 0 < NB -> 0 < BS -> 0 <= n < NB * BS ->
  exists bm b, byte_at s (ix_of n) = Ok b /\ is_u8 b /\
    aget (bitmaps s) (n / BS) = Ok bm /\ bitmaps s !! Z.to_nat (n / BS) = Some bm /\
    aget bm (n mod BS) = Ok b /\ bm !! Z.to_nat (n mod BS) = Some b /\ len bm = BS /\
    forall t, 0 <= t < 8 -> page_bit s (n * 8 + t) = Z.testbit b t.
Proof.
  intros Hsh HNB HBS Hn.
  assert (0 <= n / BS < NB) by (split; [apply Z.div_pos|apply Z.div_lt_upper_bound]; lia).
  pose proof (Z.mod_pos_bound n BS HBS).
  destruct (shape_byte s (n / BS) (n mod BS)) as (bm & b & H1 & H2 & H3 & H4 & H5 & H6 & H7); [done|lia|lia|].
  exists bm, b; split_and!; auto.
  - unfold byte_at, ix_of; cbn [bitmap byte_]; by rewrite H1.
  - intros t Ht; replace n with (n / BS * BS + n mod BS) at 1 by (pose proof (Z.div_mod n BS); lia).
    by apply (page_bit_byte s _ _ _ bm b); auto; lia.
Qed.

(** ** Allocation *)

(** The outcome of a request: either some page that was free, wholly below
    [end], is now the only newly allocated page, or nothing was free. *)
Definition alloc_outcome (s s' : BitmapPageAlloc) (r : result PhysAddr PageAllocError) : Prop :=
  match r with
  | Val pa => exists i, pa = i * alloc_page_size s /\ 0 <= i < npages /\
      pa + alloc_page_size s <= ba_end s /\
      page_bit s i = false /\ same_but s s' (fun j => j =? i) true /\ next_pa_to_scan s' = pa /\
      alloc_page_size s' = alloc_page_size s
  | Err e => e = OutOfSpace /\ s' = s /\ forall i, 0 <= i < npages -> page_bit s i = true
  end.

Lemma wf_free_below_end s i : wf s -> 0 <= i < npages -> page_bit s i = false ->
  (i + 1) * alloc_page_size s <= ba_end s.
Proof.
  intros Hwf Hi Hf; destruct (Z.le_gt_cases ((i + 1) * alloc_page_size s) (ba_end s)); [done|].
  rewrite (wf_past_end s Hwf i) in Hf by (done || lia); done.
Qed.

Lemma scan_spec s : wf s -> exists n0 it ns,
  0 <= n0 < NB * BS /\
  physaddr_as_indices BS s (next_pa_to_scan s)
    = Ok (n0 / BS, n0 mod BS, (next_pa_to_scan s / alloc_page_size s) mod 8) /\
  indices_from BS s (n0 / BS) (n0 mod BS) = Ok it /\
  iter_collect BS (iter_fuel NB BS) s (n0 / BS) (n0 mod BS) it = Ok (ix_of <$> ns) /\
  Forall (fun n => 0 <= n < NB * BS) ns /\
  (forall n, 0 <= n < NB * BS -> n * 8 * alloc_page_size s < ba_end s -> n ∈ ns).
Proof.
  intros [Hsh Hg He Hpast [[i Hi] Hn]]; pose proof (geometry_bounds s Hg) as (?&?&?&?).
  assert (0 <= i < npages) by nia.
  exists (i / 8); pose proof (Z.div_mod i 8); pose proof (Z.mod_pos_bound i 8).
  assert (Hr : 0 <= i / 8 < NB * BS) by
    (unfold npages in *; split; [apply Z.div_pos|apply Z.div_lt_upper_bound]; lia).
  pose proof (div_lt_NB s Hg (i / 8) Hr); pose proof (Z.mod_pos_bound (i / 8) BS).
  destruct (indices_from BS s (i / 8 / BS) ((i / 8) mod BS)) as [it| |] eqn:Hit.
  2,3: unfold indices_from in Hit; by rewrite indices_as_physaddr_eval in Hit by (done || lia).
  destruct (iter_collect_spec s Hsh Hg (i / 8) Hr ltac:(nia) ltac:(lia) it Hit)
    as (ns & Hc & _ & HF & Hcov).
  exists it, ns; split_and!; auto; try lia.
  rewrite Hi at 1; rewrite physaddr_as_indices_eval by (done || nia).
  by rewrite Hi, Z.div_mul by lia.
Qed.

(** Taking the lowest clear bit of byte [n]. *)
Lemma take_free_bit s n b : wf s -> 0 <= n < NB * BS ->
  byte_at s (ix_of n) = Ok b -> b <> 255 ->
  exists bm i,
    let s' := with_byte s bm (n / BS) (n mod BS) (set_bit b (trailing_ones b)) (i * alloc_page_size s) in
    aget (bitmaps s) (n / BS) = Ok bm /\ aget bm (n mod BS) = Ok b /\
    0 <= n / BS < len (bitmaps s) /\ 0 <= n mod BS < len bm /\
    indices_as_physaddr BS s (n / BS) (n mod BS) (trailing_ones b) = Ok (i * alloc_page_size s) /\
    wf s' /\ alloc_outcome s s' (Val (i * alloc_page_size s)).
Proof.
  intros Hwf Hn Hb Hne; pose proof Hwf as [Hsh Hg He Hpast Hnext].
  pose proof (geometry_bounds s Hg) as (HNB & HBS & Hps & Hmax).
  destruct (byte_at_ok s n) as (bm & b' & Hb' & Hu & Hbm & Hbm' & Hby & Hby' & Hl & Hpb); [done..|].
  rewrite Hb in Hb'; injection Hb' as <-.
  destruct (trailing_ones_spec b Hu Hne) as [Ht Hclr]; set (t := trailing_ones b) in *.
  pose proof (div_lt_NB s Hg n Hn) as Hq; pose proof (Z.mod_pos_bound n BS HBS) as Hy.
  pose proof Hsh as [Hlen _].
  assert (Hdm : n / BS * BS + n mod BS = n) by (pose proof (Z.div_mod n BS); lia).
  set (i := n * 8 + t); exists bm, i.
  assert (Hi : 0 <= i < npages) by (unfold npages; lia).
  assert (Hfree : page_bit s i = false) by (unfold i; rewrite Hpb by done; done).
  pose proof (wf_free_below_end s i Hwf Hi Hfree) as Hbelow.
  change (set_bit b t) with (upd_bit b t true).
  assert (Hsame : same_but s (with_byte s bm (n / BS) (n mod BS) (upd_bit b t true)
                    (i * alloc_page_size s)) (fun j => j =? i) true).
  { intros j Hj; rewrite with_bit_page_bit by (done || lia); by rewrite Hdm. }
  split_and!; auto; try lia.
  - rewrite indices_as_physaddr_eval by (done || lia); by rewrite Hdm.
  - split; [by apply with_byte_shape; [..|apply upd_bit_u]|done|done| |].
    + intros j Hj Hje; rewrite Hsame by done; destruct (j =? i); [done|by apply Hpast].
    + simpl; split; [by exists i|nia].
  - exists i; split_and!; auto; lia.
Qed.

(** A scan that finds only full bytes leaves no free page. *)
Lemma scan_full s ns : wf s -> Forall (fun n => byte_at s (ix_of n) = Ok 255) ns ->
  (forall n, 0 <= n < NB * BS -> n * 8 * alloc_page_size s < ba_end s -> n ∈ ns) ->
  forall i, 0 <= i < npages -> page_bit s i = true.
Proof.
  intros Hwf Hall Hcov i Hi; pose proof Hwf as [Hsh Hg He Hpast Hnext].
  pose proof (geometry_bounds s Hg) as (HNB & HBS & Hps & Hmax).
  destruct (page_bit s i) eqn:Hpb; [done|].
  pose proof (wf_free_below_end s i Hwf Hi Hpb).
  pose proof (Z.div_mod i 8 ltac:(lia)); pose proof (Z.mod_pos_bound i 8 ltac:(lia)).
  assert (Hr : 0 <= i / 8 < NB * BS) by
    (unfold npages in *; split; [apply Z.div_pos|apply Z.div_lt_upper_bound]; lia).
  assert (Hin : i / 8 ∈ ns) by (apply Hcov; [done|]; nia).
  rewrite Forall_forall in Hall; specialize (Hall _ Hin); simpl in Hall.
  destruct (byte_at_ok s (i / 8)) as (bm & b & Hb & _ & _ & _ & _ & _ & _ & Hbits); [done..|].
  rewrite Hall in Hb; injection Hb as <-.
  replace i with (i / 8 * 8 + i mod 8) in Hpb by lia; rewrite Hbits in Hpb by done.
  rewrite <- Hpb; change 255 with (Z.ones 8).
  rewrite Z.testbit_ones_nonneg, (proj2 (Z.ltb_lt _ _)) by lia; done.
Qed.

Lemma allocate_spec (s : BitmapPageAlloc) (Hwf : wf s) :
  exists s' r, allocate NB BS s = Ok (s', r) /\ wf s' /\ alloc_outcome s s' r.
Proof.
  destruct (scan_spec s Hwf) as (n0 & it & ns & Hn0 & Hpi & Hit & Hc & HF & Hcov).
  pose proof (geometry_bounds s (wf_geom s Hwf)) as (HNB & HBS & Hps & Hmax).
  unfold allocate; rewrite Hpi; cbn [mbind res_bind]; rewrite Hit; cbn [mbind res_bind].
  destruct (iter_find_collect _ _ _ _ _ _ Hc) as [(n & b & Hin & Hb & Hne & ->)|[Hall ->]].
  { eapply Forall_impl; [exact HF|]; intros n Hn.
    destruct (byte_at_ok s n (wf_shape s Hwf)) as (bm & b & ? & _); eauto. }
  - rewrite Forall_forall in HF; specialize (HF n Hin) as Hn.
    destruct (take_free_bit s n b Hwf Hn Hb Hne)
      as (bm & i & Hbm & Hby & Hq & Hy & Hpa & Hwf' & Hout).
    cbn [mbind res_bind bitmap byte_ ix_of]; rewrite Hbm; cbn [mbind res_bind].
    rewrite Hby; cbn [mbind res_bind]; rewrite (aset_lt bm) by done; cbn [mbind res_bind].
    rewrite aset_lt by done; cbn [mbind res_bind]; rewrite Hpa; cbn [mbind res_bind].
    eexists _, _; split; [reflexivity|]; by split.
  - eexists s, _; split; [reflexivity|split; [done|]].
    split_and!; [done|done|]; by eapply scan_full.
Qed.

(** C4: [allocate] never panics and never loops: on a well-formed allocator it
    either hands out the address of a page that was free and lies wholly below
    [end], marking that page and no other, or reports [OutOfSpace] without a
    change when every page is allocated; the invariant is kept. *)
Theorem allocate_correct (s : BitmapPageAlloc) (Hwf : wf s) :
  exists s' r, allocate NB BS s = Ok (s', r) /\ wf s' /\ alloc_outcome s s' r.
Proof. by apply allocate_spec. Qed.

(** ** Boot: freeing what the memory map leaves *)

Definition page_aligned (ps : Z) (r : PhysRange) : Prop := (ps | start r) /\ (ps | end_ r).

(** The memory map as [free_unused_ranges] expects it: sorted, page aligned,
    within what the bitmaps can describe. *)
Definition memory_map_ok (s : BitmapPageAlloc) (rs : list PhysRange) : Prop :=
  StronglySorted (fun r1 r2 => start r1 <= start r2) rs /\
  Forall (fun r => page_aligned (alloc_page_size s) r /\
                   0 <= start r <= end_ r /\ end_ r <= ba_end s) rs.

Lemma overlaps_aligned r ps j : 0 < ps -> page_aligned ps r ->
  overlaps r ps j = (start r <=? j * ps) && (j * ps <? end_ r).
Proof.
  intros Hps [Ds De]; unfold overlaps.
  destruct (Z.ltb_spec (start r) ((j + 1) * ps)), (Z.leb_spec (start r) (j * ps)); simpl; auto; try lia.
  pose proof (divide_gap ps (j * ps) (start r) Hps ltac:(by exists j) Ds); lia.
Qed.

Lemma overlaps_false_split r ps j : 0 < ps -> page_aligned ps r -> start r <= end_ r ->
  overlaps r ps j = false <-> j * ps < start r \/ end_ r <= j * ps.
Proof.
  intros Hps Ha Hse; rewrite overlaps_aligned by done.
  rewrite andb_false_iff, Z.leb_gt, Z.ltb_ge; lia.
Qed.

Lemma overlaps_from_aligned a e ps j : 0 < ps -> (ps | a) ->
  overlaps (Range.new a e) ps j = true <-> a <= j * ps < e.
Proof.
  intros Hps Da; unfold overlaps; cbn [start end_ Range.new].
  rewrite andb_true_iff, !Z.ltb_lt.
  assert (a < (j + 1) * ps <-> a <= j * ps).
  { split; [|lia]; intros; destruct (Z.le_gt_cases a (j * ps)); [done|].
    pose proof (divide_gap ps (j * ps) a Hps ltac:(by exists j) Da); lia. }
  lia.
Qed.
(** Marking a range free, as a statement on the set of free pages. *)
Lemma mark_free_spec s a e : shape s -> geometry s -> (alloc_page_size s | a) -> 0 <= a -> a < e ->
  e <= ba_end s <= npages * alloc_page_size s ->
  exists s', mark_free BS s (Range.new a e) = Ok (s', Val tt) /\ shape s' /\ same_geom s s' /\
    forall j, 0 <= j < npages ->
      (page_bit s' j = false <-> page_bit s j = false \/ a <= j * alloc_page_size s < e).
Proof.
  intros Hsh Hg Da Ha Hae He; pose proof (geometry_sizes s Hg).
  destruct (mark_range_spec s (Range.new a e) false true) as (s' & Hm & Hsh' & Hg' & Hb);
    [done|done|simpl; lia..|].
  exists s'; split_and!; auto.
  intros j Hj; rewrite Hb by done.
  pose proof (overlaps_from_aligned a e _ j (geometry_ps s Hg) Da) as Ho.
  destruct (overlaps _ _ _); [tauto|]. split; [tauto|].
  intros [|?%Ho]; done.
Qed.

(** The guarded call both [free_unused_ranges] and its loop make. *)
Lemma mark_free_if_spec s a e : shape s -> geometry s -> (alloc_page_size s | a) -> 0 <= a ->
  e <= ba_end s <= npages * alloc_page_size s ->
  exists s', (if a <? e then mark_free BS s (Range.new a e) else Ok (s, Val tt)) = Ok (s', Val tt) /\
    shape s' /\ geometry s' /\ same_geom s s' /\
    forall j, 0 <= j < npages ->
      (page_bit s' j = false <-> page_bit s j = false \/ a <= j * alloc_page_size s < e).
Proof.
  intros Hsh Hg Da Ha He; destruct (Z.ltb_spec a e).
  - destruct (mark_free_spec s a e) as (s' & -> & Hsh' & Hg' & Hb'); [done..|].
    exists s'; split_and!; auto; by eapply same_geom_geometry.
  - exists s; split_and!; auto; [done|]; intros; split; [tauto|]; intros [|]; [done|lia].
Qed.

(** Below the first used range nothing of a sorted map overlaps. *)
Lemma below_map s r rs j : 0 < alloc_page_size s ->
  Forall (fun r' => start r <= start r') rs ->
  Forall (fun r' => page_aligned (alloc_page_size s) r' /\
                    0 <= start r' <= end_ r' /\ end_ r' <= ba_end s) rs ->
  j * alloc_page_size s < start r ->
  Forall (fun r' => overlaps r' (alloc_page_size s) j = false) rs.
Proof.
  intros Hps Hhd HF Hlt; apply Forall_forall; intros r' Hin.
  rewrite Forall_forall in HF, Hhd; destruct (HF r' Hin) as (Hal' & Hr' & _); specialize (Hhd r' Hin).
  apply overlaps_false_split; [done|done|lia|left; simpl in *; lia].
Qed.

Lemma free_gaps_spec rs s next : shape s -> geometry s -> memory_map_ok s rs ->
  (alloc_page_size s | next) -> 0 <= next -> ba_end s <= npages * alloc_page_size s ->
  exists s' next', free_gaps BS s next rs = Ok (s', Val next') /\
    shape s' /\ same_geom s s' /\ (alloc_page_size s | next') /\ next <= next' /\
    Forall (fun r => end_ r <= next') rs /\
    forall j, 0 <= j < npages ->
      (page_bit s' j = false <-> page_bit s j = false \/
        (next <= j * alloc_page_size s < next' /\
         Forall (fun r => overlaps r (alloc_page_size s) j = false) rs)).
Proof.
  revert s next; induction rs as [|r rs IH]; intros s next Hsh Hg [Hsort HF] Dn Hn Hmax.
  { exists s, next; cbn [free_gaps]; split_and!; auto; [done|lia|intros; split; [tauto|]].
    intros [|[? _]]; [done|lia]. }
  apply StronglySorted_inv in Hsort as [Hsort Hhd].
  apply Forall_cons in HF as [(Hal & Hr & Hre) HF].
  pose proof (geometry_ps s Hg) as Hps; cbn [free_gaps].
  destruct (mark_free_if_spec s next (start r)) as (s1 & -> & Hsh1 & Hgeo1 & Hg1 & Hb1);
    [done..|lia|]; cbn [mbind res_bind].
  pose proof Hg1 as (Hps1 & He1 & _).
  set (next1 := if next <? end_ r then end_ r else next).
  assert (Hn1 : next <= next1 /\ end_ r <= next1 /\ (next1 = next \/ next1 = end_ r))
    by (subst next1; destruct (Z.ltb_spec next (end_ r)); lia).
  destruct (IH s1 next1) as (s' & next' & -> & Hsh' & Hg' & Dn' & Hle & Hends & Hb');
    [done|done|by split; rewrite ?Hps1, ?He1| |lia|by rewrite Hps1, He1|].
  { rewrite Hps1; subst next1; destruct (_ <? _); [apply Hal|done]. }
  rewrite Hps1 in *; exists s', next'; split_and!; auto; [|lia|constructor; [lia|done]|].
  { destruct Hg1 as (?&?&?), Hg' as (?&?&?); unfold same_geom; split_and!; congruence. }
  intros j Hj; rewrite Hb', Hb1, Forall_cons by done.
  rewrite (overlaps_false_split r _ j) by (done || lia).
  pose proof (below_map s r rs j Hps Hhd HF); split.
  - intros [[|[? ?]]|[? ?]]; [tauto|right; split_and!; [lia|lia|lia|auto]|right; split_and!; [lia..|done]].
  - intros [|[? [[?|?] ?]]]; [tauto|left; right; lia|]. right; split; [|done].
    split; [|lia]. destruct Hn1 as (_&_&[->| ->]); lia.
Qed.

(** The tail of [free_unused_ranges] establishes the invariant. *)
Lemma finish_ranges_spec s e : shape s -> geometry s -> 0 < e <= npages * alloc_page_size s ->
  exists s', finish_ranges NB BS s e = Ok (s', Val tt) /\ wf s' /\
    ba_end s' = e /\ alloc_page_size s' = alloc_page_size s /\
    forall j, 0 <= j < npages ->
      (page_bit s' j = false <-> page_bit s j = false /\ (j + 1) * alloc_page_size s <= e).
Proof.
  intros Hsh Hg He; unfold finish_ranges.
  set (s1 := {| bitmaps := bitmaps s; alloc_page_size := alloc_page_size s;
                ba_end := e; next_pa_to_scan := next_pa_to_scan s |}).
  pose proof (geometry_sizes s Hg); pose proof (geometry_ps s Hg) as Hps.
  rewrite (max_bytes_eval s1) by done; cbn [mbind res_bind].
  destruct (mark_range_spec s1 (Range.new e (npages * alloc_page_size s1)) true false)
    as (s2 & -> & Hsh2 & Hg2 & Hb2); [done|done|simpl; lia..|done|].
  cbn [mbind res_bind]; pose proof Hg2 as (Hps2 & He2 & Hn2); cbn [alloc_page_size ba_end s1] in *.
  eexists; split; [reflexivity|].
  assert (Hfree : forall j, 0 <= j < npages -> (page_bit s2 j = false <->
      page_bit s j = false /\ (j + 1) * alloc_page_size s <= e)).
  { intros j Hj; rewrite Hb2 by done; unfold overlaps; cbn [start end_ Range.new].
    rewrite (proj2 (Z.ltb_lt (j * _) _)), andb_true_r by (apply Z.mul_lt_mono_pos_r; lia).
    change (page_bit s1 j) with (page_bit s j).
    destruct (Z.ltb_spec e ((j + 1) * alloc_page_size s)); [split; [done|lia]|tauto]. }
  split_and!; [|done|done|exact Hfree].
  split; cbn [ba_end next_pa_to_scan alloc_page_size].
  - exact Hsh2.
  - unfold geometry in *; cbn [alloc_page_size]; rewrite Hps2; done.
  - rewrite He2, Hps2; lia.
  - intros j Hj Hje; rewrite He2, Hps2 in Hje.
    change (page_bit _ j) with (page_bit s2 j).
    destruct (page_bit s2 j) eqn:E; [done|]; apply Hfree in E as [? ?]; [lia|done].
  - rewrite He2; split; [apply Z.divide_0_r|lia].
Qed.

(** [free_unused_ranges] on a fresh allocator: given a page-aligned start
    of memory and a sorted, page-aligned memory map, it succeeds, sets [end],
    establishes the allocator invariant, and afterwards a page is free exactly
    when it lies wholly in the available memory and no used range overlaps
    it. *)
Lemma free_unused_ranges_spec (s : BitmapPageAlloc) (avail : PhysRange) (rs : list PhysRange)
    (Hsh : shape s) (Hg : geometry s) (Hend : ba_end s = npages * alloc_page_size s)
    (Hfresh : forall j, 0 <= j < npages -> page_bit s j = true)
    (Hmap : memory_map_ok s rs)
    (Halign : (alloc_page_size s | start avail)) (Hstart : 0 <= start avail)
    (Havail : 0 < end_ avail <= ba_end s) :
  exists s', free_unused_ranges NB BS s avail rs = Ok (s', Val tt) /\ wf s' /\
    ba_end s' = end_ avail /\ alloc_page_size s' = alloc_page_size s /\
    forall j, 0 <= j < npages ->
      (page_bit s' j = false <->
        start avail <= j * alloc_page_size s /\ (j + 1) * alloc_page_size s <= end_ avail /\
        Forall (fun r => overlaps r (alloc_page_size s) j = false) rs).
Proof.
  unfold free_unused_ranges; pose proof (geometry_ps s Hg) as Hps.
  destruct (free_gaps_spec rs s (start avail)) as (s1 & nx & -> & Hsh1 & Hg1 & Dn & Hle & Hends & Hb1);
    [done..|lia|]; cbn [mbind res_bind].
  pose proof Hg1 as (Hps1 & He1 & _); pose proof (same_geom_geometry _ _ Hg1 Hg) as Hgeo1.
  destruct (mark_free_if_spec s1 nx (end_ avail)) as (s2 & -> & Hsh2 & Hgeo2 & Hg2 & Hb2);
    [done|done|by rewrite Hps1|lia|rewrite He1, Hps1; lia|]; cbn [mbind res_bind].
  pose proof Hg2 as (Hps2 & He2 & _).
  destruct (finish_ranges_spec s2 (end_ avail)) as (s3 & -> & Hwf & He3 & Hps3 & Hb3);
    [done|done|rewrite Hps2, Hps1; lia|].
  exists s3; split_and!; [done|done|done|congruence|].
  intros j Hj; rewrite Hb3, Hb2, Hb1, Hfresh, Hps2, Hps1 by done.
  set (p := j * alloc_page_size s); split.
  - intros [[[?|[? ?]]|?] ?]; [done|split_and!; [lia|lia|done]|].
    split_and!; [lia|lia|]. eapply Forall_impl; [exact Hends|]; intros r ?; simpl in *.
    unfold overlaps; apply andb_false_iff; right; apply Z.ltb_ge; lia.
  - intros (?&?&?); split; [|done].
    destruct (Z.lt_ge_cases p nx); [left; right; split; [lia|done]|right; lia].
Qed.

(** ** Releasing a page *)

(** What [deallocate] really clears: for an allocated page [i] below [end]
    it reports success and frees page [bit_idx] of the *first byte* of the
    page's bitmap, which is page [i] itself only when [i] lives in that byte;
    every other bit is kept. *)
Lemma deallocate_frees (s : BitmapPageAlloc) (i : Z)
    (Hwf : wf s) (Hi : 0 <= i < npages) (Hlt : i * alloc_page_size s < ba_end s)
    (Hset : page_bit s i = true) :
  exists s', deallocate BS s (i * alloc_page_size s) = Ok (s', Val tt) /\
    next_pa_to_scan s' = i * alloc_page_size s /\
    same_but s s' (fun j => j =? i / 8 / BS * BS * 8 + i mod 8) false /\
    (page_bit s' i = false <-> (i / 8) mod BS = 0).
Proof.
  destruct Hwf as [Hsh Hg He Hpast Hnext]; unfold deallocate.
  destruct (geometry_bounds s Hg) as (HNB & HBS & Hps & Hmax); pose proof (geometry_sizes s Hg).
  destruct (page_of_index i Hi HBS) as (Hq & Hy & Ht & Hi8); pose proof Hsh as [Hlen _].
  rewrite (proj2 (Z.ltb_ge _ _)) by lia.
  rewrite physaddr_as_indices_eval by (done || nia); cbn [mbind res_bind].
  set (q := i / 8 / BS) in *; set (y := (i / 8) mod BS) in *; set (t := i mod 8) in *.
  destruct (shape_byte s q y Hsh Hq Hy) as (bm & b & Hbm & Hbm' & Hl & Hok & Hb & Hb' & Hu).
  destruct (shape_byte s q 0 Hsh Hq ltac:(lia)) as (bm0 & b0 & Hbm0 & _ & _ & _ & Hb0 & Hb0' & Hu0).
  rewrite Hbm in Hbm0; injection Hbm0 as <-.
  assert (8 * BS <= BS * (8 * alloc_page_size s)) by nia.
  rewrite Hbm; cbn [mbind res_bind]; rewrite umul_ok by lia; cbn [mbind res_bind].
  rewrite uadd_ok by lia; cbn [mbind res_bind].
  assert (Hi' : i = (q * BS + y) * 8 + t) by (pose proof (Z.div_mod i 8); subst t; lia).
  rewrite Hi' in Hset; rewrite (page_bit_byte s q y t bm b) in Hset by (done || lia).
  rewrite (bitmap_is_set_eval bm y t b), Hset by done; cbn [mbind res_bind negb].
  replace t with (8 * 0 + t) at 1 by lia.
  rewrite (bitmap_set_eval bm 0 t b0) by (done || lia); cbn [mbind res_bind].
  rewrite aset_lt by lia; cbn [mbind res_bind].
  eexists; split; [reflexivity|split; [done|]].
  change (clear_bit W8 b0 t) with (upd_bit b0 t false).
  change (Build_BitmapPageAlloc _ _ _ _)
    with (with_byte s bm q 0 (upd_bit b0 t false) (i * alloc_page_size s)).
  assert (Hbits : forall j, 0 <= j -> page_bit (with_byte s bm q 0 (upd_bit b0 t false)
            (i * alloc_page_size s)) j = if j =? q * BS * 8 + t then false else page_bit s j).
  { intros j Hj; rewrite with_bit_page_bit by (done || lia); by rewrite Z.add_0_r. }
  split; [intros j Hj; by apply Hbits; lia|].
  rewrite Hbits by lia; destruct (Z.eqb_spec i (q * BS * 8 + t)); [lia|].
  rewrite Hi' at 1; rewrite (page_bit_byte s q y t bm b), Hset by (done || lia); split; [done|lia].
Qed.

(** ** Addresses and indices *)

(** [physaddr_as_indices] and [indices_as_physaddr] are inverse on every
    page the bitmaps describe, and the indices are in range. *)
Lemma indices_roundtrip (s : BitmapPageAlloc) (i : Z) (Hg : geometry s) (Hi : 0 <= i < npages) :
  exists q y t, physaddr_as_indices BS s (i * alloc_page_size s) = Ok (q, y, t) /\
    0 <= q < NB /\ 0 <= y < BS /\ 0 <= t < 8 /\
    indices_as_physaddr BS s q y t = Ok (i * alloc_page_size s).
Proof.
  destruct (geometry_bounds s Hg) as (HNB & HBS & Hps & Hmax).
  destruct (page_of_index i Hi HBS) as (Hq & Hy & Ht & Hi8).
  eexists _, _, _; split; [apply physaddr_as_indices_eval; [done|lia|nia]|].
  split_and!; try lia; rewrite indices_as_physaddr_eval by (done || lia).
  rewrite Hi8; pose proof (Z.div_mod i 8); by replace (i / 8 * 8 + i mod 8) with i by lia.
Qed.

(** ** Accounting *)

Definition free_pages (s : BitmapPageAlloc) : list Z :=
  filter (fun i => page_bit s i = false) (seqZ 0 npages).

(** The free pages of byte [n]. *)
Definition free_in_byte (s : BitmapPageAlloc) (n : Z) : list Z :=
  (fun t => n * 8 + t) <$> filter (fun t => page_bit s (n * 8 + t) = false) (bit_range 8).

Lemma elem_of_free_in_byte s n i :
  i ∈ free_in_byte s n <-> i / 8 = n /\ page_bit s i = false.
Proof.
  unfold free_in_byte; rewrite list_elem_of_fmap; split.
  - intros (t & -> & [Hf Ht]%list_elem_of_filter); unfold bit_range in Ht; rewrite elem_of_seqZ in Ht.
    by destruct (page_split n t ltac:(lia)) as [-> _].
  - intros [<- Hf]; pose proof (Z.div_mod i 8 ltac:(lia)); pose proof (Z.mod_pos_bound i 8 ltac:(lia)).
    exists (i mod 8); split; [lia|]; apply list_elem_of_filter; unfold bit_range; rewrite elem_of_seqZ.
    split; [by replace (i / 8 * 8 + i mod 8) with i by lia|lia].
Qed.

Lemma NoDup_free_in_byte s n : NoDup (free_in_byte s n).
Proof.
  apply NoDup_fmap_2; [intros ???; lia|]; apply NoDup_filter, NoDup_seqZ.
Qed.

Lemma NoDup_free_in_bytes s ns : NoDup ns -> NoDup (ns ≫= free_in_byte s).
Proof.
  induction 1 as [|n ns Hn _ IH]; [constructor|]; cbn [mbind list_bind].
  apply NoDup_app; split_and!; [apply NoDup_free_in_byte| |done].
  intros i [Hi _]%elem_of_free_in_byte (m & [Hm _]%elem_of_free_in_byte & Hin)%list_elem_of_bind.
  by subst.
Qed.

(** Scanning a set of bytes that covers all pages below [end] finds every free
    page once. *)
Lemma free_in_bytes_perm s ns : wf s -> NoDup ns -> Forall (fun n => 0 <= n < NB * BS) ns ->
  (forall n, 0 <= n < NB * BS -> n * 8 * alloc_page_size s < ba_end s -> n ∈ ns) ->
  ns ≫= free_in_byte s ≡ₚ free_pages s.
Proof.
  intros Hwf Hnd HF Hcov; pose proof (geometry_bounds s (wf_geom s Hwf)) as (HNB & HBS & Hps & Hmax).
  apply NoDup_Permutation; [by apply NoDup_free_in_bytes|apply NoDup_filter, NoDup_seqZ|].
  intros i; unfold free_pages; rewrite list_elem_of_bind, list_elem_of_filter, elem_of_seqZ.
  pose proof (Z.div_mod i 8 ltac:(lia)); pose proof (Z.mod_pos_bound i 8 ltac:(lia)).
  unfold npages; split.
  - intros (n & [<- Hf]%elem_of_free_in_byte & Hin); split; [done|].
    rewrite Forall_forall in HF; specialize (HF _ Hin); simpl in HF; lia.
  - intros [Hf Hi]; exists (i / 8); split; [by apply elem_of_free_in_byte|].
    pose proof (wf_free_below_end s i Hwf ltac:(unfold npages; lia) Hf).
    apply Hcov; [split; [apply Z.div_pos|apply Z.div_lt_upper_bound]; lia|]; nia.
Qed.

Lemma free_pages_below s : wf s -> len (free_pages s) * alloc_page_size s <= ba_end s.
Proof.
  intros Hwf; pose proof (geometry_ps s (wf_geom s Hwf)) as Hps; pose proof (wf_end s Hwf) as He.
  set (ps := alloc_page_size s) in *.
  assert (Hsub : free_pages s ⊆+ seqZ 0 (ba_end s / ps)).
  { apply NoDup_submseteq; [apply NoDup_filter, NoDup_seqZ|].
    intros i [Hf Hi]%list_elem_of_filter; rewrite elem_of_seqZ in *.
    pose proof (wf_free_below_end s i Hwf ltac:(lia) Hf); fold ps in H.
    split; [lia|]. enough (i + 1 <= ba_end s / ps) by lia.
    apply Z.div_le_lower_bound; lia. }
  apply submseteq_length in Hsub; rewrite length_seqZ in Hsub; unfold len.
  pose proof (Z.div_pos (ba_end s) ps ltac:(lia) Hps).
  transitivity (ba_end s / ps * ps); [apply Z.mul_le_mono_nonneg_r; lia|].
  pose proof (Z.mul_div_le (ba_end s) ps); lia.
Qed.

Lemma count_zeros_byte s n b : is_u8 b ->
  (forall t, 0 <= t < 8 -> page_bit s (n * 8 + t) = Z.testbit b t) ->
  count_zeros b = len (free_in_byte s n).
Proof.
  intros Hu Hb; unfold count_zeros, len, free_in_byte; rewrite length_fmap.
  do 2 f_equal; apply filter_ext_in; intros t; unfold bit_range; rewrite elem_of_seqZ; intros Ht.
  by rewrite Hb by lia.
Qed.

Lemma sum_free_spec s ns acc : wf s -> Forall (fun n => 0 <= n < NB * BS) ns -> 0 <= acc ->
  acc + len (ns ≫= free_in_byte s) * alloc_page_size s < W64 ->
  sum_free s (ix_of <$> ns) acc = Ok (acc + len (ns ≫= free_in_byte s) * alloc_page_size s).
Proof.
  intros Hwf; pose proof (geometry_bounds s (wf_geom s Hwf)) as (HNB & HBS & Hps & _).
  revert acc; induction ns as [|n ns IH]; intros acc HF Hacc Hlt; cbn [fmap list_fmap sum_free].
  { f_equal; unfold len; simpl; lia. }
  apply Forall_cons in HF as [Hn HF].
  destruct (byte_at_ok s n (wf_shape s Hwf)) as (bm & b & Hb & Hu & _ & _ & _ & _ & _ & Hbits); [done..|].
  cbn [mbind list_bind] in *; unfold len in *; rewrite length_app, Nat2Z.inj_add in *.
  rewrite Hb; cbn [mbind res_bind].
  rewrite (count_zeros_byte s n b Hu Hbits); unfold len.
  rewrite umul_ok by lia; cbn [mbind res_bind]; rewrite uadd_ok by lia; cbn [mbind res_bind].
  rewrite IH by (done || lia); f_equal; lia.
Qed.

(** [usage_bytes] on a well-formed allocator terminates without a panic and
    reports exactly the bytes below [end] that are not free pages. *)
Lemma usage_bytes_correct (s : BitmapPageAlloc) (Hwf : wf s) :
  usage_bytes NB BS s =
    Ok (ba_end s - len (free_pages s) * alloc_page_size s, ba_end s).
Proof.
  pose proof Hwf as [Hsh Hg He _ _]; pose proof (geometry_bounds s Hg) as (HNB & HBS & Hps & Hmax).
  pose proof (geometry_sizes s Hg); pose proof (free_pages_below s Hwf).
  unfold usage_bytes, indices.
  destruct (indices_from BS s 0 0) as [it| |] eqn:Hit.
  2,3: unfold indices_from in Hit; by rewrite indices_as_physaddr_eval in Hit by (done || lia).
  destruct (iter_collect_spec s Hsh Hg 0 ltac:(nia) ltac:(lia) ltac:(lia) it) as (ns & Hc & Hnd & HF & Hcov).
  { by rewrite Zdiv_0_l, Zmod_0_l. }
  rewrite Zdiv_0_l, Zmod_0_l in Hc; cbn [mbind res_bind]; rewrite Hc; cbn [mbind res_bind].
  pose proof (free_in_bytes_perm s ns Hwf Hnd HF Hcov) as Hperm.
  assert (Hl : len (ns ≫= free_in_byte s) = len (free_pages s)) by (unfold len; by rewrite Hperm).
  rewrite sum_free_spec, Hl by (rewrite ?Hl; done || lia); cbn [mbind res_bind].
  by rewrite usub_ok by lia.
Qed.
End spec.

(** ** Concrete instances *)

Lemma new_all_allocated_shape NB BS k s : 0 < NB -> 0 < BS -> 0 <= k < 64 ->
  (npages NB BS + 1) * 2 ^ k < W64 -> new_all_allocated NB BS (2 ^ k) = Ok s ->
  shape NB BS s /\ geometry NB BS s /\ ba_end s = npages NB BS * alloc_page_size s /\
  alloc_page_size s = 2 ^ k /\ forall i, 0 <= i < npages NB BS -> page_bit BS s i = true.
Proof.
  intros HNB HBS Hk Hmax; unfold new_all_allocated; intros Hs; res_inv; simpl.
  split_and!; auto.
  - split; simpl; [unfold len; rewrite length_replicate; lia|].
    apply Forall_replicate; split; [unfold len, Bitmap.new; rewrite length_replicate; lia|].
    apply Forall_replicate; unfold is_u, W8; lia.
  - unfold geometry; simpl; split_and!; eauto.
  - intros i Hi; destruct (page_of_index NB BS i Hi HBS) as (Hq & Hy & Ht & _).
    unfold page_bit, Bitmap.new; simpl.
    rewrite !lookup_replicate_2 by lia; change 255 with (Z.ones 8).
    by rewrite Z.testbit_ones_nonneg, (proj2 (Z.ltb_lt _ _)) by lia.
Qed.

(** A small allocator: 2 bitmaps of 2 bytes, pages of 4 bytes, 13 pages in use. *)
Definition small_alloc : BitmapPageAlloc :=
  {| bitmaps := [[255; 31]; [0; 0]]; alloc_page_size := 4; ba_end := 128; next_pa_to_scan := 48 |}.

Lemma small_geometry bms e n :
  geometry 2 2 {| bitmaps := bms; alloc_page_size := 4; ba_end := e; next_pa_to_scan := n |}.
Proof. unfold geometry, npages; simpl; rewrite W64_val; split_and!; try lia; exists 2; lia. Qed.

Lemma small_alloc_wf : wf 2 2 small_alloc.
Proof.
  split; unfold npages; simpl.
  - split; [done|]; repeat constructor; unfold is_u, W8; simpl; lia.
  - apply small_geometry.
  - lia.
  - intros; lia.
  - split; [by exists 12|lia].
Qed.

Lemma allocate_correct_witness :
  exists s' r, allocate 2 2 small_alloc = Ok (s', r) /\ r = Val 52.
Proof.
  destruct (allocate_correct 2 2 small_alloc small_alloc_wf) as (s' & r & H & _ & _).
  exists s', r; split; [exact H|]. vm_compute in H; by injection H as _ <-.
Defined.

(** The same allocator with every page in use. *)
Definition full_alloc : BitmapPageAlloc :=
  {| bitmaps := [[255; 255]; [255; 255]]; alloc_page_size := 4; ba_end := 128; next_pa_to_scan := 0 |}.

Lemma full_alloc_wf : wf 2 2 full_alloc.
Proof.
  split; unfold npages; simpl.
  - split; [done|]; repeat constructor; unfold is_u, W8; simpl; lia.
  - apply small_geometry.
  - lia.
  - intros; lia.
  - split; [by exists 0|lia].
Qed.

(** Releasing a page that is not in the first byte of its bitmap reports
    success, leaves that page allocated and frees another page that is still in
    use, which the next [allocate] hands out a second time. *)
Lemma deallocate_wrong_page :
  exists s1 s2, wf 2 2 full_alloc /\
    page_bit 2 full_alloc 9 = true /\ page_bit 2 full_alloc 1 = true /\
    deallocate 2 full_alloc (9 * 4) = Ok (s1, Val tt) /\
    page_bit 2 s1 9 = true /\ page_bit 2 s1 1 = false /\
    allocate 2 2 s1 = Ok (s2, Val (1 * 4)).
Proof.
  exists {| bitmaps := [[253; 255]; [255; 255]]; alloc_page_size := 4; ba_end := 128;
            next_pa_to_scan := 36 |},
         {| bitmaps := [[255; 255]; [255; 255]]; alloc_page_size := 4; ba_end := 128;
            next_pa_to_scan := 4 |}.
  split; [apply full_alloc_wf|]; split_and!; vm_compute; reflexivity.
Qed.
