(* ===== verification/Boot.v ===== *)
(** * Boot: what the kernel takes from the devicetree
    ([aarch64/src/boot.rs], [aarch64/src/pagealloc.rs], [aarch64/src/kmem.rs],
    [aarch64/src/deviceutil.rs], the setup part of [aarch64/src/timer.rs])

    The memory node and the kernel's own ranges set up the page allocator; the
    timer node gives the interrupt number of the timer. *)

From S2P Require Import Prelude Addr Fdt BitmapAlloc.

Module Bt.
Import Fd.

(** ** The kernel image

    The addresses that the linker script defines. *)
Record KernelSyms := {
  eboottext_pa : Z; text_pa : Z; etext_pa : Z; rodata_pa : Z; erodata_pa : Z;
  data_pa : Z; edata_pa : Z; bss_pa : Z; ebss_pa : Z;
}.

Section kernel.
Context (fuel : nat) (syms : KernelSyms).

Definition base_physaddr : PhysAddr := 0.
Definition boottext_physrange : PhysRange := Range.new base_physaddr (eboottext_pa syms).
Definition text_physrange : PhysRange := Range.new (text_pa syms) (etext_pa syms).
Definition rodata_physrange : PhysRange := Range.new (rodata_pa syms) (erodata_pa syms).
Definition data_physrange : PhysRange := Range.new (data_pa syms) (edata_pa syms).
Definition bss_physrange : PhysRange := Range.new (bss_pa syms) (ebss_pa syms).

(** ** Queries *)

Definition regblock (t : TranslatedReg) : option RegBlock :=
  match t with TranslatedTo r => Some r | Unreachable => None end.

(** The first element of [property_translated_reg_iter(node)] that [f] accepts. *)
Definition first_reg {B} (s names : list Z) (f : TranslatedReg -> res (option B)) (n : Node) : res (option B) :=
  '(next, i) ← reg_iter fuel s names n;
  st ← next i;
  find_map (translated_next fuel s names next n) f fuel st.

Definition memory_range (s names : list Z) : res (option PhysRange) :=
  find_map (nodes_next fuel s)
    (fun n => b ← has_string fuel s names (str "device_type") (str "memory") n;
       if (b : bool) then
         first_reg s names (fun t => match regblock t with Some r => x ← Range.from_reg r; Ok (Some x) | None => Ok None end) n
       else Ok None) fuel (0, 0).

(** [find_dt_physrange]: the first compatible string with a node; only the first
    register block counts. *)
Fixpoint find_dt_node (s names : list Z) (compatibles : list (list Z)) : res (option Node) :=
  match compatibles with
  | [] => Ok None
  | c :: cs => n ← find_first fuel s names (str "compatible") c; match n with Some n => Ok (Some n) | None => find_dt_node s names cs end
  end.

Definition find_dt_physrange (s names : list Z) (compatibles : list (list Z)) : res (option PhysRange) :=
  n ← find_dt_node s names compatibles;
  match n with
  | None => Ok None
  | Some n =>
      t ← first_reg s names (fun t => Ok (Some t)) n;
      match t ≫= regblock with None => Ok None | Some r => Range.from_regblock r end
  end.

(** ** The page allocator *)

Definition init_page_allocator (s names : list Z) (used : list PhysRange) (a : BitmapPageAlloc)
    : res (BitmapPageAlloc * result unit PageAllocError) :=
  r ← memory_range s names;
  match r with
  | None => Panic
  | Some available_mem => free_unused_ranges 32 PAGE_SIZE_4K a available_mem used
  end.

(** [sort_by_key(|a| a.start)], which is stable. *)
Fixpoint insert_range (r : PhysRange) (l : list PhysRange) : list PhysRange :=
  match l with
  | [] => [r]
  | x :: l' => if Addr.start r <=? Addr.start x then r :: x :: l' else x :: insert_range r l'
  end.
Fixpoint sort_ranges (l : list PhysRange) : list PhysRange :=
  match l with [] => [] | r :: l' => insert_range r (sort_ranges l') end.

Definition used_ranges (dtb_va size : Z) : res (list PhysRange) :=
  pa ← usub dtb_va KZERO;
  dtb ← Range.with_pa_len pa size;
  dtb4k ← Range.round dtb PAGE_SIZE_4K;
  Ok [dtb4k; Range.add boottext_physrange text_physrange; rodata_physrange; Range.add data_physrange bss_physrange].

Definition page_allocator (dt : DeviceTree) (dtb_va : Z) (a : BitmapPageAlloc)
    : res (BitmapPageAlloc * result unit PageAllocError) :=
  rs ← used_ranges dtb_va (size dt);
  s ← structs dt;
  names ← strings dt;
  init_page_allocator s names (sort_ranges rs) a.
End kernel.

(** ** The timer interrupt *)

Inductive TimerErr := NoNode | NamedList | NoInterrupts | NotPpi | TooShort | NotLocal.

(** The loop over the cells with their index. *)
Fixpoint scan_cells (i : Z) (cells : list Z) (ppi : option Z) : result (option Z) TimerErr :=
  match cells with
  | [] => Val ppi
  | c :: cells' =>
      if i =? 3 then if negb (c =? 1) then Err NotPpi else scan_cells (i + 1) cells' ppi
      else if i =? 4 then scan_cells (i + 1) cells' (Some c)
      else scan_cells (i + 1) cells' ppi
  end.

Definition timer_intid_from_dt (fuel : nat) (s names : list Z) : res (result Z TimerErr) :=
  n ← find_first fuel s names (str "compatible") (str "arm,armv8-timer");
  node ←? ok_or n NoNode;
  named ← property fuel s names node (str "interrupt-names");
  match named with
  | Some _ => Ok (Err NamedList)
  | None =>
      p ← property fuel s names node (str "interrupts");
      prop ←? ok_or p NoInterrupts;
      cells ← property_value_as_u32_iter fuel s prop;
      ppi ←? Ok (scan_cells 0 cells None);
      ppi ←? ok_or ppi TooShort;
      if 15 <? ppi then Ok (Err NotLocal) else Ok (Val (16 + ppi))
  end.

(** ** The tree that describes the memory

    The first node of type [memory], in document order, is a child of the root
    and its [reg] property starts with the block [r]. *)
Definition memory_described (fuel : nat) (items : list item) (names : list Z) (r : RegBlock) : Prop :=
  exists R rb ro N nb no p off ac sc regs l1 l2,
    member items R rb ro None /\ (N, nb, no) ∈ kids_of R rb ro /\ is_root R = true /\
    nodes_in 0 0 items = l1 ++ N :: l2 /\
    Forall (fun n => has_string fuel (block items) names (str "device_type") (str "memory") n = Ok false) l1 /\
    has_string fuel (block items) names (str "device_type") (str "memory") N = Ok true /\
    cells_ok ac sc /\ node_address_size_cells fuel (block items) names (Some R) = Ok (Z.of_nat ac, Z.of_nat sc) /\
    property fuel (block items) names N (str "reg") = Ok (Some p) /\
    (p, (off, concat (map (enc_reg ac sc) (r :: regs)))) ∈ props_of (next_token_start N) nb /\
    Forall (reg_ok ac sc) (r :: regs).

(** The range of a memory block. *)
Definition block_range (r : RegBlock) : PhysRange := Range.new (rb_addr r) (rb_addr r + default 0 (rb_len r)).

Section tree.
Context (fuel : nat) (items : list item) (Hitems : Forall item_ok items).
#[local] Notation s := (block items).
Context (Hs : len s < 2 ^ 60) (Hfuel : (length s < fuel)%nat).

Lemma scan_nodes {B} (f : Node -> res (option B)) : find_map (nodes_next fuel s) f fuel (0, 0) = first_ok f (nodes_in 0 0 items).
Proof.
  pose proof (block_at items) as Ha; apply collect_find; change (0, 0) with (0, Z.of_nat (length (@nil (list item)))).
  pose proof (btok_fuel s Hs fuel Hfuel _ _ _ Ha); rewrite (nodes_collect s Hs fuel fuel 0 items []) by first [done|lia|by split].
  cbn [nodes_rest length]; by rewrite app_nil_r.
Qed.

Lemma first_reg_collected {B} names (f : TranslatedReg -> res (option B)) N l :
  property_translated_reg_iter fuel s names N = Ok l -> first_reg fuel s names f N = first_ok f l.
Proof.
  unfold property_translated_reg_iter, first_reg; intros ([next i] & -> & H)%bind_Ok; cbn [mbind res_bind].
  apply bind_Ok in H as (st & -> & H); cbn [mbind res_bind]; by apply collect_find.
Qed.

(** [find_first] is the first node of the tree with the string. *)
Lemma find_first_spec names pn v N l1 l2 : nodes_in 0 0 items = l1 ++ N :: l2 ->
  Forall (fun n => has_string fuel s names pn v n = Ok false) l1 -> has_string fuel s names pn v N = Ok true ->
  find_first fuel s names pn v = Ok (Some N).
Proof.
  intros Hn Hl HN; unfold find_first; rewrite scan_nodes, Hn; rewrite Forall_forall in Hl; unfold filter_next.
  apply first_ok_app; [intros x Hx; by rewrite (Hl x Hx)|by rewrite HN].
Qed.

(** The memory range that the kernel reads is the block of the tree. *)
Lemma memory_range_spec names r : memory_described fuel items names r -> rb_addr r + default 0 (rb_len r) < W64 ->
  memory_range fuel s names = Ok (Some (block_range r)).
Proof.
  intros (R & rb & ro & N & nb & no & p & off & ac & sc & regs & l1 & l2 & HR & HN & Hroot & Hn & Hl & Ht & Hc & Hcells & Hp & Hv & Hregs) Hb.
  unfold memory_range; rewrite scan_nodes, Hn; rewrite Forall_forall in Hl.
  apply first_ok_app; [intros x Hx; by rewrite (Hl x Hx)|rewrite Ht; cbn [mbind res_bind]].
  destruct (reg_roundtrip_spec items Hitems fuel Hs Hfuel names N R nb rb no ro None p off ac sc (r :: regs)) as [_ H2]; [done..|].
  rewrite (first_reg_collected _ _ _ _ (H2 Hroot)); cbn [fmap list_fmap first_ok regblock]; unfold Range.from_reg, Pa.add.
  by rewrite uadd_ok by done.
Qed.
End tree.

(** ** Sorting the ranges *)

Lemma insert_range_perm r l : insert_range r l ≡ₚ r :: l.
Proof.
  induction l as [|x l IH]; cbn [insert_range]; [done|]; destruct (_ <=? _); [done|].
  rewrite IH; apply Permutation_swap.
Qed.

Lemma sort_ranges_perm l : sort_ranges l ≡ₚ l.
Proof. induction l as [|r l IH]; cbn [sort_ranges]; [done|]; by rewrite insert_range_perm, IH. Qed.

Lemma sort_ranges_sorted l : StronglySorted (fun r1 r2 => Addr.start r1 <= Addr.start r2) (sort_ranges l).
Proof.
  induction l as [|r l IH]; cbn [sort_ranges]; [constructor|]; induction IH as [|x l' HS IH' HF]; cbn [insert_range].
  - repeat constructor.
  - destruct (Z.leb_spec (Addr.start r) (Addr.start x)).
    + repeat (constructor; try done); eapply Forall_impl; [exact HF|]; cbn; lia.
    + constructor; [done|]; rewrite insert_range_perm; constructor; [lia|done].
Qed.

(** ** The page allocator at boot *)

Definition NPAGES : Z := npages 32 PAGE_SIZE_4K.

(** The symbols of the linker script: every section starts and ends on a page
    boundary, in order, within the memory that the bitmaps cover. *)
Definition section_ok (s e : Z) : Prop := (PAGE_SIZE_4K | s) /\ (PAGE_SIZE_4K | e) /\ 0 <= s <= e /\ e <= NPAGES * PAGE_SIZE_4K.
Definition syms_ok (y : KernelSyms) : Prop :=
  section_ok 0 (eboottext_pa y) /\ section_ok (text_pa y) (etext_pa y) /\ section_ok (rodata_pa y) (erodata_pa y) /\
  section_ok (data_pa y) (edata_pa y) /\ section_ok (bss_pa y) (ebss_pa y).

(** What the kernel must keep: its image and the blob. *)
Definition kept (y : KernelSyms) (dtb size : Z) : list PhysRange :=
  [Range.new dtb (dtb + size); Range.add (boottext_physrange y) (text_physrange y); rodata_physrange y; Range.add (data_physrange y) (bss_physrange y)].

Lemma min_divide d a b : (d | a) -> (d | b) -> (d | Z.min a b) /\ (d | Z.max a b).
Proof. intros; split; [destruct (Z.min_spec a b) as [[_ ->]|[_ ->]]|destruct (Z.max_spec a b) as [[_ ->]|[_ ->]]]; done. Qed.

Lemma section_add s1 e1 s2 e2 : section_ok s1 e1 -> section_ok s2 e2 ->
  section_ok (Addr.start (Range.add (Range.new s1 e1) (Range.new s2 e2))) (end_ (Range.add (Range.new s1 e1) (Range.new s2 e2))).
Proof.
  unfold section_ok; intros (? & ? & ? & ?) (? & ? & ? & ?); cbn [Range.add Addr.start end_ Range.new].
  destruct (min_divide PAGE_SIZE_4K s1 s2), (min_divide PAGE_SIZE_4K e1 e2); try done; split_and!; try done; lia.
Qed.

(** Rounding a range to pages changes no page's overlap with it, unless it is empty. *)
Lemma round_overlaps a b a' b' j : 0 < PAGE_SIZE_4K -> a < b -> (PAGE_SIZE_4K | a') -> (PAGE_SIZE_4K | b') ->
  a - PAGE_SIZE_4K < a' <= a -> b <= b' < b + PAGE_SIZE_4K ->
  overlaps (Range.new a' b') PAGE_SIZE_4K j = overlaps (Range.new a b) PAGE_SIZE_4K j.
Proof.
  intros Hps Hab Ha Hb Ha' Hb'; unfold overlaps; cbn [Addr.start end_ Range.new]; set (ps := PAGE_SIZE_4K) in *.
  assert (D0 : (ps | j * ps)) by (by exists j). assert (D1 : (ps | (j + 1) * ps)) by (by exists (j + 1)).
  f_equal.
  - destruct (Z.ltb_spec a' ((j + 1) * ps)), (Z.ltb_spec a ((j + 1) * ps)); try done; [|lia].
    pose proof (divide_gap ps a' ((j + 1) * ps) Hps Ha D1 ltac:(lia)); lia.
  - destruct (Z.ltb_spec (j * ps) b'), (Z.ltb_spec (j * ps) b); try done; [|lia].
    pose proof (divide_gap ps (j * ps) b' Hps D0 Hb ltac:(lia)); lia.
Qed.

(** The device tree blob, rounded to pages, is a section of the map. *)
Lemma used_ranges_spec y dtb size : syms_ok y -> 0 <= dtb -> 0 < size -> dtb + size <= NPAGES * PAGE_SIZE_4K ->
  exists rs, used_ranges y (KZERO + dtb) size = Ok rs /\ Forall (fun r => section_ok (Addr.start r) (end_ r)) rs /\
    forall j, Forall (fun r => overlaps r PAGE_SIZE_4K j = false) rs <-> Forall (fun r => overlaps r PAGE_SIZE_4K j = false) (kept y dtb size).
Proof.
  intros (H1 & H2 & H3 & H4 & H5) Hd Hsz Hb; unfold used_ranges.
  assert (Hps : PAGE_SIZE_4K = 2 ^ 12) by reflexivity; assert (HN : NPAGES * PAGE_SIZE_4K = 2 ^ 32) by reflexivity.
  rewrite usub_ok by lia; cbn [mbind res_bind]; replace (KZERO + dtb - KZERO) with dtb by lia.
  unfold Range.with_pa_len; rewrite uadd_ok by (rewrite W64_val; lia); cbn [mbind res_bind].
  unfold Range.round, Pa.round_down2, Pa.round_up2; cbn [Addr.start end_]; rewrite Hps.
  rewrite round_down2_eval, round_up2_eval by (unfold is_u; rewrite ?W64_val; lia); cbn [mbind res_bind].
  destruct (round_down_bounds dtb (2 ^ 12)) as [Da Ba]; [done|]; destruct (round_down_bounds (dtb + size + 2 ^ 12 - 1) (2 ^ 12)) as [De Be]; [done|].
  set (a := dtb - dtb mod 2 ^ 12) in *; set (e := dtb + size + 2 ^ 12 - 1 - (dtb + size + 2 ^ 12 - 1) mod 2 ^ 12) in *.
  assert (Ha0 : 0 <= a) by (pose proof (Z.mod_le dtb (2 ^ 12)); subst a; lia).
  assert (He0 : e <= NPAGES * PAGE_SIZE_4K).
  { rewrite HN in *; destruct (Z.le_gt_cases e (2 ^ 32)) as [|Hgt]; [done|].
    pose proof (divide_gap (2 ^ 12) (2 ^ 32) e ltac:(done) ltac:(by exists (2 ^ 20)) De Hgt); lia. }
  eexists; split; [reflexivity|split].
  - repeat apply Forall_cons_2; [|by apply section_add|done|by apply section_add|constructor].
    cbn [Addr.start end_]; unfold section_ok; rewrite Hps; split_and!; try done; rewrite ?Hps in *; lia.
  - intros j; unfold kept; rewrite !Forall_cons; change {| Addr.start := a; end_ := e |} with (Range.new a e).
    rewrite <- Hps; rewrite (round_overlaps dtb (dtb + size) a e j) by (rewrite ?Hps; first [done|lia]); done.
Qed.

Lemma PAGE_ALLOC_fresh : exists a, PAGE_ALLOC = Ok a.
Proof. unfold PAGE_ALLOC, new_all_allocated; rewrite !umul_ok by done; cbn [mbind res_bind]; eauto. Qed.

(** C26: the page allocator after boot: when the tree describes the memory with a
    block that starts on a page boundary and ends within the 4 GiB that the
    bitmaps cover, and the sections of the kernel and the blob lie there too,
    [page_allocator] succeeds, the allocator is well formed, and a page is free
    exactly when it lies wholly in that memory and overlaps neither the blob nor
    a section of the kernel. *)
Theorem page_allocator_correct (fuel : nat) (items : list item) (dt : DeviceTree) (names : list Z) (y : KernelSyms) (r : RegBlock) (dtb : Z)
    (Hitems : Forall item_ok items) (Hs : len (block items) < 2 ^ 60) (Hfuel : (length (block items) < fuel)%nat)
    (Hstructs : structs dt = Ok (block items)) (Hstrings : strings dt = Ok names) (Hmem : memory_described fuel items names r)
    (Hr : (PAGE_SIZE_4K | rb_addr r)) (Hr0 : 0 <= rb_addr r) (Hend : 0 < end_ (block_range r) <= NPAGES * PAGE_SIZE_4K)
    (Hy : syms_ok y) (Hdtb : 0 <= dtb) (Hsize : 0 < size dt) (Hdend : dtb + size dt <= NPAGES * PAGE_SIZE_4K) :
  exists a a', PAGE_ALLOC = Ok a /\ page_allocator fuel y dt (KZERO + dtb) a = Ok (a', Val tt) /\ wf 32 PAGE_SIZE_4K a' /\
    ba_end a' = end_ (block_range r) /\
    forall j, 0 <= j < NPAGES -> page_bit PAGE_SIZE_4K a' j = false <->
      rb_addr r <= j * PAGE_SIZE_4K /\ (j + 1) * PAGE_SIZE_4K <= end_ (block_range r) /\
      Forall (fun k => overlaps k PAGE_SIZE_4K j = false) (kept y dtb (size dt)).
Proof.
  assert (HN : NPAGES * PAGE_SIZE_4K = 2 ^ 32) by reflexivity; assert (Hps : PAGE_SIZE_4K = 2 ^ 12) by reflexivity.
  destruct PAGE_ALLOC_fresh as [a Ea]; exists a.
  destruct (new_all_allocated_shape 32 PAGE_SIZE_4K 12 a) as (Hsh & Hg & He & Hsz & Hfresh); [done|done|lia|by vm_compute|exact Ea|].
  destruct (used_ranges_spec y dtb (size dt) Hy Hdtb Hsize Hdend) as (rs & Hrs & Hok & Hover).
  unfold page_allocator; rewrite Hrs; cbn [mbind res_bind]; rewrite Hstructs; cbn [mbind res_bind]; rewrite Hstrings; cbn [mbind res_bind].
  unfold init_page_allocator; rewrite (memory_range_spec fuel items Hitems Hs Hfuel names r Hmem) by (cbn in Hend; rewrite W64_val; lia); cbn [mbind res_bind].
  destruct (free_unused_ranges_spec 32 PAGE_SIZE_4K a (block_range r) (sort_ranges rs)) as (a' & H1 & H2 & H3 & _ & H5);
    [done..| |by rewrite Hsz, <- Hps|done|by rewrite He, Hsz, <- Hps|].
  - split; [apply sort_ranges_sorted|]; rewrite sort_ranges_perm; eapply Forall_impl; [exact Hok|].
    intros x (? & ? & ? & ?); rewrite Hsz, He, Hsz; unfold page_aligned; rewrite <- Hps; done.
  - exists a'; split_and!; [done|done|done|done|]; intros j Hj; rewrite H5 by done.
    by rewrite sort_ranges_perm, Hsz, <- Hps, Hover.
Qed.

(** ** The interrupt of the timer *)

Lemma u32_step s (Hs : len s < 2 ^ 60) e i c r : at_ s i (to_be 4 c ++ r) -> is_u32 c -> i + 4 <= e < 2 ^ 61 ->
  u32_next s e i = Ok (Some c, i + 4).
Proof.
  intros Ha Hc He; pose proof (at_bound s _ _ Ha) as Hb; unfold u32_next; rewrite usub_ok by lia; cbn [mbind res_bind].
  rewrite (proj2 (Z.ltb_ge _ 4)) by lia; rewrite uadd_ok by (rewrite W64_val; lia); cbn [mbind res_bind].
  pose proof (sget_at s _ _ _ Ha) as Hg; rewrite len_to_be in Hg; rewrite Hg; cbn [mbind option_bind].
  by rewrite <- (app_nil_r (to_be 4 c)), bytes_to_u32_be by done.
Qed.

Lemma u32_done s i : u32_next s i i = Ok (None, i).
Proof. unfold u32_next; rewrite usub_ok by lia; cbn [mbind res_bind]; by rewrite (proj2 (Z.ltb_lt _ 4)) by lia. Qed.

Lemma u32_collect s (Hs : len s < 2 ^ 60) r n : forall cells i, Forall is_u32 cells -> at_ s i (concat (map (to_be 4) cells) ++ r) ->
  i + 4 * len cells < 2 ^ 61 -> (length cells < n)%nat -> collect (u32_next s (i + 4 * len cells)) n i = Ok cells.
Proof.
  induction n as [|n IH]; intros [|c cells] i Hc Ha He Hn; [cbn in Hn; lia..| |]; cbn [collect map concat] in *.
  - change (len []) with 0; by rewrite Z.add_0_r, u32_done.
  - apply Forall_cons in Hc as [Hc Hcs]; rewrite <- (assoc_L (++)) in Ha; rewrite len_cons in *; pose proof (len_nonneg cells).
    rewrite (u32_step s Hs _ i c _ Ha Hc) by lia; cbn [mbind res_bind]; apply at_skip in Ha; rewrite len_to_be in Ha.
    specialize (IH cells (i + 4) Hcs Ha ltac:(lia) ltac:(cbn in Hn; lia)).
    replace (i + 4 * (1 + len cells)) with (i + 4 + 4 * len cells) by lia; by rewrite IH.
Qed.

Lemma len_concat_cells cells : len (concat (map (to_be 4) cells)) = 4 * len cells.
Proof. induction cells as [|c cells IH]; [done|]; cbn [map concat]; rewrite len_app, IH, len_to_be, len_cons; lia. Qed.

(** The loop keeps the last cell it saw at index 4. *)
Lemma scan_cells_past cells i ppi : 4 < i -> scan_cells i cells ppi = Val ppi.
Proof.
  revert i; induction cells as [|c cells IH]; intros i Hi; cbn [scan_cells]; [done|].
  by rewrite (proj2 (Z.eqb_neq i 3)), (proj2 (Z.eqb_neq i 4)), IH by lia.
Qed.

(** The interrupt number that a list of cells states: the second entry must be
    of type PPI (1) with a number up to 15. *)
Definition stated_intid (cells : list Z) : result Z TimerErr :=
  match cells !! 3%nat, cells !! 4%nat with
  | Some c, p => if negb (c =? 1) then Err NotPpi else
      match p with None => Err TooShort | Some p => if 15 <? p then Err NotLocal else Val (16 + p) end
  | None, _ => Err TooShort
  end.

Lemma scan_cells_stated cells :
  (ppi ←? Ok (scan_cells 0 cells None); ppi ←? ok_or ppi TooShort; if 15 <? ppi then Ok (Err NotLocal) else Ok (Val (16 + ppi))) =
  Ok (stated_intid cells).
Proof.
  destruct cells as [|c0 [|c1 [|c2 [|c3 cells]]]]; [reflexivity..|].
  unfold stated_intid; change ((c0 :: c1 :: c2 :: c3 :: cells) !! 3%nat) with (Some c3).
  change (scan_cells 0 (c0 :: c1 :: c2 :: c3 :: cells) None) with (if negb (c3 =? 1) then Err NotPpi else scan_cells 4 cells None).
  cbv beta iota; destruct (c3 =? 1); cbn [negb]; [|reflexivity]; destruct cells as [|c4 cells]; [reflexivity|].
  change (scan_cells 4 (c4 :: cells) None) with (scan_cells 5 cells (Some c4)); rewrite scan_cells_past by lia.
  change ((c0 :: c1 :: c2 :: c3 :: c4 :: cells) !! 4%nat) with (Some c4); cbn [try_bind mbind res_bind ok_or]; destruct (15 <? c4); reflexivity.
Qed.

(** The interrupt of the timer: when [interrupts] of the first
    [arm,armv8-timer] node holds a list of cells, [timer_intid_from_dt] reads
    the second entry: INTID 16 + PPI when it is a local PPI, and otherwise the
    error that says what is wrong (another type, not local, too short); a node
    with named interrupts is refused. *)
Lemma timer_intid_exact (fuel : nat) (items : list item) (names : list Z) (N : Node) (b : list item) (o : list (list item)) (par : option Node)
    (l1 l2 : list Node) (named : option Property) (p : Property) (off : Z) (cells : list Z)
    (Hitems : Forall item_ok items) (Hs : len (block items) < 2 ^ 60) (Hfuel : (length (block items) < fuel)%nat)
    (Hnodes : nodes_in 0 0 items = l1 ++ N :: l2) (HN : member items N b o par)
    (Hl1 : Forall (fun n => has_string fuel (block items) names (str "compatible") (str "arm,armv8-timer") n = Ok false) l1)
    (Hcomp : has_string fuel (block items) names (str "compatible") (str "arm,armv8-timer") N = Ok true)
    (Hnamed : property fuel (block items) names N (str "interrupt-names") = Ok named)
    (Hp : property fuel (block items) names N (str "interrupts") = Ok (Some p))
    (Hv : (p, (off, concat (map (to_be 4) cells))) ∈ props_of (next_token_start N) b) (Hcells : Forall is_u32 cells) :
  timer_intid_from_dt fuel (block items) names = Ok (if named then Err NamedList else stated_intid cells).
Proof.
  unfold timer_intid_from_dt; rewrite (find_first_spec fuel items Hitems Hs Hfuel names _ _ N l1 l2) by done; cbn [try_bind mbind res_bind ok_or].
  rewrite Hnamed; cbn [mbind res_bind]; destruct named; [done|]; rewrite Hp; cbn [try_bind mbind res_bind ok_or].
  pose proof (member_located (block items) fuel Hfuel items Hitems (block_at items) _ _ _ _ HN) as (Ha & _).
  destruct (prop_at (block items) fuel Hfuel _ b o p off _ Ha Hv) as (r & Hat & Hvl); pose proof (at_bound _ _ _ Hat) as Hbd.
  pose proof Hat as (_ & Htot & _); rewrite len_app in Htot; pose proof (len_nonneg r); rewrite len_concat_cells in *; pose proof (len_nonneg cells).
  assert (Hit : property_value_as_u32_iter fuel (block items) p = Ok cells).
  { unfold property_value_as_u32_iter; rewrite Hvl, uadd_ok by (rewrite W64_val; lia); cbn [mbind res_bind].
    apply (u32_collect _ Hs r); [done|done|lia|unfold len in *; lia]. }
  rewrite Hit; cbn [mbind res_bind]; apply scan_cells_stated.
Qed.

(** ** A machine: 1 GiB of memory, the blob at 128 MiB, the timer on PPI 14 *)
Module BtDemo.
Definition bnames : list Z := concat (map (fun n => str n ++ [0]) ["#address-cells"; "#size-cells"; "reg"; "device_type"; "compatible"; "interrupts"]%string).
Definition mem_block : RegBlock := {| rb_addr := 0x40000; rb_len := Some 0x3ffc0000 |}.
Definition mem_body : list item := [IProp 31 (str "memory" ++ [0]); IProp 27 (concat (map (enc_reg 2 1) [mem_block]))].
Definition cells : list Z := [1; 13; 4; 1; 14; 4; 1; 11; 4].
Definition timer_body : list item := [IProp 43 (str "arm,armv8-timer" ++ [0]); IProp 54 (concat (map (to_be 4) cells))].
Definition root_body : list item := [IProp 0 (to_be 4 2); IProp 15 (to_be 4 1); INode (str "cpus") []; INode (str "memory@40000") mem_body; INode (str "timer") timer_body].
Definition board : list item := [INode [] root_body].

Lemma board_ok : Forall item_ok board.
Proof. repeat first [constructor|discriminate|vm_compute; discriminate]. Qed.

Definition syms : KernelSyms := {| eboottext_pa := 0x82000; text_pa := 0x82000; etext_pa := 0x200000; rodata_pa := 0x200000; erodata_pa := 0x400000;
  data_pa := 0x400000; edata_pa := 0x410000; bss_pa := 0x410000; ebss_pa := 0x600000 |}.
Definition board_root : Node := node_at 0 0 [] root_body.
Definition cpus : Node := node_at 40 1 (str "cpus") [].
Definition mem : Node := node_at 56 1 (str "memory@40000") mem_body.
Definition timer : Node := node_at 124 1 (str "timer") timer_body.
Definition mem_reg : Property := {| p_start := 96; p_name_start := 27; value_start := 108; value_len := 12; p_total_len := 24 |}.
Definition timer_ints : Property := {| p_start := 164; p_name_start := 54; value_start := 176; value_len := 36; p_total_len := 48 |}.

Lemma board_memory : memory_described 400 board bnames mem_block.
Proof.
  exists board_root, root_body, [[]], mem, mem_body, [[INode (str "timer") timer_body]; []], mem_reg, 27, 2%nat, 1%nat, [], [board_root; cpus], [timer].
  split_and!; [by apply m_root with []|right; left|reflexivity|vm_compute; reflexivity| |vm_compute; reflexivity| |vm_compute; reflexivity|vm_compute; reflexivity|right; left|].
  - repeat apply Forall_cons_2; [vm_compute; reflexivity..|constructor].
  - split; auto.
  - repeat constructor; vm_compute; intros [=].
Qed.

Lemma page_allocator_correct_witness : exists dt a a', new (blob (block board) bnames) = Val dt /\ PAGE_ALLOC = Ok a /\
  page_allocator 400 syms dt (KZERO + 0x8000000) a = Ok (a', Val tt) /\ page_bit PAGE_SIZE_4K a' 0x700 = false /\ page_bit PAGE_SIZE_4K a' 0x8000 = true.
Proof.
  destruct (blob_new (block board) bnames) as (dt & Hd & H1 & H2); [vm_compute; reflexivity|].
  assert (Hsz : size dt = 329) by (vm_compute in Hd; injection Hd as <-; reflexivity).
  destruct (page_allocator_correct 400 board dt bnames syms mem_block 0x8000000 board_ok) as (a & a' & Ha & Hp & _ & _ & Hj);
    [vm_compute; reflexivity|apply Nat.ltb_lt; vm_compute; reflexivity|exact H1|exact H2|exact board_memory|by exists 64|done|vm_compute; split; [reflexivity|discriminate]| |done|by rewrite Hsz|by rewrite Hsz|].
  { unfold syms_ok, section_ok; split_and!; try (vm_compute; discriminate); (apply Z.mod_divide; [discriminate|reflexivity]). }
  exists dt, a, a'; split; [exact Hd|]; split; [exact Ha|]; split; [exact Hp|]; rewrite Hsz in Hj; split.
  - apply Hj; [split; [discriminate|reflexivity]|]; split; [discriminate|]; split; [discriminate|].
    repeat (apply Forall_cons_2; [vm_compute; reflexivity|]); constructor.
  - apply not_false_is_true; intros Hf; apply Hj in Hf as (_ & _ & Hf); [|split; [discriminate|reflexivity]].
    apply Forall_cons in Hf as [Hf _]; vm_compute in Hf; discriminate.
Defined.

End BtDemo.
End Bt.
