(* ===== verification/QuickFit.v ===== *)
(** * The kernel heap ([port/src/allocator.rs])

    The bump allocator over an arena and the quick-fit allocator on top of it:
    nine lists of free blocks of the sizes 64 to 16384, and a list of larger
    blocks.  The headers of free blocks live in the free blocks themselves, so
    the memory is part of the state. *)

From S2P Require Import Prelude.

Module Qf.

(** ** Memory

    Bytes by address. *)
Definition Mem := Z -> Z.

Definition read (m : Mem) (p : Z) (n : nat) : list Z := map (fun i => m (p + i)) (seqZ 0 (Z.of_nat n)).
Definition write (m : Mem) (p : Z) (bs : list Z) : Mem :=
  fun x => if (p <=? x) && (x <? p + len bs) then default 0 (bs !! Z.to_nat (x - p)) else m x.

(** [NonNull::new]: an optional pointer is stored as its address, [None] as 0. *)
Definition nonnull (p : Z) : option Z := if p =? 0 then None else Some p.
Definition as_ptr (p : option Z) : Z := default 0 p.

(** [ptr.align_offset(align)] of a byte pointer. *)
Definition align_offset (p align : Z) : res Z :=
  if is_power_of_two align then Ok (- p mod align) else Panic.

(** ** Blocks and layouts *)

Record Block := { ptr : Z; blen : Z }.

Definition split_at_mut (b : Block) (offset : Z) : option (Block * Block) :=
  if blen b <? offset then None
  else Some ({| ptr := ptr b; blen := offset |},
             {| ptr := wrapping_add (ptr b) offset; blen := blen b - offset |}).

(** [core::alloc::Layout]. *)
Record Layout := { lsize : Z; lalign : Z }.

Definition from_size_align (size align : Z) : option Layout :=
  if is_power_of_two align && (size <=? 2 ^ 63 - align) then Some {| lsize := size; lalign := align |} else None.

(** ** The bump allocator *)

Record BumpAlloc := { arena : Block; cursor : Z }.

Definition bump_new (a : Block) : BumpAlloc := {| arena := a; cursor := 0 |}.

(** The prefix skipped for the alignment, and the block. *)
Definition try_alloc (b : BumpAlloc) (align size : Z) : res (option (Block * Block) * BumpAlloc) :=
  let current := cursor b in
  let first := wrapping_add (ptr (arena b)) current in
  adjust ← align_offset first align;
  offset ← unwrap (checked_add current adjust);
  next ← unwrap (checked_add offset size);
  if next <=? blen (arena b)
  then Ok (Some ({| ptr := first; blen := adjust |}, {| ptr := wrapping_add first adjust; blen := size |}),
           {| arena := arena b; cursor := next |})
  else Ok (None, b).

(** [<BumpAlloc as Allocator>::allocate]; [None] is [AllocError]. *)
Definition allocate (b : BumpAlloc) (l : Layout) : res (option Block * BumpAlloc) :=
  '(r, b') ← try_alloc b (lsize l) (lalign l);
  Ok (option_map snd r, b').

(** ** The quick-fit allocator *)

Definition ALLOC_UNIT_SHIFT : Z := 6.
Definition ALLOC_UNIT_SIZE : Z := Z.shiftl 1 ALLOC_UNIT_SHIFT.
Definition MIN_ALLOC_SIZE : Z := ALLOC_UNIT_SIZE.
Definition MAX_QUICK_SHIFT : Z := 14.
Definition MAX_QUICK_SIZE : Z := Z.shiftl 1 MAX_QUICK_SHIFT.
Definition NUM_QLISTS : Z := 14 - ALLOC_UNIT_SHIFT + 1.
Definition NUM_HASH_BUCKETS : Z := 31.

Record Header := { hnext : option Z; haddr : Z; hsize : Z; halign : Z }.

(** [Layout::new::<Header>()]: four words, aligned to 64. *)
Definition header_layout : Layout := {| lsize := 64; lalign := 64 |}.

(** A header in memory: four little-endian words; the padding up to 64 bytes is
    left alone. *)
Definition word (m : Mem) (p : Z) : Z := from_le (read m p 8).
Definition header (m : Mem) (p : Z) : Header :=
  {| hnext := nonnull (word m p); haddr := word m (p + 8); hsize := word m (p + 16); halign := word m (p + 24) |}.
Definition write_header (m : Mem) (p : Z) (h : Header) : Mem :=
  write m p (to_le 8 (as_ptr (hnext h)) ++ to_le 8 (haddr h) ++ to_le 8 (hsize h) ++ to_le 8 (halign h)).
Definition set_next (m : Mem) (p : Z) (n : option Z) : Mem := write m p (to_le 8 (as_ptr n)).

Record QuickFit := {
  mem : Mem;
  tail : BumpAlloc;
  qlists : list (option Z);
  misc : option Z;
  allocated_misc : list (option Z);
}.

Definition new (m : Mem) (t : BumpAlloc) : QuickFit :=
  {| mem := m; tail := t; qlists := replicate (Z.to_nat NUM_QLISTS) None; misc := None;
     allocated_misc := replicate (Z.to_nat NUM_HASH_BUCKETS) None |}.

Definition with_mem (q : QuickFit) (m : Mem) : QuickFit :=
  {| mem := m; tail := tail q; qlists := qlists q; misc := misc q; allocated_misc := allocated_misc q |}.
Definition with_tail (q : QuickFit) (t : BumpAlloc) : QuickFit :=
  {| mem := mem q; tail := t; qlists := qlists q; misc := misc q; allocated_misc := allocated_misc q |}.
Definition with_qlists (q : QuickFit) (l : list (option Z)) : QuickFit :=
  {| mem := mem q; tail := tail q; qlists := l; misc := misc q; allocated_misc := allocated_misc q |}.
Definition with_misc (q : QuickFit) (l : option Z) : QuickFit :=
  {| mem := mem q; tail := tail q; qlists := qlists q; misc := l; allocated_misc := allocated_misc q |}.
Definition with_allocated (q : QuickFit) (l : list (option Z)) : QuickFit :=
  {| mem := mem q; tail := tail q; qlists := qlists q; misc := misc q; allocated_misc := l |}.

Definition next_power_of_two (n : Z) : Z := 2 ^ Z.log2_up n.

Definition adjust (l : Layout) : Z * Z :=
  if MAX_QUICK_SIZE <? lsize l then (lsize l, lalign l)
  else let size := Z.max MIN_ALLOC_SIZE (next_power_of_two (lsize l)) in (size, Z.max (lalign l) size).

(** Murmur3's mixing. *)
Definition wrapping_mul (a b : Z) : Z := (a * b) mod W64.
Definition hash (p : Z) : Z :=
  let k := Z.lxor p (Z.shiftr p 33) in
  let k := wrapping_mul k 0xff51afd7ed558ccd in
  let k := Z.lxor k (Z.shiftr k 33) in
  let k := wrapping_mul k 0xc4ceb9fe1a85ec53 in
  Z.shiftr k 33 mod NUM_HASH_BUCKETS.

(** The loop of [unlink]: the matching node, the list head returned, the memory.
    When a later node matches, the [list] variable still points to it. *)
Fixpoint unlink (fuel : nat) (m : Mem) (prev list : option Z) (predicate : Header -> bool)
    : res (option Z * option Z * Mem) :=
  match fuel with
  | O => Timeout
  | S fuel' =>
    match list with
    | None => Ok (None, None, m)
    | Some node =>
      let h := header m node in
      if predicate h then
        let m1 := set_next m node None in
        match prev with
        | Some p => Ok (Some node, Some node, set_next m1 p (hnext h))
        | None => Ok (Some node, hnext h, m1)
        end
      else unlink fuel' m (Some node) (hnext h) predicate
    end
  end.

Definition head (fuel : nat) (m : Mem) (list : option Z) := unlink fuel m None list (fun _ => true).

Definition alloc_misc (fuel : nat) (q : QuickFit) (size align : Z) : res (option Z * QuickFit) :=
  '(node, list, m) ← unlink fuel (mem q) None (misc q) (fun h => (size <=? hsize h) && (align <=? halign h));
  let q1 := with_misc (with_mem q m) list in
  match node with
  | None => Ok (None, q1)
  | Some p =>
      let addr := haddr (header m p) in
      let k := hash addr in
      old ← aget (allocated_misc q1) k;
      l ← aset (allocated_misc q1) k (Some p);
      Ok (Some addr, with_allocated (with_mem q1 (set_next m p old)) l)
  end.

Definition alloc_quick (fuel : nat) (q : QuickFit) (size align : Z) : res (option Z * QuickFit) :=
  if (size <=? MAX_QUICK_SIZE) && (align =? size) then
    k ← usub (Z.log2 size) ALLOC_UNIT_SHIFT;
    l ← aget (qlists q) k;
    '(node, rest, m) ← head fuel (mem q) l;
    ql ← aset (qlists q) k rest;
    Ok (option_map (fun p => haddr (header m p)) node, with_qlists (with_mem q m) ql)
  else alloc_misc fuel q size align.

Definition align_prefix (prefix : Block) : res Block :=
  offset ← align_offset (ptr prefix) MIN_ALLOC_SIZE;
  _ ← assert (offset <=? blen prefix);
  Ok {| ptr := wrapping_add (ptr prefix) offset; blen := blen prefix - offset |}.

(** [malloc], with the [free] it reaches through the prefix as an argument. *)
Section malloc.
Context (free : Z -> Layout -> QuickFit -> res QuickFit).

Fixpoint try_free_classes (ks : list Z) (q : QuickFit) (prefix : Block) : res (option Block * QuickFit) :=
  match ks with
  | [] => Ok (None, q)
  | k :: ks' =>
      let size := Z.shiftl 1 (k + ALLOC_UNIT_SHIFT) in
      o ← (if size <=? blen prefix then align_offset (ptr prefix) size else Ok 1);
      if (size <=? blen prefix) && (o =? 0) then
        match split_at_mut prefix size with
        | None => Ok (None, q)
        | Some (_, rest) =>
            l ← unwrap (from_size_align size size);
            q1 ← free (ptr prefix) l q;
            Ok (if MIN_ALLOC_SIZE <=? blen rest then Some rest else None, q1)
        end
      else try_free_classes ks' q prefix
  end.

Definition try_free_prefix (q : QuickFit) (prefix : Block) : res (option Block * QuickFit) :=
  try_free_classes (reverse (seqZ 0 NUM_QLISTS)) q prefix.

Fixpoint free_prefix_loop (fuel : nat) (q : QuickFit) (prefix : Block) : res QuickFit :=
  match fuel with
  | O => Timeout
  | S fuel' =>
      '(rest, q1) ← try_free_prefix q prefix;
      match rest with None => Ok q1 | Some r => free_prefix_loop fuel' q1 r end
  end.

Definition free_prefix (fuel : nat) (q : QuickFit) (prefix : Block) : res QuickFit :=
  p ← align_prefix prefix; free_prefix_loop fuel q p.

(** The arguments are in the order of the code. *)
Definition alloc_tail (fuel : nat) (q : QuickFit) (size align : Z) : res (option Z * QuickFit) :=
  '(r, t) ← try_alloc (tail q) size align;
  let q1 := with_tail q t in
  match r with
  | None => Ok (None, q1)
  | Some (prefix, block) => q2 ← free_prefix fuel q1 prefix; Ok (Some (ptr block), q2)
  end.

Definition malloc_with (fuel : nat) (l : Layout) (q : QuickFit) : res (Z * QuickFit) :=
  let '(size, align) := adjust l in
  '(p, q1) ← alloc_quick fuel q size align;
  match p with
  | Some a => Ok (a, q1)
  | None => '(p, q2) ← alloc_tail fuel q1 size align; Ok (as_ptr p, q2)
  end.
End malloc.

Definition unlink_allocated_misc (fuel : nat) (q : QuickFit) (block : Z) : res (option Z * QuickFit) :=
  let k := hash block in
  l ← aget (allocated_misc q) k;
  '(node, rest, m) ← unlink fuel (mem q) None l (fun h => haddr h =? block);
  al ← aset (allocated_misc q) k rest;
  Ok (node, with_allocated (with_mem q m) al).

(** [hblock.is_null().then(..).expect(..)] panics when the header block could be
    allocated; otherwise the header is taken from the block. *)
Definition free_misc (malloc : Layout -> QuickFit -> res (Z * QuickFit)) (fuel : nat) (block size align : Z)
    (q : QuickFit) : res QuickFit :=
  '(node, q1) ← unlink_allocated_misc fuel q block;
  '(h, q2) ← match node with
    | Some h => Ok (h, q1)
    | None =>
        '(hblock, q2) ← malloc header_layout q1;
        if hblock =? 0 then
          offset ← align_offset block MIN_ALLOC_SIZE;
          let hblock := wrapping_add block offset in
          let next := wrapping_add hblock MIN_ALLOC_SIZE in
          used ← uadd offset MIN_ALLOC_SIZE;
          size' ← usub size used;
          let hdr := {| hnext := None; haddr := next; hsize := size'; halign := MIN_ALLOC_SIZE |} in
          h ← unwrap (nonnull hblock);
          Ok (h, with_mem q2 (write_header (mem q2) hblock hdr))
        else Panic
    end;
  Ok (with_misc (with_mem q2 (set_next (mem q2) h (misc q2))) (Some h)).

Fixpoint free (fuel : nat) (block : Z) (l : Layout) (q : QuickFit) : res QuickFit :=
  match fuel with
  | O => Timeout
  | S fuel' =>
    if block =? 0 then Ok q else
    let '(size, align) := adjust l in
    if (size <=? MAX_QUICK_SIZE) && (align =? size) then
      k ← usub (Z.log2 size) ALLOC_UNIT_SHIFT;
      next ← aget (qlists q) k;
      let hdr := {| hnext := next; haddr := block; hsize := size; halign := align |} in
      o ← align_offset block 64;
      _ ← assert (o =? 0);
      ql ← aset (qlists q) k (Some block);
      Ok (with_qlists (with_mem q (write_header (mem q) block hdr)) ql)
    else free_misc (malloc_with (free fuel') fuel') fuel' block size align q
  end.

Definition malloc (fuel : nat) : Layout -> QuickFit -> res (Z * QuickFit) := malloc_with (free fuel) fuel.

Definition realloc (fuel : nat) (block : Z) (l : Layout) (new_size : Z) (q : QuickFit) : res (Z * QuickFit) :=
  if block =? 0 then malloc fuel l q else
  new_layout ← unwrap (from_size_align new_size (lalign l));
  let '(size, align) := adjust new_layout in
  if (size =? lsize l) && (align =? lalign l) then Ok (block, q) else
  '(np, q1) ← malloc fuel new_layout q;
  if np =? 0 then Ok (np, q1) else
  let q2 := with_mem q1 (write (mem q1) np (read (mem q1) block (Z.to_nat (Z.min (lsize l) new_size)))) in
  q3 ← free fuel block l q2;
  Ok (np, q3).

(** ** The global allocator

    The pointer to the allocator is taken out for the time of a call; [None] is
    the null pointer. *)
Definition with_allocator {R} (in_interrupt : bool) (thunk : QuickFit -> res (R * QuickFit)) (g : option QuickFit)
    : res (R * option QuickFit) :=
  _ ← assert (negb in_interrupt);
  a ← unwrap g;
  '(r, a') ← thunk a;
  Ok (r, Some a').

Definition galloc (fuel : nat) (irq : bool) (l : Layout) := with_allocator irq (malloc fuel l).
Definition gdealloc (fuel : nat) (irq : bool) (p : Z) (l : Layout) :=
  with_allocator irq (fun q => q' ← free fuel p l q; Ok (tt, q')).
Definition grealloc (fuel : nat) (irq : bool) (p : Z) (l : Layout) (n : Z) := with_allocator irq (realloc fuel p l n).

(** The heap at boot: 4 MiB, page-aligned. *)
Definition GLOBAL_HEAP_SIZE : Z := 4 * 1024 * 1024.
Definition global (m : Mem) (heap : Z) : QuickFit :=
  new m (bump_new {| ptr := heap; blen := GLOBAL_HEAP_SIZE |}).


(** ** Memory lemmas *)

#[local] Arguments header : simpl never.

Lemma write_out m p bs x : x < p \/ p + len bs <= x -> write m p bs x = m x.
Proof. intros Hx; unfold write; by replace ((p <=? x) && (x <? p + len bs)) with false by lia. Qed.

Lemma read_ext m m' p n : (forall x, p <= x < p + Z.of_nat n -> m x = m' x) -> read m p n = read m' p n.
Proof.
  intros Hm; unfold read; apply map_ext_Forall, Forall_forall; intros i Hi%elem_of_seqZ; apply Hm; lia.
Qed.

Lemma length_read m p n : length (read m p n) = n.
Proof. unfold read; rewrite length_map, length_seqZ; lia. Qed.

Lemma lookup_read m p n (i : nat) : (i < n)%nat -> read m p n !! i = Some (m (p + Z.of_nat i)).
Proof.
  intros Hi; unfold read; rewrite list_lookup_fmap, lookup_seqZ_lt by lia; simpl; do 2 f_equal; lia.
Qed.

Lemma read_write m p l1 bs l2 n : n = length bs ->
  read (write m p (l1 ++ bs ++ l2)) (p + len l1) n = bs.
Proof.
  intros ->; apply list_eq_same_length with (length bs); [done|apply length_read|].
  intros i x y Hi Hx Hy; rewrite lookup_read in Hx by done; injection Hx as <-; unfold write.
  unfold len; rewrite !length_app.
  rewrite (proj2 (Z.leb_le _ _)), (proj2 (Z.ltb_lt _ _)) by lia; simpl.
  replace (Z.to_nat _) with (length l1 + i)%nat by lia.
  by rewrite lookup_app_r, Nat.add_comm, Nat.add_sub, lookup_app_l, Hy by lia.
Qed.

Definition ptr_ok (p : option Z) : Prop := match p with None => True | Some a => 0 < a < W64 end.

Lemma nonnull_as_ptr p : ptr_ok p -> nonnull (as_ptr p) = p.
Proof. unfold nonnull; destruct p as [a|]; simpl; intros; [|done]; by rewrite (proj2 (Z.eqb_neq a 0)) by lia. Qed.

Lemma as_ptr_u64 p : ptr_ok p -> is_u64 (as_ptr p).
Proof. destruct p; simpl; rewrite W64_val; unfold is_u; lia. Qed.

Lemma from_to_le8 z : is_u64 z -> from_le (to_le 8 z) = z.
Proof. intros; by apply from_to_le. Qed.

Lemma len_to_le z : len (to_le 8 z) = 8.
Proof. reflexivity. Qed.

Lemma header_ext m m' p : (forall x, p <= x < p + 32 -> m x = m' x) -> header m p = header m' p.
Proof.
  intros Hm; unfold header, word.
  rewrite (read_ext m m' p), (read_ext m m' (p + 8)), (read_ext m m' (p + 16)), (read_ext m m' (p + 24)); [done|..];
    intros x Hx; apply Hm; lia.
Qed.

Lemma header_write m p h : ptr_ok (hnext h) -> is_u64 (haddr h) -> is_u64 (hsize h) -> is_u64 (halign h) ->
  header (write_header m p h) p = h.
Proof.
  intros Hn Ha Hs Hl; unfold header, word, write_header.
  set (w0 := to_le 8 (as_ptr (hnext h))); set (w1 := to_le 8 (haddr h)); set (w2 := to_le 8 (hsize h)); set (w3 := to_le 8 (halign h)).
  pose proof (read_write m p [] w0 (w1 ++ w2 ++ w3) 8 eq_refl) as H0.
  pose proof (read_write m p w0 w1 (w2 ++ w3) 8 eq_refl) as H1.
  pose proof (read_write m p (w0 ++ w1) w2 w3 8 eq_refl) as H2.
  pose proof (read_write m p (w0 ++ w1 ++ w2) w3 [] 8 eq_refl) as H3.
  rewrite <- !(assoc_L (++)) in H2; rewrite <- !(assoc_L (++)), app_nil_r in H3.
  change (len []) with 0 in H0; rewrite Z.add_0_r in H0; change (len w0) with 8 in H1.
  change (len (w0 ++ w1)) with 16 in H2; change (len (w0 ++ w1 ++ w2)) with 24 in H3.
  cbn [app] in H0; rewrite H0, H1, H2, H3; unfold w0, w1, w2, w3.
  rewrite !from_to_le8, nonnull_as_ptr by auto using as_ptr_u64; by destruct h.
Qed.

Lemma write_header_out m p h x : x < p \/ p + 32 <= x -> write_header m p h x = m x.
Proof. intros; unfold write_header; by apply write_out. Qed.

Lemma set_next_out m p n x : x < p \/ p + 8 <= x -> set_next m p n x = m x.
Proof. intros; unfold set_next; apply write_out; by rewrite len_to_le. Qed.

(** [set_next] keeps the other fields of the header. *)
Lemma set_next_addr m p n : haddr (header (set_next m p n) p) = haddr (header m p).
Proof. unfold header; cbn; unfold word; f_equal; apply read_ext; intros; apply set_next_out; lia. Qed.

(** ** Tiles

    A block is an address and a class; class [k] has the size [2 ^ (6 + k)].
    [tiles a t e]: the blocks of [t], each aligned to its size, follow each other
    from [a] to [e] without a gap. *)
Definition bsize (k : Z) : Z := 2 ^ (6 + k).
#[local] Arguments bsize : simpl never.

Definition class (k : Z) : Prop := 0 <= k < NUM_QLISTS.

Fixpoint tiles (a : Z) (t : list (Z * Z)) (e : Z) : Prop :=
  match t with
  | [] => a = e
  | (b, k) :: t' => b = a /\ class k /\ (bsize k | a) /\ tiles (a + bsize k) t' e
  end.

Definition apart (x y : Z * Z) : Prop := x.1 + bsize x.2 <= y.1 \/ y.1 + bsize y.2 <= x.1.

Lemma class_cases k : class k -> k = 0 \/ k = 1 \/ k = 2 \/ k = 3 \/ k = 4 \/ k = 5 \/ k = 6 \/ k = 7 \/ k = 8.
Proof. unfold class, NUM_QLISTS, ALLOC_UNIT_SHIFT; lia. Qed.

Lemma bsize_facts k : class k -> 64 <= bsize k <= 16384 /\ (64 | bsize k) /\ is_power_of_two (bsize k) = true.
Proof.
  intros Hk; split_and!; [| |exists (2 ^ k); unfold bsize, class, NUM_QLISTS in *; rewrite Z.pow_add_r; lia|];
    by apply class_cases in Hk; destruct_or! Hk; subst k.
Qed.

Lemma tiles_app a t1 t2 e : tiles a (t1 ++ t2) e <-> exists c, tiles a t1 c /\ tiles c t2 e.
Proof.
  revert a; induction t1 as [|[b k] t1 IH]; intros a; simpl; [naive_solver|].
  rewrite IH; naive_solver.
Qed.

Lemma tiles_le a t e : tiles a t e -> a <= e.
Proof.
  revert a; induction t as [|[b k] t IH]; simpl; intros a; [lia|]; intros (-> & Hk & _ & Ht).
  apply IH in Ht; apply bsize_facts in Hk; lia.
Qed.

Lemma tiles_in a t e b k : tiles a t e -> (b, k) ∈ t -> a <= b /\ b + bsize k <= e /\ class k /\ (bsize k | b).
Proof.
  revert a; induction t as [|[b' k'] t IH]; intros a; simpl; [by intros _ ?%elem_of_nil|].
  intros (-> & Hk & Hd & Ht) Hin; apply elem_of_cons in Hin as [[= -> ->]|Hin].
  - apply tiles_le in Ht; split_and!; auto; lia.
  - destruct (IH _ Ht Hin) as (? & ? & ? & ?); split_and!; auto; apply bsize_facts in Hk; lia.
Qed.

Lemma tiles_apart a t e : tiles a t e -> NoDup t /\ forall x y, x ∈ t -> y ∈ t -> x <> y -> apart x y.
Proof.
  revert a; induction t as [|[b k] t IH]; intros a; simpl.
  - intros _; split; [constructor|]; by intros x y ?%elem_of_nil.
  - intros (-> & Hk & Hd & Ht); destruct (IH _ Ht) as [Hnd Hap].
    assert (Hlow : forall y, y ∈ t -> a + bsize k <= y.1) by (intros [b' k'] Hy; destruct (tiles_in _ _ _ _ _ Ht Hy) as [? _]; done).
    split.
    + constructor; [|done]; intros Hin; specialize (Hlow _ Hin); simpl in Hlow; apply bsize_facts in Hk; lia.
    + intros x y [->|Hx]%elem_of_cons [->|Hy]%elem_of_cons Hne; auto; [done|left|right]; simpl; auto.
Qed.

(** ** Free lists *)

(** The list at [h] in memory holds the free blocks of [l]. *)
Fixpoint chain (m : Mem) (h : option Z) (l : list Z) : Prop :=
  match l with
  | [] => h = None
  | a :: l' => h = Some a /\ haddr (header m a) = a /\ chain m (hnext (header m a)) l'
  end.

Lemma chain_ext m m' h l : (forall a x, a ∈ l -> a <= x < a + 32 -> m x = m' x) -> chain m h l -> chain m' h l.
Proof.
  revert h; induction l as [|a l IH]; intros h Hm; [done|]; cbn [chain]; intros (-> & Ha & Hc).
  rewrite (header_ext m m' a) in Ha, Hc by (intros x Hx; apply (Hm a); [left|done]).
  split_and!; auto; apply IH; [|done]; intros a' x Ha'; apply Hm; by right.
Qed.

Lemma chain_ptr m h l : (forall a, a ∈ l -> 0 < a < W64) -> chain m h l -> ptr_ok h.
Proof. destruct l as [|a l]; cbn [chain]; [by intros _ ->|]; intros Ha (-> & _); apply Ha; left. Qed.

(** The addresses of class [k] among blocks. *)
Definition of_class (k : Z) (l : list (Z * Z)) : list Z := map fst (filter (fun b => b.2 = k) l).

Lemma elem_of_class k l a : a ∈ of_class k l <-> (a, k) ∈ l.
Proof.
  unfold of_class; rewrite list_elem_of_fmap; split.
  - intros ([a' k'] & -> & Hin%list_elem_of_filter); simpl in *; by destruct Hin as [-> Hin].
  - intros Hin; exists (a, k); split; [done|]; by apply list_elem_of_filter.
Qed.

Lemma of_class_cons k k' a l : of_class k ((a, k') :: l) = if decide (k' = k) then a :: of_class k l else of_class k l.
Proof. unfold of_class; rewrite filter_cons; simpl; by case_decide. Qed.

Lemma of_class_app k l1 l2 : of_class k (l1 ++ l2) = of_class k l1 ++ of_class k l2.
Proof. unfold of_class; by rewrite filter_app, map_app. Qed.

(** The first block of a class, taken out. *)
Lemma of_class_split k l a r : of_class k l = a :: r -> exists l1 l2, l = l1 ++ (a, k) :: l2 /\ of_class k l1 = [] /\ of_class k l2 = r.
Proof.
  induction l as [|[b k'] l IH]; [done|]; rewrite of_class_cons; case_decide as Hk.
  - intros [= -> Hr]; subst k'; by exists [], l.
  - intros (l1 & l2 & -> & H1 & H2)%IH; exists ((b, k') :: l1), l2; split_and!; auto.
    by rewrite of_class_cons, decide_False.
Qed.

(** ** The quick lists *)

Record lists_ok (q : QuickFit) (fr : list (Z * Z)) : Prop := {
  l_len : len (qlists q) = NUM_QLISTS;
  l_chain : forall k, class k -> chain (mem q) (mjoin (qlists q !! Z.to_nat k)) (of_class k fr);
  l_ptr : forall a k, (a, k) ∈ fr -> 0 < a < W64;
}.

Lemma align_offset_ok p al : is_power_of_two al = true -> align_offset p al = Ok (- p mod al).
Proof. intros H; unfold align_offset; by rewrite H. Qed.

Lemma align_offset_0 p al : 0 < al -> (- p mod al = 0) <-> (al | p).
Proof.
  intros Hal; rewrite Z.mod_divide by lia; split; intros [z Hz]; exists (- z); lia.
Qed.

Lemma log2_bsize k : class k -> Z.log2 (bsize k) = 6 + k.
Proof. unfold class; intros; unfold bsize; apply Z.log2_pow2; lia. Qed.

Lemma quick_guard k : class k -> (bsize k <=? MAX_QUICK_SIZE) && (bsize k =? bsize k) = true.
Proof. intros Hk%bsize_facts; unfold MAX_QUICK_SIZE, MAX_QUICK_SHIFT; change (Z.shiftl 1 14) with 16384; lia. Qed.

Lemma class_index q fr k : lists_ok q fr -> class k -> exists h, qlists q !! Z.to_nat k = Some h /\ aget (qlists q) k = Ok h /\ 0 <= k < len (qlists q).
Proof.
  intros [Hl _ _] Hk; unfold class in Hk; destruct (aget_lt (qlists q) k) as (h & Hg & Hh); [lia|].
  exists h; split_and!; auto; lia.
Qed.

Lemma bsize_u64 k : class k -> is_u64 (bsize k).
Proof. intros Hk%bsize_facts; rewrite W64_val; unfold is_u; lia. Qed.

(** [free] on a block of a quick class. *)
Lemma free_quick fuel q fr a k l : lists_ok q fr -> class k -> adjust l = (bsize k, bsize k) ->
  0 < a < W64 -> (64 | a) -> (forall b k', (b, k') ∈ fr -> b + 32 <= a \/ a + 32 <= b) ->
  exists q', free (S fuel) a l q = Ok q' /\ lists_ok q' ((a, k) :: fr) /\ tail q' = tail q /\
    forall x, x < a \/ a + 32 <= x -> mem q' x = mem q x.
Proof.
  intros Hq Hk Hl Ha Hal Hfr; destruct (class_index q fr k Hq Hk) as (h & Hh & Hg & Hlen).
  assert (Hp : ptr_ok h).
  { apply (chain_ptr (mem q) h (of_class k fr)); [intros b Hb%elem_of_class; by apply (l_ptr q fr Hq b k)|].
    pose proof (l_chain q fr Hq k Hk) as Hc; by rewrite Hh in Hc. }
  cbn [free]; rewrite (proj2 (Z.eqb_neq a 0)) by lia; rewrite Hl, (quick_guard k Hk), (log2_bsize k Hk).
  rewrite bind_usub by (unfold class, ALLOC_UNIT_SHIFT in *; lia).
  replace (6 + k - ALLOC_UNIT_SHIFT) with k by (unfold ALLOC_UNIT_SHIFT; lia).
  rewrite Hg; cbn [mbind res_bind]; rewrite (align_offset_ok a 64 eq_refl); cbn [mbind res_bind].
  rewrite (proj2 (align_offset_0 a 64 ltac:(lia)) Hal); cbn [assert Z.eqb mbind res_bind].
  rewrite (aset_lt _ _ _ Hlen); cbn [mbind res_bind].
  set (hdr := {| hnext := h; haddr := a; hsize := bsize k; halign := bsize k |}).
  assert (Hw : header (write_header (mem q) a hdr) a = hdr)
    by (apply header_write; [done|unfold is_u; simpl; lia|by apply bsize_u64..]).
  eexists; split; [reflexivity|]; split_and!; [|done|cbn; intros x Hx; by apply write_header_out].
  split; cbn [mem qlists with_qlists with_mem].
  - by rewrite len_insert, (l_len q fr Hq).
  - intros k' Hk'; rewrite of_class_cons; case_decide as Hkk.
    + subst k'; rewrite list_lookup_insert_eq by (unfold len in Hlen; lia); cbn [mjoin chain]; rewrite Hw; split_and!; auto.
      apply (chain_ext (mem q)); [|pose proof (l_chain q fr Hq k Hk) as Hc; by rewrite Hh in Hc].
      intros b x Hb%elem_of_class Hx; symmetry; apply write_header_out; destruct (Hfr _ _ Hb); lia.
    + rewrite list_lookup_insert_ne by (unfold class in *; lia); apply (chain_ext (mem q)); [|by apply (l_chain q fr Hq)].
      intros b x Hb%elem_of_class Hx; symmetry; apply write_header_out; destruct (Hfr _ _ Hb); lia.
  - intros b k' [[= -> ->]|Hb]%elem_of_cons; [done|by apply (l_ptr q fr Hq b k')].
Qed.

(** [alloc_quick] on a quick class: the first block of its list, or nothing. *)
Lemma alloc_quick_none fuel q fr k : lists_ok q fr -> class k -> of_class k fr = [] ->
  alloc_quick (S fuel) q (bsize k) (bsize k) = Ok (None, q).
Proof.
  intros Hq Hk Hno; destruct (class_index q fr k Hq Hk) as (h & Hh & Hg & Hlen).
  pose proof (l_chain q fr Hq k Hk) as Hc; rewrite Hno, Hh in Hc; cbn in Hc; subst h.
  unfold alloc_quick; rewrite (quick_guard k Hk), (log2_bsize k Hk).
  rewrite bind_usub by (unfold class, ALLOC_UNIT_SHIFT in *; lia).
  replace (6 + k - ALLOC_UNIT_SHIFT) with k by (unfold ALLOC_UNIT_SHIFT; lia).
  rewrite Hg; cbn [mbind res_bind head unlink]; rewrite (aset_lt _ _ _ Hlen), list_insert_id by done; by destruct q.
Qed.

Lemma alloc_quick_some fuel q fr k a r : lists_ok q fr -> class k -> of_class k fr = a :: r ->
  (forall b k', (b, k') ∈ fr -> (b, k') <> (a, k) -> b + 32 <= a \/ a + 32 <= b) -> NoDup fr ->
  exists q' fr', alloc_quick (S fuel) q (bsize k) (bsize k) = Ok (Some a, q') /\ lists_ok q' fr' /\
    fr ≡ₚ (a, k) :: fr' /\ tail q' = tail q /\ forall x, x < a \/ a + 32 <= x -> mem q' x = mem q x.
Proof.
  intros Hq Hk Hsome Hfr Hnd; destruct (class_index q fr k Hq Hk) as (h & Hh & Hg & Hlen).
  pose proof (l_chain q fr Hq k Hk) as Hc; rewrite Hsome, Hh in Hc; cbn [mjoin chain] in Hc.
  destruct Hc as (Hha & Hadr & Hc); cbn in Hha; subst h; destruct (of_class_split k fr a r Hsome) as (l1 & l2 & Hfe & H1 & H2).
  unfold alloc_quick; rewrite (quick_guard k Hk), (log2_bsize k Hk).
  rewrite bind_usub by (unfold class, ALLOC_UNIT_SHIFT in *; lia).
  replace (6 + k - ALLOC_UNIT_SHIFT) with k by (unfold ALLOC_UNIT_SHIFT; lia).
  rewrite Hg; cbn [mbind res_bind head unlink]; rewrite (aset_lt _ _ _ Hlen); cbn [mbind res_bind option_map].
  rewrite set_next_addr, Hadr; eexists _, (l1 ++ l2); split; [reflexivity|].
  assert (Hperm : fr ≡ₚ (a, k) :: l1 ++ l2) by (rewrite Hfe; symmetry; apply Permutation_middle).
  assert (Hin : forall b k', (b, k') ∈ l1 ++ l2 -> (b, k') ∈ fr /\ (b, k') <> (a, k)).
  { intros b k' Hb; rewrite Hperm; split; [by right|]; intros [= -> ->].
    rewrite Hperm in Hnd; by apply NoDup_cons in Hnd as [Hno _]. }
  split_and!; [|done|done|cbn; intros x Hx; apply set_next_out; lia].
  split; cbn [mem qlists with_qlists with_mem].
  - by rewrite len_insert, (l_len q fr Hq).
  - intros k' Hk'; destruct (decide (k' = k)) as [->|Hne].
    + rewrite list_lookup_insert_eq by (unfold len in Hlen; lia); rewrite of_class_app, H1, H2; cbn [mjoin app].
      apply (chain_ext (mem q)); [|done]; intros b x Hb Hx; symmetry; apply set_next_out.
      destruct (Hin b k) as [Hb' Hn]; [apply elem_of_app; right; apply elem_of_class; by rewrite H2|].
      destruct (Hfr b k Hb' Hn); lia.
    + rewrite list_lookup_insert_ne by (unfold class in *; lia).
      replace (of_class k' (l1 ++ l2)) with (of_class k' fr)
        by (rewrite Hfe, !of_class_app, of_class_cons, decide_False by done; done).
      apply (chain_ext (mem q)); [|by apply (l_chain q fr Hq)].
      intros b x Hb%elem_of_class Hx; symmetry; apply set_next_out.
      destruct (Hfr b k' Hb) as [|]; [congruence|lia..].
  - intros b k' Hb; apply (l_ptr q fr Hq b k'); by apply Hin.
Qed.

(** ** The arena

    [heap_at q live fr mid]: the live blocks and the free blocks tile the arena
    from its start to [mid]; at rest, [mid] is the cursor. *)
Definition base (q : QuickFit) : Z := ptr (arena (tail q)).
Definition top (q : QuickFit) : Z := base q + cursor (tail q).

Definition arena_ok (a : Block) : Prop := 0 < ptr a /\ (64 | ptr a) /\ 0 <= blen a < 2 ^ 63 /\ ptr a + blen a < W64.

Record heap_at (q : QuickFit) (live fr : list (Z * Z)) (mid : Z) : Prop := {
  h_arena : arena_ok (arena (tail q));
  h_cursor : mid <= top q /\ cursor (tail q) <= blen (arena (tail q));
  h_lists : lists_ok q fr;
  h_tiles : exists t, tiles (base q) t mid /\ live ++ fr ≡ₚ t;
}.

Definition heap_ok (q : QuickFit) (live fr : list (Z * Z)) : Prop := heap_at q live fr (top q).

Section heap.
Context (q : QuickFit) (live fr : list (Z * Z)) (mid : Z) (Hq : heap_at q live fr mid).

Lemma block_bounds a k : (a, k) ∈ live ++ fr ->
  base q <= a /\ a + bsize k <= mid /\ class k /\ (bsize k | a) /\ (64 | a) /\ 0 < a < W64 /\ 64 <= bsize k.
Proof.
  destruct (h_tiles _ _ _ _ Hq) as (t & Ht & Hp); destruct (h_arena _ _ _ _ Hq) as (Ha1 & Ha2 & Ha3 & Ha4).
  destruct (h_cursor _ _ _ _ Hq); rewrite Hp; intros Hin; destruct (tiles_in _ _ _ _ _ Ht Hin) as (? & ? & Hk & Hd).
  pose proof (bsize_facts k Hk) as (? & H64 & _); unfold top, base in *.
  split_and!; auto; [by apply (Z.divide_trans _ (bsize k))|lia..].
Qed.

Lemma blocks_apart x y : x ∈ live ++ fr -> y ∈ live ++ fr -> x <> y -> apart x y.
Proof.
  destruct (h_tiles _ _ _ _ Hq) as (t & Ht & Hp); rewrite Hp; by apply (tiles_apart _ _ _ Ht).
Qed.

Lemma blocks_nodup : NoDup (live ++ fr).
Proof. destruct (h_tiles _ _ _ _ Hq) as (t & Ht & Hp); rewrite Hp; by apply (tiles_apart _ _ _ Ht). Qed.

Lemma mid_aligned : (64 | mid).
Proof.
  destruct (h_tiles _ _ _ _ Hq) as (t & Ht & _); destruct (h_arena _ _ _ _ Hq) as (_ & Hb & _).
  fold (base q) in Hb; revert Ht Hb; generalize (base q) as a; induction t as [|[b k] t IH]; simpl; intros a.
  - by intros ->.
  - intros (-> & Hk & _ & Ht) Ha; apply (IH _ Ht), Z.divide_add_r; [done|by apply bsize_facts].
Qed.

Lemma mid_pos : 0 < mid < W64.
Proof.
  destruct (h_tiles _ _ _ _ Hq) as (t & Ht & _); destruct (h_arena _ _ _ _ Hq) as (Ha1 & Ha2 & Ha3 & Ha4).
  destruct (h_cursor _ _ _ _ Hq); apply tiles_le in Ht; unfold top, base in *; lia.
Qed.

(** A piece at [mid], aligned to its size, is freed. *)
Lemma free_piece fuel k l : class k -> adjust l = (bsize k, bsize k) -> (bsize k | mid) -> mid + bsize k <= top q ->
  exists q', free (S fuel) mid l q = Ok q' /\ heap_at q' live ((mid, k) :: fr) (mid + bsize k) /\ tail q' = tail q /\
    forall x, x < mid \/ mid + bsize k <= x -> mem q' x = mem q x.
Proof.
  intros Hk Hl Hd Htop; pose proof (bsize_facts k Hk) as (Hb & _).
  destruct (free_quick fuel q fr mid k l) as (q' & Hf & Hq' & Ht & Hm); auto using mid_pos, mid_aligned.
  { apply Hq. }
  { intros b k' Hin; left; destruct (block_bounds b k') as (_ & ? & _ & _ & _ & _ & ?); [apply elem_of_app; by right|lia]. }
  exists q'; split_and!; auto; [|intros x Hx; apply Hm; lia].
  destruct Hq as [Ha Hc Hls (t & Ht' & Hp)]; split; unfold top, base in *; rewrite ?Ht; auto; [lia|].
  exists (t ++ [(mid, k)]); split.
  - apply tiles_app; exists mid; simpl; auto.
  - rewrite <- Hp, <- (assoc_L (++)); apply Permutation_app_head, Permutation_cons_append.
Qed.
End heap.

Lemma adjust_bsize k : class k -> adjust {| lsize := bsize k; lalign := bsize k |} = (bsize k, bsize k) /\
  from_size_align (bsize k) (bsize k) = Some {| lsize := bsize k; lalign := bsize k |}.
Proof. intros Hk%class_cases; by destruct_or! Hk; subst k. Qed.

(** The largest class that fits at [mid]. *)
Lemma try_free_ok fuel q live fr mid n ks : heap_at q live fr mid -> Forall class ks -> 0 ∈ ks -> 64 <= n -> mid + n <= top q ->
  exists k q', class k /\ bsize k <= n /\ try_free_classes (free (S fuel)) ks q {| ptr := mid; blen := n |} =
      Ok (if MIN_ALLOC_SIZE <=? n - bsize k then Some {| ptr := mid + bsize k; blen := n - bsize k |} else None, q') /\
    heap_at q' live ((mid, k) :: fr) (mid + bsize k) /\ tail q' = tail q /\
    forall x, x < mid \/ mid + bsize k <= x -> mem q' x = mem q x.
Proof.
  intros Hq Hks; pose proof (mid_pos _ _ _ _ Hq) as Hpos; destruct (h_arena _ _ _ _ Hq) as (Ha1 & Ha2 & Ha3 & Ha4).
  destruct (h_cursor _ _ _ _ Hq) as [_ Hcur].
  induction Hks as [|k ks Hk Hks IH]; intros H0 Hn Htop; [by apply elem_of_nil in H0|].
  cbn [try_free_classes]; cbn [ptr blen].
  assert (Hsz : Z.shiftl 1 (k + ALLOC_UNIT_SHIFT) = bsize k)
    by (unfold ALLOC_UNIT_SHIFT, bsize, class in *; rewrite shiftl_1 by lia; f_equal; lia).
  rewrite Hsz; pose proof (bsize_facts k Hk) as (Hb & _ & Hp2).
  destruct (decide (bsize k <= n /\ (bsize k | mid))) as [[Hle Hd]|Hno].
  - rewrite (proj2 (Z.leb_le _ _) Hle), (align_offset_ok _ _ Hp2); cbn [mbind res_bind].
    rewrite (proj2 (align_offset_0 mid (bsize k) ltac:(lia)) Hd), Z.eqb_refl; cbn [andb split_at_mut].
    unfold split_at_mut; cbn [ptr blen]; rewrite (proj2 (Z.ltb_ge _ _)) by lia.
    destruct (adjust_bsize k Hk) as [Hadj ->]; cbn [unwrap mbind res_bind].
    destruct (free_piece q live fr mid Hq fuel k _ Hk Hadj Hd ltac:(lia)) as (q' & -> & Hq' & Ht & Hm).
    exists k, q'; split_and!; auto; cbn [mbind res_bind blen ptr]; unfold wrapping_add.
    rewrite Z.mod_small by (unfold top, base in *; lia); done.
  - replace (mbind _ _) with (try_free_classes (free (S fuel)) ks q {| ptr := mid; blen := n |}).
    + apply elem_of_cons in H0 as [<-|H0]; [|by apply IH].
      destruct Hno; split; [exact Hn|exact (mid_aligned _ _ _ _ Hq)].
    + destruct (Z.leb_spec (bsize k) n) as [Hle|Hgt]; [|done].
      rewrite (align_offset_ok _ _ Hp2); cbn [mbind res_bind andb].
      destruct (Z.eqb_spec (- mid mod bsize k) 0) as [Hz|]; [|done].
      destruct Hno; split; [done|]; by apply align_offset_0 in Hz; [|lia].
Qed.

Lemma quick_classes : Forall class (reverse (seqZ 0 NUM_QLISTS)) /\ 0 ∈ reverse (seqZ 0 NUM_QLISTS).
Proof.
  split; [|rewrite elem_of_reverse; apply elem_of_seqZ; unfold NUM_QLISTS, ALLOC_UNIT_SHIFT; lia].
  apply Forall_forall; intros k; rewrite elem_of_reverse, elem_of_seqZ; unfold class; lia.
Qed.

(** Nothing is freed of an empty rest. *)
Lemma try_free_empty fr_ q mid : try_free_prefix fr_ q {| ptr := mid; blen := 0 |} = Ok (None, q).
Proof.
  unfold try_free_prefix; destruct quick_classes as [Hks _]; induction Hks as [|k ks Hk _ IH]; [done|].
  cbn [try_free_classes blen]; replace (Z.shiftl 1 (k + ALLOC_UNIT_SHIFT) <=? 0) with false; [done|].
  unfold class, ALLOC_UNIT_SHIFT in *; rewrite shiftl_1 by lia; symmetry; apply Z.leb_gt; lia.
Qed.

(** The prefix is freed completely: it ends up in free blocks. *)
Lemma free_prefix_loop_ok fuel q live fr mid n f0 : heap_at q live fr mid -> (64 | n) -> 0 <= n -> mid + n <= top q ->
  (Z.to_nat (n / 64) < fuel)%nat ->
  exists q' fr', free_prefix_loop (free (S f0)) fuel q {| ptr := mid; blen := n |} = Ok q' /\
    heap_at q' live fr' (mid + n) /\ tail q' = tail q /\ forall x, x < mid \/ mid + n <= x -> mem q' x = mem q x.
Proof.
  revert q fr mid n; induction fuel as [|fuel IH]; intros q fr mid n Hq Hdn H0 Htop Hfuel; [lia|].
  destruct (decide (n = 0)) as [->|Hn0].
  { cbn [free_prefix_loop]; rewrite try_free_empty; exists q, fr; rewrite Z.add_0_r; split_and!; auto. }
  destruct Hdn as [c Hc]; destruct quick_classes as [Hks Hz].
  destruct (try_free_ok f0 q live fr mid n _ Hq Hks Hz ltac:(lia) Htop) as (k & q1 & Hk & Hkn & Hf & Hq1 & Ht1 & Hm1).
  destruct (bsize_facts k Hk) as (Hb & [d Hd] & _); cbn [free_prefix_loop]; unfold try_free_prefix; rewrite Hf; cbn [mbind res_bind].
  change MIN_ALLOC_SIZE with 64; destruct (Z.leb_spec 64 (n - bsize k)) as [Hge|Hlt].
  - destruct (IH q1 ((mid, k) :: fr) (mid + bsize k) (n - bsize k)) as (q' & fr' & Hl & Hq' & Ht' & Hm'); auto.
    + exists (c - d); lia.
    + lia.
    + unfold top, base in *; rewrite Ht1; lia.
    + rewrite Hc, Z.div_mul in Hfuel by lia; rewrite Hd, Hc, <- Z.mul_sub_distr_r, Z.div_mul by lia; lia.
    + exists q', fr'; replace (mid + n) with (mid + bsize k + (n - bsize k)) by lia; split_and!; auto; [congruence|].
      intros x Hx; rewrite Hm' by lia; apply Hm1; lia.
  - assert (n = bsize k) as -> by lia; by exists q1, ((mid, k) :: fr).
Qed.

(** ** Quick requests

    Requests that the quick lists serve: up to 16384 bytes, and an alignment not
    above the rounded size. *)
Definition small (l : Layout) : Prop :=
  0 <= lsize l <= MAX_QUICK_SIZE /\ is_power_of_two (lalign l) = true /\ lalign l <= (adjust l).1.

Definition kclass (l : Layout) : Z := Z.log2 (adjust l).1 - 6.

Lemma small_class l : small l -> class (kclass l) /\ adjust l = (bsize (kclass l), bsize (kclass l)) /\
  lsize l <= bsize (kclass l) /\ (lalign l | bsize (kclass l)).
Proof.
  intros (Hs & Hp & Ha); unfold kclass, adjust in *; change MAX_QUICK_SIZE with (2 ^ 14) in *; change MIN_ALLOC_SIZE with (2 ^ 6) in *.
  rewrite (proj2 (Z.ltb_ge _ _)) in Ha |- * by lia; cbn [fst] in *; unfold next_power_of_two in *.
  pose proof (Z.log2_up_nonneg (lsize l)) as Hu0.
  assert (Hu : Z.log2_up (lsize l) <= 14) by (change 14 with (Z.log2_up (2 ^ 14)); apply Z.log2_up_le_mono; lia).
  assert (Hle : lsize l <= 2 ^ Z.log2_up (lsize l)).
  { destruct (decide (1 < lsize l)); [by apply Z.log2_up_spec|]; pose proof (Z.pow_pos_nonneg 2 (Z.log2_up (lsize l))); lia. }
  set (e := Z.max 6 (Z.log2_up (lsize l))) in *.
  assert (He : Z.max (2 ^ 6) (2 ^ Z.log2_up (lsize l)) = 2 ^ e).
  { unfold e; destruct (Z.max_spec 6 (Z.log2_up (lsize l))) as [[Hlt ->]|[Hlt ->]]; [apply Z.max_r|apply Z.max_l]; apply Z.pow_le_mono_r; lia. }
  rewrite He in *; rewrite (Z.max_r (lalign l)), Z.log2_pow2 by lia; unfold bsize, class.
  replace (6 + (e - 6)) with e by lia; split_and!; [lia|change NUM_QLISTS with 9; lia|done|lia|].
  apply is_power_of_two_spec in Hp as (j & Hj & Hp); rewrite Hp in *; apply Z.pow_le_mono_r_iff in Ha; [|lia..].
  exists (2 ^ (e - j)); rewrite <- Z.pow_add_r by lia; f_equal; lia.
Qed.

Definition inside (b : Z * Z) (x : Z) : Prop := b.1 <= x < b.1 + bsize b.2.

(** The bytes of the live blocks are as they were. *)
Definition keeps (live : list (Z * Z)) (m m' : Mem) : Prop := forall b x, b ∈ live -> inside b x -> m' x = m x.

Lemma checked_add_ok a b : a + b < W64 -> checked_add a b = Some (a + b).
Proof. intros; by apply checked_add_Some. Qed.

(** A tail allocation for a quick class. *)
Lemma alloc_tail_ok fuel q live fr k : heap_ok q live fr -> class k -> (256 < fuel)%nat ->
  let room := cursor (tail q) + - top q mod bsize k + bsize k <= blen (arena (tail q)) in
  (~ room /\ alloc_tail (free fuel) fuel q (bsize k) (bsize k) = Ok (None, q)) \/
  (room /\ exists p q' fr', alloc_tail (free fuel) fuel q (bsize k) (bsize k) = Ok (Some p, q') /\
    heap_ok q' ((p, k) :: live) fr' /\ arena (tail q') = arena (tail q) /\ keeps live (mem q) (mem q')).
Proof.
  intros Hq Hk Hfuel room; destruct (bsize_facts k Hk) as (Hb & [d Hd] & Hp2).
  pose proof (mid_pos _ _ _ _ Hq) as Hpos; pose proof (mid_aligned _ _ _ _ Hq) as Hal; pose proof Hq as [(Ha1 & Ha2 & Ha3 & Ha4) [_ Hcur] Hls Htl].
  set (n := - top q mod bsize k) in *; assert (Hn : 0 <= n < bsize k) by (apply Z.mod_pos_bound; lia).
  assert (Hdn : (64 | n)).
  { unfold n; apply Z.mod_divide; [lia|]; rewrite <- Znumtheory.Zmod_div_mod; [|lia..|by exists d].
    apply Z.mod_divide; [lia|]; by apply Z.divide_opp_r. }
  assert (Htopn : (bsize k | top q + n)).
  { unfold n; apply Z.mod_divide; [lia|]; rewrite Z.add_mod_idemp_r by lia; by replace (top q + - top q) with 0 by lia. }
  assert (Hfirst : wrapping_add (ptr (arena (tail q))) (cursor (tail q)) = top q)
    by (unfold wrapping_add; rewrite Z.mod_small; [done|unfold top, base in *; lia]).
  unfold alloc_tail, try_alloc; rewrite Hfirst, (align_offset_ok _ _ Hp2); fold n; cbn [mbind res_bind].
  rewrite !checked_add_ok by (rewrite W64_val; lia); cbn [unwrap mbind res_bind].
  rewrite !checked_add_ok by (rewrite W64_val; lia); cbn [unwrap mbind res_bind].
  destruct (Z.leb_spec (cursor (tail q) + n + bsize k) (blen (arena (tail q)))) as [Hroom|Hno]; cbn [mbind res_bind].
  2:{ left; split; [unfold room; lia|]; by destruct q. }
  right; split; [exact Hroom|]; unfold free_prefix, align_prefix; cbn [ptr blen].
  rewrite (align_offset_ok _ MIN_ALLOC_SIZE eq_refl); change MIN_ALLOC_SIZE with 64; cbn [mbind res_bind].
  rewrite (proj2 (align_offset_0 (top q) 64 ltac:(lia)) Hal), (proj2 (Z.leb_le 0 n)) by lia; cbn [assert mbind res_bind].
  unfold wrapping_add; rewrite Z.add_0_r, Z.sub_0_r, (Z.mod_small (top q)) by (fold (top q) in Hpos; lia).
  set (q1 := with_tail q _).
  assert (Hq1 : heap_at q1 live fr (top q)).
  { split; [exact (conj Ha1 (conj Ha2 (conj Ha3 Ha4)))| |destruct Hls; by split|exact Htl]; unfold top, base; cbn; lia. }
  destruct fuel as [|f0]; [lia|].
  destruct (free_prefix_loop_ok (S f0) q1 live fr (top q) n f0 Hq1 Hdn ltac:(lia)) as (q2 & fr2 & Hl & Hq2 & Ht2 & Hm2).
  { unfold top, base; cbn; lia. }
  { assert (n / 64 <= 255) by (apply Z.lt_succ_r, Z.div_lt_upper_bound; lia); pose proof (Z.div_pos n 64); lia. }
  rewrite Hl; cbn [mbind res_bind]; rewrite Z.mod_small by (unfold top, base in *; lia).
  exists (top q + n), q2, fr2; split; [done|]; split_and!; [|by rewrite Ht2|].
  - clear Hl; destruct Hq2 as [H1 [H2 H2'] H3 (t & Ht & Hp)]; unfold top, base in *; rewrite Ht2 in *; cbn in *.
    split; unfold top, base; rewrite ?Ht2; cbn; [exact H1|lia|exact H3|].
    exists (t ++ [(ptr (arena (tail q)) + cursor (tail q) + n, k)]); split.
    + apply tiles_app; eexists; split; [exact Ht|]; simpl; split_and!; auto; lia.
    + rewrite <- Hp; apply Permutation_cons_append.
  - intros [b kb] x Hb' Hx; rewrite Hm2; [done|]; destruct (block_bounds _ _ _ _ Hq b kb) as (_ & ? & _); [apply elem_of_app; by left|].
    unfold inside in Hx; simpl in Hx; lia.
Qed.

(** [malloc] of a quick request. *)
Lemma malloc_spec fuel q live fr l : heap_ok q live fr -> small l -> (256 < fuel)%nat ->
  exists p q', malloc fuel l q = Ok (p, q') /\ arena (tail q') = arena (tail q) /\ keeps live (mem q) (mem q') /\
    ((p = 0 /\ q' = q /\ of_class (kclass l) fr = [] /\
        blen (arena (tail q)) < cursor (tail q) + - top q mod bsize (kclass l) + bsize (kclass l)) \/
     (p <> 0 /\ exists fr', heap_ok q' ((p, kclass l) :: live) fr')).
Proof.
  intros Hq Hs Hfuel; destruct (small_class l Hs) as (Hk & Hadj & _); set (k := kclass l) in *.
  unfold malloc, malloc_with; rewrite Hadj; destruct fuel as [|f0]; [lia|].
  destruct (of_class k fr) as [|a r] eqn:Hof.
  - rewrite (alloc_quick_none f0 q fr k (h_lists _ _ _ _ Hq) Hk Hof); cbn [mbind res_bind].
    destruct (alloc_tail_ok (S f0) q live fr k Hq Hk Hfuel) as [[Hno ->]|(_ & p & q' & fr' & -> & Hq' & Ha & Hm)]; cbn [mbind res_bind].
    + exists 0, q; split_and!; [done..|]; left; split_and!; auto; lia.
    + exists p, q'; split_and!; auto; right; split; [|by exists fr'].
      destruct (block_bounds _ _ _ _ Hq' p k) as (_ & _ & _ & _ & _ & ? & _); [left|lia].
  - assert (Hin : (a, k) ∈ fr) by (apply elem_of_class; rewrite Hof; left).
    destruct (alloc_quick_some f0 q fr k a r (h_lists _ _ _ _ Hq) Hk Hof) as (q' & fr' & -> & Hl & Hp & Ht & Hm).
    { intros b k' Hb Hne; destruct (blocks_apart _ _ _ _ Hq (b, k') (a, k)) as [H|H]; try (apply elem_of_app; by right); auto; cbn in H;
        [left; destruct (block_bounds _ _ _ _ Hq b k') as (_ & _ & _ & _ & _ & _ & ?)|right; destruct (block_bounds _ _ _ _ Hq a k) as (_ & _ & _ & _ & _ & _ & ?)];
        try (apply elem_of_app; by right); lia. }
    { eapply NoDup_app, blocks_nodup, Hq. }
    destruct (block_bounds _ _ _ _ Hq a k) as (_ & _ & _ & _ & _ & Ha & Hbk); [apply elem_of_app; by right|].
    cbn [mbind res_bind]; exists a, q'; split_and!; auto; [by rewrite Ht| |].
    + intros b x Hb Hx; apply Hm; pose proof (blocks_nodup _ _ _ _ Hq) as Hnd.
      destruct (blocks_apart _ _ _ _ Hq b (a, k)) as [H|H]; try (apply elem_of_app; auto);
        [intros ->; apply NoDup_app in Hnd as (_ & Hnd & _); by apply (Hnd (a, k))|..]; unfold inside in Hx; cbn in H; lia.
    + right; split; [lia|]; exists fr'; destruct Hq as [H1 H2 H3 (t & Htt & Hpp)]; split; unfold top, base in *; rewrite ?Ht; auto.
      exists t; split; [done|]; rewrite <- Hpp, Hp; apply Permutation_middle.
Qed.

Lemma heap_live_perm q live live' fr : live ≡ₚ live' -> heap_ok q live fr -> heap_ok q live' fr.
Proof. intros Hp [H1 H2 H3 (t & Ht & Hpt)]; split; auto; exists t; split; [done|]; by rewrite <- Hp. Qed.

(** What the client does inside the live blocks does not disturb the heap. *)
Lemma heap_live_write q live fr m' : heap_ok q live fr ->
  (forall x, (forall b, b ∈ live -> ~ inside b x) -> m' x = mem q x) -> heap_ok (with_mem q m') live fr.
Proof.
  intros Hq Hm; pose proof Hq as [H1 H2 H3 H4]; split; auto.
  split; [apply H3| |apply H3]; cbn [with_mem mem qlists]; intros k Hk.
  apply (chain_ext (mem q)); [|by apply H3].
  intros a x Ha%elem_of_class Hx; symmetry; apply Hm; intros b Hb Hin.
  assert (Hbb : b ∈ live ++ fr) by (apply elem_of_app; by left).
  assert (Haa : (a, k) ∈ live ++ fr) by (apply elem_of_app; by right).
  pose proof (block_bounds _ _ _ _ Hq a k Haa) as (_ & _ & _ & _ & _ & _ & Hbk).
  pose proof (blocks_nodup _ _ _ _ Hq) as Hnd; apply NoDup_app in Hnd as (_ & Hnd & _).
  destruct (blocks_apart _ _ _ _ Hq b (a, k) Hbb Haa) as [H|H]; [intros ->; by apply (Hnd (a, k))|..];
    unfold inside in Hin; cbn in H; lia.
Qed.

(** [free] of a live block. *)
Lemma free_spec fuel q live fr a l : heap_ok q ((a, kclass l) :: live) fr -> small l -> (0 < fuel)%nat ->
  exists q', free fuel a l q = Ok q' /\ heap_ok q' live ((a, kclass l) :: fr) /\ tail q' = tail q /\
    keeps live (mem q) (mem q').
Proof.
  intros Hq Hs Hfuel; destruct fuel as [|f0]; [lia|]; destruct (small_class l Hs) as (Hk & Hadj & _); set (k := kclass l) in *.
  destruct (block_bounds _ _ _ _ Hq a k) as (_ & _ & _ & _ & Hal & Ha & Hbk); [left|].
  pose proof (blocks_nodup _ _ _ _ Hq) as Hnd; cbn [app] in Hnd; apply NoDup_cons in Hnd as [Hnot _].
  assert (Hap : forall b, b ∈ live ++ fr -> apart b (a, k)).
  { intros b Hb; apply (blocks_apart _ _ _ _ Hq); [by right|left|]; by intros ->. }
  destruct (free_quick f0 q fr a k l) as (q' & Hf & Hl & Ht & Hm); auto; [apply Hq| |].
  { intros b k' Hb; destruct (Hap (b, k')) as [H|H]; [apply elem_of_app; by right|left|right]; cbn in H; [|lia].
    destruct (block_bounds _ _ _ _ Hq b k') as (_ & _ & _ & _ & _ & _ & ?); [right; apply elem_of_app; by right|lia]. }
  exists q'; split_and!; auto.
  - destruct Hq as [H1 H2 _ (t & Htt & Hp)]; split; unfold top, base in *; rewrite ?Ht; auto.
    exists t; split; [done|]; rewrite <- Hp; symmetry; apply Permutation_middle.
  - intros b x Hb Hx; apply Hm; destruct (Hap b) as [H|H]; [apply elem_of_app; by left|..]; unfold inside in Hx; cbn in H; lia.
Qed.

Lemma layout_eta l : l = {| lsize := lsize l; lalign := lalign l |}.
Proof. by destruct l. Qed.

(** [realloc] of a live block: the block itself when the layout already has the
    rounded size, otherwise a new block with the old bytes. *)
Lemma realloc_spec fuel q live fr a l n : let l' := {| lsize := n; lalign := lalign l |} in
  heap_ok q ((a, kclass l) :: live) fr -> small l -> small l' -> (256 < fuel)%nat ->
  exists p q', realloc fuel a l n q = Ok (p, q') /\ arena (tail q') = arena (tail q) /\ keeps live (mem q) (mem q') /\
    ((p = 0 /\ q' = q) \/
     (p <> 0 /\ (exists fr', heap_ok q' ((p, kclass l') :: live) fr') /\
      forall i, 0 <= i < Z.min (lsize l) n -> mem q' (p + i) = mem q (a + i))).
Proof.
  intros l' Hq Hs Hs' Hfuel; pose proof (small_class l Hs) as (Hk & Hadj & Hsz & _); pose proof (small_class l' Hs') as (Hk' & Hadj' & Hsz' & _).
  destruct (block_bounds _ _ _ _ Hq a (kclass l)) as (_ & _ & _ & _ & _ & Ha & _); [left|].
  unfold realloc; rewrite (proj2 (Z.eqb_neq a 0)) by lia.
  pose proof Hs' as (Hn & Hp2 & Hle); cbn [lalign l'] in Hp2; unfold from_size_align; rewrite Hp2.
  pose proof (bsize_facts _ Hk') as (Hb' & _); rewrite Hadj' in Hle; cbn [fst lalign l'] in Hle; cbn in Hn.
  change MAX_QUICK_SIZE with 16384 in Hn; rewrite (proj2 (Z.leb_le n _)) by lia; cbn [andb unwrap mbind res_bind]; fold l'; rewrite Hadj'.
  destruct ((bsize (kclass l') =? lsize l) && (bsize (kclass l') =? lalign l)) eqn:E.
  - apply andb_true_iff in E as [E1%Z.eqb_eq E2%Z.eqb_eq].
    assert (Hl : kclass l' = kclass l).
    { unfold kclass at 2; rewrite (layout_eta l), <- E1, <- E2, (proj1 (adjust_bsize _ Hk')); cbn [fst].
      rewrite log2_bsize by done; lia. }
    exists a, q; split_and!; auto; [by intros ?|]; right; split; [lia|]; split; [exists fr; by rewrite Hl|done].
  - destruct (malloc_spec fuel q _ fr l' Hq Hs' Hfuel) as (p & q1 & Hm & Har & Hkeep & Hcase); rewrite Hm; cbn [mbind res_bind].
    destruct Hcase as [(-> & -> & _)|(Hp & fr1 & Hq1)].
    + exists 0, q; split_and!; auto; by intros ?.
    + rewrite (proj2 (Z.eqb_neq p 0) Hp).
      set (m := Z.min (lsize l) n); set (q2 := with_mem q1 _).
      assert (Hout : forall x, ~ inside (p, kclass l') x -> mem q2 x = mem q1 x).
      { intros x Hx; cbn; apply write_out; unfold len; rewrite length_read; unfold inside in Hx; cbn in Hx; cbn in Hsz'; lia. }
      assert (Hq2 : heap_ok q2 ((a, kclass l) :: (p, kclass l') :: live) fr1).
      { apply (heap_live_perm _ ((p, kclass l') :: (a, kclass l) :: live)); [apply perm_swap|].
        apply heap_live_write; [done|]; intros x Hx; apply (Hout x), Hx; left. }
      destruct (free_spec fuel q2 ((p, kclass l') :: live) fr1 a l Hq2 Hs ltac:(lia)) as (q3 & Hf & Hq3 & Ht3 & Hk3).
      assert (Happ : forall b, b ∈ live -> forall x, inside b x -> ~ inside (p, kclass l') x).
      { intros b Hb x Hx Hpx; pose proof (blocks_nodup _ _ _ _ Hq1) as Hnd; cbn [app] in Hnd; apply NoDup_cons in Hnd as [Hnot _].
        destruct (blocks_apart _ _ _ _ Hq1 b (p, kclass l')) as [H|H];
          [right; right; apply elem_of_app; by left|left|intros ->; apply Hnot; right; apply elem_of_app; by left|..];
          unfold inside in *; cbn in *; lia. }
      rewrite Hf; cbn [mbind res_bind]; exists p, q3; split_and!; auto; [rewrite Ht3; exact Har| |].
      * intros b x Hb Hx; rewrite (Hk3 b x) by (auto; by right); rewrite Hout by eauto; apply (Hkeep b x); [by right|done].
      * right; split; [done|]; split; [by exists ((a, kclass l) :: fr1)|]; intros i Hi.
        rewrite (Hk3 (p, kclass l')); [|left|unfold inside; cbn in *; lia]; cbn [q2 with_mem mem].
        unfold write, len; rewrite length_read, (proj2 (Z.leb_le _ _)), (proj2 (Z.ltb_lt _ _)) by lia; cbn [andb].
        rewrite lookup_read by lia; cbn [default]; replace (a + Z.of_nat (Z.to_nat (p + i - p))) with (a + i) by lia.
        apply (Hkeep (a, kclass l)); [left|unfold inside; cbn; lia].
Qed.

(** ** The clients of the global allocator

    The state is the allocator and the blocks handed out and not yet returned.
    A client allocates, returns a live block with a layout of its class, resizes
    a live block, or writes into live blocks. *)
Section clients.
Context (fuel : nat).

Inductive hstep : option QuickFit * list (Z * Z) -> option QuickFit * list (Z * Z) -> Prop :=
  | h_alloc g live l p g' : small l -> galloc fuel false l g = Ok (p, g') ->
      hstep (g, live) (g', if p =? 0 then live else (p, kclass l) :: live)
  | h_dealloc g live live' a l g' : small l -> live ≡ₚ (a, kclass l) :: live' ->
      gdealloc fuel false a l g = Ok (tt, g') -> hstep (g, live) (g', live')
  | h_realloc g live live' a l n p g' : small l -> small {| lsize := n; lalign := lalign l |} ->
      live ≡ₚ (a, kclass l) :: live' -> grealloc fuel false a l n g = Ok (p, g') ->
      hstep (g, live) (g', if p =? 0 then live else (p, kclass {| lsize := n; lalign := lalign l |}) :: live')
  | h_write q live m' : (forall x, (forall b, b ∈ live -> ~ inside b x) -> m' x = mem q x) ->
      hstep (Some q, live) (Some (with_mem q m'), live).

Definition heap_inv (a : Block) (s : option QuickFit * list (Z * Z)) : Prop :=
  exists q fr, s.1 = Some q /\ heap_ok q s.2 fr /\ arena (tail q) = a.

Lemma galloc_run l q : galloc fuel false l (Some q) = ('(p, q') ← malloc fuel l q; Ok (p, Some q')).
Proof. done. Qed.

Lemma hstep_inv a s s' : (256 < fuel)%nat -> heap_inv a s -> hstep s s' -> heap_inv a s'.
Proof.
  intros Hf (q & fr & Hg & Hq & Ha) Hst; destruct Hst as [g live l p g' Hs Hop|g live live' b l g' Hs Hp Hop|g live live' b l n p g' Hs Hs' Hp Hop|q0 live m' Hm];
    cbn in Hg, Hq; [subst g..|injection Hg as ->].
  - destruct (malloc_spec fuel q live fr l Hq Hs Hf) as (p0 & q0 & Hm & Har & _ & Hc).
    rewrite galloc_run, Hm in Hop; cbn in Hop; injection Hop as -> <-; destruct Hc as [(-> & -> & _)|(Hp0 & fr' & Hq0)].
    + by exists q, fr.
    + exists q0, fr'; cbn; rewrite (proj2 (Z.eqb_neq p 0) Hp0); split_and!; auto; congruence.
  - apply (heap_live_perm _ _ _ _ Hp) in Hq; destruct (free_spec fuel q live' fr b l Hq Hs ltac:(lia)) as (q0 & Hm & Hq0 & Ht & _).
    unfold gdealloc, with_allocator in Hop; cbn in Hop; rewrite Hm in Hop; cbn in Hop; injection Hop as <-.
    eexists q0, _; split_and!; [done|exact Hq0|congruence].
  - pose proof (heap_live_perm _ _ _ _ Hp Hq) as Hq1.
    destruct (realloc_spec fuel q live' fr b l n Hq1 Hs Hs' Hf) as (p0 & q0 & Hm & Har & _ & Hc).
    unfold grealloc, with_allocator in Hop; cbn in Hop; rewrite Hm in Hop; cbn in Hop; injection Hop as -> <-.
    destruct Hc as [(-> & ->)|(Hp0 & (fr' & Hq0) & _)]; [by exists q, fr|].
    exists q0, fr'; cbn; rewrite (proj2 (Z.eqb_neq p 0) Hp0); split_and!; auto; congruence.
  - exists (with_mem q m'), fr; split_and!; auto; by apply heap_live_write.
Qed.

Lemma global_inv m heap : 0 < heap -> (4096 | heap) -> heap + GLOBAL_HEAP_SIZE < W64 ->
  heap_inv {| ptr := heap; blen := GLOBAL_HEAP_SIZE |} (Some (global m heap), []).
Proof.
  intros H0 Hd Hw; exists (global m heap), []; split_and!; auto; split; cbn.
  - split_and!; cbn; try done; apply (Z.divide_trans _ 4096); [by exists 64|done].
  - split; [apply Z.le_refl|done].
  - split; [done| |by intros ?? ?%elem_of_nil]; intros k Hk%class_cases; by destruct_or! Hk; subst k.
  - exists []; split; [symmetry; apply Z.add_0_r|done].
Qed.

Lemma heap_reachable m heap g live : (256 < fuel)%nat -> 0 < heap -> (4096 | heap) -> heap + GLOBAL_HEAP_SIZE < W64 ->
  rtc hstep (Some (global m heap), []) (g, live) -> heap_inv {| ptr := heap; blen := GLOBAL_HEAP_SIZE |} (g, live).
Proof.
  intros Hf H0 Hd Hw Hr; pose proof (global_inv m heap H0 Hd Hw) as Hi; revert Hr Hi.
  generalize (Some (global m heap), @nil (Z * Z)) as s; intros s Hr; remember (g, live) as s' eqn:E.
  induction Hr as [|s1 s2 s3 Hst _ IH]; [done|]; intros Hi; apply IH; [done|]; by eapply hstep_inv.
Qed.

(** C12: the kernel heap is safe for every sequence of quick requests (up to 16384
    bytes, alignment not above the rounded size), returns, resizes and writes of
    the clients into their own blocks.  The live blocks and the free blocks tile
    the used part of the arena without gap or overlap, so nothing leaks; an
    allocation never panics, moves no byte of a live block, and returns an
    aligned block inside the arena that overlaps no live block, or null only
    when its free list is empty and the tail has no room; returning a live
    block never panics and moves no byte of the others. *)
Theorem heap_safe (m : Mem) (heap : Z) (g : option QuickFit) (live : list (Z * Z)) (Hfuel : (256 < fuel)%nat)
    (Hheap : 0 < heap) (Hal : (4096 | heap)) (Hend : heap + GLOBAL_HEAP_SIZE < W64)
    (Hreach : rtc hstep (Some (global m heap), []) (g, live)) :
  exists q fr t, g = Some q /\ tiles heap t (heap + cursor (tail q)) /\ live ++ fr ≡ₚ t /\
    (forall l, small l -> exists p q', galloc fuel false l g = Ok (p, Some q') /\ keeps live (mem q) (mem q') /\
      (p = 0 -> of_class (kclass l) fr = [] /\ GLOBAL_HEAP_SIZE < cursor (tail q) + - top q mod bsize (kclass l) + bsize (kclass l)) /\
      (p <> 0 -> (lalign l | p) /\ heap <= p /\ p + lsize l <= heap + GLOBAL_HEAP_SIZE /\
         forall b, b ∈ live -> p + lsize l <= b.1 \/ b.1 + bsize b.2 <= p)) /\
    (forall a l live', small l -> live ≡ₚ (a, kclass l) :: live' ->
      exists q', gdealloc fuel false a l g = Ok (tt, Some q') /\ keeps live' (mem q) (mem q')).
Proof.
  destruct (heap_reachable m heap g live Hfuel Hheap Hal Hend Hreach) as (q & fr & Hg & Hq & Ha); cbn in Hg, Hq; subst g.
  pose proof (h_tiles _ _ _ _ Hq) as (t & Ht & Hp); exists q, fr, t; unfold top, base in Ht; rewrite Ha in Ht; cbn in Ht.
  split_and!; auto.
  - intros l Hs; destruct (malloc_spec fuel q live fr l Hq Hs Hfuel) as (p & q' & Hm & Har & Hk & Hc).
    destruct (small_class l Hs) as (_ & _ & Hsz & Hdv); exists p, q'; rewrite galloc_run, Hm, Ha in *; split_and!; auto.
    + intros ->; destruct Hc as [(_ & _ & Hno & Hr)|[Hn _]]; done.
    + intros Hp0; destruct Hc as [(? & _)|(_ & fr' & Hq')]; [done|].
      destruct (block_bounds _ _ _ _ Hq' p (kclass l)) as (Hlo & Hhi & _ & Hbd & _); [left|].
      pose proof (h_cursor _ _ _ _ Hq') as [_ Hcur]; unfold top, base in *; rewrite Har in *; cbn in *.
      split_and!; [by apply (Z.divide_trans _ (bsize (kclass l)))|lia..|].
      intros b Hb; pose proof (blocks_nodup _ _ _ _ Hq') as Hnd; cbn [app] in Hnd; apply NoDup_cons in Hnd as [Hnot _].
      destruct (blocks_apart _ _ _ _ Hq' (p, kclass l) b) as [H|H];
        [left|right; apply elem_of_app; by left|intros <-; apply Hnot, elem_of_app; by left|cbn in H; lia..].
  - intros a l live' Hs Hpl; apply (heap_live_perm _ _ _ _ Hpl) in Hq.
    destruct (free_spec fuel q live' fr a l Hq Hs ltac:(lia)) as (q' & Hm & _ & _ & Hk).
    exists q'; split; [|done]; unfold gdealloc, with_allocator; cbn; by rewrite Hm.
Qed.

(** Resizing keeps the contents: in every reachable state of the heap,
    [realloc] of a live block between quick layouts returns null and changes
    nothing, or returns a block that begins with the old bytes, as many as fit
    both sizes; no byte of any other live block moves. *)
Lemma realloc_keeps_bytes (m : Mem) (heap : Z) (g : option QuickFit) (live live' : list (Z * Z)) (a n : Z) (l : Layout)
    (Hfuel : (256 < fuel)%nat) (Hheap : 0 < heap) (Hal : (4096 | heap)) (Hend : heap + GLOBAL_HEAP_SIZE < W64)
    (Hreach : rtc hstep (Some (global m heap), []) (g, live))
    (Hs : small l) (Hs' : small {| lsize := n; lalign := lalign l |}) (Hlive : live ≡ₚ (a, kclass l) :: live') :
  exists q p q', g = Some q /\ grealloc fuel false a l n g = Ok (p, Some q') /\ keeps live' (mem q) (mem q') /\
    (p = 0 /\ q' = q \/ p <> 0 /\ forall i, 0 <= i < Z.min (lsize l) n -> mem q' (p + i) = mem q (a + i)).
Proof.
  destruct (heap_reachable m heap g live Hfuel Hheap Hal Hend Hreach) as (q & fr & Hg & Hq & Ha); cbn in Hg, Hq; subst g.
  apply (heap_live_perm _ _ _ _ Hlive) in Hq.
  destruct (realloc_spec fuel q live' fr a l n Hq Hs Hs' Hfuel) as (p & q' & Hm & _ & Hk & Hc).
  exists q, p, q'; unfold grealloc, with_allocator; cbn; rewrite Hm; cbn; split_and!; auto.
  destruct Hc as [?|(Hp & _ & Hb)]; [by left|by right].
Qed.
End clients.

(** Requests outside the quick sizes are not served correctly, because
    [alloc_tail] passes size and alignment to [try_alloc] in the wrong order and
    [free_misc] inverts the test for a null header block.  With a fresh heap:
    20000 bytes panic; a block of 32768 bytes is followed, inside it, by the
    next small block, and returning it panics; a block that asks for the
    alignment 4096 is not aligned. *)
Lemma large_requests_broken (m : Mem) :
  let h := global m 0x100000 in
  malloc 300 {| lsize := 20000; lalign := 8 |} h = Panic /\
  (exists p q p' q', malloc 300 {| lsize := 32768; lalign := 8 |} h = Ok (p, q) /\
     malloc 300 {| lsize := 64; lalign := 8 |} q = Ok (p', q') /\ p < p' < p + 32768 /\
     free 300 p {| lsize := 32768; lalign := 8 |} q = Panic) /\
  (exists p q p' q', malloc 300 {| lsize := 64; lalign := 8 |} h = Ok (p, q) /\
     malloc 300 {| lsize := 64; lalign := 4096 |} q = Ok (p', q') /\ p' mod 4096 = 64).
Proof.
  split_and!; [reflexivity| |].
  - do 4 eexists; split_and!; [reflexivity|reflexivity|reflexivity|reflexivity|reflexivity].
  - do 4 eexists; split_and!; [reflexivity|reflexivity|reflexivity].
Qed.

(** A node other than the first that [unlink] takes out becomes the head of the
    list it returns: the nodes before it are lost, and the node itself is
    still in the list. *)
Lemma unlink_later m a b pred : pred (header m a) = false ->
  hnext (header m a) = Some b -> pred (header m b) = true ->
  exists m', unlink 3 m None (Some a) pred = Ok (Some b, Some b, m').
Proof. intros Ha Hn Hb; cbn [unlink]; rewrite Ha, Hn, Hb; by eexists. Qed.

(** ** A heap with two live blocks *)
Module QfDemo.
Definition start : option QuickFit := Some (global (fun _ => 0) 0x100000).
Definition l64 : Layout := {| lsize := 40; lalign := 8 |}.
Definition l4k : Layout := {| lsize := 3000; lalign := 16 |}.

Definition after (l : Layout) (g : option QuickFit) : option QuickFit :=
  match galloc 300 false l g with Ok (_, g') => g' | _ => None end.
Definition one : option QuickFit := after l64 start.
Definition two : option QuickFit := after l4k one.

Lemma after_run l g p : match galloc 300 false l g with Ok (a, _) => a =? p | _ => false end = true ->
  galloc 300 false l g = Ok (p, after l g).
Proof. unfold after; destruct (galloc 300 false l g) as [[a g']| |]; try done; by intros ->%Z.eqb_eq. Qed.

Lemma small_demo : small l64 /\ small l4k /\ small {| lsize := 200; lalign := 8 |}.
Proof. unfold small; cbn; split_and!; try done; lia. Qed.

Lemma two_reachable : rtc (hstep 300) (start, []) (two, [(0x101000, 6); (0x100000, 0)]).
Proof.
  destruct small_demo as (H1 & H2 & _); apply (rtc_l _ _ (one, [(0x100000, 0)])).
  - exact (h_alloc 300 start [] l64 0x100000 one H1 (after_run l64 start 0x100000 eq_refl)).
  - apply rtc_once; exact (h_alloc 300 one [(0x100000, 0)] l4k 0x101000 two H2 (after_run l4k one 0x101000 ltac:(vm_compute; reflexivity))).
Qed.

Lemma heap_safe_witness : exists q fr t, two = Some q /\ tiles 0x100000 t (0x100000 + cursor (tail q)) /\
  [(0x101000, 6); (0x100000, 0)] ++ fr ≡ₚ t /\ exists p q', galloc 300 false l64 two = Ok (p, Some q').
Proof.
  destruct (heap_safe 300 (fun _ => 0) 0x100000 two [(0x101000, 6); (0x100000, 0)]) as (q & fr & t & H1 & H2 & H3 & H4 & _);
    [lia|lia|by exists 256|reflexivity|exact two_reachable|].
  destruct (H4 l64 (proj1 small_demo)) as (p & q' & H & _); exists q, fr, t; split_and!; [done..|by exists p, q'].
Defined.

End QfDemo.
End Qf.
