(* ===== verification/Ipc.v ===== *)
(** * Message passing ([port/src/ipc.rs])

    Channels are bounded FIFO queues with at most one waiting receiver and one
    waiting sender.  The module is written against the [IpcScheduler] trait;
    here that trait is a class over the state [W] of the whole kernel, its
    operations are state transformers, and a channel is reached in [W] through
    the [HasChannel] class (the array slot the handle names).  A critical section of the
    channel lock is one transition; [block] gives the state in which the
    caller runs again, after whatever the other processes did, and [Timeout]
    when it is never resumed. *)

From S2P Require Import Prelude Abi.


Definition ProcId : Type := Z.

Record Message := { opcode : Z; tag : Z; mlen : Z; buf : list Z }.

#[global] Instance Message_eq_dec : EqDecision Message.
Proof. solve_decision. Defined.

(** [Message::new]: the payload is copied into a zeroed buffer, truncated. *)
Definition message_new (op tg : Z) (data : list Z) : Message :=
  let n := Z.min (len data) MSG_MAX in
  {| opcode := op; tag := tg; mlen := n;
     buf := take (Z.to_nat n) data ++ replicate (Z.to_nat (MSG_MAX - n)) 0 |}.

Inductive IpcErr := Closed | Full | BadTag | Empty.

#[global] Instance IpcErr_eq_dec : EqDecision IpcErr.
Proof. solve_decision. Defined.

(** ** The bounded queue *)

Definition QUEUE_CAP : Z := 8.

Record BoundedQueue := { slots : list (option Message); head : Z; qlen : Z }.

Module Queue.

Definition new : BoundedQueue :=
  {| slots := replicate (Z.to_nat QUEUE_CAP) None; head := 0; qlen := 0 |}.

Definition is_full (q : BoundedQueue) : bool := qlen q =? QUEUE_CAP.

Definition push (q : BoundedQueue) (msg : Message) : res (BoundedQueue * bool) :=
  if is_full q then Ok (q, false) else
  t ← uadd (head q) (qlen q);
  let tail := t mod QUEUE_CAP in
  slots' ← aset (slots q) tail (Some msg);
  l' ← uadd (qlen q) 1;
  Ok ({| slots := slots'; head := head q; qlen := l' |}, true).

(** [take()?] empties the head slot before anything else is updated. *)
Definition pop (q : BoundedQueue) : res (BoundedQueue * option Message) :=
  slot ← aget (slots q) (head q);
  slots' ← aset (slots q) (head q) None;
  match slot with
  | None => Ok ({| slots := slots'; head := head q; qlen := qlen q |}, None)
  | Some msg =>
      h ← uadd (head q) 1;
      l' ← usub (qlen q) 1;
      Ok ({| slots := slots'; head := h mod QUEUE_CAP; qlen := l' |}, Some msg)
  end.

End Queue.

(** ** Channels *)

Record ChannelInner := {
  queue : BoundedQueue;
  recv_waiter : option ProcId;
  send_waiter : option ProcId;
  closed : bool;
}.

Definition channel_inner_new : ChannelInner :=
  {| queue := Queue.new; recv_waiter := None; send_waiter := None; closed := false |}.

Definition is_blocked_on (i : ChannelInner) (id : ProcId) : bool :=
  bool_decide (recv_waiter i = Some id) || bool_decide (send_waiter i = Some id).

Definition set_queue (i : ChannelInner) (q : BoundedQueue) : ChannelInner :=
  {| queue := q; recv_waiter := recv_waiter i; send_waiter := send_waiter i; closed := closed i |}.
Definition set_recv_waiter (i : ChannelInner) (o : option ProcId) : ChannelInner :=
  {| queue := queue i; recv_waiter := o; send_waiter := send_waiter i; closed := closed i |}.
Definition set_send_waiter (i : ChannelInner) (o : option ProcId) : ChannelInner :=
  {| queue := queue i; recv_waiter := recv_waiter i; send_waiter := o; closed := closed i |}.

(** ** The scheduler seam *)

Class IpcScheduler (W : Type) := {
  current : W -> option ProcId;
  priority : W -> ProcId -> Z;
  boost : ProcId -> Z -> W -> W;
  unboost : ProcId -> W -> W;
  block : ProcId -> W -> res W;
  wake : ProcId -> W -> W;
  now : W -> Z;
  block_at : ProcId -> Z -> W -> res W;
}.

(** The channel an operation works on. *)
Class HasChannel (W : Type) := {
  chan : W -> ChannelInner;
  put_chan : ChannelInner -> W -> W;
}.

Section operations.
Context {W : Type} `{!IpcScheduler W, !HasChannel W}.

Definition wake_opt (o : option ProcId) (w : W) : W :=
  match o with Some p => wake p w | None => w end.

Definition close (w : W) : W :=
  let i := chan w in
  let w1 := put_chan {| queue := queue i; recv_waiter := None; send_waiter := None;
                        closed := true |} w in
  wake_opt (send_waiter i) (wake_opt (recv_waiter i) w1).

(** Priority inheritance of the fast path. *)
Definition boost_receiver (receiver : ProcId) (w : W) : W :=
  match current w with
  | Some sender =>
      if priority w sender <? priority w receiver
      then boost receiver (priority w sender) w else w
  | None => w
  end.

(** The first critical section of [send]: [Err] is an early return, [Val] the
    value of [fast]. *)
Definition send_lock (msg : Message) (w : W) : res (result (option ProcId) IpcErr * W) :=
  let i := chan w in
  if closed i then Ok (Err Closed, w) else
  match recv_waiter i with
  | Some receiver =>
      let w1 := boost_receiver receiver w in
      '(q, ok) ← Queue.push (queue i) msg;
      _ ← assert ok;
      Ok (Val (Some receiver), put_chan (set_queue (set_recv_waiter i None) q) w1)
  | None =>
      '(q, ok) ← Queue.push (queue i) msg;
      if (ok : bool) then Ok (Val None, put_chan (set_queue i q) w)
      else
        s ← unwrap (current w);
        Ok (Val None, put_chan (set_send_waiter i (Some s)) w)
  end.

(** [send]: the loop, one unit of fuel per iteration. *)
Fixpoint send (fuel : nat) (msg : Message) (w : W) : res (result unit IpcErr * W) :=
  match fuel with
  | O => Timeout
  | S fuel' =>
      '(fast, w1) ← send_lock msg w;
      match fast with
      | Err e => Ok (Err e, w1)
      | Val (Some receiver) => Ok (Val tt, wake receiver w1)
      | Val None =>
          let blocked := bool_decide (is_Some (send_waiter (chan w1))) in
          if negb blocked then Ok (Val tt, w1)
          else
            me ← unwrap (current w1);
            w2 ← block me w1;
            send fuel' msg w2
      end
  end.

Definition try_send (msg : Message) (w : W) : res (result unit IpcErr * W) :=
  let i := chan w in
  if closed i then Ok (Err Closed, w) else
  match recv_waiter i with
  | Some receiver =>
      '(q, ok) ← Queue.push (queue i) msg;
      _ ← assert ok;
      Ok (Val tt, wake receiver (put_chan (set_queue (set_recv_waiter i None) q) w))
  | None =>
      '(q, ok) ← Queue.push (queue i) msg;
      if (ok : bool) then Ok (Val tt, put_chan (set_queue i q) w) else Ok (Err Full, w)
  end.

Definition try_receive (w : W) : res (result Message IpcErr * W) :=
  let i := chan w in
  if closed i then Ok (Err Closed, w) else
  '(q, om) ← Queue.pop (queue i);
  match om with
  | Some m => Ok (Val m, wake_opt (send_waiter i) (put_chan (set_send_waiter (set_queue i q) None) w))
  | None => Ok (Err Empty, put_chan (set_queue i q) w)
  end.

(** [receive] *)
Fixpoint receive (fuel : nat) (w : W) : res (result Message IpcErr * W) :=
  match fuel with
  | O => Timeout
  | S fuel' =>
      me ← unwrap (current w);
      let i := chan w in
      if closed i then Ok (Err Closed, w) else
      '(q, om) ← Queue.pop (queue i);
      match om with
      | Some m =>
          Ok (Val m, wake_opt (send_waiter i) (put_chan (set_send_waiter (set_queue i q) None) w))
      | None =>
          let w1 := put_chan (set_recv_waiter (set_queue i q) (Some me)) (unboost me w) in
          w2 ← block me w1;
          receive fuel' w2
      end
  end.

Definition timeout_message : Message :=
  {| opcode := RECEIVE_TIMEOUT; tag := 0; mlen := 0; buf := replicate (Z.to_nat MSG_MAX) 0 |}.

Fixpoint receive_at (fuel : nat) (deadline : Z) (w : W) : res (result Message IpcErr * W) :=
  match fuel with
  | O => Timeout
  | S fuel' =>
      me ← unwrap (current w);
      let i := chan w in
      if closed i then Ok (Err Closed, w) else
      '(q, om) ← Queue.pop (queue i);
      match om with
      | Some m =>
          Ok (Val m, wake_opt (send_waiter i) (put_chan (set_send_waiter (set_queue i q) None) w))
      | None =>
          if deadline <=? now w then Ok (Val timeout_message, put_chan (set_queue i q) w)
          else
            let w1 := put_chan (set_recv_waiter (set_queue i q) (Some me)) (unboost me w) in
            w2 ← block_at me deadline w1;
            receive_at fuel' deadline w2
      end
  end.

Definition reply (fuel : nat) (tg : Z) (msg : Message) (w : W) : res (result unit IpcErr * W) :=
  if negb (tag msg =? tg) then Ok (Err BadTag, w) else send fuel msg w.

End operations.

(** ** The queue implements a bounded FIFO *)

(** Specification: a list with a capacity. *)
Module QueueSpec.
Definition push (l : list Message) (m : Message) : list Message * bool :=
  if len l =? QUEUE_CAP then (l, false) else (l ++ [m], true).
Definition pop (l : list Message) : list Message * option Message :=
  match l with [] => ([], None) | m :: l' => (l', Some m) end.
End QueueSpec.

(** Slot [k] of the ring, from the head. *)
Definition ring_slot (q : BoundedQueue) (k : Z) : option Message :=
  match slots q !! Z.to_nat ((head q + k) mod QUEUE_CAP) with
  | Some o => o
  | None => None
  end.

(** The abstraction relation: the first [qlen] slots from the head hold the
    list, the others are empty. *)
Record queue_rep (q : BoundedQueue) (l : list Message) : Prop := {
  rep_slots : len (slots q) = QUEUE_CAP;
  rep_head : 0 <= head q < QUEUE_CAP;
  rep_len : qlen q = len l;
  rep_cap : len l <= QUEUE_CAP;
  rep_ring : forall k, 0 <= k < QUEUE_CAP -> ring_slot q k = l !! Z.to_nat k;
}.

Lemma queue_new_rep : queue_rep Queue.new [].
Proof.
  split; [done|done|done|done|]; intros k Hk; unfold ring_slot, Queue.new; cbn [slots head].
  pose proof (Z.mod_pos_bound (0 + k) QUEUE_CAP ltac:(done)).
  by rewrite lookup_replicate_2 by lia.
Qed.

Lemma ring_index_inj h j k : 0 <= j < QUEUE_CAP -> 0 <= k < QUEUE_CAP ->
  Z.to_nat ((h + j) mod QUEUE_CAP) = Z.to_nat ((h + k) mod QUEUE_CAP) -> j = k.
Proof.
  unfold QUEUE_CAP; intros Hj Hk Heq.
  pose proof (Z.mod_pos_bound (h + j) 8); pose proof (Z.mod_pos_bound (h + k) 8).
  pose proof (Z.div_mod (h + j) 8); pose proof (Z.div_mod (h + k) 8); lia.
Qed.

Lemma ring_index_lt q k : len (slots q) = QUEUE_CAP ->
  (Z.to_nat ((head q + k) mod QUEUE_CAP) < length (slots q))%nat.
Proof.
  unfold len, QUEUE_CAP; intros Hl; pose proof (Z.mod_pos_bound (head q + k) 8); lia.
Qed.

Lemma queue_push_rep q l m : queue_rep q l ->
  exists q', Queue.push q m = Ok (q', (QueueSpec.push l m).2) /\
             queue_rep q' (QueueSpec.push l m).1.
Proof.
  intros [Hs Hh Hl Hc Hr]; unfold Queue.push, Queue.is_full, QueueSpec.push; rewrite Hl.
  destruct (Z.eqb_spec (len l) QUEUE_CAP) as [|Hne]; [by exists q|].
  pose proof (len_nonneg l).
  unfold QUEUE_CAP in Hc, Hh, Hne; res_step.
  rewrite aset_lt by (rewrite Hs; apply Z.mod_pos_bound; done); cbn [mbind res_bind].
  rewrite uadd_ok by res_arith; cbn [mbind res_bind].
  eexists; split; [reflexivity|]; split; cbn [slots head qlen fst].
  - by rewrite len_insert.
  - done.
  - unfold len; rewrite length_app; simpl; lia.
  - unfold len, QUEUE_CAP in *; rewrite length_app; simpl; lia.
  - intros k Hk; unfold ring_slot; cbn [slots head].
    destruct (decide (k = len l)) as [->|Hkl].
    + rewrite list_lookup_insert_eq by (by apply ring_index_lt).
      by unfold len; rewrite Nat2Z.id, lookup_app_r, Nat.sub_diag by lia.
    + rewrite list_lookup_insert_ne
        by (intros He; apply Hkl; symmetry; eapply ring_index_inj; [| |exact He]; unfold QUEUE_CAP in *; lia).
      change (ring_slot q k = (l ++ [m]) !! Z.to_nat k); rewrite Hr by done.
      destruct (Z.lt_ge_cases k (len l)); unfold len in *.
      * by rewrite lookup_app_l by lia.
      * rewrite !lookup_ge_None_2; [done|rewrite length_app; simpl; lia|lia].
Qed.

Lemma queue_pop_rep q l : queue_rep q l ->
  exists q', Queue.pop q = Ok (q', (QueueSpec.pop l).2) /\ queue_rep q' (QueueSpec.pop l).1.
Proof.
  intros [Hs Hh Hl Hc Hr]; unfold Queue.pop.
  destruct (aget_lt (slots q) (head q)) as (o & Ho & Hlk); [lia|].
  assert (Ho' : o = l !! 0%nat).
  { specialize (Hr 0 ltac:(unfold QUEUE_CAP; lia)); unfold ring_slot in Hr.
    by rewrite Z.add_0_r, Z.mod_small, Hlk in Hr by lia. }
  rewrite Ho; cbn [mbind res_bind]; rewrite aset_lt by lia; cbn [mbind res_bind].
  destruct l as [|m l]; simpl in Ho'; subst o.
  - eexists; split; [reflexivity|]; split; cbn [slots head qlen QueueSpec.pop fst]; auto.
    + by rewrite len_insert.
    + intros k Hk; unfold ring_slot; cbn [slots head]; rewrite <- Hr by done; unfold ring_slot.
      by rewrite list_insert_id.
  - unfold QUEUE_CAP in Hh; unfold len in Hl; simpl in Hl.
    res_step; res_step.
    eexists; split; [reflexivity|]; split; cbn [slots head qlen QueueSpec.pop fst].
    + by rewrite len_insert.
    + by apply Z.mod_pos_bound.
    + unfold len; lia.
    + unfold len in *; simpl in *; lia.
    + intros k Hk; unfold ring_slot; cbn [slots head].
      rewrite Zplus_mod_idemp_l, <- Z.add_assoc.
      unfold len in Hc; simpl in Hc; unfold QUEUE_CAP in *.
      destruct (decide (k = 7)) as [->|].
      * replace ((head q + (1 + 7)) mod 8) with (head q)
          by (rewrite <- (Z.mod_small (head q) 8) at 1 by lia;
              symmetry; replace (head q + (1 + 7)) with (head q + 1 * 8) by lia; apply Z.mod_add; lia).
        rewrite list_lookup_insert_eq by (unfold len in *; lia).
        by rewrite lookup_ge_None_2 by lia.
      * rewrite list_lookup_insert_ne.
        2:{ intros He; rewrite <- (Z.mod_small (head q) 8) in He at 1 by lia.
            rewrite <- (Z.add_0_r (head q)) in He at 1.
            apply ring_index_inj in He; unfold QUEUE_CAP; lia. }
        specialize (Hr (1 + k) ltac:(lia)); unfold ring_slot, QUEUE_CAP in Hr; rewrite Hr.
        by replace (Z.to_nat (1 + k)) with (S (Z.to_nat k)) by lia.
Qed.

(** Sequences of queue operations and what they output. *)
Inductive qop := Push (m : Message) | Pop.
Inductive qout := Pushed (ok : bool) | Popped (m : option Message).

Fixpoint run_queue (q : BoundedQueue) (ops : list qop) : res (list qout) :=
  match ops with
  | [] => Ok []
  | Push m :: ops' =>
      '(q', ok) ← Queue.push q m; outs ← run_queue q' ops'; Ok (Pushed ok :: outs)
  | Pop :: ops' =>
      '(q', om) ← Queue.pop q; outs ← run_queue q' ops'; Ok (Popped om :: outs)
  end.

Fixpoint run_spec (l : list Message) (ops : list qop) : list qout :=
  match ops with
  | [] => []
  | Push m :: ops' => Pushed (QueueSpec.push l m).2 :: run_spec (QueueSpec.push l m).1 ops'
  | Pop :: ops' => Popped (QueueSpec.pop l).2 :: run_spec (QueueSpec.pop l).1 ops'
  end.

Lemma run_queue_rep ops : forall q l, queue_rep q l -> run_queue q ops = Ok (run_spec l ops).
Proof.
  induction ops as [|[m|] ops IH]; intros q l Hq; cbn [run_queue run_spec]; [done| |].
  - destruct (queue_push_rep q l m Hq) as (q' & -> & Hq'); cbn [mbind res_bind].
    by rewrite (IH _ _ Hq').
  - destruct (queue_pop_rep q l Hq) as (q' & -> & Hq'); cbn [mbind res_bind].
    by rewrite (IH _ _ Hq').
Qed.

(** Refinement of the ring buffer: from a new queue, every sequence of
    pushes and pops runs without a panic and gives exactly the answers of a
    FIFO list of capacity [QUEUE_CAP]. *)
Lemma queue_refines_fifo (ops : list qop) : run_queue Queue.new ops = Ok (run_spec [] ops).
Proof. apply run_queue_rep, queue_new_rep. Qed.

(** ** Channels *)

(** The channel [i] holds the messages [l]: a waiting receiver means an empty
    queue, a waiting sender a full one. *)
Record chan_rep (i : ChannelInner) (l : list Message) : Prop := {
  cr_queue : queue_rep (queue i) l;
  cr_recv : recv_waiter i <> None -> l = [];
  cr_send : send_waiter i <> None -> len l = QUEUE_CAP;
}.

Lemma channel_new_rep : chan_rep channel_inner_new [].
Proof. split; [apply queue_new_rep|done|done]. Qed.

(** What the channel code relies on: the class laws a scheduler must satisfy.
    Scheduling does not touch the channel, and a process that blocks is the
    current one again when [block] returns. *)
Class IpcLaws (W : Type) `{!IpcScheduler W, !HasChannel W} : Prop := {
  chan_put i w : chan (put_chan i w) = i;
  chan_boost p to w : chan (boost p to w) = chan w;
  chan_unboost p w : chan (unboost p w) = chan w;
  chan_wake p w : chan (wake p w) = chan w;
  current_put i w : current (put_chan i w) = current w;
  current_boost p to w : current (boost p to w) = current w;
  current_unboost p w : current (unboost p w) = current w;
  current_wake p w : current (wake p w) = current w;
  current_block p w w' : current w = Some p -> block p w = Ok w' -> current w' = Some p;
  current_block_at p d w w' : current w = Some p -> block_at p d w = Ok w' -> current w' = Some p;
}.

#[export] Hint Rewrite @chan_put @chan_boost @chan_unboost @chan_wake
  @current_put @current_boost @current_unboost @current_wake using typeclasses eauto : ipc.

Section channel_proofs.
Context {W : Type} `{!IpcScheduler W, !HasChannel W, !IpcLaws W}.
Implicit Types w : W.

Lemma chan_wake_opt o w : chan (wake_opt o w) = chan w.
Proof. destruct o; simpl; by rewrite ?chan_wake. Qed.

Lemma current_wake_opt o w : current (wake_opt o w) = current w.
Proof. destruct o; simpl; by rewrite ?current_wake. Qed.

Lemma chan_boost_receiver r w : chan (boost_receiver r w) = chan w.
Proof. unfold boost_receiver; destruct (current w); [|done]; case_match; by rewrite ?chan_boost. Qed.

Lemma current_boost_receiver r w : current (boost_receiver r w) = current w.
Proof. unfold boost_receiver; destruct (current w) eqn:E; [|done]; case_match; by rewrite ?current_boost. Qed.

(** The state after an enqueue: the receiver, if any, is taken off the channel,
    boosted if outranked, and woken. *)
Definition deliver (q : BoundedQueue) (w : W) : W :=
  let i := chan w in
  match recv_waiter i with
  | Some r => wake r (put_chan (set_queue (set_recv_waiter i None) q) (boost_receiver r w))
  | None => put_chan (set_queue i q) w
  end.

Lemma send_room fuel msg w l : chan_rep (chan w) l -> closed (chan w) = false -> len l < QUEUE_CAP ->
  exists q, send (S fuel) msg w = Ok (Val tt, deliver q w) /\ queue_rep q (l ++ [msg]) /\
    chan_rep (chan (deliver q w)) (l ++ [msg]) /\
    recv_waiter (chan (deliver q w)) = None /\ closed (chan (deliver q w)) = false /\
    current (deliver q w) = current w.
Proof.
  intros [Hq Hr Hs] Hopen Hlt; cbn [send]; unfold send_lock; rewrite Hopen.
  destruct (queue_push_rep _ l msg Hq) as (q & Hpush & Hq').
  unfold QueueSpec.push in *; rewrite (proj2 (Z.eqb_neq _ _)) in * by lia; simpl in Hpush, Hq'.
  assert (Hsw : send_waiter (chan w) = None).
  { destruct (send_waiter (chan w)); [|done]; specialize (Hs ltac:(done)); lia. }
  exists q; unfold deliver; destruct (recv_waiter (chan w)) as [r|] eqn:Hrw.
  - rewrite Hpush; cbn [mbind res_bind assert]; split; [done|split; [done|]].
    rewrite chan_wake, chan_put, current_wake, current_put, current_boost_receiver; simpl.
    split_and!; auto; split; simpl; [done|done|by rewrite Hsw].
  - rewrite Hpush; cbn [mbind res_bind]; rewrite chan_put, current_put; simpl.
    rewrite Hsw, bool_decide_false by (by intros [? ?]); simpl.
    split_and!; auto; split; simpl; [done|by rewrite Hrw|by rewrite Hsw].
Qed.

(** The sender records itself as the waiting sender and switches away. *)
Definition await_slot (me : ProcId) (w : W) : res W :=
  block me (put_chan (set_send_waiter (chan w) (Some me)) w).

Lemma send_full fuel msg w l me : chan_rep (chan w) l -> closed (chan w) = false ->
  len l = QUEUE_CAP -> current w = Some me ->
  send (S fuel) msg w = w' ← await_slot me w; send fuel msg w'.
Proof.
  intros [Hq Hr Hs] Hopen Hfull Hme; cbn [send]; unfold send_lock; rewrite Hopen.
  destruct (queue_push_rep _ l msg Hq) as (q & Hpush & Hq').
  unfold QueueSpec.push in *; rewrite (proj2 (Z.eqb_eq _ _)) in * by lia; simpl in Hpush.
  destruct (recv_waiter (chan w)) as [r|] eqn:Hrw.
  { specialize (Hr ltac:(done)); subst; unfold len, QUEUE_CAP in Hfull; simpl in Hfull; lia. }
  rewrite Hpush, Hme; cbn [mbind res_bind unwrap].
  rewrite chan_put, current_put, Hme; simpl; done.
Qed.

Lemma send_closed fuel msg w : closed (chan w) = true -> send (S fuel) msg w = Ok (Err Closed, w).
Proof. intros Hc; cbn [send]; unfold send_lock; by rewrite Hc. Qed.

Lemma await_slot_rep me w l : chan_rep (chan w) l -> len l = QUEUE_CAP ->
  chan_rep (set_send_waiter (chan w) (Some me)) l.
Proof. intros [Hq Hr Hs] Hf; split; auto. Qed.

(** The state after a dequeue: the waiting sender is taken off and woken. *)
Definition dequeued (q : BoundedQueue) (w : W) : W :=
  let i := chan w in
  wake_opt (send_waiter i) (put_chan (set_send_waiter (set_queue i q) None) w).

Lemma dequeued_rep q w m l : chan_rep (chan w) (m :: l) -> queue_rep q l ->
  chan_rep (chan (dequeued q w)) l /\ closed (chan (dequeued q w)) = closed (chan w) /\
  send_waiter (chan (dequeued q w)) = None /\ current (dequeued q w) = current w.
Proof.
  intros [_ Hr _] Hq; unfold dequeued.
  rewrite chan_wake_opt, chan_put, current_wake_opt, current_put; simpl; split_and!; auto.
  split; simpl; [done| |done]. intros Hne; by specialize (Hr Hne).
Qed.

Lemma receive_some fuel w m l : chan_rep (chan w) (m :: l) -> closed (chan w) = false ->
  is_Some (current w) ->
  exists q, receive (S fuel) w = Ok (Val m, dequeued q w) /\ queue_rep q l.
Proof.
  intros [Hq _ _] Hopen [me Hme]; cbn [receive]; rewrite Hme, Hopen; cbn [unwrap mbind res_bind].
  destruct (queue_pop_rep _ _ Hq) as (q & -> & Hq'); cbn [mbind res_bind QueueSpec.pop snd].
  by exists q.
Qed.

(** An empty queue: the boost is dropped and the receiver recorded before the
    switch. *)
Definition await_message (me : ProcId) (q : BoundedQueue) (w : W) : W :=
  put_chan (set_recv_waiter (set_queue (chan w) q) (Some me)) (unboost me w).

Lemma await_message_rep me q w : chan_rep (chan w) [] -> queue_rep q [] ->
  chan_rep (chan (await_message me q w)) [] /\
  recv_waiter (chan (await_message me q w)) = Some me /\
  current (await_message me q w) = current w.
Proof.
  intros [_ _ Hs] Hq; unfold await_message; rewrite chan_put, current_put, current_unboost; simpl.
  split_and!; auto; split; simpl; auto.
Qed.

Lemma receive_empty fuel w me : chan_rep (chan w) [] -> closed (chan w) = false ->
  current w = Some me ->
  exists q, receive (S fuel) w = (w' ← block me (await_message me q w); receive fuel w') /\
    queue_rep q [].
Proof.
  intros [Hq _ _] Hopen Hme; cbn [receive]; rewrite Hme, Hopen; cbn [unwrap mbind res_bind].
  destruct (queue_pop_rep _ _ Hq) as (q & -> & Hq'); cbn [mbind res_bind QueueSpec.pop snd].
  by exists q.
Qed.

Lemma receive_closed fuel w : closed (chan w) = true -> is_Some (current w) ->
  receive (S fuel) w = Ok (Err Closed, w).
Proof. intros Hc [me Hme]; cbn [receive]; by rewrite Hme, Hc. Qed.

(** *** Ordering: what is sent is received, in order *)

Fixpoint send_all (ms : list Message) (w : W) : res W :=
  match ms with
  | [] => Ok w
  | m :: ms' =>
      '(r, w1) ← send 1 m w;
      match r with Val _ => send_all ms' w1 | Err _ => Panic end
  end.

Fixpoint receive_n (n : nat) (w : W) : res (list Message * W) :=
  match n with
  | O => Ok ([], w)
  | S n' =>
      '(r, w1) ← receive 1 w;
      match r with
      | Val m => '(ms, w2) ← receive_n n' w1; Ok (m :: ms, w2)
      | Err _ => Panic
      end
  end.

Lemma send_all_rep ms : forall w l, chan_rep (chan w) l -> closed (chan w) = false ->
  len l + len ms <= QUEUE_CAP ->
  exists w', send_all ms w = Ok w' /\ chan_rep (chan w') (l ++ ms) /\
    closed (chan w') = false /\ current w' = current w.
Proof.
  induction ms as [|m ms IH]; intros w l Hrep Hopen Hlen; cbn [send_all].
  { exists w; by rewrite app_nil_r. }
  unfold len in *; simpl in Hlen.
  destruct (send_room 0 m w l Hrep Hopen) as (q & -> & _ & Hrep' & _ & Hopen' & Hcur');
    [unfold len; lia|]; cbn [mbind res_bind].
  destruct (IH _ _ Hrep' Hopen') as (w' & -> & Hrep'' & Hopen'' & Hcur'').
  { unfold len; rewrite length_app; simpl; lia. }
  exists w'; rewrite <- app_assoc in Hrep''; split_and!; auto; congruence.
Qed.

Lemma receive_n_rep l1 : forall w l2, chan_rep (chan w) (l1 ++ l2) -> closed (chan w) = false ->
  is_Some (current w) ->
  exists w', receive_n (length l1) w = Ok (l1, w') /\ chan_rep (chan w') l2 /\
    closed (chan w') = false /\ current w' = current w.
Proof.
  induction l1 as [|m l1 IH]; intros w l2 Hrep Hopen Hme; cbn [receive_n length].
  { by exists w. }
  destruct (receive_some 0 w m (l1 ++ l2) Hrep Hopen Hme) as (q & -> & Hq); cbn [mbind res_bind].
  destruct (dequeued_rep q w m (l1 ++ l2) Hrep Hq) as (Hrep' & Hcl & _ & Hcur').
  destruct (IH (dequeued q w) l2) as (w' & -> & ? & ? & ?); [done|congruence|by rewrite Hcur'|].
  exists w'; split_and!; auto; congruence.
Qed.

(** C1: a channel is a reliable FIFO: messages sent while there is room are
    received exactly once and in the order sent, behind those already queued,
    and the channel ends up empty. *)
Theorem send_receive_fifo (w : W) (l ms : list Message)
    (Hrep : chan_rep (chan w) l) (Hopen : closed (chan w) = false)
    (Hcur : is_Some (current w)) (Hroom : len l + len ms <= QUEUE_CAP) :
  exists w1 w2, send_all ms w = Ok w1 /\
    receive_n (length (l ++ ms)) w1 = Ok (l ++ ms, w2) /\
    chan_rep (chan w2) [] /\ current w2 = current w.
Proof.
  destruct (send_all_rep ms w l Hrep Hopen Hroom) as (w1 & Hs & Hrep1 & Hopen1 & Hcur1).
  destruct (receive_n_rep (l ++ ms) w1 []) as (w2 & Hr & Hrep2 & _ & Hcur2);
    [by rewrite app_nil_r|done|by rewrite Hcur1|].
  exists w1, w2; split_and!; auto; congruence.
Qed.

(** The fast path of [send] and priority inheritance: with a receiver
    blocked, [send] returns after one pass, the message is the only queued one,
    the receiver is taken off the channel and woken, and it is boosted to the
    sender's level exactly when the sender is more urgent. *)
Lemma send_fast_path (fuel : nat) (msg : Message) (w : W) (l : list Message) (me r : ProcId)
    (Hrep : chan_rep (chan w) l) (Hopen : closed (chan w) = false)
    (Hcur : current w = Some me) (Hrecv : recv_waiter (chan w) = Some r) :
  exists i', send (S fuel) msg w =
      Ok (Val tt, wake r (put_chan i'
            (if priority w me <? priority w r then boost r (priority w me) w else w))) /\
    chan_rep i' [msg] /\ recv_waiter i' = None.
Proof.
  pose proof Hrep as [_ Hr _]; rewrite Hrecv in Hr; specialize (Hr ltac:(done)); subst l.
  destruct (send_room fuel msg w [] Hrep Hopen) as (q & Hsend & Hq & Hrep' & Hrw & _ & _); [done|].
  unfold deliver in *; rewrite Hrecv in *.
  unfold boost_receiver in *; rewrite Hcur in *.
  rewrite chan_wake, chan_put in Hrep', Hrw; eauto.
Qed.

(** *** Blocking senders *)

(** [n] rounds of finding the queue full and switching away. *)
Fixpoint full_rounds (n : nat) (me : ProcId) (w : W) : res W :=
  match n with
  | O => Ok w
  | S n' => w' ← await_slot me w; full_rounds n' me w'
  end.

(** C24: a [send] on a full channel blocks and retries: if the queue is full on
    the first [n] passes and the sender is resumed each time, then on the next
    pass either the queue has room, and [send] returns success with the message
    enqueued exactly once, at the tail of what is queued then, or the channel
    was closed meanwhile, and [send] returns [Closed] and enqueues nothing (the
    doc comments of [close] and [IpcErr] promise [Full] here). *)
Theorem send_blocks_until_room (n : nat) (fuel : nat) (msg : Message) (w wn : W) (me : ProcId)
    (l : list Message)
    (Hcur : current w = Some me)
    (Hfull : forall k wk, (k < n)%nat -> full_rounds k me w = Ok wk ->
               closed (chan wk) = false /\
               exists l, chan_rep (chan wk) l /\ len l = QUEUE_CAP)
    (Hrounds : full_rounds n me w = Ok wn)
    (Hrep : chan_rep (chan wn) l) (Hroom : closed (chan wn) = false -> len l < QUEUE_CAP) :
  if closed (chan wn)
  then send (n + S fuel) msg w = Ok (Err Closed, wn)
  else exists q, send (n + S fuel) msg w = Ok (Val tt, deliver q wn) /\
         chan_rep (chan (deliver q wn)) (l ++ [msg]).
Proof.
  revert w Hcur Hfull Hrounds; induction n as [|n IH]; intros w Hcur Hfull Hrounds;
    cbn [plus full_rounds] in *.
  - injection Hrounds as <-.
    destruct (closed (chan w)) eqn:Hc; [by apply send_closed|].
    destruct (send_room fuel msg w l Hrep Hc) as (q & Hs & _ & Hr' & _); [by apply Hroom|eauto].
  - destruct (Hfull O w) as (Hc & l0 & Hrep0 & Hl0); [lia|done|].
    rewrite (send_full _ _ _ l0 me) by done.
    destruct (await_slot me w) as [w1| |] eqn:Haw; try done; cbn [mbind res_bind] in *.
    apply IH; [|intros k wk Hk Hkk; apply (Hfull (S k)); [lia|by cbn [full_rounds]; rewrite Haw]|done].
    eapply current_block; [|exact Haw]; by rewrite current_put.
Qed.

(** *** Closing *)

(** After [close] the channel is closed for good: both waiters are off the
    channel, and every later send, reply with a matching tag, receive and
    non-blocking attempt returns [Closed] without changing anything. *)
Lemma close_is_final (w : W) (fuel : nat) (msg : Message) (d : Z) (Hcur : is_Some (current w)) :
  let w' := close w in
  recv_waiter (chan w') = None /\ send_waiter (chan w') = None /\
  queue (chan w') = queue (chan w) /\ current w' = current w /\
  send (S fuel) msg w' = Ok (Err Closed, w') /\ reply (S fuel) (tag msg) msg w' = Ok (Err Closed, w') /\
  receive (S fuel) w' = Ok (Err Closed, w') /\ receive_at (S fuel) d w' = Ok (Err Closed, w') /\
  try_send msg w' = Ok (Err Closed, w') /\ try_receive w' = Ok (Err Closed, w').
Proof.
  cbv zeta; unfold close.
  set (w' := wake_opt _ _); assert (Hc : chan w' = {| queue := queue (chan w); recv_waiter := None;
    send_waiter := None; closed := true |}) by (unfold w'; by rewrite !chan_wake_opt, chan_put).
  assert (Hw : current w' = current w) by (unfold w'; by rewrite !current_wake_opt, current_put).
  destruct Hcur as [me Hme]; rewrite Hme in Hw.
  unfold reply, try_send, try_receive; cbn [send receive receive_at]; unfold send_lock.
  by rewrite Z.eqb_refl, Hw, Hme, Hc; simpl.
Qed.

(** *** Bounded receive *)

(** [receive_at] never waits past a message or a passed deadline: a queued
    message is returned first, else a deadline already reached gives the
    timeout message at once, and only a future deadline blocks, for exactly
    that deadline, with the receiver recorded. *)
Lemma receive_at_cases (fuel : nat) (d : Z) (w : W) (l : list Message) (me : ProcId)
    (Hrep : chan_rep (chan w) l) (Hopen : closed (chan w) = false) (Hcur : current w = Some me) :
  match l with
  | m :: l' => exists q, receive_at (S fuel) d w = Ok (Val m, dequeued q w) /\
      chan_rep (chan (dequeued q w)) l'
  | [] =>
      if d <=? now w
      then exists w', receive_at (S fuel) d w = Ok (Val timeout_message, w') /\
             chan_rep (chan w') [] /\ recv_waiter (chan w') = recv_waiter (chan w)
      else exists q, receive_at (S fuel) d w =
             (w' ← block_at me d (await_message me q w); receive_at fuel d w') /\
             chan_rep (chan (await_message me q w)) [] /\
             recv_waiter (chan (await_message me q w)) = Some me
  end.
Proof.
  cbn [receive_at]; rewrite Hcur, Hopen; cbn [unwrap mbind res_bind].
  destruct (queue_pop_rep _ _ (cr_queue _ _ Hrep)) as (q & Hpop & Hq').
  rewrite Hpop; cbn [mbind res_bind]; destruct l as [|m l]; cbn [QueueSpec.pop fst snd] in *.
  - destruct (d <=? now w).
    + eexists; split; [reflexivity|]; rewrite chan_put; simpl; split; [|done].
      destruct Hrep as [_ Hr Hs]; by split.
    + exists q; destruct (await_message_rep me q w Hrep Hq') as (?&?&?); by split_and!.
  - exists q; split; [done|]. by destruct (dequeued_rep q w m l Hrep Hq').
Qed.

(** *** No panic under interference *)

Definition inv (w : W) : Prop := exists l, chan_rep (chan w) l.

(** An outcome without a panic that keeps the invariant. *)
Definition safe_outcome {A} (r : res (A * W)) : Prop :=
  match r with Ok (_, w') => inv w' | Panic => False | Timeout => True end.

Lemma pop_dequeued_inv w q m l : chan_rep (chan w) (m :: l) -> queue_rep q l -> inv (dequeued q w).
Proof. intros Hrep Hq; exists l; by destruct (dequeued_rep q w m l Hrep Hq). Qed.

Lemma try_send_safe msg w : inv w -> safe_outcome (try_send msg w).
Proof.
  intros (l & [Hq Hr Hs]); unfold try_send; destruct (closed (chan w)); [by exists l|].
  destruct (queue_push_rep _ l msg Hq) as (q & Hpush & Hq'); rewrite Hpush.
  unfold QueueSpec.push in *.
  destruct (recv_waiter (chan w)) as [r|] eqn:Hrw; cbn [mbind res_bind].
  - rewrite (Hr ltac:(done)) in *; simpl in *; exists [msg]; rewrite chan_wake, chan_put.
    split; simpl; [done|done|]; intros Hne; specialize (Hs Hne); done.
  - destruct (Z.eqb_spec (len l) QUEUE_CAP) as [|Hne]; simpl in *; [by exists l|].
    exists (l ++ [msg]); rewrite chan_put; split; simpl; [done|by rewrite Hrw|].
    intros Hsw; by specialize (Hs Hsw).
Qed.

Lemma try_receive_safe w : inv w -> safe_outcome (try_receive w).
Proof.
  intros (l & Hrep); unfold try_receive; destruct (closed (chan w)); [by exists l|].
  destruct (queue_pop_rep _ _ (cr_queue _ _ Hrep)) as (q & Hpop & Hq'); rewrite Hpop.
  destruct l as [|m l]; cbn [mbind res_bind QueueSpec.pop fst snd safe_outcome] in *.
  - exists []; rewrite chan_put; destruct Hrep as [_ Hr Hs]; by split.
  - by eapply pop_dequeued_inv.
Qed.

Section rely.
(** The processes that run while the caller is blocked keep the invariant. *)
Definition safe_switch (r : res W) : Prop :=
  match r with Ok w' => inv w' | Panic => False | Timeout => True end.
Hypothesis block_keeps : forall p w, inv w -> current w = Some p -> safe_switch (block p w).
Hypothesis block_at_keeps : forall p d w, inv w -> current w = Some p -> safe_switch (block_at p d w).

Lemma send_safe fuel msg w : inv w -> is_Some (current w) -> safe_outcome (send fuel msg w).
Proof.
  revert w; induction fuel as [|fuel IH]; intros w [l Hrep] [me Hme]; [done|].
  destruct (closed (chan w)) eqn:Hc; [rewrite send_closed by done; by exists l|].
  pose proof (rep_cap _ _ (cr_queue _ _ Hrep)).
  destruct (Z.eq_dec (len l) QUEUE_CAP) as [Hf|Hnf].
  - rewrite (send_full _ _ _ l me) by done; unfold await_slot.
    set (w1 := put_chan _ w); assert (Hc1 : current w1 = Some me) by (unfold w1; by rewrite current_put).
    assert (Hb : safe_switch (block me w1)).
    { apply block_keeps; [exists l; unfold w1; rewrite chan_put; by apply await_slot_rep|done]. }
    destruct (block me w1) as [w2| |] eqn:Hbl; try done; simpl.
    apply IH; [done|]. eexists; by eapply current_block.
  - destruct (send_room fuel msg w l Hrep Hc) as (q & -> & _ & Hr' & _); [lia|by exists (l ++ [msg])].
Qed.

Lemma receive_safe fuel w : inv w -> is_Some (current w) -> safe_outcome (receive fuel w).
Proof.
  revert w; induction fuel as [|fuel IH]; intros w [l Hrep] [me Hme]; [done|].
  destruct (closed (chan w)) eqn:Hc; [rewrite receive_closed by eauto; by exists l|].
  destruct l as [|m l].
  - destruct (receive_empty fuel w me Hrep Hc Hme) as (q & -> & Hq).
    destruct (await_message_rep me q w Hrep Hq) as (Hr' & _ & Hcur'); rewrite Hme in Hcur'.
    assert (Hb : safe_switch (block me (await_message me q w))) by (apply block_keeps; [by exists []|done]).
    destruct (block me (await_message me q w)) as [w2| |] eqn:Hbl; try done; simpl.
    apply IH; [done|]. eexists; by eapply current_block.
  - destruct (receive_some fuel w m l Hrep Hc) as (q & -> & Hq); [eauto|].
    by eapply pop_dequeued_inv.
Qed.

Lemma receive_at_safe fuel d w : inv w -> is_Some (current w) -> safe_outcome (receive_at fuel d w).
Proof.
  revert w; induction fuel as [|fuel IH]; intros w [l Hrep] [me Hme]; [done|].
  cbn [receive_at]; rewrite Hme; cbn [unwrap mbind res_bind].
  destruct (closed (chan w)); [by exists l|].
  destruct (queue_pop_rep _ _ (cr_queue _ _ Hrep)) as (q & Hpop & Hq'); rewrite Hpop.
  destruct l as [|m l]; cbn [mbind res_bind QueueSpec.pop fst snd] in *.
  - destruct (d <=? now w).
    + exists []; rewrite chan_put; destruct Hrep as [_ Hr Hs]; by split.
    + destruct (await_message_rep me q w Hrep Hq') as (Hr' & _ & Hcur'); rewrite Hme in Hcur'.
      fold (await_message me q w).
      assert (Hb : safe_switch (block_at me d (await_message me q w))) by (apply block_at_keeps; [by exists []|done]).
      destruct (block_at me d (await_message me q w)) as [w2| |] eqn:Hbl; try done; simpl.
      apply IH; [done|]. eexists; by eapply current_block_at.
  - by eapply pop_dequeued_inv.
Qed.

(** C5: no channel operation panics and each keeps the channel invariant,
    whatever the other processes do to the channel while the caller is blocked
    as long as they keep it too: in particular the [debug_assert!] of the fast
    path never fires, and no index or counter of the ring overflows. *)
Theorem channel_ops_safe (fuel : nat) (w : W) (msg : Message) (tg d : Z)
    (Hinv : inv w) (Hcur : is_Some (current w)) :
  safe_outcome (send fuel msg w) /\ safe_outcome (reply fuel tg msg w) /\
  safe_outcome (receive fuel w) /\ safe_outcome (receive_at fuel d w) /\
  safe_outcome (try_send msg w) /\ safe_outcome (try_receive w) /\ inv (close w).
Proof.
  split_and!; auto using send_safe, receive_safe, receive_at_safe, try_send_safe, try_receive_safe.
  - unfold reply; destruct (negb _); [done|by apply send_safe].
  - destruct Hinv as [l [Hq Hr Hs]]; exists l; unfold close.
    rewrite !chan_wake_opt, chan_put; by split.
Qed.
End rely.
End channel_proofs.

(** ** A concrete scheduler

    The cooperative mock of the unit tests: when a process blocks, the recorded
    action (the other process's work) runs. *)
Module Mock.

Inductive action := Nothing | Drain | CloseChannel | Deliver (m : Message) | Advance (t : Z).

Record world := {
  cur : option ProcId;
  base : list Z;
  eff : list Z;
  counter : Z;
  channel : ChannelInner;
  on_block : action;
}.

Definition set_channel (i : ChannelInner) (w : world) : world :=
  {| cur := cur w; base := base w; eff := eff w; counter := counter w; channel := i;
     on_block := on_block w |}.

Definition set_eff (p : ProcId) (v : Z) (w : world) : world :=
  {| cur := cur w; base := base w; eff := <[Z.to_nat p := v]> (eff w); counter := counter w;
     channel := channel w; on_block := on_block w |}.

Definition level (l : list Z) (p : ProcId) : Z := default 0 (l !! Z.to_nat p).

(** What the other process does to the channel. *)
Definition act (a : action) (i : ChannelInner) : ChannelInner :=
  match a with
  | Nothing | Advance _ => i
  | CloseChannel => {| queue := queue i; recv_waiter := None; send_waiter := None; closed := true |}
  | Drain =>
      match Queue.pop (queue i) with
      | Ok (q, Some _) => set_send_waiter (set_queue i q) None
      | Ok (q, None) => set_queue i q
      | _ => i
      end
  | Deliver m =>
      match Queue.push (queue i) m with
      | Ok (q, true) => set_queue (set_recv_waiter i None) q
      | _ => i
      end
  end.

Definition run_other (w : world) : world :=
  {| cur := cur w; base := base w; eff := eff w;
     counter := match on_block w with Advance t => t | _ => counter w end;
     channel := act (on_block w) (channel w); on_block := on_block w |}.

#[export] Instance mock_sched : IpcScheduler world := {
  current := cur;
  priority w p := level (eff w) p;
  boost p to w := if to <? level (eff w) p then set_eff p to w else w;
  unboost p w := set_eff p (level (base w) p) w;
  block _ w := Ok (run_other w);
  wake _ w := w;
  now := counter;
  block_at _ _ w := Ok (run_other w);
}.

#[export] Instance mock_channel : HasChannel world := {
  chan := channel;
  put_chan := set_channel;
}.

#[export] Instance mock_laws : IpcLaws world.
Proof. split; intros; simpl in *; simplify_eq; try done; by case_match. Qed.

Lemma act_rep a i l : chan_rep i l -> exists l', chan_rep (act a i) l'.
Proof.
  intros [Hq Hr Hs]; destruct a as [| | |m|t]; simpl.
  - by exists l.
  - destruct (queue_pop_rep _ _ Hq) as (q & -> & Hq'); destruct l as [|m l]; simpl in *.
    + by exists [].
    + exists l; split; simpl; auto; [|done]; intros H; by specialize (Hr H).
  - by exists l.
  - destruct (queue_push_rep _ _ m Hq) as (q & -> & Hq'); unfold QueueSpec.push in *.
    destruct (Z.eqb_spec (len l) QUEUE_CAP) as [|Hne]; simpl in *; [by exists l|].
    exists (l ++ [m]); split; simpl; auto; [done|]; intros H; by specialize (Hs H).
  - by exists l.
Qed.

Lemma block_keeps p w : inv w -> current w = Some p -> safe_switch (block p w).
Proof. intros [l H] _; by apply (act_rep (on_block w)) in H. Qed.

Lemma block_at_keeps p d w : inv w -> current w = Some p -> safe_switch (block_at p d w).
Proof. intros [l H] _; by apply (act_rep (on_block w)) in H. Qed.

(** Client 0 at level 16, server 1 at level 200. *)
Definition start_world (p : ProcId) (i : ChannelInner) (a : action) : world :=
  {| cur := Some p; base := [16; 200]; eff := [16; 200]; counter := 50; channel := i; on_block := a |}.

Definition msg (t : Z) : Message := message_new 1 t [t].

Definition ring (n : nat) : BoundedQueue :=
  {| slots := (Some <$> (msg <$> seqZ 0 (Z.of_nat n))) ++ replicate (8 - n) None;
     head := 0; qlen := Z.of_nat n |}.

Definition mk (n : nat) (r s : option ProcId) : ChannelInner :=
  {| queue := ring n; recv_waiter := r; send_waiter := s; closed := false |}.

Lemma ring_rep (n : nat) : (n <= 8)%nat -> queue_rep (ring n) (msg <$> seqZ 0 (Z.of_nat n)).
Proof.
  intros Hn; set (l := msg <$> seqZ 0 (Z.of_nat n)).
  assert (Hl : length l = n) by (unfold l; rewrite length_fmap, length_seqZ; lia).
  split; unfold len, QUEUE_CAP in *; cbn [slots head qlen ring]; fold l.
  - rewrite length_app, length_fmap, length_replicate; lia.
  - lia.
  - lia.
  - lia.
  - intros k Hk; unfold ring_slot; cbn [slots head ring]; fold l.
    unfold QUEUE_CAP; rewrite Z.add_0_l, Z.mod_small by lia.
    destruct (l !! Z.to_nat k) as [m|] eqn:E.
    + rewrite lookup_app_l by (rewrite length_fmap; by apply lookup_lt_Some in E).
      by rewrite list_lookup_fmap, E.
    + apply lookup_ge_None in E; rewrite lookup_app_r by (rewrite length_fmap; lia).
      rewrite length_fmap; by rewrite lookup_replicate_2 by lia.
Qed.

Lemma send_receive_fifo_witness :
  exists w1 w2, send_all [msg 7; msg 8] (start_world 1 (mk 1 None None) Nothing) = Ok w1 /\
    receive_n 3 w1 = Ok ([msg 0; msg 7; msg 8], w2).
Proof.
  destruct (send_receive_fifo (start_world 1 (mk 1 None None) Nothing) [msg 0] [msg 7; msg 8])
    as (w1 & w2 & H1 & H2 & _).
  - split; [exact (ring_rep 1 ltac:(lia))|done|done].
  - reflexivity.
  - exists 1; reflexivity.
  - done.
  - exists w1, w2; split; [exact H1|exact H2].
Defined.

Lemma send_blocks_until_room_witness :
  exists w', send 2 (msg 99) (start_world 0 (mk 8 None None) Drain) = Ok (Val tt, w').
Proof.
  set (w := start_world 0 (mk 8 None None) Drain).
  destruct (act_rep Drain (set_send_waiter (mk 8 None None) (Some 0)) (msg <$> seqZ 0 8)) as [l Hl].
  { split; [exact (ring_rep 8 ltac:(lia))|done|done]. }
  destruct (send_blocks_until_room 1 0 (msg 99) w
    (run_other (set_channel (set_send_waiter (mk 8 None None) (Some 0)) w)) 0 l) as (q & H & _).
  - reflexivity.
  - intros k wk Hk; assert (k = 0%nat) as -> by lia; intros [= <-]; split; [reflexivity|].
    exists (msg <$> seqZ 0 8); split; [split; [exact (ring_rep 8 ltac:(lia))|done|done]|reflexivity].
  - reflexivity.
  - exact Hl.
  - intros _; rewrite <- (rep_len _ _ (cr_queue _ _ Hl)); reflexivity.
  - eexists; exact H.
Defined.

Lemma channel_ops_safe_witness :
  safe_outcome (send 3 (msg 5) (start_world 0 (mk 8 None None) CloseChannel)).
Proof.
  apply (channel_ops_safe block_keeps block_at_keeps 3
           (start_world 0 (mk 8 None None) CloseChannel) (msg 5) 0 0).
  - exists (msg <$> seqZ 0 8); split; [exact (ring_rep 8 ltac:(lia))|done|done].
  - exists 0; reflexivity.
Defined.

(** Only the latest blocked sender is remembered: when a second process
    blocks on the full queue, the first one's registration is overwritten, and
    a receive that frees a slot leaves nobody registered and wakes the second
    only. *)
Lemma second_sender_overwrites_first :
  exists w1 w2 w3,
    send_lock (msg 1) (start_world 0 (mk 8 None None) Nothing) = Ok (Val None, w1) /\
    send_waiter (chan w1) = Some 0 /\
    send_lock (msg 2) (start_world 1 (chan w1) Nothing) = Ok (Val None, w2) /\
    send_waiter (chan w2) = Some 1 /\ is_blocked_on (chan w2) 0 = false /\
    try_receive w2 = Ok (Val (msg 0), w3) /\ send_waiter (chan w3) = None.
Proof. do 3 eexists; split_and!; reflexivity. Qed.

End Mock.
