(* ===== verification/Elf.v ===== *)
(** * The ELF64 reader ([port/src/elf.rs])

    Turns the bytes of an embedded user binary into its entry point, its
    [PT_LOAD] segments and the coordinates of its symbol table. *)

From S2P Require Import Prelude.

Record Segment := { vaddr : Z; offset : Z; filesz : Z; memsz : Z; exec : bool }.

Record SymTable := { sym_offset : Z; nsyms : Z; strtab_offset : Z }.

(** The image in memory and the place of its symbol table. *)
Record SymRef := { image : list Z; tab : SymTable }.

Record Elf := {
  entry : Z;
  segments_arr : list Segment;
  nsegments : Z;
  symtab : option SymTable;
}.

#[global] Instance Segment_eq_dec : EqDecision Segment.
Proof. solve_decision. Defined.
#[global] Instance SymTable_eq_dec : EqDecision SymTable.
Proof. solve_decision. Defined.

(** [&self.segments[..self.nsegments]]. *)
Definition segments (e : Elf) : list Segment := take (Z.to_nat (nsegments e)) (segments_arr e).

Definition MAX_SEGMENTS : Z := 16.

Inductive ElfError :=
  | NotElf | Not64 | WrongEndian | NotExec | NoLoadSegment | Truncated | BadSegment
  | TooManySegments.

#[global] Instance ElfError_eq_dec : EqDecision ElfError.
Proof. solve_decision. Defined.

Definition EI_CLASS64 : Z := 2.
Definition EI_DATA_LE : Z := 1.
Definition ET_EXEC : Z := 2.
Definition PT_LOAD : Z := 1.
Definition PF_X : Z := 1.
Definition EHDR_SIZE : Z := 64.
Definition PHDR_SIZE : Z := 56.
Definition SHDR_SIZE : Z := 64.
Definition SHT_SYMTAB : Z := 2.
Definition SYMENT_SIZE : Z := 24.

Definition read_le (n : Z) (elf : list Z) (off : Z) : res (result Z ElfError) :=
  e ← uadd off n;
  ok_or (from_le <$> sget elf off (e - off)) Truncated.

Definition read_u16 := read_le 2.
Definition read_u32 := read_le 4.
Definition read_u64 := read_le 8.

Definition elf_magic : list Z := [0x7f; 0x45; 0x4c; 0x46].
Definition no_segment : Segment :=
  {| vaddr := 0; offset := 0; filesz := 0; memsz := 0; exec := false |}.

(** The loop over the program headers, with the array and its count. *)
Fixpoint read_segments (elf : list Z) (phoff : Z) (ixs : list Z) (segs : list Segment) (n : Z)
    : res (result (list Segment * Z) ElfError) :=
  match ixs with
  | [] => Ok (Val (segs, n))
  | i :: ixs' =>
      o ← umul i PHDR_SIZE;
      base ← uadd phoff o;
      p_type ←? read_u32 elf base;
      if negb (p_type =? PT_LOAD) then read_segments elf phoff ixs' segs n else
      b4 ← uadd base 4; p_flags ←? read_u32 elf b4;
      b8 ← uadd base 8; off ←? read_u64 elf b8;
      b16 ← uadd base 16; va ←? read_u64 elf b16;
      b32 ← uadd base 32; fsz ←? read_u64 elf b32;
      b40 ← uadd base 40; msz ←? read_u64 elf b40;
      if msz <? fsz then Ok (Err BadSegment) else
      seg_end ←? ok_or (checked_add off fsz) BadSegment;
      if len elf <? seg_end then Ok (Err BadSegment) else
      if n =? MAX_SEGMENTS then Ok (Err TooManySegments) else
      segs' ← aset segs n {| vaddr := va; offset := off; filesz := fsz; memsz := msz;
                             exec := negb (Z.land p_flags PF_X =? 0) |};
      n' ← uadd n 1;
      read_segments elf phoff ixs' segs' n'
  end.

(** The search for the first usable [SHT_SYMTAB] section. *)
Fixpoint find_symtab (elf : list Z) (shoff shnum : Z) (ixs : list Z)
    : res (result (option SymTable) ElfError) :=
  match ixs with
  | [] => Ok (Val None)
  | i :: ixs' =>
      o ← umul i SHDR_SIZE;
      base ← uadd shoff o;
      b4 ← uadd base 4; sh_type ←? read_u32 elf b4;
      if negb (sh_type =? SHT_SYMTAB) then find_symtab elf shoff shnum ixs' else
      b24 ← uadd base 24; sh_offset ←? read_u64 elf b24;
      b32 ← uadd base 32; sh_size ←? read_u64 elf b32;
      b40 ← uadd base 40; sh_link ←? read_u32 elf b40;
      b56 ← uadd base 56; sh_entsize ←? read_u64 elf b56;
      if negb (sh_entsize =? SYMENT_SIZE) || (shnum <=? sh_link)
      then find_symtab elf shoff shnum ixs' else
      let n := sh_size / SYMENT_SIZE in
      lo ← umul sh_link SHDR_SIZE;
      strtab_base ← uadd shoff lo;
      s24 ← uadd strtab_base 24; st_offset ←? read_u64 elf s24;
      e ← uadd sh_offset sh_size;
      Ok (Val (if (e <=? len elf) && (st_offset <=? len elf)
               then Some {| sym_offset := sh_offset; nsyms := n; strtab_offset := st_offset |}
               else None))
  end.

Definition read_symtab (elf : list Z) : res (result (option SymTable) ElfError) :=
  shoff ←? read_u64 elf 40;
  shentsize ←? read_u16 elf 58;
  shnum ←? read_u16 elf 60;
  if (0 <? shnum) && (0 <? shoff) && (shentsize =? SHDR_SIZE) then
    sz ← umul shnum SHDR_SIZE;
    table_end ←? ok_or (checked_add shoff sz) Truncated;
    if table_end <=? len elf then find_symtab elf shoff shnum (seqZ 0 shnum) else Ok (Val None)
  else Ok (Val None).

(** The program-header table must fit before it is walked. *)
Definition check_phdrs (elf : list Z) (phoff phentsize phnum : Z) : res (result unit ElfError) :=
  if 0 <? phnum then
    if negb (phentsize =? PHDR_SIZE) then Ok (Err Truncated) else
    sz ← umul phnum PHDR_SIZE;
    table_end ←? ok_or (checked_add phoff sz) Truncated;
    if len elf <? table_end then Ok (Err Truncated) else Ok (Val tt)
  else Ok (Val tt).

Definition parse (elf : list Z) : res (result Elf ElfError) :=
  ident ←? ok_or (sget elf 0 16) Truncated;
  magic ← unwrap (sget ident 0 4);
  if negb (bool_decide (magic = elf_magic)) then Ok (Err NotElf) else
  class ← aget ident 4;
  if negb (class =? EI_CLASS64) then Ok (Err Not64) else
  data ← aget ident 5;
  if negb (data =? EI_DATA_LE) then Ok (Err WrongEndian) else
  if len elf <? EHDR_SIZE then Ok (Err Truncated) else
  e_type ←? read_u16 elf 16;
  if negb (e_type =? ET_EXEC) then Ok (Err NotExec) else
  ent ←? read_u64 elf 24;
  phoff ←? read_u64 elf 32;
  phentsize ←? read_u16 elf 54;
  phnum ←? read_u16 elf 56;
  _ ←? check_phdrs elf phoff phentsize phnum;
  sn ←? read_segments elf phoff (seqZ 0 phnum) (replicate (Z.to_nat MAX_SEGMENTS) no_segment) 0;
  if sn.2 =? 0 then Ok (Err NoLoadSegment) else
  st ←? read_symtab elf;
  Ok (Val {| entry := ent; segments_arr := sn.1; nsegments := sn.2; symtab := st |}).

(** ** What a well-formed executable is *)

(** The little-endian field of [n] bytes at an offset. *)
Definition field (elf : list Z) (off n : Z) : Z :=
  from_le (take (Z.to_nat n) (drop (Z.to_nat off) elf)).

Definition phnum_of (elf : list Z) : Z := field elf 56 2.
Definition phoff_of (elf : list Z) : Z := field elf 32 8.
Definition shnum_of (elf : list Z) : Z := field elf 60 2.
Definition shoff_of (elf : list Z) : Z := field elf 40 8.

(** File offsets of the program headers to load. *)
Definition load_headers (elf : list Z) : list Z :=
  filter (fun b => field elf b 4 = PT_LOAD)
    ((fun i => phoff_of elf + i * PHDR_SIZE) <$> seqZ 0 (phnum_of elf)).

Definition segment_at (elf : list Z) (b : Z) : Segment :=
  {| vaddr := field elf (b + 16) 8; offset := field elf (b + 8) 8; filesz := field elf (b + 32) 8;
     memsz := field elf (b + 40) 8; exec := Z.odd (field elf (b + 4) 4) |}.

Definition segment_ok (elf : list Z) (s : Segment) : Prop :=
  filesz s <= memsz s /\ offset s + filesz s <= len elf.

Record elf_ok (elf : list Z) : Prop := {
  ok_header : EHDR_SIZE <= len elf;
  ok_magic : take 4 elf = elf_magic;
  ok_class : elf !! 4%nat = Some EI_CLASS64;
  ok_data : elf !! 5%nat = Some EI_DATA_LE;
  ok_type : field elf 16 2 = ET_EXEC;
  ok_phdrs : 0 < phnum_of elf ->
    field elf 54 2 = PHDR_SIZE /\ phoff_of elf + phnum_of elf * PHDR_SIZE <= len elf;
  ok_segments : Forall (segment_ok elf) (segment_at elf <$> load_headers elf);
  ok_count : 1 <= len (load_headers elf) <= MAX_SEGMENTS;
  ok_sections : 0 < shnum_of elf -> 0 < shoff_of elf -> field elf 58 2 = SHDR_SIZE ->
    shoff_of elf + shnum_of elf * SHDR_SIZE < W64;
}.

(** Every symbol table section has an end that fits in 64 bits. *)
Definition symtabs_fit (elf : list Z) : Prop :=
  forall i, 0 <= i < shnum_of elf -> let b := shoff_of elf + i * SHDR_SIZE in
    field elf (b + 4) 4 = SHT_SYMTAB -> field elf (b + 24) 8 + field elf (b + 32) 8 < W64.

(** ** Proofs *)

Section reader.
Context (elf : list Z) (Hbytes : bytes_ok elf) (Hlen : len elf < 2 ^ 63).

Lemma len_W64 : len elf < W64.
Proof. rewrite W64_val; lia. Qed.

Lemma read_le_in n off : 0 <= off -> 0 <= n -> off + n <= len elf ->
  read_le n elf off = Ok (Val (field elf off n)).
Proof.
  intros; unfold read_le; pose proof len_W64; rewrite bind_uadd by lia.
  unfold sget; replace (off + n - off) with n by lia.
  by rewrite !(proj2 (Z.leb_le _ _)) by lia.
Qed.

Lemma field_bound off n : 0 <= n -> 0 <= field elf off n < 256 ^ n.
Proof.
  intros Hn; unfold field; set (l := take _ _).
  assert (Hl : bytes_ok l) by (by apply Forall_take, Forall_drop).
  pose proof (from_le_bound l Hl) as [H1 H2]; split; [done|].
  eapply Z.lt_le_trans; [exact H2|]; apply Z.pow_le_mono_r; [lia|].
  unfold l; rewrite length_take; lia.
Qed.

Lemma field16 off : 0 <= field elf off 2 < 65536.
Proof. by apply field_bound. Qed.
Lemma field32 off : 0 <= field elf off 4 < 4294967296.
Proof. by apply field_bound. Qed.
Lemma field64 off : 0 <= field elf off 8 < W64.
Proof. by apply field_bound. Qed.

Lemma try_read {B} n off (f : Z -> res (result B ElfError)) :
  0 <= off -> 0 <= n -> off + n <= len elf -> try_bind (read_le n elf off) f = f (field elf off n).
Proof. intros; by rewrite read_le_in. Qed.

(** One step of the reader at the head of the computation. *)
Ltac rd :=
  lazymatch goal with
  | |- exists r, ?m = @?g r /\ @?h r =>
      lazymatch m with
      | umul ?a ?b ≫= ?f => rewrite (bind_umul a b f) by lia
      | uadd ?a ?b ≫= ?f => rewrite (bind_uadd a b f) by lia
      | try_bind (read_le ?n elf ?o) ?f => rewrite (try_read n o f) by lia
      end
  end.

(** What the loop over the program headers returns. *)
Definition read_result (hs : list Z) (dn : list Segment) (r : result (list Segment * Z) ElfError) : Prop :=
  match r with
  | Val (segs', n') =>
      Forall (segment_ok elf) (segment_at elf <$> hs) /\ n' = len dn + len hs /\
      n' <= MAX_SEGMENTS /\ len segs' = MAX_SEGMENTS /\
      take (Z.to_nat n') segs' = dn ++ (segment_at elf <$> hs)
  | Err _ => ~ (Forall (segment_ok elf) (segment_at elf <$> hs) /\ len dn + len hs <= MAX_SEGMENTS)
  end.

Definition headers_in (phoff : Z) (ixs : list Z) : list Z :=
  filter (fun b => field elf b 4 = PT_LOAD) ((fun i => phoff + i * PHDR_SIZE) <$> ixs).

(** A segment that is refused refuses the whole table. *)
Lemma read_result_bad b hs dn e : ~ segment_ok elf (segment_at elf b) ->
  read_result (b :: hs) dn (Err e).
Proof. intros Hb [Hf _]; apply Hb; by inversion Hf. Qed.

Lemma take_insert_next (segs : list Segment) n x : 0 <= n < len segs ->
  take (Z.to_nat (n + 1)) (<[Z.to_nat n := x]> segs) = take (Z.to_nat n) segs ++ [x].
Proof.
  intros Hn; unfold len in *; replace (Z.to_nat (n + 1)) with (S (Z.to_nat n)) by lia.
  rewrite (take_S_r _ _ x) by (apply list_lookup_insert_eq; lia).
  by rewrite take_insert_ge by lia.
Qed.

Lemma read_segments_spec phoff ixs : 0 <= phoff ->
  Forall (fun i => 0 <= i /\ phoff + i * PHDR_SIZE + PHDR_SIZE <= len elf) ixs ->
  forall segs dn, len segs = MAX_SEGMENTS -> len dn <= MAX_SEGMENTS ->
    take (Z.to_nat (len dn)) segs = dn ->
    exists r, read_segments elf phoff ixs segs (len dn) = Ok r /\
      read_result (headers_in phoff ixs) dn r.
Proof.
  intros Hp; pose proof len_W64 as HW.
  induction 1 as [|i ixs [Hi Hfit] _ IH]; intros segs dn Hs Hd Htk; cbn [read_segments].
  { eexists; split; [reflexivity|]; cbn; rewrite app_nil_r; pose proof (len_nonneg dn).
    split_and!; auto; unfold len; simpl; lia. }
  unfold headers_in in *; cbn [fmap list_fmap]; rewrite filter_cons.
  unfold PHDR_SIZE in Hfit; change PHDR_SIZE with 56 in *.
  set (b := phoff + i * 56) in *.
  do 2 rd; fold b; unfold read_u32, read_u64; rd.
  destruct (Z.eqb_spec (field elf b 4) PT_LOAD) as [Hl|Hl]; cbn [negb];
    [rewrite decide_True by done|rewrite decide_False by done; by apply IH].
  do 10 rd.
  destruct (Z.ltb_spec (field elf (b + 40) 8) (field elf (b + 32) 8)).
  { eexists; split; [reflexivity|]; apply read_result_bad; intros [? _]; simpl in *; lia. }
  unfold ok_or, checked_add.
  destruct (Z.ltb_spec (field elf (b + 8) 8 + field elf (b + 32) 8) W64); cbn [try_bind mbind res_bind].
  2:{ eexists; split; [reflexivity|]; apply read_result_bad; intros [_ ?]; simpl in *; lia. }
  destruct (Z.ltb_spec (len elf) (field elf (b + 8) 8 + field elf (b + 32) 8)).
  { eexists; split; [reflexivity|]; apply read_result_bad; intros [_ ?]; simpl in *; lia. }
  destruct (Z.eqb_spec (len dn) MAX_SEGMENTS) as [He|He].
  { eexists; split; [reflexivity|]; intros [_ Hc]; rewrite He in Hc; unfold len in Hc; simpl in Hc; lia. }
  pose proof (len_nonneg dn); rewrite aset_lt by lia; cbn [mbind res_bind].
  rewrite bind_uadd by (unfold MAX_SEGMENTS in *; rewrite W64_val; lia).
  set (x := Build_Segment _ _ _ _ _).
  assert (Hx : x = segment_at elf b).
  { unfold x, segment_at; f_equal; unfold PF_X.
    change 1 with (2 ^ 1 - 1); rewrite land_ones_mask, Z.pow_1_r by lia.
    rewrite Zmod_odd; by destruct (Z.odd _). }
  assert (Hl1 : len dn + 1 = len (dn ++ [x])) by (unfold len; rewrite length_app; simpl; lia).
  rewrite Hl1; destruct (IH (<[Z.to_nat (len dn) := x]> segs) (dn ++ [x])) as (r & -> & Hr).
  - by rewrite len_insert.
  - lia.
  - rewrite <- Hl1, take_insert_next by lia; by rewrite Htk.
  - exists r; split; [done|]; rewrite Hx in *; unfold read_result in *.
    set (hs := filter _ _) in *.
    assert (Hlb : len (b :: hs) = len hs + 1) by (unfold len; simpl; lia).
    rewrite <- Hl1, Hlb in *; destruct r as [[segs' n']|e]; cbn [fmap list_fmap].
    + destruct Hr as (Hf & -> & Hm & Hls & Ht); split_and!; auto; [|lia|].
      * constructor; [|done]; split; simpl; lia.
      * by rewrite Ht, <- app_assoc.
    + intros [Hf Hm]; apply Hr; split; [by inversion Hf|lia].
Qed.

(** The symbol table search succeeds, and what it finds lies in the file. *)
Definition symtab_ok (st : option SymTable) : Prop :=
  forall t, st = Some t -> sym_offset t + nsyms t * SYMENT_SIZE <= len elf /\ strtab_offset t <= len elf.

Lemma find_symtab_spec shoff shnum ixs : 0 <= shoff -> shoff + shnum * SHDR_SIZE <= len elf ->
  Forall (fun i => 0 <= i < shnum) ixs ->
  (forall i, 0 <= i < shnum -> field elf (shoff + i * SHDR_SIZE + 4) 4 = SHT_SYMTAB ->
     field elf (shoff + i * SHDR_SIZE + 24) 8 + field elf (shoff + i * SHDR_SIZE + 32) 8 < W64) ->
  exists st, find_symtab elf shoff shnum ixs = Ok (Val st) /\ symtab_ok st.
Proof.
  intros Hs Ht Hix Hfit; pose proof len_W64 as HW; change SHDR_SIZE with 64 in *.
  induction Hix as [|i ixs Hi _ IH]; cbn [find_symtab]; [by exists None|].
  change SHDR_SIZE with 64; set (b := shoff + i * 64).
  do 2 rd; fold b; unfold read_u32, read_u64; do 2 rd.
  destruct (Z.eqb_spec (field elf (b + 4) 4) SHT_SYMTAB) as [Hty|]; cbn [negb]; [|done].
  do 8 rd.
  destruct (Z.eqb_spec (field elf (b + 56) 8) SYMENT_SIZE); cbn [negb orb]; [|done].
  pose proof (field32 (b + 40)).
  destruct (Z.leb_spec shnum (field elf (b + 40) 4)) as [|Hlk]; [done|].
  set (lk := field elf (b + 40) 4) in *.
  do 4 rd; specialize (Hfit i Hi Hty); fold b in Hfit; rewrite bind_uadd by lia.
  eexists; split; [reflexivity|]; intros t.
  destruct (Z.leb_spec (field elf (b + 24) 8 + field elf (b + 32) 8) (len elf)); cbn [andb]; [|done].
  destruct (Z.leb_spec (field elf (shoff + lk * 64 + 24) 8) (len elf)); [|done].
  intros [= <-]; cbn [sym_offset nsyms strtab_offset]; split; [|done].
  unfold SYMENT_SIZE; pose proof (Z.mul_div_le (field elf (b + 32) 8) 24); lia.
Qed.
End reader.

(** The checks on the 16 bytes of [e_ident]. *)
Lemma ident_spec (elf : list Z) : 16 <= len elf ->
  exists ident cl dt, sget elf 0 16 = Some ident /\ sget ident 0 4 = Some (take 4 elf) /\
    aget ident 4 = Ok cl /\ elf !! 4%nat = Some cl /\ aget ident 5 = Ok dt /\ elf !! 5%nat = Some dt.
Proof.
  intros Hl; destruct (sget elf 0 16) as [ident|] eqn:E.
  2:{ exfalso; unfold sget in E; by rewrite (proj2 (Z.leb_le (0 + 16) (len elf))) in E by lia. }
  pose proof (sget_len _ _ _ _ E) as Hli; apply sget_Some in E as (_ & _ & _ & Hid).
  change (Z.to_nat 0) with 0%nat in Hid; rewrite drop_0 in Hid.
  destruct (aget_lt ident 4) as (cl & Hc & Hcl); [lia|].
  destruct (aget_lt ident 5) as (dt & Hd & Hdt); [lia|].
  exists ident, cl, dt; split_and!; [done| |done| |done|].
  - apply sget_Some; split_and!; [done|done|lia|].
    change (Z.to_nat 0) with 0%nat; by rewrite drop_0, Hid, take_take.
  - rewrite <- Hcl, Hid; symmetry; apply lookup_take_lt; lia.
  - rewrite <- Hdt, Hid; symmetry; apply lookup_take_lt; lia.
Qed.

Lemma check_phdrs_spec elf : bytes_ok elf ->
  let phdrs_ok := 0 < phnum_of elf ->
    field elf 54 2 = PHDR_SIZE /\ phoff_of elf + phnum_of elf * PHDR_SIZE <= len elf in
  len elf < W64 ->
  (check_phdrs elf (phoff_of elf) (field elf 54 2) (phnum_of elf) = Ok (Val tt) /\ phdrs_ok) \/
  (check_phdrs elf (phoff_of elf) (field elf 54 2) (phnum_of elf) = Ok (Err Truncated) /\ ~ phdrs_ok).
Proof.
  intros Hb phdrs_ok HW; unfold check_phdrs, phdrs_ok; clear phdrs_ok.
  pose proof (field16 elf Hb 56) as Hn; fold (phnum_of elf) in Hn.
  destruct (Z.ltb_spec 0 (phnum_of elf)); [|left; split; [done|lia]].
  destruct (Z.eqb_spec (field elf 54 2) PHDR_SIZE); cbn [negb]; [|right; split; [done|naive_solver]].
  change PHDR_SIZE with 56 in *; rewrite bind_umul by (rewrite W64_val; lia).
  unfold ok_or, checked_add; destruct (Z.ltb_spec (phoff_of elf + phnum_of elf * 56) W64);
    cbn [try_bind mbind res_bind]; [|right; split; [done|intros Hf; specialize (Hf ltac:(done)); lia]].
  destruct (Z.ltb_spec (len elf) (phoff_of elf + phnum_of elf * 56)); [right|left]; (split; [done|]).
  - intros Hf; specialize (Hf ltac:(done)); lia.
  - done.
Qed.

Lemma read_symtab_spec elf : bytes_ok elf -> len elf < 2 ^ 63 -> EHDR_SIZE <= len elf -> symtabs_fit elf ->
  let sections_ok := 0 < shnum_of elf -> 0 < shoff_of elf -> field elf 58 2 = SHDR_SIZE ->
    shoff_of elf + shnum_of elf * SHDR_SIZE < W64 in
  (exists st, read_symtab elf = Ok (Val st) /\ symtab_ok elf st /\ sections_ok) \/
  (read_symtab elf = Ok (Err Truncated) /\ ~ sections_ok).
Proof.
  intros Hb Hl Hh Hfit sections_ok; unfold read_symtab, read_u64, read_u16, sections_ok; clear sections_ok.
  unfold EHDR_SIZE in Hh; rewrite !try_read by (auto; lia).
  change (field elf 40 8) with (shoff_of elf); change (field elf 60 2) with (shnum_of elf).
  pose proof (field16 elf Hb 60) as Hn; fold (shnum_of elf) in Hn.
  pose proof (field64 elf Hb 40) as Ho; fold (shoff_of elf) in Ho.
  destruct (Z.ltb_spec 0 (shnum_of elf)); cbn [andb]; [|left; exists None; split_and!; [done|done|lia]].
  destruct (Z.ltb_spec 0 (shoff_of elf)); cbn [andb]; [|left; exists None; split_and!; [done|done|lia]].
  destruct (Z.eqb_spec (field elf 58 2) SHDR_SIZE); [|left; exists None; split_and!; done].
  change SHDR_SIZE with 64; rewrite bind_umul by (rewrite W64_val; lia).
  unfold ok_or, checked_add; destruct (Z.ltb_spec (shoff_of elf + shnum_of elf * 64) W64);
    cbn [try_bind mbind res_bind]; [left|right; split; [done|intros Hf; specialize (Hf ltac:(done) ltac:(done) ltac:(done)); lia]].
  destruct (Z.leb_spec (shoff_of elf + shnum_of elf * 64) (len elf)); [|by exists None].
  destruct (find_symtab_spec elf Hb Hl (shoff_of elf) (shnum_of elf) (seqZ 0 (shnum_of elf)))
    as (st & -> & Hst); [lia|done|apply Forall_seqZ; intros; lia|exact Hfit|].
  by exists st.
Qed.

Lemma parse_spec (elf : list Z) (Hb : bytes_ok elf) (Hl : len elf < 2 ^ 63)
    (Hfit : symtabs_fit elf) :
  exists r, parse elf = Ok r /\
    match r with
    | Val e => elf_ok elf /\ entry e = field elf 24 8 /\
        segments e = segment_at elf <$> load_headers elf /\ symtab_ok elf (symtab e)
    | Err _ => ~ elf_ok elf
    end.
Proof.
  unfold parse; pose proof (len_W64 elf Hl) as HW; unfold ok_or at 1.
  destruct (Z.lt_ge_cases (len elf) 16) as [Hs|Hs].
  { destruct (sget elf 0 16) as [x|] eqn:E; [apply sget_Some in E; lia|].
    cbn [try_bind mbind res_bind]; eexists; split; [reflexivity|]; intros []; unfold EHDR_SIZE in *; lia. }
  destruct (ident_spec elf Hs) as (ident & cl & dt & -> & Hm & Hc & Hcl & Hd & Hdt).
  cbn [try_bind mbind res_bind]; rewrite Hm; cbn [unwrap mbind res_bind].
  case_bool_decide as Hmagic; cbn [negb];
    [|eexists; split; [reflexivity|]; by intros []].
  rewrite Hc; cbn [mbind res_bind].
  destruct (Z.eqb_spec cl EI_CLASS64) as [->|]; cbn [negb];
    [|eexists; split; [reflexivity|]; intros []; congruence].
  rewrite Hd; cbn [mbind res_bind].
  destruct (Z.eqb_spec dt EI_DATA_LE) as [->|]; cbn [negb];
    [|eexists; split; [reflexivity|]; intros []; congruence].
  destruct (Z.ltb_spec (len elf) EHDR_SIZE) as [|Hh];
    [eexists; split; [reflexivity|]; intros []; lia|].
  unfold read_u16, read_u64; unfold EHDR_SIZE in Hh; rewrite (try_read elf Hl 2 16) by lia.
  destruct (Z.eqb_spec (field elf 16 2) ET_EXEC) as [Hty|]; cbn [negb];
    [|eexists; split; [reflexivity|]; by intros []].
  rewrite !try_read by (auto; lia).
  change (field elf 32 8) with (phoff_of elf); change (field elf 56 2) with (phnum_of elf).
  destruct (check_phdrs_spec elf Hb HW) as [[-> Hph]|[-> Hph]]; cbn [try_bind mbind res_bind];
    [|eexists; split; [reflexivity|]; by intros []].
  pose proof (field16 elf Hb 56) as Hn; fold (phnum_of elf) in Hn.
  pose proof (field64 elf Hb 32) as Ho; fold (phoff_of elf) in Ho.
  destruct (read_segments_spec elf Hl (phoff_of elf) (seqZ 0 (phnum_of elf)) ltac:(lia))
    with (segs := replicate (Z.to_nat MAX_SEGMENTS) no_segment) (dn := @nil Segment) as (r & Hr & Hres);
    [|done|done|done|].
  { apply Forall_seqZ; intros i Hi; split; [lia|].
    destruct Hph as [_ Hph]; [lia|]; unfold PHDR_SIZE in *; nia. }
  change (len []) with 0 in Hr; rewrite Hr; cbn [mbind res_bind].
  change (headers_in elf (phoff_of elf) (seqZ 0 (phnum_of elf))) with (load_headers elf) in Hres.
  unfold read_result in Hres; change (len (@nil Segment)) with 0 in Hres; rewrite Z.add_0_l in Hres.
  destruct r as [[segs n]|e].
  2:{ eexists; split; [reflexivity|]; intros []; apply Hres; split; [done|lia]. }
  destruct Hres as (Hok & -> & Hmax & _ & Htk); cbn [try_bind mbind res_bind fst snd].
  destruct (Z.eqb_spec (len (load_headers elf)) 0) as [Hz|Hz].
  { eexists; split; [reflexivity|]; intros []; lia. }
  destruct (read_symtab_spec elf Hb Hl Hh Hfit) as [(st & -> & Hst & Hsec)|[-> Hsec]];
    cbn [try_bind mbind res_bind]; [|eexists; split; [reflexivity|]; by intros []].
  eexists; split; [reflexivity|]; cbn [entry symtab]; split_and!; auto.
  pose proof (len_nonneg (load_headers elf)); split; auto; lia.
Qed.

(** C8: the ELF reader is total and exact on images below 2^63 bytes whose symbol
    table ends fit in 64 bits: it never panics, it accepts an image exactly
    when it is a well-formed little-endian ELF64 executable with one to
    sixteen loadable segments, each inside the file and no larger than its
    memory size, and then the segments returned are those of the [PT_LOAD]
    headers in order, the entry is the header's, and the symbol table lies
    inside the file. *)
Theorem parse_correct (elf : list Z) (Hb : bytes_ok elf) (Hl : len elf < 2 ^ 63)
    (Hfit : symtabs_fit elf) :
  exists r, parse elf = Ok r /\
    match r with
    | Val e => elf_ok elf /\ entry e = field elf 24 8 /\
        segments e = segment_at elf <$> load_headers elf /\ symtab_ok elf (symtab e)
    | Err _ => ~ elf_ok elf
    end.
Proof. by apply parse_spec. Qed.

(** ** Example images: the unit tests' two-segment executable *)

Module ElfDemo.

Fixpoint put_bytes (off : nat) (bs buf : list Z) : list Z :=
  match bs with [] => buf | b :: bs' => put_bytes (S off) bs' (<[off := b]> buf) end.

Definition put (off : Z) (n : nat) (v : Z) (buf : list Z) : list Z :=
  put_bytes (Z.to_nat off) (to_le n v) buf.

Definition phdr (at_ flags off va fsz msz : Z) (buf : list Z) : list Z :=
  put (at_ + 40) 8 msz (put (at_ + 32) 8 fsz (put (at_ + 16) 8 va
    (put (at_ + 8) 8 off (put (at_ + 4) 4 flags (put at_ 4 PT_LOAD buf))))).

Definition valid_elf : list Z :=
  phdr 120 6 272 0x2000 0x10 0x100 (phdr 64 5 176 0x1000 0x100 0x100
    (put 56 2 2 (put 54 2 PHDR_SIZE (put 32 8 64 (put 24 8 0x1000 (put 16 2 ET_EXEC
      (put 5 1 EI_DATA_LE (put 4 1 EI_CLASS64 (put_bytes 0 elf_magic (replicate 512 0)))))))))).

(** The same with one section header, a symbol table whose size is 2^64 - 1. *)
Definition huge_symtab : list Z :=
  put (448 + 56) 8 SYMENT_SIZE (put (448 + 32) 8 (W64 - 1) (put (448 + 24) 8 1
    (put (448 + 4) 4 SHT_SYMTAB (put 60 2 1 (put 58 2 SHDR_SIZE (put 40 8 448 valid_elf)))))).

Lemma valid_elf_bytes : bytes_ok valid_elf.
Proof.
  apply Forall_forall; intros x Hx.
  assert (H : forallb (fun b => (0 <=? b) && (b <? 256)) valid_elf = true) by (vm_compute; reflexivity).
  rewrite forallb_forall in H; apply list_elem_of_In in Hx; specialize (H x Hx); bsplit; split; [lia|].
  change W8 with 256; lia.
Qed.

Lemma parse_correct_witness :
  exists e, parse valid_elf = Ok (Val e) /\ entry e = 0x1000 /\
    segments e = [ {| vaddr := 0x1000; offset := 176; filesz := 0x100; memsz := 0x100; exec := true |};
                   {| vaddr := 0x2000; offset := 272; filesz := 0x10; memsz := 0x100; exec := false |} ].
Proof.
  destruct (parse_correct valid_elf valid_elf_bytes) as (r & Hr & Hres).
  - vm_compute; reflexivity.
  - intros i Hi; assert (H0 : shnum_of valid_elf = 0) by (vm_compute; reflexivity); lia.
  - destruct r as [e|e].
    + exists e; destruct Hres as (_ & He & Hs & _); split; [exact Hr|]; rewrite He, Hs.
      split; vm_compute; reflexivity.
    + assert (Ht : (match parse valid_elf with Ok (Val _) => true | _ => false end) = true)
        by (vm_compute; reflexivity).
      rewrite Hr in Ht; discriminate.
Defined.

(** A malformed image can panic the reader: the end of a symbol table section
    is computed without a check, so an image that is well formed otherwise and
    whose symbol table claims 2^64 - 1 bytes is not refused but panics. *)
Lemma parse_symtab_panics : parse huge_symtab = Panic /\ is_ok (parse valid_elf) = true.
Proof. split; vm_compute; reflexivity. Qed.

End ElfDemo.
