(* ===== verification/Sched.v ===== *)
(** * Processes and scheduling ([aarch64/src/process.rs])

    The process table, priorities and the selection of the next process, the
    switch paths up to the [swtch] instruction sequence, timed wake-ups, the
    fabrication of a new process's first frame, and the heap watermarks.

    A pointer to a table slot (TPIDR, the current process) is the slot's index.
    The register contents [swtch] saves are not modelled: a process's [context]
    is either the entry context at an address of its kernel stack or
    [Suspended] inside a handler.  The table lock is held for each operation as
    in the source, so an operation is one transition. *)

From S2P Require Import Prelude Abi Addr BitmapAlloc Ipc Elf.

(** ** Constants *)

Definition FAULT_STATUS : Z := 0xff.
Definition KILL_STATUS : Z := 0x7f.
Definition FRAME_SZ : Z := 304.
Definition FRAME_ELR : Z := 256.
Definition FRAME_SP : Z := 280.
Definition FRAME_SPSR : Z := 288.
Definition CONTEXT_SZ : Z := 112.
Definition NPROCS : Z := 8.
Definition KSTACK_SZ : Z := 16 * 4096.
Definition KSTACK_CANARY : Z := 0x70726f635f6b7374.
Definition RUN_ORDER_MAX : Z := 64.
Definition DAIF_MASKED : Z := 0x3c0.

(** ** Priorities: 0 is the most urgent, 255 the idle sentinel *)

Definition Priority : Type := Z.
Definition IDLE : Priority := 255.
Definition DEFAULT_PRIORITY : Priority := 128.

Record PriorityState := { base : Priority; effective : Priority }.

Module Prio.

Definition new (b : Priority) : PriorityState := {| base := b; effective := b |}.

Definition is_boosted (p : PriorityState) : bool := effective p <? base p.

Definition boost (p : PriorityState) (to : Priority) : PriorityState :=
  if negb (is_boosted p) then {| base := base p; effective := to |} else p.

Definition unboost (p : PriorityState) : PriorityState :=
  {| base := base p; effective := base p |}.

(** The update [set_priority] and [sys_setprio] make: the base first, then the
    effective level unless the slot now reads as boosted. *)
Definition set_base (p : PriorityState) (b : Priority) : PriorityState :=
  let p1 := {| base := b; effective := effective p |} in
  if negb (is_boosted p1) then {| base := b; effective := b |} else p1.

End Prio.

(** ** Processes *)

Inductive State := Running | Runnable | Blocked | Exited.

#[global] Instance State_eq_dec : EqDecision State.
Proof. solve_decision. Defined.

(** Where [swtch] resumes a process. *)
Inductive Resume := AtEntry (ctx : Z) | Suspended.

Record Process (A : Type) := {
  state : State;
  context : Resume;
  exit_status : Z;
  prio : PriorityState;
  aspace : A;
  heap_base : Z;
  heap_brk : Z;
  heap_hwm : Z;
  deadline : option Z;
  sym : option SymRef;
}.

Arguments state {A} _.
Arguments context {A} _.
Arguments exit_status {A} _.
Arguments prio {A} _.
Arguments aspace {A} _.
Arguments heap_base {A} _.
Arguments heap_brk {A} _.
Arguments heap_hwm {A} _.
Arguments deadline {A} _.
Arguments sym {A} _.
Arguments Build_Process {A}.

Definition with_state {A} (r : Process A) (v : State) : Process A :=
  {| state := v; context := context r; exit_status := exit_status r; prio := prio r; aspace :=
     aspace r; heap_base := heap_base r; heap_brk := heap_brk r; heap_hwm := heap_hwm r; deadline
     := deadline r; sym := sym r |}.
Definition with_context {A} (r : Process A) (v : Resume) : Process A :=
  {| state := state r; context := v; exit_status := exit_status r; prio := prio r; aspace :=
     aspace r; heap_base := heap_base r; heap_brk := heap_brk r; heap_hwm := heap_hwm r; deadline
     := deadline r; sym := sym r |}.
Definition with_exit_status {A} (r : Process A) (v : Z) : Process A :=
  {| state := state r; context := context r; exit_status := v; prio := prio r; aspace := aspace r;
     heap_base := heap_base r; heap_brk := heap_brk r; heap_hwm := heap_hwm r; deadline :=
     deadline r; sym := sym r |}.
Definition with_prio {A} (r : Process A) (v : PriorityState) : Process A :=
  {| state := state r; context := context r; exit_status := exit_status r; prio := v; aspace :=
     aspace r; heap_base := heap_base r; heap_brk := heap_brk r; heap_hwm := heap_hwm r; deadline
     := deadline r; sym := sym r |}.
Definition with_aspace {A} (r : Process A) (v : A) : Process A :=
  {| state := state r; context := context r; exit_status := exit_status r; prio := prio r; aspace
     := v; heap_base := heap_base r; heap_brk := heap_brk r; heap_hwm := heap_hwm r; deadline :=
     deadline r; sym := sym r |}.
Definition with_heap_base {A} (r : Process A) (v : Z) : Process A :=
  {| state := state r; context := context r; exit_status := exit_status r; prio := prio r; aspace
     := aspace r; heap_base := v; heap_brk := heap_brk r; heap_hwm := heap_hwm r; deadline :=
     deadline r; sym := sym r |}.
Definition with_heap_brk {A} (r : Process A) (v : Z) : Process A :=
  {| state := state r; context := context r; exit_status := exit_status r; prio := prio r; aspace
     := aspace r; heap_base := heap_base r; heap_brk := v; heap_hwm := heap_hwm r; deadline :=
     deadline r; sym := sym r |}.
Definition with_heap_hwm {A} (r : Process A) (v : Z) : Process A :=
  {| state := state r; context := context r; exit_status := exit_status r; prio := prio r; aspace
     := aspace r; heap_base := heap_base r; heap_brk := heap_brk r; heap_hwm := v; deadline :=
     deadline r; sym := sym r |}.
Definition with_deadline {A} (r : Process A) (v : option Z) : Process A :=
  {| state := state r; context := context r; exit_status := exit_status r; prio := prio r; aspace
     := aspace r; heap_base := heap_base r; heap_brk := heap_brk r; heap_hwm := heap_hwm r;
     deadline := v; sym := sym r |}.

(** ** The scheduler's state

    [tpidr] is the slot TPIDR_EL1 points to, [ttbr0] the address space
    installed, [kstacks] the words of the kernel stacks by byte offset in
    [KSTACKS], [depth] the interrupt depth of the core. *)
Record Sched (A : Type) := {
  table : list (option (Process A));
  cursor : Z;
  tpidr : option ProcId;
  run_order : list ProcId;
  depth : Z;
  ttbr0 : option A;
  kstacks : gmap Z Z;
  need_resched : bool;
  preempts : Z;
  tick_started : bool;
  counter : Z;
}.

Arguments table {A} _.
Arguments cursor {A} _.
Arguments tpidr {A} _.
Arguments run_order {A} _.
Arguments depth {A} _.
Arguments ttbr0 {A} _.
Arguments kstacks {A} _.
Arguments need_resched {A} _.
Arguments preempts {A} _.
Arguments tick_started {A} _.
Arguments counter {A} _.
Arguments Build_Sched {A}.

Definition with_table {A} (r : Sched A) (v : list (option (Process A))) : Sched A :=
  {| table := v; cursor := cursor r; tpidr := tpidr r; run_order := run_order r; depth := depth r;
     ttbr0 := ttbr0 r; kstacks := kstacks r; need_resched := need_resched r; preempts := preempts
     r; tick_started := tick_started r; counter := counter r |}.
Definition with_cursor {A} (r : Sched A) (v : Z) : Sched A :=
  {| table := table r; cursor := v; tpidr := tpidr r; run_order := run_order r; depth := depth r;
     ttbr0 := ttbr0 r; kstacks := kstacks r; need_resched := need_resched r; preempts := preempts
     r; tick_started := tick_started r; counter := counter r |}.
Definition with_tpidr {A} (r : Sched A) (v : option ProcId) : Sched A :=
  {| table := table r; cursor := cursor r; tpidr := v; run_order := run_order r; depth := depth r;
     ttbr0 := ttbr0 r; kstacks := kstacks r; need_resched := need_resched r; preempts := preempts
     r; tick_started := tick_started r; counter := counter r |}.
Definition with_run_order {A} (r : Sched A) (v : list ProcId) : Sched A :=
  {| table := table r; cursor := cursor r; tpidr := tpidr r; run_order := v; depth := depth r;
     ttbr0 := ttbr0 r; kstacks := kstacks r; need_resched := need_resched r; preempts := preempts
     r; tick_started := tick_started r; counter := counter r |}.
Definition with_depth {A} (r : Sched A) (v : Z) : Sched A :=
  {| table := table r; cursor := cursor r; tpidr := tpidr r; run_order := run_order r; depth := v;
     ttbr0 := ttbr0 r; kstacks := kstacks r; need_resched := need_resched r; preempts := preempts
     r; tick_started := tick_started r; counter := counter r |}.
Definition with_ttbr0 {A} (r : Sched A) (v : option A) : Sched A :=
  {| table := table r; cursor := cursor r; tpidr := tpidr r; run_order := run_order r; depth :=
     depth r; ttbr0 := v; kstacks := kstacks r; need_resched := need_resched r; preempts :=
     preempts r; tick_started := tick_started r; counter := counter r |}.
Definition with_kstacks {A} (r : Sched A) (v : gmap Z Z) : Sched A :=
  {| table := table r; cursor := cursor r; tpidr := tpidr r; run_order := run_order r; depth :=
     depth r; ttbr0 := ttbr0 r; kstacks := v; need_resched := need_resched r; preempts := preempts
     r; tick_started := tick_started r; counter := counter r |}.
Definition with_need_resched {A} (r : Sched A) (v : bool) : Sched A :=
  {| table := table r; cursor := cursor r; tpidr := tpidr r; run_order := run_order r; depth :=
     depth r; ttbr0 := ttbr0 r; kstacks := kstacks r; need_resched := v; preempts := preempts r;
     tick_started := tick_started r; counter := counter r |}.
Definition with_preempts {A} (r : Sched A) (v : Z) : Sched A :=
  {| table := table r; cursor := cursor r; tpidr := tpidr r; run_order := run_order r; depth :=
     depth r; ttbr0 := ttbr0 r; kstacks := kstacks r; need_resched := need_resched r; preempts :=
     v; tick_started := tick_started r; counter := counter r |}.
Definition with_tick_started {A} (r : Sched A) (v : bool) : Sched A :=
  {| table := table r; cursor := cursor r; tpidr := tpidr r; run_order := run_order r; depth :=
     depth r; ttbr0 := ttbr0 r; kstacks := kstacks r; need_resched := need_resched r; preempts :=
     preempts r; tick_started := v; counter := counter r |}.
Definition with_counter {A} (r : Sched A) (v : Z) : Sched A :=
  {| table := table r; cursor := cursor r; tpidr := tpidr r; run_order := run_order r; depth :=
     depth r; ttbr0 := ttbr0 r; kstacks := kstacks r; need_resched := need_resched r; preempts :=
     preempts r; tick_started := tick_started r; counter := v |}.

(** ** Choosing the next process *)

Definition list_min (l : list Z) : option Z :=
  match l with [] => None | x :: l' => Some (foldr Z.min x l') end.

(** [slots[i].0 == Runnable] and the level of slot [i]. *)
Definition runnable_at (slots : list (State * Priority)) (i : Z) : bool :=
  match slots !! Z.to_nat i with Some (Runnable, _) => true | _ => false end.
Definition level_at (slots : list (State * Priority)) (i : Z) : Priority :=
  match slots !! Z.to_nat i with Some (_, p) => p | None => IDLE end.

Definition pick_next (slots : list (State * Priority)) (current cursor : Z) : option ProcId :=
  let n := len slots in
  best ← list_min (level_at slots <$>
           filter (fun i => runnable_at slots i = true)
             (filter (fun i => i <> current) (seqZ 0 n)));
  hd_error (filter (fun i => i <> current /\ runnable_at slots i = true /\ level_at slots i = best)
          ((fun off => (cursor + off) mod n) <$> seqZ 1 n)).

Module Proc.
Section ops.
Context {A : Type}.
Implicit Types (s : Sched A) (p : Process A).

Definition slot (s : Sched A) (id : Z) : option (Process A) :=
  match table s !! Z.to_nat id with
  | Some o => if 0 <=? id then o else None
  | None => None
  end.

Definition put_slot (s : Sched A) (id : Z) (p : Process A) : Sched A :=
  with_table s (<[Z.to_nat id := Some p]> (table s)).

(** [table.get_mut(id)] followed by an update of the process, if any. *)
Definition update (s : Sched A) (id : Z) (f : Process A -> Process A) : Sched A :=
  match slot s id with Some p => put_slot s id (f p) | None => s end.

(** [table.iter().position(..)]. *)
Fixpoint position_from (f : option (Process A) -> bool) (l : list (option (Process A))) (i : Z)
    : option Z :=
  match l with
  | [] => None
  | o :: l' => if f o then Some i else position_from f l' (i + 1)
  end.
Definition position f s := position_from f (table s) 0.

Definition has_state (st : State) (o : option (Process A)) : bool :=
  match o with Some p => bool_decide (state p = st) | None => false end.

(** The slot TPIDR points into. *)
Definition current_id (s : Sched A) : option ProcId :=
  match tpidr s with
  | None => None
  | Some i => match slot s i with Some _ => Some i | None => None end
  end.

Definition status (s : Sched A) (id : Z) : option Z :=
  match slot s id with
  | Some p => if decide (state p = Exited) then Some (exit_status p) else None
  | None => None
  end.

Definition any_exited (s : Sched A) : bool := existsb (has_state Exited) (table s).

Definition set_priority (s : Sched A) (id : Z) (pr : Priority) : Sched A :=
  update s id (fun p => with_prio p (Prio.set_base (prio p) pr)).

Definition boost (s : Sched A) (id : Z) (to : Priority) : Sched A :=
  update s id (fun p => with_prio p (Prio.boost (prio p) to)).

Definition unboost (s : Sched A) (id : Z) : Sched A :=
  update s id (fun p => with_prio p (Prio.unboost (prio p))).

Definition effective_priority (s : Sched A) (id : Z) : option Priority :=
  (fun p => effective (prio p)) <$> slot s id.

Definition record_run (s : Sched A) (id : ProcId) : Sched A :=
  if len (run_order s) <? RUN_ORDER_MAX then with_run_order s (run_order s ++ [id]) else s.

(** A Blocked process becomes Runnable and its deadline is cleared. *)
Definition wake_proc (p : Process A) : Process A := with_deadline (with_state p Runnable) None.

Definition wake (s : Sched A) (id : Z) : Sched A :=
  update s id (fun p => if decide (state p = Blocked) then wake_proc p else p).

(** The body of [check_deadlines]'s loop. *)
Definition expire (now : Z) (o : option (Process A)) : option (Process A) :=
  match o with
  | Some p =>
      match deadline p with
      | Some d => if decide (state p = Blocked /\ d <= now) then Some (wake_proc p) else Some p
      | None => Some p
      end
  | None => None
  end.

Definition check_deadlines (s : Sched A) : Sched A :=
  with_table s (expire (counter s) <$> table s).

Definition enter_interrupt (s : Sched A) : Sched A := with_depth s (wrapping_add (depth s) 1).
Definition exit_interrupt (s : Sched A) : Sched A := with_depth s (wrapping_sub (depth s) 1).

(** The per-slot view [pick_next] chooses from. *)
Definition view (s : Sched A) : list (State * Priority) :=
  (fun o => match o with
            | Some p => (state p, effective (prio p))
            | None => (Exited, IDLE)
            end) <$> table s.

Definition canary_ok (s : Sched A) (id : Z) : bool :=
  bool_decide (kstacks s !! (id * KSTACK_SZ) = Some KSTACK_CANARY).

(** The critical section of [switch_out]: demote, select, promote or put the
    demotion back. *)
Definition select_next (s : Sched A) (cur : ProcId) (demote_to : State)
    : Sched A * option ProcId :=
  let demoted := has_state Running (slot s cur) in
  let s1 := if demoted then update s cur (fun p => with_state p demote_to) else s in
  match pick_next (view s1) cur (cursor s1) with
  | None =>
      (if demoted && bool_decide (demote_to = Runnable)
       then update s1 cur (fun p => with_state p Running) else s1, None)
  | Some nid =>
      (record_run (with_cursor (update s1 nid (fun p => with_state p Running)) nid) nid, Some nid)
  end.

(** TPIDR, TTBR0 and the interrupt depth as [swtch] is reached; the outgoing
    process will resume inside its handler. *)
Definition switch_to (s : Sched A) (cur next : ProcId) (p : Process A) : Sched A :=
  let s1 := with_ttbr0 (with_tpidr s (Some next)) (Some (aspace p)) in
  update (exit_interrupt s1) cur (fun p => with_context p Suspended).

(** [switch_out], up to the moment the next process has the CPU; [false] when
    nothing else was Runnable. *)
Definition switch_out (s : Sched A) (demote_to : State) : res (bool * Sched A) :=
  match tpidr s with
  | None => Ok (false, s)
  | Some _ =>
      cur ← unwrap (current_id s);
      _ ← assert (canary_ok s cur);
      let '(s1, next) := select_next s cur demote_to in
      match next with
      | None => Ok (false, s1)
      | Some nid =>
          p ← unwrap (slot s1 nid);
          _ ← assert (canary_ok s1 nid);
          Ok (true, switch_to s1 cur nid p)
      end
  end.

(** The rest of [switch_out] and [block_current], when the suspended process
    has the CPU again. *)
Definition resume_handler (s : Sched A) (cur : ProcId) : Sched A :=
  with_tpidr (enter_interrupt s) (Some cur).

Definition resched (s : Sched A) : res (bool * Sched A) := switch_out s Runnable.

Definition yield_current (s : Sched A) : res (Sched A) := '(_, s1) ← resched s; Ok s1.

(** Back to the kernel context [run_all] saved. *)
Definition to_starter (s : Sched A) : Sched A := exit_interrupt (with_tpidr s None).

(** [block_current] up to the switch: [true] when the process gave up the CPU,
    to another process or, when every process is blocked, to the starter. *)
Definition block_current (s : Sched A) : res (bool * Sched A) :=
  '(switched, s1) ← switch_out s Blocked;
  if switched : bool then Ok (true, s1)
  else match tpidr s1 with
       | None => Ok (false, s1)
       | Some cur => Ok (true, update (to_starter s1) cur (fun p => with_context p Suspended))
       end.

Definition block_at (s : Sched A) (d : Z) : res (bool * Sched A) :=
  match tpidr s with
  | None => Ok (false, s)
  | Some _ =>
      id ← unwrap (current_id s);
      block_current (update s id (fun p => with_deadline p (Some d)))
  end.

(** The tail of the IRQ path, up to the switch; [true] when another process
    took the CPU. *)
Definition irq_resched (s : Sched A) : res (bool * Sched A) :=
  if negb (need_resched s) then Ok (false, s) else
  let s1 := check_deadlines (with_need_resched s false) in
  match tpidr s1 with
  | None => Ok (false, s1)
  | Some _ => resched s1
  end.

(** The rest of [irq_resched] when the preempted process is back: the switch is
    counted. *)
Definition count_preemption (s : Sched A) : Sched A := with_preempts s (wrapping_add (preempts s) 1).

(** [Tick::fire]. *)
Definition tick_fire (s : Sched A) : bool * Sched A := (true, with_need_resched s true).

(** [run_all] up to its [swtch] into the first process. *)
Definition run_all (s : Sched A) : res (Sched A) :=
  let s0 := with_tick_started s true in
  id ← unwrap (position (has_state Runnable) s0);
  p ← unwrap (slot s0 id);
  let s1 := record_run (put_slot s0 id (with_state p Running)) id in
  Ok (with_ttbr0 (with_tpidr s1 (Some id)) (Some (aspace p))).

(** The end of [exit_current] and [fault], after the channels are closed: the
    next process, or back to the starter. *)
Definition leave_cpu (s : Sched A) : res (Sched A) :=
  '(switched, s1) ← resched s;
  Ok (if (switched : bool) then s1 else to_starter s1).

Definition mark_exited (s : Sched A) (id : ProcId) (st : Z) : Sched A :=
  update s id (fun p => with_state (with_exit_status p st) Exited).

(** The critical section of [exit_current]: the Running process becomes
    Exited. *)
Definition exit_running (s : Sched A) (st : Z) : res (ProcId * Sched A) :=
  id ← unwrap (position (has_state Running) s);
  Ok (id, mark_exited s id st).

(** The critical section of [fault]: the process TPIDR names must be Running. *)
Definition fault_running (s : Sched A) : res (ProcId * Sched A) :=
  id ← unwrap (current_id s);
  _ ← assert (has_state Running (slot s id));
  Ok (id, mark_exited s id FAULT_STATUS).

(** ** Starting a process *)

(** The words [forkret_context] writes: the canary, a zeroed frame and context,
    and the entry state; [trapret] is the address of the return path. *)
Definition zero_words (base : Z) (n : nat) (m : gmap Z Z) : gmap Z Z :=
  foldr (fun k m => <[base + 8 * k := 0]> m) m (seqZ 0 (Z.of_nat n)).

Definition CTX_X30 : Z := 88.
Definition CTX_SP : Z := 96.
Definition CTX_SPSR : Z := 104.
Definition SPSR_EL1H : Z := 5.

Definition forkret_context (trapret : Z) (m : gmap Z Z) (id elr user_sp : Z) : gmap Z Z * Z :=
  let kstack := id * KSTACK_SZ in
  let top := kstack + KSTACK_SZ in
  let frame_base := top - FRAME_SZ in
  let context_base := frame_base - CONTEXT_SZ in
  let m1 := <[kstack := KSTACK_CANARY]> m in
  let m2 := zero_words context_base (Z.to_nat ((FRAME_SZ + CONTEXT_SZ) / 8)) m1 in
  let m3 := <[frame_base + FRAME_SPSR := 0]>
              (<[frame_base + FRAME_SP := user_sp]> (<[frame_base + FRAME_ELR := elr]> m2)) in
  let m4 := <[context_base + CTX_SPSR := Z.lor SPSR_EL1H DAIF_MASKED]>
              (<[context_base + CTX_SP := frame_base]> (<[context_base + CTX_X30 := trapret]> m3)) in
  (m4, context_base).

Definition free_slot (o : option (Process A)) : bool :=
  match o with None => true | Some p => bool_decide (state p = Exited) end.

Definition try_install (trapret : Z) (s : Sched A) (asp : A) (elr user_sp hbase : Z) (pr : Priority)
    (symref : option SymRef) : res (option ProcId * Sched A) :=
  match position free_slot s with
  | None => Ok (None, s)
  | Some id =>
      let '(km, ctx) := forkret_context trapret (kstacks s) id elr user_sp in
      _ ← assert (Pa.is_multiple_of hbase PAGE_SIZE_4K && (hbase <? KZERO));
      let p := {| state := Runnable; context := AtEntry ctx; exit_status := 0; prio := Prio.new pr;
                  aspace := asp; heap_base := hbase; heap_brk := hbase; heap_hwm := hbase;
                  deadline := None; sym := symref |} in
      Ok (Some id, put_slot (with_kstacks s km) id p)
  end.

Definition install (trapret : Z) (s : Sched A) (asp : A) (elr user_sp hbase : Z)
    (symref : option SymRef) : res (ProcId * Sched A) :=
  '(o, s1) ← try_install trapret s asp elr user_sp hbase DEFAULT_PRIORITY symref;
  id ← unwrap o; Ok (id, s1).

(** ** Process system calls that touch only the table *)

Definition sys_wait (s : Sched A) (child_id _deadline : Z) : (Z * Z) * Sched A :=
  let id := child_id in
  if negb (id =? 0) && ((len (table s) <=? id) || negb (has_state Exited (slot s id)))
  then ((WAIT_BAD_ID, 0), s)
  else
    let idx := if id =? 0 then position (has_state Exited) s else Some id in
    match idx with
    | Some idx =>
        match slot s idx with
        | Some p => ((idx, exit_status p), with_table s (<[Z.to_nat idx := None]> (table s)))
        | None => ((WAIT_TIMEOUT, 0), s)
        end
    | None => ((WAIT_TIMEOUT, 0), s)
    end.

Definition sys_setprio (s : Sched A) (target_id pr : Z) : Z * Sched A :=
  if pr =? 255 then (SETPRIO_BAD_PRIO, s) else
  let oid :=
    if target_id =? W64 - 1
    then match tpidr s with
         | None => None
         | Some _ => Some (default 0 (current_id s))
         end
    else Some target_id in
  match oid with
  | None => (SETPRIO_BAD_ID, s)
  | Some id =>
      if NPROCS <=? id then (SETPRIO_BAD_ID, s) else
      match slot s id with
      | Some _ => (0, update s id (fun p => with_prio p (Prio.set_base (prio p) (pr mod W8))))
      | None => (SETPRIO_BAD_ID, s)
      end
  end.

End ops.
End Proc.

(** ** Selection is by priority, then round robin *)

Lemma first_match {B} (P : B -> Prop) `{!forall x, Decision (P x)} (f : Z -> B) (m : nat) : forall a,
  match hd_error (filter P (f <$> seqZ a (Z.of_nat m))) with
  | Some x => exists off, a <= off < a + Z.of_nat m /\ x = f off /\ P x /\
                forall o, a <= o < off -> ~ P (f o)
  | None => forall o, a <= o < a + Z.of_nat m -> ~ P (f o)
  end.
Proof.
  induction m as [|m IH]; intros a; [simpl; lia|].
  rewrite (seqZ_cons a) by lia; replace (Z.pred (Z.of_nat (S m))) with (Z.of_nat m) by lia.
  cbn [fmap list_fmap]; rewrite filter_cons; case_decide as HP; cbn [hd_error].
  - exists a; split_and!; [lia|lia|done|done|lia].
  - specialize (IH (Z.succ a)); destruct (hd_error _) as [x|].
    + destruct IH as (off & Hoff & Hx & HPx & Hmin); exists off; split_and!; [lia|lia|done|done|].
      intros o Ho; destruct (decide (o = a)) as [->|]; [done|apply Hmin; lia].
    + intros o Ho; destruct (decide (o = a)) as [->|]; [done|apply IH; lia].
Qed.

Lemma foldr_min_le (l : list Z) x : foldr Z.min x l <= x /\ forall y, y ∈ l -> foldr Z.min x l <= y.
Proof.
  induction l as [|z l [IH1 IH2]]; simpl; [split; [lia|intros ? ?%elem_of_nil; done]|].
  split; [lia|]; intros y [->|Hy]%elem_of_cons; [lia|specialize (IH2 y Hy); lia].
Qed.

Lemma foldr_min_in (l : list Z) x : foldr Z.min x l = x \/ foldr Z.min x l ∈ l.
Proof.
  induction l as [|z l IH]; simpl; [by left|].
  destruct (Z.min_spec z (foldr Z.min x l)) as [[_ ->]|[_ ->]]; [right; left|].
  destruct IH as [->|]; [by left|right; by right].
Qed.

Lemma list_min_spec l :
  match list_min l with
  | Some m => m ∈ l /\ forall y, y ∈ l -> m <= y
  | None => l = []
  end.
Proof.
  destruct l as [|x l]; simpl; [done|].
  destruct (foldr_min_le l x) as [H1 H2]; split.
  - destruct (foldr_min_in l x) as [->|]; [left|by right].
  - intros y [->|]%elem_of_cons; auto.
Qed.

(** Slot [i] may be switched to from [cur]. *)
Definition selectable (slots : list (State * Priority)) (cur i : Z) : Prop :=
  0 <= i < len slots /\ i <> cur /\ runnable_at slots i = true.

Lemma pick_next_spec slots cur c : 0 <= c < len slots ->
  match pick_next slots cur c with
  | Some i => selectable slots cur i /\
      (forall j, selectable slots cur j -> level_at slots i <= level_at slots j) /\
      exists off, 1 <= off <= len slots /\ i = (c + off) mod len slots /\
        forall o, 1 <= o < off -> selectable slots cur ((c + o) mod len slots) ->
          level_at slots i < level_at slots ((c + o) mod len slots)
  | None => forall j, ~ selectable slots cur j
  end.
Proof.
  intros Hc; unfold pick_next; set (n := len slots) in *.
  set (cands := filter _ (filter _ (seqZ 0 n))).
  assert (Hcands : forall j, j ∈ cands <-> selectable slots cur j).
  { intros j; unfold cands, selectable; rewrite !list_elem_of_filter, elem_of_seqZ; fold n; naive_solver lia. }
  pose proof (list_min_spec (level_at slots <$> cands)) as Hmin.
  destruct (list_min _) as [best|]; cbn [mbind option_bind].
  2:{ intros j Hj; apply Hcands in Hj; apply fmap_nil_inv in Hmin; rewrite Hmin in Hj.
      by apply elem_of_nil in Hj. }
  destruct Hmin as [(i0 & -> & Hi0)%list_elem_of_fmap Hle].
  assert (Hbest : forall j, selectable slots cur j -> level_at slots i0 <= level_at slots j).
  { intros j Hj; apply Hle, list_elem_of_fmap; exists j; split; [done|by apply Hcands]. }
  apply Hcands in Hi0.
  match goal with |- context [hd_error (filter ?P (?f <$> seqZ 1 n))] =>
    pose proof (first_match P f (Z.to_nat n) 1) as Hf end.
  rewrite Z2Nat.id in Hf by lia.
  destruct (hd_error _) as [i|].
  - destruct Hf as (off & Hoff & Hi & (Hne & Hrun & Hlev) & Hfirst).
    assert (Hsel : selectable slots cur i).
    { split_and!; auto; rewrite Hi; apply Z.mod_pos_bound; lia. }
    split; [done|split; [rewrite Hlev; done|]].
    exists off; split_and!; [lia|lia|done|].
    intros o Ho Hs; specialize (Hbest _ Hs); specialize (Hfirst o ltac:(lia)).
    destruct Hs as (_ & Hne' & Hrun'); rewrite Hlev.
    destruct (Z.eq_dec (level_at slots ((c + o) mod n)) (level_at slots i0)); [|lia].
    exfalso; by apply Hfirst.
  - intros j _; clear j; destruct Hi0 as (Hi0 & Hne & Hrun).
    apply (Hf (let d := (i0 - c) mod n in if d =? 0 then n else d)).
    + cbv zeta; pose proof (Z.mod_pos_bound (i0 - c) n); destruct (Z.eqb_spec ((i0 - c) mod n) 0); lia.
    + assert (Hback : (c + (let d := (i0 - c) mod n in if d =? 0 then n else d)) mod n = i0).
      { cbv zeta; destruct (Z.eqb_spec ((i0 - c) mod n) 0) as [E|E].
        - rewrite <- (Z.mul_1_l n) at 1; rewrite Z.mod_add, (Z.mod_small c) by lia.
          pose proof (Z.div_mod (i0 - c) n ltac:(lia)) as Hdm; rewrite E in Hdm.
          set (q := (i0 - c) / n) in *; assert (q = 0) by (assert (-1 < q < 1) by nia; lia); nia.
        - rewrite Zplus_mod_idemp_r; replace (c + (i0 - c)) with i0 by lia; by apply Z.mod_small. }
      by rewrite Hback.
Qed.

(** C19: [pick_next] selects a Runnable slot other than the current one whose
    effective priority no other selectable slot beats, and among equals the
    first after the cursor in cyclic order; it answers [None] exactly when no
    other slot is Runnable. *)
Theorem pick_next_priority_round_robin (slots : list (State * Priority)) (cur c : Z)
    (Hc : 0 <= c < len slots) :
  match pick_next slots cur c with
  | Some i => selectable slots cur i /\
      (forall j, selectable slots cur j -> level_at slots i <= level_at slots j) /\
      exists off, 1 <= off <= len slots /\ i = (c + off) mod len slots /\
        forall o, 1 <= o < off -> selectable slots cur ((c + o) mod len slots) ->
          level_at slots i < level_at slots ((c + o) mod len slots)
  | None => forall j, ~ selectable slots cur j
  end.
Proof. by apply pick_next_spec. Qed.

Lemma pick_next_priority_round_robin_witness :
  let slots := [(Running, 128); (Runnable, 128); (Runnable, 16); (Runnable, 16)] in
  pick_next slots 0 2 = Some 3 /\
  (forall j, selectable slots 0 j -> level_at slots 3 <= level_at slots j).
Proof.
  split; [reflexivity|].
  apply (pick_next_priority_round_robin
    [(Running, 128); (Runnable, 128); (Runnable, 16); (Runnable, 16)] 0 2).
  split; [discriminate|reflexivity].
Defined.

(** ** The scheduler invariant *)

Section invariant.
Context {A : Type}.
Implicit Types (s : Sched A) (p : Process A).
Import Proc.

(** Lookups through the updates. *)

Lemma slot_range s i p : slot s i = Some p -> 0 <= i < len (table s).
Proof.
  unfold slot; destruct (table s !! Z.to_nat i) eqn:E; [|done].
  destruct (Z.leb_spec 0 i); [|done]; intros; apply lookup_lt_Some in E; unfold len; lia.
Qed.

Lemma slot_lookup s i : 0 <= i ->
  slot s i = match table s !! Z.to_nat i with Some o => o | None => None end.
Proof. intros Hi; unfold slot; rewrite (proj2 (Z.leb_le _ _)) by done; done. Qed.

Lemma slot_insert s i j o : 0 <= i < len (table s) ->
  slot (with_table s (<[Z.to_nat i := o]> (table s))) j = if i =? j then o else slot s j.
Proof.
  intros Hi; unfold slot; cbn [with_table table]; unfold len in Hi.
  destruct (Z.eqb_spec i j) as [<-|Hne].
  - rewrite list_lookup_insert_eq by lia; by rewrite (proj2 (Z.leb_le _ _)) by lia.
  - destruct (Z.leb_spec 0 j).
    + rewrite list_lookup_insert_ne by lia; done.
    + destruct (_ !! _), (_ !! _); done.
Qed.

Lemma slot_put s i j p : 0 <= i < len (table s) ->
  slot (put_slot s i p) j = if i =? j then Some p else slot s j.
Proof. apply slot_insert. Qed.

Lemma slot_update s i j f :
  slot (update s i f) j = if i =? j then f <$> slot s i else slot s j.
Proof.
  unfold update; destruct (slot s i) as [p|] eqn:E.
  - pose proof (slot_range s i p E); by rewrite slot_put.
  - destruct (Z.eqb_spec i j) as [<-|]; [by rewrite E|done].
Qed.

Lemma len_update s i f : len (table (update s i f)) = len (table s).
Proof. unfold update; destruct (slot s i); [|done]; simpl; apply len_insert. Qed.

Lemma tpidr_update s i f : tpidr (update s i f) = tpidr s.
Proof. unfold update; by destruct (slot s i). Qed.

Lemma cursor_update s i f : cursor (update s i f) = cursor s.
Proof. unfold update; by destruct (slot s i). Qed.

Lemma ttbr0_update s i f : ttbr0 (update s i f) = ttbr0 s.
Proof. unfold update; by destruct (slot s i). Qed.

Lemma kstacks_update s i f : kstacks (update s i f) = kstacks s.
Proof. unfold update; by destruct (slot s i). Qed.

Lemma table_record_run s i : table (record_run s i) = table s.
Proof. unfold record_run; by destruct (_ <? _). Qed.

Lemma slot_table s s' i : table s' = table s -> slot s' i = slot s i.
Proof. unfold slot; by intros ->. Qed.

Lemma slot_record_run s i j : slot (record_run s i) j = slot s j.
Proof. apply slot_table, table_record_run. Qed.

Lemma record_run_fields s i :
  tpidr (record_run s i) = tpidr s /\ cursor (record_run s i) = cursor s /\
  kstacks (record_run s i) = kstacks s.
Proof. unfold record_run; by destruct (_ <? _). Qed.

(** The invariant of a handler: one Running process at most, and it is the one
    TPIDR names; TPIDR names an occupied slot; live slots have their canary. *)
Record winv (s : Sched A) : Prop := {
  wi_len : len (table s) = NPROCS;
  wi_cursor : 0 <= cursor s < NPROCS;
  wi_running : forall i p, slot s i = Some p -> state p = Running -> tpidr s = Some i;
  wi_current : forall i, tpidr s = Some i -> exists p, slot s i = Some p;
  wi_canary : forall i p, slot s i = Some p -> canary_ok s i = true;
}.

(** The invariant between operations: the current process is Running. *)
Record sched_inv (s : Sched A) : Prop := {
  si_weak : winv s;
  si_current : forall i p, tpidr s = Some i -> slot s i = Some p -> state p = Running;
}.

Lemma winv_current_id s i : winv s -> tpidr s = Some i -> current_id s = Some i.
Proof. intros H Hi; unfold current_id; rewrite Hi; destruct (wi_current s H i Hi) as [p ->]; done. Qed.

Lemma lookup_view s i : 0 <= i ->
  view s !! Z.to_nat i =
    (fun o => match o with Some p => (state p, effective (prio p)) | None => (Exited, IDLE) end)
      <$> table s !! Z.to_nat i.
Proof. intros; unfold view; by rewrite list_lookup_fmap. Qed.

Lemma len_view s : len (view s) = len (table s).
Proof. unfold len, view; by rewrite length_fmap. Qed.

Lemma selectable_view s cur i :
  selectable (view s) cur i <-> i <> cur /\ exists p, slot s i = Some p /\ state p = Runnable.
Proof.
  unfold selectable, runnable_at; rewrite len_view; split.
  - intros (Hr & Hne & H); split; [done|]; rewrite slot_lookup by lia.
    rewrite lookup_view in H by lia.
    destruct (table s !! Z.to_nat i) as [[p|]|]; simpl in H; try done.
    exists p; split; [done|]; by destruct (state p).
  - intros (Hne & p & Hs & Hst); pose proof (slot_range s i p Hs) as Hr; split_and!; [lia|lia|done|].
    rewrite slot_lookup in Hs by lia; rewrite lookup_view by lia.
    destruct (table s !! Z.to_nat i) as [o|]; simpl; [|done]; subst o; simpl; by rewrite Hst.
Qed.

Lemma level_view s i p : slot s i = Some p -> level_at (view s) i = effective (prio p).
Proof.
  intros Hs; pose proof (slot_range s i p Hs); unfold level_at.
  rewrite slot_lookup in Hs by lia; rewrite lookup_view by lia.
  destruct (table s !! Z.to_nat i) as [o|]; simpl; [|done]; by subst o.
Qed.

(** What one selection does, for a handler in which [cur] is on the CPU. *)
Lemma select_next_spec s cur demote pc : winv s -> slot s cur = Some pc ->
  demote = Runnable \/ demote = Blocked ->
  match (select_next s cur demote).2 with
  | Some nid =>
      let s' := (select_next s cur demote).1 in
      exists p, nid <> cur /\ slot s nid = Some p /\ state p = Runnable /\
        (forall j q, j <> cur -> slot s j = Some q -> state q = Runnable ->
           effective (prio p) <= effective (prio q)) /\
        (forall j, slot s' j = if nid =? j then Some (with_state p Running)
           else if cur =? j then Some (if decide (state pc = Running) then with_state pc demote else pc)
           else slot s j) /\
        len (table s') = len (table s) /\ cursor s' = nid /\ kstacks s' = kstacks s /\
        tpidr s' = tpidr s
  | None =>
      (forall j q, j <> cur -> slot s j = Some q -> state q <> Runnable) /\
      (select_next s cur demote).1 =
        if decide (state pc = Running /\ demote = Blocked)
        then put_slot s cur (with_state pc Blocked) else s
  end.
Proof.
  intros Hw Hpc Hdem; unfold select_next.
  pose proof (slot_range s cur pc Hpc) as Hrange.
  set (demoted := has_state Running (slot s cur)).
  set (s1 := if demoted then update s cur (fun p => with_state p demote) else s).
  assert (Hd : demoted = bool_decide (state pc = Running)) by (unfold demoted; by rewrite Hpc).
  assert (Hs1 : forall j, slot s1 j = if cur =? j
      then Some (if decide (state pc = Running) then with_state pc demote else pc) else slot s j).
  { intros j; unfold s1; rewrite Hd; case_bool_decide.
    - rewrite slot_update, Hpc; destruct (cur =? j); simpl; [by rewrite decide_True|done].
    - destruct (Z.eqb_spec cur j) as [<-|]; [by rewrite decide_False|done]. }
  assert (Hf1 : len (table s1) = len (table s) /\ cursor s1 = cursor s /\ kstacks s1 = kstacks s /\
                tpidr s1 = tpidr s).
  { unfold s1; destruct demoted; [|done].
    by rewrite len_update, cursor_update, kstacks_update, tpidr_update. }
  destruct Hf1 as (Hlen1 & Hcur1 & Hks1 & Htp1).
  assert (Hsel : forall j, selectable (view s1) cur j <->
            j <> cur /\ exists p, slot s j = Some p /\ state p = Runnable).
  { intros j; rewrite selectable_view, Hs1; destruct (Z.eqb_spec cur j); naive_solver. }
  pose proof (pick_next_spec (view s1) cur (cursor s1)) as Hpick.
  rewrite len_view, Hlen1, Hcur1, (wi_len s Hw) in Hpick; specialize (Hpick (wi_cursor s Hw)).
  rewrite Hcur1; destruct (pick_next (view s1) cur (cursor s)) as [nid|]; cbn [fst snd].
  - destruct Hpick as (Hsn & Hbest & _); pose proof (proj1 (Hsel nid) Hsn) as (Hne & p & Hp & Hst).
    assert (Hp1 : slot s1 nid = Some p) by (rewrite Hs1; by rewrite (proj2 (Z.eqb_neq _ _)) by congruence).
    exists p; split_and!; auto.
    + intros j q Hj Hq Hqr. assert (Hsj : selectable (view s1) cur j) by (apply Hsel; eauto).
      specialize (Hbest j Hsj); rewrite (level_view s1 nid p Hp1) in Hbest.
      assert (Hq1 : slot s1 j = Some q) by (rewrite Hs1; by rewrite (proj2 (Z.eqb_neq _ _)) by congruence).
      by rewrite (level_view s1 j q Hq1) in Hbest.
    + intros j; rewrite slot_record_run.
      change (slot (with_cursor (update s1 nid (fun p0 => with_state p0 Running)) nid) j)
        with (slot (update s1 nid (fun p0 => with_state p0 Running)) j).
      rewrite slot_update, Hp1; destruct (Z.eqb_spec nid j); [done|apply Hs1].
    + rewrite table_record_run; cbn [with_cursor table]; by rewrite len_update.
    + by destruct (record_run_fields (with_cursor (update s1 nid (fun p0 => with_state p0 Running)) nid) nid) as (_ & -> & _).
    + destruct (record_run_fields (with_cursor (update s1 nid (fun p0 => with_state p0 Running)) nid) nid) as (_ & _ & ->).
      cbn [with_cursor kstacks]; by rewrite kstacks_update.
    + destruct (record_run_fields (with_cursor (update s1 nid (fun p0 => with_state p0 Running)) nid) nid) as (-> & _ & _).
      cbn [with_cursor tpidr]; by rewrite tpidr_update.
  - split.
    { intros j q Hj Hq Hqr; apply (Hpick j), Hsel; eauto. }
    unfold s1; rewrite Hd; case_bool_decide as Hrun; cbn [andb].
    2:{ rewrite decide_False by tauto; done. }
    assert (Hup : update s cur (fun p => with_state p demote) = put_slot s cur (with_state pc demote))
      by (unfold update; by rewrite Hpc).
    rewrite Hup; destruct Hdem as [-> | ->].
    + rewrite bool_decide_true, decide_False by naive_solver.
      unfold update; rewrite slot_put, Z.eqb_refl by done.
      unfold put_slot; cbn [with_table table]; rewrite list_insert_insert_eq.
      rewrite slot_lookup in Hpc by lia.
      destruct (table s !! Z.to_nat cur) as [o|] eqn:E; [|done]; subst o.
      cbv beta; replace (with_state (with_state pc Runnable) Running) with pc
        by (destruct pc; cbn [state] in *; by subst).
      rewrite (list_insert_id (table s) _ (Some pc)) by done; by destruct s.
    + rewrite bool_decide_false, decide_True by naive_solver; done.
Qed.

Lemma canary_kstacks s s' i : kstacks s' = kstacks s -> canary_ok s' i = canary_ok s i.
Proof. unfold canary_ok; by intros ->. Qed.

Lemma sched_inv_cases s i p : sched_inv s -> slot s i = Some p ->
  (state p = Running <-> tpidr s = Some i).
Proof. intros [Hw Hc] Hp; split; [by apply (wi_running s Hw)|intros; by eapply Hc]. Qed.

(** Every switch, from a handler in which [cur] has the CPU. *)
Lemma switch_out_spec s cur pc demote : winv s -> tpidr s = Some cur -> slot s cur = Some pc ->
  demote = Runnable \/ demote = Blocked ->
  exists b s', switch_out s demote = Ok (b, s') /\
  if b : bool then
    exists nid p, nid <> cur /\ slot s nid = Some p /\ state p = Runnable /\
      (forall j q, j <> cur -> slot s j = Some q -> state q = Runnable ->
         effective (prio p) <= effective (prio q)) /\
      tpidr s' = Some nid /\ ttbr0 s' = Some (aspace p) /\ cursor s' = nid /\
      (forall j, slot s' j = if nid =? j then Some (with_state p Running)
         else if cur =? j
         then Some (with_context (if decide (state pc = Running) then with_state pc demote else pc)
                      Suspended)
         else slot s j) /\
      sched_inv s'
  else
    (forall j q, j <> cur -> slot s j = Some q -> state q <> Runnable) /\
    s' = if decide (state pc = Running /\ demote = Blocked)
         then put_slot s cur (with_state pc Blocked) else s.
Proof.
  intros Hw Htp Hpc Hdem; unfold switch_out; rewrite Htp.
  rewrite (winv_current_id s cur Hw Htp); cbn [unwrap mbind res_bind].
  rewrite (wi_canary s Hw cur pc Hpc); cbn [assert mbind res_bind].
  pose proof (select_next_spec s cur demote pc Hw Hpc Hdem) as Hsel.
  destruct (select_next s cur demote) as [s1 [nid|]]; cbn [fst snd] in Hsel.
  2:{ destruct Hsel as [Hnone ->]; by exists false, (if decide (state pc = Running /\ demote = Blocked)
         then put_slot s cur (with_state pc Blocked) else s). }
  destruct Hsel as (p & Hne & Hp & Hst & Hbest & Hslots & Hlen & Hcur & Hks & Htp1).
  assert (Hp1 : slot s1 nid = Some (with_state p Running)) by (by rewrite Hslots, Z.eqb_refl).
  rewrite Hp1; cbn [unwrap mbind res_bind].
  rewrite (canary_kstacks s s1), (wi_canary s Hw nid p Hp) by done; cbn [assert mbind res_bind].
  eexists true, _; split; [reflexivity|]; exists nid, p.
  set (s' := switch_to s1 cur nid (with_state p Running)).
  assert (Hs' : forall j, slot s' j = if nid =? j then Some (with_state p Running)
     else if cur =? j
     then Some (with_context (if decide (state pc = Running) then with_state pc demote else pc) Suspended)
     else slot s j).
  { intros j; unfold s', switch_to; rewrite slot_update.
    change (slot (exit_interrupt _) ?x) with (slot s1 x).
    rewrite !Hslots, Z.eqb_refl, (proj2 (Z.eqb_neq nid cur)) by done.
    destruct (Z.eqb_spec cur j) as [<-|]; [by rewrite (proj2 (Z.eqb_neq nid cur)) by done|done]. }
  assert (Htp' : tpidr s' = Some nid) by (unfold s', switch_to; by rewrite tpidr_update).
  split_and!; auto.
  - unfold s', switch_to; by rewrite ttbr0_update.
  - unfold s', switch_to; by rewrite cursor_update.
  - pose proof (slot_range s nid p Hp); rewrite (wi_len s Hw) in *.
    split; [split|].
    + unfold s', switch_to; rewrite len_update; exact Hlen.
    + unfold s', switch_to; rewrite cursor_update; cbn; rewrite Hcur; lia.
    + intros i q; rewrite Hs', Htp'; destruct (Z.eqb_spec nid i) as [->|]; [done|].
      destruct (Z.eqb_spec cur i) as [<-|Hci].
      * intros [= <-]; simpl; case_decide; naive_solver.
      * intros Hq Hr; pose proof (wi_running s Hw i q Hq Hr); congruence.
    + intros i; rewrite Htp'; intros [= <-]; rewrite Hs', Z.eqb_refl; eauto.
    + intros i q; rewrite Hs', (canary_kstacks s s')
        by (unfold s', switch_to; rewrite kstacks_update; done).
      destruct (Z.eqb_spec nid i) as [<-|]; [intros; by eapply wi_canary|].
      destruct (Z.eqb_spec cur i) as [<-|]; [intros; by eapply wi_canary|intros; by eapply wi_canary].
    + intros i q; rewrite Htp', Hs'; intros [= <-]; rewrite Z.eqb_refl; by intros [= <-].
Qed.

(** *** Single-slot updates keep the invariant *)

(** Same registers and stacks, every slot keeps its run state up to a
    Blocked process becoming Runnable. *)
Lemma sched_inv_slots s s' : sched_inv s ->
  len (table s') = len (table s) -> cursor s' = cursor s -> tpidr s' = tpidr s ->
  kstacks s' = kstacks s ->
  (forall i p', slot s' i = Some p' -> exists p, slot s i = Some p /\
     (state p' = Running <-> state p = Running)) ->
  (forall i p, slot s i = Some p -> exists p', slot s' i = Some p') ->
  sched_inv s'.
Proof.
  intros [Hw Hc] Hl Hcu Ht Hk Hf Hb; split; [split|].
  - rewrite Hl; apply Hw.
  - rewrite Hcu; apply Hw.
  - intros i p' Hp' Hr; destruct (Hf i p' Hp') as (p & Hp & Hrun); rewrite Ht.
    eapply (wi_running s Hw); [exact Hp|by apply Hrun].
  - intros i Hi; rewrite Ht in Hi; destruct (wi_current s Hw i Hi) as [p Hp]; by apply (Hb i p).
  - intros i p' Hp'; destruct (Hf i p' Hp') as (p & Hp & _).
    rewrite (canary_kstacks s s') by done; by eapply wi_canary.
  - intros i p' Hi Hp'; rewrite Ht in Hi; destruct (Hf i p' Hp') as (p & Hp & Hrun).
    apply Hrun; by eapply Hc.
Qed.

Lemma sched_inv_update s i f : sched_inv s ->
  (forall p, slot s i = Some p -> state (f p) = Running <-> state p = Running) ->
  sched_inv (update s i f).
Proof.
  intros Hinv Hf; apply (sched_inv_slots s); auto using len_update, cursor_update, tpidr_update, kstacks_update.
  - intros j p'; rewrite slot_update; destruct (Z.eqb_spec i j) as [<-|]; [|intros H; exists p'; done].
    destruct (slot s i) as [p|] eqn:E; [|done]; intros [= <-]; exists p; split; [done|by apply Hf].
  - intros j p Hp; rewrite slot_update; destruct (Z.eqb_spec i j) as [<-|]; [rewrite Hp; simpl; eauto|eauto].
Qed.

(** The weak invariant survives any update that makes nobody Running. *)
Lemma winv_update s i f : winv s ->
  (forall p, slot s i = Some p -> state (f p) = Running -> state p = Running) ->
  winv (update s i f).
Proof.
  intros Hw Hf; split; rewrite ?len_update, ?cursor_update, ?tpidr_update; try apply Hw.
  - intros j p'; rewrite slot_update; destruct (Z.eqb_spec i j) as [<-|]; [|apply Hw].
    destruct (slot s i) as [p|] eqn:E; [|done]; intros [= <-] Hr.
    eapply (wi_running s Hw); [done|by eapply Hf].
  - intros j Hj; destruct (wi_current s Hw j Hj) as [p Hp]; rewrite slot_update.
    destruct (Z.eqb_spec i j) as [<-|]; [rewrite Hp; simpl; eauto|eauto].
  - intros j p'; rewrite slot_update, (canary_kstacks s) by apply kstacks_update.
    destruct (Z.eqb_spec i j) as [<-|]; [|apply Hw].
    destruct (slot s i) as [p|] eqn:E; [|done]; intros _; by eapply wi_canary.
Qed.

Lemma wake_winv s id : winv s -> winv (wake s id).
Proof. intros H; apply winv_update; [done|]; intros p _; case_decide as Hd; done. Qed.

(** A wake leaves every process that is not Blocked as it is. *)
Lemma wake_other s id i p : slot s i = Some p -> state p <> Blocked -> slot (wake s id) i = Some p.
Proof.
  intros Hp Hnb; unfold wake; rewrite slot_update; destruct (Z.eqb_spec id i) as [->|]; [|done].
  rewrite Hp; simpl; by rewrite decide_False.
Qed.

Lemma wake_inv s id : sched_inv s -> sched_inv (wake s id).
Proof.
  intros H; apply sched_inv_update; [done|]; intros p _; case_decide as Hd; [|done].
  simpl; rewrite Hd; done.
Qed.

Lemma slot_check_deadlines s i : slot (check_deadlines s) i = expire (counter s) (slot s i).
Proof.
  unfold slot, check_deadlines; cbn [with_table table].
  rewrite list_lookup_fmap; destruct (table s !! Z.to_nat i) as [o|]; simpl; [|done].
  by destruct (0 <=? i).
Qed.

Lemma expire_run now o p' : expire now o = Some p' -> exists p, o = Some p /\
  (state p' = Running <-> state p = Running).
Proof.
  destruct o as [p|]; [|done]; simpl; destruct (deadline p) as [d|]; [case_decide as Hd|];
    intros [= <-]; exists p; split; auto; try done.
  destruct Hd as [Hd _]; simpl; rewrite Hd; done.
Qed.

Lemma check_deadlines_inv s : sched_inv s -> sched_inv (check_deadlines s).
Proof.
  intros H; apply (sched_inv_slots s); try done.
  - unfold len, check_deadlines; cbn [with_table table]; by rewrite length_fmap.
  - intros i p'; rewrite slot_check_deadlines; apply expire_run.
  - intros i p Hp; rewrite slot_check_deadlines, Hp; simpl; destruct (deadline p); [case_decide|]; eauto.
Qed.

(** Fields the invariant does not read. *)
Lemma sched_inv_regs s s' : sched_inv s -> table s' = table s -> cursor s' = cursor s ->
  tpidr s' = tpidr s -> kstacks s' = kstacks s -> sched_inv s'.
Proof.
  intros H Ht Hc Hp Hk; apply (sched_inv_slots s); auto; [by rewrite Ht| |].
  - intros i p'; rewrite (slot_table s s' i Ht); eauto.
  - intros i p; rewrite (slot_table s s' i Ht); eauto.
Qed.

(** *** The switch paths *)

Lemma resched_inv s b s' : sched_inv s -> resched s = Ok (b, s') ->
  sched_inv s' /\ (b = false -> s' = s).
Proof.
  intros Hinv; pose proof Hinv as [Hw Hc]; unfold resched; destruct (tpidr s) as [cur|] eqn:Htp.
  - destruct (wi_current s Hw cur Htp) as [pc Hpc].
    destruct (switch_out_spec s cur pc Runnable Hw Htp Hpc ltac:(by left)) as (b' & s1 & -> & Hout).
    intros [= <- <-]; destruct b'.
    + destruct Hout as (nid & p & _ & _ & _ & _ & _ & _ & _ & _ & Hi); done.
    + destruct Hout as [_ ->]; rewrite decide_False by naive_solver; done.
  - unfold switch_out; rewrite Htp; intros [= <- <-]; done.
Qed.

(** Giving up the CPU to the starter: the current slot must not be Running any
    more. *)
Lemma to_starter_inv s : winv s -> (forall i p, slot s i = Some p -> state p <> Running) ->
  sched_inv (to_starter s).
Proof.
  intros [Hl Hcu _ _ Hk] Hno; split; [split; auto|done].
  - intros i p Hp Hr; by apply (Hno i p) in Hp.
  - done.
Qed.

Lemma block_current_inv s b s' : sched_inv s -> block_current s = Ok (b, s') -> sched_inv s'.
Proof.
  intros Hinv; pose proof Hinv as [Hw Hc]; unfold block_current; destruct (tpidr s) as [cur|] eqn:Htp.
  2:{ unfold switch_out; rewrite Htp; simpl; rewrite Htp; by intros [= <- <-]. }
  destruct (wi_current s Hw cur Htp) as [pc Hpc].
  destruct (switch_out_spec s cur pc Blocked Hw Htp Hpc ltac:(by right)) as (b' & s1 & -> & Hout).
  cbn [mbind res_bind]; destruct b'.
  { intros [= <- <-]; by destruct Hout as (nid & p & _ & _ & _ & _ & _ & _ & _ & _ & Hi). }
  destruct Hout as [_ ->]; pose proof (Hc cur pc eq_refl Hpc) as Hrun.
  rewrite decide_True by done; cbn [tpidr put_slot with_table]; rewrite Htp; intros [= <- <-].
  pose proof (slot_range s cur pc Hpc) as Hr.
  assert (Hs1 : forall j, slot (put_slot s cur (with_state pc Blocked)) j =
                  if cur =? j then Some (with_state pc Blocked) else slot s j) by (intros; by apply slot_put).
  apply sched_inv_update; [|done]; apply to_starter_inv.
  - split; cbn [put_slot with_table table cursor tpidr]; [by rewrite len_insert; apply Hw|apply Hw| | |].
    + intros i p; rewrite Hs1; destruct (Z.eqb_spec cur i) as [<-|]; [done|apply Hw].
    + intros i Hi; rewrite Hs1; rewrite Htp in Hi; injection Hi as <-; rewrite Z.eqb_refl; eauto.
    + intros i p; rewrite Hs1; destruct (Z.eqb_spec cur i) as [<-|]; [intros; by eapply (wi_canary s)|apply Hw].
  - intros i p; rewrite Hs1; destruct (Z.eqb_spec cur i) as [<-|Hne]; [by intros [= <-]|].
    intros Hp Hrp; pose proof (wi_running s Hw i p Hp Hrp); congruence.
Qed.

Lemma position_from_spec f (l : list (option (Process A))) : forall a,
  match position_from f l a with
  | Some i => exists o, a <= i /\ l !! Z.to_nat (i - a) = Some o /\ f o = true /\
      forall k o', (k < Z.to_nat (i - a))%nat -> l !! k = Some o' -> f o' = false
  | None => forall k o', l !! k = Some o' -> f o' = false
  end.
Proof.
  induction l as [|o l IH]; intros a; cbn [position_from]; [done|].
  destruct (f o) eqn:Hf.
  - exists o; rewrite Z.sub_diag; split_and!; [lia|done|done|simpl; lia].
  - specialize (IH (a + 1)); destruct (position_from f l (a + 1)) as [i|].
    + destruct IH as (o' & Hle & Hlk & Ho' & Hbefore); exists o'.
      replace (Z.to_nat (i - a)) with (S (Z.to_nat (i - (a + 1)))) by lia.
      split_and!; [lia|done|done|]; intros [|k] o'' Hk; [by intros [= <-]|apply Hbefore; lia].
    + intros [|k] o'; [by intros [= <-]|apply IH].
Qed.

Lemma position_spec f s :
  match position f s with
  | Some i => exists o, 0 <= i < len (table s) /\ table s !! Z.to_nat i = Some o /\ f o = true
  | None => forall i o, table s !! Z.to_nat i = Some o -> f o = false
  end.
Proof.
  unfold position; pose proof (position_from_spec f (table s) 0) as H.
  destruct (position_from f (table s) 0) as [i|].
  - destruct H as (o & Hi & Hlk & Hf & _); rewrite Z.sub_0_r in Hlk; exists o; split_and!; auto.
    unfold len; apply lookup_lt_Some in Hlk; lia.
  - intros i o; apply H.
Qed.

Lemma position_state st s i : position (has_state st) s = Some i ->
  exists p, slot s i = Some p /\ state p = st.
Proof.
  intros E; pose proof (position_spec (has_state st) s) as H; rewrite E in H.
  destruct H as ([p|] & Hi & Hlk & Hf); [|done]; simpl in Hf; apply bool_decide_eq_true in Hf.
  exists p; split; [|done]; rewrite slot_lookup by lia; by rewrite Hlk.
Qed.

(** Exit: the only Running process is the current one; afterwards the CPU is
    with the most urgent Runnable process or the starter. *)
Lemma exit_running_current s cur st : sched_inv s -> tpidr s = Some cur ->
  exit_running s st = Ok (cur, mark_exited s cur st).
Proof.
  intros Hinv Htp; pose proof Hinv as [Hw Hc]; unfold exit_running.
  destruct (wi_current s Hw cur Htp) as [pc Hpc]; pose proof (Hc cur pc Htp Hpc) as Hrun.
  destruct (position (has_state Running) s) as [i|] eqn:E.
  - destruct (position_state Running s i E) as (p & Hp & Hst).
    apply (wi_running s Hw) in Hp; [|done]; assert (i = cur) as -> by congruence; done.
  - pose proof (position_spec (has_state Running) s) as H; rewrite E in H.
    pose proof (slot_range s cur pc Hpc); rewrite slot_lookup in Hpc by lia.
    destruct (table s !! Z.to_nat cur) as [o|] eqn:Hl; [|done]; subst o.
    specialize (H cur (Some pc) Hl); simpl in H; apply bool_decide_eq_false in H; done.
Qed.

Lemma mark_exited_winv s cur st : sched_inv s -> tpidr s = Some cur -> winv (mark_exited s cur st).
Proof.
  intros [Hw Hc] Htp; destruct (wi_current s Hw cur Htp) as [pc Hpc]; unfold mark_exited.
  split; rewrite ?len_update, ?cursor_update, ?tpidr_update; try apply Hw.
  - intros i p; rewrite slot_update, Hpc; destruct (Z.eqb_spec cur i) as [<-|]; [by intros [= <-]|apply Hw].
  - intros i Hi; rewrite slot_update, Hpc; destruct (Z.eqb_spec cur i) as [<-|]; simpl; [eauto|by apply Hw].
  - intros i p; rewrite slot_update, Hpc, (canary_kstacks s) by apply kstacks_update.
    destruct (Z.eqb_spec cur i) as [<-|]; [intros; by eapply wi_canary|apply Hw].
Qed.

(** The same process up to waking and scheduling: its address space, heap and
    priority are what they were, and whether it has exited. *)
Definition alike (o o' : option (Process A)) : Prop :=
  match o, o' with
  | Some p, Some p' => aspace p' = aspace p /\ prio p' = prio p /\ heap_base p' = heap_base p /\
      heap_brk p' = heap_brk p /\ heap_hwm p' = heap_hwm p /\ exit_status p' = exit_status p /\
      (state p' = Exited <-> state p = Exited)
  | None, None => True
  | _, _ => False
  end.

#[export] Instance alike_preorder : PreOrder alike.
Proof.
  split; [intros [p|]; simpl; auto 10|]; intros [p|] [q|] [r|]; simpl; try done.
  intros (?&?&?&?&?&?&[? ?]) (?&?&?&?&?&?&[? ?]); split_and!; try congruence; split; auto.
Qed.

Lemma alike_wake s i j : alike (slot s j) (slot (wake s i) j).
Proof.
  unfold wake; rewrite slot_update; destruct (Z.eqb_spec i j) as [<-|]; [|done].
  destruct (slot s i) as [p|]; simpl; [|done]; case_decide as Hd; simpl; [rewrite Hd|]; auto 10; split_and!; auto; split; done.
Qed.

Lemma leave_cpu_inv s cur pc : winv s -> tpidr s = Some cur -> slot s cur = Some pc ->
  state pc = Exited -> exists s', leave_cpu s = Ok s' /\ sched_inv s' /\
    (exists pc', slot s' cur = Some pc' /\ state pc' = Exited /\ exit_status pc' = exit_status pc) /\
    forall j, j <> cur -> alike (slot s j) (slot s' j).
Proof.
  intros Hw Htp Hpc Hex; unfold leave_cpu, resched.
  destruct (switch_out_spec s cur pc Runnable Hw Htp Hpc ltac:(by left)) as (b & s1 & -> & Hout).
  cbn [mbind res_bind]; destruct b; eexists; (split; [reflexivity|]).
  - destruct Hout as (nid & p & Hne & Hp & Hst & _ & _ & _ & _ & Hs & Hi); split; [done|]; split.
    + rewrite Hs, (proj2 (Z.eqb_neq nid cur)), Z.eqb_refl, decide_False by congruence.
      by eexists.
    + intros j Hj; rewrite Hs, (proj2 (Z.eqb_neq cur j)) by done; destruct (Z.eqb_spec nid j) as [<-|]; [|done].
      rewrite Hp; simpl; rewrite Hst; split_and!; auto; split; done.
  - destruct Hout as [_ ->]; rewrite decide_False by naive_solver; split; [|split; [by exists pc|done]].
    apply to_starter_inv; [done|]; intros i p Hp Hr.
    pose proof (wi_running s Hw i p Hp Hr); assert (i = cur) as -> by congruence; congruence.
Qed.

Lemma exit_inv s cur st : sched_inv s -> tpidr s = Some cur ->
  exists s', leave_cpu (mark_exited s cur st) = Ok s' /\ sched_inv s' /\ status s' cur = Some st.
Proof.
  intros Hinv Htp; destruct (wi_current s (si_weak s Hinv) cur Htp) as [pc Hpc].
  destruct (leave_cpu_inv (mark_exited s cur st) cur (with_state (with_exit_status pc st) Exited))
    as (s' & Hl & Hi & (pc' & Hp' & Hst & Hes) & _).
  - by apply mark_exited_winv.
  - unfold mark_exited; by rewrite tpidr_update.
  - unfold mark_exited; by rewrite slot_update, Z.eqb_refl, Hpc.
  - done.
  - exists s'; split_and!; auto; unfold status; rewrite Hp', decide_True by done; by rewrite Hes.
Qed.

Lemma run_all_inv s s' : sched_inv s -> tpidr s = None -> run_all s = Ok s' -> sched_inv s'.
Proof.
  intros Hinv Htp; pose proof Hinv as [Hw Hc]; unfold run_all.
  destruct (position (has_state Runnable) (with_tick_started s true)) as [i|] eqn:E;
    cbn [unwrap mbind res_bind]; [|done].
  change (position (has_state Runnable) s = Some i) in E.
  destruct (position_state Runnable s i E) as (p & Hp & Hst).
  change (slot (with_tick_started s true) i) with (slot s i); rewrite Hp; cbn [unwrap mbind res_bind].
  intros [= <-]; pose proof (slot_range s i p Hp) as Hr.
  set (s1 := record_run (put_slot (with_tick_started s true) i (with_state p Running)) i).
  assert (Hs1 : forall j, slot s1 j = if i =? j then Some (with_state p Running) else slot s j).
  { intros j; unfold s1; rewrite slot_record_run; by apply (slot_put (with_tick_started s true)). }
  destruct (record_run_fields (put_slot (with_tick_started s true) i (with_state p Running)) i)
    as (_ & Hcu & Hks); fold s1 in Hcu, Hks.
  split; [split|]; cbn [with_ttbr0 with_tpidr table cursor tpidr].
  - unfold s1; rewrite table_record_run; simpl; rewrite len_insert; apply Hw.
  - rewrite Hcu; apply Hw.
  - intros j q; change (slot (with_ttbr0 _ _) j) with (slot s1 j); rewrite Hs1.
    destruct (Z.eqb_spec i j) as [->|]; [done|]; intros Hq Hrq; pose proof (wi_running s Hw j q Hq Hrq); congruence.
  - intros j [= <-]; change (slot (with_ttbr0 _ _) i) with (slot s1 i); rewrite Hs1, Z.eqb_refl; eauto.
  - intros j q; change (slot (with_ttbr0 _ _) j) with (slot s1 j).
    rewrite (canary_kstacks s) by (exact Hks).
    rewrite Hs1; destruct (Z.eqb_spec i j) as [<-|]; [intros; by eapply wi_canary|apply Hw].
  - intros j q [= <-]; change (slot (with_ttbr0 _ _) i) with (slot s1 i); rewrite Hs1, Z.eqb_refl.
    by intros [= <-].
Qed.

(** *** Kernel stacks *)

Lemma zero_words_ne base n (m : gmap Z Z) a :
  (forall k, 0 <= k < Z.of_nat n -> a <> base + 8 * k) -> zero_words base n m !! a = m !! a.
Proof.
  unfold zero_words; intros Hne.
  assert (HF : Forall (fun k => a <> base + 8 * k) (seqZ 0 (Z.of_nat n))).
  { apply Forall_forall; intros k; rewrite elem_of_seqZ; intros; apply Hne; lia. }
  induction HF as [|k l Hk _ IH]; simpl; [done|]; by rewrite lookup_insert_ne by congruence.
Qed.

(** A frame is written inside its own stack and leaves every canary, its own
    included, in place. *)
Lemma forkret_canary trapret m id elr usp j : 0 <= id -> 0 <= j ->
  (forkret_context trapret m id elr usp).1 !! (j * KSTACK_SZ) =
    if id =? j then Some KSTACK_CANARY else m !! (j * KSTACK_SZ).
Proof.
  intros Hid Hj; unfold forkret_context; cbn [fst].
  unfold KSTACK_SZ, FRAME_SZ, CONTEXT_SZ, FRAME_SPSR, FRAME_SP, FRAME_ELR, CTX_SPSR, CTX_SP, CTX_X30.
  rewrite !lookup_insert_ne by lia.
  rewrite zero_words_ne.
  - destruct (Z.eqb_spec id j) as [->|Hne]; [by rewrite lookup_insert_eq|].
    by rewrite lookup_insert_ne by lia.
  - intros k Hk; change (Z.of_nat (Z.to_nat ((304 + 112) / 8))) with 52 in Hk; lia.
Qed.

Lemma try_install_inv trapret s asp elr usp hb pr sy o s' : sched_inv s ->
  try_install trapret s asp elr usp hb pr sy = Ok (o, s') -> sched_inv s'.
Proof.
  intros Hinv; pose proof Hinv as [Hw Hc]; unfold try_install.
  pose proof (position_spec free_slot s) as Hpos.
  destruct (position free_slot s) as [id|]; [|by intros [= <- <-]].
  destruct Hpos as (ofree & Hid & Hlk & Hfree).
  pose proof (forkret_canary trapret (kstacks s) id elr usp) as Hcan.
  destruct (forkret_context trapret (kstacks s) id elr usp) as [km ctx]; cbn [fst] in Hcan.
  destruct (assert _); try done; cbn [mbind res_bind]; intros [= <- <-].
  set (p := Build_Process _ _ _ _ _ _ _ _ _ _).
  assert (Hs : forall j, slot (put_slot (with_kstacks s km) id p) j = if id =? j then Some p else slot s j).
  { intros j; apply (slot_put (with_kstacks s km)); done. }
  assert (Hnot : forall q, slot s id = Some q -> state q = Exited).
  { intros q; rewrite slot_lookup, Hlk by lia; intros ->; simpl in Hfree.
    by apply bool_decide_eq_true in Hfree. }
  assert (Hne : tpidr s <> Some id).
  { intros Ht; destruct (wi_current s Hw id Ht) as [q Hq]; pose proof (Hc id q Ht Hq); by rewrite (Hnot q Hq) in *. }
  split; [split|]; cbn [put_slot with_table with_kstacks table cursor tpidr].
  - rewrite len_insert; apply Hw.
  - apply Hw.
  - intros j q; rewrite Hs; destruct (Z.eqb_spec id j) as [->|]; [by intros [= <-]|apply Hw].
  - intros j Hj; rewrite Hs; destruct (Z.eqb_spec id j) as [<-|]; [eauto|by apply Hw].
  - intros j q; rewrite Hs; unfold canary_ok; cbn [put_slot with_table with_kstacks kstacks].
    destruct (Z.eqb_spec id j) as [->|Hj]; intros Hq; apply bool_decide_eq_true.
    + by rewrite Hcan, Z.eqb_refl by lia.
    + pose proof (slot_range s j q Hq); rewrite Hcan, (proj2 (Z.eqb_neq _ _)) by (done || lia).
      pose proof (wi_canary s Hw j q Hq) as Hk; by apply bool_decide_eq_true in Hk.
  - intros j q Hj; rewrite Hs; destruct (Z.eqb_spec id j) as [<-|]; [by destruct (Hne Hj)|by eapply Hc].
Qed.

Lemma sys_wait_inv s c d : sched_inv s -> sched_inv (sys_wait s c d).2.
Proof.
  intros Hinv; pose proof Hinv as [Hw Hc]; unfold sys_wait.
  destruct (negb (c =? 0) && _) eqn:Hg; [done|].
  set (idx := if c =? 0 then _ else _); destruct idx as [i|] eqn:Ei; [|done].
  destruct (slot s i) as [p|] eqn:Hp; [|done]; cbn [snd].
  assert (Hex : state p = Exited).
  { subst idx; destruct (Z.eqb_spec c 0) as [->|Hc0].
    - destruct (position_state Exited s i Ei) as (q & Hq & Hst); congruence.
    - injection Ei as <-; simpl in Hg; apply orb_false_iff in Hg as [_ Hg].
      rewrite Hp in Hg; simpl in Hg; apply negb_false_iff, bool_decide_eq_true in Hg; done. }
  pose proof (slot_range s i p Hp) as Hr.
  assert (Hs : forall j, slot (with_table s (<[Z.to_nat i := None]> (table s))) j =
                 if i =? j then None else slot s j) by (intros; by apply slot_insert).
  assert (Hne : tpidr s <> Some i) by (intros Ht; pose proof (Hc i p Ht Hp); congruence).
  split; [split|]; cbn [with_table table cursor tpidr].
  - rewrite len_insert; apply Hw.
  - apply Hw.
  - intros j q; rewrite Hs; destruct (i =? j); [done|apply Hw].
  - intros j Hj; rewrite Hs; destruct (Z.eqb_spec i j) as [<-|]; [by destruct (Hne Hj)|by apply Hw].
  - intros j q; rewrite Hs; destruct (i =? j); [done|apply Hw].
  - intros j q Hj; rewrite Hs; destruct (i =? j); [done|by eapply Hc].
Qed.

Lemma sys_setprio_inv s t pr : sched_inv s -> sched_inv (sys_setprio s t pr).2.
Proof.
  intros Hinv; unfold sys_setprio; destruct (pr =? 255); [done|].
  destruct (if t =? W64 - 1 then _ else _) as [id|]; [|done].
  destruct (NPROCS <=? id); [done|]; destruct (slot s id); [|done].
  by apply sched_inv_update.
Qed.

Lemma irq_resched_inv s b s' : sched_inv s -> irq_resched s = Ok (b, s') -> sched_inv s'.
Proof.
  intros Hinv; unfold irq_resched; destruct (negb (need_resched s)); [by intros [= <- <-]|].
  set (s1 := check_deadlines (with_need_resched s false)).
  assert (Hi1 : sched_inv s1) by (apply check_deadlines_inv; by apply (sched_inv_regs s)).
  destruct (tpidr s1); [|by intros [= <- <-]].
  intros Hr; by destruct (resched_inv s1 b s' Hi1 Hr).
Qed.

(** Killing a process that is not the current one. *)
Lemma kill_other_inv s id st : sched_inv s -> tpidr s <> Some id -> sched_inv (mark_exited s id st).
Proof.
  intros Hinv Hne; apply sched_inv_update; [done|]; intros p Hp; split; [done|]; intros Hrun.
  by destruct Hne; apply (wi_running s (si_weak s Hinv) id p).
Qed.

(** *** The scheduler as a transition system *)

(** A process ends: [exit_current] (the channels apart). *)
Definition exit_process (s : Sched A) (st : Z) : res (Sched A) :=
  '(_, s1) ← exit_running s st; leave_cpu s1.

(** A process faults: [fault] (the channels apart). *)
Definition fault_process (s : Sched A) : res (Sched A) :=
  '(_, s1) ← fault_running s; leave_cpu s1.

(** What the kernel does to the scheduler state.  A process that kills itself is
    left out: it stays on the CPU although it has exited. *)
Inductive sched_step (trapret : Z) (s : Sched A) : Sched A -> Prop :=
  | st_wake id : sched_step trapret s (wake s id)
  | st_boost id to : sched_step trapret s (boost s id to)
  | st_unboost id : sched_step trapret s (unboost s id)
  | st_set_priority id pr : sched_step trapret s (set_priority s id pr)
  | st_tick : sched_step trapret s (tick_fire s).2
  | st_time t : counter s <= t -> sched_step trapret s (with_counter s t)
  | st_irq b s' : irq_resched s = Ok (b, s') -> sched_step trapret s s'
  | st_preempted : sched_step trapret s (count_preemption s)
  | st_yield s' : yield_current s = Ok s' -> sched_step trapret s s'
  | st_block b s' : block_current s = Ok (b, s') -> sched_step trapret s s'
  | st_block_at d b s' : block_at s d = Ok (b, s') -> sched_step trapret s s'
  | st_resume cur : tpidr s = Some cur -> sched_step trapret s (resume_handler s cur)
  | st_exit st s' : is_Some (tpidr s) -> exit_process s st = Ok s' -> sched_step trapret s s'
  | st_fault s' : is_Some (tpidr s) -> fault_process s = Ok s' -> sched_step trapret s s'
  | st_kill id : tpidr s <> Some id -> sched_step trapret s (mark_exited s id KILL_STATUS)
  | st_run_all s' : tpidr s = None -> run_all s = Ok s' -> sched_step trapret s s'
  | st_spawn asp elr usp hb pr sy o s' :
      try_install trapret s asp elr usp hb pr sy = Ok (o, s') -> sched_step trapret s s'
  | st_wait c d : sched_step trapret s (sys_wait s c d).2
  | st_setprio t pr : sched_step trapret s (sys_setprio s t pr).2.

(** The state at boot. *)
Definition boot_sched : Sched A :=
  {| table := replicate (Z.to_nat NPROCS) None; cursor := 0; tpidr := None; run_order := [];
     depth := 0; ttbr0 := None; kstacks := ∅; need_resched := false; preempts := 0;
     tick_started := false; counter := 0 |}.

Lemma boot_sched_inv : sched_inv boot_sched.
Proof.
  assert (Hs : forall i, slot boot_sched i = None).
  { intros i; unfold slot; destruct (table boot_sched !! Z.to_nat i) as [o|] eqn:E; [|done].
    apply lookup_replicate in E as [-> _]; by destruct (0 <=? i). }
  split; [split|]; try done; intros i p; rewrite Hs; done.
Qed.

Lemma exit_process_inv s st s' : sched_inv s -> is_Some (tpidr s) -> exit_process s st = Ok s' ->
  sched_inv s'.
Proof.
  intros Hinv [cur Htp]; unfold exit_process; rewrite (exit_running_current s cur st Hinv Htp).
  cbn [mbind res_bind]; destruct (exit_inv s cur st Hinv Htp) as (s1 & -> & Hi & _).
  by intros [= <-].
Qed.

Lemma fault_process_inv s s' : sched_inv s -> is_Some (tpidr s) -> fault_process s = Ok s' -> sched_inv s'.
Proof.
  intros Hinv [cur Htp]; unfold fault_process, fault_running, current_id; rewrite Htp.
  destruct (wi_current s (si_weak s Hinv) cur Htp) as [pc Hpc].
  rewrite Hpc; cbn [unwrap mbind res_bind].
  destruct (assert (has_state Running (slot s cur))); cbn [mbind res_bind]; try done.
  destruct (exit_inv s cur FAULT_STATUS Hinv Htp) as (s1 & -> & Hi & _); by intros [= <-].
Qed.

Lemma sched_step_inv trapret s s' : sched_inv s -> sched_step trapret s s' -> sched_inv s'.
Proof.
  intros Hinv Hstep; destruct Hstep.
  - by apply wake_inv.
  - apply sched_inv_update; [done|]; done.
  - apply sched_inv_update; [done|]; done.
  - apply sched_inv_update; [done|]; done.
  - by apply (sched_inv_regs s).
  - by apply (sched_inv_regs s).
  - by eapply irq_resched_inv.
  - by apply (sched_inv_regs s).
  - unfold yield_current in *; destruct (resched s) as [[b s1]| |] eqn:E; simplify_eq/=.
    by destruct (resched_inv s b s' Hinv E).
  - by eapply block_current_inv.
  - unfold block_at in *; destruct (tpidr s) as [cur|] eqn:Ht; [|by simplify_eq].
    destruct (current_id s) as [id|]; simplify_eq/=.
    eapply block_current_inv; [|done]; by apply sched_inv_update.
  - apply (sched_inv_regs s); auto.
  - by eapply exit_process_inv.
  - by eapply fault_process_inv.
  - by apply kill_other_inv.
  - by eapply run_all_inv.
  - by eapply try_install_inv.
  - by apply sys_wait_inv.
  - by apply sys_setprio_inv.
Qed.

Lemma reachable_inv trapret s : rtc (sched_step trapret) boot_sched s -> sched_inv s.
Proof.
  intros H; pose proof boot_sched_inv as Hi; revert Hi.
  induction H as [|s1 s2 s3 Hstep _ IH]; [done|]; intros Hi; apply IH; by eapply sched_step_inv.
Qed.

(** C2: in every state the kernel can reach from boot, at most one process is
    Running and it is the one TPIDR names; when TPIDR is set the process it
    names is live and Running; the table keeps its size and every live slot
    its stack canary. *)
Theorem reachable_single_running (trapret : Z) (s : Sched A)
    (Hreach : rtc (sched_step trapret) boot_sched s) :
  len (table s) = NPROCS /\
  (forall i j p q, slot s i = Some p -> slot s j = Some q ->
     state p = Running -> state q = Running -> i = j) /\
  (forall i p, slot s i = Some p -> (state p = Running <-> tpidr s = Some i)) /\
  (forall i, tpidr s = Some i -> exists p, slot s i = Some p /\ state p = Running) /\
  (forall i p, slot s i = Some p -> canary_ok s i = true).
Proof.
  pose proof (reachable_inv trapret s Hreach) as Hinv; pose proof Hinv as [Hw Hc]; split_and!.
  - apply Hw.
  - intros i j p q Hp Hq Hrp Hrq; apply (wi_running s Hw) in Hp, Hq; congruence.
  - intros i p; by apply sched_inv_cases.
  - intros i Hi; destruct (wi_current s Hw i Hi) as [p Hp]; exists p; split; [done|by eapply Hc].
  - apply Hw.
Qed.

(** A yield, preemption or blocking wait hands the CPU to a Runnable process
    that no other Runnable process outranks, installs its address space and
    suspends the current one in the requested state; when nothing else is
    Runnable a yield changes nothing and a blocking wait leaves the process
    Blocked.  It never panics in a consistent state. *)
Lemma switch_out_correct (s : Sched A) (cur : ProcId) (pc : Process A) (demote : State)
    (Hinv : sched_inv s) (Htp : tpidr s = Some cur) (Hpc : slot s cur = Some pc)
    (Hdem : demote = Runnable \/ demote = Blocked) :
  exists b s', switch_out s demote = Ok (b, s') /\
  if b : bool then
    exists nid p, nid <> cur /\ slot s nid = Some p /\ state p = Runnable /\
      (forall j q, j <> cur -> slot s j = Some q -> state q = Runnable ->
         effective (prio p) <= effective (prio q)) /\
      tpidr s' = Some nid /\ ttbr0 s' = Some (aspace p) /\ cursor s' = nid /\
      (forall j, slot s' j = if nid =? j then Some (with_state p Running)
         else if cur =? j then Some (with_context (with_state pc demote) Suspended)
         else slot s j) /\
      sched_inv s'
  else
    (forall j q, j <> cur -> slot s j = Some q -> state q <> Runnable) /\
    s' = if decide (demote = Blocked) then put_slot s cur (with_state pc Blocked) else s.
Proof.
  pose proof (si_current s Hinv cur pc Htp Hpc) as Hrun.
  destruct (switch_out_spec s cur pc demote (si_weak s Hinv) Htp Hpc Hdem) as (b & s' & Hs & Hout).
  exists b, s'; split; [done|]; destruct b.
  - by rewrite decide_True in Hout by done.
  - destruct Hout as [Hnone ->]; split; [done|]; repeat case_decide; naive_solver.
Qed.

(** The deadline scan of the tick makes Runnable, with its deadline cleared,
    every Blocked process whose deadline has been reached, and changes no other
    slot. *)
Lemma check_deadlines_exact (s : Sched A) (i : Z) :
  slot (check_deadlines s) i =
    match slot s i with
    | Some p =>
        if bool_decide (state p = Blocked) &&
           match deadline p with Some d => d <=? counter s | None => false end
        then Some (with_deadline (with_state p Runnable) None) else Some p
    | None => None
    end.
Proof.
  rewrite slot_check_deadlines; destruct (slot s i) as [p|]; [|done]; simpl.
  destruct (deadline p) as [d|]; [|by rewrite andb_false_r].
  destruct (Z.leb_spec d (counter s)); repeat case_decide; case_bool_decide; simpl; try done;
    naive_solver lia.
Qed.
End invariant.

(** ** Concrete runs *)

Definition demo_install (s : Sched Z) (asp pr : Z) : Sched Z :=
  match Proc.try_install 0x1000 s asp IMAGE_BASE 0x2000f0 0x210000 pr None with
  | Ok (_, s') => s'
  | _ => s
  end.

(** Two processes, the first one Running. *)
Definition demo_two : Sched Z := demo_install (demo_install boot_sched 100 128) 200 16.
Definition demo_run : Sched Z :=
  match Proc.run_all demo_two with Ok s => s | _ => demo_two end.

Lemma demo_run_reachable : rtc (sched_step 0x1000) boot_sched demo_run.
Proof.
  eapply rtc_l; [apply (st_spawn _ _ 100 IMAGE_BASE 0x2000f0 0x210000 128 None (Some 0)); vm_compute; reflexivity|].
  eapply rtc_l; [apply (st_spawn _ _ 200 IMAGE_BASE 0x2000f0 0x210000 16 None (Some 1)); vm_compute; reflexivity|].
  eapply rtc_l; [apply st_run_all; vm_compute; reflexivity|].
  apply rtc_refl.
Qed.

Lemma demo_run_inv : sched_inv demo_run.
Proof. apply (reachable_inv 0x1000), demo_run_reachable. Qed.

Lemma reachable_single_running_witness :
  exists p, Proc.slot demo_run 0 = Some p /\ (state p = Running <-> tpidr demo_run = Some 0).
Proof.
  destruct (reachable_single_running 0x1000 demo_run demo_run_reachable) as (_ & _ & H & _).
  destruct (Proc.slot demo_run 0) as [p|] eqn:E; [|vm_compute in E; discriminate].
  exists p; split; [reflexivity|exact (H 0 p E)].
Defined.

(** ** Setting a priority *)

(** [set_priority] (and [sys_setprio]) on a process that is not boosted
    takes effect when the new level is at least as urgent as the old one; a
    less urgent level is recorded as the base but the process keeps running at
    the old level and from then on reads as boosted, so later boosts are
    ignored until the next [unboost]. *)
Lemma set_priority_effect {A} (s : Sched A) (id : Z) (p : Process A) (b n : Priority)
    (Hp : Proc.slot s id = Some p) (Hnb : prio p = Prio.new b) :
  Proc.effective_priority (Proc.set_priority s id n) id = Some (Z.min b n) /\
  (b < n -> forall to, Proc.effective_priority (Proc.boost (Proc.set_priority s id n) id to) id = Some b).
Proof.
  assert (Hset : Proc.slot (Proc.set_priority s id n) id =
      Some (with_prio p {| base := n; effective := Z.min b n |})).
  { unfold Proc.set_priority; rewrite slot_update, Z.eqb_refl, Hp; simpl; rewrite Hnb.
    unfold Prio.set_base, Prio.is_boosted, Prio.new; cbn [base effective].
    destruct (Z.ltb_spec b n); simpl; do 3 f_equal; lia. }
  unfold Proc.effective_priority; rewrite Hset; split; [done|]; intros Hlt to.
  unfold Proc.boost; rewrite slot_update, Z.eqb_refl, Hset; simpl.
  unfold Prio.boost, Prio.is_boosted; cbn [base effective].
  rewrite (proj2 (Z.ltb_lt _ _)) by lia; simpl; f_equal; lia.
Qed.

(** [sys_setprio] refuses only the value 255 itself: a request for 511 is
    truncated to a byte after the check and puts the caller at the idle
    sentinel level. *)
Lemma setprio_truncates_to_idle :
  exists s', Proc.sys_setprio demo_run 1 511 = (0, s') /\
    (base <$> (prio <$> Proc.slot s' 1)) = Some IDLE.
Proof.
  exists (Proc.sys_setprio demo_run 1 511).2; split; [apply injective_projections|];
    vm_compute; reflexivity.
Qed.
