(* ===== verification/Heap.v ===== *)
(** * The process heap ([brk_grow] .. [heap_shrink] of [aarch64/src/process.rs])

    A process's heap is a [brk]-style watermark above its stack.  Growing it
    maps pages into the process's address space through the [AspaceOps]
    interface: what [Aspace::map_user_data_page_pa] promises its callers,
    over the state [M] of page allocator and page tables. *)

From S2P Require Import Prelude Abi Addr BitmapAlloc Ipc Sched.

(** ** The address-space interface *)

Class AspaceOps (A M : Type) := {
  (** the call may panic *)
  map_user_data_page_pa : A -> Z -> M -> res (result PhysAddr PageAllocError * M);
  (** the page a virtual page address is backed by, if mapped *)
  backing : M -> A -> Z -> option PhysAddr;
  (** the address space is one of those the state keeps *)
  space_ok : M -> A -> Prop;
  (** the addresses that the page tables can map *)
  usable : Z -> Prop;
}.

(** A page address that can be mapped. *)
Definition user_page `{!AspaceOps A M} (va : Z) : Prop := usable va /\ (PAGE_SIZE_4K | va).

(** For a page that can be mapped the call returns, without a panic.  A
    successful call backs the page at [va] by the page it returns and leaves
    every other mapping alone; a failed call leaves all mappings alone. *)
Class AspaceLaws (A M : Type) `{!AspaceOps A M} `{!EqDecision A} : Prop := {
  map_returns a va m : space_ok m a -> user_page va -> exists r m', map_user_data_page_pa a va m = Ok (r, m');
  map_ok a va m pa m' : space_ok m a -> user_page va -> map_user_data_page_pa a va m = Ok (Val pa, m') ->
    (forall a', space_ok m a' -> space_ok m' a') /\ backing m' a va = Some pa /\
    forall a' va', space_ok m a' -> user_page va' -> (a', va') <> (a, va) -> backing m' a' va' = backing m a' va';
  map_err a va m e m' : space_ok m a -> user_page va -> map_user_data_page_pa a va m = Ok (Err e, m') ->
    (forall a', space_ok m a' -> space_ok m' a') /\
    forall a' va', space_ok m a' -> user_page va' -> backing m' a' va' = backing m a' va';
}.

(** ** The watermark arithmetic *)

Definition div_ceil (a b : Z) : Z := (a + b - 1) / b.

Definition brk_grow (brk count bound : Z) : option Z :=
  let pages := div_ceil count PAGE_SIZE_4K in
  add ← checked_mul pages PAGE_SIZE_4K;
  new_brk ← checked_add brk add;
  if new_brk <=? bound then Some new_brk else None.

Definition brk_shrink (hbase brk va : Z) : option Z :=
  if Pa.is_multiple_of va PAGE_SIZE_4K && (hbase <=? va) && (va <=? brk) then Some va else None.

(** ** The heap calls *)

Section heap.
Context {A M : Type} `{!AspaceOps A M}.
Import Proc.

Definition with_heap (p : Process A) (brk hwm : Z) : Process A :=
  with_heap_hwm (with_heap_brk p brk) hwm.

(** The mapping loop: the page reached and whether all went well. *)
Fixpoint map_pages (fuel : nat) (a : A) (page new_brk : Z) (m : M) : res (bool * Z * M) :=
  match fuel with
  | O => Timeout
  | S fuel' =>
      if page <? new_brk then
        '(r, m1) ← map_user_data_page_pa a page m;
        match r with
        | Err _ => Ok (false, page, m1)
        | Val _ =>
            page1 ← uadd page PAGE_SIZE_4K;
            map_pages fuel' a page1 new_brk m1
        end
      else Ok (true, page, m)
  end.

(** One unit per page to map and one for the exit test. *)
Definition map_fuel (page new_brk : Z) : nat :=
  S (Z.to_nat ((new_brk - page) / PAGE_SIZE_4K + 1)).

Definition heap_grow (s : Sched A) (m : M) (count : Z) : res (option Z * Sched A * M) :=
  match current_id s with
  | None => Ok (None, s, m)
  | Some id =>
      match slot s id with
      | None => Ok (None, s, m)
      | Some p =>
          let old_brk := heap_brk p in
          match brk_grow old_brk count KZERO with
          | None => Ok (None, s, m)
          | Some new_brk =>
              '(ok, page, m1) ← map_pages (map_fuel (heap_hwm p) new_brk) (aspace p)
                                  (heap_hwm p) new_brk m;
              if (ok : bool)
              then Ok (Some old_brk, put_slot s id (with_heap p new_brk new_brk), m1)
              else Ok (None, put_slot s id (with_heap_hwm p page), m1)
          end
      end
  end.

Definition heap_alloc_page (s : Sched A) (m : M) : res (option (Z * Z) * Sched A * M) :=
  match current_id s with
  | None => Ok (None, s, m)
  | Some id =>
      match slot s id with
      | None => Ok (None, s, m)
      | Some p =>
          let old_brk := heap_brk p in
          match brk_grow old_brk PAGE_SIZE_4K KZERO with
          | None => Ok (None, s, m)
          | Some new_brk =>
              '(r, m1) ← map_user_data_page_pa (aspace p) (heap_hwm p) m;
              match r with
              | Err _ => Ok (None, s, m1)
              | Val pa => Ok (Some (old_brk, pa), put_slot s id (with_heap p new_brk new_brk), m1)
              end
          end
      end
  end.

Definition heap_shrink (s : Sched A) (va : Z) : Sched A :=
  match current_id s with
  | None => s
  | Some id =>
      match slot s id with
      | None => s
      | Some p =>
          match brk_shrink (heap_base p) (heap_brk p) va with
          | Some new_brk => put_slot s id (with_heap_brk p new_brk)
          | None => s
          end
      end
  end.

End heap.

(** ** Arithmetic of the watermark *)

Lemma PAGE_4K : PAGE_SIZE_4K = 4096.
Proof. reflexivity. Qed.

Lemma div_ceil_spec a b : 0 <= a -> 0 < b -> a <= div_ceil a b * b < a + b.
Proof.
  intros Ha Hb; unfold div_ceil; pose proof (Z.div_mod (a + b - 1) b ltac:(lia)).
  pose proof (Z.mod_pos_bound (a + b - 1) b Hb); lia.
Qed.

Lemma brk_grow_spec brk count bound : is_u64 brk -> is_u64 count -> bound < W64 ->
  match brk_grow brk count bound with
  | Some nb => brk <= nb <= bound /\ (PAGE_SIZE_4K | nb - brk) /\
               count <= nb - brk < count + PAGE_SIZE_4K
  | None => bound < brk + div_ceil count PAGE_SIZE_4K * PAGE_SIZE_4K
  end.
Proof.
  unfold is_u; intros Hb Hc Hbound; unfold brk_grow; rewrite PAGE_4K.
  pose proof (div_ceil_spec count 4096 ltac:(lia) ltac:(lia)) as Hd.
  unfold checked_mul, checked_add.
  destruct (Z.ltb_spec (div_ceil count 4096 * 4096) W64); cbn [mbind option_bind]; [|lia].
  destruct (Z.ltb_spec (brk + div_ceil count 4096 * 4096) W64); cbn [mbind option_bind]; [|lia].
  destruct (Z.leb_spec (brk + div_ceil count 4096 * 4096) bound); [|lia].
  split_and!; [lia|lia| |lia|lia]. exists (div_ceil count 4096); lia.
Qed.

(** ** The heap invariant *)

Section heap_proofs.
Context {A M : Type} `{!EqDecision A, !AspaceOps A M, !AspaceLaws A M}.
Import Proc.

(** An address space of the state, page-aligned watermarks in the user half, and
    every page below the mapped mark usable and backed. *)
Record heap_ok (p : Process A) (m : M) : Prop := {
  ho_align : (PAGE_SIZE_4K | heap_base p) /\ (PAGE_SIZE_4K | heap_brk p) /\ (PAGE_SIZE_4K | heap_hwm p);
  ho_order : 0 <= heap_base p <= heap_brk p /\ heap_brk p <= heap_hwm p <= KZERO;
  ho_backed : forall va, heap_base p <= va < heap_hwm p -> (PAGE_SIZE_4K | va) ->
                user_page va /\ is_Some (backing m (aspace p) va);
  ho_space : space_ok m (aspace p);
}.

(** What the mapping loop leaves: the pages it passed are backed, all others
    are as before. *)
Lemma map_pages_spec fuel a : forall page nb m, space_ok m a ->
  (forall va, page <= va < nb -> usable va) ->
  (PAGE_SIZE_4K | page) -> (PAGE_SIZE_4K | nb) -> 0 <= page -> nb <= KZERO ->
  (Z.to_nat ((nb - page) / PAGE_SIZE_4K + 1) < fuel)%nat ->
  exists ok reached m', map_pages fuel a page nb m = Ok (ok, reached, m') /\
    page <= reached /\ (PAGE_SIZE_4K | reached) /\ (page <= nb -> reached <= nb) /\
    (ok = true -> nb <= reached) /\ (nb <= page -> reached = page /\ m' = m) /\
    (forall a', space_ok m a' -> space_ok m' a') /\
    (forall va, page <= va < reached -> (PAGE_SIZE_4K | va) -> user_page va /\ is_Some (backing m' a va)) /\
    (forall a' va, space_ok m a' -> user_page va -> ~ (a' = a /\ page <= va < reached) -> backing m' a' va = backing m a' va).
Proof.
  induction fuel as [|fuel IH]; intros page nb m Hs Hu Dp Dn Hp Hn Hf; [lia|]; cbn [map_pages].
  destruct (Z.ltb_spec page nb) as [Hlt|Hge].
  2:{ exists true, page, m; split_and!; auto; try lia. }
  assert (Hup : user_page page) by (split; [apply Hu; lia|done]).
  destruct (map_returns a page m Hs Hup) as ([pa|e] & m1 & Hm); rewrite Hm; cbn [mbind res_bind].
  2:{ destruct (map_err _ _ _ _ _ Hs Hup Hm) as [Hsp Hold]; exists false, page, m1; split_and!; auto; try lia; try done. }
  destruct (map_ok _ _ _ _ _ Hs Hup Hm) as (Hsp & Hnew & Hold).
  assert (page + PAGE_SIZE_4K <= nb) by (by apply divide_gap).
  rewrite uadd_ok by (unfold KZERO in *; rewrite W64_val; lia); cbn [mbind res_bind].
  destruct (IH (page + PAGE_SIZE_4K) nb m1) as (ok & reached & m' & -> & H1 & H2 & H3 & H4 & H5 & Hsp' & H6 & H7);
    [by apply Hsp|intros va Hva; apply Hu; rewrite PAGE_4K in *; lia|by apply Z.divide_add_r; [|apply Z.divide_refl]|done|rewrite PAGE_4K in *; lia|done| |].
  { replace (nb - (page + PAGE_SIZE_4K)) with (nb - page + (-1) * PAGE_SIZE_4K) by lia.
    pose proof (Z.div_pos (nb - page) PAGE_SIZE_4K ltac:(lia) ltac:(done)).
    rewrite Z.div_add by done; lia. }
  exists ok, reached, m'; split_and!; auto; try (rewrite PAGE_4K in *; lia).
  - intros va Hva Dva; destruct (decide (va = page)) as [->|].
    + split; [done|]; rewrite H7; [rewrite Hnew; eauto|by apply Hsp|done|rewrite PAGE_4K in *; lia].
    + apply H6; [|done]. pose proof (divide_gap PAGE_SIZE_4K page va ltac:(done) Dp Dva ltac:(lia)); lia.
  - intros a' va Hs' Hu' Hva; rewrite H7; [apply Hold; [done|done|]|by apply Hsp|done|].
    + intros [= -> ->]; apply Hva; split; [done|rewrite PAGE_4K in *; lia].
    + intros [-> ?]; apply Hva; split; [done|rewrite PAGE_4K in *; lia].
Qed.

(** [heap_grow] on a process with a consistent heap never panics and always
    terminates: on success it returns the old top, the grant
    [[old, new)] is page aligned, at least as large as asked, below the
    kernel half and every page of it is backed; on failure the top is
    unchanged.  The heap stays consistent and no other address space is
    touched.  The addresses asked for must be ones that the tables can map. *)
Lemma heap_grow_correct (s : Sched A) (m : M) (id count : Z) (p : Process A)
    (Hcur : current_id s = Some id) (Hp : slot s id = Some p)
    (Hok : heap_ok p m) (Hcount : is_u64 count)
    (Husable : forall va, heap_hwm p <= va < heap_brk p + count + PAGE_SIZE_4K -> usable va) :
  exists r s' m' p', heap_grow s m count = Ok (r, s', m') /\ slot s' id = Some p' /\
    heap_ok p' m' /\
    (forall a va, a <> aspace p -> space_ok m a -> user_page va -> space_ok m' a /\ backing m' a va = backing m a va) /\
    match r with
    | Some va => va = heap_brk p /\ heap_brk p' <= KZERO /\ count <= heap_brk p' - va /\
        (PAGE_SIZE_4K | va) /\ (PAGE_SIZE_4K | heap_brk p') /\
        forall page, va <= page < heap_brk p' -> (PAGE_SIZE_4K | page) ->
          is_Some (backing m' (aspace p) page)
    | None => heap_brk p' = heap_brk p
    end.
Proof.
  destruct Hok as [(Db & Dk & Dh) Hord Hback Hsp]; unfold heap_grow; rewrite Hcur, Hp.
  pose proof (brk_grow_spec (heap_brk p) count KZERO) as Hg.
  assert (HK : KZERO < W64) by (unfold KZERO; rewrite W64_val; lia).
  specialize (Hg ltac:(unfold is_u; lia) Hcount HK).
  destruct (brk_grow (heap_brk p) count KZERO) as [nb|].
  2:{ exists None, s, m, p; split_and!; auto; by split. }
  destruct Hg as (Hnb & Dnb & Hsz).
  assert (Dnb' : (PAGE_SIZE_4K | nb))
    by (replace nb with (nb - heap_brk p + heap_brk p) by lia; by apply Z.divide_add_r).
  destruct (map_pages_spec (map_fuel (heap_hwm p) nb) (aspace p) (heap_hwm p) nb m)
    as (ok & reached & m' & -> & H1 & H2 & H3 & H4 & H5 & Hsp' & H6 & H7);
    [done|intros va Hva; apply Husable; lia|done|done|lia|lia|unfold map_fuel; lia|]; cbn [mbind res_bind].
  pose proof (slot_range s id p Hp) as Hr.
  assert (Hmapped : forall va, heap_base p <= va < reached -> (PAGE_SIZE_4K | va) ->
            user_page va /\ is_Some (backing m' (aspace p) va)).
  { intros va Hva Dva; destruct (Z.lt_ge_cases va (heap_hwm p)); [|apply H6; [lia|done]].
    destruct (Hback va ltac:(lia) Dva) as [Hu Hb]; split; [done|]; rewrite H7; [done|done|done|lia]. }
  assert (Hother : forall a va, a <> aspace p -> space_ok m a -> user_page va -> space_ok m' a /\ backing m' a va = backing m a va)
    by (intros a va Ha Hsa Hu; split; [by apply Hsp'|apply H7; naive_solver]).
  destruct ok.
  - specialize (H4 eq_refl).
    eexists (Some (heap_brk p)), _, m', _; split; [reflexivity|]; split; [by rewrite slot_put, Z.eqb_refl|].
    split_and!; auto; cbn [with_heap with_heap_brk with_heap_hwm heap_brk]; try lia.
    + split; cbn; [done|lia| |by apply Hsp']; intros va Hva Dva; apply Hmapped; [lia|done].
    + intros page Hpage Dpage; apply Hmapped; [lia|done].
  - eexists None, _, m', _; split; [reflexivity|]; split; [by rewrite slot_put, Z.eqb_refl|].
    split_and!; auto; split; cbn; [done| |done|by apply Hsp'].
    destruct (Z.le_gt_cases (heap_hwm p) nb); [specialize (H3 ltac:(lia)); lia|].
    destruct (H5 ltac:(lia)) as [-> _]; lia.
Qed.

Lemma current_id_put (s : Sched A) id p q : current_id s = Some id -> slot s id = Some p ->
  current_id (put_slot s id q) = Some id /\ slot (put_slot s id q) id = Some q.
Proof.
  intros Hc Hp; pose proof (slot_range s id p Hp) as Hr.
  assert (Hs : slot (put_slot s id q) id = Some q) by (by rewrite slot_put, Z.eqb_refl); split; [|done].
  unfold current_id in *; change (tpidr (put_slot _ _ _)) with (tpidr s).
  destruct (tpidr s) as [i|]; [|done]; destruct (slot s i); [|done]; injection Hc as ->; by rewrite Hs.
Qed.

(** The grant is the whole pages asked for. *)
Lemma heap_grow_brk (s s' : Sched A) (m m' : M) (id count : Z) (r : option Z) (p : Process A) :
  current_id s = Some id -> slot s id = Some p -> heap_grow s m count = Ok (r, s', m') ->
  current_id s' = Some id /\ exists p', slot s' id = Some p' /\ heap_base p' = heap_base p /\ aspace p' = aspace p /\
    heap_brk p' = heap_brk p + match r with Some _ => div_ceil count PAGE_SIZE_4K * PAGE_SIZE_4K | None => 0 end.
Proof.
  intros Hc Hp; unfold heap_grow; rewrite Hc, Hp; unfold brk_grow, checked_mul, checked_add.
  assert (Hnone : Ok (None, s, m) = Ok (r, s', m') -> current_id s' = Some id /\ exists p', slot s' id = Some p' /\ heap_base p' = heap_base p /\
    aspace p' = aspace p /\ heap_brk p' = heap_brk p + match r with Some _ => div_ceil count PAGE_SIZE_4K * PAGE_SIZE_4K | None => 0 end)
    by (intros [= <- <- <-]; split; [done|]; exists p; split_and!; auto; lia).
  destruct (_ <? W64); cbn [mbind option_bind]; [|done]; destruct (_ <? W64); cbn [mbind option_bind]; [|done]; destruct (_ <=? _); [|done].
  intros (((ok & pg) & m1) & _ & H)%bind_Ok; destruct ok; injection H as <- <- <-;
    edestruct (current_id_put s id p) as [H1 H2]; [done|done| |done|done|]; (split; [exact H1|]; eexists; split; [exact H2|]; split_and!; try done; cbn; lia).
Qed.

(** [heap_shrink] moves the top down to a page-aligned address inside the
    heap and does nothing for any other address; mappings and the heap's
    consistency are kept. *)
Lemma heap_shrink_correct (s : Sched A) (m : M) (id va : Z) (p : Process A)
    (Hcur : current_id s = Some id) (Hp : slot s id = Some p) (Hok : heap_ok p m) (Hva : is_u64 va) :
  exists p', slot (heap_shrink s va) id = Some p' /\ heap_ok p' m /\
    heap_hwm p' = heap_hwm p /\ heap_base p' = heap_base p /\
    heap_brk p' = (if bool_decide ((PAGE_SIZE_4K | va) /\ heap_base p <= va <= heap_brk p)
                   then va else heap_brk p).
Proof.
  destruct Hok as [(Db & Dk & Dh) Hord Hback Hsp]; unfold heap_shrink; rewrite Hcur, Hp.
  unfold brk_shrink, Pa.is_multiple_of; rewrite (proj2 (Z.eqb_neq PAGE_SIZE_4K 0)) by done.
  pose proof (slot_range s id p Hp) as Hr.
  destruct (Z.eqb_spec (va mod PAGE_SIZE_4K) 0) as [Hm|Hm]; cbn [andb].
  - apply Z.mod_divide in Hm; [|done].
    destruct (Z.leb_spec (heap_base p) va), (Z.leb_spec va (heap_brk p)); cbn [andb].
    1:{ eexists; split; [by rewrite slot_put, Z.eqb_refl|].
        rewrite bool_decide_true by (split; [done|lia]); split_and!; auto.
        split; cbn; [done|lia|done|done]. }
    all: exists p; rewrite bool_decide_false by (intros [_ ?]; lia); split_and!; auto; by split.
  - exists p; rewrite bool_decide_false; [split_and!; auto; by split|].
    intros [Hd _]; apply Hm, Z.mod_divide; done.
Qed.
End heap_proofs.

(** ** A flat memory

    Address spaces are numbers, physical pages are handed out in order. *)
Module Flat.

Record mem := { next_pa : Z; maps : gmap (Z * Z) Z }.

#[export] Instance flat_ops : AspaceOps Z mem := {
  map_user_data_page_pa a va m :=
    Ok (Val (next_pa m), {| next_pa := next_pa m + 4096; maps := <[(a, va) := next_pa m]> (maps m) |});
  backing m a va := maps m !! (a, va);
  space_ok _ _ := True;
  usable _ := True;
}.

#[export] Instance flat_laws : AspaceLaws Z mem.
Proof.
  split; simpl; intros; simplify_eq; simpl.
  - by eexists _, _.
  - split; [done|]; split; [by rewrite lookup_insert_eq|]; intros; by rewrite lookup_insert_ne by congruence.
Qed.

Definition empty : mem := {| next_pa := 0x40000000; maps := ∅ |}.

(** The current process of [demo_run] starts with an empty heap at 0x210000. *)
Lemma demo_heap : exists p, Proc.current_id demo_run = Some 0 /\ Proc.slot demo_run 0 = Some p /\
  heap_ok p empty.
Proof.
  destruct (Proc.slot demo_run 0) as [p|] eqn:E; [|vm_compute in E; discriminate].
  exists p; split_and!; [vm_compute; reflexivity|done|].
  assert (Hb : heap_base p = 0x210000 /\ heap_brk p = 0x210000 /\ heap_hwm p = 0x210000)
    by (vm_compute in E; injection E as <-; split_and!; reflexivity).
  destruct Hb as (Hb & Hk & Hh); split; rewrite ?Hb, ?Hk, ?Hh, ?PAGE_4K.
  - split_and!; by exists 528.
  - unfold KZERO; lia.
  - intros va Hva; lia.
  - exact I.
Qed.

(** Three pages granted, all released again. *)
Definition grown : option (Sched Z * mem) :=
  match heap_grow demo_run empty 12288 with
  | Ok (Some _, s1, m1) => Some (heap_shrink s1 0x210000, m1)
  | _ => None
  end.

(** One more page: what [heap_grow] returns and leaves. *)
Definition grow_page (x : Sched Z * mem) : option (Z * (Sched Z * mem)) :=
  match heap_grow x.1 x.2 4096 with
  | Ok (Some va, s, m) => Some (va, (s, m))
  | _ => None
  end.

Definition hwm_of (x : Sched Z * mem) : option Z := heap_hwm <$> Proc.slot x.1 0.

(** Growing again after a release lowers the mapped mark: of the next two
    one-page grants both return pages that are already mapped, but the second
    one is mapped a second time, so its backing page is replaced and the first
    backing page is lost. *)
Lemma heap_regrow_remaps :
  (x0 ← grown; '(va1, x1) ← grow_page x0; '(va2, x2) ← grow_page x1;
   Some ((hwm_of x0, va1, hwm_of x1), (backing x1.2 100 0x211000, va2, backing x2.2 100 0x211000)))
  = Some ((Some 0x213000, 0x210000, Some 0x211000), (Some 0x40001000, 0x211000, Some 0x40003000)).
Proof. vm_compute; reflexivity. Qed.

(** After a release, [heap_alloc_page] returns the virtual address of one
    page and the physical address of another: the new page is mapped at the
    mapped mark while the old top is returned. *)
Lemma heap_alloc_page_mismatch :
  (x0 ← grown;
   match heap_alloc_page x0.1 x0.2 with Ok (r, _, m) => Some (r, backing m 100 0x210000) | _ => None end)
  = Some (Some (0x210000, 0x40003000), Some 0x40000000).
Proof. vm_compute; reflexivity. Qed.

End Flat.
