(* ===== verification/KernIpc.v ===== *)
(** * The kernel side of message passing ([aarch64/src/ipc.rs])

    The channel table, the binding of the scheduler trait to the process table,
    interrupt routing, the message system calls, and the process-death paths of
    [aarch64/src/process.rs] that close channels.

    The kernel state is the scheduler, the memory system and the tables of this
    module.  [others] stands for the rest of the machine: given the state in
    which a process gave up the CPU, the state in which that process has it
    again ([Timeout] when that never happens). *)

From S2P Require Import Prelude Abi Addr BitmapAlloc Ipc Sched Heap.

Definition NCHANNELS : Z := 16.
Definition NIRQS : Z := 16.
Definition INTID_SPI_MIN : Z := 32.
Definition INTID_SPI_MAX : Z := 1019.

Definition OK : Z := 0.
Definition ERR_BAD_HANDLE : Z := 1.
Definition ERR_CLOSED : Z := 2.
Definition ERR_FULL : Z := 3.
Definition ERR_EMPTY : Z := 4.
Definition ERR_BAD_TAG : Z := 5.
Definition ERR_BAD_INTID : Z := 6.
Definition ERR_ALREADY_CLAIMED : Z := 7.
Definition ERR_NO_SLOT : Z := 8.
Definition ERR_BAD_KIND : Z := 9.
Definition ERR_BAD_VA : Z := 10.

Definition err_code (e : IpcErr) : Z :=
  match e with
  | Closed => ERR_CLOSED
  | Full => ERR_FULL
  | Empty => ERR_EMPTY
  | BadTag => ERR_BAD_TAG
  end.

Record IrqRoute := { intid : Z; route_channel : Z; owner : ProcId }.

(** ** What the memory system offers the system calls

    [user_range_ok] is the software walk of the current process's tables,
    [load] and [store] the copies through them, [map_mmio] the device mapping
    of [Aspace].  Each may panic: a copy does when the hardware does not
    translate an address, which is a data abort in the kernel.  A range is [plain]
    when its bytes are stored apart from each other and from the tables that
    translate them. *)
Class UserMem (A M : Type) := {
  user_range_ok : M -> A -> Z -> Z -> bool -> res bool;
  load : M -> A -> Z -> Z -> res (list Z);
  store : M -> A -> Z -> list Z -> res M;
  map_mmio : A -> PhysRange -> Z -> M -> res (result unit PageAllocError * M);
  plain : M -> A -> Z -> Z -> Prop;
}.

(** A load that returns has as many bytes as asked; a store of bytes to a writable
    plain range returns, and is read back. *)
Class UserMemLaws (A M : Type) `{!UserMem A M} : Prop := {
  load_len m a va n bs : 0 <= n -> load m a va n = Ok bs -> len bs = n;
  load_bytes m a va n bs : load m a va n = Ok bs -> bytes_ok bs;
  load_store m a va bs : user_range_ok m a va (len bs) true = Ok true -> plain m a va (len bs) -> bytes_ok bs ->
    exists m', store m a va bs = Ok m' /\ load m' a va (len bs) = Ok bs;
}.

(** ** The kernel state *)

Record Kernel (A M : Type) := {
  sched : Sched A;
  mem : M;
  channels : gmap Z ChannelInner;
  nused : Z;
  routes : list (option IrqRoute);
  nirqueued : Z;
  gic_enabled : list Z;
  console : list Z;
}.

Arguments sched {A M} _.
Arguments mem {A M} _.
Arguments channels {A M} _.
Arguments nused {A M} _.
Arguments routes {A M} _.
Arguments nirqueued {A M} _.
Arguments gic_enabled {A M} _.
Arguments console {A M} _.
Arguments Build_Kernel {A M}.

Definition set_sched {A M} (r : Kernel A M) (v : Sched A) : Kernel A M :=
  {| sched := v; mem := mem r; channels := channels r; nused := nused r; routes := routes r;
     nirqueued := nirqueued r; gic_enabled := gic_enabled r; console := console r |}.
Definition set_mem {A M} (r : Kernel A M) (v : M) : Kernel A M :=
  {| sched := sched r; mem := v; channels := channels r; nused := nused r; routes := routes r;
     nirqueued := nirqueued r; gic_enabled := gic_enabled r; console := console r |}.
Definition set_channels {A M} (r : Kernel A M) (v : gmap Z ChannelInner) : Kernel A M :=
  {| sched := sched r; mem := mem r; channels := v; nused := nused r; routes := routes r;
     nirqueued := nirqueued r; gic_enabled := gic_enabled r; console := console r |}.
Definition set_nused {A M} (r : Kernel A M) (v : Z) : Kernel A M :=
  {| sched := sched r; mem := mem r; channels := channels r; nused := v; routes := routes r;
     nirqueued := nirqueued r; gic_enabled := gic_enabled r; console := console r |}.
Definition set_routes {A M} (r : Kernel A M) (v : list (option IrqRoute)) : Kernel A M :=
  {| sched := sched r; mem := mem r; channels := channels r; nused := nused r; routes := v;
     nirqueued := nirqueued r; gic_enabled := gic_enabled r; console := console r |}.
Definition set_nirqueued {A M} (r : Kernel A M) (v : Z) : Kernel A M :=
  {| sched := sched r; mem := mem r; channels := channels r; nused := nused r; routes := routes r;
     nirqueued := v; gic_enabled := gic_enabled r; console := console r |}.
Definition set_gic_enabled {A M} (r : Kernel A M) (v : list Z) : Kernel A M :=
  {| sched := sched r; mem := mem r; channels := channels r; nused := nused r; routes := routes r;
     nirqueued := nirqueued r; gic_enabled := v; console := console r |}.
Definition set_console {A M} (r : Kernel A M) (v : list Z) : Kernel A M :=
  {| sched := sched r; mem := mem r; channels := channels r; nused := nused r; routes := routes r;
     nirqueued := nirqueued r; gic_enabled := gic_enabled r; console := v |}.

Section kernel.
Context {A M : Type} `{!AspaceOps A M, !UserMem A M}.
Implicit Types k : Kernel A M.

(** ** The channel table *)

Definition try_create (k : Kernel A M) : option Z * Kernel A M :=
  let h := nused k in
  if h <? NCHANNELS then (Some h, set_nused k (h + 1)) else (None, k).

Definition create (k : Kernel A M) : res (Z * Kernel A M) :=
  let '(o, k1) := try_create k in h ← unwrap o; Ok (h, k1).

(** The handle resolves to a created channel. *)
Definition channel (k : Kernel A M) (handle : Z) : option Z :=
  if (NCHANNELS <=? handle) || (nused k <=? handle) then None else Some handle.

(** Element [h] of [CHANNELS]: all start out new. *)
Definition get_channel (h : Z) (k : Kernel A M) : ChannelInner :=
  default channel_inner_new (channels k !! h).
Definition put_channel (h : Z) (i : ChannelInner) (k : Kernel A M) : Kernel A M :=
  set_channels k (<[h := i]> (channels k)).

Definition kern_channel (h : Z) : HasChannel (Kernel A M) :=
  {| chan := get_channel h; put_chan := put_channel h |}.

(** ** The scheduler seam *)

Definition on_sched (f : Sched A -> Sched A) (k : Kernel A M) : Kernel A M := set_sched k (f (sched k)).

Definition kern_current (k : Kernel A M) : option ProcId := Proc.current_id (sched k).

(** [priority]: [u8::MAX] when the slot is not live. *)
Definition kern_priority (k : Kernel A M) (id : ProcId) : Z :=
  default 255 (Proc.effective_priority (sched k) id).

Section blocking.
Context (others : ProcId -> Kernel A M -> res (Kernel A M)).

(** The end of a blocking call: the rest of the machine runs, then the process
    is back in its handler. *)
Definition switched_away (id : ProcId) (k : Kernel A M) (s : Sched A) : res (Kernel A M) :=
  k2 ← others id (set_sched k s);
  Ok (on_sched (fun s => Proc.resume_handler s id) k2).

Definition kern_block (id : ProcId) (k : Kernel A M) : res (Kernel A M) :=
  _ ← assert (bool_decide (kern_current k = Some id));
  '(_, s1) ← Proc.block_current (sched k);
  switched_away id k s1.

Definition kern_block_at (id : ProcId) (d : Z) (k : Kernel A M) : res (Kernel A M) :=
  _ ← assert (bool_decide (kern_current k = Some id));
  '(_, s1) ← Proc.block_at (sched k) d;
  switched_away id k s1.

Definition KernSched : IpcScheduler (Kernel A M) := {|
  current := kern_current;
  priority := kern_priority;
  boost id to := on_sched (fun s => Proc.boost s id to);
  unboost id := on_sched (fun s => Proc.unboost s id);
  block := kern_block;
  wake id := on_sched (fun s => Proc.wake s id);
  now k := counter (sched k);
  block_at := kern_block_at;
|}.

(** ** Process death *)

(** Close the channel if the process is blocked on it. *)
Definition close_if_blocked (id : ProcId) (h : Z) (k : Kernel A M) : Kernel A M :=
  if is_blocked_on (get_channel h k) id
  then @close _ KernSched (kern_channel h) k else k.

Definition close_all_for (id : ProcId) (k : Kernel A M) : Kernel A M :=
  let n := Z.min (nused k) NCHANNELS in
  foldl (fun k h => close_if_blocked id h k) k (seqZ 0 n).

(** [exit_current]: spins when no process is current. *)
Definition exit_current (st : Z) (k : Kernel A M) : res (Kernel A M) :=
  match tpidr (sched k) with
  | None => Timeout
  | Some _ =>
      '(id, s1) ← Proc.exit_running (sched k) st;
      let k1 := close_all_for id (set_sched k s1) in
      s2 ← Proc.leave_cpu (sched k1);
      Ok (set_sched k1 s2)
  end.

Definition sys_kill (pid : Z) (k : Kernel A M) : Z * Kernel A M :=
  if NPROCS <=? pid then (KILL_BAD_ID, k) else
  match Proc.slot (sched k) pid with
  | Some p =>
      if decide (state p = Exited) then (KILL_BAD_ID, k)
      else (0, close_all_for pid (on_sched (fun s => Proc.mark_exited s pid KILL_STATUS) k))
  | None => (KILL_BAD_ID, k)
  end.

(** ** User buffers *)

(** The address space of the current process. *)
Definition current_aspace (k : Kernel A M) : option A :=
  match tpidr (sched k) with
  | None => None
  | Some i => aspace <$> Proc.slot (sched k) i
  end.

Definition range_ok (k : Kernel A M) (va n : Z) (write : bool) : res bool :=
  match ttbr0 (sched k) with
  | Some a => user_range_ok (mem k) a va n write
  | None => Ok false
  end.

(** [read_user] into a buffer of [cap] bytes: [None] when refused. *)
Definition read_user (k : Kernel A M) (cap src n : Z) : res (option (list Z)) :=
  let n := Z.min n cap in
  if n =? 0 then Ok (Some []) else
  ok ← range_ok k src n false;
  if negb ok then Ok None
  else match ttbr0 (sched k) with Some a => bs ← load (mem k) a src n; Ok (Some bs) | None => Ok None end.

Definition write_user (k : Kernel A M) (dst : Z) (src : list Z) (n : Z) : res (option Z * Kernel A M) :=
  let n := Z.min n (len src) in
  if n =? 0 then Ok (Some 0, k) else
  ok ← range_ok k dst n true;
  if negb ok then Ok (None, k)
  else match ttbr0 (sched k) with
       | Some a => m1 ← store (mem k) a dst (take (Z.to_nat n) src); Ok (Some n, set_mem k m1)
       | None => Ok (None, k)
       end.

(** ** Interrupt routing *)

(** The linear scan of the routing table. *)
Fixpoint find_route (i : Z) (l : list (option IrqRoute)) : option IrqRoute :=
  match l with
  | [] => None
  | Some r :: l' => if intid r =? i then Some r else find_route i l'
  | None :: l' => find_route i l'
  end.

Definition published (k : Kernel A M) : list (option IrqRoute) :=
  take (Z.to_nat (nirqueued k)) (routes k).

Definition route (k : Kernel A M) (i : Z) : option Z :=
  r ← find_route i (published k); channel k (route_channel r).

Definition sys_irq_claim (i handle : Z) (k : Kernel A M) : Z * Kernel A M :=
  if negb ((i <? W16) && (INTID_SPI_MIN <=? i) && (i <=? INTID_SPI_MAX)) then (ERR_BAD_INTID, k) else
  match channel k handle with
  | None => (ERR_BAD_HANDLE, k)
  | Some _ =>
      if bool_decide (is_Some (find_route i (published k))) then (ERR_ALREADY_CLAIMED, k) else
      let slot := nirqueued k in
      if NIRQS <=? slot then (ERR_NO_SLOT, k)
      else
        let r := {| intid := i; route_channel := handle; owner := default 0 (kern_current k) |} in
        let k1 := set_routes (set_nirqueued k (slot + 1)) (<[Z.to_nat slot := Some r]> (routes k)) in
        (OK, set_gic_enabled k1 (i :: gic_enabled k1))
  end.

(** The device branch of the IRQ trap: the message is the interrupt number. *)
Definition device_irq (i : Z) (k : Kernel A M) : res (Kernel A M) :=
  match route k i with
  | Some h =>
      let msg := {| opcode := i; tag := 0; mlen := 0; buf := replicate (Z.to_nat MSG_MAX) 0 |} in
      '(_, k1) ← @try_send _ KernSched (kern_channel h) msg k; Ok k1
  | None => Ok (set_gic_enabled k (filter (fun j => j <> i) (gic_enabled k)))
  end.

(** ** Memory system calls *)

Fixpoint map_mmio_pages (fuel : nat) (a : A) (pa va size offset : Z) (m : M) : res (Z * M) :=
  match fuel with
  | O => Timeout
  | S fuel' =>
      if offset <? size then
        page_pa ← uadd pa offset;
        page_va ← uadd va offset;
        range ← Range.with_pa_len page_pa PAGE_SIZE_4K;
        '(r, m1) ← map_mmio a range page_va m;
        match r with
        | Err _ => Ok (1, m1)
        | Val _ =>
            offset1 ← uadd offset PAGE_SIZE_4K;
            map_mmio_pages fuel' a pa va size offset1 m1
        end
      else Ok (0, m)
  end.

Definition sys_map_mmio (pa va size : Z) (k : Kernel A M) : res (Z * Kernel A M) :=
  if negb (Pa.is_multiple_of pa PAGE_SIZE_4K) then Ok (1, k) else
  if size =? 0 then Ok (1, k) else
  match current_aspace k with
  | None => Ok (1, k)
  | Some a =>
      '(r, m1) ← map_mmio_pages (Z.to_nat (size / PAGE_SIZE_4K + 2)) a pa va size 0 (mem k);
      Ok (r, set_mem k m1)
  end.

Definition sys_alloc (count : Z) (k : Kernel A M) : res (Z * Kernel A M) :=
  '(r, s1, m1) ← heap_grow (sched k) (mem k) count;
  let k1 := set_mem (set_sched k s1) m1 in
  Ok (match r with Some va => va | None => 1 end, k1).

Definition sys_free (va : Z) (k : Kernel A M) : Z * Kernel A M :=
  (0, on_sched (fun s => heap_shrink s va) k).

Definition sys_alloc_page (k : Kernel A M) : res ((Z * Z) * Kernel A M) :=
  '(r, s1, m1) ← heap_alloc_page (sched k) (mem k);
  let k1 := set_mem (set_sched k s1) m1 in
  Ok (match r with Some (va, pa) => (va, pa) | None => (1, 0) end, k1).

Definition sys_createchan (k : Kernel A M) : Z * Kernel A M :=
  let '(o, k1) := try_create k in
  (match o with Some h => h | None => ERR_NO_SLOT end, k1).

Definition sys_clock (kind : Z) (k : Kernel A M) : Z :=
  if negb (kind =? 0) then ERR_BAD_KIND else counter (sched k).

(** ** Message system calls *)

Definition sys_send (fuel : nat) (handle b n op tg : Z) (k : Kernel A M) : res (Z * Kernel A M) :=
  match channel k handle with
  | None => Ok (ERR_BAD_HANDLE, k)
  | Some h =>
      let n := Z.min n MSG_MAX in
      o ← read_user k MSG_MAX b n;
      match o with
      | None => Ok (ERR_BAD_VA, k)
      | Some data =>
          let msg := message_new (op mod W16) (tg mod W32) data in
          '(r, k1) ← @send _ KernSched (kern_channel h) fuel msg k;
          Ok (match r with Val _ => OK | Err e => err_code e end, k1)
      end
  end.

(** The result registers x0, x3, x4 of a delivered message. *)
Definition deliver_to_user (dst cap : Z) (msg : Message) (k : Kernel A M) : res ((Z * Z * Z) * Kernel A M) :=
  '(w, k1) ← write_user k dst (buf msg) (Z.min (mlen msg) cap);
  Ok match w with
     | None => ((ERR_BAD_VA, 0, 0), k1)
     | Some n => ((opcode msg, n, tag msg), k1)
     end.

Definition sys_receive (fuel : nat) (handle dst cap : Z) (k : Kernel A M)
    : res ((Z * Z * Z) * Kernel A M) :=
  match channel k handle with
  | None => Ok ((ERR_BAD_HANDLE, 0, 0), k)
  | Some h =>
      '(r, k1) ← @receive _ KernSched (kern_channel h) fuel k;
      match r with
      | Val msg => deliver_to_user dst cap msg k1
      | Err e => Ok ((err_code e, 0, 0), k1)
      end
  end.

Definition sys_receive_at (fuel : nat) (handle dst cap d : Z) (k : Kernel A M)
    : res ((Z * Z * Z) * Kernel A M) :=
  match channel k handle with
  | None => Ok ((ERR_BAD_HANDLE, 0, 0), k)
  | Some h =>
      '(r, k1) ← @receive_at _ KernSched (kern_channel h) fuel d k;
      match r with
      | Val msg =>
          if opcode msg =? RECEIVE_TIMEOUT then Ok ((RECEIVE_TIMEOUT, 0, 0), k1)
          else deliver_to_user dst cap msg k1
      | Err e => Ok ((err_code e, 0, 0), k1)
      end
  end.

Definition sys_reply (fuel : nat) (handle b n op tg : Z) (k : Kernel A M) : res (Z * Kernel A M) :=
  match channel k handle with
  | None => Ok (ERR_BAD_HANDLE, k)
  | Some h =>
      let n := Z.min n MSG_MAX in
      o ← read_user k MSG_MAX b n;
      match o with
      | None => Ok (ERR_BAD_VA, k)
      | Some data =>
          let msg := message_new (op mod W16) (tg mod W32) data in
          '(r, k1) ← @reply _ KernSched (kern_channel h) fuel (tg mod W32) msg k;
          Ok (match r with Val _ => OK | Err e => err_code e end, k1)
      end
  end.

Definition sys_print (va n : Z) (k : Kernel A M) : res (Z * Kernel A M) :=
  if 0 <? n then
    let n := Z.min n 256 in
    o ← read_user k n va n;
    Ok match o with
       | None => (ERR_BAD_VA, k)
       | Some bs => (OK, set_console k (console k ++ bs))
       end
  else Ok (OK, k).

End blocking.
End kernel.

(** ** The kernel scheduler satisfies what channels rely on *)

Section laws.
Context {A M : Type} `{!AspaceOps A M, !UserMem A M}.
Context (others : ProcId -> Kernel A M -> res (Kernel A M)).
(** A process that gets the CPU back is still in the table. *)
Hypothesis others_live : forall id k k2, others id k = Ok k2 -> is_Some (Proc.slot (sched k2) id).

Lemma current_id_update s i (f : Process A -> Process A) :
  Proc.current_id (Proc.update s i f) = Proc.current_id s.
Proof.
  unfold Proc.current_id; rewrite tpidr_update; destruct (tpidr s) as [c|]; [|done].
  rewrite slot_update; destruct (Z.eqb_spec i c) as [<-|]; [|done].
  by destruct (Proc.slot s i).
Qed.

Lemma resumed_current id (k : Kernel A M) s k' : switched_away others id k s = Ok k' ->
  kern_current k' = Some id.
Proof.
  unfold switched_away; destruct (others id (set_sched k s)) as [k2| |] eqn:E; cbn [mbind res_bind]; try done.
  intros [= <-]; destruct (others_live id _ _ E) as [p Hp].
  unfold kern_current, Proc.current_id; simpl.
  change (Proc.slot (Proc.resume_handler (sched k2) id) id) with (Proc.slot (sched k2) id).
  by rewrite Hp.
Qed.

Lemma kern_laws h : @IpcLaws (Kernel A M) (KernSched others) (kern_channel h).
Proof.
  split; try done; simpl; intros.
  - unfold get_channel, put_channel; simpl; by rewrite lookup_insert_eq.
  - apply current_id_update.
  - apply current_id_update.
  - apply current_id_update.
  - unfold kern_block in *; destruct (assert _); try done; cbn [mbind res_bind] in *.
    destruct (Proc.block_current _) as [[b s1]| |]; try done; by eapply resumed_current.
  - unfold kern_block_at in *; destruct (assert _); try done; cbn [mbind res_bind] in *.
    destruct (Proc.block_at _ _) as [[b s1]| |]; try done; by eapply resumed_current.
Qed.

(** ** Messages between address spaces *)

Context `{!UserMemLaws A M}.
Implicit Types k : Kernel A M.

(** What [sys_send] reads of the sender's buffer. *)
Lemma read_user_bytes k a b n bs : ttbr0 (sched k) = Some a -> 0 <= n <= MSG_MAX ->
  (n <> 0 -> user_range_ok (mem k) a b n false = Ok true) -> load (mem k) a b n = Ok bs ->
  read_user k MSG_MAX b n = Ok (Some bs).
Proof.
  intros Ha Hn Hok Hl; unfold read_user, range_ok; rewrite Ha, Z.min_l by lia.
  destruct (Z.eqb_spec n 0) as [->|Hne]; [|by rewrite (Hok Hne); cbn [mbind res_bind negb]; rewrite Hl].
  apply load_len in Hl; [|done]; destruct bs; [done|unfold len in Hl; simpl in Hl; lia].
Qed.

(** What a receive leaves in the receiver's buffer. *)
Definition written (m m' : M) (a : A) (dst : Z) (bs : list Z) : Prop :=
  (bs = [] /\ m' = m) \/ (bs <> [] /\ store m a dst bs = Ok m' /\ load m' a dst (len bs) = Ok bs).

Lemma write_user_bytes k a dst src n : ttbr0 (sched k) = Some a -> 0 <= n <= len src ->
  (n <> 0 -> user_range_ok (mem k) a dst n true = Ok true) -> plain (mem k) a dst n -> bytes_ok (take (Z.to_nat n) src) ->
  exists k', write_user k dst src n = Ok (Some n, k') /\ written (mem k) (mem k') a dst (take (Z.to_nat n) src).
Proof.
  intros Ha Hn Hok Hpl Hby; unfold write_user, range_ok; rewrite Ha, Z.min_l by lia.
  destruct (Z.eqb_spec n 0) as [->|Hne]; [exists k; split; [done|by left]|].
  rewrite (Hok Hne); cbn [mbind res_bind negb].
  assert (Hl : len (take (Z.to_nat n) src) = n) by (unfold len in *; rewrite length_take; lia).
  destruct (load_store (mem k) a dst (take (Z.to_nat n) src)) as (m' & Hs & Hld); rewrite ?Hl; auto.
  rewrite Hs; cbn [mbind res_bind]; eexists; split; [reflexivity|]; right; cbn [mem set_mem]; split_and!; auto.
  intros E; rewrite E in Hl; unfold len in Hl; simpl in Hl; lia.
Qed.

Lemma message_new_prefix op tg data n : 0 <= n <= len data -> len data <= MSG_MAX ->
  mlen (message_new op tg data) = len data /\
  n <= len (buf (message_new op tg data)) /\
  take (Z.to_nat n) (buf (message_new op tg data)) = take (Z.to_nat n) data.
Proof.
  intros Hn Hd; unfold message_new; cbn [mlen buf]; rewrite Z.min_l by lia.
  unfold len in *; rewrite Nat2Z.id, firstn_all, length_app, take_app_le by lia; split_and!; [done|lia|done].
Qed.

(** A message crosses from the sender's address space to the receiver's: a
    [SYCSEND] on an open, empty channel succeeds and leaves memory as it is, and
    as long as the channel is left alone a [SYCRECEIVE] on it by any process
    returns the opcode (low 16 bits), the tag (low 32 bits) and the number of
    bytes, the smaller of the payload, 256 and the receiver's capacity, and
    leaves those bytes of the sender's buffer in the receiver's buffer; that
    store is all it does to memory. *)
Lemma message_crosses (fuel : nat) (k : Kernel A M) (h b n op tg : Z) (a : A) (bs : list Z)
    (Hh : channel k h = Some h) (Hrep : chan_rep (get_channel h k) [])
    (Hopen : closed (get_channel h k) = false)
    (Ha : ttbr0 (sched k) = Some a) (Hn : 0 <= n)
    (Hread : user_range_ok (mem k) a b (Z.min n MSG_MAX) false = Ok true)
    (Hload : load (mem k) a b (Z.min n MSG_MAX) = Ok bs) :
  exists k1, sys_send others (S fuel) h b n op tg k = Ok (OK, k1) /\ mem k1 = mem k /\
    forall k2 a2 dst cap, channel k2 h = Some h -> get_channel h k2 = get_channel h k1 ->
      is_Some (kern_current k2) -> ttbr0 (sched k2) = Some a2 -> 0 <= cap ->
      let c := Z.min (Z.min n MSG_MAX) cap in
      user_range_ok (mem k2) a2 dst c true = Ok true -> plain (mem k2) a2 dst c ->
      exists k3, sys_receive others (S fuel) h dst cap k2 = Ok ((op mod W16, c, tg mod W32), k3) /\
        written (mem k2) (mem k3) a2 dst (take (Z.to_nat c) bs).
Proof.
  pose proof (kern_laws h) as Hlaws; unfold sys_send; rewrite Hh.
  rewrite (read_user_bytes k a _ _ bs) by (auto; unfold MSG_MAX; lia); cbn [mbind res_bind].
  set (msg := message_new _ _ bs).
  assert (Hdl : len bs = Z.min n MSG_MAX) by (eapply load_len; [|exact Hload]; unfold MSG_MAX; lia).
  destruct (@send_room _ (KernSched others) (kern_channel h) _ fuel msg k [] Hrep Hopen)
    as (q & Hsend & _ & Hrep1 & _ & Hopen1 & _); [done|].
  rewrite Hsend; cbn [mbind res_bind].
  set (k1 := @deliver _ (KernSched others) (kern_channel h) q k) in *.
  exists k1; split; [reflexivity|]; split; [unfold k1, deliver, boost_receiver; repeat case_match; done|].
  intros k2 a2 dst cap Hh2 Hsame Hcur Ha2 Hcap; set (c := Z.min (Z.min n MSG_MAX) cap); intros Hw Hpl.
  cbn [chan kern_channel] in Hrep1, Hopen1; rewrite <- Hsame in Hrep1, Hopen1.
  assert (Hc : 0 <= c <= Z.min n MSG_MAX) by (unfold c, MSG_MAX; lia).
  unfold sys_receive; rewrite Hh2.
  destruct (@receive_some _ (KernSched others) (kern_channel h) fuel k2 msg [] Hrep1 Hopen1 Hcur)
    as (q2 & -> & _); cbn [mbind res_bind].
  set (k2' := @dequeued _ (KernSched others) (kern_channel h) q2 k2).
  assert (Hk2 : mem k2' = mem k2 /\ ttbr0 (sched k2') = Some a2).
  { unfold k2', dequeued, wake_opt; simpl; destruct (send_waiter _); [|by split].
    simpl; split; [done|]; unfold Proc.wake; by rewrite ttbr0_update. }
  destruct Hk2 as [Hm2 Ht2].
  destruct (message_new_prefix (op mod W16) (tg mod W32) bs c) as (Hml & Hbl & Htk);
    [lia|unfold MSG_MAX in *; lia|].
  unfold deliver_to_user; fold msg in Hml, Hbl, Htk.
  rewrite Hml, Hdl; fold c.
  destruct (write_user_bytes k2' a2 dst (buf msg) c Ht2) as (k3 & -> & Hwr); [lia|by rewrite Hm2|by rewrite Hm2| |].
  { rewrite Htk; apply Forall_take; by eapply load_bytes. }
  cbn [mbind res_bind]; exists k3; split; [done|]; by rewrite <- Htk, <- Hm2.
Qed.
End laws.

(** ** Channel handles *)

Section table_proofs.
Context {A M : Type} `{!AspaceOps A M, !UserMem A M}.
Implicit Types k : Kernel A M.

(** [n] creations in a row, with the answers. *)
Fixpoint create_n (n : nat) k : list Z * Kernel A M :=
  match n with
  | O => ([], k)
  | S n' => let '(r, k1) := sys_createchan k in
            let '(rs, k2) := create_n n' k1 in (r :: rs, k2)
  end.

Lemma create_n_spec (n : nat) : forall k, 0 <= nused k -> nused k + Z.of_nat n <= NCHANNELS ->
  (create_n n k).1 = seqZ (nused k) (Z.of_nat n) /\
  nused (create_n n k).2 = nused k + Z.of_nat n /\ channels (create_n n k).2 = channels k.
Proof.
  induction n as [|n IH]; intros k H0 Hn; cbn [create_n]; [simpl; rewrite Z.add_0_r; done|].
  unfold sys_createchan, try_create; rewrite (proj2 (Z.ltb_lt _ _)) by lia.
  destruct (IH (set_nused k (nused k + 1))) as (H1 & H2 & H3); [simpl; lia..|].
  destruct (create_n n (set_nused k (nused k + 1))) as [rs k2]; simpl in *.
  rewrite H1, H2, H3; split_and!; [|lia|done].
  rewrite (seqZ_cons (nused k)) by lia; do 2 f_equal; lia.
Qed.

(** Channel handles: from boot the first 16 [SYCCREATECHAN] calls return the
    distinct handles 0 to 15, each of which resolves afterwards, and later
    calls return [ERR_NO_SLOT] and create nothing; as [ERR_NO_SLOT] is 8, that
    answer cannot be told from the ninth handle. *)
Lemma createchan_handles (k : Kernel A M) (n : nat) (Hboot : nused k = 0)
    (Hn : Z.of_nat n <= NCHANNELS) :
  (create_n n k).1 = seqZ 0 (Z.of_nat n) /\
  (forall h, 0 <= h -> channel (create_n n k).2 h = if h <? Z.of_nat n then Some h else None) /\
  (Z.of_nat n = NCHANNELS -> sys_createchan (create_n n k).2 = (ERR_NO_SLOT, (create_n n k).2)) /\
  (Z.of_nat n = ERR_NO_SLOT -> (sys_createchan (create_n n k).2).1 = ERR_NO_SLOT).
Proof.
  destruct (create_n_spec n k) as (H1 & H2 & _); [lia|lia|]; rewrite Hboot in *; split_and!; [done|..].
  - intros h Hh; unfold channel; rewrite H2.
    destruct (Z.leb_spec NCHANNELS h), (Z.leb_spec (0 + Z.of_nat n) h), (Z.ltb_spec h (Z.of_nat n));
      simpl; auto; lia.
  - intros Hfull; unfold sys_createchan, try_create; by rewrite H2, Hfull.
  - intros H8; unfold sys_createchan, try_create; by rewrite H2, H8.
Qed.

(** ** Interrupt routes *)

Lemma find_route_app i l1 l2 :
  find_route i (l1 ++ l2) = match find_route i l1 with Some r => Some r | None => find_route i l2 end.
Proof. induction l1 as [|[r|] l1 IH]; simpl; auto; by destruct (intid r =? i). Qed.

(** A successful [SYSIRQCLAIM] of an SPI routes that interrupt to the given
    channel, leaves every other route as it was, keeps the table well formed
    and enables the interrupt; every refusal changes nothing. *)
Lemma irq_claim_routes (k : Kernel A M) (i h : Z)
    (Hlen : len (routes k) = NIRQS) (Hn : 0 <= nirqueued k <= NIRQS) :
  let '(r, k') := sys_irq_claim i h k in
  if r =? OK then
    INTID_SPI_MIN <= i <= INTID_SPI_MAX /\ route k i = None /\ route k' i = Some h /\
    (forall j, j <> i -> route k' j = route k j) /\ i ∈ gic_enabled k' /\
    len (routes k') = NIRQS /\ 0 <= nirqueued k' <= NIRQS
  else k' = k.
Proof.
  unfold sys_irq_claim; destruct (negb _) eqn:Hr; [done|].
  destruct (channel k h) as [h'|] eqn:Hc; [|done].
  destruct (find_route i (published k)) as [r|] eqn:Hf; [by rewrite bool_decide_true|].
  rewrite bool_decide_false by (by intros [? ?]).
  destruct (Z.leb_spec NIRQS (nirqueued k)) as [|Hlt]; [done|].
  cbn [OK Z.eqb]; set (r := Build_IrqRoute _ _ _).
  set (k' := set_gic_enabled _ _).
  assert (Hpub : published k' = published k ++ [Some r]).
  { unfold published, k'; cbn [set_gic_enabled set_routes set_nirqueued nirqueued routes].
    replace (Z.to_nat (nirqueued k + 1)) with (S (Z.to_nat (nirqueued k))) by lia.
    rewrite (take_S_r _ _ (Some r)).
    - by rewrite take_insert_ge by lia.
    - apply list_lookup_insert_eq; unfold len in *; lia. }
  assert (Hh : h' = h) by (unfold channel in Hc; destruct (_ || _); congruence); subst h'.
  assert (Hroute : forall j, route k' j = if j =? i then Some h else route k j).
  { intros j; unfold route; rewrite Hpub, find_route_app.
    change (channel k' ?x) with (channel k x); destruct (Z.eqb_spec j i) as [->|Hne].
    - rewrite Hf; simpl; rewrite Z.eqb_refl; exact Hc.
    - destruct (find_route j (published k)) as [r'|]; [done|]; simpl.
      by rewrite (proj2 (Z.eqb_neq i j)) by congruence. }
  bsplit; split_and!; try lia.
  - unfold route; by rewrite Hf.
  - by rewrite Hroute, Z.eqb_refl.
  - intros j Hj; by rewrite Hroute, (proj2 (Z.eqb_neq j i)).
  - left.
  - unfold k'; cbn; by rewrite len_insert.
  - unfold k'; cbn; lia.
  - unfold k'; cbn; lia.
Qed.
End table_proofs.

(** ** Process death *)

Section death.
Context {A M : Type} `{!AspaceOps A M, !UserMem A M}.
Context (others : ProcId -> Kernel A M -> res (Kernel A M)).
Implicit Types k : Kernel A M.

Lemma channels_close h k :
  channels (@close _ (KernSched others) (kern_channel h) k) =
    <[h := {| queue := queue (get_channel h k); recv_waiter := None; send_waiter := None;
              closed := true |}]> (channels k).
Proof.
  unfold close, wake_opt; simpl; destruct (recv_waiter _), (send_waiter _); done.
Qed.

Lemma nused_close h k : nused (@close _ (KernSched others) (kern_channel h) k) = nused k.
Proof. unfold close, wake_opt; simpl; destruct (recv_waiter _), (send_waiter _); done. Qed.

Lemma get_channel_close h k j :
  get_channel j (@close _ (KernSched others) (kern_channel h) k) =
    if h =? j then {| queue := queue (get_channel h k); recv_waiter := None; send_waiter := None;
                      closed := true |} else get_channel j k.
Proof.
  unfold get_channel at 1; rewrite channels_close; destruct (Z.eqb_spec h j) as [<-|].
  - by rewrite lookup_insert_eq.
  - by rewrite lookup_insert_ne.
Qed.

Lemma get_channel_close_if id h k j :
  get_channel j (close_if_blocked others id h k) =
    if (h =? j) && is_blocked_on (get_channel j k) id
    then {| queue := queue (get_channel j k); recv_waiter := None; send_waiter := None;
            closed := true |} else get_channel j k.
Proof.
  unfold close_if_blocked; destruct (Z.eqb_spec h j) as [->|Hne]; cbn [andb].
  - destruct (is_blocked_on (get_channel j k) id); [|done].
    by rewrite get_channel_close, Z.eqb_refl.
  - destruct (is_blocked_on (get_channel h k) id); [|done].
    by rewrite get_channel_close, (proj2 (Z.eqb_neq h j)).
Qed.

(** The scheduler effect of a close is at most two wakes. *)
Lemma close_sched (P : Sched A -> Prop) h k :
  (forall s id, P s -> P (Proc.wake s id)) -> P (sched k) ->
  P (sched (@close _ (KernSched others) (kern_channel h) k)).
Proof.
  intros HP Hk; unfold close, wake_opt; simpl.
  destruct (recv_waiter _), (send_waiter _); simpl; auto.
Qed.

Lemma close_all_sched (P : Sched A -> Prop) id k :
  (forall s i, P s -> P (Proc.wake s i)) -> P (sched k) -> P (sched (close_all_for others id k)).
Proof.
  intros HP; unfold close_all_for; generalize (seqZ 0 (Z.min (nused k) NCHANNELS)) as l.
  intros l; revert k; induction l as [|h l IH]; intros k Hk; [done|]; cbn [foldl]; apply IH.
  unfold close_if_blocked; case_match; [by apply close_sched|done].
Qed.

(** The channels after the loop over the handles [l]. *)
Lemma foldl_close id l : NoDup l -> forall k j,
  get_channel j (foldl (fun k h => close_if_blocked others id h k) k l) =
    if bool_decide (j ∈ l) && is_blocked_on (get_channel j k) id
    then {| queue := queue (get_channel j k); recv_waiter := None; send_waiter := None;
            closed := true |} else get_channel j k.
Proof.
  induction 1 as [|h l Hh _ IH]; intros k j; cbn [foldl]; [done|].
  rewrite IH, !get_channel_close_if; destruct (Z.eqb_spec h j) as [->|Hne]; cbn [andb].
  - rewrite (bool_decide_false (j ∈ l)), (bool_decide_true (j ∈ j :: l)) by (done || left); done.
  - rewrite (bool_decide_ext (j ∈ h :: l) (j ∈ l)); [done|].
    rewrite elem_of_cons; split; [intros [?|?]; [congruence|done]|by right].
Qed.

Lemma close_all_channels id k j :
  get_channel j (close_all_for others id k) =
    if bool_decide (0 <= j < Z.min (nused k) NCHANNELS) && is_blocked_on (get_channel j k) id
    then {| queue := queue (get_channel j k); recv_waiter := None; send_waiter := None;
            closed := true |} else get_channel j k.
Proof.
  unfold close_all_for; rewrite foldl_close by apply NoDup_seqZ.
  rewrite (bool_decide_ext (j ∈ seqZ 0 (Z.min (nused k) NCHANNELS)) (0 <= j < Z.min (nused k) NCHANNELS)); [done|].
  by rewrite elem_of_seqZ.
Qed.

Lemma close_mem h k : mem (@close _ (KernSched others) (kern_channel h) k) = mem k.
Proof. unfold close, wake_opt; simpl; destruct (recv_waiter _), (send_waiter _); done. Qed.

Lemma close_all_mem id k : mem (close_all_for others id k) = mem k.
Proof.
  unfold close_all_for; generalize (seqZ 0 (Z.min (nused k) NCHANNELS)) as l; intros l.
  revert k; induction l as [|h l IH]; intros k; [done|]; cbn [foldl]; rewrite IH.
  unfold close_if_blocked; case_match; [by rewrite close_mem|done].
Qed.

(** The death of [cur] with status [st] leaves everyone else alone. *)
Record dead (k k' : Kernel A M) (cur : ProcId) (st : Z) : Prop := {
  dd_sched : sched_inv (sched k');
  dd_status : Proc.status (sched k') cur = Some st;
  dd_others : forall j, j <> cur -> alike (Proc.slot (sched k) j) (Proc.slot (sched k') j);
  dd_mem : mem k' = mem k;
  dd_waiter : forall h, 0 <= h < Z.min (nused k) NCHANNELS -> is_blocked_on (get_channel h k') cur = false;
  dd_channels : forall h, is_blocked_on (get_channel h k) cur = false -> get_channel h k' = get_channel h k;
  dd_closed : forall h, 0 <= h < Z.min (nused k) NCHANNELS -> is_blocked_on (get_channel h k) cur = true ->
    closed (get_channel h k') = true;
}.

(** The common end of [exit_current] and [fault]. *)
Lemma die_spec k cur st : sched_inv (sched k) -> tpidr (sched k) = Some cur ->
  let k1 := close_all_for others cur (set_sched k (Proc.mark_exited (sched k) cur st)) in
  exists s2, Proc.leave_cpu (sched k1) = Ok s2 /\ dead k (set_sched k1 s2) cur st.
Proof.
  intros Hinv Htp; destruct (wi_current _ (si_weak _ Hinv) cur Htp) as [pc Hpc].
  set (k0 := set_sched k (Proc.mark_exited (sched k) cur st)); intros k1.
  set (pc1 := with_state (with_exit_status pc st) Exited).
  assert (HP : winv (sched k1) /\ tpidr (sched k1) = Some cur /\ Proc.slot (sched k1) cur = Some pc1 /\
      forall j, j <> cur -> alike (Proc.slot (sched k) j) (Proc.slot (sched k1) j)).
  { apply (close_all_sched (fun s => winv s /\ tpidr s = Some cur /\ Proc.slot s cur = Some pc1 /\
      forall j, j <> cur -> alike (Proc.slot (sched k) j) (Proc.slot s j))).
    - intros s i (Hw & Ht & Hs & Ho); split_and!; [by apply wake_winv|by unfold Proc.wake; rewrite tpidr_update| |].
      + by apply wake_other.
      + intros j Hj; etransitivity; [by apply Ho|apply alike_wake].
    - unfold k0; simpl; split_and!; [by apply mark_exited_winv|by unfold Proc.mark_exited; rewrite tpidr_update| |];
        unfold Proc.mark_exited; [by rewrite slot_update, Z.eqb_refl, Hpc|].
      intros j Hj; by rewrite slot_update, (proj2 (Z.eqb_neq _ _)) by done. }
  destruct HP as (Hw & Ht & Hs & Ho).
  destruct (leave_cpu_inv _ cur pc1 Hw Ht Hs eq_refl) as (s2 & -> & Hi & (pc2 & Hp2 & Hst & Hes) & Ho2).
  exists s2; split; [reflexivity|].
  assert (Hch : forall h, get_channel h (set_sched k1 s2) =
    if bool_decide (0 <= h < Z.min (nused k) NCHANNELS) && is_blocked_on (get_channel h k) cur
    then {| queue := queue (get_channel h k); recv_waiter := None; send_waiter := None;
            closed := true |} else get_channel h k) by (intros h; exact (close_all_channels cur k0 h)).
  split; cbn [set_sched sched mem]; [done| | |exact (close_all_mem cur k0)|..].
  - unfold Proc.status; rewrite Hp2, decide_True by done; rewrite Hes; done.
  - intros j Hj; etransitivity; [by apply Ho|by apply Ho2].
  - intros h Hh; rewrite Hch, (bool_decide_true (0 <= h < _)) by done; cbn [andb].
    by destruct (is_blocked_on (get_channel h k) cur) eqn:E.
  - intros h Hh; rewrite Hch, Hh, andb_false_r; done.
  - intros h Hh Hb; rewrite Hch, (bool_decide_true (0 <= h < _)), Hb by done; done.
Qed.

(** [exit_current] does not panic and ends the current process only. *)
Lemma exit_current_spec k cur st : sched_inv (sched k) -> tpidr (sched k) = Some cur ->
  exists k', exit_current others st k = Ok k' /\ dead k k' cur st.
Proof.
  intros Hinv Htp; unfold exit_current; rewrite Htp, (exit_running_current _ cur st Hinv Htp); cbn [mbind res_bind].
  destruct (die_spec k cur st Hinv Htp) as (s2 & -> & Hd); by eexists.
Qed.

Lemma kill_self_state k cur pc : tpidr (sched k) = Some cur -> Proc.slot (sched k) cur = Some pc ->
  sched_inv (sched k) -> let k1 := (sys_kill others cur k).2 in
  tpidr (sched k1) = Some cur /\ forall i p, Proc.slot (sched k1) i = Some p -> state p <> Running.
Proof.
  intros Htp Hpc Hinv; unfold sys_kill.
  pose proof (slot_range _ _ _ Hpc) as Hr; rewrite (wi_len _ (si_weak _ Hinv)) in Hr.
  rewrite (proj2 (Z.leb_gt _ _)), Hpc by lia.
  rewrite decide_False by (rewrite (si_current _ Hinv cur pc) by done; done); cbn [snd].
  apply (close_all_sched (fun s => tpidr s = Some cur /\
    forall i p, Proc.slot s i = Some p -> state p <> Running)).
  - intros s i [Ht Hs]; split; [by unfold Proc.wake; rewrite tpidr_update|].
    intros j p; unfold Proc.wake; rewrite slot_update; destruct (Z.eqb_spec i j) as [<-|]; [|apply Hs].
    destruct (Proc.slot s i) as [q|] eqn:E; [|done]; intros [= <-]; case_decide; [done|by apply (Hs i)].
  - simpl; unfold Proc.mark_exited; rewrite tpidr_update; split; [done|].
    intros j p; rewrite slot_update; destruct (Z.eqb_spec cur j) as [<-|Hne].
    + rewrite Hpc; by intros [= <-].
    + intros Hp Hrun; pose proof (wi_running _ (si_weak _ Hinv) j p Hp Hrun); congruence.
Qed.

(** A process that kills itself with [SYS_KILL] is told it succeeded and
    goes on running, marked Exited, and its next exit panics the kernel, because
    it looks for a Running process. *)
Lemma kill_self_then_exit_panics (k : Kernel A M) (cur : ProcId) (st : Z)
    (Hinv : sched_inv (sched k)) (Htp : tpidr (sched k) = Some cur) :
  exists k1, sys_kill others cur k = (0, k1) /\ tpidr (sched k1) = Some cur /\
    exit_current others st k1 = Panic.
Proof.
  destruct (wi_current _ (si_weak _ Hinv) cur Htp) as [pc Hpc].
  pose proof (kill_self_state k cur pc Htp Hpc Hinv) as [Ht Hno].
  exists (sys_kill others cur k).2; split_and!; [|done|].
  - unfold sys_kill; pose proof (slot_range _ _ _ Hpc) as Hr.
    rewrite (wi_len _ (si_weak _ Hinv)) in Hr; rewrite (proj2 (Z.leb_gt _ _)), Hpc by lia.
    by rewrite decide_False by (rewrite (si_current _ Hinv cur pc) by done; done).
  - unfold exit_current; rewrite Ht; unfold Proc.exit_running.
    destruct (Proc.position (Proc.has_state Running) _) as [i|] eqn:E; [|done].
    apply position_state in E as (p & Hp & Hr); by destruct (Hno i p Hp).
Qed.

(** One [SYSMAPMMIO] call panics the kernel: for the last page of the
    physical address space the end of the range overflows. *)
Lemma map_mmio_top_page_panics (k : Kernel A M) (a : A) (va : Z)
    (Ha : current_aspace k = Some a) (Hva : is_u64 va) :
  sys_map_mmio (W64 - PAGE_SIZE_4K) va PAGE_SIZE_4K k = Panic.
Proof.
  unfold sys_map_mmio; rewrite Ha.
  replace (negb _) with false by (symmetry; vm_compute; reflexivity).
  replace (PAGE_SIZE_4K =? 0) with false by reflexivity.
  change (Z.to_nat (PAGE_SIZE_4K / PAGE_SIZE_4K + 2)) with 3%nat; cbn [map_mmio_pages].
  replace (0 <? PAGE_SIZE_4K) with true by reflexivity.
  unfold is_u in Hva.
  rewrite bind_uadd by (rewrite W64_val; vm_compute; reflexivity).
  rewrite bind_uadd by lia.
  replace (Range.with_pa_len (W64 - PAGE_SIZE_4K + 0) PAGE_SIZE_4K) with (@Panic PhysRange)
    by (symmetry; vm_compute; reflexivity).
  done.
Qed.
End death.

(** ** A concrete machine *)

Module KDemo.

(** Page maps as in [Flat]; the bytes of each address space are a function. *)
Record kmem := { flat : Flat.mem; bytes : Z -> Z -> Z }.

Definition write_bytes (f : Z -> Z -> Z) (a va : Z) (bs : list Z) (a' v : Z) : Z :=
  if (a' =? a) && (va <=? v) then default (f a' v) (bs !! Z.to_nat (v - va)) else f a' v.

#[export] Instance kmem_ops : AspaceOps Z kmem := {
  map_user_data_page_pa a va m :=
    '(r, f) ← @map_user_data_page_pa _ _ Flat.flat_ops a va (flat m); Ok (r, {| flat := f; bytes := bytes m |});
  backing m a va := @backing _ _ Flat.flat_ops (flat m) a va;
  space_ok _ _ := True;
  usable _ := True;
}.

#[export] Instance kmem_user : UserMem Z kmem := {
  user_range_ok m a va n w := Ok ((IMAGE_BASE <=? va) && (va + n <=? 0x300000));
  load m a va n := Ok ((fun i => bytes m a (va + i) mod W8) <$> seqZ 0 n);
  store m a va bs := Ok {| flat := flat m; bytes := write_bytes (bytes m) a va bs |};
  map_mmio a r va m := Ok (Val tt, m);
  plain _ _ _ _ := True;
}.

#[export] Instance kmem_laws : UserMemLaws Z kmem.
Proof.
  split; simpl.
  - intros m a va n bs Hn [= <-]; unfold len; rewrite length_fmap, length_seqZ; lia.
  - intros m a va n bs [= <-]; apply Forall_forall; intros x (i & -> & _)%list_elem_of_fmap; apply Z.mod_pos_bound; done.
  - intros m a va bs _ _ Hb; eexists; split; [reflexivity|]; f_equal; apply list_eq; intros i; rewrite list_lookup_fmap.
    destruct (decide (i < length bs)%nat) as [Hi|Hi].
    + rewrite lookup_seqZ_lt by (unfold len; lia); cbn [fmap option_fmap option_map].
      cbn [bytes]; unfold write_bytes; rewrite Z.eqb_refl, (proj2 (Z.leb_le _ _)) by lia; cbn [andb].
      replace (Z.to_nat (va + (0 + Z.of_nat i) - va)) with i by lia.
      destruct (lookup_lt_is_Some_2 bs i Hi) as [x Hx]; rewrite Hx; cbn [default]; f_equal.
      apply Z.mod_small, (proj1 (Forall_lookup _ _) Hb i x Hx).
    + rewrite lookup_seqZ_ge by (unfold len; lia); by rewrite lookup_ge_None_2 by lia.
Qed.

(** No other process runs. *)
Definition alone : ProcId -> Kernel Z kmem -> res (Kernel Z kmem) := fun _ _ => Timeout.

Lemma alone_live : forall id k k2, alone id k = Ok k2 -> is_Some (Proc.slot (sched k2) id).
Proof. done. Qed.

Definition start : Kernel Z kmem :=
  {| sched := demo_run; mem := {| flat := Flat.empty; bytes := fun a v => (a + v) mod 256 |};
     channels := ∅; nused := 0; routes := replicate (Z.to_nat NIRQS) None; nirqueued := 0;
     gic_enabled := []; console := [] |}.

Definition with_channel : Kernel Z kmem := (create_n 1 start).2.

(** Five bytes sent, four of them received into another buffer. *)
Lemma message_demo :
  ('(_, k1) ← sys_send alone 1 0 0x200000 5 7 9 with_channel;
   '(r, k3) ← sys_receive alone 1 0 0x200100 4 k1;
   bs ← load (mem k3) 100 0x200100 4; Ok (r, bs)) = Ok ((7, 4, 9), [100; 101; 102; 103]).
Proof. vm_compute; reflexivity. Qed.

End KDemo.
