(* ===== verification/Demangle.v ===== *)
(** * Symbol names ([aarch64/src/demangle.rs])

    The demangler of the fault backtrace: it reads the names of a mangled Rust
    path and writes them, joined by [::], into a buffer of the caller. *)

From S2P Require Import Prelude.
From Stdlib Require Import Ascii.

Module Dm.

(** ** Bytes *)

(** [b'c']. *)
Definition b (c : ascii) : Z := Z.of_N (N_of_ascii c).
Arguments b c%_char.

Fixpoint bytes_of (s : string) : list Z :=
  match s with EmptyString => [] | String c s' => b c :: bytes_of s' end.

Definition is_digit (c : Z) : bool := (b "0" <=? c) && (c <=? b "9").
Definition is_alphanumeric (c : Z) : bool :=
  is_digit c || ((b "A" <=? c) && (c <=? b "Z")) || ((b "a" <=? c) && (c <=? b "z")).
Definition is_disamb_byte (c : Z) : bool := is_alphanumeric c || (c =? b "_").
Definition is_name_byte (c : Z) : bool := is_alphanumeric c || (c =? b "_").

(** [matches!(c, b'x' | ..)]. *)
Definition matches (c : Z) (s : string) : bool := existsb (Z.eqb c) (bytes_of s).

(** ** Reading a name *)

Definition MAX_DISAMBIG : Z := 13.
Definition MIN_DISAMBIG : Z := 2.

(** [while *pos < bytes.len() && bytes[*pos].is_ascii_digit()], on what is left
    of the input. *)
Fixpoint count_digits (l : list Z) : Z :=
  match l with c :: l' => if is_digit c then 1 + count_digits l' else 0 | [] => 0 end.

(** [fold(0usize, |acc, &b| acc * 10 + (b - b'0') as usize)]. *)
Fixpoint decimal (acc : Z) (l : list Z) : res Z :=
  match l with
  | [] => Ok acc
  | c :: l' => x ← umul acc 10; y ← uadd x (c - b "0"); decimal y l'
  end.

Definition slice (bytes : list Z) (s e : Z) : list Z := take (Z.to_nat (e - s)) (drop (Z.to_nat s) bytes).

(** [peek_name]: the position behind the digits and the length they give. *)
Definition peek_name (bytes : list Z) (pos : Z) : res (option (Z * Z)) :=
  let p := pos + count_digits (drop (Z.to_nat pos) bytes) in
  if p =? pos then Ok None else
  n ← decimal 0 (slice bytes pos p);
  if (n =? 0) || (255 <? n) || (len bytes <? p + n) then Ok None else
  Ok (if forallb is_name_byte (slice bytes p (p + n)) then Some (p, n) else None).

(** A name is a pointer into the input and a length. *)
Record Name := { nstart : Z; nlen : Z }.

(** [read_name]: the name and the position behind it. *)
Definition read_name (bytes : list Z) (pos : Z) : res (option (Name * Z)) :=
  r ← peek_name bytes pos;
  match r with
  | None => Ok None
  | Some (p, _) =>
      n ← decimal 0 (slice bytes pos p);
      Ok (Some ({| nstart := p; nlen := n |}, p + n))
  end.

(** The lengths of a disambiguator from the longest to the shortest. *)
Fixpoint try_disamb (bytes : list Z) (start : Z) (dlens : list Z) : res (option Z) :=
  match dlens with
  | [] => Ok None
  | dlen :: dlens' =>
      let rem := start + dlen in
      if len bytes <=? rem then try_disamb bytes start dlens' else
      if negb (forallb is_disamb_byte (slice bytes start rem)) then try_disamb bytes start dlens' else
      c ← aget bytes rem;
      if negb (is_digit c) then try_disamb bytes start dlens' else
      r ← peek_name bytes rem;
      match r with
      | None => try_disamb bytes start dlens'
      | Some _ => Ok (Some rem)
      end
  end.

(** [read_crate_disamb]: the position behind it. *)
Definition read_crate_disamb (bytes : list Z) (pos : Z) : res (option Z) :=
  if len bytes <=? pos then Ok None else
  c ← aget bytes pos;
  if c =? b "v" then Ok (Some (pos + 1)) else
  try_disamb bytes pos (reverse (seqZ MIN_DISAMBIG (MAX_DISAMBIG - MIN_DISAMBIG + 1))).

(** ** The path *)

Record Scan := { pos : Z; names : list Name; gen_start : option Z; past_crate : bool }.

Definition nnames (s : Scan) : Z := len (names s).

(** [read_name] into [names[nnames]]; [None] leaves the loop. *)
Definition push_name (bytes : list Z) (s : Scan) (past : bool) : res (option Scan) :=
  r ← read_name bytes (pos s);
  Ok (match r with
      | None => None
      | Some (n, p) => Some {| pos := p; names := names s ++ [n]; gen_start := gen_start s; past_crate := past || past_crate s |}
      end).

Definition with_pos (s : Scan) (p : Z) : Scan :=
  {| pos := p; names := names s; gen_start := gen_start s; past_crate := past_crate s |}.

(** One turn of the loop; [inr] when it ends. *)
Definition turn (bytes : list Z) (s : Scan) : res (Scan + Scan) :=
  if (len bytes <=? pos s) || (nnames s =? 16) then Ok (inr s) else
  c ← (aget bytes (pos s) : res Z);
  let more (s1 : Scan) (past : bool) : res (Scan + Scan) :=
    r ← push_name bytes s1 past; Ok (match r with Some s2 => inl s2 | None => inr s1 end) in
  if c =? b "C" then
    r ← read_crate_disamb bytes (pos s + 1);
    match r with
    | None => Ok (inr (with_pos s (pos s + 1)))
    | Some p => more (with_pos s p) true
    end
  else if matches c "NSIM" then
    let s1 := {| pos := pos s; names := names s; past_crate := past_crate s;
                 gen_start := if past_crate s && (bool_decide (gen_start s = None)) && (0 <? nnames s) then Some (nnames s) else gen_start s |} in
    let at_ (p : Z) (t : string) : res bool := if p <? len bytes then c ← aget bytes p; Ok (matches c t) else Ok false in
    let p := pos s + 1 in
    mark ← at_ p "tvmblopyq";
    let p := if (mark : bool) then p + 1 else p in
    marker ← at_ p "NSIMCEB";
    if (marker : bool) then Ok (inl (with_pos s1 p)) else
    crate ← at_ p "C";
    if (crate : bool) then
      r ← read_crate_disamb bytes (p + 1);
      match r with
      | None => Ok (inr (with_pos s1 (p + 1)))
      | Some q => more (with_pos s1 q) false
      end
    else
      v ← at_ p "v";
      more (with_pos s1 (if (v : bool) then p + 1 else p)) false
  else if c =? b "B" then
    let p := pos s + 1 in
    if p <? len bytes then
      d ← aget bytes p;
      if d =? b "C" then r ← read_crate_disamb bytes p; Ok (inl (with_pos s (default p r)))
      else Ok (inl (with_pos s p))
    else Ok (inl (with_pos s p))
  else if matches c "Etvmblopyq" then Ok (inl (with_pos s (pos s + 1)))
  else if is_digit c then more s false
  else Ok (inr s).

Fixpoint scan (fuel : nat) (bytes : list Z) (s : Scan) : res Scan :=
  match fuel with
  | O => Timeout
  | S fuel' => r ← turn bytes s; match r with inl s1 => scan fuel' bytes s1 | inr s1 => Ok s1 end
  end.

(** ** The output *)

(** The buffer with [bs] written from [p] on; a write past the end panics. *)
Fixpoint put (buf : list Z) (p : Z) (bs : list Z) : res (list Z) :=
  match bs with
  | [] => Ok buf
  | c :: bs' => buf1 ← aset buf p c; put buf1 (p + 1) bs'
  end.

(** [copy_name] into [buf[out_pos..]], which panics when [out_pos] is past the end;
    the pointer is read for as many bytes as fit, and [Panic] stands for a read
    outside the input. *)
Definition copy_name (bytes : list Z) (n : Name) (buf : list Z) (out_pos : Z) : res (Z * list Z) :=
  room ← usub (len buf) out_pos;
  let k := Z.min (nlen n) room in
  bs ← unwrap (sget bytes (nstart n) k);
  buf1 ← put buf out_pos bs;
  Ok (k, buf1).

(** The loops over the names: before each name but the first a separator, which
    ends the loop when it does not fit.  [sep] is the test for the first. *)
Fixpoint write_names (bytes : list Z) (sep : list Z -> Z -> res bool) (ns : list Name) (buf : list Z) (out_pos : Z) : res (Z * list Z) :=
  match ns with
  | [] => Ok (out_pos, buf)
  | n :: ns' =>
      s ← sep buf out_pos;
      if (s : bool) && (len buf <? out_pos + 2) then Ok (out_pos, buf) else
      buf1 ← (if s then put buf out_pos (bytes_of "::") else Ok buf);
      let p := if s then out_pos + 2 else out_pos in
      '(k, buf2) ← copy_name bytes n buf1 p;
      write_names bytes sep ns' buf2 (p + k)
  end.

Definition sep_main (buf : list Z) (out_pos : Z) : res bool := Ok (0 <? out_pos).
(** [out_pos > 0 && buf[out_pos - 1] != b'<']. *)
Definition sep_generic (buf : list Z) (out_pos : Z) : res bool :=
  if 0 <? out_pos then c ← aget buf (out_pos - 1); Ok (negb (c =? b "<")) else Ok false.

Definition format (bytes : list Z) (ns : list Name) (gs : option Z) (buf : list Z) : res (list Z) :=
  let main_count := default (len ns) gs in
  '(p, buf) ← write_names bytes sep_main (take (Z.to_nat main_count) ns) buf 0;
  '(p, buf) ←
    match gs with
    | Some g =>
        if g <? len ns then
          '(p, buf) ← (if p + 3 <? len buf then buf1 ← put buf p (bytes_of "::<"); Ok (p + 3, buf1) else Ok (p, buf));
          '(p, buf) ← write_names bytes sep_generic (drop (Z.to_nat g) ns) buf p;
          if p <? len buf then buf1 ← aset buf p (b ">"); Ok (p + 1, buf1) else Ok (p, buf)
        else Ok (p, buf)
    | None => Ok (p, buf)
    end;
  if p <? len buf then aset buf p 0 else Ok buf.

(** ** [demangle] *)

Definition demangle (bytes buf : list Z) : res (bool * list Z) :=
  if (len bytes <? 3) || negb (bool_decide (take 2 bytes = bytes_of "_R")) then Ok (false, buf) else
  s ← scan (S (length bytes)) bytes {| pos := 2; names := []; gen_start := None; past_crate := false |};
  if nnames s =? 0 then Ok (false, buf) else
  buf1 ← format bytes (names s) (gen_start s) buf;
  Ok (true, buf1).

(** ** No panic, no endless loop *)

(** Every run of digits is short enough for a [usize]. *)
Definition digits_fit (bytes : list Z) : Prop := forall p, count_digits (drop p bytes) <= 19.

Lemma count_digits_spec l : 0 <= count_digits l <= len l /\ Forall (fun c => is_digit c = true) (take (Z.to_nat (count_digits l)) l).
Proof.
  induction l as [|c l [IH1 IH2]]; [split; [done|constructor]|]; cbn [count_digits]; rewrite (len_app [c] l : len (c :: l) = _); change (len [c]) with 1.
  destruct (is_digit c) eqn:E; [|split; [lia|constructor]]; split; [lia|].
  replace (Z.to_nat (1 + count_digits l)) with (S (Z.to_nat (count_digits l))) by lia; cbn [take]; by constructor.
Qed.

Lemma decimal_ok l : forall acc, 0 <= acc -> Forall (fun c => is_digit c = true) l -> (acc + 1) * 10 ^ len l <= W64 ->
  exists n, decimal acc l = Ok n /\ 0 <= n < (acc + 1) * 10 ^ len l.
Proof.
  induction l as [|c l IH]; intros acc H0 Hd Hb; cbn [decimal].
  - exists acc; change (len []) with 0; split; [done|lia].
  - apply Forall_cons in Hd as [Hc Hd]; unfold is_digit in Hc; bsplit; change (b "0") with 48 in *; change (b "9") with 57 in *.
    rewrite (len_app [c] l : len (c :: l) = _), Z.pow_add_r in * by (try apply len_nonneg; done); change (10 ^ len [c]) with 10 in *.
    pose proof (Z.pow_pos_nonneg 10 (len l) ltac:(lia) (len_nonneg l)) as Hp.
    rewrite umul_ok by nia; cbn [mbind res_bind]; rewrite uadd_ok by nia; cbn [mbind res_bind].
    destruct (IH (acc * 10 + (c - 48)) ltac:(lia) Hd ltac:(nia)) as (n & -> & Hn); exists n; split; [done|nia].
Qed.

Lemma slice_count bytes p : 0 <= p -> let l := drop (Z.to_nat p) bytes in slice bytes p (p + count_digits l) = take (Z.to_nat (count_digits l)) l.
Proof. intros Hp l; unfold slice; do 2 f_equal; lia. Qed.

Lemma slice_len bytes s e : 0 <= s <= e -> e <= len bytes -> len (slice bytes s e) = e - s.
Proof. unfold slice, len; intros; rewrite length_take, length_drop; lia. Qed.

Section safe.
Context (bytes : list Z) (Hfit : digits_fit bytes).

Lemma drop_len p : 0 <= p <= len bytes -> len (drop (Z.to_nat p) bytes) = len bytes - p.
Proof. unfold len; rewrite length_drop; lia. Qed.

Lemma peek_name_ok p : 0 <= p <= len bytes ->
  exists r, peek_name bytes p = Ok r /\ match r with
  | None => True
  | Some (q, n) => p < q /\ 0 < n /\ q + n <= len bytes /\ decimal 0 (slice bytes p q) = Ok n
  end.
Proof.
  intros Hp; unfold peek_name; set (l := drop (Z.to_nat p) bytes); pose proof (count_digits_spec l) as [Hc Hd].
  destruct (Z.eqb_spec (p + count_digits l) p) as [|Hne]; [by exists None|].
  unfold l in *; rewrite drop_len in Hc by done; rewrite slice_count by lia.
  destruct (decimal_ok _ 0 ltac:(lia) Hd) as (n & E & Hn).
  { assert (Hl : len (take (Z.to_nat (count_digits (drop (Z.to_nat p) bytes))) (drop (Z.to_nat p) bytes)) <= 19).
    { unfold len; rewrite length_take; specialize (Hfit (Z.to_nat p)); lia. }
    transitivity (10 ^ 19); [|rewrite W64_val; lia]; rewrite Z.mul_1_l; apply Z.pow_le_mono_r; lia. }
  rewrite E; cbn [mbind res_bind]; destruct ((n =? 0) || (255 <? n) || _) eqn:Eb; [by exists None|].
  apply orb_false_iff in Eb as [Eb E3]; apply orb_false_iff in Eb as [E1 E2].
  destruct (forallb _ _); eexists; (split; [reflexivity|]); [|done]; cbv beta iota; rewrite ?slice_count by lia; split_and!; [lia|lia|lia|done].
Qed.

Definition name_ok (n : Name) : Prop := 0 <= nstart n /\ 0 < nlen n /\ nstart n + nlen n <= len bytes.

Lemma read_name_ok p : 0 <= p <= len bytes -> exists r, read_name bytes p = Ok r /\ match r with
  | None => True | Some (n, q) => name_ok n /\ p < q <= len bytes end.
Proof.
  intros Hp; unfold read_name; destruct (peek_name_ok p Hp) as (r & -> & Hr); cbn [mbind res_bind]; destruct r as [[q n]|]; [|by exists None].
  destruct Hr as (H1 & H2 & H3 & ->); cbn [mbind res_bind]; eexists; split; [reflexivity|]; unfold name_ok; cbn [nstart nlen]; split_and!; lia.
Qed.

Lemma try_disamb_ok start ds : 0 <= start -> Forall (fun d => 2 <= d) ds -> exists r, try_disamb bytes start ds = Ok r /\ match r with
  | None => True | Some q => start < q < len bytes end.
Proof.
  intros Hs; induction 1 as [|d ds Hd _ IH]; cbn [try_disamb]; [by exists None|].
  destruct (Z.leb_spec (len bytes) (start + d)) as [|Hlt]; [done|]; destruct (negb _); [done|].
  destruct (aget_lt bytes (start + d) ltac:(lia)) as (c & -> & _); cbn [mbind res_bind]; destruct (negb _); [done|].
  destruct (peek_name_ok (start + d) ltac:(lia)) as (r & -> & _); cbn [mbind res_bind]; destruct r; [|done].
  eexists; split; [reflexivity|]; cbv beta iota in *; lia.
Qed.

Lemma read_crate_disamb_ok p : 0 <= p -> exists r, read_crate_disamb bytes p = Ok r /\ match r with None => True | Some q => p < q <= len bytes end.
Proof.
  intros Hp; unfold read_crate_disamb; destruct (Z.leb_spec (len bytes) p); [by exists None|].
  destruct (aget_lt bytes p ltac:(lia)) as (c & -> & _); cbn [mbind res_bind]; destruct (c =? b "v"); [eexists; split; [reflexivity|]; cbv beta iota; lia|].
  destruct (try_disamb_ok p (reverse (seqZ MIN_DISAMBIG (MAX_DISAMBIG - MIN_DISAMBIG + 1))) Hp) as (r & -> & Hr).
  - apply Forall_forall; intros d; rewrite elem_of_reverse, elem_of_seqZ; unfold MIN_DISAMBIG; lia.
  - exists r; split; [done|]; destruct r; [lia|done].
Qed.

(** What the loop keeps: the names lie in the input. *)
Record scan_ok (s : Scan) : Prop := {
  sc_pos : 0 <= pos s <= len bytes;
  sc_names : Forall name_ok (names s);
  sc_gen : forall g, gen_start s = Some g -> 0 < g <= nnames s;
}.

Definition turn_post (s : Scan) (r : Scan + Scan) : Prop :=
  match r with inl s1 => scan_ok s1 /\ pos s < pos s1 | inr s1 => Forall name_ok (names s1) /\ forall g, gen_start s1 = Some g -> 0 < g <= nnames s1 end.

Lemma push_ok s s0 past : scan_ok s -> pos s0 <= pos s ->
  exists r, (r ← push_name bytes s past; Ok (match r with Some s2 => inl s2 | None => inr s end)) = Ok r /\ turn_post s0 r.
Proof.
  intros [Hp Hn Hg] Hs; unfold push_name; destruct (read_name_ok (pos s) Hp) as (r & -> & Hr); cbn [mbind res_bind]; eexists; split; [reflexivity|].
  destruct r as [[n q]|]; cbn [turn_post]; [|done]; destruct Hr as [Hn1 Hq]; split; [split; cbn [pos names gen_start]|cbn [pos]; lia].
  - lia.
  - apply Forall_app; split; [done|by constructor].
  - intros g Hgs; specialize (Hg g Hgs); unfold nnames in *; cbn [names]; rewrite len_app; change (len [n]) with 1; lia.
Qed.

Lemma with_pos_ok s p : scan_ok s -> 0 <= p <= len bytes -> scan_ok (with_pos s p).
Proof. intros [_ Hn Hg] Hp; by split. Qed.

Lemma scan_ok_post s0 s : scan_ok s -> turn_post s0 (inr s).
Proof. intros [_ Hn Hg]; by split. Qed.

(** Each turn goes on behind where it started, or ends the loop. *)
Lemma turn_ok s : scan_ok s -> exists r, turn bytes s = Ok r /\ turn_post s r.
Proof.
  intros Hs; pose proof Hs as [Hp Hn Hg]; unfold turn.
  destruct (_ || _) eqn:E0; [eexists; split; [reflexivity|by apply scan_ok_post]|]; apply orb_false_iff in E0 as [E0 _]; apply Z.leb_gt in E0.
  destruct (aget_lt bytes (pos s) ltac:(lia)) as (c & -> & _); cbn [mbind res_bind].
  destruct (c =? b "C").
  { destruct (read_crate_disamb_ok (pos s + 1) ltac:(lia)) as (r & -> & Hr); cbn [mbind res_bind]; destruct r as [q|].
    - apply push_ok; [apply with_pos_ok; [done|lia]|cbn [pos with_pos]; lia].
    - eexists; split; [reflexivity|]; apply (scan_ok_post s (with_pos s (pos s + 1))), with_pos_ok; [done|lia]. }
  destruct (matches c "NSIM").
  { match goal with |- context [with_pos ?x] => set (s1 := x) end.
    assert (Hs1 : scan_ok s1).
    { split; subst s1; cbn [pos names gen_start]; [done|done|]; intros g; unfold nnames; cbn [names].
      destruct (_ && _ && _) eqn:E; [|apply Hg]; bsplit; intros [= <-]; lia. }
    assert (Hat : forall p t, exists v, (if p <? len bytes then c ← aget bytes p; Ok (matches c t) else Ok false) = Ok v /\ (0 <= p -> v = true -> p < len bytes) \/
      p < 0).
    { intros p t; destruct (decide (p < 0)); [exists false; by right|]; destruct (Z.ltb_spec p (len bytes)); [|exists false; by left].
      destruct (aget_lt bytes p ltac:(lia)) as (x & -> & _); eexists; left; split; [reflexivity|done]. }
    destruct (Hat (pos s + 1) "tvmblopyq") as (mk & [[-> Hmk]|?]); [|lia]; cbn [mbind res_bind].
    set (p := if mk then pos s + 1 + 1 else pos s + 1); assert (Hpp : pos s < p <= len bytes) by (subst p; destruct mk; [specialize (Hmk ltac:(lia) eq_refl)|]; lia).
    destruct (Hat p "NSIMCEB") as (mr & [[-> Hmr]|?]); [|lia]; cbn [mbind res_bind].
    destruct mr; [eexists; split; [reflexivity|]; split; [apply with_pos_ok; [done|lia]|cbn [pos with_pos]; lia]|].
    destruct (Hat p "C") as (cr & [[-> Hcr]|?]); [|lia]; cbn [mbind res_bind]; destruct cr.
    - destruct (read_crate_disamb_ok (p + 1) ltac:(lia)) as (r & -> & Hr); cbn [mbind res_bind]; destruct r as [q|].
      + apply push_ok; [apply with_pos_ok; [done|lia]|cbn [pos with_pos]; lia].
      + specialize (Hcr ltac:(lia) eq_refl); eexists; split; [reflexivity|]; apply (scan_ok_post s (with_pos s1 (p + 1))), with_pos_ok; [done|lia].
    - destruct (Hat p "v") as (v & [[-> Hv]|?]); [|lia]; cbn [mbind res_bind].
      apply push_ok; [apply with_pos_ok; [done|]|cbn [pos with_pos]]; destruct v; try lia; specialize (Hv ltac:(lia) eq_refl); lia. }
  destruct (c =? b "B").
  { destruct (Z.ltb_spec (pos s + 1) (len bytes)) as [Hlt|].
    - destruct (aget_lt bytes (pos s + 1) ltac:(lia)) as (d & -> & _); cbn [mbind res_bind]; destruct (d =? b "C").
      + destruct (read_crate_disamb_ok (pos s + 1) ltac:(lia)) as (r & -> & Hr); cbn [mbind res_bind]; eexists; split; [reflexivity|].
        destruct r; unfold default, from_option, id; (split; [apply with_pos_ok; [done|lia]|cbn [pos with_pos]; lia]).
      + eexists; split; [reflexivity|]; split; [apply with_pos_ok; [done|lia]|cbn [pos with_pos]; lia].
    - eexists; split; [reflexivity|]; split; [apply with_pos_ok; [done|lia]|cbn [pos with_pos]; lia]. }
  destruct (matches c "Etvmblopyq"); [eexists; split; [reflexivity|]; split; [apply with_pos_ok; [done|lia]|cbn [pos with_pos]; lia]|].
  destruct (is_digit c); [apply push_ok; [done|lia]|]; eexists; split; [reflexivity|by apply scan_ok_post].
Qed.

(** The loop ends: one turn per byte is enough. *)
Lemma scan_ends fuel : forall s, scan_ok s -> len bytes - pos s < Z.of_nat fuel ->
  exists s1, scan fuel bytes s = Ok s1 /\ Forall name_ok (names s1) /\ forall g, gen_start s1 = Some g -> 0 < g <= nnames s1.
Proof.
  induction fuel as [|fuel IH]; intros s Hs Hf; [destruct Hs; lia|]; cbn [scan].
  destruct (turn_ok s Hs) as (r & -> & Hr); cbn [mbind res_bind]; destruct r as [s1|s1]; [|by exists s1].
  destruct Hr as [Hs1 Hlt]; apply IH; [done|lia].
Qed.
End safe.

(** ** The output *)

Lemma put_ok bs : forall buf p, 0 <= p -> p + len bs <= len buf ->
  put buf p bs = Ok (take (Z.to_nat p) buf ++ bs ++ drop (Z.to_nat (p + len bs)) buf).
Proof.
  induction bs as [|c bs IH]; intros buf p Hp Hl; cbn [put].
  - change (len []) with 0; by rewrite Z.add_0_r, app_nil_l, take_drop.
  - rewrite (len_app [c] bs : len (c :: bs) = _) in *; change (len [c]) with 1 in *; pose proof (len_nonneg bs).
    rewrite aset_lt by lia; cbn [mbind res_bind]; rewrite IH by (rewrite ?len_insert; lia); f_equal.
    replace (Z.to_nat (p + 1)) with (S (Z.to_nat p)) by lia; rewrite (take_S_r _ _ c) by (apply list_lookup_insert_eq; unfold len in *; lia).
    rewrite take_insert_ge, <- app_assoc by lia; cbn [app]; do 3 f_equal; rewrite drop_insert_lt by lia; f_equal; lia.
Qed.

(** A prefix [out] has been written to the buffer [buf0]. *)
Definition written (buf0 out : list Z) : list Z := out ++ drop (length out) buf0.

Lemma written_len buf0 out : len out <= len buf0 -> len (written buf0 out) = len buf0.
Proof. unfold written, len; rewrite length_app, length_drop; lia. Qed.

Lemma put_written buf0 out bs : len out + len bs <= len buf0 -> put (written buf0 out) (len out) bs = Ok (written buf0 (out ++ bs)).
Proof.
  intros Hl; pose proof (len_nonneg out); pose proof (len_nonneg bs); rewrite put_ok by (rewrite ?written_len; lia); f_equal; unfold written, len in *.
  rewrite Nat2Z.id, take_app_length, <- app_assoc; f_equal; f_equal.
  rewrite drop_app_ge by lia; rewrite drop_drop; f_equal; rewrite length_app; lia.
Qed.

Section output.
Context (bytes buf0 : list Z).

(** The text of a name. *)
Definition text (n : Name) : list Z := slice bytes (nstart n) (nstart n + nlen n).

Lemma text_len n : name_ok bytes n -> len (text n) = nlen n.
Proof. intros (H1 & H2 & H3); unfold text; rewrite slice_len by lia; lia. Qed.

Lemma copy_written out n : name_ok bytes n -> len out <= len buf0 ->
  let k := Z.min (nlen n) (len buf0 - len out) in
  copy_name bytes n (written buf0 out) (len out) = Ok (k, written buf0 (out ++ take (Z.to_nat k) (text n))).
Proof.
  intros (H1 & H2 & H3) Ho k; unfold copy_name; rewrite written_len, usub_ok by lia; cbn [mbind res_bind]; fold k.
  assert (Hk : 0 <= k <= nlen n /\ len out + k <= len buf0) by (subst k; lia).
  assert (Hs : sget bytes (nstart n) k = Some (take (Z.to_nat k) (text n))).
  { apply sget_Some; split_and!; try lia; unfold text, slice; rewrite take_take; do 2 f_equal; lia. }
  rewrite Hs; cbn [unwrap mbind res_bind]; pose proof (sget_len _ _ _ _ Hs) as Hlen; rewrite put_written by lia; done.
Qed.

(** What separates the names after the text [out]: nothing at the start, or behind
    the opening bracket. *)
Definition sep_for (sep : list Z -> Z -> res bool) (first : list Z -> bool) : Prop :=
  forall out, len out <= len buf0 -> sep (written buf0 out) (len out) = Ok (negb (first out)).

Definition main_first (out : list Z) : bool := bool_decide (out = []).
Definition generic_first (out : list Z) : bool := match last out with Some c => c =? b "<" | None => true end.

Lemma len_pos (out : list Z) : 0 < len out <-> out <> [].
Proof. destruct out; unfold len; simpl; split; try done; lia. Qed.

Lemma sep_main_for : sep_for sep_main main_first.
Proof.
  intros out Ho; unfold sep_main, main_first; f_equal; destruct (Z.ltb_spec 0 (len out)) as [H|H]; case_bool_decide as E; try done; [subst; unfold len in H; simpl in H; lia|].
  apply len_pos in E; lia.
Qed.

Lemma sep_generic_for : sep_for sep_generic generic_first.
Proof.
  intros out Ho; unfold sep_generic, generic_first; destruct out as [|c out _] using rev_ind; [done|].
  rewrite last_snoc; rewrite len_app in *; change (len [c]) with 1 in *; pose proof (len_nonneg out); rewrite (proj2 (Z.ltb_lt _ _)) by lia.
  assert (Hg : aget (written buf0 (out ++ [c])) (len out + 1 - 1) = Ok c).
  { apply aget_Ok; split; [lia|]; unfold written; rewrite <- app_assoc; replace (len out + 1 - 1) with (len out) by lia; unfold len; rewrite Nat2Z.id.
    by rewrite lookup_app_r, Nat.sub_diag by lia. }
  by rewrite Hg.
Qed.

(** Joining with separators, as the loops do. *)
Fixpoint joined (first : list Z -> bool) (out : list Z) (ts : list (list Z)) : list Z :=
  match ts with
  | [] => out
  | t :: ts' => joined first (out ++ (if first out then [] else bytes_of "::") ++ t) ts'
  end.

Lemma joined_prefix first out ts : out `prefix_of` joined first out ts.
Proof.
  revert out; induction ts as [|t ts IH]; intros out; cbn [joined]; [done|]; etransitivity; [|apply IH]; apply prefix_app_r; done.
Qed.

(** The loop over the names writes a prefix of the joined text, all of it when
    it fits. *)
Lemma write_names_ok sep first : sep_for sep first -> forall ns out, Forall (name_ok bytes) ns -> len out <= len buf0 ->
  exists out', write_names bytes sep ns (written buf0 out) (len out) = Ok (len out', written buf0 out') /\ len out' <= len buf0 /\
    (len (joined first out (text <$> ns)) <= len buf0 -> out' = joined first out (text <$> ns)).
Proof.
  intros Hsep; induction ns as [|n ns IH]; intros out Hn Ho; cbn [write_names fmap list_fmap joined]; [by exists out|].
  apply Forall_cons in Hn as [Hn1 Hn]; rewrite (Hsep out Ho); cbn [mbind res_bind]; rewrite written_len by done.
  set (sp := if first out then [] else bytes_of "::").
  assert (Hsp : len sp = if first out then 0 else 2) by (subst sp; by destruct (first out)).
  assert (Hjl : forall x, len x <= len (joined first x (text <$> ns))).
  { intros x; destruct (joined_prefix first x (text <$> ns)) as [k ->]; rewrite len_app; pose proof (len_nonneg k); lia. }
  destruct (negb (first out) && (len buf0 <? len out + 2)) eqn:Ebrk.
  { bsplit; exists out; split_and!; [done|done|]; intros Hf; specialize (Hjl (out ++ sp ++ text n)); rewrite !len_app, Hsp in Hjl.
    destruct (first out); [done|]; pose proof (text_len n Hn1); destruct Hn1 as (_ & ? & _); lia. }
  assert (Hroom : len out + len sp <= len buf0) by (rewrite Hsp; destruct (first out); cbn [negb andb] in Ebrk; [lia|apply Z.ltb_ge in Ebrk; lia]).
  replace (if negb (first out) then put (written buf0 out) (len out) (bytes_of "::") else Ok (written buf0 out)) with (Ok (written buf0 (out ++ sp))).
  2:{ subst sp; destruct (first out); cbn [negb]; [by rewrite app_nil_r|by rewrite put_written]. }
  replace (if negb (first out) then len out + 2 else len out) with (len (out ++ sp)) by (rewrite len_app, Hsp; destruct (first out); cbn [negb]; lia).
  cbn [mbind res_bind]; rewrite copy_written by (done || rewrite len_app; lia); cbn [mbind res_bind].
  set (k := Z.min _ _); assert (Hk : 0 <= k <= nlen n /\ len (out ++ sp) + k <= len buf0) by (subst k; rewrite len_app in *; destruct Hn1 as (? & ? & ?); lia).
  set (t := take (Z.to_nat k) (text n)).
  assert (Ht : len t = k) by (subst t; pose proof (text_len n Hn1); unfold len in *; rewrite length_take; lia).
  replace (len (out ++ sp) + k) with (len ((out ++ sp) ++ t)) by (rewrite (len_app (out ++ sp)); lia).
  destruct (IH ((out ++ sp) ++ t) Hn) as (out' & -> & Hl & Hj); [rewrite (len_app (out ++ sp)); lia|].
  exists out'; split_and!; [done|done|]; intros Hf; pose proof (Hjl (out ++ sp ++ text n)) as Hle; rewrite !len_app, (text_len n Hn1) in Hle.
  assert (t = text n) as Heq by (subst t; apply take_ge; pose proof (text_len n Hn1); unfold len in *; subst k; rewrite length_app in *; lia).
  rewrite <- app_assoc, Heq in Hj; by apply Hj.
Qed.

(** The text of a path: the names before the generics joined by [::], then the
    others in [::<>]. *)
Definition rendered (ns : list Name) (gs : option Z) : list Z :=
  let main := joined main_first [] (text <$> take (Z.to_nat (default (len ns) gs)) ns) in
  match gs with
  | Some g => if g <? len ns then joined generic_first (main ++ bytes_of "::<") (text <$> drop (Z.to_nat g) ns) ++ [b ">"] else main
  | None => main
  end.

(** The buffer at the end: the text, and a zero behind it if there is room. *)
Definition finished (out : list Z) : list Z := written buf0 (if len out <? len buf0 then out ++ [0] else out).

Lemma written_nil : written buf0 [] = buf0.
Proof. done. Qed.

Lemma aset_written out c : len out < len buf0 -> aset (written buf0 out) (len out) c = Ok (written buf0 (out ++ [c])).
Proof.
  intros Ho; pose proof (put_written buf0 out [c]) as Hp; change (len [c]) with 1 in Hp; specialize (Hp ltac:(lia)); cbn [put] in Hp.
  by destruct (aset (written buf0 out) (len out) c).
Qed.

Lemma joined_len first out ts : len out <= len (joined first out ts).
Proof. destruct (joined_prefix first out ts) as [k ->]; rewrite len_app; pose proof (len_nonneg k); lia. Qed.

Lemma format_ok ns gs : Forall (name_ok bytes) ns -> (forall g, gs = Some g -> 0 < g <= len ns) ->
  exists out, format bytes ns gs buf0 = Ok (finished out) /\ len out <= len buf0 /\ (len (rendered ns gs) <= len buf0 -> out = rendered ns gs).
Proof.
  intros Hn Hg; unfold format, rendered; set (main := take _ ns); set (jm := joined main_first [] (text <$> main)).
  destruct (write_names_ok sep_main main_first sep_main_for main []) as (o1 & E1 & L1 & J1);
    [by apply Forall_take|apply len_nonneg|].
  rewrite written_nil in E1; change (len []) with 0 in E1; rewrite E1; cbn [mbind res_bind]; fold jm in J1.
  assert (Hend : forall o, len o <= len buf0 -> (if len o <? len (written buf0 o) then aset (written buf0 o) (len o) 0 else Ok (written buf0 o)) = Ok (finished o)).
  { intros o Ho; rewrite written_len by done; unfold finished; destruct (Z.ltb_spec (len o) (len buf0)); [by apply aset_written|done]. }
  destruct gs as [g|]; [|cbn [mbind res_bind]; rewrite Hend by done; by exists o1].
  destruct (Z.ltb_spec g (len ns)) as [Hlt|]; [|cbn [mbind res_bind]; rewrite Hend by done; by exists o1].
  rewrite written_len by done; set (o2 := if len o1 + 3 <? len buf0 then o1 ++ bytes_of "::<" else o1).
  assert (L2 : len o2 <= len buf0) by (subst o2; destruct (Z.ltb_spec (len o1 + 3) (len buf0)); rewrite ?len_app; [change (len (bytes_of "::<")) with 3|]; lia).
  replace (if len o1 + 3 <? len buf0 then _ else _) with (Ok (len o2, written buf0 o2) : res (Z * list Z)).
  2:{ subst o2; destruct (Z.ltb_spec (len o1 + 3) (len buf0)); [|done]; rewrite put_written by (change (len (bytes_of "::<")) with 3; lia); cbn [mbind res_bind].
      by rewrite len_app. }
  cbn [mbind res_bind]; destruct (write_names_ok sep_generic generic_first sep_generic_for (drop (Z.to_nat g) ns) o2) as (o3 & E3 & L3 & J3);
    [by apply Forall_drop|done|].
  rewrite E3; cbn [mbind res_bind]; rewrite written_len by done; set (o4 := if len o3 <? len buf0 then o3 ++ [b ">"] else o3).
  assert (L4 : len o4 <= len buf0) by (subst o4; destruct (Z.ltb_spec (len o3) (len buf0)); rewrite ?len_app; [change (len [b ">"]) with 1|]; lia).
  replace (if len o3 <? len buf0 then _ else _) with (Ok (len o4, written buf0 o4) : res (Z * list Z)).
  2:{ subst o4; destruct (Z.ltb_spec (len o3) (len buf0)); [|done]; rewrite aset_written by done; cbn [mbind res_bind]; by rewrite len_app. }
  cbn [mbind res_bind]; rewrite Hend by done; exists o4; split_and!; [done|done|]; rewrite len_app; change (len [b ">"]) with 1; intros Hf.
  assert (Hd : exists n r, drop (Z.to_nat g) ns = n :: r /\ name_ok bytes n).
  { destruct (drop (Z.to_nat g) ns) as [|n r] eqn:Ed; [apply (f_equal length) in Ed; rewrite length_drop in Ed; unfold len in Hlt; specialize (Hg g eq_refl); simpl in Ed; lia|].
    exists n, r; split; [done|]; assert (Hf' : Forall (name_ok bytes) (drop (Z.to_nat g) ns)) by (by apply Forall_drop); rewrite Ed in Hf'; by apply Forall_cons in Hf' as [? _]. }
  assert (Hbig : len jm + 3 + 1 <= len (joined generic_first (jm ++ bytes_of "::<") (text <$> drop (Z.to_nat g) ns))).
  { destruct Hd as (n & r & -> & Hnk); cbn [fmap list_fmap joined]; etransitivity; [|apply joined_len]; rewrite !len_app, text_len by done.
    change (len (bytes_of "::<")) with 3; destruct Hnk as (_ & ? & _); pose proof (len_nonneg (if generic_first (jm ++ bytes_of "::<") then [] else bytes_of "::")); lia. }
  assert (Eo1 : o1 = jm) by (apply J1; lia).
  assert (Eo2 : o2 = jm ++ bytes_of "::<") by (unfold o2; by rewrite Eo1, (proj2 (Z.ltb_lt _ _)) by lia).
  rewrite Eo2 in J3; unfold o4; rewrite J3 by lia; by rewrite (proj2 (Z.ltb_lt _ _)) by lia.
Qed.
End output.

Lemma scan_start bytes : 3 <= len bytes -> scan_ok bytes {| pos := 2; names := []; gen_start := None; past_crate := false |}.
Proof. intros H; split; cbn [pos names gen_start]; [lia|constructor|done]. Qed.

(** [demangle] on any string whose runs of digits have at most 19 digits returns:
    the loop over the path ends, no index or slice is out of range, and the buffer
    keeps its length. *)
Lemma demangle_ok bytes buf : digits_fit bytes -> exists r buf', demangle bytes buf = Ok (r, buf') /\ len buf' = len buf.
Proof.
  intros Hfit; unfold demangle; destruct (_ || _) eqn:E; [by eexists _, _|]; apply orb_false_iff in E as [E _]; apply Z.ltb_ge in E.
  destruct (scan_ends bytes Hfit (S (length bytes)) _ (scan_start bytes E)) as (s1 & -> & Hn & Hg); [cbn [pos]; unfold len; lia|].
  cbn [mbind res_bind]; destruct (nnames s1 =? 0); [by eexists _, _|].
  destruct (format_ok bytes buf (names s1) (gen_start s1) Hn Hg) as (out & -> & Ho & _); cbn [mbind res_bind].
  eexists _, _; split; [reflexivity|]; unfold finished; apply written_len; destruct (Z.ltb_spec (len out) (len buf)); rewrite ?len_app; [change (len [0]) with 1|]; lia.
Qed.

(** With more digits the length overflows: a symbol name of twenty nines stops
    the kernel. *)
Lemma long_number_panics : demangle (bytes_of "_R99999999999999999999") (replicate 80 0) = Panic.
Proof. vm_compute; reflexivity. Qed.

(** ** Mangled paths

    A path as the compiler writes it: [_R], a namespace per component, the crate
    with its disambiguator, and the names from the crate inwards. *)

Definition dec (n : Z) : list Z :=
  if n <? 10 then [48 + n] else if n <? 100 then [48 + n / 10; 48 + n mod 10] else [48 + n / 100; 48 + n / 10 mod 10; 48 + n mod 10].

(** A name is written with its length before it, and with an underscore between
    the two if it begins with a digit or an underscore itself. *)
Definition needs_separator (t : list Z) : bool := match t with c :: _ => is_digit c || (c =? b "_") | [] => false end.
Definition encode (t : list Z) : list Z := dec (len t) ++ (if needs_separator t then [b "_"] else []) ++ t.

(** The names that need no separator. *)
Definition ident (t : list Z) : Prop := 1 <= len t <= 255 /\ forallb is_name_byte t = true /\ needs_separator t = false.

Lemma encode_plain t : ident t -> encode t = dec (len t) ++ t.
Proof. intros (_ & _ & H); unfold encode; by rewrite H. Qed.

Lemma ident_head t : ident t -> match t with c :: _ => is_digit c = false | [] => True end.
Proof. intros (_ & _ & H); destruct t; [done|]; by apply orb_false_iff in H as [? _]. Qed.

Definition mangle (tags : list Z) (d : list Z) (ts : list (list Z)) : list Z :=
  bytes_of "_R" ++ mjoin ((fun c => [b "N"; c]) <$> tags) ++ b "C" :: d ++ mjoin (encode <$> ts).

Definition join (ts : list (list Z)) : list Z :=
  match ts with [] => [] | t :: ts' => t ++ mjoin ((fun u => bytes_of "::" ++ u) <$> ts') end.

(** A disambiguator of 2 to 13 characters; no longer one can be read at its place,
    which is always so for 13. *)
Record disamb_ok (tags d : list Z) (ts : list (list Z)) : Prop := {
  di_len : 2 <= len d <= 13;
  di_bytes : forallb is_disamb_byte d = true;
  di_head : match d with c :: _ => c <> b "v" | [] => True end;
  di_longest : try_disamb (mangle tags d ts) (3 + 2 * len tags) (reverse (seqZ (len d + 1) (13 - len d))) = Ok None;
}.

Lemma aget_mid (pre : list Z) c post : aget (pre ++ c :: post) (len pre) = Ok c.
Proof. apply aget_Ok; split; [apply len_nonneg|]; unfold len; rewrite Nat2Z.id; by apply list_lookup_middle. Qed.

Lemma drop_len_app (pre post : list Z) : drop (Z.to_nat (len pre)) (pre ++ post) = post.
Proof. unfold len; by rewrite Nat2Z.id, drop_app_length. Qed.

Lemma slice_mid (pre t post : list Z) : slice (pre ++ t ++ post) (len pre) (len pre + len t) = t.
Proof. unfold slice; rewrite drop_len_app; replace (len pre + len t - len pre) with (len t) by lia; unfold len; by rewrite Nat2Z.id, take_app_length. Qed.

Lemma dec_spec n : 1 <= n <= 255 -> decimal 0 (dec n) = Ok n /\ 1 <= len (dec n) <= 3 /\ Forall (fun c => is_digit c = true) (dec n).
Proof.
  intros Hn; unfold dec, is_digit; change (b "0") with 48; change (b "9") with 57.
  destruct (Z.ltb_spec n 10); [|destruct (Z.ltb_spec n 100)]; (split_and!; [|unfold len; simpl; lia..|]).
  1,3,5: cbn [decimal]; change (b "0") with 48; repeat (rewrite umul_ok by (rewrite W64_val; Z.to_euclidean_division_equations; lia); cbn [mbind res_bind];
    rewrite uadd_ok by (rewrite W64_val; Z.to_euclidean_division_equations; lia); cbn [mbind res_bind]); f_equal; Z.to_euclidean_division_equations; lia.
  all: repeat constructor; apply andb_true_intro; split; apply Z.leb_le; Z.to_euclidean_division_equations; lia.
Qed.

Lemma count_digits_app (l r : list Z) : Forall (fun c => is_digit c = true) l -> match r with c :: _ => is_digit c = false | [] => True end -> count_digits (l ++ r) = len l.
Proof.
  induction 1 as [|c l Hc _ IH]; intros Hr; cbn [app count_digits].
  - destruct r as [|c r]; [done|]; cbn [count_digits]; by rewrite Hr.
  - rewrite Hc, IH by done; unfold len; simpl; lia.
Qed.

(** Reading back one name. *)
Lemma peek_encode pre t post : ident t -> peek_name (pre ++ encode t ++ post) (len pre) = Ok (Some (len pre + len (dec (len t)), len t)).
Proof.
  intros Ht; pose proof (ident_head t Ht) as Hd; pose proof Ht as (Hl & Hb & _); destruct (dec_spec (len t) Hl) as (Hdec & Hdl & Hdig); unfold peek_name; rewrite (encode_plain t Ht), drop_len_app, <- app_assoc.
  rewrite count_digits_app; [|done|destruct t; [unfold len in Hl; simpl in Hl; lia|done]].
  rewrite (proj2 (Z.eqb_neq _ _)), slice_mid, Hdec by lia; cbn [mbind res_bind].
  rewrite (proj2 (Z.eqb_neq _ _)), (proj2 (Z.ltb_ge 255 _)), (proj2 (Z.ltb_ge (len _) _)) by (rewrite ?len_app; pose proof (len_nonneg post); lia); cbn [orb].
  rewrite (app_assoc pre), <- len_app, slice_mid, Hb; done.
Qed.

Lemma read_encode pre t post : ident t -> let n := {| nstart := len pre + len (dec (len t)); nlen := len t |} in
  read_name (pre ++ encode t ++ post) (len pre) = Ok (Some (n, len (pre ++ encode t))) /\ text (pre ++ encode t ++ post) n = t.
Proof.
  intros Ht n; pose proof Ht as (Hl & _); destruct (dec_spec (len t) Hl) as (Hdec & _ & _); split.
  - unfold read_name; rewrite (peek_encode pre t post Ht); cbn [mbind res_bind]; rewrite (encode_plain t Ht), <- app_assoc, slice_mid, Hdec; cbn [mbind res_bind].
    do 3 f_equal; rewrite !len_app; lia.
  - unfold text, n; rewrite (encode_plain t Ht); cbn [nstart nlen]; rewrite <- app_assoc, app_assoc, <- len_app; apply slice_mid.
Qed.

Lemma try_disamb_skip bytes st l1 l2 : try_disamb bytes st l1 = Ok None -> try_disamb bytes st (l1 ++ l2) = try_disamb bytes st l2.
Proof.
  induction l1 as [|d l1 IH]; cbn [try_disamb app]; [done|]; intros H; destruct (_ <=? _); [auto|]; destruct (negb _); [auto|].
  destruct (aget _ _); cbn [mbind res_bind] in *; [|done..]; destruct (negb _); [auto|]; destruct (peek_name _ _) as [[[]|]| |]; cbn [mbind res_bind] in *; [done|auto|done..].
Qed.

Lemma lengths_split (n : Z) : 2 <= n <= 13 -> reverse (seqZ 2 12) = reverse (seqZ (n + 1) (13 - n)) ++ n :: reverse (seqZ 2 (n - 2)).
Proof.
  intros Hn; rewrite <- reverse_snoc, <- reverse_app; f_equal; replace 12 with ((n - 2) + (1 + (13 - n))) by lia.
  rewrite seqZ_app by lia; replace (2 + (n - 2)) with n by lia; rewrite seqZ_app by lia; rewrite app_assoc; done.
Qed.

Lemma digit_disamb_first t : ident t -> exists c r, encode t = c :: r /\ is_digit c = true.
Proof.
  intros Ht; pose proof Ht as (Hl & _); destruct (dec_spec (len t) Hl) as (_ & Hdl & Hdig); rewrite (encode_plain t Ht); destruct (dec (len t)) as [|c r]; [unfold len in Hdl; simpl in Hdl; lia|].
  apply Forall_cons in Hdig as [? _]; by exists c, (r ++ t).
Qed.

(** Reading back the disambiguator. *)
Lemma disamb_encode pre d t post : ident t -> 2 <= len d <= 13 -> forallb is_disamb_byte d = true -> match d with c :: _ => c <> b "v" | [] => True end ->
  let bytes := pre ++ d ++ encode t ++ post in try_disamb bytes (len pre) (reverse (seqZ (len d + 1) (13 - len d))) = Ok None ->
  read_crate_disamb bytes (len pre) = Ok (Some (len (pre ++ d))).
Proof.
  intros Ht Hd Hb Hh bytes Hlong; destruct (digit_disamb_first t Ht) as (c & r & He & Hc); unfold read_crate_disamb.
  assert (Hlen : len pre + len d < len bytes) by (unfold bytes; rewrite He; rewrite !len_app; unfold len at 5; simpl; pose proof (len_nonneg r); unfold len in *; lia).
  rewrite (proj2 (Z.leb_gt _ _)) by lia; destruct d as [|x d']; [unfold len in Hd; simpl in Hd; lia|].
  assert (Hx : aget bytes (len pre) = Ok x) by (unfold bytes; cbn [app]; apply aget_mid); rewrite Hx; cbn [mbind res_bind].
  rewrite (proj2 (Z.eqb_neq _ _)) by done; change (MAX_DISAMBIG - MIN_DISAMBIG + 1) with 12; change MIN_DISAMBIG with 2.
  rewrite (lengths_split (len (x :: d'))), try_disamb_skip by done; cbn [try_disamb]; rewrite (proj2 (Z.leb_gt _ _)) by lia.
  unfold bytes; rewrite slice_mid, Hb; cbn [negb]; rewrite (app_assoc pre), <- len_app, He; cbn [app]; rewrite aget_mid; cbn [mbind res_bind]; rewrite Hc; cbn [negb].
  change (c :: r ++ post) with ((c :: r) ++ post); rewrite <- He, peek_encode by done; done.
Qed.

Lemma scan_more fuel bytes s s1 : turn bytes s = Ok (inl s1) -> scan (S fuel) bytes s = scan fuel bytes s1.
Proof. intros H; cbn [scan]; by rewrite H. Qed.

Lemma scan_done fuel (bytes : list Z) s : len bytes <= pos s -> scan (S fuel) bytes s = Ok s.
Proof. intros H; cbn [scan]; unfold turn; by rewrite (proj2 (Z.leb_le _ _)). Qed.

Lemma turn_entry (bytes : list Z) s (c : Z) : pos s < len bytes -> nnames s < 16 -> aget bytes (pos s) = Ok c ->
  (len bytes <=? pos s) || (nnames s =? 16) = false /\ aget bytes (pos s) = Ok c.
Proof. intros H1 H2 H3; split; [|done]; apply orb_false_iff; split; [apply Z.leb_gt; lia|apply Z.eqb_neq; lia]. Qed.

Section path.
Context (tags d : list Z) (t0 : list Z) (ts : list (list Z)).
Context (Htags : Forall (fun c => matches c "tvmblopyq" = true) tags) (Hid : Forall ident (t0 :: ts)) (Hcount : len (t0 :: ts) <= 16).
Context (Hd : disamb_ok tags d (t0 :: ts)).
Let bytes := mangle tags d (t0 :: ts).

Definition at_pos (p : Z) (ns : list Name) (past : bool) : Scan := {| pos := p; names := ns; gen_start := None; past_crate := past |}.

(** The namespaces. *)
Lemma scan_tags tags' : forall pre rest fuel, bytes = pre ++ mjoin ((fun c => [b "N"; c]) <$> tags') ++ b "C" :: rest -> Forall (fun c => matches c "tvmblopyq" = true) tags' ->
  scan (length tags' + fuel) bytes (at_pos (len pre) [] false) = scan fuel bytes (at_pos (len pre + 2 * len tags') [] false).
Proof.
  induction tags' as [|c tags' IH]; intros pre rest fuel Hb Hf; cbn [length Nat.add].
  - change (len []) with 0; do 2 f_equal; lia.
  - apply Forall_cons in Hf as [Hc Hf].
    change (bytes = pre ++ b "N" :: c :: mjoin ((fun c => [b "N"; c]) <$> tags') ++ b "C" :: rest) in Hb.
    assert (Hnext : exists x post, mjoin ((fun c => [b "N"; c]) <$> tags') ++ b "C" :: rest = x :: post /\ matches x "NSIMCEB" = true).
    { destruct tags' as [|x tags']; eexists _, _; split; reflexivity. }
    destruct Hnext as (x & post & Hx & Hxm).
    rewrite (scan_more _ _ _ (at_pos (len (pre ++ [b "N"; c])) [] false)).
    + rewrite (IH (pre ++ [b "N"; c]) rest fuel); [|by rewrite Hb, <- app_assoc|done].
      do 2 f_equal; rewrite len_app, (len_app [c] tags' : len (c :: tags') = _); change (len [b "N"; c]) with 2; change (len [c]) with 1; lia.
    + rewrite Hx in Hb; unfold turn, at_pos; cbn [pos names gen_start past_crate nnames].
      assert (H1 : aget bytes (len pre) = Ok (b "N")) by (rewrite Hb; apply aget_mid).
      assert (H2 : aget bytes (len pre + 1) = Ok c).
      { rewrite Hb; change (b "N" :: c :: x :: post) with ([b "N"] ++ c :: x :: post); rewrite app_assoc; change 1 with (len [b "N"]); rewrite <- len_app; apply aget_mid. }
      assert (H3 : aget bytes (len pre + 1 + 1) = Ok x).
      { rewrite Hb; change (b "N" :: c :: x :: post) with ([b "N"; c] ++ x :: post); rewrite app_assoc; replace (len pre + 1 + 1) with (len (pre ++ [b "N"; c])) by (rewrite len_app; change (len [b "N"; c]) with 2; lia); apply aget_mid. }
      assert (Hl : len pre + 2 < len bytes) by (rewrite Hb; rewrite len_app; unfold len; simpl; lia).
      destruct (turn_entry bytes (at_pos (len pre) [] false) _ ltac:(cbn [at_pos pos]; lia) ltac:(reflexivity) H1) as [E1 _]; cbn [at_pos pos] in E1; unfold at_pos in E1; rewrite E1, H1; cbn [mbind res_bind].
      change (b "N" =? b "C") with false; change (matches (b "N") "NSIM") with true; cbn [andb].
      rewrite (proj2 (Z.ltb_lt (len pre + 1) _)) by lia; rewrite H2; cbn [mbind res_bind]; rewrite Hc; rewrite (proj2 (Z.ltb_lt (len pre + 1 + 1) _)) by lia; rewrite H3; cbn [mbind res_bind]; rewrite Hxm.
      unfold with_pos; cbn [names gen_start past_crate]; do 3 f_equal; rewrite len_app; change (len [b "N"; c]) with 2; lia.
Qed.

(** The crate. *)
Lemma scan_crate pre fuel : bytes = pre ++ b "C" :: d ++ mjoin (encode <$> t0 :: ts) -> len pre = 2 + 2 * len tags ->
  exists n, scan (S fuel) bytes (at_pos (len pre) [] false) = scan fuel bytes (at_pos (len (pre ++ b "C" :: d ++ encode t0)) [n] true) /\ text bytes n = t0 /\ name_ok bytes n.
Proof.
  intros Hb Hl; apply Forall_cons in Hid as [H0 _]; destruct Hd as [D1 D2 D3 D4]; fold bytes in D4.
  change (bytes = pre ++ b "C" :: d ++ encode t0 ++ mjoin (encode <$> ts)) in Hb; set (post := mjoin (encode <$> ts)) in *; set (pre1 := pre ++ [b "C"]).
  assert (Hl1 : len pre1 = len pre + 1) by (unfold pre1; rewrite len_app; done).
  assert (Hb1 : bytes = pre1 ++ d ++ encode t0 ++ post) by (rewrite Hb; unfold pre1; by rewrite <- app_assoc).
  assert (Hb2 : bytes = (pre1 ++ d) ++ encode t0 ++ post) by (by rewrite Hb1, <- app_assoc).
  replace (3 + 2 * len tags) with (len pre1) in D4 by lia; rewrite Hb1 in D4.
  pose proof (disamb_encode pre1 d t0 post H0 D1 D2 D3 D4) as Hdis; rewrite <- Hb1 in Hdis.
  destruct (read_encode (pre1 ++ d) t0 post H0) as [Hrd Htx]; rewrite <- Hb2 in Hrd, Htx; set (n := Build_Name _ _) in *.
  assert (Hlb : len bytes = len pre1 + len d + len (encode t0) + len post) by (rewrite Hb1, !len_app; lia).
  pose proof H0 as (L0 & _); destruct (dec_spec (len t0) L0) as (_ & Ld & _).
  assert (Hle : len (encode t0) = len (dec (len t0)) + len t0) by (by rewrite (encode_plain t0), len_app).
  exists n; split_and!; [|done|unfold name_ok, n; cbn [nstart nlen]; rewrite len_app; pose proof (len_nonneg post); pose proof (len_nonneg pre1); pose proof (len_nonneg d); lia].
  apply scan_more; unfold turn, at_pos; cbn [pos names gen_start past_crate nnames].
  assert (H1 : aget bytes (len pre) = Ok (b "C")) by (rewrite Hb; apply aget_mid).
  destruct (turn_entry bytes (at_pos (len pre) [] false) _ ltac:(cbn [at_pos pos]; pose proof (len_nonneg post); lia) ltac:(reflexivity) H1) as [E1 _]; unfold at_pos in E1; cbn [pos] in E1.
  rewrite E1, H1; cbn [mbind res_bind]; change (b "C" =? b "C") with true; rewrite <- Hl1, Hdis; cbn [mbind res_bind]; unfold push_name, with_pos; cbn [pos].
  rewrite Hrd; cbn [mbind res_bind names gen_start past_crate app orb]; do 3 f_equal; unfold pre1; rewrite <- !app_assoc; done.
Qed.

(** The names behind it. *)
Lemma scan_names ts' : forall pre ns fuel, bytes = pre ++ mjoin (encode <$> ts') -> Forall ident ts' -> len ns + len ts' <= 16 -> Forall (name_ok bytes) ns ->
  exists ns', scan (length ts' + S fuel) bytes (at_pos (len pre) ns true) = Ok (at_pos (len bytes) (ns ++ ns') true) /\ text bytes <$> ns' = ts' /\ Forall (name_ok bytes) ns'.
Proof.
  induction ts' as [|t ts' IH]; intros pre ns fuel Hb Hf Hc Hn; cbn [length Nat.add].
  - exists []; rewrite app_nil_r; change (bytes = pre ++ []) in Hb; rewrite app_nil_r in Hb; rewrite scan_done by (cbn [at_pos pos]; rewrite Hb; lia); by rewrite Hb.
  - apply Forall_cons in Hf as [Ht Hf]; change (bytes = pre ++ encode t ++ mjoin (encode <$> ts')) in Hb; set (post := mjoin (encode <$> ts')) in *.
    destruct (read_encode pre t post Ht) as [Hrd Htx]; rewrite <- Hb in Hrd, Htx; set (n := Build_Name _ _) in *.
    destruct (digit_disamb_first t Ht) as (c & r & He & Hdg); pose proof Ht as (Lt & _); destruct (dec_spec (len t) Lt) as (_ & Ld & _).
    assert (Hle : len (encode t) = len (dec (len t)) + len t) by (by rewrite (encode_plain t), len_app).
    assert (Hlb : len bytes = len pre + len (encode t) + len post) by (rewrite Hb, !len_app; lia).
    pose proof (len_nonneg post); pose proof (len_nonneg pre); pose proof (len_nonneg ts').
    rewrite (len_app [t] ts' : len (t :: ts') = _) in Hc; change (len [t]) with 1 in Hc.
    assert (Hnk : name_ok bytes n) by (unfold name_ok, n; cbn [nstart nlen]; lia).
    rewrite (scan_more _ _ _ (at_pos (len (pre ++ encode t)) (ns ++ [n]) true)).
    + destruct (IH (pre ++ encode t) (ns ++ [n]) fuel) as (ns' & -> & Hx & Hk); [by rewrite Hb, <- app_assoc|done|rewrite len_app; change (len [n]) with 1; lia|
        apply Forall_app; split; [done|by constructor]|].
      exists (n :: ns'); split_and!; [by rewrite <- app_assoc|cbn [fmap list_fmap]; by rewrite Htx, Hx|by constructor].
    + unfold turn, at_pos; cbn [pos names gen_start past_crate nnames].
      assert (Hat : aget bytes (len pre) = Ok c) by (rewrite Hb, He; cbn [app]; apply aget_mid).
      destruct (turn_entry bytes (at_pos (len pre) ns true) _ ltac:(cbn [at_pos pos]; lia) ltac:(unfold nnames; cbn [at_pos names]; lia) Hat) as [E1 _]; unfold at_pos in E1; cbn [pos] in E1.
      rewrite E1, Hat; cbn [mbind res_bind].
      assert (Hr : 48 <= c <= 57) by (unfold is_digit in Hdg; change (b "0") with 48 in Hdg; change (b "9") with 57 in Hdg; bsplit; lia).
      rewrite (proj2 (Z.eqb_neq c (b "C"))) by (change (b "C") with 67; lia).
      assert (Hm : forall u, forallb (fun x => negb ((48 <=? x) && (x <=? 57))) (bytes_of u) = true -> matches c u = false).
      { intros u Hu; unfold matches; destruct (existsb _ _) eqn:Ex; [|done]; apply existsb_exists in Ex as (x & Hx & <-%Z.eqb_eq); rewrite forallb_forall in Hu; specialize (Hu c Hx).
        rewrite (proj2 (Z.leb_le _ _)), (proj2 (Z.leb_le _ _)) in Hu by lia; discriminate. }
      rewrite (Hm "NSIM" eq_refl), (proj2 (Z.eqb_neq c (b "B"))), (Hm "Etvmblopyq" eq_refl), Hdg by (change (b "B") with 66; lia).
      unfold push_name; cbn [pos]; rewrite Hrd; cbn [mbind res_bind names gen_start past_crate orb]; done.
Qed.
End path.

Lemma joined_more ts : forall out, out <> [] -> joined main_first out ts = out ++ mjoin ((fun u => bytes_of "::" ++ u) <$> ts).
Proof.
  induction ts as [|t ts IH]; intros out Ho; [by rewrite app_nil_r|].
  change (mjoin _) with ((bytes_of "::" ++ t) ++ mjoin ((fun u => bytes_of "::" ++ u) <$> ts)); cbn [joined].
  unfold main_first at 2; rewrite bool_decide_false by done; rewrite IH by (by destruct out); by rewrite <- !app_assoc.
Qed.

Lemma joined_join t ts : t <> [] -> joined main_first [] (t :: ts) = join (t :: ts).
Proof. intros Ht; cbn [joined join main_first bool_decide app]; unfold main_first at 2; rewrite bool_decide_true by done; by apply joined_more. Qed.

Lemma mangle_scan tags d t0 ts : Forall (fun c => matches c "tvmblopyq" = true) tags -> Forall ident (t0 :: ts) -> len (t0 :: ts) <= 16 -> disamb_ok tags d (t0 :: ts) ->
  let bytes := mangle tags d (t0 :: ts) in
  exists ns, scan (S (length bytes)) bytes {| pos := 2; names := []; gen_start := None; past_crate := false |} = Ok (at_pos (len bytes) ns true) /\
    text bytes <$> ns = t0 :: ts /\ Forall (name_ok bytes) ns.
Proof.
  intros Htags Hid Hc Hd bytes; pose proof Hid as Hid'; apply Forall_cons in Hid' as [H0 Hts].
  set (marks := mjoin ((fun c => [b "N"; c]) <$> tags)); set (pre := bytes_of "_R" ++ marks).
  assert (Hm : len marks = 2 * len tags) by (unfold marks; clear; induction tags as [|c tags IH]; [done|];
    change (mjoin _) with ([b "N"; c] ++ mjoin ((fun c => [b "N"; c]) <$> tags)); rewrite len_app, (len_app [c] tags : len (c :: tags) = _), IH; change (len [b "N"; c]) with 2; change (len [c]) with 1; lia).
  assert (Hpl : len pre = 2 + 2 * len tags) by (unfold pre; rewrite len_app, Hm; done).
  assert (Hb : bytes = pre ++ b "C" :: d ++ mjoin (encode <$> t0 :: ts)) by (unfold pre, bytes, mangle; by rewrite <- app_assoc).
  assert (Henc : forall l, Forall ident l -> len l <= len (mjoin (encode <$> l))).
  { induction 1 as [|x l Hx _ IH]; [done|]; change (mjoin _) with (encode x ++ mjoin (encode <$> l)); rewrite len_app, (len_app [x] l : len (x :: l) = _); change (len [x]) with 1.
    rewrite (encode_plain x Hx), len_app; destruct Hx as (Hx & _); pose proof (len_nonneg (dec (len x))); lia. }
  assert (Hlb : len tags + 1 + len ts + 1 <= len bytes).
  { rewrite Hb, len_app, (len_app [b "C"] (d ++ mjoin (encode <$> t0 :: ts)) : len (b "C" :: _) = _), len_app; change (len [b "C"]) with 1; specialize (Henc _ Hid).
    rewrite (len_app [t0] ts : len (t0 :: ts) = _) in Henc; change (len [t0]) with 1 in Henc; pose proof (len_nonneg d); pose proof (len_nonneg tags); lia. }
  set (f := (length bytes - length tags - length ts - 1)%nat).
  assert (Hfuel : S (length bytes) = (length tags + S (length ts + S f))%nat) by (unfold f, len in *; lia).
  rewrite Hfuel, (scan_tags tags d t0 ts tags (bytes_of "_R") (d ++ mjoin (encode <$> t0 :: ts))); [|done|done].
  change (len (bytes_of "_R")) with 2; rewrite <- Hpl.
  destruct (scan_crate tags d t0 ts Hid Hd pre (length ts + S f) Hb Hpl) as (n & -> & Htx & Hnk).
  destruct (scan_names tags d t0 ts ts (pre ++ b "C" :: d ++ encode t0) [n] f) as (ns' & -> & Hx & Hk); [|done|rewrite (len_app [t0] ts : len (t0 :: ts) = _) in Hc; exact Hc|by constructor|].
  - fold bytes; rewrite Hb, <- app_assoc; cbn [app]; rewrite <- app_assoc; done.
  - exists ([n] ++ ns'); split_and!; [done|fold bytes in Htx, Hx; cbn [app fmap list_fmap]; by rewrite Htx, Hx|by constructor].
Qed.

Lemma demangle_mangle tags d t0 ts buf : Forall (fun c => matches c "tvmblopyq" = true) tags -> Forall ident (t0 :: ts) -> len (t0 :: ts) <= 16 -> disamb_ok tags d (t0 :: ts) ->
  len (join (t0 :: ts)) <= len buf -> demangle (mangle tags d (t0 :: ts)) buf = Ok (true, finished buf (join (t0 :: ts))).
Proof.
  intros Htags Hid Hc Hd Hf; set (bytes := mangle tags d (t0 :: ts)).
  destruct (mangle_scan tags d t0 ts Htags Hid Hc Hd) as (ns & Hscan & Htx & Hnk); fold bytes in Hscan, Htx, Hnk.
  assert (Hlen : 3 <= len bytes) by (unfold bytes, mangle; destruct Hd as [Hdl _ _ _]; rewrite !len_app; change (len (bytes_of "_R")) with 2;
    rewrite (len_app [b "C"] (d ++ mjoin (encode <$> t0 :: ts)) : len (b "C" :: _) = _), len_app; change (len [b "C"]) with 1;
    pose proof (len_nonneg (mjoin ((fun c => [b "N"; c]) <$> tags))); pose proof (len_nonneg (mjoin (encode <$> t0 :: ts))); lia).
  unfold demangle; rewrite (proj2 (Z.ltb_ge _ _)) by lia; change (take 2 bytes) with (bytes_of "_R"); rewrite bool_decide_true by done; cbn [orb negb].
  rewrite Hscan; cbn [mbind res_bind at_pos names gen_start].
  assert (Hn0 : len ns = len (t0 :: ts)) by (rewrite <- Htx; unfold len; by rewrite length_fmap).
  assert (Hpos : 0 < len (t0 :: ts)) by (unfold len; simpl; lia).
  change (nnames _) with (len ns); rewrite (proj2 (Z.eqb_neq (len ns) 0)) by lia.
  assert (Hr : rendered bytes ns None = join (t0 :: ts)).
  { unfold rendered; cbn [from_option id default]; rewrite take_ge by (unfold len; lia); rewrite Htx; apply joined_join.
    apply Forall_cons in Hid as [(Hl & _) _]; intros ->; unfold len in Hl; simpl in Hl; lia. }
  destruct (format_ok bytes buf ns None Hnk) as (out & -> & _ & Ho); [done|]; cbn [mbind res_bind]; rewrite Hr in Ho; by rewrite Ho.
Qed.

(** C29: the demangler undoes the mangling of names that need no separator: for a
    path of at most 16 identifiers, none of which begins with an underscore or a
    digit (those are misread: [underscore_misread]), in a crate whose
    disambiguator is read back (always, if it has the usual 13 characters),
    [demangle] writes the names joined by [::] into a buffer they fit, with a zero
    behind them if there is room. *)
Theorem demangle_roundtrip (tags d t0 : list Z) (ts : list (list Z)) (buf : list Z)
    (Htags : Forall (fun c => matches c "tvmblopyq" = true) tags) (Hid : Forall ident (t0 :: ts)) (Hc : len (t0 :: ts) <= 16)
    (Hd : disamb_ok tags d (t0 :: ts)) (Hf : len (join (t0 :: ts)) <= len buf) :
  demangle (mangle tags d (t0 :: ts)) buf = Ok (true, finished buf (join (t0 :: ts))).
Proof. by apply demangle_mangle. Qed.

(** ** Symbols of this system *)
Module DmDemo.

Definition buf : list Z := replicate 80 0.

Lemma ident_ok t : (1 <=? len t) && (len t <=? 255) && forallb is_name_byte t && negb (needs_separator t) = true -> ident t.
Proof. intros H; bsplit; split_and!; [lia|lia|done|done]. Qed.

(** [r9x_std::process::exit]. *)
Definition exit_path : list (list Z) := [bytes_of "process"; bytes_of "exit"].

Lemma demangle_roundtrip_witness :
  mangle (bytes_of "vt") (bytes_of "sap4Ua6k489x_") (bytes_of "r9x_std" :: exit_path) = bytes_of "_RNvNtCsap4Ua6k489x_7r9x_std7process4exit" /\
  join (bytes_of "r9x_std" :: exit_path) = bytes_of "r9x_std::process::exit" /\
  demangle (mangle (bytes_of "vt") (bytes_of "sap4Ua6k489x_") (bytes_of "r9x_std" :: exit_path)) buf =
    Ok (true, finished buf (join (bytes_of "r9x_std" :: exit_path))).
Proof.
  split; [vm_compute; reflexivity|]; split; [vm_compute; reflexivity|].
  apply demangle_roundtrip.
  - repeat (constructor; [vm_compute; reflexivity|]); constructor.
  - repeat (constructor; [apply ident_ok; vm_compute; reflexivity|]); constructor.
  - vm_compute; discriminate.
  - split; [split; vm_compute; discriminate|vm_compute; reflexivity|vm_compute; discriminate|vm_compute; reflexivity].
  - vm_compute; discriminate.
Defined.

(** The scheme puts an underscore between the length and a name that starts with
    one; the demangler takes it for the first character of the name, and loses
    the last: [_foo] in the crate [faulttest]. *)
Lemma underscore_misread : mangle (bytes_of "v") (bytes_of "s3CFL12ppSuB_") [bytes_of "faulttest"; bytes_of "_foo"] = bytes_of "_RNvCs3CFL12ppSuB_9faulttest4__foo" /\
  demangle (bytes_of "_RNvCs3CFL12ppSuB_9faulttest4__foo") buf = Ok (true, finished buf (bytes_of "faulttest::__fo")).
Proof. split; vm_compute; reflexivity. Qed.
End DmDemo.

End Dm.
