(* ===== verification/Backtrace.v ===== *)
(** * The fault backtrace ([aarch64/src/backtrace.rs]) and the end of a faulting process

    After a fault of a process the kernel follows the chain of frame pointers on
    its stack, through the checked reads of user memory, and names the return
    addresses with the symbol table of its image.  What is printed is a list of
    lines; the console itself is not modelled.  [fault] of
    [aarch64/src/process.rs], which prints the backtrace before it gives the CPU
    away, is here too. *)

From S2P Require Import Prelude Abi Addr BitmapAlloc Ipc Sched Heap KernIpc Elf Demangle.

Module Bk.

(** ** Symbols *)

(** [core::str::from_utf8]: the well-formed sequences of one to four bytes. *)
Definition cont (c : Z) : bool := (0x80 <=? c) && (c <=? 0xbf).
Definition lead3 (a c : Z) : bool :=
  if a =? 0xe0 then (0xa0 <=? c) && (c <=? 0xbf)
  else if a =? 0xed then (0x80 <=? c) && (c <=? 0x9f)
  else (0xe1 <=? a) && (a <=? 0xef) && cont c.
Definition lead4 (a c : Z) : bool :=
  if a =? 0xf0 then (0x90 <=? c) && (c <=? 0xbf)
  else if a =? 0xf4 then (0x80 <=? c) && (c <=? 0x8f)
  else (0xf1 <=? a) && (a <=? 0xf3) && cont c.
Fixpoint is_utf8 (l : list Z) : bool :=
  match l with
  | [] => true
  | a :: l1 =>
      if a <? 0x80 then is_utf8 l1 else
      match l1 with
      | [] => false
      | c1 :: l2 =>
          if (0xc2 <=? a) && (a <=? 0xdf) then cont c1 && is_utf8 l2 else
          match l2 with
          | [] => false
          | c2 :: l3 =>
              if lead3 a c1 then cont c2 && is_utf8 l3 else
              match l3 with
              | [] => false
              | c3 :: l4 => lead4 a c1 && cont c2 && cont c3 && is_utf8 l4
              end
          end
      end
  end.

(** [iter().position(|&b| b == 0)]. *)
Fixpoint position0 (l : list Z) : option nat :=
  match l with [] => None | c :: l' => if c =? 0 then Some O else option_map S (position0 l') end.

(** [u32::from_le_bytes(symtab[s..s + n].try_into().unwrap())]: the slice panics
    out of range. *)
Definition le_at (l : list Z) (s n : Z) : res Z := bs ← unwrap (sget l s n); Ok (from_le bs).

(** The loop over the symbols: the entry with the largest value up to [addr], the
    first of equal ones. *)
Fixpoint best_symbol (symtab : list Z) (addr : Z) (is_ : list Z) (best : option (Z * Z)) : res (option (Z * Z)) :=
  match is_ with
  | [] => Ok best
  | i :: is' =>
      base ← umul i 24;
      st_name ← le_at symtab base 4;
      st_info ← aget symtab (base + 4);
      st_value ← le_at symtab (base + 8) 8;
      if negb (Z.land st_info 0x0f =? 2) || (st_value =? 0) then best_symbol symtab addr is' best else
      best_symbol symtab addr is'
        (if st_value <=? addr then
           match best with
           | Some (bv, _) => if st_value <=? bv then best else Some (st_value, st_name)
           | None => Some (st_value, st_name)
           end
         else best)
  end.

Definition lookup_symbol (sym : SymRef) (addr : Z) : res (option (list Z * Z)) :=
  let bytes := image sym in
  sz ← umul (nsyms (tab sym)) 24;
  e ← uadd (sym_offset (tab sym)) sz;
  let symtab := default [] (sget bytes (sym_offset (tab sym)) sz) in
  match sget bytes (strtab_offset (tab sym)) (len bytes - strtab_offset (tab sym)) with
  | None => Ok None
  | Some strtab =>
      best ← best_symbol symtab addr (seqZ 0 (nsyms (tab sym))) None;
      match best with
      | None => Ok None
      | Some (st_value, st_name) =>
          match sget strtab st_name (len strtab - st_name) with
          | None => Ok None
          | Some name_bytes =>
              match position0 name_bytes with
              | None => Ok None
              | Some nul =>
                  let name := take nul name_bytes in
                  if is_utf8 name then off ← usub addr st_value; Ok (Some (name, off)) else Ok None
              end
          end
      end
  end.

(** ** Lines *)

(** [#depth  name+0xoffset  (addr)], or without the name. *)
Record Line := { depth : Z; symbol : option (list Z * Z); address : Z }.

Definition print_addr (d addr : Z) (sym : option SymRef) : res Line :=
  r ← match sym with Some s => lookup_symbol s addr | None => Ok None end;
  match r with
  | Some (name, offset) =>
      '(ok, buf) ← Dm.demangle name (replicate 80 0);
      let shown := if (ok : bool) then
          let n := default (length buf) (position0 buf) in
          if is_utf8 (take n buf) then take n buf else name
        else name in
      Ok {| depth := d; symbol := Some (shown, offset); address := addr |}
  | None => Ok {| depth := d; symbol := None; address := addr |}
  end.

(** ** The walk *)

Definition MAX_FRAMES : Z := 32.

Section walk.
Context {A M : Type} `{!UserMem A M}.
Context (k : Kernel A M).

(** The saved frame pointer and the return address of a frame. *)
Definition read_frame (fp : Z) : res (option (Z * Z)) :=
  o ← read_user k 16 fp 16;
  Ok match o with
     | Some buf => Some (from_le (take 8 buf), from_le (take 8 (drop 8 buf)))
     | None => None
     end.

Fixpoint frames (fuel : nat) (sym : option SymRef) (d cur_fp : Z) (out : list Line) : res (list Line) :=
  match fuel with
  | O => Timeout
  | S fuel' =>
      if negb (cur_fp =? 0) && (cur_fp mod 16 =? 0) && (d <? MAX_FRAMES) then
        o ← read_frame cur_fp;
        match o with
        | None => Ok out
        | Some (saved_fp, ret_addr) =>
            out1 ← (if ret_addr =? 0 then Ok out else l ← print_addr d ret_addr sym; Ok (out ++ [l]));
            if saved_fp =? cur_fp then Ok out1 else frames fuel' sym (d + 1) saved_fp out1
        end
      else Ok out
  end.

(** The fuel is one more than the frames that can be printed: [frames_bounded]. *)
Definition print_backtrace (fp lr : Z) (sym : option SymRef) : res (list Line) :=
  if fp =? 0 then
    if lr =? 0 then Ok [] else l ← print_addr 0 lr sym; Ok [l]
  else
    '(d, out) ← (if lr =? 0 then Ok (0, []) else l ← print_addr 0 lr sym; Ok (1, [l]));
    frames 33 sym d fp out.
End walk.

(** ** The nearest symbol *)

(** A table that lies in its image. *)
Definition sym_ok (sym : SymRef) : Prop :=
  0 <= sym_offset (tab sym) /\ 0 <= nsyms (tab sym) /\ 0 <= strtab_offset (tab sym) <= len (image sym) /\
  sym_offset (tab sym) + nsyms (tab sym) * 24 <= len (image sym) /\ len (image sym) < 2 ^ 63 /\ bytes_ok (image sym).

(** Entry [i] of the symbol table. *)
Definition sym_field (sym : SymRef) (i o n : Z) : Z :=
  from_le (take (Z.to_nat n) (drop (Z.to_nat (sym_offset (tab sym) + i * 24 + o)) (image sym))).
Definition st_name sym i := sym_field sym i 0 4.
Definition st_info sym i := sym_field sym i 4 1.
Definition st_value sym i := sym_field sym i 8 8.

(** A function symbol at or below [addr]. *)
Definition candidate (sym : SymRef) (addr i : Z) : Prop :=
  0 <= i < nsyms (tab sym) /\ Z.land (st_info sym i) 0x0f = 2 /\ st_value sym i <> 0 /\ st_value sym i <= addr.

(** The string at offset [o] of the string table. *)
Definition str_at (sym : SymRef) (o : Z) : option (list Z) :=
  match sget (image sym) (strtab_offset (tab sym) + o) (len (image sym) - (strtab_offset (tab sym) + o)) with
  | Some l => match position0 l with Some n => if is_utf8 (take n l) then Some (take n l) else None | None => None end
  | None => None
  end.

Section lookup.
Context (sym : SymRef) (addr : Z) (Hok : sym_ok sym) (Haddr : 0 <= addr).

Let symtab := default [] (sget (image sym) (sym_offset (tab sym)) (nsyms (tab sym) * 24)).

Lemma symtab_slice : symtab = take (Z.to_nat (nsyms (tab sym) * 24)) (drop (Z.to_nat (sym_offset (tab sym))) (image sym)).
Proof.
  destruct Hok as (H1 & H2 & H3 & H4 & H5 & H6); unfold symtab; destruct (sget _ _ _) as [l|] eqn:E.
  - by apply sget_Some in E as (_ & _ & _ & ->).
  - exfalso; assert (Hs : sget (image sym) (sym_offset (tab sym)) (nsyms (tab sym) * 24) = Some (take (Z.to_nat (nsyms (tab sym) * 24)) (drop (Z.to_nat (sym_offset (tab sym))) (image sym))))
      by (apply sget_Some; split_and!; lia || done); by rewrite E in Hs.
Qed.

Lemma symtab_len : len symtab = nsyms (tab sym) * 24.
Proof. destruct Hok as (H1 & H2 & H3 & H4 & H5 & H6); rewrite symtab_slice; unfold len in *; rewrite length_take, length_drop; lia. Qed.

Lemma le_at_field i o n : 0 <= i < nsyms (tab sym) -> 0 <= o -> 0 <= n -> o + n <= 24 -> le_at symtab (i * 24 + o) n = Ok (sym_field sym i o n).
Proof.
  intros Hi Ho Hn Hon; pose proof Hok as (H1 & H2 & H3 & H4 & H5 & H6); unfold le_at.
  assert (Hs : sget symtab (i * 24 + o) n = Some (take (Z.to_nat n) (drop (Z.to_nat (i * 24 + o)) symtab))) by (apply sget_Some; rewrite symtab_len; split_and!; lia || done).
  rewrite Hs; cbn [unwrap mbind res_bind]; unfold sym_field; do 2 f_equal; rewrite symtab_slice, skipn_firstn_comm, take_take, drop_drop.
  f_equal; [lia|f_equal; lia].
Qed.

Lemma info_field i : 0 <= i < nsyms (tab sym) -> aget symtab (i * 24 + 4) = Ok (st_info sym i).
Proof.
  intros Hi; pose proof (le_at_field i 4 1 Hi ltac:(lia) ltac:(lia) ltac:(lia)) as Hf; unfold le_at in Hf.
  destruct (aget_lt symtab (i * 24 + 4)) as (v & Hv & Hl); [rewrite symtab_len; lia|]; rewrite Hv.
  destruct (sget symtab (i * 24 + 4) 1) as [l|] eqn:E; [|done]; cbn [unwrap mbind res_bind] in Hf; apply sget_Some in E as (_ & _ & _ & ->).
  rewrite (drop_S _ v _ Hl) in Hf; change (Z.to_nat 1) with 1%nat in Hf; cbn [take] in Hf; injection Hf as Hf; f_equal; unfold st_info; rewrite <- Hf; cbn; lia.
Qed.

(** What the loop has found among the entries before [i]. *)
Definition best_of (i : Z) (best : option (Z * Z)) : Prop :=
  match best with
  | None => forall j, candidate sym addr j -> i <= j
  | Some (v, n) => exists m, candidate sym addr m /\ m < i /\ v = st_value sym m /\ n = st_name sym m /\
      (forall j, candidate sym addr j -> j < i -> st_value sym j <= v) /\ (forall j, candidate sym addr j -> j < m -> st_value sym j < v)
  end.

Lemma best_step i best best' : 0 <= i < nsyms (tab sym) -> best_of i best ->
  (candidate sym addr i -> best' = match best with Some (bv, _) => if st_value sym i <=? bv then best else Some (st_value sym i, st_name sym i) | None => Some (st_value sym i, st_name sym i) end) ->
  (~ candidate sym addr i -> best' = best) -> best_of (i + 1) best'.
Proof.
  intros Hi Hb Hc Hn.
  assert (Hdec : candidate sym addr i \/ ~ candidate sym addr i) by (unfold candidate; lia); destruct Hdec as [Hci|Hci].
  - rewrite (Hc Hci); destruct best as [[bv bn]|].
    + destruct Hb as (m & Hm & Hmi & -> & -> & Hmax & Hfst); destruct (Z.leb_spec (st_value sym i) (st_value sym m)).
      * exists m; split_and!; [done|lia|done|done| |done]; intros j Hj Hlt; destruct (decide (j = i)) as [->|]; [done|apply Hmax; [done|lia]].
      * exists i; split_and!; [done|lia|done|done| |]; intros j Hj Hlt; [destruct (decide (j = i)) as [->|]; [lia|]|]; specialize (Hmax j Hj ltac:(lia)); lia.
    + exists i; split_and!; [done|lia|done|done| |]; intros j Hj Hlt; [destruct (decide (j = i)) as [->|]; [lia|]|]; specialize (Hb j Hj); lia.
  - rewrite (Hn Hci); destruct best as [[bv bn]|].
    + destruct Hb as (m & Hm & Hmi & Hv & Hnm & Hmax & Hfst); exists m; split_and!; [done|lia|done|done| |done].
      intros j Hj Hlt; destruct (decide (j = i)) as [->|]; [done|apply Hmax; [done|lia]].
    + intros j Hj; destruct (decide (j = i)) as [->|]; [done|]; specialize (Hb j Hj); lia.
Qed.

Lemma best_symbol_ok n : forall i best, 0 <= i -> i + Z.of_nat n = nsyms (tab sym) -> best_of i best ->
  exists r, best_symbol symtab addr (seqZ i (Z.of_nat n)) best = Ok r /\ best_of (nsyms (tab sym)) r.
Proof.
  induction n as [|n IH]; intros i best Hi Hn Hb; [exists best; split; [done|]; by replace (nsyms (tab sym)) with i by lia|].
  rewrite seqZ_cons by lia; replace (Z.pred (Z.of_nat (S n))) with (Z.of_nat n) by lia; cbn [best_symbol]; pose proof Hok as (H1 & H2 & H3 & H4 & H5 & H6).
  rewrite umul_ok by (rewrite W64_val; lia); cbn [mbind res_bind]; pose proof (le_at_field i 0 4 ltac:(lia) ltac:(lia) ltac:(lia) ltac:(lia)) as F1; rewrite Z.add_0_r in F1; rewrite F1; cbn [mbind res_bind].
  rewrite info_field by lia; cbn [mbind res_bind]; rewrite le_at_field by lia; cbn [mbind res_bind]; fold (st_value sym i) (st_name sym i).
  destruct (negb _ || _) eqn:E; (apply IH; [lia|lia|]); apply (best_step i best); [lia|done| |done|lia|done| |].
  - intros (_ & Hc1 & Hc2 & _); apply orb_true_iff in E as [E|E]; [apply negb_true_iff, Z.eqb_neq in E; done|apply Z.eqb_eq in E; done].
  - intros (_ & _ & _ & Hle); by rewrite (proj2 (Z.leb_le _ _)).
  - intros Hnc; apply orb_false_iff in E as [E1 E2]; apply negb_false_iff, Z.eqb_eq in E1; apply Z.eqb_neq in E2; rewrite (proj2 (Z.leb_gt _ _)); [done|].
    unfold candidate in Hnc; lia.
Qed.

(** The lookup finds the function symbol nearest below the address, the first of
    equal ones. *)
Lemma lookup_nearest : exists r, lookup_symbol sym addr = Ok r /\
  match r with
  | Some (name, off) => exists m, candidate sym addr m /\ off = addr - st_value sym m /\ str_at sym (st_name sym m) = Some name /\
      forall j, candidate sym addr j -> st_value sym j <= st_value sym m
  | None => (forall j, ~ candidate sym addr j) \/
      exists m, candidate sym addr m /\ (forall j, candidate sym addr j -> st_value sym j <= st_value sym m) /\
        str_at sym (st_name sym m) = None
  end.
Proof.
  pose proof Hok as (H1 & H2 & H3 & H4 & H5 & H6); unfold lookup_symbol; rewrite umul_ok by (rewrite W64_val; lia); cbn [mbind res_bind].
  rewrite uadd_ok by (rewrite W64_val; lia); cbn [mbind res_bind]; fold symtab.
  set (strtab := drop (Z.to_nat (strtab_offset (tab sym))) (image sym)).
  assert (Hs : sget (image sym) (strtab_offset (tab sym)) (len (image sym) - strtab_offset (tab sym)) = Some strtab).
  { apply sget_Some; split_and!; [lia|lia|lia|]; unfold strtab; rewrite take_ge; [done|]; unfold len; rewrite length_drop; lia. }
  assert (Hsl : len strtab = len (image sym) - strtab_offset (tab sym)) by (unfold strtab, len in *; rewrite length_drop; lia).
  rewrite Hs; destruct (best_symbol_ok (Z.to_nat (nsyms (tab sym))) 0 None) as (best & E & Hb); [lia|lia|intros j [? _]; lia|].
  rewrite Z2Nat.id in E by lia; rewrite E; cbn [mbind res_bind]; destruct best as [[v n]|].
  2:{ eexists; split; [reflexivity|]; left; intros j Hj; specialize (Hb j Hj); destruct Hj as [? _]; lia. }
  destruct Hb as (m & Hm & _ & -> & -> & Hmax & _); assert (Hmx : forall j, candidate sym addr j -> st_value sym j <= st_value sym m) by (intros j Hj; apply Hmax; [done|apply Hj]).
  assert (Hstr : 0 <= st_name sym m -> sget strtab (st_name sym m) (len strtab - st_name sym m) =
    sget (image sym) (strtab_offset (tab sym) + st_name sym m) (len (image sym) - (strtab_offset (tab sym) + st_name sym m))).
  { intros Hn0; rewrite Hsl; unfold sget; unfold strtab at 2; rewrite Hsl, drop_drop.
    replace (len (image sym) - strtab_offset (tab sym) - st_name sym m) with (len (image sym) - (strtab_offset (tab sym) + st_name sym m)) by lia.
    replace (Z.to_nat (strtab_offset (tab sym)) + Z.to_nat (st_name sym m))%nat with (Z.to_nat (strtab_offset (tab sym) + st_name sym m)) by lia.
    rewrite (proj2 (Z.leb_le 0 (strtab_offset (tab sym) + st_name sym m))), (proj2 (Z.leb_le 0 (st_name sym m))) by lia; cbn [andb].
    destruct (0 <=? len (image sym) - (strtab_offset (tab sym) + st_name sym m)) eqn:El; cbn [andb]; [|done]; apply Z.leb_le in El.
    by rewrite !(proj2 (Z.leb_le _ _)) by lia. }
  assert (Hpos : 0 <= st_name sym m) by (apply from_le_bound, Forall_take, Forall_drop, H6).
  rewrite (Hstr ltac:(lia)); unfold str_at; destruct (sget (image sym) (strtab_offset (tab sym) + st_name sym m) _) as [l|] eqn:El.
  2:{ eexists; split; [reflexivity|]; right; exists m; rewrite El; auto. }
  destruct (position0 l) as [nul|] eqn:Ep; [|eexists; split; [reflexivity|]; right; exists m; rewrite El, Ep; auto].
  destruct (is_utf8 (take nul l)) eqn:Eu; [|eexists; split; [reflexivity|]; right; exists m; rewrite El, Ep, Eu; auto].
  rewrite usub_ok by (destruct Hm as (_ & _ & _ & ?); lia); cbn [mbind res_bind]; eexists; split; [reflexivity|]; exists m; rewrite El, Ep, Eu; auto.
Qed.
End lookup.

(** ** Tables that the ELF reader accepts *)

Lemma read_le_nonneg n elf off v : bytes_ok elf -> read_le n elf off = Ok (Val v) -> 0 <= v.
Proof.
  intros Hb; unfold read_le, ok_or; intros (e & He & Hr)%bind_Ok; destruct (sget elf off (e - off)) as [l|] eqn:E; cbn in Hr; [|done].
  injection Hr as <-; apply sget_Some in E as (_ & _ & _ & ->); apply from_le_bound, Forall_take, Forall_drop, Hb.
Qed.

Lemma try_bind_Val {X Y E} (m : res (result X E)) (f : X -> res (result Y E)) v : try_bind m f = Ok (Val v) -> exists x, m = Ok (Val x) /\ f x = Ok (Val v).
Proof. unfold try_bind; intros (r & -> & Hr)%bind_Ok; destruct r as [x|]; [by exists x|done]. Qed.

Ltac val_inv := repeat match goal with
  | H : try_bind _ _ = Ok (Val _) |- _ => apply try_bind_Val in H as (?&?&?)
  | H : uadd _ _ ≫= _ = Ok _ |- _ => apply bind_Ok in H as (?&?&?)
  | H : umul _ _ ≫= _ = Ok _ |- _ => apply bind_Ok in H as (?&?&?)
  | H : uadd _ _ = Ok _ |- _ => apply uadd_Ok in H as [? ?]
  | H : umul _ _ = Ok _ |- _ => apply umul_Ok in H as [? ?]
  end.

Lemma find_symtab_in elf shoff shnum ixs t : bytes_ok elf -> len elf < 2 ^ 63 -> find_symtab elf shoff shnum ixs = Ok (Val (Some t)) -> sym_ok {| image := elf; tab := t |}.
Proof.
  intros Hb Hl; induction ixs as [|i ixs IH]; cbn [find_symtab]; [done|]; intros H; val_inv.
  destruct (negb _); [auto|]; val_inv; destruct (_ || _); [auto|]; val_inv.
  repeat match goal with H : read_u64 _ _ = Ok (Val _) |- _ => apply (read_le_nonneg 8 elf _ _ Hb) in H end.
  match goal with H : Ok (Val (if ?c then _ else _)) = _ |- _ => destruct c eqn:E; [|done]; injection H as <- end; bsplit.
  unfold sym_ok; cbn [image tab sym_offset nsyms strtab_offset]; unfold SYMENT_SIZE; split_and!; try done; try lia.
  - apply Z.div_pos; lia.
  - match goal with |- ?a + ?b / 24 * 24 <= _ => pose proof (Z.mul_div_le b 24 ltac:(lia)) end; lia.
Qed.

Lemma parse_sym_ok elf img t : bytes_ok elf -> len elf < 2 ^ 63 -> parse elf = Ok (Val img) -> Elf.symtab img = Some t -> sym_ok {| image := elf; tab := t |}.
Proof.
  intros Hb Hl; unfold parse; intros H Hs; apply try_bind_Val in H as (id & _ & H); apply bind_Ok in H as (mg & _ & H).
  destruct (negb _); [done|]; apply bind_Ok in H as (cl & _ & H); destruct (negb _); [done|]; apply bind_Ok in H as (dt & _ & H); destruct (negb _); [done|].
  destruct (_ <? _); [done|]; apply try_bind_Val in H as (ty & _ & H); destruct (negb _); [done|]; val_inv.
  destruct (_ =? 0); [done|]; val_inv; match goal with H : Ok (Val _) = _ |- _ => injection H as <- end; cbn [Elf.symtab] in Hs; subst.
  match goal with H : read_symtab elf = _ |- _ => unfold read_symtab in H end; val_inv.
  destruct (_ && _); [|done]; val_inv; destruct (_ <=? _); [|done]; by eapply find_symtab_in.
Qed.

(** ** Bounds of the backtrace *)

Lemma count_digits_take n l : Dm.count_digits (take n l) <= Dm.count_digits l.
Proof.
  revert n; induction l as [|c l IH]; intros [|n]; cbn [take Dm.count_digits]; try done.
  - destruct (Dm.is_digit c); [|lia]; pose proof (Dm.count_digits_spec l) as [? _]; lia.
  - destruct (Dm.is_digit c); [|lia]; specialize (IH n); lia.
Qed.

Lemma digits_fit_sub l s n : Dm.digits_fit l -> Dm.digits_fit (take n (drop s l)).
Proof. intros H p; rewrite skipn_firstn_comm, drop_drop; etransitivity; [apply count_digits_take|apply H]. Qed.

(** The symbols, if there are any, are those of an image that was accepted, and
    none of its numbers overflows the demangler. *)
Definition symbols_ok (sym : option SymRef) : Prop := forall s, sym = Some s -> sym_ok s /\ Dm.digits_fit (image s).

(** A line names the function symbol nearest below its address, by what the
    demangler makes of its text in the string table, or by the text itself if it
    is not a mangled path; it has no name only if there is no such symbol, or the
    string table has no text for it. *)
Definition shown (name t : list Z) : Prop :=
  exists ok buf, Dm.demangle name (replicate 80 0) = Ok (ok, buf) /\
    let d := take (default (length buf) (position0 buf)) buf in t = if ok && is_utf8 d then d else name.
Definition nearest (s : SymRef) (addr m : Z) : Prop := candidate s addr m /\ forall j, candidate s addr j -> st_value s j <= st_value s m.
Definition named (sym : option SymRef) (l : Line) : Prop :=
  match sym with
  | None => symbol l = None
  | Some s =>
      match symbol l with
      | Some (t, off) => exists m name, nearest s (address l) m /\ off = address l - st_value s m /\
          str_at s (st_name s m) = Some name /\ shown name t
      | None => forall m, nearest s (address l) m -> exists m', nearest s (address l) m' /\ str_at s (st_name s m') = None
      end
  end.

Lemma print_addr_ok d addr sym : symbols_ok sym -> exists l, print_addr d addr sym = Ok l /\ depth l = d /\ address l = addr /\ named sym l.
Proof.
  intros Hs; unfold print_addr; destruct sym as [s|]; [|cbn [mbind res_bind]; by eexists].
  destruct (Hs s eq_refl) as [Hok Hfit]; destruct (lookup_nearest s addr Hok) as (r & -> & Hr); cbn [mbind res_bind]; destruct r as [[name off]|].
  2:{ eexists; split_and!; [reflexivity|done|done|]; cbn [named symbol address]; intros m [Hm _]; destruct Hr as [Hr|(m' & ? & ? & ?)]; [by destruct (Hr m)|by exists m']. }
  destruct Hr as (m & Hm & Hoff & Hstr & Hmax); pose proof Hstr as Hname; unfold str_at in Hstr; destruct (sget _ _ _) as [l|] eqn:El; [|done]; destruct (position0 l); [|done]; destruct (is_utf8 _); [|done].
  injection Hstr as Hstr; apply sget_Some in El as (_ & _ & _ & ->); rewrite <- Hstr in Hname |- *.
  destruct (Dm.demangle_ok (take n (take (Z.to_nat (len (image s) - (strtab_offset (tab s) + st_name s m))) (drop (Z.to_nat (strtab_offset (tab s) + st_name s m)) (image s)))) (replicate 80 0)) as (ok & buf & Hdm & _).
  - rewrite take_take; by apply digits_fit_sub.
  - rewrite Hdm; cbn [mbind res_bind]; eexists; split_and!; [reflexivity|done|done|]; cbn [named symbol address].
    eexists m, _; split_and!; [by split|done|exact Hname|]; exists ok, buf; split; [exact Hdm|]; cbn zeta; by destruct ok.
Qed.

Section bounds.
Context {A M : Type} `{!UserMem A M}.
Context (k : Kernel A M).

(** The reads of the stack return: what the check lets through, the hardware
    translates. *)
Definition reads_return : Prop := forall fp, exists o, read_frame k fp = Ok o.

(** The lines have ascending depths below [d], the depth reached, and their names
    are right. *)
Definition numbered (sym : option SymRef) (d : Z) (out : list Line) : Prop :=
  StronglySorted Z.lt (depth <$> out) /\ Forall (fun l => (0 <= depth l < d) /\ named sym l) out.

Lemma numbered_snoc sym d out l : numbered sym d out -> depth l = d -> named sym l -> 0 <= d -> numbered sym (d + 1) (out ++ [l]).
Proof.
  intros [Hs Hb] Hl Hnm Hd; split.
  - rewrite fmap_app; cbn [fmap list_fmap]; rewrite Hl; clear Hl Hnm; induction out as [|x out IH]; cbn [fmap list_fmap app]; [repeat constructor|].
    cbn [fmap list_fmap] in Hs; apply StronglySorted_inv in Hs as [Hs1 Hs2]; apply Forall_cons in Hb as [Hx Hb]; constructor; [by apply IH|].
    apply Forall_app; split; [done|apply Forall_singleton; lia].
  - apply Forall_app; split; [|apply Forall_singleton; split; [lia|done]]; eapply Forall_impl; [exact Hb|]; intros x [Hx ?]; split; [lia|done].
Qed.

Lemma numbered_mono sym d e out : numbered sym d out -> d <= e -> numbered sym e out.
Proof. intros [Hs Hb] He; split; [done|]; eapply Forall_impl; [exact Hb|]; intros x [Hx ?]; split; [lia|done]. Qed.

Lemma frames_bounded fuel sym : reads_return -> symbols_ok sym -> forall d fp out, 0 <= d <= MAX_FRAMES -> MAX_FRAMES - d < Z.of_nat fuel -> numbered sym d out ->
  exists out', frames k fuel sym d fp out = Ok out' /\ numbered sym MAX_FRAMES out'.
Proof.
  intros Hrd Hs; induction fuel as [|fuel IH]; intros d fp out Hd Hf Hn; [unfold MAX_FRAMES in *; lia|]; cbn [frames].
  destruct (negb _ && _ && _) eqn:E; [|exists out; split; [done|by apply (numbered_mono _ d); [|lia]]]; bsplit.
  destruct (Hrd fp) as ([[sf ra]|] & ->); cbn [mbind res_bind]; [|exists out; split; [done|by apply (numbered_mono _ d); [|lia]]].
  assert (Hline : exists out1, (if ra =? 0 then Ok out else l ← print_addr d ra sym; Ok (out ++ [l])) = Ok out1 /\ numbered sym (d + 1) out1).
  { destruct (ra =? 0); [exists out; split; [done|by apply (numbered_mono _ d); [|lia]]|].
    destruct (print_addr_ok d ra sym Hs) as (l & -> & Hl & _ & Hnm); cbn [mbind res_bind]; eexists; split; [reflexivity|]; apply numbered_snoc; [done|done|done|lia]. }
  destruct Hline as (out1 & -> & Hn1); cbn [mbind res_bind]; destruct (sf =? fp); [exists out1; split; [done|by apply (numbered_mono _ (d + 1)); [|lia]]|].
  apply IH; [lia|lia|done].
Qed.

Lemma backtrace_ok fp lr sym : reads_return -> symbols_ok sym -> exists out, print_backtrace k fp lr sym = Ok out /\ numbered sym MAX_FRAMES out.
Proof.
  intros Hrd Hs; unfold print_backtrace.
  assert (H0 : numbered sym 0 []) by (split; constructor).
  assert (Hfirst : exists l, print_addr 0 lr sym = Ok l /\ numbered sym 1 [l]).
  { destruct (print_addr_ok 0 lr sym Hs) as (l & E & Hl & _ & Hnm); exists l; split; [done|]; apply (numbered_snoc sym 0 [] l); [done|done|done|lia]. }
  destruct Hfirst as (l & El & Hl); assert (Hup : numbered sym MAX_FRAMES [l]) by (apply (numbered_mono _ 1); [done|unfold MAX_FRAMES; lia]).
  destruct (fp =? 0); [destruct (lr =? 0); [exists []; split; [done|split; constructor]|rewrite El; cbn [mbind res_bind]; by eexists]|].
  destruct (lr =? 0); [cbn [mbind res_bind]|rewrite El; cbn [mbind res_bind]]; apply frames_bounded; auto; unfold MAX_FRAMES; lia.
Qed.

(** A stack: each frame holds the next frame's address and a return address. *)
Inductive stack : Z -> list Z -> Prop :=
  | stack_end : stack 0 []
  | stack_frame fp next ra ras : fp <> 0 -> fp mod 16 = 0 -> read_frame k fp = Ok (Some (next, ra)) -> ra <> 0 -> next <> fp -> stack next ras -> stack fp (ra :: ras).

Lemma frames_stack sym fp ras : symbols_ok sym -> stack fp ras -> forall fuel d out, 0 <= d -> d + len ras <= MAX_FRAMES -> (length ras < fuel)%nat ->
  exists ls, frames k fuel sym d fp out = Ok (out ++ ls) /\ address <$> ls = ras /\ depth <$> ls = seqZ d (len ras).
Proof.
  intros Hs; induction 1 as [|fp next ra ras Hnz Hal Hr Hra Hne _ IH]; intros fuel d out Hd Hm Hf; (destruct fuel as [|fuel]; [simpl in Hf; lia|]); cbn [frames].
  - exists []; by rewrite app_nil_r.
  - rewrite (len_app [ra] ras : len (ra :: ras) = _) in *; change (len [ra]) with 1 in *; pose proof (len_nonneg ras).
    rewrite (proj2 (Z.eqb_neq fp 0)), (proj2 (Z.eqb_eq (fp mod 16) 0)), (proj2 (Z.ltb_lt d _)) by (done || lia); cbn [negb andb]; rewrite Hr; cbn [mbind res_bind].
    rewrite (proj2 (Z.eqb_neq ra 0)) by done; destruct (print_addr_ok d ra sym Hs) as (l & -> & Hl & Hla & _); cbn [mbind res_bind].
    rewrite (proj2 (Z.eqb_neq next fp)) by done; destruct (IH fuel (d + 1) (out ++ [l])) as (ls & -> & Hads & Hds); [lia|lia|simpl in Hf; lia|].
    exists (l :: ls); split_and!; [by rewrite <- app_assoc|cbn [fmap list_fmap]; by rewrite Hla, Hads|].
    cbn [fmap list_fmap]; rewrite Hl, Hds, (seqZ_cons d (1 + len ras)) by lia; f_equal; f_equal; lia.
Qed.
End bounds.


(** A proper stack is printed frame by frame: first the return address of the
    faulting function, then that of each caller. *)
Lemma backtrace_follows_stack {A M : Type} `{!UserMem A M} (k : Kernel A M) (fp lr : Z) (ras : list Z) sym :
  symbols_ok sym -> fp <> 0 -> lr <> 0 -> stack k fp ras -> len ras < MAX_FRAMES ->
  exists ls, print_backtrace k fp lr sym = Ok ls /\ address <$> ls = lr :: ras /\ depth <$> ls = seqZ 0 (1 + len ras).
Proof.
  intros Hs Hfp Hlr Hst Hlen; unfold print_backtrace; rewrite (proj2 (Z.eqb_neq fp 0)), (proj2 (Z.eqb_neq lr 0)) by lia.
  destruct (print_addr_ok 0 lr sym Hs) as (l & -> & Hl & Hla & _); cbn [mbind res_bind].
  destruct (frames_stack k sym fp ras Hs Hst 33 1 [l]) as (ls & -> & Ha & Hd);
    [lia|lia|unfold MAX_FRAMES, len in Hlen; lia|].
  exists (l :: ls); split_and!; [done|cbn [fmap list_fmap]; by rewrite Hla, Ha|].
  cbn [fmap list_fmap]; pose proof (len_nonneg ras); rewrite Hl, Hd, (seqZ_cons 0) by lia; f_equal; f_equal; lia.
Qed.

(** ** The end of a faulting process ([fault] of [process.rs]) *)

Section fault.
Context {A M : Type} `{!AspaceOps A M, !UserMem A M}.
Context (others : ProcId -> Kernel A M -> res (Kernel A M)).
Implicit Types k : Kernel A M.

(** [fault]: the process ends, its backtrace is printed, its channels are closed
    and the CPU is given away; spins when no process is current. *)
Definition fault (fp lr : Z) (k : Kernel A M) : res (Kernel A M) :=
  match tpidr (sched k) with
  | None => Timeout
  | Some _ =>
      '(id, s1) ← Proc.fault_running (sched k);
      let symref := match Proc.slot (sched k) id with Some p => sym p | None => None end in
      _ ← print_backtrace (set_sched k s1) fp lr symref;
      let k1 := close_all_for others id (set_sched k s1) in
      s2 ← Proc.leave_cpu (sched k1);
      Ok (set_sched k1 s2)
  end.

Lemma reads_same k k' fp : mem k' = mem k -> Sched.ttbr0 (sched k') = Sched.ttbr0 (sched k) -> read_frame k' fp = read_frame k fp.
Proof. intros Hm Ht; unfold read_frame, read_user, range_ok; by rewrite Hm, Ht. Qed.

Lemma reads_return_same k k' : mem k' = mem k -> Sched.ttbr0 (sched k') = Sched.ttbr0 (sched k) -> reads_return k -> reads_return k'.
Proof. intros Hm Ht Hr fp; rewrite (reads_same k k') by done; apply Hr. Qed.

Lemma frames_same fuel k k' sym : mem k' = mem k -> Sched.ttbr0 (sched k') = Sched.ttbr0 (sched k) ->
  forall d fp out, frames k' fuel sym d fp out = frames k fuel sym d fp out.
Proof.
  intros Hm Ht; induction fuel as [|fuel IH]; intros d fp out; cbn [frames]; [done|]; rewrite (reads_same k k') by done.
  destruct (negb _ && _ && _); [|done]; destruct (read_frame k fp) as [[[sf ra]|]| |]; cbn [mbind res_bind]; try done.
  destruct (if ra =? 0 then _ else _); cbn [mbind res_bind]; try done; destruct (sf =? fp); [done|apply IH].
Qed.

Lemma backtrace_same k k' fp lr sym : mem k' = mem k -> Sched.ttbr0 (sched k') = Sched.ttbr0 (sched k) ->
  print_backtrace k' fp lr sym = print_backtrace k fp lr sym.
Proof.
  intros Hm Ht; unfold print_backtrace; destruct (fp =? 0); [done|].
  destruct (if lr =? 0 then _ else _) as [[d out]| |]; cbn [mbind res_bind]; [|done..]; by apply frames_same.
Qed.

(** The first part of [fault] on the current process. *)
Lemma fault_running_current k cur : sched_inv (sched k) -> tpidr (sched k) = Some cur ->
  Proc.fault_running (sched k) = Ok (cur, Proc.mark_exited (sched k) cur FAULT_STATUS).
Proof.
  intros Hinv Htp; destruct (wi_current _ (si_weak _ Hinv) cur Htp) as [pc Hpc].
  pose proof (si_current _ Hinv cur pc Htp Hpc) as Hrun.
  unfold Proc.fault_running, Proc.current_id; rewrite Htp, Hpc; cbn [unwrap mbind res_bind].
  unfold Proc.has_state; by rewrite Hpc, bool_decide_true.
Qed.

(** A fault ends the current process and nothing else, if the backtrace returns;
    a backtrace that panics takes the kernel with it. *)
Lemma fault_spec k cur pc fp lr : sched_inv (sched k) -> tpidr (sched k) = Some cur -> Proc.slot (sched k) cur = Some pc ->
  match print_backtrace k fp lr (sym pc) with
  | Ok _ => exists k', fault fp lr k = Ok k' /\ dead k k' cur FAULT_STATUS
  | Panic => fault fp lr k = Panic
  | Timeout => True
  end.
Proof.
  intros Hinv Htp Hpc; unfold fault; rewrite Htp, (fault_running_current k cur Hinv Htp); cbn [mbind res_bind]; rewrite Hpc.
  rewrite (backtrace_same k (set_sched k _)) by (cbn; unfold Proc.mark_exited; rewrite ?ttbr0_update; done).
  destruct (print_backtrace k fp lr (sym pc)); cbn [mbind res_bind]; [|done..].
  destruct (die_spec others k cur FAULT_STATUS Hinv Htp) as (s2 & -> & Hd); by eexists.
Qed.

(** A process that killed itself with [SYS_KILL] panics the kernel by its next
    fault, as by its next exit. *)
Lemma kill_self_then_fault_panics k (cur : ProcId) fp lr (Hinv : sched_inv (sched k)) (Htp : tpidr (sched k) = Some cur) :
  fault fp lr (sys_kill others cur k).2 = Panic.
Proof.
  destruct (wi_current _ (si_weak _ Hinv) cur Htp) as [pc Hpc]; pose proof (kill_self_state others k cur pc Htp Hpc Hinv) as [Ht Hno].
  unfold fault; rewrite Ht; unfold Proc.fault_running, Proc.current_id; rewrite Ht.
  destruct (Proc.slot (sched (sys_kill others cur k).2) cur) as [p|] eqn:E; [|done].
  cbn [unwrap mbind res_bind]; unfold Proc.has_state; rewrite E; by rewrite bool_decide_false by (by eapply Hno).
Qed.
End fault.

(** ** A faulting process *)
Module BkDemo.
#[local] Existing Instance KDemo.kmem_user.

(** Two functions, [main] at 0x200000 and one with a mangled name at 0x200040. *)
Definition sym_entry (at_ name value : Z) (buf : list Z) : list Z :=
  ElfDemo.put (at_ + 8) 8 value (ElfDemo.put (at_ + 4) 1 2 (ElfDemo.put at_ 4 name buf)).
Definition shdr (at_ ty off size link entsize : Z) (buf : list Z) : list Z :=
  ElfDemo.put (at_ + 56) 8 entsize (ElfDemo.put (at_ + 40) 4 link (ElfDemo.put (at_ + 32) 8 size (ElfDemo.put (at_ + 24) 8 off (ElfDemo.put (at_ + 4) 4 ty buf)))).
Definition names : list Z := 0 :: Dm.bytes_of "main" ++ [0] ++ Dm.bytes_of "_RNvNtCsap4Ua6k489x_7r9x_std7process4exit" ++ [0].
Definition elf : list Z :=
  shdr 704 3 560 (len names) 0 0 (shdr 640 SHT_SYMTAB 512 48 1 SYMENT_SIZE
    (ElfDemo.put_bytes 560 names (sym_entry 536 6 0x200040 (sym_entry 512 1 0x200000
      (ElfDemo.put 60 2 2 (ElfDemo.put 58 2 SHDR_SIZE (ElfDemo.put 40 8 640 (ElfDemo.valid_elf ++ replicate 256 0)))))))).
Definition table : SymTable := {| sym_offset := 512; nsyms := 2; strtab_offset := 560 |}.

Lemma elf_bytes : bytes_ok elf.
Proof.
  apply Forall_forall; intros x Hx; assert (H : forallb (fun b => (0 <=? b) && (b <? 256)) elf = true) by (vm_compute; reflexivity).
  rewrite forallb_forall in H; apply list_elem_of_In in Hx; specialize (H x Hx); bsplit; split; [lia|]; change W8 with 256; lia.
Qed.

Lemma elf_digits : Dm.digits_fit elf.
Proof.
  intros p; assert (H : forallb (fun p => Dm.count_digits (drop p elf) <=? 19) (seq 0 769) = true) by (vm_compute; reflexivity).
  rewrite forallb_forall in H; destruct (decide (p < 769)%nat) as [Hp|Hp]; [apply Z.leb_le, H, in_seq; lia|].
  rewrite drop_ge; [cbn; lia|]; assert (length elf = 768%nat) by (vm_compute; reflexivity); lia.
Qed.

(** The stack of the process loops between two frames. *)
Definition looping : Kernel Z KDemo.kmem :=
  set_mem KDemo.start {| KDemo.flat := KDemo.flat (mem KDemo.start);
    KDemo.bytes := fun _ v => if v =? 0x200101 then 2 else if v =? 0x200102 then 0x20 else if v =? 0x200108 then 0x44 else if v =? 0x20010a then 0x20
      else if v =? 0x200201 then 1 else if v =? 0x200202 then 0x20 else if v =? 0x200208 then 4 else if v =? 0x20020a then 0x20 else 0 |}.

Lemma kmem_reads (k : Kernel Z KDemo.kmem) : reads_return k.
Proof.
  intros fp; unfold read_frame, read_user, range_ok; change (Z.min 16 16 =? 0) with false.
  destruct (Sched.ttbr0 (sched k)) as [a|]; cbn [user_range_ok load KDemo.kmem_user mbind res_bind negb]; [|by eexists].
  destruct (negb _); by eexists.
Qed.

End BkDemo.

End Bk.
