(* ===== verification/Vm.v ===== *)
(** * Recursive page tables ([aarch64/src/vm.rs])

    Page tables live in physical memory, which is a map from word addresses to
    64-bit words.  A table is reached by the kernel through a virtual address:
    the root through the kernel's offset mapping at [KZERO], the others through
    the recursive slot of the live root.  [mmu] is the translation the hardware
    performs for these addresses, so that every table access of the code goes
    through the tables it is editing. *)

From S2P Require Import Prelude Addr BitmapAlloc.

Module Pt.

Inductive PageSize := Page4K | Page2M | Page1G.

#[global] Instance PageSize_eq_dec : EqDecision PageSize.
Proof. solve_decision. Defined.

Definition size (p : PageSize) : Z :=
  match p with Page4K => PAGE_SIZE_4K | Page2M => PAGE_SIZE_2M | Page1G => PAGE_SIZE_1G end.

Inductive Mair := Normal | Device.
Inductive AccessPermission := PrivRw | AllRw | PrivRo | AllRo.
Inductive Shareable := Non | Unpredictable | Outer | Inner.

Definition mair_bits (m : Mair) : Z := match m with Normal => 0 | Device => 1 end.
Definition ap_bits (a : AccessPermission) : Z :=
  match a with PrivRw => 0 | AllRw => 1 | PrivRo => 2 | AllRo => 3 end.
Definition shareable_bits (s : Shareable) : Z :=
  match s with Non => 0 | Unpredictable => 1 | Outer => 2 | Inner => 3 end.

(** ** Entries: a 64-bit word with named bit ranges *)

Definition Entry : Type := Z.

Definition get_bits (e lo hi : Z) : Z := Z.land (Z.shiftr e lo) (Z.ones (hi - lo)).
Definition with_bits (e lo hi v : Z) : Entry :=
  Z.lor (Z.ldiff e (Z.shiftl (Z.ones (hi - lo)) lo))
        (Z.shiftl (Z.land v (Z.ones (hi - lo))) lo).

Definition valid (e : Entry) : bool := get_bits e 0 1 =? 1.
Definition page_or_table (e : Entry) : bool := get_bits e 1 2 =? 1.
Definition addr (e : Entry) : Z := get_bits e 12 48.
Definition access_permission (e : Entry) : AccessPermission :=
  let b := get_bits e 6 8 in
  if b =? 1 then AllRw else if b =? 2 then PrivRo else if b =? 3 then AllRo else PrivRw.

Definition with_valid (e : Entry) (b : bool) : Entry := with_bits e 0 1 (Z.b2z b).
Definition with_page_or_table (e : Entry) (b : bool) : Entry := with_bits e 1 2 (Z.b2z b).
Definition with_mair_index (e : Entry) (m : Mair) : Entry := with_bits e 2 5 (mair_bits m).
Definition with_access_permission (e : Entry) (a : AccessPermission) : Entry :=
  with_bits e 6 8 (ap_bits a).
Definition with_shareable (e : Entry) (s : Shareable) : Entry := with_bits e 8 10 (shareable_bits s).
Definition with_accessed (e : Entry) (b : bool) : Entry := with_bits e 10 11 (Z.b2z b).
Definition with_addr (e : Entry) (a : Z) : Entry := with_bits e 12 48 a.
Definition with_pxn (e : Entry) (b : bool) : Entry := with_bits e 53 54 (Z.b2z b).
Definition with_uxn (e : Entry) (b : bool) : Entry := with_bits e 54 55 (Z.b2z b).

Definition empty : Entry := 0.

(** The shape shared by the constructors of [impl Entry]. *)
Definition attributes (ap : AccessPermission) (uxn pxn : bool) (m : Mair) : Entry :=
  with_valid (with_mair_index (with_pxn (with_uxn (with_accessed (with_shareable
    (with_access_permission empty ap) Inner) true) uxn) pxn) m) true.

Definition rw_kernel_data : Entry := attributes PrivRw true true Normal.
Definition ro_kernel_data : Entry := attributes PrivRo true true Normal.
Definition ro_kernel_text : Entry := attributes PrivRo true false Normal.
Definition rw_device : Entry := attributes PrivRw true true Device.
Definition rw_user_mmio : Entry := attributes AllRw true true Device.
Definition ro_user_text : Entry := attributes AllRo false true Normal.
Definition rw_user_data : Entry := attributes AllRw true true Normal.

Definition with_phys_addr (e : Entry) (pa : PhysAddr) : Entry := with_addr e (Z.shiftr pa 12).
Definition phys_addr (e : Entry) : PhysAddr := Z.shiftl (addr e) 12.

(** ** Levels and indices *)

Inductive Level := Level0 | Level1 | Level2 | Level3.

#[global] Instance Level_eq_dec : EqDecision Level.
Proof. solve_decision. Defined.

Definition next (l : Level) : option Level :=
  match l with
  | Level0 => Some Level1 | Level1 => Some Level2 | Level2 => Some Level3 | Level3 => None
  end.

Definition depth (l : Level) : Z :=
  match l with Level0 => 0 | Level1 => 1 | Level2 => 2 | Level3 => 3 end.

Definition is_table (e : Entry) (l : Level) : bool :=
  page_or_table e && negb (bool_decide (l = Level3)).

Definition RECURSIVE_SLOT : Z := 511.

Definition va_index (va : Z) (l : Level) : Z :=
  match l with
  | Level0 => Z.land (Z.shiftr va 39) 0x1ff
  | Level1 => Z.land (Z.shiftr va 30) 0x1ff
  | Level2 => Z.land (Z.shiftr va 21) 0x1ff
  | Level3 => Z.land (Z.shiftr va 12) 0x1ff
  end.

Inductive RootPageTableType := User | Kernel.

#[global] Instance RootPageTableType_eq_dec : EqDecision RootPageTableType.
Proof. solve_decision. Defined.

Definition recursive_table_addr (pgtype : RootPageTableType) (va : Z) (l : Level) : Z :=
  let indices_mask := 0x0000fffffffff000 in
  let indices := Z.land va indices_mask in
  let shift := match l with Level0 => 36 | Level1 => 27 | Level2 => 18 | Level3 => 9 end in
  let slot := RECURSIVE_SLOT in
  let recursive_indices :=
    match l with
    | Level0 => Z.lor (Z.lor (Z.lor (Z.shiftl slot 39) (Z.shiftl slot 30)) (Z.shiftl slot 21)) (Z.shiftl slot 12)
    | Level1 => Z.lor (Z.lor (Z.shiftl slot 39) (Z.shiftl slot 30)) (Z.shiftl slot 21)
    | Level2 => Z.lor (Z.shiftl slot 39) (Z.shiftl slot 30)
    | Level3 => Z.shiftl slot 39
    end in
  let msbits := match pgtype with Kernel => 0xffff000000000000 | User => 0 end in
  Z.lor (Z.lor msbits recursive_indices) (Z.land (Z.shiftr indices shift) indices_mask).

Inductive PageTableError :=
  | AllocationFailed (e : PageAllocError)
  | EntryIsNotTable
  | PhysRangeIsZero
  | PhysRangeIsNotOnPageBoundary
  | MappingRecursiveIndex.

Inductive VaMapping := AddrMapping (va : Z) | OffsetMapping (off : Z).

Definition map (m : VaMapping) (pa : PhysAddr) : Z :=
  match m with AddrMapping va => va | OffsetMapping off => wrapping_add pa off end.

(** [kmem.rs]: the kernel's offset mapping. *)
Definition physaddr_as_ptr_mut_offset_from_kzero (pa : PhysAddr) : Z := wrapping_add pa KZERO.
Definition from_virt_to_physaddr (va : Z) : res PhysAddr :=
  _ ← assert (KZERO <=? va); usub va KZERO.

(** ** The page allocator trait *)

Class PageAllocator (P : Type) := {
  alloc_physpage : P -> res (result PhysAddr PageAllocError * P);
  in_use : P -> PhysAddr -> Prop;
}.

(** ** Memory and translation *)

Record Mem (P : Type) := {
  words : gmap Z Z;
  ttbr0_el1 : PhysAddr;
  ttbr1_el1 : PhysAddr;
  pages : P;
}.
Arguments words {P} _.
Arguments ttbr0_el1 {P} _.
Arguments ttbr1_el1 {P} _.
Arguments pages {P} _.

Definition with_words {P} (m : Mem P) (w : gmap Z Z) : Mem P :=
  {| words := w; ttbr0_el1 := ttbr0_el1 m; ttbr1_el1 := ttbr1_el1 m; pages := pages m |}.
Definition with_pages {P} (m : Mem P) (p : P) : Mem P :=
  {| words := words m; ttbr0_el1 := ttbr0_el1 m; ttbr1_el1 := ttbr1_el1 m; pages := p |}.

Definition word (w : gmap Z Z) (pa : PhysAddr) : Z := default 0 (w !! pa).

(** The hardware walk: tables at levels 0 to 2, blocks at levels 1 and 2, pages
    at level 3. *)
Definition hw_walk (w : gmap Z Z) (root va : Z) : option PhysAddr :=
  let e0 := word w (root + 8 * va_index va Level0) in
  if negb (valid e0 && page_or_table e0) then None else
  let e1 := word w (phys_addr e0 + 8 * va_index va Level1) in
  if negb (valid e1) then None else
  if negb (page_or_table e1) then Some (phys_addr e1 + va mod 2 ^ 30) else
  let e2 := word w (phys_addr e1 + 8 * va_index va Level2) in
  if negb (valid e2) then None else
  if negb (page_or_table e2) then Some (phys_addr e2 + va mod 2 ^ 21) else
  let e3 := word w (phys_addr e2 + 8 * va_index va Level3) in
  if negb (valid e3 && page_or_table e3) then None else
  Some (phys_addr e3 + va mod 2 ^ 12).

(** The descriptor that ends the hardware walk of a user access: as [hw_walk],
    with the access flag (bit 10) set, without which the access faults. *)
Definition accessed (e : Entry) : bool := get_bits e 10 11 =? 1.
Definition flagged (e : Entry) : option Entry := if accessed e then Some e else None.

Definition hw_leaf (w : gmap Z Z) (root va : Z) : option Entry :=
  let e0 := word w (root + 8 * va_index va Level0) in
  if negb (valid e0 && page_or_table e0) then None else
  let e1 := word w (phys_addr e0 + 8 * va_index va Level1) in
  if negb (valid e1) then None else
  if negb (page_or_table e1) then flagged e1 else
  let e2 := word w (phys_addr e1 + 8 * va_index va Level2) in
  if negb (valid e2) then None else
  if negb (page_or_table e2) then flagged e2 else
  let e3 := word w (phys_addr e2 + 8 * va_index va Level3) in
  if negb (valid e3 && page_or_table e3) then None else flagged e3.

(** AP[1] (bit 6) opens a page to user code, AP[2] (bit 7) makes it read only. *)
Definition hw_user_ok (e : Entry) (wr : bool) : bool := Z.testbit e 6 && negb (wr && Z.testbit e 7).

(** User code may read (write) the byte at [va]: TTBR0 translates addresses whose
    top 16 bits are clear. *)
Definition el0_access {P} (m : Mem P) (wr : bool) (va : Z) : Prop :=
  Z.shiftr va 48 = 0 /\ exists e, hw_leaf (words m) (ttbr0_el1 m) va = Some e /\ hw_user_ok e wr = true.

(** The top 16 bits choose the root.  The kernel half is walked in the recursive
    region only.  Outside it the code uses [KZERO + pa] for the root tables and
    nothing else (the pointer [root_page_table], the root given to [map_to], and
    the new root in [Aspace::new], which maps it there before the first use), so
    for those the translation is the offset itself: that the roots are mapped
    is the part of the kernel's own tables that this function takes for granted. *)
Definition mmu {P} (m : Mem P) (va : Z) : option PhysAddr :=
  let top := Z.shiftr va 48 in
  if top =? 0xffff then
    if va_index va Level0 =? RECURSIVE_SLOT then hw_walk (words m) (ttbr1_el1 m) va
    else if KZERO <=? va then Some (va - KZERO) else None
  else if top =? 0 then hw_walk (words m) (ttbr0_el1 m) va
  else None.

(** An access that does not translate is a data abort in the kernel. *)
Definition deref {P} (m : Mem P) (va : Z) : res PhysAddr := unwrap (mmu m va).

Definition read_word {P} (m : Mem P) (va : Z) : res Z := pa ← deref m va; Ok (word (words m) pa).
Definition write_word {P} (m : Mem P) (va v : Z) : res (Mem P) :=
  pa ← deref m va; Ok (with_words m (<[pa := v]> (words m))).

(** [PhysPage4K::clear] through its virtual address. *)
Definition zero_page (pa : PhysAddr) (w : gmap Z Z) : gmap Z Z :=
  foldr (fun j w => <[pa + 8 * j := 0]> w) w (seqZ 0 512).
Definition clear {P} (m : Mem P) (va : Z) : res (Mem P) :=
  pa ← deref m va; Ok (with_words m (zero_page pa (words m))).

(** ** The table editor *)

Section editor.
Context {P : Type} `{!PageAllocator P}.
Implicit Types m : Mem P.

Definition root_page_table (m : Mem P) (t : RootPageTableType) : Z :=
  physaddr_as_ptr_mut_offset_from_kzero
    (match t with User => ttbr0_el1 m | Kernel => ttbr1_el1 m end).

(** [VmTraitImpl]. *)
Definition write_entry (m : Mem P) (dest entry : Z) : res (Mem P) := write_word m dest entry.

Definition write_recursive_entry (m : Mem P) (t : RootPageTableType) (entry : Entry) : res (Mem P) :=
  write_word m (root_page_table m t + 8 * 511) entry.

Definition replace_recursive_entry (m : Mem P) (t : RootPageTableType) (entry : Entry)
    : res (Entry * Mem P) :=
  old ← read_word m (root_page_table m t + 8 * 511);
  m1 ← write_recursive_entry m t entry;
  Ok (old, m1).

Definition generate_temp_recursive_address (table : Z) : res Entry :=
  pa ← from_virt_to_physaddr table;
  Ok (with_page_or_table (with_phys_addr rw_kernel_data pa) true).

Definition resolve_entry_mut (t : RootPageTableType) (va : Z) (l : Level) : Z :=
  recursive_table_addr t va l.

(** [Table::entry_mut]: the address of the entry. *)
Definition entry_mut (table : Z) (l : Level) (va : Z) : Z := table + 8 * va_index va l.

(** [Table::next_mut]: the address of the next table, created if need be. *)
Definition next_mut (m : Mem P) (table : Z) (t : RootPageTableType) (l : Level) (va : Z)
    : res (result Z PageTableError * Mem P) :=
  let index := va_index va l in
  if bool_decide (l = Level0) && (index =? RECURSIVE_SLOT) then Ok (Err MappingRecursiveIndex, m) else
  entry ← read_word m (table + 8 * index);
  if valid entry && negb (is_table entry l) then Ok (Err EntryIsNotTable, m) else
  if valid entry then
    next_level ← unwrap (next l);
    Ok (Val (resolve_entry_mut t va next_level), m)
  else
    '(r, p1) ← alloc_physpage (pages m);
    let m1 := with_pages m p1 in
    match r with
    | Err e => Ok (Err (AllocationFailed e), m1)
    | Val page_pa =>
        let entry := with_page_or_table (with_phys_addr rw_kernel_data page_pa) true in
        m2 ← write_entry m1 (table + 8 * index) entry;
        next_level ← unwrap (next l);
        let page := resolve_entry_mut t va next_level in
        m3 ← clear m2 page;
        Ok (Val page, m3)
    end.

(** [and_then] on the walk. *)
Definition and_then (x : res (result Z PageTableError * Mem P))
    (f : Z -> Mem P -> res (result Z PageTableError * Mem P))
    : res (result Z PageTableError * Mem P) :=
  '(r, m) ← x; match r with Val t => f t m | Err e => Ok (Err e, m) end.

Definition walk_to (m : Mem P) (root : Z) (va : Z) (ps : PageSize) (t : RootPageTableType)
    : res (result Z PageTableError * Mem P) :=
  match ps with
  | Page4K =>
      and_then (and_then (and_then (next_mut m root t Level0 va)
        (fun t1 m => next_mut m t1 t Level1 va))
        (fun t2 m => next_mut m t2 t Level2 va))
        (fun t3 m => Ok (Val (entry_mut t3 Level3 va), m))
  | Page2M =>
      and_then (and_then (next_mut m root t Level0 va)
        (fun t1 m => next_mut m t1 t Level1 va))
        (fun t2 m => Ok (Val (entry_mut t2 Level2 va), m))
  | Page1G =>
      and_then (next_mut m root t Level0 va)
        (fun t1 m => Ok (Val (entry_mut t1 Level1 va), m))
  end.

Definition map_to (m : Mem P) (root : Z) (entry : Entry) (va : Z) (ps : PageSize)
    (t : RootPageTableType) : res (result unit PageTableError * Mem P) :=
  temp_recursive_entry ← generate_temp_recursive_address root;
  '(old_recursive_entry, m1) ← replace_recursive_entry m t temp_recursive_entry;
  '(dest_entry, m2) ← walk_to m1 root va ps t;
  '(result, m3) ←
    match dest_entry with
    | Val dest =>
        let entry := if decide (ps = Page4K) then with_page_or_table entry true else entry in
        m3 ← write_entry m2 dest entry;
        written ← read_word m3 dest;
        _ ← assert (valid written && (phys_addr written =? phys_addr entry));
        Ok (Val tt, m3)
    | Err e => Ok (Err e, m2)
    end;
  m4 ← write_recursive_entry m3 t old_recursive_entry;
  Ok (result, m4).

(** The loop of [map_phys_range]: [startva], [currva] and [endva] as in the
    code. *)
Fixpoint map_pages_to (m : Mem P) (root : Z) (pas : list PhysAddr) (mapping : VaMapping)
    (entry : Entry) (ps : PageSize) (t : RootPageTableType) (startva : option Z) (currva endva : Z)
    : res (result (option Z * Z) PageTableError * Mem P) :=
  match pas with
  | [] => Ok (Val (startva, endva), m)
  | pa :: pas' =>
      '(startva1, currva1) ←
        match startva with
        | None => let c := map mapping pa in Ok (Some c, c)
        | Some s => c ← uadd currva (size ps); Ok (Some s, c)
        end;
      endva1 ← uadd currva1 (size ps);
      '(r, m1) ← map_to m root (with_phys_addr entry pa) currva1 ps t;
      match r with
      | Err e => Ok (Err e, m1)
      | Val _ => map_pages_to m1 root pas' mapping entry ps t startva1 currva1 endva1
      end
  end.

Definition map_phys_range (m : Mem P) (root : Z) (range : PhysRange) (mapping : VaMapping)
    (entry : Entry) (ps : PageSize) (t : RootPageTableType)
    : res (result VirtRange PageTableError * Mem P) :=
  if negb (Pa.is_multiple_of (start range) (size ps)) || negb (Pa.is_multiple_of (end_ range) (size ps))
  then Ok (Err PhysRangeIsNotOnPageBoundary, m) else
  pas ← Range.step_by_rounded range (size ps);
  '(r, m1) ← map_pages_to m root pas mapping entry ps t None 0 0;
  match r with
  | Err e => Ok (Err e, m1)
  | Val (Some s, e) => Ok (Val {| vstart := s; vend := e |}, m1)
  | Val (None, _) => Ok (Err PhysRangeIsZero, m1)
  end.

(** ** The software walk of system-call buffers *)

Definition entry_user_ok (entry : Entry) (for_write : bool) : bool :=
  match access_permission entry with
  | AllRw => true
  | AllRo => negb for_write
  | PrivRw | PrivRo => false
  end.

Fixpoint leaf_levels (m : Mem P) (va : Z) (table : Z) (ls : list Level) : res (option Entry) :=
  match ls with
  | [] =>
      entry ← read_word m (table + 8 * va_index va Level3);
      Ok (if valid entry then Some entry else None)
  | l :: ls' =>
      entry ← read_word m (table + 8 * va_index va l);
      if negb (valid entry) then Ok None else
      if negb (is_table entry l) then Ok (Some entry) else
      next_level ← unwrap (next l);
      leaf_levels m va (recursive_table_addr User va next_level) ls'
  end.

Definition user_leaf_entry (m : Mem P) (va : Z) : res (option Entry) :=
  leaf_levels m va (root_page_table m User) [Level0; Level1; Level2].

Fixpoint check_pages (fuel : nat) (m : Mem P) (page end_ : Z) (for_write : bool) : res bool :=
  match fuel with
  | O => Timeout
  | S fuel' =>
      if page <? end_ then
        o ← user_leaf_entry m page;
        if match o with Some entry => entry_user_ok entry for_write | None => false end
        then check_pages fuel' m (wrapping_add page PAGE_SIZE_4K) end_ for_write
        else Ok false
      else Ok true
  end.

Definition user_range_ok (m : Mem P) (va n : Z) (for_write : bool) : res bool :=
  match checked_add va n with
  | None => Ok false
  | Some e =>
      if KZERO <? e then Ok false else
      if n =? 0 then Ok true else
      check_pages (Z.to_nat (n / PAGE_SIZE_4K + 3)) m
        (Z.land va (unot W64 (PAGE_SIZE_4K - 1))) e for_write
  end.

(** [init_empty_root_page_table]: the self-pointer of a root at [root]. *)
Definition init_empty_root_page_table (m : Mem P) (root : Z) : res (Mem P) :=
  pa ← from_virt_to_physaddr root;
  write_word m (root + 8 * 511) (with_page_or_table (with_phys_addr rw_kernel_data pa) true).

(** [switch]. *)
Definition switch (m : Mem P) (root : Z) (t : RootPageTableType) : res (Mem P) :=
  pa ← from_virt_to_physaddr root;
  Ok (match t with
      | User => {| words := words m; ttbr0_el1 := pa; ttbr1_el1 := ttbr1_el1 m; pages := pages m |}
      | Kernel => {| words := words m; ttbr0_el1 := ttbr0_el1 m; ttbr1_el1 := pa; pages := pages m |}
      end).
End editor.

(** ** Bit fields *)

Lemma testbit_get_bits e lo hi i : 0 <= lo <= hi -> 0 <= i ->
  Z.testbit (get_bits e lo hi) i = (i <? hi - lo) && Z.testbit e (i + lo).
Proof.
  intros; unfold get_bits; rewrite Z.land_spec, Z.shiftr_spec by lia.
  destruct (Z.ltb_spec i (hi - lo)).
  - by rewrite Z.ones_spec_low, andb_true_r by lia.
  - by rewrite Z.ones_spec_high, andb_false_r by lia.
Qed.

Lemma testbit_with_bits e lo hi v i : 0 <= lo <= hi -> 0 <= i ->
  Z.testbit (with_bits e lo hi v) i =
    if (lo <=? i) && (i <? hi) then Z.testbit v (i - lo) else Z.testbit e i.
Proof.
  intros; unfold with_bits; rewrite Z.lor_spec, Z.ldiff_spec, !Z.shiftl_spec by lia.
  destruct (Z.leb_spec lo i), (Z.ltb_spec i hi); simpl.
  - rewrite Z.land_spec, Z.ones_spec_low by lia; simpl; by rewrite andb_false_r, andb_true_r.
  - rewrite Z.land_spec, Z.ones_spec_high by lia; simpl; by rewrite andb_false_r, orb_false_r, andb_true_r.
  - rewrite !(Z.testbit_neg_r _ (i - lo)) by lia; simpl; by rewrite orb_false_r, andb_true_r.
  - lia.
Qed.

Lemma get_with_same e lo hi v : 0 <= lo <= hi ->
  get_bits (with_bits e lo hi v) lo hi = v mod 2 ^ (hi - lo).
Proof.
  intros; apply Z.bits_inj'; intros i Hi; rewrite testbit_get_bits by lia.
  destruct (Z.ltb_spec i (hi - lo)); simpl.
  - rewrite testbit_with_bits, Z.mod_pow2_bits_low by lia.
    rewrite (proj2 (Z.leb_le _ _)), (proj2 (Z.ltb_lt _ _)) by lia; simpl; f_equal; lia.
  - by rewrite Z.mod_pow2_bits_high by lia.
Qed.

Lemma get_with_other e lo hi v lo' hi' : 0 <= lo <= hi -> 0 <= lo' <= hi' -> hi <= lo' \/ hi' <= lo ->
  get_bits (with_bits e lo hi v) lo' hi' = get_bits e lo' hi'.
Proof.
  intros; apply Z.bits_inj'; intros i Hi; rewrite !testbit_get_bits by lia.
  destruct (Z.ltb_spec i (hi' - lo')); simpl; [|done]; rewrite testbit_with_bits by lia.
  destruct (Z.leb_spec lo (i + lo')), (Z.ltb_spec (i + lo') hi); simpl; auto; lia.
Qed.

(** A page-aligned physical address below 2^46, as the offset mapping needs. *)
Definition page_pa (pa : PhysAddr) : Prop := 0 <= pa < 2 ^ 46 /\ pa mod 4096 = 0.

Lemma phys_addr_with e pa : page_pa pa -> phys_addr (with_phys_addr e pa) = pa.
Proof.
  intros [Hr Hm]; unfold phys_addr, with_phys_addr, addr, with_addr.
  rewrite get_with_same, Z.shiftr_div_pow2, Z.shiftl_mul_pow2 by lia.
  change (48 - 12) with 36; change (2 ^ 12) with 4096.
  rewrite Z.mod_small by (split; [apply Z.div_pos; lia|apply Z.div_lt_upper_bound; lia]).
  pose proof (Z.div_mod pa 4096); lia.
Qed.

Lemma phys_addr_page e b : phys_addr (with_page_or_table e b) = phys_addr e.
Proof. unfold phys_addr, addr, with_page_or_table; by rewrite get_with_other by lia. Qed.
Lemma valid_page e b : valid (with_page_or_table e b) = valid e.
Proof. unfold valid, with_page_or_table; by rewrite get_with_other by lia. Qed.
Lemma valid_phys e pa : valid (with_phys_addr e pa) = valid e.
Proof. unfold valid, with_phys_addr, with_addr; by rewrite get_with_other by lia. Qed.
Lemma accessed_page e b : accessed (with_page_or_table e b) = accessed e.
Proof. unfold accessed, with_page_or_table; by rewrite get_with_other by lia. Qed.
Lemma accessed_phys e pa : accessed (with_phys_addr e pa) = accessed e.
Proof. unfold accessed, with_phys_addr, with_addr; by rewrite get_with_other by lia. Qed.
Lemma page_with e : page_or_table (with_page_or_table e true) = true.
Proof. unfold page_or_table, with_page_or_table; by rewrite get_with_same by lia. Qed.

(** The entry that links the table at [pa]. *)
Definition table_entry (pa : PhysAddr) : Entry :=
  with_page_or_table (with_phys_addr rw_kernel_data pa) true.

(** An entry that leads to the table at [pa]. *)
Definition points_to (e : Entry) (pa : PhysAddr) : Prop :=
  valid e = true /\ page_or_table e = true /\ phys_addr e = pa.

Lemma table_entry_spec pa : page_pa pa -> points_to (table_entry pa) pa.
Proof.
  intros; unfold points_to, table_entry.
  by rewrite valid_page, valid_phys, page_with, phys_addr_page, phys_addr_with.
Qed.

(** ** Indices *)

Definition level_shift (l : Level) : Z :=
  match l with Level0 => 39 | Level1 => 30 | Level2 => 21 | Level3 => 12 end.

Lemma va_index_div va l : va_index va l = (va / 2 ^ level_shift l) mod 512.
Proof.
  destruct l; unfold va_index, level_shift; change 0x1ff with (2 ^ 9 - 1);
    by rewrite land_ones_mask, Z.shiftr_div_pow2 by lia.
Qed.

Lemma va_index_range va l : 0 <= va_index va l < 512.
Proof. rewrite va_index_div; by apply Z.mod_pos_bound. Qed.

Lemma lor_disjoint a b k : 0 <= k -> 0 <= b < 2 ^ k -> Z.lor (a * 2 ^ k) b = a * 2 ^ k + b.
Proof.
  intros Hk Hb; assert (Hd : Z.land (a * 2 ^ k) b = 0).
  { apply Z.bits_inj'; intros i Hi; rewrite Z.land_spec, Z.bits_0.
    destruct (Z.lt_ge_cases i k); [by rewrite Z.mul_pow2_bits_low|].
    rewrite <- (Z.mod_small b (2 ^ k)), Z.mod_pow2_bits_high by lia; apply andb_false_r. }
  by rewrite <- Z.lxor_lor, <- Z.add_nocarry_lxor.
Qed.

Lemma land_page_mask x hi : 12 <= hi -> Z.land x (2 ^ hi - 2 ^ 12) = (x mod 2 ^ hi) / 2 ^ 12 * 2 ^ 12.
Proof.
  intros Hhi; replace (2 ^ hi - 2 ^ 12) with (Z.shiftl (Z.ones (hi - 12)) 12).
  2:{ rewrite Z.shiftl_mul_pow2, Z.ones_equiv by lia.
      replace (2 ^ hi) with (2 ^ (hi - 12) * 2 ^ 12) by (rewrite <- Z.pow_add_r by lia; f_equal; lia); lia. }
  rewrite <- Z.shiftl_mul_pow2, <- Z.shiftr_div_pow2 by lia.
  apply Z.bits_inj'; intros i Hi; rewrite Z.land_spec, !Z.shiftl_spec by lia.
  destruct (Z.lt_ge_cases i 12).
  { by rewrite !(Z.testbit_neg_r _ (i - 12)), andb_false_r by lia. }
  rewrite Z.shiftr_spec by lia; replace (i - 12 + 12) with i by lia.
  destruct (Z.lt_ge_cases i hi).
  - by rewrite Z.ones_spec_low, andb_true_r, Z.mod_pow2_bits_low by lia.
  - by rewrite Z.ones_spec_high, andb_false_r, Z.mod_pow2_bits_high by lia.
Qed.

(** The four indices of a recursive table address: the slot once more than the
    levels still to go, then the indices of the address. *)
Definition recursive_base (t : RootPageTableType) : Z :=
  match t with User => 0 | Kernel => 0xffff * 2 ^ 48 end.

(** The index bits that end up in a recursive address, for a shift of [k]. *)
Lemma recursive_indices va k : 0 <= k ->
  Z.land (Z.shiftr (Z.land va 0xfffffffff000) k) 0xfffffffff000 =
    ((va mod 2 ^ 48) / 2 ^ 12 * 2 ^ 12 / 2 ^ k) mod 2 ^ 48 / 2 ^ 12 * 2 ^ 12.
Proof.
  intros; change 0xfffffffff000 with (2 ^ 48 - 2 ^ 12).
  by rewrite !land_page_mask, Z.shiftr_div_pow2 by lia.
Qed.

Ltac pow2s := change (2 ^ 48) with 281474976710656 in *; change (2 ^ 12) with 4096 in *;
  change (2 ^ 27) with 134217728 in *; change (2 ^ 18) with 262144 in *; change (2 ^ 9) with 512 in *;
  change (2 ^ 39) with 549755813888 in *; change (2 ^ 30) with 1073741824 in *;
  change (2 ^ 21) with 2097152 in *.

Lemma recursive_level1 t va : recursive_table_addr t va Level1 =
  recursive_base t + 511 * 2 ^ 39 + 511 * 2 ^ 30 + 511 * 2 ^ 21 + va_index va Level0 * 2 ^ 12.
Proof.
  unfold recursive_table_addr; rewrite recursive_indices, va_index_div by lia; cbn [level_shift].
  set (x := (va / 2 ^ 39) mod 512); assert (Hr : 0 <= x < 512) by (by apply Z.mod_pos_bound).
  replace (_ / 2 ^ 12 * 2 ^ 12) with (x * 2 ^ 12)
    by (unfold x; pow2s; Z.to_euclidean_division_equations; lia).
  destruct t.
  - replace (Z.lor 0 _) with ((511 * 2 ^ 18 + 511 * 2 ^ 9 + 511) * 2 ^ 21) by reflexivity.
    rewrite lor_disjoint by (pow2s; lia); unfold recursive_base; pow2s; lia.
  - replace (Z.lor 0xffff000000000000 _) with ((0xffff * 2 ^ 27 + 511 * 2 ^ 18 + 511 * 2 ^ 9 + 511) * 2 ^ 21)
      by reflexivity.
    rewrite lor_disjoint by (pow2s; lia); unfold recursive_base; pow2s; lia.
Qed.

Lemma recursive_level2 t va : recursive_table_addr t va Level2 =
  recursive_base t + 511 * 2 ^ 39 + 511 * 2 ^ 30 + va_index va Level0 * 2 ^ 21 + va_index va Level1 * 2 ^ 12.
Proof.
  unfold recursive_table_addr; rewrite recursive_indices, !va_index_div by lia; cbn [level_shift].
  set (x := (va / 2 ^ 39) mod 512); assert (Hr : 0 <= x < 512) by (by apply Z.mod_pos_bound).
  set (y := (va / 2 ^ 30) mod 512); assert (Hy : 0 <= y < 512) by (by apply Z.mod_pos_bound).
  replace (_ / 2 ^ 12 * 2 ^ 12) with (x * 2 ^ 21 + y * 2 ^ 12)
    by (unfold x, y; pow2s; Z.to_euclidean_division_equations; lia).
  destruct t.
  - replace (Z.lor 0 _) with ((511 * 2 ^ 9 + 511) * 2 ^ 30) by reflexivity.
    rewrite lor_disjoint by (pow2s; lia); unfold recursive_base; pow2s; lia.
  - replace (Z.lor 0xffff000000000000 _) with ((0xffff * 2 ^ 18 + 511 * 2 ^ 9 + 511) * 2 ^ 30)
      by reflexivity.
    rewrite lor_disjoint by (pow2s; lia); unfold recursive_base; pow2s; lia.
Qed.

Lemma recursive_level3 t va : recursive_table_addr t va Level3 =
  recursive_base t + 511 * 2 ^ 39 + va_index va Level0 * 2 ^ 30 + va_index va Level1 * 2 ^ 21 +
  va_index va Level2 * 2 ^ 12.
Proof.
  unfold recursive_table_addr; rewrite recursive_indices, !va_index_div by lia; cbn [level_shift].
  set (x := (va / 2 ^ 39) mod 512); assert (Hr : 0 <= x < 512) by (by apply Z.mod_pos_bound).
  set (y := (va / 2 ^ 30) mod 512); assert (Hy : 0 <= y < 512) by (by apply Z.mod_pos_bound).
  set (z := (va / 2 ^ 21) mod 512); assert (Hz : 0 <= z < 512) by (by apply Z.mod_pos_bound).
  replace (_ / 2 ^ 12 * 2 ^ 12) with (x * 2 ^ 30 + y * 2 ^ 21 + z * 2 ^ 12)
    by (unfold x, y, z; pow2s; Z.to_euclidean_division_equations; lia).
  destruct t.
  - replace (Z.lor 0 _) with (511 * 2 ^ 39) by reflexivity.
    rewrite lor_disjoint by (pow2s; lia); unfold recursive_base; pow2s; lia.
  - replace (Z.lor 0xffff000000000000 _) with ((0xffff * 2 ^ 9 + 511) * 2 ^ 39) by reflexivity.
    rewrite lor_disjoint by (pow2s; lia); unfold recursive_base; pow2s; lia.
Qed.

(** The indices of an address given by its four indices and offset. *)
Lemma va_index_join t a b c d o : 0 <= a < 512 -> 0 <= b < 512 -> 0 <= c < 512 -> 0 <= d < 512 ->
  0 <= o < 4096 ->
  let v := recursive_base t + a * 2 ^ 39 + b * 2 ^ 30 + c * 2 ^ 21 + d * 2 ^ 12 + o in
  va_index v Level0 = a /\ va_index v Level1 = b /\ va_index v Level2 = c /\ va_index v Level3 = d /\
  v mod 2 ^ 12 = o /\ Z.shiftr v 48 = match t with User => 0 | Kernel => 0xffff end.
Proof.
  intros; rewrite !va_index_div, Z.shiftr_div_pow2 by lia; cbn [level_shift]; subst v.
  destruct t; unfold recursive_base; pow2s; split_and!; Z.to_euclidean_division_equations; lia.
Qed.

(** ** Trees of tables

    A path is the list of indices from the root, the last one first; [walk]
    is the table a path leads to.  The recursive slot of the root is not part
    of the tree, and neither is that of any other table which has a pointer to
    itself there: the tables made before the MMU is on have one. *)

(** The paths of the tables below the root whose last slot is such a pointer. *)
Class Looped := looped : list Z -> bool.

Section trees.
Context {lp : Looped}.

Definition has_self (r : list Z) : bool := bool_decide (r = []) || looped r.

Definition step_ok (r : list Z) (j : Z) : bool :=
  (Z.of_nat (length r) <? 3) && (0 <=? j) && (j <? 512) && negb (has_self r && (j =? RECURSIVE_SLOT)).

Fixpoint walk (w : gmap Z Z) (T : PhysAddr) (p : list Z) : option PhysAddr :=
  match p with
  | [] => Some T
  | j :: r =>
      match walk w T r with
      | Some t =>
          let e := word w (t + 8 * j) in
          if step_ok r j && valid e && page_or_table e then Some (phys_addr e) else None
      | None => None
      end
  end.

Definition path (va : Z) (l : Level) : list Z :=
  match l with
  | Level0 => []
  | Level1 => [va_index va Level0]
  | Level2 => [va_index va Level1; va_index va Level0]
  | Level3 => [va_index va Level2; va_index va Level1; va_index va Level0]
  end.

(** The entry that decides the translation of an address, starting in a table
    of level [l]. *)
Definition leaf_in (w : gmap Z Z) (va : Z) (l : Level) (t : PhysAddr) (k : PhysAddr -> option Entry)
    : option Entry :=
  let e := word w (t + 8 * va_index va l) in
  if negb (valid e) then None else if negb (is_table e l) then Some e else k (phys_addr e).

Definition leaf_from (w : gmap Z Z) (va : Z) (l : Level) (t : PhysAddr) : option Entry :=
  let l3 := fun t => leaf_in w va Level3 t (fun _ => None) in
  let l2 := fun t => leaf_in w va Level2 t l3 in
  let l1 := fun t => leaf_in w va Level1 t l2 in
  match l with
  | Level0 => leaf_in w va Level0 t l1
  | Level1 => l1 t | Level2 => l2 t | Level3 => l3 t
  end.

Definition leaf (w : gmap Z Z) (T : PhysAddr) (va : Z) : option Entry := leaf_from w va Level0 T.

Record tree_ok (w : gmap Z Z) (T : PhysAddr) (U : PhysAddr -> Prop) : Prop := {
  tr_pages : forall p t, walk w T p = Some t -> page_pa t /\ U t;
  tr_inj : forall p q t, walk w T p = Some t -> walk w T q = Some t -> p = q;
  tr_self : points_to (word w (T + 8 * 511)) T;
}.

(** The way to an address does not lead through one of these pointers. *)
Definition mappable (va : Z) : Prop :=
  forall l, l <> Level3 -> has_self (path va l) = true -> va_index va l <> RECURSIVE_SLOT.

Lemma mappable_level0 va : mappable va -> va_index va Level0 <> RECURSIVE_SLOT.
Proof. intros Hm; by apply Hm. Qed.

(** The shape of the entries on the way to an address: no block at level 0, pages
    at level 3, and the access flag set where a walk ends. *)
Definition entry_formed (l : Level) (e : Entry) : Prop :=
  valid e = true ->
  match l with
  | Level0 => page_or_table e = true
  | Level3 => page_or_table e = true /\ accessed e = true
  | _ => page_or_table e = true \/ accessed e = true
  end.

Definition formed (w : gmap Z Z) (T : PhysAddr) : Prop :=
  forall va l t, mappable va -> walk w T (path va l) = Some t -> entry_formed l (word w (t + 8 * va_index va l)).

Lemma slot_inj t t' j j' : page_pa t -> page_pa t' -> 0 <= j < 512 -> 0 <= j' < 512 ->
  t + 8 * j = t' + 8 * j' -> t = t' /\ j = j'.
Proof. intros [_ H1] [_ H2] ???; Z.to_euclidean_division_equations; lia. Qed.

Lemma step_ok_range r j : step_ok r j = true -> 0 <= j < 512 /\ (length r < 3)%nat.
Proof. unfold step_ok; intros; bsplit; lia. Qed.

Lemma step_ok_path va l : l <> Level3 -> mappable va -> step_ok (path va l) (va_index va l) = true.
Proof.
  intros Hl Hm; pose proof (va_index_range va l); unfold step_ok.
  rewrite (proj2 (Z.leb_le _ _)), (proj2 (Z.ltb_lt _ 512)) by lia.
  replace (Z.of_nat _ <? 3) with true by (symmetry; by destruct l); cbn [andb].
  destruct (has_self (path va l)) eqn:E; [|done]; by rewrite (proj2 (Z.eqb_neq _ _) (Hm l Hl E)).
Qed.

Lemma path_next va l l' : next l = Some l' -> path va l' = va_index va l :: path va l.
Proof. by destruct l; intros [= <-]. Qed.

(** *** Changing words *)

Lemma word_insert w a v b : word (<[a := v]> w) b = if a =? b then v else word w b.
Proof.
  unfold word; destruct (Z.eqb_spec a b) as [->|]; [by rewrite lookup_insert_eq|by rewrite lookup_insert_ne].
Qed.

Lemma word_zero_words pa w b l :
  (forall j, j ∈ l -> pa + 8 * j <> b) /\ word (foldr (fun j w => <[pa + 8 * j := 0]> w) w l) b = word w b \/
  (exists j, j ∈ l /\ pa + 8 * j = b) /\ word (foldr (fun j w => <[pa + 8 * j := 0]> w) w l) b = 0.
Proof.
  induction l as [|j l IH]; cbn [foldr]; [left; split; [intros j Hj; inversion Hj|done]|].
  rewrite word_insert; destruct (Z.eqb_spec (pa + 8 * j) b) as [He|Hne].
  - right; split; [exists j; split; [left|done]|done].
  - destruct IH as [[Hn IH]|[(i & Hi & He) IH]]; [left|right]; (split; [|done]).
    + intros i Hi; apply elem_of_cons in Hi as [->|Hi]; auto.
    + exists i; split; [by right|done].
Qed.

Lemma zero_page_in pa w j : 0 <= j < 512 -> word (zero_page pa w) (pa + 8 * j) = 0.
Proof.
  intros Hj; unfold zero_page.
  destruct (word_zero_words pa w (pa + 8 * j) (seqZ 0 512)) as [[Hn _]|[_ ->]]; [|done].
  by destruct (Hn j); [apply elem_of_seqZ; lia|].
Qed.

Lemma zero_page_out pa w t j : page_pa pa -> page_pa t -> t <> pa -> 0 <= j < 512 ->
  word (zero_page pa w) (t + 8 * j) = word w (t + 8 * j).
Proof.
  intros Hpa Ht Hne Hj; unfold zero_page.
  destruct (word_zero_words pa w (t + 8 * j) (seqZ 0 512)) as [[_ ->]|[(i & Hi & E) _]]; [done|].
  apply elem_of_seqZ in Hi.
  destruct (slot_inj pa t i j) as [? _]; auto; try lia; congruence.
Qed.

(** A path depends only on the slots along it. *)
Lemma walk_agree w w' T p i :
  (forall r t j, walk w T r = Some t -> step_ok r j = true -> j :: r <> i :: p ->
     word w' (t + 8 * j) = word w (t + 8 * j)) ->
  forall q, ~ suffix (i :: p) q -> walk w' T q = walk w T q.
Proof.
  intros Hw q; induction q as [|j r IH]; intros Hs; [done|]; cbn [walk].
  rewrite IH by (intros [k ->]; apply Hs; by exists (j :: k)).
  destruct (walk w T r) as [t|] eqn:E; [|done].
  destruct (step_ok r j) eqn:Es; cbn [andb]; [|done].
  rewrite (Hw r t j); [done|done|done|]; intros Heq; apply Hs; rewrite Heq; by exists [].
Qed.

Lemma walk_agree_all w w' T :
  (forall r t j, walk w T r = Some t -> step_ok r j = true -> word w' (t + 8 * j) = word w (t + 8 * j)) ->
  forall q, walk w' T q = walk w T q.
Proof.
  intros Hw q; induction q as [|j r IH]; [done|]; cbn [walk]; rewrite IH.
  destruct (walk w T r) as [t|] eqn:E; [|done].
  destruct (step_ok r j) eqn:Es; cbn [andb]; [|done]; by rewrite (Hw r t j).
Qed.

Lemma walk_dead w T p i t k : walk w T p = Some t -> valid (word w (t + 8 * i)) = false ->
  walk w T (k ++ i :: p) = None.
Proof.
  intros Hp Hv; induction k as [|j k IH]; cbn [app walk]; [by rewrite Hp, Hv, andb_false_r|by rewrite IH].
Qed.

Lemma walk_shallow w T p t : walk w T p = Some t -> (length p <= 3)%nat.
Proof.
  destruct p as [|j r]; cbn [walk length]; [lia|]; destruct (walk w T r); [|done].
  destruct (step_ok r j) eqn:E; [|done]; apply step_ok_range in E; lia.
Qed.

Lemma leaf_walk w T va l t : mappable va -> walk w T (path va l) = Some t ->
  leaf w T va = leaf_from w va l t.
Proof.
  intros Hm; assert (Hstep : forall l l' t', next l = Some l' -> walk w T (path va l') = Some t' ->
    exists t, walk w T (path va l) = Some t /\ leaf_from w va l t = leaf_from w va l' t').
  { intros k k' t' Hn; rewrite (path_next va k k' Hn); cbn [walk].
    destruct (walk w T (path va k)) as [tk|]; [|done].
    rewrite step_ok_path by (destruct k; done); cbn [andb].
    destruct (valid _) eqn:Hv; cbn [andb]; [|done].
    destruct (page_or_table _) eqn:Hp; [|done]; intros [= <-].
    exists tk; split; [done|]; destruct k; try discriminate Hn; injection Hn as <-; cbn [leaf_from]; unfold leaf_in at 1, is_table;
      rewrite Hv, Hp; by cbn [negb andb bool_decide decide]. }
  destruct l; intros Hw.
  - by injection Hw as <-.
  - destruct (Hstep Level0 Level1 t eq_refl Hw) as (t0 & [= <-] & He); exact He.
  - destruct (Hstep Level1 Level2 t eq_refl Hw) as (t1 & H1 & <-).
    destruct (Hstep Level0 Level1 t1 eq_refl H1) as (t0 & [= <-] & He); exact He.
  - destruct (Hstep Level2 Level3 t eq_refl Hw) as (t2 & H2 & <-).
    destruct (Hstep Level1 Level2 t2 eq_refl H2) as (t1 & H1 & <-).
    destruct (Hstep Level0 Level1 t1 eq_refl H1) as (t0 & [= <-] & He); exact He.
Qed.

(** A translation depends only on the slots on its way. *)
Lemma leaf_agree w w' T va : mappable va ->
  (forall l t, walk w T (path va l) = Some t ->
     word w' (t + 8 * va_index va l) = word w (t + 8 * va_index va l)) ->
  leaf w' T va = leaf w T va.
Proof.
  intros Hm Hw; assert (Hin : forall l k k' t, walk w T (path va l) = Some t ->
    (forall l' t', next l = Some l' -> walk w T (path va l') = Some t' -> k' t' = k t') ->
    leaf_in w' va l t k' = leaf_in w va l t k).
  { intros l k k' t Ht Hk; unfold leaf_in; rewrite (Hw l t Ht).
    destruct (valid _) eqn:Hv; cbn [negb]; [|done].
    destruct (is_table _ l) eqn:Hi; cbn [negb]; [|done].
    unfold is_table in Hi; bsplit; destruct (next l) as [l'|] eqn:Hn; [|by destruct l].
    apply (Hk l' _ eq_refl); rewrite (path_next va l l' Hn); cbn [walk]; rewrite Ht.
    rewrite step_ok_path by (destruct l; done); cbn [andb].
    match goal with H : page_or_table _ = true |- _ => by rewrite Hv, H end. }
  unfold leaf, leaf_from; apply Hin; [done|]; intros l1 t1 [= <-] H1.
  apply Hin; [done|]; intros l2 t2 [= <-] H2; apply Hin; [done|]; intros l3 t3 [= <-] H3.
  apply Hin; [done|]; by intros ?? [=].
Qed.

(** *** Linking a new table *)

Section link.
Context (w w' : gmap Z Z) (T tt : PhysAddr) (U U' : PhysAddr -> Prop) (p : list Z) (i n : Z).
Context (Htree : tree_ok w T U) (Htt : walk w T p = Some tt) (Hstep : step_ok p i = true).
Context (Hinv : valid (word w (tt + 8 * i)) = false) (Hn : page_pa n) (Hfresh : ~ U n).
Context (HU : forall x, U' x <-> U x \/ x = n).
Context (Hdead : forall j, step_ok (i :: p) j = true -> valid (word w' (n + 8 * j)) = false).
Context (Hlink : points_to (word w' (tt + 8 * i)) n).
Context (Hsame : forall t j, page_pa t -> t <> n -> 0 <= j < 512 -> ~ (t = tt /\ j = i) ->
  word w' (t + 8 * j) = word w (t + 8 * j)).

Lemma link_slot r t j : walk w T r = Some t -> 0 <= j < 512 -> j :: r <> i :: p ->
  word w' (t + 8 * j) = word w (t + 8 * j).
Proof.
  intros Hr Hj Hne; destruct (tr_pages _ _ _ Htree r t Hr) as [Hp Hu].
  apply Hsame; auto; [congruence|]; intros [-> ->]; apply Hne; f_equal.
  by apply (tr_inj _ _ _ Htree r p tt).
Qed.

Lemma link_walk_old q : ~ suffix (i :: p) q -> walk w' T q = walk w T q.
Proof.
  apply walk_agree; intros r t j Hr Hs; apply step_ok_range in Hs as [Hj _]; by apply link_slot.
Qed.

Lemma link_not_suffix : ~ suffix (i :: p) p.
Proof. intros [k Hk]; apply (f_equal length) in Hk; rewrite length_app in Hk; simpl in Hk; lia. Qed.

Lemma link_walk_new : walk w' T (i :: p) = Some n.
Proof.
  cbn [walk]; rewrite (link_walk_old p link_not_suffix), Htt, Hstep.
  by destruct Hlink as (-> & -> & ->).
Qed.

Lemma link_walk_below k j : walk w' T (k ++ j :: i :: p) = None.
Proof.
  destruct (step_ok (i :: p) j) eqn:Hs.
  - apply (walk_dead _ _ _ _ n); [exact link_walk_new|by apply Hdead].
  - induction k as [|x k IH]; cbn [app]; [|cbn [walk]; by rewrite IH].
    change (walk w' T (j :: i :: p)) with
      (match walk w' T (i :: p) with
       | Some t => let e := word w' (t + 8 * j) in
                   if step_ok (i :: p) j && valid e && page_or_table e then Some (phys_addr e) else None
       | None => None end).
    by rewrite Hs; destruct (walk w' T (i :: p)).
Qed.

Lemma link_walk_cases q t : walk w' T q = Some t ->
  (walk w T q = Some t /\ ~ suffix (i :: p) q) \/ (q = i :: p /\ t = n).
Proof.
  intros Hq; destruct (decide (suffix (i :: p) q)) as [[k Hk]|Hs].
  - right; destruct k as [|x k _] using rev_ind; subst q.
    + cbn [app] in Hq; rewrite link_walk_new in Hq; split; [done|congruence].
    + rewrite <- app_assoc in Hq; cbn [app] in Hq; by rewrite link_walk_below in Hq.
  - left; by rewrite <- link_walk_old.
Qed.

Lemma link_tree : tree_ok w' T U'.
Proof.
  split.
  - intros q t [[Hq _]|[_ ->]]%link_walk_cases.
    + destruct (tr_pages _ _ _ Htree q t Hq); rewrite HU; auto.
    + rewrite HU; auto.
  - intros q1 q2 t [[H1 _]|[-> ->]]%link_walk_cases [[H2 _]|[-> ?]]%link_walk_cases.
    + by apply (tr_inj _ _ _ Htree q1 q2 t).
    + subst t; by destruct Hfresh; apply (tr_pages _ _ _ Htree q1).
    + by destruct Hfresh; apply (tr_pages _ _ _ Htree q2).
    + done.
  - rewrite (link_slot [] T 511); [apply (tr_self _ _ _ Htree)|done|lia|].
    intros [= <- <-]; by unfold step_ok in Hstep.
Qed.

(** No translation changes, if the new table has no entry for it: those through
    the slot had no entry and still have none. *)
Lemma link_leaf va : mappable va ->
  (forall l, path va l = i :: p -> valid (word w' (n + 8 * va_index va l)) = false) ->
  leaf w' T va = leaf w T va.
Proof.
  intros Hm Hno; destruct (decide (Exists (fun l => va_index va l :: path va l = i :: p) [Level0; Level1; Level2]))
    as [Hl|Hl].
  - apply Exists_exists in Hl as (l & Hl & [= Hi Hp]).
    destruct (next l) as [l'|] eqn:Hnx; [clear Hl|by destruct l; set_solver].
    rewrite (leaf_walk w T va l tt Hm) by (by rewrite Hp).
    assert (Hpl : path va l' = i :: p) by (by rewrite (path_next va l l' Hnx), Hi, Hp).
    rewrite (leaf_walk w' T va l' n Hm) by (rewrite Hpl; exact link_walk_new).
    pose proof (Hno l' Hpl) as Hz.
    assert (Hd : valid (word w (tt + 8 * va_index va l)) = false) by (by rewrite Hi).
    transitivity (@None Entry); [|symmetry]; [destruct l'|destruct l]; cbn [leaf_from];
      unfold leaf_in at 1; (rewrite Hz || rewrite Hd); reflexivity.
  - apply leaf_agree; [done|]; intros l t Ht.
    apply (link_slot (path va l)); [done|apply va_index_range|]; intros Heq; apply Hl.
    apply Exists_exists; exists l; split; [|done]; destruct l; [left|right; left|right; right; left|].
    pose proof (step_ok_range _ _ Hstep) as [_ Hlt].
    apply (f_equal length) in Heq; simpl in Heq; lia.
Qed.

Lemma link_formed : (forall j, 0 <= j < 512 -> valid (word w' (n + 8 * j)) = false) -> formed w T -> formed w' T.
Proof.
  intros Hno Hf va l t Hm Hw; destruct (link_walk_cases _ _ Hw) as [[Ho Hs]|[Hp ->]].
  2:{ intros Hv; by rewrite Hno in Hv by apply va_index_range. }
  destruct (decide (va_index va l :: path va l = i :: p)) as [[= Hi Hp]|Hne].
  - rewrite Hi; rewrite Hp, Htt in Ho; injection Ho as <-; destruct Hlink as (_ & Hpt & _); intros _.
    pose proof (step_ok_range _ _ Hstep) as [_ Hlt]; rewrite <- Hp in Hlt; destruct l; [done|by left|by left|simpl in Hlt; lia].
  - rewrite (link_slot (path va l)); [by apply Hf|done|apply va_index_range|done].
Qed.
End link.

(** *** Writing a leaf *)

(** The part of the address space that an entry of level [l] decides. *)
Definition same_block (l : Level) (va1 va2 : Z) : Prop :=
  forall l', depth l' <= depth l -> va_index va1 l' = va_index va2 l'.

(** The same page: equal indices on all levels. *)
Definition same_page (va1 va2 : Z) : Prop := forall l, va_index va1 l = va_index va2 l.

Lemma same_page_block va1 va2 : same_page va1 va2 <-> same_block Level3 va1 va2.
Proof. split; intros Hs l; [intros _; apply Hs|apply Hs; by destruct l]. Qed.

Lemma same_block_path l va1 va2 : same_block l va1 va2 -> path va1 l = path va2 l /\ va_index va1 l = va_index va2 l.
Proof.
  intros H; split; [|by apply H].
  destruct l; cbn [path]; [done|..]; rewrite ?(H Level0), ?(H Level1), ?(H Level2) by done; done.
Qed.

Section write_leaf.
Context (w w' : gmap Z Z) (T t3 : PhysAddr) (U : PhysAddr -> Prop) (va : Z) (l : Level) (e : Entry).
Context (Htree : tree_ok w T U) (Hm : mappable va) (H3 : walk w T (path va l) = Some t3).
Context (Hold : l <> Level3 -> let o := word w (t3 + 8 * va_index va l) in valid o && page_or_table o = false).
Context (Hnew : is_table e l = false).
Context (Hw : w' = <[t3 + 8 * va_index va l := e]> w).

Lemma write_slot t j : page_pa t -> 0 <= j < 512 -> ~ (t = t3 /\ j = va_index va l) ->
  word w' (t + 8 * j) = word w (t + 8 * j).
Proof.
  intros Ht Hj Hne; rewrite Hw, word_insert; destruct (Z.eqb_spec (t3 + 8 * va_index va l) (t + 8 * j)) as [He|];
    [|done].
  destruct (tr_pages _ _ _ Htree _ _ H3) as [Hp3 _].
  destruct Hne; by destruct (slot_inj t3 t (va_index va l) j Hp3 Ht (va_index_range _ _) Hj He).
Qed.

Lemma write_walk q : walk w' T q = walk w T q.
Proof.
  induction q as [|j r IH]; [done|]; cbn [walk]; rewrite IH.
  destruct (walk w T r) as [t|] eqn:Hr; [|done].
  destruct (step_ok r j) eqn:Hs; cbn [andb]; [|done].
  destruct (tr_pages _ _ _ Htree r t Hr) as [Hp _]; pose proof (step_ok_range _ _ Hs) as [Hj Hlen].
  destruct (decide (t = t3 /\ j = va_index va l)) as [[-> ->]|Hne]; [|by rewrite (write_slot t j)].
  pose proof (tr_inj _ _ _ Htree _ _ _ Hr H3) as ->; cbn zeta in Hold; rewrite Hold by (intros ->; simpl in Hlen; lia).
  rewrite Hw, word_insert, Z.eqb_refl; unfold is_table in Hnew.
  destruct l; [..|simpl in Hlen; lia]; rewrite bool_decide_false, andb_true_r in Hnew by done; by rewrite Hnew, andb_false_r.
Qed.

Lemma write_tree : tree_ok w' T U.
Proof.
  split.
  - intros q t; rewrite write_walk; apply (tr_pages _ _ _ Htree).
  - intros q1 q2 t; rewrite !write_walk; apply (tr_inj _ _ _ Htree).
  - destruct (tr_pages _ _ _ Htree [] T eq_refl) as [HT _].
    rewrite write_slot; [apply (tr_self _ _ _ Htree)|done|lia|]; intros [<- Hi].
    pose proof (tr_inj _ _ _ Htree [] _ _ eq_refl H3) as Hp.
    destruct l; try discriminate Hp; by apply (mappable_level0 va Hm).
Qed.

Lemma write_leaf_same va' : mappable va' -> same_block l va va' -> valid e = true -> leaf w' T va' = Some e.
Proof.
  intros Hm' Hs He; destruct (same_block_path l va va' Hs) as [Hpe Hie].
  rewrite (leaf_walk w' T va' l t3); [|done|rewrite write_walk, <- Hpe; exact H3].
  assert (Hx : word w' (t3 + 8 * va_index va' l) = e) by (by rewrite <- Hie, Hw, word_insert, Z.eqb_refl).
  destruct l; cbn [leaf_from]; unfold leaf_in at 1; by rewrite Hx, He, Hnew.
Qed.

Lemma write_leaf_other va' : mappable va' -> ~ same_block l va va' -> leaf w' T va' = leaf w T va'.
Proof.
  clear Hm Hold Hnew; intros Hm' Hne; apply leaf_agree; [done|]; intros k t Ht.
  destruct (tr_pages _ _ _ Htree _ _ Ht) as [Hp _].
  apply write_slot; [done|apply va_index_range|]; intros [-> Hi].
  pose proof (tr_inj _ _ _ Htree _ _ _ Ht H3) as Heq; apply Hne.
  assert (k = l) as -> by (destruct k, l; try done; apply (f_equal length) in Heq; simpl in Heq; lia).
  intros k Hk; destruct l, k; cbn [depth path] in *; try lia; congruence.
Qed.

Lemma write_formed : entry_formed l e -> formed w T -> formed w' T.
Proof using Htree Hm H3 Hold Hnew Hw.
  intros He Hf v k t Hv; rewrite write_walk; intros Ht; destruct (tr_pages _ _ _ Htree _ _ Ht) as [Hp _].
  destruct (decide (t = t3 /\ va_index v k = va_index va l)) as [[-> Hi]|Hne].
  - rewrite Hi, Hw, word_insert, Z.eqb_refl; pose proof (tr_inj _ _ _ Htree _ _ _ Ht H3) as Heq.
    assert (k = l) as -> by (destruct k, l; try done; apply (f_equal length) in Heq; simpl in Heq; lia); done.
  - rewrite write_slot; [by apply Hf|done|apply va_index_range|done].
Qed.
End write_leaf.

(** A level-3 slot never leads on. *)
Lemma page_no_table e : is_table e Level3 = false.
Proof. unfold is_table; by rewrite bool_decide_true, andb_false_r. Qed.

Lemma page_walk w w' T t3 U va e : tree_ok w T U -> walk w T (path va Level3) = Some t3 ->
  w' = <[t3 + 8 * va_index va Level3 := e]> w -> forall q, walk w' T q = walk w T q.
Proof. intros Htr H3 Hw; apply (write_walk w w' T t3 U va Level3 e Htr H3); auto using page_no_table; done. Qed.
End trees.

(** ** Reaching tables through the recursive slot *)

Section reach.
Context {P : Type} {lp : Looped}.
Implicit Types m : Mem P.

Definition live_root (m : Mem P) (t : RootPageTableType) : PhysAddr :=
  match t with User => ttbr0_el1 m | Kernel => ttbr1_el1 m end.

Lemma kzero_ptr T : page_pa T -> physaddr_as_ptr_mut_offset_from_kzero T = T + KZERO.
Proof.
  intros [H _]; unfold physaddr_as_ptr_mut_offset_from_kzero, wrapping_add; apply Z.mod_small.
  unfold KZERO; rewrite W64_val; lia.
Qed.

Lemma from_virt_kzero T : page_pa T -> from_virt_to_physaddr (T + KZERO) = Ok T.
Proof.
  intros [H _]; unfold from_virt_to_physaddr; rewrite (proj2 (Z.leb_le _ _)) by lia; cbn [assert mbind res_bind].
  rewrite usub_ok by lia; f_equal; lia.
Qed.

(** The offset mapping. *)
Lemma mmu_kzero m T j : page_pa T -> 0 <= j < 512 -> mmu m (T + KZERO + 8 * j) = Some (T + 8 * j).
Proof.
  intros [H _] Hj; unfold mmu; rewrite Z.shiftr_div_pow2 by lia.
  replace ((T + KZERO + 8 * j) / 2 ^ 48) with 0xffff
    by (unfold KZERO; Z.to_euclidean_division_equations; lia); cbn [Z.eqb Pos.eqb].
  rewrite (proj2 (Z.eqb_neq (va_index _ _) _)).
  - rewrite (proj2 (Z.leb_le _ _)) by lia; f_equal; lia.
  - rewrite va_index_div; unfold level_shift, KZERO, RECURSIVE_SLOT.
    Z.to_euclidean_division_equations; lia.
Qed.

(** The hardware walk of an address with recursive indices. *)
Lemma mmu_recursive m t a b c d o : 0 <= a < 512 -> 0 <= b < 512 -> 0 <= c < 512 -> 0 <= d < 512 ->
  0 <= o < 4096 -> a = 511 ->
  mmu m (recursive_base t + a * 2 ^ 39 + b * 2 ^ 30 + c * 2 ^ 21 + d * 2 ^ 12 + o) =
    hw_walk (words m) (live_root m t) (recursive_base t + a * 2 ^ 39 + b * 2 ^ 30 + c * 2 ^ 21 + d * 2 ^ 12 + o).
Proof.
  intros Ha Hb Hc Hd Ho H; unfold mmu.
  destruct (va_index_join t a b c d o) as (-> & _ & _ & _ & _ & ->); auto.
  destruct t; [done|]; by rewrite H.
Qed.

Lemma hw_walk_pages w R t a b c d o t1 t2 t3 pa :
  0 <= a < 512 -> 0 <= b < 512 -> 0 <= c < 512 -> 0 <= d < 512 -> 0 <= o < 4096 ->
  let e0 := word w (R + 8 * a) in let e1 := word w (t1 + 8 * b) in
  let e2 := word w (t2 + 8 * c) in let e3 := word w (t3 + 8 * d) in
  (valid e0 && page_or_table e0 = true /\ phys_addr e0 = t1) ->
  (valid e1 && page_or_table e1 = true /\ phys_addr e1 = t2) ->
  (valid e2 && page_or_table e2 = true /\ phys_addr e2 = t3) ->
  (valid e3 && page_or_table e3 = true /\ phys_addr e3 = pa) ->
  hw_walk w R (recursive_base t + a * 2 ^ 39 + b * 2 ^ 30 + c * 2 ^ 21 + d * 2 ^ 12 + o) = Some (pa + o).
Proof.
  intros Ha Hb Hc Hd Ho e0 e1 e2 e3 [H0 H0'] [H1 H1'] [H2 H2'] [H3 H3']; unfold hw_walk.
  destruct (va_index_join t a b c d o) as (-> & -> & -> & -> & -> & _); auto.
  fold e0; rewrite H0, H0'; cbn [negb]; fold e1; apply andb_prop in H1 as [-> ->]; rewrite H1'; cbn [negb].
  fold e2; apply andb_prop in H2 as [-> ->]; rewrite H2'; cbn [negb]; fold e3; by rewrite H3, H3'.
Qed.

(** What lets the kernel reach the tables below [T] while the root [R] is live. *)
Record hooked (w : gmap Z Z) (R T : PhysAddr) : Prop := {
  hk_live : points_to (word w (R + 8 * 511)) T;
  hk_self : points_to (word w (T + 8 * 511)) T;
  hk_page : page_pa T;
}.

Lemma walk_last w T j r pa : walk w T (j :: r) = Some pa ->
  exists t, walk w T r = Some t /\ valid (word w (t + 8 * j)) && page_or_table (word w (t + 8 * j)) = true /\
    phys_addr (word w (t + 8 * j)) = pa.
Proof.
  cbn [walk]; destruct (walk w T r) as [t|]; [|done]; destruct (step_ok r j); cbn [andb]; [|done].
  destruct (valid _ && _) eqn:E; [|done]; intros [= <-]; eauto.
Qed.

(** The table on the path of an address is where its recursive address leads. *)
Lemma mmu_table m t T va l pa j : hooked (words m) (live_root m t) T -> l <> Level0 ->
  walk (words m) T (path va l) = Some pa -> 0 <= j < 512 ->
  mmu m (recursive_table_addr t va l + 8 * j) = Some (pa + 8 * j).
Proof.
  intros [(Hl1 & Hl2 & Hl3) (Hs1 & Hs2 & Hs3) HT] Hl0 Hw Hj.
  pose proof (va_index_range va Level0); pose proof (va_index_range va Level1); pose proof (va_index_range va Level2).
  assert (Hl : let e := word (words m) (live_root m t + 8 * 511) in valid e && page_or_table e = true /\ phys_addr e = T)
    by (cbn; by rewrite Hl1, Hl2, Hl3).
  assert (Hs : let e := word (words m) (T + 8 * 511) in valid e && page_or_table e = true /\ phys_addr e = T)
    by (cbn; by rewrite Hs1, Hs2, Hs3).
  destruct l; [done|rewrite recursive_level1|rewrite recursive_level2|rewrite recursive_level3];
    rewrite mmu_recursive by lia; cbn [path] in Hw.
  - apply walk_last in Hw as (t0 & [= <-] & Hw).
    apply (hw_walk_pages _ _ _ _ _ _ _ _ T T T); auto; lia.
  - apply walk_last in Hw as (t1 & Hw & Hw1); apply walk_last in Hw as (t0 & [= <-] & Hw).
    apply (hw_walk_pages _ _ _ _ _ _ _ _ T T t1); auto; lia.
  - apply walk_last in Hw as (t2 & Hw & Hw2); apply walk_last in Hw as (t1 & Hw & Hw1).
    apply walk_last in Hw as (t0 & [= <-] & Hw).
    apply (hw_walk_pages _ _ _ _ _ _ _ _ T t1 t2); auto; lia.
Qed.
End reach.

(** ** Specifications of the editor *)

(** What the editor relies on: the allocator hands out page-aligned pages that
    were not in use, and records them. *)
Class AllocLaws (P : Type) `{!PageAllocator P} (alloc_inv : P -> Prop) : Prop := {
  alloc_spec p : alloc_inv p -> exists r p', alloc_physpage p = Ok (r, p') /\ alloc_inv p' /\
    match r with
    | Val pa => page_pa pa /\ ~ in_use p pa /\ forall x, in_use p' x <-> in_use p x \/ x = pa
    | Err _ => forall x, in_use p' x <-> in_use p x
    end;
}.

Section editor_proofs.
Context {P : Type} {lp : Looped} `{!PageAllocator P} (alloc_inv : P -> Prop) `{!AllocLaws P alloc_inv}.
Implicit Types m : Mem P.

(** The tree under the root [T] is well formed, its pages are in use, and the
    live root, which is [T] or no table of that tree, is hooked to it. *)
Record state_ok (m : Mem P) (t : RootPageTableType) (T : PhysAddr) : Prop := {
  so_tree : tree_ok (words m) T (in_use (pages m));
  so_alloc : alloc_inv (pages m);
  so_hook : hooked (words m) (live_root m t) T;
  so_root : page_pa (live_root m t) /\ in_use (pages m) (live_root m t);
  so_apart : live_root m t = T \/ forall p, walk (words m) T p <> Some (live_root m t);
}.

(** Pages in use that are no tables of the tree keep their contents and stay
    outside the tree. *)
Definition outside (m m' : Mem P) (T : PhysAddr) : Prop :=
  forall x, in_use (pages m) x -> page_pa x -> (forall p, walk (words m) T p <> Some x) ->
    (forall p, walk (words m') T p <> Some x) /\
    forall j, 0 <= j < 512 -> word (words m') (x + 8 * j) = word (words m) (x + 8 * j).

Record progress (m m' : Mem P) (T : PhysAddr) : Prop := {
  pg_ttbr0 : ttbr0_el1 m' = ttbr0_el1 m;
  pg_ttbr1 : ttbr1_el1 m' = ttbr1_el1 m;
  pg_use : forall x, in_use (pages m) x -> in_use (pages m') x;
  pg_out : outside m m' T;
  pg_leaf : forall va, mappable va -> leaf (words m') T va = leaf (words m) T va;
  pg_formed : formed (words m) T -> formed (words m') T;
}.

Lemma progress_refl m T : progress m m T.
Proof. split; auto; intros x ???; auto. Qed.

Lemma progress_trans m1 m2 m3 T : progress m1 m2 T -> progress m2 m3 T -> progress m1 m3 T.
Proof.
  intros [A1 A2 A3 A4 A5 A6] [B1 B2 B3 B4 B5 B6]; split; try congruence; auto.
  - intros x Hu Hp Hn; destruct (A4 x Hu Hp Hn) as [Hn' Hw]; destruct (B4 x (A3 x Hu) Hp Hn') as [Hn'' Hw'].
    split; [done|]; intros j Hj; by rewrite Hw', Hw.
  - intros va Hm; by rewrite B5, A5.
Qed.

Lemma live_progress m m' T t : progress m m' T -> live_root m' t = live_root m t.
Proof. intros [H0 H1 _ _ _ _]; by destruct t. Qed.

Lemma read_word_at m va pa : mmu m va = Some pa -> read_word m va = Ok (word (words m) pa).
Proof. intros H; unfold read_word, deref; by rewrite H. Qed.

Lemma write_word_at m va pa v : mmu m va = Some pa ->
  write_word m va v = Ok (with_words m (<[pa := v]> (words m))).
Proof. intros H; unfold write_word, deref; by rewrite H. Qed.

(** The slot of a missing table on the path of a mappable address is neither
    the hook of the live root nor the self-pointer. *)
Lemma slot_not_hook m t T va l tt x : state_ok m t T -> mappable va ->
  walk (words m) T (path va l) = Some tt -> x = live_root m t \/ x = T ->
  ~ (x = tt /\ 511 = va_index va l).
Proof.
  intros Hok Hm Hw Hx [-> Hi]; pose proof (so_tree _ _ _ Hok) as Htr.
  assert (tt = T) as ->.
  { destruct Hx as [->| ->]; [|done]; destruct (so_apart _ _ _ Hok) as [He|Hne]; [done|].
    by destruct (Hne (path va l)). }
  pose proof (tr_inj _ _ _ Htr _ [] T Hw eq_refl) as Hnil.
  destruct l; [|discriminate Hnil..]; by apply (mappable_level0 va Hm).
Qed.

Section new_table.
Context (m : Mem P) (t : RootPageTableType) (T tt : PhysAddr) (va : Z) (l nl : Level) (n : Z) (p1 : P).
Context (Hok : state_ok m t T) (Hm : mappable va) (Hnl : next l = Some nl).
Context (Hw : walk (words m) T (path va l) = Some tt).
Context (Hinv : valid (word (words m) (tt + 8 * va_index va l)) = false).
Context (Hn : page_pa n) (Hfresh : ~ in_use (pages m) n) (Hp1 : alloc_inv p1).
Context (HU : forall x, in_use p1 x <-> in_use (pages m) x \/ x = n).

Let i := va_index va l.
Let w2 := <[tt + 8 * i := table_entry n]> (words m).
Let m2 := with_words (with_pages m p1) w2.
Let m3 := with_words m2 (zero_page n w2).

Lemma nt_pages : page_pa tt /\ in_use (pages m) tt.
Proof. by apply (tr_pages _ _ _ (so_tree _ _ _ Hok) _ _ Hw). Qed.

Lemma nt_step : step_ok (path va l) i = true.
Proof. apply step_ok_path; [by destruct l|done]. Qed.

Lemma nt_same2 x j : page_pa x -> 0 <= j < 512 -> ~ (x = tt /\ j = i) ->
  word w2 (x + 8 * j) = word (words m) (x + 8 * j).
Proof.
  intros Hx Hj Hne; unfold w2; rewrite word_insert; destruct (Z.eqb_spec (tt + 8 * i) (x + 8 * j)) as [He|]; [|done].
  destruct nt_pages as [Hp _]; destruct Hne.
  by destruct (slot_inj tt x i j Hp Hx (va_index_range va l) Hj He).
Qed.

Lemma nt_same3 x j : page_pa x -> x <> n -> 0 <= j < 512 -> ~ (x = tt /\ j = i) ->
  word (zero_page n w2) (x + 8 * j) = word (words m) (x + 8 * j).
Proof. intros; rewrite zero_page_out by done; by apply nt_same2. Qed.

Lemma nt_link3 : points_to (word (zero_page n w2) (tt + 8 * i)) n.
Proof.
  destruct nt_pages as [Hp Hu].
  rewrite zero_page_out; [|done|done|congruence|apply va_index_range].
  unfold w2; rewrite word_insert, Z.eqb_refl; by apply table_entry_spec.
Qed.

Lemma nt_hook w' : (forall x j, page_pa x -> x <> n -> 0 <= j < 512 -> ~ (x = tt /\ j = i) ->
    word w' (x + 8 * j) = word (words m) (x + 8 * j)) -> hooked w' (live_root m t) T.
Proof.
  intros Hs; destruct (so_hook _ _ _ Hok) as [Hl Hself HT]; destruct (so_root _ _ _ Hok) as [Hr Hur].
  destruct (tr_pages _ _ _ (so_tree _ _ _ Hok) [] T eq_refl) as [_ HuT].
  split; [rewrite Hs; auto; try lia; try congruence|rewrite Hs; auto; try lia; try congruence|done].
  - apply (slot_not_hook m t T va l tt _ Hok Hm Hw); auto.
  - apply (slot_not_hook m t T va l tt _ Hok Hm Hw); auto.
Qed.

Lemma nt_reach : mmu m2 (recursive_table_addr t va nl) = Some n.
Proof.
  rewrite <- (Z.add_0_r (recursive_table_addr _ _ _)), <- (Z.add_0_r n); change 0 with (8 * 0).
  apply (mmu_table m2 t T); [|by destruct l, nl| |lia].
  - apply nt_hook; intros; by apply nt_same2.
  - rewrite (path_next va l nl Hnl).
    apply (link_walk_new (words m) w2 T tt (in_use (pages m)) (path va l) i n (so_tree _ _ _ Hok) Hw nt_step Hfresh).
    + unfold w2; rewrite word_insert, Z.eqb_refl; by apply table_entry_spec.
    + intros; by apply nt_same2.
Qed.

Lemma nt_state : state_ok m3 t T /\ progress m m3 T /\ walk (words m3) T (path va nl) = Some n.
Proof.
  pose proof (so_tree _ _ _ Hok) as Htr.
  assert (Hno : forall j, 0 <= j < 512 -> valid (word (zero_page n w2) (n + 8 * j)) = false)
    by (intros j Hj; by rewrite zero_page_in).
  assert (Hdead : forall j, step_ok (i :: path va l) j = true -> valid (word (zero_page n w2) (n + 8 * j)) = false)
    by (intros j Hj; apply Hno, (step_ok_range _ _ Hj)).
  assert (Hcases := link_walk_cases (words m) (zero_page n w2) T tt _ (path va l) i n Htr Hw nt_step Hfresh
    Hdead nt_link3 nt_same3).
  assert (Hout : forall x, in_use (pages m) x -> (forall p, walk (words m) T p <> Some x) ->
    forall p, walk (zero_page n w2) T p <> Some x).
  { intros x Hx Hnx p Hp; apply Hcases in Hp as [[Hp _]|[_ ->]]; [by apply (Hnx p)|done]. }
  split_and!.
  - pose proof (so_root _ _ _ Hok) as [Hr Hur]; pose proof (so_apart _ _ _ Hok) as Hap; split; cbn [m3 m2 words pages with_words with_pages].
    + exact (link_tree (words m) (zero_page n w2) T tt _ _ (path va l) i n Htr Hw nt_step Hinv Hn Hfresh HU
        Hdead nt_link3 nt_same3).
    + done.
    + apply nt_hook, nt_same3.
    + split; [done|]; apply HU; auto.
    + destruct Hap as [He|Hne]; [by left|right]; intros p; by apply Hout.
  - split; cbn [m3 m2 words pages ttbr0_el1 ttbr1_el1 with_words with_pages]; auto.
    + intros x Hx; apply HU; auto.
    + intros x Hx Hpx Hnx; split; [intros p; by apply Hout|]; intros j Hj.
      apply nt_same3; auto; [congruence|]; intros [-> _]; by apply (Hnx (path va l)).
    + intros va' Hm'.
      exact (link_leaf (words m) (zero_page n w2) T tt _ (path va l) i n Htr Hw nt_step Hinv Hfresh
        Hdead nt_link3 nt_same3 va' Hm' (fun k _ => Hno _ (va_index_range va' k))).
    + exact (link_formed (words m) (zero_page n w2) T tt _ (path va l) i n Htr Hw nt_step Hfresh
        Hdead nt_link3 nt_same3 Hno).
  - cbn [m3 m2 words with_words with_pages]; rewrite (path_next va l nl Hnl).
    by apply (link_walk_new (words m) (zero_page n w2) T tt (in_use (pages m)) (path va l) i n Htr Hw nt_step Hfresh
      nt_link3 nt_same3).
Qed.
End new_table.

(** [next_mut] finds or creates the next table on the path. *)
Lemma next_mut_spec m t T tt tbl va l nl : state_ok m t T -> mappable va -> next l = Some nl ->
  walk (words m) T (path va l) = Some tt ->
  (forall j, 0 <= j < 512 -> mmu m (tbl + 8 * j) = Some (tt + 8 * j)) ->
  exists r m', next_mut m tbl t l va = Ok (r, m') /\ state_ok m' t T /\ progress m m' T /\
    match r with
    | Val nva => nva = recursive_table_addr t va nl /\ is_Some (walk (words m') T (path va nl))
    | Err _ => True
    end.
Proof.
  intros Hok Hm Hnl Hw Hmmu; unfold next_mut.
  replace (bool_decide (l = Level0) && _) with false.
  2:{ case_bool_decide as Hl; [|done]; subst l; symmetry; apply Z.eqb_neq, mappable_level0, Hm. }
  rewrite (read_word_at m _ _ (Hmmu _ (va_index_range va l))); cbn [mbind res_bind].
  set (e := word (words m) (tt + 8 * va_index va l)).
  destruct (valid e) eqn:Hv; cbn [andb].
  - destruct (is_table e l) eqn:Hi; cbn [negb].
    + rewrite Hnl; cbn [unwrap mbind res_bind]; exists (Val (recursive_table_addr t va nl)), m.
      split_and!; auto using progress_refl; rewrite (path_next va l nl Hnl); cbn [walk].
      unfold is_table in Hi; apply andb_prop in Hi as [Hp _].
      rewrite Hw, step_ok_path by (done || by destruct l); fold e; by rewrite Hv, Hp.
    + exists (Err EntryIsNotTable), m; auto using progress_refl.
  - destruct (alloc_spec (pages m) (so_alloc _ _ _ Hok)) as (r & p1 & -> & Hp1 & Hr); cbn [mbind res_bind].
    destruct r as [n|er].
    + destruct Hr as (Hn & Hfresh & HU).
      unfold write_entry; rewrite (write_word_at (with_pages m p1) _ _ _ (Hmmu _ (va_index_range va l))).
      cbn [mbind res_bind]; rewrite Hnl; cbn [unwrap mbind res_bind]; unfold resolve_entry_mut.
      pose proof (nt_reach m t T tt va l nl n p1 Hok Hm Hnl Hw Hv Hn Hfresh) as Hreach.
      unfold clear, deref; unfold table_entry in Hreach; change (words (with_pages m p1)) with (words m).
      replace (mmu _ _) with (Some n) by (symmetry; exact Hreach); cbn [unwrap mbind res_bind].
      destruct (nt_state m t T tt va l nl n p1 Hok Hm Hnl Hw Hv Hn Hfresh Hp1 HU) as (H1 & H2 & H3).
      eexists (Val _), _; split; [reflexivity|]; split_and!; [exact H1|exact H2|done|by eexists].
    + exists (Err (AllocationFailed er)), (with_pages m p1); split; [done|]; split_and!; auto.
      * destruct Hok as [[H1 H2 H3] ? ? [? ?] ?]; split; auto; [|split; [done|by apply Hr]].
        split; auto; intros p x Hx; destruct (H1 p x Hx); split; [done|by apply Hr].
      * split; auto; [intros x; apply Hr|intros x ???; auto].
Qed.

Lemma and_then_step (x : res (result Z PageTableError * Mem P)) r m f :
  x = Ok (r, m) -> and_then x f = match r with Val t => f t m | Err e => Ok (Err e, m) end.
Proof. by intros ->. Qed.

(** The walk to the level-3 slot of a mappable address. *)
Lemma walk_to_spec m t T va : state_ok m t T -> mappable va ->
  exists r m', walk_to m (T + KZERO) va Page4K t = Ok (r, m') /\ state_ok m' t T /\ progress m m' T /\
    match r with
    | Val dest => exists t3, walk (words m') T (path va Level3) = Some t3 /\
        dest = recursive_table_addr t va Level3 + 8 * va_index va Level3
    | Err _ => True
    end.
Proof.
  intros Hok Hm; unfold walk_to; pose proof (hk_page _ _ _ (so_hook _ _ _ Hok)) as HT.
  destruct (next_mut_spec m t T T (T + KZERO) va Level0 Level1 Hok Hm eq_refl eq_refl)
    as (r1 & m1 & E1 & Hok1 & Hp1 & H1); [intros; by apply mmu_kzero|].
  rewrite (and_then_step (next_mut m _ _ _ _) _ _ _ E1); destruct r1 as [nva1|er].
  2:{ exists (Err er), m1; done. }
  destruct H1 as [-> [t1 H1]].
  destruct (next_mut_spec m1 t T t1 (recursive_table_addr t va Level1) va Level1 Level2 Hok1 Hm eq_refl H1)
    as (r2 & m2 & E2 & Hok2 & Hp2 & H2).
  { intros; apply (mmu_table m1 t T); auto; apply Hok1. }
  rewrite (and_then_step (next_mut m1 _ _ _ _) _ _ _ E2).
  pose proof (progress_trans _ _ _ _ Hp1 Hp2) as Hp12; destruct r2 as [nva2|er].
  2:{ exists (Err er), m2; done. }
  destruct H2 as [-> [t2 H2]].
  destruct (next_mut_spec m2 t T t2 (recursive_table_addr t va Level2) va Level2 Level3 Hok2 Hm eq_refl H2)
    as (r3 & m3 & E3 & Hok3 & Hp3 & H3).
  { intros; apply (mmu_table m2 t T); auto; apply Hok2. }
  rewrite (and_then_step (next_mut m2 _ _ _ _) _ _ _ E3).
  pose proof (progress_trans _ _ _ _ Hp12 Hp3) as Hp123; destruct r3 as [nva3|er].
  2:{ exists (Err er), m3; done. }
  destruct H3 as [-> [t3 H3]]; eexists (Val _), m3; split; [reflexivity|]; split_and!; auto; by exists t3.
Qed.

(** *** Hooking the tree to the live root and back *)

Lemma poke_root w T U R v : tree_ok w T U -> page_pa R ->
  (R = T /\ points_to v T) \/ (forall p, walk w T p <> Some R) ->
  let w' := <[R + 8 * 511 := v]> w in
  (forall q, walk w' T q = walk w T q) /\ tree_ok w' T U /\
  (forall va, mappable va -> leaf w' T va = leaf w T va) /\ (formed w T -> formed w' T).
Proof.
  intros Htr HR Hcase w'; destruct (tr_pages _ _ _ Htr [] T eq_refl) as [HT _].
  assert (Hslot : forall r x j, walk w T r = Some x -> 0 <= j < 512 -> ~ (r = [] /\ j = 511) ->
    word w' (x + 8 * j) = word w (x + 8 * j)).
  { intros r x j Hx Hj Hne; unfold w'; rewrite word_insert.
    destruct (Z.eqb_spec (R + 8 * 511) (x + 8 * j)) as [He|]; [|done]; exfalso.
    destruct (tr_pages _ _ _ Htr r x Hx) as [Hpx _].
    destruct (slot_inj R x 511 j HR Hpx ltac:(lia) Hj He) as [-> <-]; destruct Hcase as [[-> _]|Hn].
    - apply Hne; split; [|done]; by apply (tr_inj _ _ _ Htr r [] T).
    - by apply (Hn r). }
  assert (Hwalk : forall q, walk w' T q = walk w T q).
  { apply walk_agree_all; intros r x j Hx Hs; pose proof (step_ok_range _ _ Hs) as [Hj _].
    apply (Hslot r); [done|done|]; intros [-> ->]; by unfold step_ok in Hs. }
  split_and!; [done| | |].
  - split.
    + intros q x; rewrite Hwalk; apply (tr_pages _ _ _ Htr).
    + intros q1 q2 x; rewrite !Hwalk; apply (tr_inj _ _ _ Htr).
    + unfold w'; rewrite word_insert; destruct (Z.eqb_spec (R + 8 * 511) (T + 8 * 511)) as [He|];
        [|apply (tr_self _ _ _ Htr)].
      destruct Hcase as [[_ ?]|Hn]; [done|]; exfalso; apply (Hn []); cbn; f_equal; lia.
  - intros va Hm; apply leaf_agree; [done|]; intros l x Hx.
    apply (Hslot (path va l)); [done|apply va_index_range|]; intros [Hp Hi].
    destruct l; try discriminate Hp; by apply (mappable_level0 va Hm).
  - intros Hf va l x Hm; rewrite Hwalk; intros Hx; rewrite (Hslot (path va l)); [by apply Hf|done|apply va_index_range|].
    intros [Hp Hi]; destruct l; try discriminate Hp; by apply (mappable_level0 va Hm).
Qed.

(** What a caller of [map_to] provides. *)
Record ready (m : Mem P) (t : RootPageTableType) (T : PhysAddr) : Prop := {
  rd_tree : tree_ok (words m) T (in_use (pages m));
  rd_alloc : alloc_inv (pages m);
  rd_root : page_pa (live_root m t) /\ in_use (pages m) (live_root m t);
  rd_apart : live_root m t = T \/ forall p, walk (words m) T p <> Some (live_root m t);
}.

Lemma root_ptr m t : page_pa (live_root m t) -> root_page_table m t = live_root m t + KZERO.
Proof. intros H; unfold root_page_table; by rewrite <- kzero_ptr. Qed.

Lemma write_recursive_at m t v : page_pa (live_root m t) ->
  write_recursive_entry m t v = Ok (with_words m (<[live_root m t + 8 * 511 := v]> (words m))).
Proof.
  intros H; unfold write_recursive_entry; rewrite (root_ptr m t H).
  apply write_word_at, mmu_kzero; [done|lia].
Qed.

(** The hooked state the walk starts in. *)
Definition hook (m : Mem P) (t : RootPageTableType) (T : PhysAddr) : Mem P :=
  with_words m (<[live_root m t + 8 * 511 := table_entry T]> (words m)).

Lemma hook_ok m t T : ready m t T -> state_ok (hook m t T) t T /\
  (forall q, walk (words (hook m t T)) T q = walk (words m) T q) /\
  (forall va, mappable va -> leaf (words (hook m t T)) T va = leaf (words m) T va) /\
  (formed (words m) T -> formed (words (hook m t T)) T).
Proof.
  intros [Htr Hal [HR HuR] Hap].
  destruct (poke_root (words m) T _ (live_root m t) (table_entry T) Htr HR) as (Hw & Htr' & Hl & Hf);
    [destruct Hap as [->|?]; [left; split; [done|apply table_entry_spec, (tr_pages _ _ _ Htr [] T eq_refl)]|by right]|].
  assert (Hlive : live_root (hook m t T) t = live_root m t) by done.
  split_and!; [|exact Hw|exact Hl|exact Hf]; split; rewrite ?Hlive; auto.
  - split; [|apply (tr_self _ _ _ Htr')|by apply (tr_pages _ _ _ Htr [] T)].
    unfold hook; cbn [words with_words]; rewrite word_insert, Z.eqb_refl; apply table_entry_spec, (tr_pages _ _ _ Htr [] T eq_refl).
  - destruct Hap as [->|Hn]; [by left|right]; intros q; rewrite Hw; apply Hn.
Qed.

(** The restored state: what was true of the hooked one, less the hook. *)
Lemma unhook_ok m m1 t T : ready m t T -> state_ok m1 t T -> live_root m1 t = live_root m t ->
  let m2 := with_words m1 (<[live_root m t + 8 * 511 := word (words m) (live_root m t + 8 * 511)]> (words m1)) in
  ready m2 t T /\ (forall q, walk (words m2) T q = walk (words m1) T q) /\
  (forall va, mappable va -> leaf (words m2) T va = leaf (words m1) T va) /\
  (formed (words m1) T -> formed (words m2) T).
Proof.
  intros [Htr _ [HR _] Hap] [Htr1 Hal1 _ Hr1 Hap1] Hlive m2; rewrite Hlive in *.
  destruct (poke_root (words m1) T _ (live_root m t) (word (words m) (live_root m t + 8 * 511)) Htr1 HR)
    as (Hw & Htr' & Hl & Hf).
  { destruct Hap1 as [He|?]; [left; split; [done|]|by right].
    rewrite He; apply (tr_self _ _ _ Htr). }
  assert (Hlive2 : live_root m2 t = live_root m t) by done.
  split_and!; [|exact Hw|exact Hl|exact Hf]; split; rewrite ?Hlive2; auto.
  destruct Hap1 as [He|Hn]; [by left|right]; intros q; rewrite Hw; apply Hn.
Qed.

(** Writing the leaf keeps the hooked state. *)
Lemma leaf_state m t T va t3 e : state_ok m t T -> mappable va ->
  walk (words m) T (path va Level3) = Some t3 ->
  state_ok (with_words m (<[t3 + 8 * va_index va Level3 := e]> (words m))) t T.
Proof.
  intros Hok Hm H3; pose proof (so_tree _ _ _ Hok) as Htr; pose proof (so_hook _ _ _ Hok) as [Hl Hs HT].
  pose proof (so_root _ _ _ Hok) as [HR HuR].
  set (w' := <[_ := _]> _).
  assert (Hslot : forall x, page_pa x -> x = live_root m t \/ x = T -> word w' (x + 8 * 511) = word (words m) (x + 8 * 511)).
  { intros x Hx Hc; apply (write_slot (words m) w' T t3 _ va Level3 e Htr H3 eq_refl); [done|lia|].
    by apply (slot_not_hook m t T va Level3 t3 x). }
  split; cbn [words pages with_words]; auto.
  - apply (write_tree (words m) w' T t3 _ va Level3 e Htr Hm H3); auto using page_no_table; done.
  - apply (so_alloc _ _ _ Hok).
  - change (live_root (with_words m w') t) with (live_root m t).
    split; [rewrite Hslot; auto|rewrite Hslot; auto|done].
  - change (live_root (with_words m w') t) with (live_root m t).
    destruct (so_apart _ _ _ Hok) as [He|Hn]; [by left|right]; intros q.
    rewrite (page_walk (words m) w' T t3 _ va e Htr H3 eq_refl); apply Hn.
Qed.

(** The outcome of mapping one page. *)
Definition mapped (m m' : Mem P) (T va : Z) (entry : Entry) (r : result unit PageTableError) : Prop :=
  match r with
  | Val _ => mappable va /\ forall va', mappable va' ->
      (same_page va va' -> leaf (words m') T va' = Some (with_page_or_table entry true)) /\
      (~ same_page va va' -> leaf (words m') T va' = leaf (words m) T va')
  | Err _ => forall va', mappable va' -> leaf (words m') T va' = leaf (words m) T va'
  end.

(** The middle part of [map_to], between hooking and unhooking. *)
Lemma map_hooked m t T va entry : state_ok m t T -> mappable va -> valid entry = true ->
  exists r m1, walk_to m (T + KZERO) va Page4K t = Ok (r, m1) /\
  exists res m2,
    (match r with
     | Val dest =>
         m3 ← write_entry m1 dest (with_page_or_table entry true);
         written ← read_word m3 dest;
         _ ← assert (valid written && (phys_addr written =? phys_addr (with_page_or_table entry true)));
         Ok (Val tt, m3)
     | Err e => Ok (Err e, m1)
     end) = Ok (res, m2) /\ state_ok m2 t T /\ live_root m2 t = live_root m t /\
    ttbr0_el1 m2 = ttbr0_el1 m /\ ttbr1_el1 m2 = ttbr1_el1 m /\
    (forall x, in_use (pages m) x -> in_use (pages m2) x) /\ outside m m2 T /\ mapped m m2 T va entry res /\
    (accessed entry = true -> formed (words m) T -> formed (words m2) T).
Proof.
  intros Hok Hm Hv; destruct (walk_to_spec m t T va Hok Hm) as (r & m1 & Hr & Hok1 & Hp & Hd).
  exists r, m1; split; [done|]; pose proof (live_progress m m1 T t Hp) as Hlv.
  destruct Hp as [Ht0 Ht1 Huse Hout Hleaf Hform]; destruct r as [dest|e].
  2:{ exists (Err e), m1; split_and!; auto. }
  destruct Hd as (t3 & H3 & ->); set (e' := with_page_or_table entry true).
  pose proof (so_tree _ _ _ Hok1) as Htr1.
  assert (Hat : mmu m1 (recursive_table_addr t va Level3 + 8 * va_index va Level3) = Some (t3 + 8 * va_index va Level3)).
  { apply (mmu_table m1 t T); [apply Hok1|done|done|apply va_index_range]. }
  unfold write_entry; rewrite (write_word_at m1 _ _ e' Hat); cbn [mbind res_bind].
  set (w' := <[_ := _]> _); set (m2 := with_words m1 w').
  pose proof (leaf_state m1 t T va t3 e' Hok1 Hm H3) as Hok2; fold w' m2 in Hok2.
  assert (Hat2 : mmu m2 (recursive_table_addr t va Level3 + 8 * va_index va Level3) = Some (t3 + 8 * va_index va Level3)).
  { apply (mmu_table m2 t T); [apply Hok2|done| |apply va_index_range].
    cbn [m2 words with_words]; by rewrite (page_walk (words m1) w' T t3 _ va e' Htr1 H3 eq_refl). }
  rewrite (read_word_at m2 _ _ Hat2); cbn [mbind res_bind].
  assert (Hrd : word (words m2) (t3 + 8 * va_index va Level3) = e')
    by (cbn [m2 words with_words]; unfold w'; by rewrite word_insert, Z.eqb_refl).
  assert (Hve : valid e' = true) by (unfold e'; by rewrite valid_page).
  rewrite Hrd, Hve, Z.eqb_refl; cbn [andb assert mbind res_bind].
  exists (Val tt), m2; split; [done|]; split_and!; auto.
  - intros x Hx Hpx Hnx; destruct (Hout x Hx Hpx Hnx) as [Hn1 Hw1]; split.
    + intros q; cbn [m2 words with_words]; rewrite (page_walk (words m1) w' T t3 _ va e' Htr1 H3 eq_refl); apply Hn1.
    + intros j Hj; rewrite <- Hw1 by done.
      apply (write_slot (words m1) w' T t3 _ va Level3 e' Htr1 H3 eq_refl); auto; intros [-> _]; by apply (Hn1 (path va Level3)).
  - split; [done|]; intros va' Hm'; split; intros Hsp; cbn [m2 words with_words].
    + apply (write_leaf_same (words m1) w' T t3 _ va Level3 e' Htr1 H3); auto using page_no_table; [done|by apply same_page_block].
    + rewrite same_page_block in Hsp; rewrite (write_leaf_other (words m1) w' T t3 _ va Level3 e' Htr1 H3 eq_refl va' Hm' Hsp); by apply Hleaf.
  - intros Hacc Hf; apply (write_formed (words m1) w' T t3 _ va Level3 e' Htr1 Hm H3); auto using page_no_table; [done|].
    intros _; split; [apply page_with|by unfold e'; rewrite accessed_page].
Qed.

Lemma walk_to_recursive m root t va : va_index va Level0 = RECURSIVE_SLOT ->
  walk_to m root va Page4K t = Ok (Err MappingRecursiveIndex, m).
Proof. intros He; unfold walk_to, next_mut; by rewrite He. Qed.

(** What a restored state owes to the hooked one. *)
Lemma outside_unhook m m1 t T : ready m t T -> outside (hook m t T) m1 T ->
  (forall q, walk (words (hook m t T)) T q = walk (words m) T q) ->
  let m2 := with_words m1 (<[live_root m t + 8 * 511 := word (words m) (live_root m t + 8 * 511)]> (words m1)) in
  (forall q, walk (words m2) T q = walk (words m1) T q) -> outside m m2 T.
Proof.
  intros [_ _ [HR _] _] Hout Hw m2 Hw2 x Hx Hp Hn.
  destruct (Hout x Hx Hp) as [Hout' Hsame]; [intros q; rewrite Hw; apply Hn|].
  split; [intros q; rewrite Hw2; apply Hout'|]; intros j Hj; unfold m2; cbn [words with_words].
  rewrite word_insert; destruct (Z.eqb_spec (live_root m t + 8 * 511) (x + 8 * j)) as [<-|Hne]; [done|].
  rewrite Hsame by done; unfold hook; cbn [words with_words].
  by rewrite word_insert, (proj2 (Z.eqb_neq _ _)).
Qed.

(** What [map_to] does, with the shape of the entries. *)
Lemma map_to_full (m : Mem P) (t : RootPageTableType) (T va : Z) (entry : Entry)
    (Hready : ready m t T) (Hva : mappable va \/ va_index va Level0 = RECURSIVE_SLOT) (Hv : valid entry = true) :
  exists r m', map_to m (T + KZERO) entry va Page4K t = Ok (r, m') /\
    ready m' t T /\ mapped m m' T va entry r /\
    (va_index va Level0 = RECURSIVE_SLOT -> r = Err MappingRecursiveIndex) /\
    outside m m' T /\ (forall x, in_use (pages m) x -> in_use (pages m') x) /\
    ttbr0_el1 m' = ttbr0_el1 m /\ ttbr1_el1 m' = ttbr1_el1 m /\
    word (words m') (live_root m t + 8 * 511) = word (words m) (live_root m t + 8 * 511) /\
    (accessed entry = true -> formed (words m) T -> formed (words m') T).
Proof.
  pose proof Hready as [Htr Hal [HR HuR] Hap]; destruct (tr_pages _ _ _ Htr [] T eq_refl) as [HT _].
  unfold map_to, generate_temp_recursive_address; rewrite (from_virt_kzero T HT); cbn [mbind res_bind].
  fold (table_entry T); unfold replace_recursive_entry.
  rewrite (root_ptr m t HR), (read_word_at m _ (live_root m t + 8 * 511)) by (apply mmu_kzero; [done|lia]).
  cbn [mbind res_bind]; rewrite (write_recursive_at m t _ HR); cbn [mbind res_bind]; fold (hook m t T).
  destruct (hook_ok m t T Hready) as (Hok & Hwalk & Hleaf & Hform).
  assert (Hfin : forall res m2, state_ok m2 t T -> live_root m2 t = live_root m t ->
    ttbr0_el1 m2 = ttbr0_el1 m -> ttbr1_el1 m2 = ttbr1_el1 m ->
    (forall x, in_use (pages m) x -> in_use (pages m2) x) -> outside (hook m t T) m2 T ->
    mapped (hook m t T) m2 T va entry res -> (accessed entry = true -> formed (words (hook m t T)) T -> formed (words m2) T) -> (va_index va Level0 = RECURSIVE_SLOT -> res = Err MappingRecursiveIndex) ->
    exists r m', (m4 ← write_recursive_entry m2 t (word (words m) (live_root m t + 8 * 511)); Ok (res, m4)) = Ok (r, m') /\
      ready m' t T /\ mapped m m' T va entry r /\ (va_index va Level0 = RECURSIVE_SLOT -> r = Err MappingRecursiveIndex) /\
      outside m m' T /\ (forall x, in_use (pages m) x -> in_use (pages m') x) /\
      ttbr0_el1 m' = ttbr0_el1 m /\ ttbr1_el1 m' = ttbr1_el1 m /\
      word (words m') (live_root m t + 8 * 511) = word (words m) (live_root m t + 8 * 511) /\
      (accessed entry = true -> formed (words m) T -> formed (words m') T)).
  { intros res m2 Hok2 Hlv Ht0 Ht1 Huse Hout Hmap Hfm Hrec.
    rewrite (write_recursive_at m2 t _ ltac:(by rewrite Hlv)), Hlv; cbn [mbind res_bind].
    destruct (unhook_ok m m2 t T Hready Hok2 Hlv) as (Hrd & Hw2 & Hl2 & Hf2).
    eexists res, _; split; [reflexivity|]; split_and!; auto.
    - destruct res as [[]|e]; cbn [mapped] in *.
      + destruct Hmap as [Hm Hmap]; split; [done|]; intros va' Hm'.
        destruct (Hmap va' Hm') as [Ha Hb]; split; intros Hsp; etransitivity; [exact (Hl2 va' Hm')|by apply Ha|
          exact (Hl2 va' Hm')|]; rewrite (Hb Hsp); by apply Hleaf.
      + intros va' Hm'; etransitivity; [exact (Hl2 va' Hm')|]; rewrite (Hmap va' Hm'); by apply Hleaf.
    - by apply outside_unhook.
    - cbn [words with_words]; by rewrite word_insert, Z.eqb_refl. }
  destruct Hva as [Hm|Hm].
  - destruct (map_hooked (hook m t T) t T va entry Hok Hm Hv)
      as (r & m1 & -> & res & m2 & Hr & Hok2 & Hlv & Ht0 & Ht1 & Huse & Hout & Hmap & Hfm).
    cbn [mbind res_bind]; rewrite decide_True by done; rewrite Hr; cbn [mbind res_bind].
    apply Hfin; auto; intros He; by destruct (mappable_level0 va Hm).
  - rewrite (walk_to_recursive _ _ t va Hm); cbn [mbind res_bind].
    apply (Hfin (Err MappingRecursiveIndex) (hook m t T)); auto; [|done].
    intros x Hx Hpx Hnx; auto.
Qed.

Lemma map_to_spec (m : Mem P) (t : RootPageTableType) (T va : Z) (entry : Entry)
    (Hready : ready m t T) (Hva : mappable va \/ va_index va Level0 = RECURSIVE_SLOT) (Hv : valid entry = true) :
  exists r m', map_to m (T + KZERO) entry va Page4K t = Ok (r, m') /\
    ready m' t T /\ mapped m m' T va entry r /\
    (va_index va Level0 = RECURSIVE_SLOT -> r = Err MappingRecursiveIndex) /\
    outside m m' T /\ (forall x, in_use (pages m) x -> in_use (pages m') x) /\
    ttbr0_el1 m' = ttbr0_el1 m /\ ttbr1_el1 m' = ttbr1_el1 m /\
    word (words m') (live_root m t + 8 * 511) = word (words m) (live_root m t + 8 * 511).
Proof. destruct (map_to_full m t T va entry Hready Hva Hv) as (r & m' & H1 & H2 & H3 & H4 & H5 & H6 & H7 & H8 & H9 & _); exists r, m'; by split_and!. Qed.

(** C3: [map_to] with 4 KiB pages, on any well-formed tree of tables, live or
    not: it does not panic (each recursive address it uses translates to the
    table meant, and the read-back check holds); on success exactly the page of
    the address given translates to the entry given, every other translation
    of the tree is as before; on failure no translation changes; an address in
    the recursive slot is refused; the live root's slot is put back, no page in
    use outside the tree is written, and the tree stays well formed.  Tables
    below the root may have a pointer to themselves too, as those made at boot
    do, if the way to the address does not lead through it. *)
Theorem map_to_correct (m : Mem P) (t : RootPageTableType) (T va : Z) (entry : Entry)
    (Hready : ready m t T) (Hva : mappable va \/ va_index va Level0 = RECURSIVE_SLOT) (Hv : valid entry = true) :
  exists r m', map_to m (T + KZERO) entry va Page4K t = Ok (r, m') /\
    ready m' t T /\ mapped m m' T va entry r /\
    (va_index va Level0 = RECURSIVE_SLOT -> r = Err MappingRecursiveIndex) /\
    outside m m' T /\ (forall x, in_use (pages m) x -> in_use (pages m') x) /\
    ttbr0_el1 m' = ttbr0_el1 m /\ ttbr1_el1 m' = ttbr1_el1 m /\
    word (words m') (live_root m t + 8 * 511) = word (words m) (live_root m t + 8 * 511).
Proof. by apply map_to_spec. Qed.
End editor_proofs.

(** ** The check of system-call buffers *)

(** The trees of processes, which are made by [next_mut] alone, have a
    self-pointer only in the root. *)
#[global] Instance no_loops : Looped := fun _ => false.

Lemma mappable_root va : va_index va Level0 <> RECURSIVE_SLOT -> mappable va.
Proof. intros Hm [] _ Hs; [done|discriminate Hs..]. Qed.

Lemma mappable_or_slot va : mappable va \/ va_index va Level0 = RECURSIVE_SLOT.
Proof. destruct (decide (va_index va Level0 = RECURSIVE_SLOT)); [by right|left; by apply mappable_root]. Qed.

Section user_check.
Context {P : Type} `{!PageAllocator P}.
Implicit Types m : Mem P.

(** The tables of the running process: its root is live. *)
Record user_live (m : Mem P) : Prop := {
  ul_tree : tree_ok (words m) (ttbr0_el1 m) (in_use (pages m));
}.

Lemma user_hooked m : user_live m -> hooked (words m) (live_root m User) (ttbr0_el1 m).
Proof.
  intros [Htr]; split; [apply (tr_self _ _ _ Htr)..|]; by apply (tr_pages _ _ _ Htr [] _ eq_refl).
Qed.

Definition levels_from (l : Level) : list Level :=
  match l with
  | Level0 => [Level0; Level1; Level2] | Level1 => [Level1; Level2] | Level2 => [Level2] | Level3 => []
  end.

(** One level of the software walk. *)
Lemma leaf_levels_step m va l nl tbl x : user_live m -> mappable va -> next l = Some nl ->
  walk (words m) (ttbr0_el1 m) (path va l) = Some x ->
  (forall j, 0 <= j < 512 -> mmu m (tbl + 8 * j) = Some (x + 8 * j)) ->
  (forall y, walk (words m) (ttbr0_el1 m) (path va nl) = Some y ->
     leaf_levels m va (recursive_table_addr User va nl) (levels_from nl) = Ok (leaf_from (words m) va nl y)) ->
  leaf_levels m va tbl (levels_from l) = Ok (leaf_from (words m) va l x).
Proof.
  intros Hu Hm Hnl Hw Hmmu IH.
  assert (Hls : levels_from l = l :: levels_from nl) by (by destruct l; injection Hnl as <- || discriminate Hnl).
  rewrite Hls; cbn [leaf_levels]; rewrite (read_word_at m _ _ (Hmmu _ (va_index_range va l))); cbn [mbind res_bind].
  assert (Hlf : leaf_from (words m) va l x = leaf_in (words m) va l x (leaf_from (words m) va nl))
    by (by destruct l; injection Hnl as <- || discriminate Hnl).
  rewrite Hlf; unfold leaf_in; set (e := word (words m) (x + 8 * va_index va l)).
  destruct (valid e) eqn:Hv; cbn [negb]; [|done]; destruct (is_table e l) eqn:Hi; cbn [negb]; [|done].
  rewrite Hnl; cbn [unwrap mbind res_bind]; apply IH.
  rewrite (path_next va l nl Hnl); cbn [walk]; rewrite Hw, step_ok_path by (done || by destruct l); fold e.
  unfold is_table in Hi; apply andb_prop in Hi as [Hp _]; by rewrite Hv, Hp.
Qed.

Lemma user_leaf_spec m va : user_live m -> mappable va ->
  user_leaf_entry m va = Ok (leaf (words m) (ttbr0_el1 m) va).
Proof.
  intros Hu Hm; pose proof (user_hooked m Hu) as Hh; pose proof (hk_page _ _ _ Hh) as HT.
  assert (Hmmu : forall l y, l <> Level0 -> walk (words m) (ttbr0_el1 m) (path va l) = Some y ->
    forall j, 0 <= j < 512 -> mmu m (recursive_table_addr User va l + 8 * j) = Some (y + 8 * j))
    by (intros; by apply (mmu_table m User (ttbr0_el1 m))).
  unfold user_leaf_entry, leaf; rewrite (root_ptr m User) by done.
  apply (leaf_levels_step m va Level0 Level1 _ (ttbr0_el1 m)); [done|done|done|done|intros; by apply mmu_kzero|]; intros t1 H1.
  apply (leaf_levels_step m va Level1 Level2); [done|done|done|done|by apply Hmmu|]; intros t2 H2.
  apply (leaf_levels_step m va Level2 Level3); [done|done|done|done|by apply Hmmu|]; intros t3 H3; cbn [leaf_levels levels_from].
  rewrite (read_word_at m _ _ (Hmmu Level3 t3 ltac:(done) H3 _ (va_index_range va Level3))); cbn [mbind res_bind leaf_from].
  unfold leaf_in, is_table; rewrite bool_decide_true, andb_false_r by done; cbn [negb]; by destruct (valid _).
Qed.

(** Addresses of one page translate alike. *)
Lemma same_page_leaf w T va va' : same_page va va' -> leaf w T va = leaf w T va'.
Proof. intros Hs; unfold leaf, leaf_from, leaf_in; by rewrite !Hs. Qed.

Lemma page_same_page va a : va mod 4096 = 0 -> va <= a < va + 4096 -> same_page va a.
Proof.
  intros Hm Ha l; rewrite !va_index_div; f_equal.
  destruct l; cbn [level_shift]; pow2s; Z.to_euclidean_division_equations; lia.
Qed.

Definition access_ok (m : Mem P) (wr : bool) (a : Z) : Prop :=
  exists e, leaf (words m) (ttbr0_el1 m) a = Some e /\ entry_user_ok e wr = true.

Lemma check_pages_spec fuel : forall m page e wr, user_live m -> 0 <= page -> page mod 4096 = 0 ->
  e <= KZERO -> (forall a, page <= a < e -> mappable a) -> 0 < Z.of_nat fuel /\ e - page <= 4096 * (Z.of_nat fuel - 1) ->
  exists b, check_pages fuel m page e wr = Ok b /\ (b = true <-> forall a, page <= a < e -> access_ok m wr a).
Proof.
  induction fuel as [|fuel IH]; intros m page e wr Hu H0 Hp He Hm Hf; cbn [check_pages].
  { lia. }
  destruct (Z.ltb_spec page e) as [Hlt|Hge].
  2:{ exists true; split; [done|]; split; [intros _ a ?; lia|done]. }
  rewrite user_leaf_spec by (auto; apply Hm; lia); cbn [mbind res_bind].
  change PAGE_SIZE_4K with 4096; unfold wrapping_add.
  rewrite Z.mod_small by (unfold KZERO in He; rewrite W64_val; lia).
  destruct (leaf (words m) (ttbr0_el1 m) page) as [en|] eqn:Hl.
  2:{ exists false; split; [done|]; split; [done|]; intros Ha; destruct (Ha page) as (en & Hen & _); [lia|congruence]. }
  destruct (entry_user_ok en wr) eqn:Hok.
  2:{ exists false; split; [done|]; split; [done|]; intros Ha; destruct (Ha page) as (en' & Hen & Hok'); [lia|].
      congruence. }
  destruct (IH m (page + 4096) e wr) as (b & -> & Hb); auto; try lia.
  { rewrite <- Z.add_mod_idemp_r by lia; change (4096 mod 4096) with 0; by rewrite Z.add_0_r. }
  { intros a Ha; apply Hm; lia. }
  exists b; split; [done|]; rewrite Hb; split; intros Ha a Hr; [|apply Ha; lia].
  destruct (Z.lt_ge_cases a (page + 4096)); [|apply Ha; lia].
  exists en; split; [|done]; rewrite <- Hl; symmetry; apply same_page_leaf, page_same_page; [done|lia].
Qed.

Lemma user_range_ok_spec m va n wr : user_live m -> is_u64 va -> 0 <= n ->
  (forall a, va <= a < va + n -> mappable a) ->
  exists b, user_range_ok m va n wr = Ok b /\
    (b = true <-> va + n <= KZERO /\ forall a, va <= a < va + n -> access_ok m wr a).
Proof.
  intros Hu Hva Hn Hm; unfold user_range_ok, checked_add, is_u in *.
  destruct (Z.ltb_spec (va + n) W64) as [Hlt|Hge].
  2:{ exists false; split; [done|]; split; [done|]; unfold KZERO; rewrite W64_val in *; lia. }
  destruct (Z.ltb_spec KZERO (va + n)); [exists false; split; [done|]; split; [done|lia]|].
  destruct (Z.eqb_spec n 0) as [->|Hn0]; [exists true; split; [done|]; split; [intros _; split; [lia|intros; lia]|done]|].
  set (page := Z.land va _).
  assert (Hpg : page = va - va mod 4096).
  { unfold page; change (unot W64 (PAGE_SIZE_4K - 1)) with (2 ^ 64 - 2 ^ 12).
    rewrite land_page_mask by lia; rewrite Z.mod_small by (change (2 ^ 64) with W64; lia).
    pow2s; pose proof (Z.div_mod va 4096); lia. }
  pose proof (Z.mod_pos_bound va 4096 ltac:(lia)) as Hvm.
  assert (Hsame : forall a, page <= a < va -> same_page a va).
  { intros a Ha l; rewrite <- (page_same_page page a), <- (page_same_page page va); [done|..];
      try lia; rewrite Hpg; Z.to_euclidean_division_equations; lia. }
  change PAGE_SIZE_4K with 4096.
  destruct (check_pages_spec (Z.to_nat (n / 4096 + 3)) m page (va + n) wr) as (b & -> & Hb);
    [done|rewrite Hpg; Z.to_euclidean_division_equations; lia| |lia| | |].
  - rewrite Hpg; Z.to_euclidean_division_equations; lia.
  - intros a Ha; destruct (Z.lt_ge_cases a va); [|apply Hm; lia].
    apply mappable_root; rewrite (Hsame a) by lia; apply mappable_level0, Hm; lia.
  - pose proof (Z.div_mod n 4096); pose proof (Z.mod_pos_bound n 4096); split; lia.
  - exists b; split; [done|]; rewrite Hb; split.
    + intros Ha; split; [done|]; intros a Hr; apply Ha; lia.
    + intros [_ Ha] a Hr; destruct (Z.lt_ge_cases a va); [|apply Ha; lia].
      destruct (Ha va) as (e & He & Hok); [lia|]; exists e; split; [|done].
      by rewrite (same_page_leaf _ _ a va) by (apply Hsame; lia).
Qed.

(** *** What the hardware allows *)

Lemma entry_user_hw e wr : entry_user_ok e wr = hw_user_ok e wr.
Proof.
  unfold entry_user_ok, access_permission, hw_user_ok, get_bits; change (Z.ones (8 - 6)) with (Z.ones 2).
  assert (H6 : Z.testbit e 6 = Z.testbit (Z.land (Z.shiftr e 6) (Z.ones 2)) 0)
    by (rewrite Z.land_ones, Z.mod_pow2_bits_low, Z.shiftr_spec by lia; done).
  assert (H7 : Z.testbit e 7 = Z.testbit (Z.land (Z.shiftr e 6) (Z.ones 2)) 1)
    by (rewrite Z.land_ones, Z.mod_pow2_bits_low, Z.shiftr_spec by lia; done).
  rewrite H6, H7, Z.land_ones by lia; set (r := _ mod _).
  assert (Hr : 0 <= r < 4) by (apply Z.mod_pos_bound; lia).
  assert (r = 0 \/ r = 1 \/ r = 2 \/ r = 3) as [-> | [-> | [-> | ->]]] by lia; by destruct wr.
Qed.

(** The hardware walk ends at the entry that the software walk finds. *)
Lemma hw_leaf_leaf w T va e : hw_leaf w T va = Some e -> leaf w T va = Some e.
Proof.
  unfold hw_leaf, leaf, leaf_from, leaf_in, is_table, flagged; set (e0 := word w (T + _)).
  destruct (valid e0), (page_or_table e0); cbn [andb negb bool_decide decide]; try done; set (e1 := word w (phys_addr e0 + _)).
  destruct (valid e1), (page_or_table e1); cbn [andb negb bool_decide decide]; try done; [|by destruct (accessed e1)]; set (e2 := word w (phys_addr e1 + _)).
  destruct (valid e2), (page_or_table e2); cbn [andb negb bool_decide decide]; try done; [|by destruct (accessed e2)]; set (e3 := word w (phys_addr e2 + _)).
  destruct (valid e3), (page_or_table e3); cbn [andb negb bool_decide decide]; try done; by destruct (accessed e3).
Qed.

(** An access the hardware lets through has a physical address. *)
Lemma hw_leaf_walk w T va e : hw_leaf w T va = Some e -> is_Some (hw_walk w T va).
Proof.
  unfold hw_leaf, hw_walk; destruct (negb (_ && _)); [done|]; destruct (negb (valid _)); [done|]; destruct (negb (page_or_table _)); [eauto|].
  destruct (negb (valid _)); [done|]; destruct (negb (page_or_table _)); [eauto|]; destruct (negb (_ && _)); [done|eauto].
Qed.

(** On tables whose entries are well formed the two walks agree. *)
Lemma formed_leaf w T va e : mappable va -> formed w T -> leaf w T va = Some e -> hw_leaf w T va = Some e.
Proof.
  intros Hm Hf.
  assert (Hn : forall l l' t, next l = Some l' -> walk w T (path va l) = Some t ->
    valid (word w (t + 8 * va_index va l)) = true -> page_or_table (word w (t + 8 * va_index va l)) = true ->
    walk w T (path va l') = Some (phys_addr (word w (t + 8 * va_index va l)))).
  { intros l l' t Hl Ht Hv Hp; rewrite (path_next va l l' Hl); cbn [walk]; rewrite Ht, step_ok_path by (done || by destruct l); by rewrite Hv, Hp. }
  unfold hw_leaf, leaf, leaf_from, leaf_in, is_table, flagged.
  pose proof (Hf va Level0 T Hm eq_refl) as F0; pose proof (Hn Level0 Level1 T eq_refl eq_refl) as H1; set (e0 := word w (T + _)) in *.
  destruct (valid e0) eqn:V0; cbn [negb]; [|done]; specialize (F0 V0); cbn in F0; rewrite F0 in *; cbn [andb negb bool_decide decide].
  specialize (H1 eq_refl eq_refl); pose proof (Hf va Level1 _ Hm H1) as F1; pose proof (Hn Level1 Level2 _ eq_refl H1) as H2; set (e1 := word w (phys_addr e0 + _)) in *.
  destruct (valid e1) eqn:V1; cbn [negb]; [|done]; specialize (F1 V1); cbn in F1.
  destruct (page_or_table e1) eqn:Q1; cbn [andb negb bool_decide decide]; [|destruct F1 as [F1|F1]; [done|by rewrite F1]].
  specialize (H2 eq_refl eq_refl); pose proof (Hf va Level2 _ Hm H2) as F2; pose proof (Hn Level2 Level3 _ eq_refl H2) as H3; set (e2 := word w (phys_addr e1 + _)) in *.
  destruct (valid e2) eqn:V2; cbn [negb]; [|done]; specialize (F2 V2); cbn in F2.
  destruct (page_or_table e2) eqn:Q2; cbn [andb negb bool_decide decide]; [|destruct F2 as [F2|F2]; [done|by rewrite F2]].
  specialize (H3 eq_refl eq_refl); pose proof (Hf va Level3 _ Hm H3) as F3; set (e3 := word w (phys_addr e2 + _)) in *.
  destruct (valid e3) eqn:V3; cbn [negb]; [|done]; specialize (F3 V3); cbn in F3; destruct F3 as [-> ->]; by rewrite andb_false_r.
Qed.

(** User addresses below the slot of the recursive mapping. *)
Definition RECURSIVE_BASE : Z := 511 * 2 ^ 39.

Lemma below_mappable a : 0 <= a < RECURSIVE_BASE -> mappable a /\ Z.shiftr a 48 = 0.
Proof.
  unfold RECURSIVE_BASE; intros Ha; split.
  - apply mappable_root; unfold RECURSIVE_SLOT; rewrite va_index_div; cbn [level_shift].
    assert (0 <= a / 2 ^ 39 < 511) by (Z.to_euclidean_division_equations; lia); rewrite Z.mod_small by lia; lia.
  - rewrite Z.shiftr_div_pow2 by lia; apply Z.div_small; lia.
Qed.

Lemma access_el0 m wr a : 0 <= a < RECURSIVE_BASE -> el0_access m wr a -> access_ok m wr a.
Proof. intros Ha (_ & e & He & Hok); exists e; rewrite entry_user_hw; split; [by apply hw_leaf_leaf|done]. Qed.

Lemma el0_access_ok m wr a : 0 <= a < RECURSIVE_BASE -> formed (words m) (ttbr0_el1 m) -> access_ok m wr a -> el0_access m wr a.
Proof.
  intros Ha Hf (e & He & Hok); destruct (below_mappable a Ha) as [Hm Ht]; split; [done|].
  exists e; rewrite <- entry_user_hw; split; [by apply formed_leaf|done].
Qed.

(** C10: the check of a user buffer that lies below the slot of the recursive mapping
    (user addresses under 511 * 2^39), in tables whose entries have the shape
    the kernel gives them ([formed]: kept by [map_to], see [map_to_full]): it never
    faults, and it answers true exactly when the hardware would let user code
    read (for a write: write) every byte of the range, by the MMU's own walk of the
    tables in TTBR0 and the permission bits of the descriptor it ends at. *)
Theorem user_range_ok_exact (m : Mem P) (va n : Z) (wr : bool) (Hu : user_live m) (Hf : formed (words m) (ttbr0_el1 m))
    (Hva : 0 <= va) (Hn : 0 <= n) (Hend : va + n <= RECURSIVE_BASE) :
  exists b, user_range_ok m va n wr = Ok b /\ (b = true <-> forall a, va <= a < va + n -> el0_access m wr a).
Proof.
  destruct (user_range_ok_spec m va n wr Hu) as (b & -> & Hb); [unfold is_u, RECURSIVE_BASE in *; rewrite W64_val; lia|done|..].
  - intros a Ha; apply below_mappable; lia.
  - exists b; split; [done|]; rewrite Hb; split.
    + intros [_ Ha] a Hr; apply el0_access_ok; [lia|done|by apply Ha].
    + intros Ha; split; [unfold RECURSIVE_BASE, KZERO in *; lia|]; intros a Hr; apply access_el0; [lia|by apply Ha].
Qed.

(** The check ignores the top 16 address bits: when it accepts a range, it
    also accepts the same range shifted by 2^48, although no address of that
    one translates, so the copy that follows faults in the kernel. *)
Lemma user_range_ok_noncanonical (m : Mem P) (va n : Z) (wr : bool) (Hu : user_live m)
    (Hva : 0 <= va) (Hn : 0 <= n) (Hend : va + n <= 2 ^ 48)
    (Hm : forall a, va <= a < va + n -> mappable a) (Hok : user_range_ok m va n wr = Ok true) :
  user_range_ok m (va + 2 ^ 48) n wr = Ok true /\
  forall a, va + 2 ^ 48 <= a < va + 2 ^ 48 + n -> mmu m a = None.
Proof.
  assert (Hsp : forall a, same_page (a + 2 ^ 48) a).
  { intros a l; rewrite !va_index_div; destruct l; cbn [level_shift]; pow2s; Z.to_euclidean_division_equations; lia. }
  assert (Hu64 : is_u64 va) by (unfold is_u; rewrite W64_val; lia).
  destruct (user_range_ok_spec m va n wr Hu Hu64 Hn Hm) as (b & Hb & Hiff).
  rewrite Hok in Hb; injection Hb as <-; destruct Hiff as [Hacc _]; specialize (Hacc eq_refl) as [_ Hacc].
  split.
  - destruct (user_range_ok_spec m (va + 2 ^ 48) n wr) as (b & -> & Hiff'); auto.
    + unfold is_u; rewrite W64_val; lia.
    + intros a Ha; apply mappable_root; replace a with (a - 2 ^ 48 + 2 ^ 48) by lia; rewrite Hsp; apply mappable_level0, Hm; lia.
    + f_equal; apply Hiff'; split; [unfold KZERO; lia|]; intros a Ha.
      destruct (Hacc (a - 2 ^ 48)) as (e & He & Hoke); [lia|]; exists e; split; [|done].
      rewrite <- He; apply same_page_leaf; replace a with (a - 2 ^ 48 + 2 ^ 48) at 1 by lia; apply Hsp.
  - intros a Ha; unfold mmu; rewrite Z.shiftr_div_pow2 by lia.
    replace (a / 2 ^ 48) with 1 by (pow2s; Z.to_euclidean_division_equations; lia); done.
Qed.
End user_check.
End Pt.
