(* ===== verification/Aspace.v ===== *)
(** * Address spaces ([aarch64/src/aspace.rs], [aarch64/src/pagealloc.rs])

    The per-process address space over the page tables of [Vm] and the page
    allocator of [BitmapAlloc]: creation, installation, and the mapping of
    text, stack, heap and device pages. *)

From S2P Require Import Prelude Addr BitmapAlloc Vm.
Import Pt.

(** ** The page allocator behind the tables *)

Section alloc.
Context (NB BS : Z).

(** [pagealloc::allocate_physpage], the message on failure apart. *)
Definition allocate_physpage (p : BitmapPageAlloc) : res (result PhysAddr PageAllocError * BitmapPageAlloc) :=
  '(p', r) ← allocate NB BS p; Ok (r, p').

(** A whole page whose bit is set. *)
Definition page_in_use (p : BitmapPageAlloc) (pa : PhysAddr) : Prop :=
  pa mod 4096 = 0 /\ 0 <= pa / 4096 < npages NB BS /\ page_bit BS p (pa / 4096) = true.

Definition PhysPageAllocator : PageAllocator BitmapPageAlloc :=
  {| alloc_physpage := allocate_physpage; in_use := page_in_use |}.

(** The allocator of the kernel: 4 KiB pages, all below 2^46. *)
Definition phys_inv (p : BitmapPageAlloc) : Prop :=
  wf NB BS p /\ alloc_page_size p = PAGE_SIZE_4K /\ npages NB BS * 4096 <= 2 ^ 46.

Lemma phys_laws : @AllocLaws BitmapPageAlloc PhysPageAllocator phys_inv.
Proof.
  split; intros p (Hwf & Hps & Hmax); simpl; unfold allocate_physpage.
  destruct (allocate_spec NB BS p Hwf) as (p' & r & -> & Hwf' & Hout); cbn [mbind res_bind].
  change PAGE_SIZE_4K with 4096 in Hps; exists r, p'; split; [done|]; destruct r as [pa|e].
  - destruct Hout as (i & -> & Hi & Hend & Hfree & Hbits & _ & Hps'); rewrite Hps in *.
    assert (Hdiv : i * 4096 / 4096 = i) by (apply Z.div_mul; lia).
    split; [split_and!; [done|change PAGE_SIZE_4K with 4096; congruence|done]|].
    split_and!.
    + split; [lia|]; apply Z.mod_mul; lia.
    + intros (_ & _ & Hb); rewrite Hdiv in Hb; congruence.
    + intros x; unfold page_in_use; split.
      * intros (Hm & Hx & Hb); rewrite Hbits in Hb by done.
        destruct (Z.eqb_spec (x / 4096) i) as [<-|]; [right|by left].
        pose proof (Z.div_mod x 4096); lia.
      * intros [(Hm & Hx & Hb)| ->].
        -- split_and!; [done|lia|lia|]; rewrite Hbits by done; by destruct (x / 4096 =? i).
        -- rewrite Hdiv; split_and!; [apply Z.mod_mul; lia|lia|lia|].
           by rewrite Hbits, Z.eqb_refl.
  - destruct Hout as (_ & -> & _); done.
Qed.
End alloc.

(** ** Address spaces *)

Record Aspace := { root : Z; root_pa : PhysAddr }.

Section aspace.
Context {P : Type} `{!PageAllocator P}.
Implicit Types m : Mem P.

Definition kernel_pagetable (m : Mem P) : Z := root_page_table m Kernel.

(** [map_err(|_| UnableToMap)?] after a [map_phys_range]. *)
Definition map_or_fail (x : res (result VirtRange PageTableError * Mem P))
    : res (result unit PageAllocError * Mem P) :=
  '(r, m) ← x; Ok (match r with Val _ => Val tt | Err _ => Err UnableToMap end, m).

(** [Aspace::new]: panics when there is no page or it cannot be mapped. *)
Definition new (m : Mem P) : res (Aspace * Mem P) :=
  '(r, p1) ← alloc_physpage (pages m);
  let m1 := with_pages m p1 in
  match r with
  | Err _ => Panic
  | Val pa =>
      range ← Range.with_pa_len pa PAGE_SIZE_4K;
      '(r2, m2) ← map_phys_range m1 (kernel_pagetable m1) range (OffsetMapping KZERO) rw_kernel_data Page4K Kernel;
      match r2 with
      | Err _ => Panic
      | Val _ =>
          let rt := physaddr_as_ptr_mut_offset_from_kzero pa in
          m3 ← clear m2 rt;
          m4 ← init_empty_root_page_table m3 rt;
          Ok ({| root := rt; root_pa := pa |}, m4)
      end
  end.

Definition ttbr0 (a : Aspace) : PhysAddr := root_pa a.

Definition install (a : Aspace) (m : Mem P) : res (Mem P) := switch m (root a) User.

(** [map_user_page]: into the process and, at the offset mapping, the kernel. *)
Definition map_user_page (a : Aspace) (entry : Entry) (va : Z) (m : Mem P)
    : res (result Z PageAllocError * Mem P) :=
  '(r, p1) ← alloc_physpage (pages m);
  let m1 := with_pages m p1 in
  match r with
  | Err e => Ok (Err e, m1)
  | Val pa =>
      range ← Range.with_pa_len pa PAGE_SIZE_4K;
      '(r2, m2) ← map_or_fail (map_phys_range m1 (root a) range (AddrMapping va) entry Page4K User);
      match r2 with
      | Err e => Ok (Err e, m2)
      | Val _ =>
          '(r3, m3) ← map_or_fail (map_phys_range m2 (kernel_pagetable m2) range (OffsetMapping KZERO)
                                     rw_kernel_data Page4K Kernel);
          match r3 with
          | Err e => Ok (Err e, m3)
          | Val _ => Ok (Val (physaddr_as_ptr_mut_offset_from_kzero pa), m3)
          end
      end
  end.

Definition map_user_data_page_pa (a : Aspace) (va : Z) (m : Mem P)
    : res (result PhysAddr PageAllocError * Mem P) :=
  '(r, p1) ← alloc_physpage (pages m);
  let m1 := with_pages m p1 in
  match r with
  | Err e => Ok (Err e, m1)
  | Val pa =>
      range ← Range.with_pa_len pa PAGE_SIZE_4K;
      '(r2, m2) ← map_or_fail (map_phys_range m1 (root a) range (AddrMapping va) rw_user_data Page4K User);
      match r2 with
      | Err e => Ok (Err e, m2)
      | Val _ => Ok (Val pa, m2)
      end
  end.

Definition map_user_data_page (a : Aspace) (va : Z) (m : Mem P)
    : res (result unit PageAllocError * Mem P) :=
  '(r, m1) ← map_user_data_page_pa a va m;
  Ok (match r with Val _ => Val tt | Err e => Err e end, m1).

Definition map_mmio (a : Aspace) (range : PhysRange) (va : Z) (m : Mem P)
    : res (result unit PageAllocError * Mem P) :=
  map_or_fail (map_phys_range m (root a) range (AddrMapping va) rw_user_mmio Page4K User).

(** [pagealloc::allocate_virtpage]: the address of the mapped page. *)
Definition allocate_virtpage (m : Mem P) (page_table : Z) (entry : Entry) (va : VaMapping)
    (t : RootPageTableType) : res (result Z PageAllocError * Mem P) :=
  '(r, p1) ← alloc_physpage (pages m);
  let m1 := with_pages m p1 in
  match r with
  | Err e => Ok (Err e, m1)
  | Val pa =>
      range ← Range.with_pa_len pa PAGE_SIZE_4K;
      '(r2, m2) ← map_phys_range m1 page_table range va entry Page4K t;
      Ok (match r2 with Val v => Val (vstart v) | Err _ => Err UnableToMap end, m2)
  end.
End aspace.

(** ** Mapping one page *)

Section aspace_proofs.
Context {P : Type} `{!PageAllocator P} (alloc_inv : P -> Prop) `{!AllocLaws P alloc_inv}.
Implicit Types m : Mem P.

Lemma singleton_list {A} (l : list A) a : NoDup l -> (forall x, x ∈ l <-> x = a) -> l = [a].
Proof.
  intros Hnd Hx; destruct l as [|b l].
  - pose proof (proj2 (Hx a) eq_refl) as Hin; inversion Hin.
  - assert (b = a) as -> by (apply Hx; left); destruct l as [|c l]; [done|].
    assert (c = a) as -> by (apply Hx; right; left); inversion Hnd as [|? ? Hni]; destruct Hni; left.
Qed.

Lemma one_page_steps pa : page_pa pa ->
  Range.step_by_rounded {| start := pa; end_ := pa + 4096 |} 4096 = Ok [pa].
Proof.
  intros [Hr Hm]; assert (Hd : (4096 | pa)) by (by apply Z.mod_divide).
  change 4096 with (2 ^ 12) at 2.
  destruct (step_by_rounded_spec {| start := pa; end_ := pa + 4096 |} 12) as (pas & -> & Hnd & Hin);
    [lia|unfold is_u; simpl; rewrite W64_val; lia..|simpl; rewrite W64_val; lia|].
  f_equal; apply singleton_list; [done|]; intros x; rewrite Hin; simpl; change (2 ^ 12) with 4096.
  split; [|intros ->; split; [done|lia]]; intros [Hdx Hx].
  destruct (Z.lt_trichotomy x pa) as [Hlt|[?|Hgt]]; [|done|].
  - pose proof (divide_gap 4096 x pa ltac:(lia) Hdx Hd Hlt); lia.
  - pose proof (divide_gap 4096 pa x ltac:(lia) Hd Hdx Hgt); lia.
Qed.

(** [map_phys_range] of one page is one [map_to]. *)
Lemma map_phys_range_one m rt pa va mapping e t : page_pa pa -> map mapping pa = va -> va + 4096 < W64 ->
  map_phys_range m rt {| start := pa; end_ := pa + 4096 |} mapping e Page4K t =
    ('(r, m1) ← map_to m rt (with_phys_addr e pa) va Page4K t;
     Ok (match r with Val _ => Val {| vstart := va; vend := va + 4096 |} | Err er => Err er end, m1)).
Proof.
  intros Hp Hmap Hva; unfold map_phys_range; change (size Page4K) with 4096; cbn [start end_].
  pose proof Hp as [_ Hm]; unfold Pa.is_multiple_of; change (4096 =? 0) with false.
  assert (Hm' : (pa + 4096) mod 4096 = 0)
    by (rewrite <- Z.add_mod_idemp_r by lia; change (4096 mod 4096) with 0; by rewrite Z.add_0_r).
  rewrite Hm, Hm'; cbn [Z.eqb negb orb]; rewrite (one_page_steps pa Hp); cbn [mbind res_bind map_pages_to].
  rewrite Hmap, bind_uadd by (change (size Page4K) with 4096; lia).
  destruct (map_to _ _ _ _ _ _) as [[r m1]| |]; cbn [mbind res_bind]; [|done..]; by destruct r.
Qed.

Lemma with_pages_ready m p1 t T : ready alloc_inv m t T -> alloc_inv p1 ->
  (forall x, in_use (pages m) x -> in_use p1 x) -> ready alloc_inv (with_pages m p1) t T.
Proof.
  intros [[H1 H2 H3] _ [Hr Hu] Hap] Hp HU; split; [|done| |done].
  - split; auto; intros p x Hx; destruct (H1 p x Hx); split; [done|by apply HU].
  - split; [done|by apply HU].
Qed.

(** The outcome of giving a process a fresh data page. *)
Definition page_given (m m' : Mem P) (T va : Z) (r : result PhysAddr PageAllocError) : Prop :=
  match r with
  | Val pa => page_pa pa /\ ~ in_use (pages m) pa /\ in_use (pages m') pa /\
      forall va', mappable va' ->
        (same_page va va' -> exists e, leaf (words m') T va' = Some e /\ phys_addr e = pa /\
           entry_user_ok e true = true) /\
        (~ same_page va va' -> leaf (words m') T va' = leaf (words m) T va')
  | Err _ => forall va', mappable va' -> leaf (words m') T va' = leaf (words m) T va'
  end.

Lemma user_data_entry pa : page_pa pa ->
  let e := with_page_or_table (with_phys_addr rw_user_data pa) true in
  valid (with_phys_addr rw_user_data pa) = true /\ phys_addr e = pa /\ entry_user_ok e true = true.
Proof.
  intros Hp e; unfold e; rewrite valid_phys, phys_addr_page, phys_addr_with by done; split_and!; auto.
  unfold entry_user_ok, access_permission, with_page_or_table, with_phys_addr, with_addr.
  by rewrite !get_with_other by lia.
Qed.

(** What giving a process a page does to the memory. *)
Lemma map_user_data_page_spec (m : Mem P) (T va : Z) (Hready : ready alloc_inv m User T)
    (Hva : 0 <= va /\ va + 4096 < W64) :
  exists r m', map_user_data_page_pa {| root := T + KZERO; root_pa := T |} va m = Ok (r, m') /\
    ready alloc_inv m' User T /\ page_given m m' T va r /\ outside m m' T /\
    (forall x, in_use (pages m) x -> in_use (pages m') x) /\ ttbr0_el1 m' = ttbr0_el1 m /\ ttbr1_el1 m' = ttbr1_el1 m.
Proof.
  pose proof Hready as [_ Hal _ _]; unfold map_user_data_page_pa.
  destruct (alloc_spec (pages m) Hal) as (r & p1 & -> & Hp1 & Hr); cbn [mbind res_bind].
  destruct r as [pa|e].
  2:{ exists (Err e), (with_pages m p1); split_and!; auto.
      - apply with_pages_ready; auto; intros x; by apply Hr.
      - intros va' _; done.
      - intros x ???; done.
      - intros x Hx; by apply Hr. }
  destruct Hr as (Hpa & Hfresh & HU); unfold Range.with_pa_len; change PAGE_SIZE_4K with 4096.
  rewrite bind_uadd by (destruct Hpa; rewrite W64_val; lia); cbn [mbind res_bind root].
  rewrite (map_phys_range_one _ _ pa va) by (done || lia).
  destruct (user_data_entry pa Hpa) as (Hv & He & Hok).
  assert (Hrd1 : ready alloc_inv (with_pages m p1) User T)
    by (apply with_pages_ready; auto; intros x Hx; apply HU; auto).
  destruct (map_to_spec alloc_inv (with_pages m p1) User T va (with_phys_addr rw_user_data pa) Hrd1 (mappable_or_slot va) Hv)
    as (r2 & m2 & -> & Hrd2 & Hmap & _ & Hunt & Huse & Ht0 & Ht1 & _).
  assert (Huse' : forall x, in_use (pages m) x -> in_use (pages m2) x) by (intros x Hx; apply Huse, HU; auto).
  assert (Hunt' : outside m m2 T) by (intros x Hx; apply (Hunt x), HU; auto).
  destruct r2 as [[]|e2]; cbn [mbind res_bind map_or_fail].
  - eexists (Val pa), m2; split_and!; auto.
    split_and!; [apply Hpa..|done|apply Huse, HU; auto|]; intros va' Hm'.
    destruct Hmap as [_ Hmap]; destruct (Hmap va' Hm') as [Ha Hb]; split; [|exact Hb].
    intros Hsp; eexists; split; [by apply Ha|done].
  - exists (Err UnableToMap), m2; split_and!; auto.
Qed.

(** C15: giving a process a heap page: [map_user_data_page_pa] does not panic; on
    success it returns a page that was free, now in use, which the process can
    write at the address given, and every other address of the process
    translates as before; on failure no translation changes.  No page in use
    outside the process's own tables is written, so neither the kernel nor
    another process is affected. *)
Theorem map_user_data_page_correct (m : Mem P) (T va : Z) (Hready : ready alloc_inv m User T)
    (Hva : 0 <= va /\ va + 4096 < W64) :
  exists r m', map_user_data_page_pa {| root := T + KZERO; root_pa := T |} va m = Ok (r, m') /\
    ready alloc_inv m' User T /\ page_given m m' T va r /\ outside m m' T.
Proof. destruct (map_user_data_page_spec m T va Hready Hva) as (r & m' & H1 & H2 & H3 & H4 & _); by exists r, m'. Qed.
End aspace_proofs.

(** ** A small machine

    128 KiB of memory; the root of a process at page 1, empty but for its
    self-pointer, and a kernel root at page 2. *)
Module AsDemo.

Definition palloc : BitmapPageAlloc :=
  {| bitmaps := [[7; 0]; [0; 0]]; alloc_page_size := 4096; ba_end := 32 * 4096; next_pa_to_scan := 0 |}.

#[local] Instance demo_alloc : PageAllocator BitmapPageAlloc := PhysPageAllocator 2 2.
#[local] Instance demo_laws : AllocLaws BitmapPageAlloc (phys_inv 2 2) := phys_laws 2 2.

Lemma palloc_inv : phys_inv 2 2 palloc.
Proof.
  split_and!; [|done|unfold npages; lia].
  split; unfold npages; simpl.
  - split; [done|]; repeat constructor; unfold is_u, W8; simpl; lia.
  - unfold geometry, npages; simpl; rewrite W64_val; split_and!; try lia; exists 12; lia.
  - lia.
  - intros; lia.
  - split; [apply Z.divide_0_r|lia].
Qed.

Definition T : PhysAddr := 0x1000.

Definition machine : Mem BitmapPageAlloc :=
  {| words := {[ T + 8 * 511 := table_entry T ]}; ttbr0_el1 := T; ttbr1_el1 := 0x2000; pages := palloc |}.

Lemma T_page : page_pa T.
Proof. split; [unfold T; lia|done]. Qed.

Lemma T_in_use : in_use (pages machine) T.
Proof. split_and!; [done|done|done|vm_compute; reflexivity]. Qed.

(** The only table is the root. *)
Lemma machine_walk p t : walk (words machine) T p = Some t -> p = [] /\ t = T.
Proof.
  revert t; induction p as [|j r IH]; intros t; [by intros [= <-]|]; cbn [walk].
  destruct (walk (words machine) T r) as [t0|]; [|done]; destruct (IH t0 eq_refl) as [-> ->].
  destruct (step_ok [] j) eqn:Hs; cbn [andb]; [|done]; intros Hw; exfalso.
  assert (Hj : j <> 511) by (intros ->; discriminate Hs).
  assert (Hz : word (words machine) (T + 8 * j) = 0).
  { unfold word; simpl; rewrite lookup_singleton_ne; [done|]; lia. }
  by rewrite Hz in Hw.
Qed.

Lemma machine_tree : tree_ok (words machine) T (in_use (pages machine)).
Proof.
  split.
  - intros p t [-> ->]%machine_walk; split; [exact T_page|exact T_in_use].
  - intros p q t [-> _]%machine_walk [-> _]%machine_walk; done.
  - unfold word; simpl; rewrite lookup_singleton_eq; apply table_entry_spec, T_page.
Qed.

Lemma machine_ready : ready (phys_inv 2 2) machine User T.
Proof.
  split; [exact machine_tree|exact palloc_inv|split; [exact T_page|exact T_in_use]|by left].
Qed.

Definition page_entry : Entry := with_phys_addr rw_user_data 0x10000.
Definition va0 : Z := 0x200000.

Lemma map_to_correct_witness :
  exists m', map_to machine (T + KZERO) page_entry va0 Page4K User = Ok (Val tt, m') /\
    leaf (words m') T va0 = Some (with_page_or_table page_entry true).
Proof.
  destruct (map_to_correct (phys_inv 2 2) machine User T va0 page_entry machine_ready (mappable_or_slot va0))
    as (r & m' & H & _ & Hmap & _); [reflexivity|].
  assert (Hr : fst <$> map_to machine (T + KZERO) page_entry va0 Page4K User = Ok (Val tt))
    by (vm_compute; reflexivity).
  rewrite H in Hr; injection Hr as ->; exists m'; split; [exact H|].
  apply Hmap; [apply mappable_root; discriminate|intros l; reflexivity].
Defined.

Lemma map_user_data_page_correct_witness :
  exists m', map_user_data_page_pa {| root := T + KZERO; root_pa := T |} va0 machine = Ok (Val 0x3000, m') /\
    outside machine m' T.
Proof.
  destruct (map_user_data_page_correct (phys_inv 2 2) machine T va0 machine_ready) as (r & m' & H & _ & _ & Hu);
    [split; [discriminate|reflexivity]|].
  assert (Hr : fst <$> map_user_data_page_pa {| root := T + KZERO; root_pa := T |} va0 machine = Ok (Val 0x3000))
    by (vm_compute; reflexivity).
  rewrite H in Hr; injection Hr as ->; exists m'; split; [exact H|exact Hu].
Defined.

Lemma machine_formed : formed (words machine) T.
Proof.
  intros va l t Hm Hw Hv; exfalso; destruct (machine_walk _ _ Hw) as [Hp ->]; destruct l; try discriminate Hp.
  pose proof (mappable_level0 va Hm) as Hn; unfold RECURSIVE_SLOT in Hn.
  revert Hv Hn; generalize (va_index va Level0) as j; intros j Hv Hn.
  assert (Hz : word (words machine) (T + 8 * j) = 0).
  { unfold word; simpl; rewrite lookup_singleton_ne; [done|]; lia. }
  rewrite Hz in Hv; discriminate Hv.
Qed.

(** A state in which one page is mapped. *)
Lemma one_page : exists m' : Mem BitmapPageAlloc, user_live m' /\ formed (words m') (ttbr0_el1 m') /\
  forall a, va0 <= a < va0 + 4096 -> el0_access m' true a.
Proof.
  destruct (map_to_full (phys_inv 2 2) machine User T va0 page_entry machine_ready (mappable_or_slot va0))
    as (r & m' & H & Hrd & Hmap & _ & _ & _ & Ht & _ & _ & Hf); [reflexivity|].
  assert (Hr : fst <$> map_to machine (T + KZERO) page_entry va0 Page4K User = Ok (Val tt))
    by (vm_compute; reflexivity).
  rewrite H in Hr; injection Hr as ->.
  assert (Ht0 : ttbr0_el1 m' = T) by exact Ht.
  assert (Hfm : formed (words m') (ttbr0_el1 m')) by (rewrite Ht0; apply Hf; [reflexivity|exact machine_formed]).
  exists m'; split; [split; rewrite Ht0; apply Hrd|]; split; [exact Hfm|]; intros a Ha.
  assert (Hsp : same_page va0 a) by (apply page_same_page; [done|lia]).
  apply el0_access_ok; [unfold va0, RECURSIVE_BASE in *; lia|exact Hfm|].
  eexists; rewrite Ht0; split; [apply Hmap; [apply below_mappable; unfold va0, RECURSIVE_BASE in *; lia|exact Hsp]|reflexivity].
Qed.

Lemma user_range_ok_exact_witness : exists m' : Mem BitmapPageAlloc, user_range_ok m' va0 4096 true = Ok true.
Proof.
  destruct one_page as (m' & Hu & Hf & Ha); exists m'.
  destruct (user_range_ok_exact m' va0 4096 true Hu Hf) as (b & Hb & Hiff).
  - unfold va0; lia.
  - lia.
  - vm_compute; discriminate.
  - rewrite Hb; f_equal; apply Hiff; exact Ha.
Defined.

End AsDemo.
