(* ===== verification/Device.v ===== *)
(** * Devices ([aarch64/src/deviceutil.rs], [aarch64/src/io.rs], the device
      mappings of [aarch64/src/vm.rs])

    Mapping the registers of a device into the kernel half, over the page
    tables of [Vm], and access to a register by its offset. *)

From S2P Require Import Prelude Addr BitmapAlloc Vm Aspace.
Import Pt.

Module Dv.

(** ** Mapping a device *)

(** The cursor of [next_free_device_page4k], a counter of its own beside the memory. *)
Record Kmem (P : Type) := { kmem : Mem P; next_free_device_page_va : Z }.
Arguments kmem {P} _.
Arguments next_free_device_page_va {P} _.

Inductive DevError := FailedToMapRegister | FailedToMapBuffer.

Section devices.
Context {P : Type} `{!PageAllocator P}.
Implicit Types k : Kmem P.

(** The value before the update. *)
Definition next_free_device_page4k k : res (VaMapping * Kmem P) :=
  let current := next_free_device_page_va k in
  n ← uadd current (size Page4K);
  Ok (AddrMapping current, {| kmem := kmem k; next_free_device_page_va := n |}).

Definition map_device_register k (physrange : PhysRange) (page_size : PageSize)
    : res (result VirtRange DevError * Kmem P) :=
  page_physrange ← Range.round physrange (size page_size);
  '(va, k1) ← next_free_device_page4k k;
  '(r, m) ← map_phys_range (kmem k1) (kernel_pagetable (kmem k1)) page_physrange va rw_device page_size Kernel;
  let k2 := {| kmem := m; next_free_device_page_va := next_free_device_page_va k1 |} in
  match r with
  | Val vr =>
      offset ← usub (vstart vr) (start page_physrange);
      v ← from_physrange physrange offset;
      Ok (Val v, k2)
  | Err _ => Ok (Err FailedToMapRegister, k2)
  end.

(** [expect]s a page. *)
Definition alloc_device_page k (page_size : PageSize) : res (result (VirtRange * PhysRange) DevError * Kmem P) :=
  '(r, p1) ← alloc_physpage (pages (kmem k));
  match r with
  | Err _ => Panic
  | Val page_pa =>
      page_physrange ← Range.with_pa_len page_pa (size page_size);
      '(va, k1) ← next_free_device_page4k {| kmem := with_pages (kmem k) p1; next_free_device_page_va := next_free_device_page_va k |};
      '(r, m) ← map_phys_range (kmem k1) (kernel_pagetable (kmem k1)) page_physrange va rw_device page_size Kernel;
      let k2 := {| kmem := m; next_free_device_page_va := next_free_device_page_va k1 |} in
      Ok (match r with Val vr => Val (vr, page_physrange) | Err _ => Err FailedToMapBuffer end, k2)
  end.
End devices.

(** ** Pages of a range *)

Lemma step_by_list n : forall fuel s step, 0 < step -> 0 <= s -> s + Z.of_nat n * step < W64 -> (n < fuel)%nat ->
  Range.step_by_from fuel s (s + Z.of_nat n * step) step = (fun i => s + Z.of_nat i * step) <$> seq 0 n.
Proof.
  induction n as [|n IH]; intros fuel s step Hst Hs Hw Hf; (destruct fuel as [|fuel]; [lia|]); cbn [Range.step_by_from].
  - by rewrite (proj2 (Z.ltb_ge _ _)) by lia.
  - rewrite (proj2 (Z.ltb_lt s _)) by lia; unfold Pa.forward_checked, checked_add; rewrite (proj2 (Z.ltb_lt (s + step) W64)) by lia.
    cbn [seq fmap list_fmap]; f_equal; [lia|]; replace (s + Z.of_nat (S n) * step) with (s + step + Z.of_nat n * step) by lia.
    rewrite IH by lia; rewrite <- seq_shift, <- list_fmap_compose; apply list_fmap_ext; intros; cbn [compose]; lia.
Qed.

(** The pages of an aligned range, in order. *)
Definition page_list (pa : Z) (n : nat) : list PhysAddr := (fun i => pa + Z.of_nat i * 4096) <$> seq 0 n.

Lemma aligned_steps pa n : 0 <= pa -> pa mod 4096 = 0 -> pa + Z.of_nat n * 4096 + 4096 < W64 ->
  Range.step_by_rounded {| start := pa; end_ := pa + Z.of_nat n * 4096 |} 4096 = Ok (page_list pa n).
Proof.
  intros Hp Hm Hw; unfold Range.step_by_rounded, Pa.round_down2, Pa.round_up2; cbn [start end_].
  change (round_down2_u64 pa 4096) with (round_down2_u64 pa (2 ^ 12)); change (round_up2_u64 ?x 4096) with (round_up2_u64 x (2 ^ 12)).
  rewrite round_down2_eval, round_up2_eval by (unfold is_u; lia); cbn [mbind res_bind]; change (2 ^ 12) with 4096.
  rewrite Hm, Z.sub_0_r; replace (pa + Z.of_nat n * 4096 + 4096 - 1) with (pa + (4095 + Z.of_nat n * 4096)) by lia.
  rewrite <- Z.add_mod_idemp_l, Hm, Z.add_0_l, Z.mod_add by lia; change (4095 mod 4096) with 4095; f_equal.
  replace (pa + (4095 + Z.of_nat n * 4096) - 4095) with (pa + Z.of_nat n * 4096) by lia; unfold Range.step_by.
  apply step_by_list; [lia|lia|lia|]; replace (pa + Z.of_nat n * 4096 - pa) with (Z.of_nat n * 4096) by lia; rewrite Z.div_mul by lia; lia.
Qed.

Lemma page_list_S pa n : page_list pa (S n) = pa :: page_list (pa + 4096) n.
Proof.
  unfold page_list; cbn [seq fmap list_fmap]; f_equal; [lia|]; rewrite <- seq_shift, <- list_fmap_compose.
  apply list_fmap_ext; intros; cbn [compose]; lia.
Qed.

(** Two addresses that index the same entries agree in 36 bits of their page number. *)
Lemma same_page_number va va' : same_page va va' -> (va / 4096) mod 2 ^ 36 = (va' / 4096) mod 2 ^ 36.
Proof.
  intros H; pose proof (H Level0) as H0; pose proof (H Level1) as H1; pose proof (H Level2) as H2; pose proof (H Level3) as H3.
  rewrite !va_index_div in *; cbn [level_shift] in *.
  change (2 ^ 36) with (512 * (512 * (512 * 512))); change (2 ^ 12) with 4096 in *.
  rewrite !Z.rem_mul_r, !Z.div_div by lia; change (4096 * 512) with (2 ^ 21); change (2 ^ 21 * 512) with (2 ^ 30); change (2 ^ 30 * 512) with (2 ^ 39).
  by rewrite H0, H1, H2, H3.
Qed.

Lemma same_page_near va i j : 0 <= i < 2 ^ 36 -> 0 <= j < 2 ^ 36 -> same_page (va + i * 4096) (va + j * 4096) -> i = j.
Proof.
  intros Hi Hj H%same_page_number; rewrite !Z.div_add in H by lia.
  assert (D : (2 ^ 36 | (va / 4096 + i) - (va / 4096 + j))) by (apply Z.mod_divide; [done|]; rewrite Zminus_mod, H, Z.sub_diag; done).
  destruct D as [q Hq]; lia.
Qed.

Lemma same_page_sym va va' : same_page va va' -> same_page va' va.
Proof. intros H l; by rewrite H. Qed.
Lemma same_page_trans a b c : same_page a b -> same_page b c -> same_page a c.
Proof. intros H1 H2 l; by rewrite H1. Qed.

(** ** Mapping a range *)

(** The entry of a 4 KiB page. *)
Definition page_entry (e : Entry) (pa : PhysAddr) : Entry := with_page_or_table (with_phys_addr e pa) true.

(** [n] pages from [va] on translate to the pages from [pa] on; nothing else changed. *)
Definition range_mapped {lp : Looped} (w w' : gmap Z Z) (T va pa : Z) (n : nat) (e : Entry) : Prop :=
  forall va', mappable va' ->
    (forall i, (i < n)%nat -> same_page (va + Z.of_nat i * 4096) va' -> leaf w' T va' = Some (page_entry e (pa + Z.of_nat i * 4096))) /\
    ((forall i, (i < n)%nat -> ~ same_page (va + Z.of_nat i * 4096) va') -> leaf w' T va' = leaf w T va').

Lemma range_mapped_nil {lp : Looped} w w' T va pa e : (forall va', mappable va' -> leaf w' T va' = leaf w T va') -> range_mapped w w' T va pa 0 e.
Proof. intros H va' Hm; split; [intros i Hi; lia|auto]. Qed.

Lemma range_mapped_step {lp : Looped} w w1 w2 T va pa n e : (Z.of_nat n < 2 ^ 36) ->
  (forall va', mappable va' -> (same_page va va' -> leaf w1 T va' = Some (page_entry e pa)) /\ (~ same_page va va' -> leaf w1 T va' = leaf w T va')) ->
  range_mapped w1 w2 T (va + 4096) (pa + 4096) n e -> range_mapped w w2 T va pa (S n) e.
Proof.
  intros Hn H1 H2 va' Hm; destruct (H1 va' Hm) as [Ha Hb], (H2 va' Hm) as [Hc Hd]; split.
  - intros [|i] Hi Hsp.
    + replace (va + Z.of_nat 0 * 4096) with va in Hsp by lia; replace (pa + Z.of_nat 0 * 4096) with pa by lia.
      rewrite Hd; [by apply Ha|]; intros i Hi' Hsp'.
      assert (Z.of_nat 0 = Z.of_nat i + 1); [|lia]; apply (same_page_near va); [lia..|].
      replace (va + Z.of_nat 0 * 4096) with va by lia; replace (va + (Z.of_nat i + 1) * 4096) with (va + 4096 + Z.of_nat i * 4096) by lia.
      eapply same_page_trans; [exact Hsp|by apply same_page_sym].
    + replace (pa + Z.of_nat (S i) * 4096) with (pa + 4096 + Z.of_nat i * 4096) by lia; apply Hc; [lia|].
      by replace (va + 4096 + Z.of_nat i * 4096) with (va + Z.of_nat (S i) * 4096) by lia.
  - intros Hno; rewrite Hd, Hb; [done| |].
    + specialize (Hno 0%nat ltac:(lia)); by replace (va + Z.of_nat 0 * 4096) with va in Hno by lia.
    + intros i Hi; specialize (Hno (S i) ltac:(lia)); by replace (va + 4096 + Z.of_nat i * 4096) with (va + Z.of_nat (S i) * 4096) by lia.
Qed.

Section range.
Context {lp : Looped} {P : Type} `{!PageAllocator P} (alloc_inv : P -> Prop) `{!AllocLaws P alloc_inv}.
Implicit Types m : Mem P.

(** What every step of the loop leaves: a tree that is still well formed, and
    the rest of the memory as it was. *)
Record steady (m m' : Mem P) (t : RootPageTableType) (T : PhysAddr) : Prop := {
  st_ready : ready alloc_inv m' t T;
  st_outside : outside m m' T;
  st_use : forall x, in_use (pages m) x -> in_use (pages m') x;
  st_ttbr0 : ttbr0_el1 m' = ttbr0_el1 m;
  st_ttbr1 : ttbr1_el1 m' = ttbr1_el1 m;
}.

Lemma outside_trans m1 m2 m3 T : outside m1 m2 T -> (forall x, in_use (pages m1) x -> in_use (pages m2) x) ->
  outside m2 m3 T -> outside m1 m3 T.
Proof.
  intros H1 Hu H2 x Hx Hp Hn; destruct (H1 x Hx Hp Hn) as [Hn2 Hw]; destruct (H2 x (Hu x Hx) Hp Hn2) as [Hn3 Hw'].
  split; [done|]; intros j Hj; by rewrite Hw', Hw.
Qed.

Lemma steady_refl m t T : ready alloc_inv m t T -> steady m m t T.
Proof. intros H; split; auto; intros x _ _ Hn; auto. Qed.

Lemma steady_trans m1 m2 m3 t T : steady m1 m2 t T -> steady m2 m3 t T -> steady m1 m3 t T.
Proof. intros [_ H1 H2 H3 H4] [K0 K1 K2 K3 K4]; split; auto; [by apply (outside_trans m1 m2 m3)|congruence..]. Qed.

(** The outcome of mapping [n] pages: all of them, or those before the page at
    which the tables could not be extended. *)
Definition range_outcome (m m' : Mem P) (T va pa : Z) (n : nat) (e : Entry) (ok : bool) : Prop :=
  if ok then range_mapped (words m) (words m') T va pa n e else exists k, (k < n)%nat /\ range_mapped (words m) (words m') T va pa k e.

Lemma map_pages_to_spec n : forall m t T e va pa mapping sv, ready alloc_inv m t T -> valid e = true -> Z.of_nat n <= 2 ^ 36 ->
  0 <= va -> va + Z.of_nat n * 4096 < W64 -> (forall i, (i < n)%nat -> mappable (va + Z.of_nat i * 4096)) ->
  exists r m', map_pages_to m (T + KZERO) (page_list pa n) mapping e Page4K t (Some sv) (va - 4096) va = Ok (r, m') /\ steady m m' t T /\
    range_outcome m m' T va pa n e (match r with Val _ => true | Err _ => false end) /\
    (forall x, r = Val x -> x = (Some sv, va + Z.of_nat n * 4096)).
Proof.
  induction n as [|n IH]; intros m t T e va pa mapping sv Hr Hv Hn H0 Hw Hmp.
  - cbn [map_pages_to]; exists (Val (Some sv, va)), m; split_and!; [done|by apply steady_refl|by apply range_mapped_nil|].
    intros x [= <-]; do 2 f_equal; lia.
  - rewrite page_list_S; cbn [map_pages_to]; change (size Page4K) with 4096; rewrite uadd_ok by lia; cbn [mbind res_bind].
    rewrite uadd_ok by lia; cbn [mbind res_bind]; replace (va - 4096 + 4096) with va by lia.
    assert (Hmv : mappable va) by (specialize (Hmp 0%nat ltac:(lia)); by replace (va + Z.of_nat 0 * 4096) with va in Hmp by lia).
    destruct (map_to_spec alloc_inv m t T va (with_phys_addr e pa) Hr (or_introl Hmv)) as (r1 & m1 & -> & Hr1 & Hm1 & _ & Ho1 & Hu1 & Ht0 & Ht1 & _);
      [by rewrite valid_phys|]; cbn [mbind res_bind]; assert (Hst : steady m m1 t T) by (by split).
    destruct r1 as [[]|er]; cbn [mapped] in Hm1; [destruct Hm1 as [_ Hm1]|].
    + destruct (IH m1 t T e (va + 4096) (pa + 4096) mapping sv Hr1 Hv ltac:(lia) ltac:(lia) ltac:(lia)) as (r & m' & Heq & Hst' & Hout & Hval).
      { intros i Hi; replace (va + 4096 + Z.of_nat i * 4096) with (va + Z.of_nat (S i) * 4096) by lia; apply Hmp; lia. }
      replace (va + 4096 - 4096) with va in Heq by lia; exists r, m'; split; [exact Heq|]; split; [by eapply steady_trans|]; split.
      * destruct r as [x|er]; cbn [range_outcome] in *; [by apply (range_mapped_step _ (words m1)); [lia| |]|].
        destruct Hout as (k & Hk & Hout); exists (S k); split; [lia|]; apply (range_mapped_step _ (words m1)); [lia| |]; done.
      * intros x ->; rewrite (Hval x eq_refl); f_equal; lia.
    + exists (Err er), m1; split_and!; [done|done| |done]; exists 0%nat; split; [lia|]; by apply range_mapped_nil.
Qed.

(** The first page takes its address from the mapping, the others follow it. *)
Lemma map_pages_first m root pas mapping e t : 4096 <= map mapping (hd 0 pas) -> map mapping (hd 0 pas) < W64 -> pas <> [] ->
  map_pages_to m root pas mapping e Page4K t None 0 0 =
  map_pages_to m root pas mapping e Page4K t (Some (map mapping (hd 0 pas))) (map mapping (hd 0 pas) - 4096) (map mapping (hd 0 pas)).
Proof.
  intros H1 H2 Hne; destruct pas as [|pa pas]; [done|]; cbn [map_pages_to hd] in *; change (size Page4K) with 4096.
  by rewrite (uadd_ok (map mapping pa - 4096)), Z.sub_add by lia.
Qed.

(** Mapping a range of pages: on an aligned range [map_phys_range] does not
    panic; on success it returns the virtual range of the same length that
    starts where the mapping puts the first page, each of its pages translates
    to the corresponding physical page with the attributes given and every
    other translation is as before; an empty range is refused; when the tables
    cannot be extended, the pages before the failing one stay mapped and nothing
    else changes. *)
Lemma map_phys_range_spec m t T pa n mapping e (Hready : ready alloc_inv m t T) (Hv : valid e = true)
    (Hpa : 0 <= pa) (Hmod : pa mod 4096 = 0) (Hpw : pa + Z.of_nat n * 4096 + 4096 < W64)
    (Hn : Z.of_nat n <= 2 ^ 36) (Hva : 4096 <= map mapping pa) (Hvw : map mapping pa + Z.of_nat n * 4096 < W64)
    (Hmp : forall i, (i < n)%nat -> mappable (map mapping pa + Z.of_nat i * 4096)) :
  exists r m', map_phys_range m (T + KZERO) {| start := pa; end_ := pa + Z.of_nat n * 4096 |} mapping e Page4K t = Ok (r, m') /\ steady m m' t T /\
    match r with
    | Val vr => (0 < n)%nat /\ vr = {| vstart := map mapping pa; vend := map mapping pa + Z.of_nat n * 4096 |} /\
        range_mapped (words m) (words m') T (map mapping pa) pa n e
    | Err er => (n = 0%nat /\ er = PhysRangeIsZero /\ m' = m) \/
        exists k, (k < n)%nat /\ range_mapped (words m) (words m') T (map mapping pa) pa k e
    end.
Proof.
  unfold map_phys_range, Pa.is_multiple_of; change (size Page4K) with 4096; cbn [start end_]; change (4096 =? 0) with false.
  rewrite Z.mod_add, Hmod by lia; cbn [Z.eqb negb orb]; rewrite aligned_steps by done; cbn [mbind res_bind].
  destruct n as [|n].
  { exists (Err PhysRangeIsZero), m; split_and!; [done|by apply steady_refl|by left]. }
  assert (Hhd : hd 0 (page_list pa (S n)) = pa) by (rewrite page_list_S; done).
  rewrite map_pages_first by (rewrite ?Hhd, ?page_list_S; done || lia); rewrite Hhd.
  destruct (map_pages_to_spec (S n) m t T e (map mapping pa) pa mapping (map mapping pa)) as (r & m' & -> & Hst & Hout & Hval); [done..|lia|lia|done|].
  cbn [mbind res_bind]; destruct r as [x|er]; cbn [range_outcome] in Hout.
  - rewrite (Hval x eq_refl); eexists _, m'; split; [reflexivity|]; split; [done|]; split_and!; [lia|done|done].
  - eexists _, m'; split; [reflexivity|]; split; [done|by right].
Qed.

(** *** Device registers *)

(** The page of the first register and the number of pages the registers touch. *)
Definition first_page (r : PhysRange) : Z := start r - start r mod 4096.
Definition page_count (r : PhysRange) : nat := Z.to_nat ((end_ r - first_page r + 4095) / 4096).

(** Registers below 2^46, not empty. *)
Definition regs_ok (r : PhysRange) : Prop := 0 <= start r < end_ r /\ end_ r < 2 ^ 46.

(** The cursor is aligned and in the kernel half, clear of the recursive slot. *)
Definition cursor_ok (cur : Z) (n : nat) : Prop :=
  cur mod 4096 = 0 /\ KZERO <= cur /\ cur + Z.of_nat n * 4096 + 4096 < W64 /\ forall a, cur <= a < cur + Z.of_nat n * 4096 -> mappable a.

Lemma page_count_spec r : regs_ok r -> 0 <= first_page r <= start r /\ first_page r mod 4096 = 0 /\ start r - 4096 < first_page r /\
  (0 < page_count r)%nat /\ end_ r <= first_page r + Z.of_nat (page_count r) * 4096 < end_ r + 4096.
Proof.
  intros [Hs He]; unfold page_count, first_page; set (a := start r) in *; set (b := end_ r) in *.
  split_and!; Z.to_euclidean_division_equations; lia.
Qed.

Lemma round_pages r : regs_ok r -> Range.round r 4096 = Ok {| start := first_page r; end_ := first_page r + Z.of_nat (page_count r) * 4096 |}.
Proof.
  intros Hr; pose proof (page_count_spec r Hr) as (Hf & Hm & _ & _ & He); destruct Hr as [Hs Hb].
  unfold Range.round, Pa.round_down2, Pa.round_up2; change (round_down2_u64 ?x 4096) with (round_down2_u64 x (2 ^ 12)); change (round_up2_u64 ?x 4096) with (round_up2_u64 x (2 ^ 12)).
  rewrite round_down2_eval, round_up2_eval by (unfold is_u; rewrite ?W64_val; lia); cbn [mbind res_bind]; do 2 f_equal; change (2 ^ 12) with 4096.
  set (n := Z.of_nat (page_count r)) in *; clearbody n; Z.to_euclidean_division_equations; lia.
Qed.

(** An offset into the registers, as a page and an offset into it. *)
Lemma offset_page cur r o : cur mod 4096 = 0 -> regs_ok r -> 0 <= o < end_ r - start r ->
  let j := (start r mod 4096 + o) / 4096 in let a := cur + start r mod 4096 + o in
  (Z.to_nat j < page_count r)%nat /\ 0 <= j /\ cur + j * 4096 <= a < cur + j * 4096 + 4096 /\ same_page (cur + j * 4096) a /\
  a mod 4096 = (start r + o) mod 4096 /\ first_page r + j * 4096 + a mod 4096 = start r + o.
Proof.
  intros Hc Hr Ho j a; pose proof (page_count_spec r Hr) as (Hf & Hm & Hf' & Hp & He); destruct Hr as [Hs Hb].
  assert (Ha : cur + j * 4096 <= a < cur + j * 4096 + 4096) by (subst j a; Z.to_euclidean_division_equations; lia).
  assert (Hj : 0 <= j) by (subst j; apply Z.div_pos; [pose proof (Z.mod_pos_bound (start r) 4096); lia|lia]).
  assert (Hmod : a mod 4096 = (start r + o) mod 4096).
  { subst a; rewrite <- Z.add_assoc, <- Z.add_mod_idemp_l, Hc, Z.add_0_l, Z.add_mod_idemp_l by lia; done. }
  split_and!; try done; try lia.
  - assert (Z.of_nat (Z.to_nat j) < Z.of_nat (page_count r)); [|lia]; rewrite Z2Nat.id by done; subst j; unfold first_page in *; Z.to_euclidean_division_equations; lia.
  - apply page_same_page; [rewrite Z.mod_add by lia; done|done].
  - rewrite Hmod; subst j; unfold first_page; Z.to_euclidean_division_equations; lia.
Qed.

Lemma device_entry pa : page_pa pa -> phys_addr (page_entry rw_device pa) = pa.
Proof. intros Hp; unfold page_entry; by rewrite phys_addr_page, phys_addr_with. Qed.

(** The outcome of mapping the registers [r] at the cursor [cur]. *)
Definition device_mapped (m m' : Mem P) (T cur : Z) (r : PhysRange) (v : VirtRange) : Prop :=
  v = {| vstart := cur + start r mod 4096; vend := cur + start r mod 4096 + (end_ r - start r) |} /\
  range_mapped (words m) (words m') T cur (first_page r) (page_count r) rw_device.

(** Every address of the virtual range reaches the register meant. *)
Lemma device_reached m m' T cur r v o : device_mapped m m' T cur r v -> regs_ok r -> cursor_ok cur (page_count r) -> 0 <= o < end_ r - start r ->
  exists en, leaf (words m') T (vstart v + o) = Some en /\ phys_addr en + (vstart v + o) mod 4096 = start r + o.
Proof.
  intros [-> Hmap] Hr (Hc & _ & _ & Hcm) Ho; cbn [vstart]; destruct (offset_page cur r o Hc Hr Ho) as (Hj & Hj0 & Ha & Hsp & _ & Hpa).
  set (j := (start r mod 4096 + o) / 4096) in *; pose proof (page_count_spec r Hr) as (Hf & Hm & _ & Hp & He).
  assert (Hma : mappable (cur + start r mod 4096 + o)) by (apply Hcm; lia).
  exists (page_entry rw_device (first_page r + j * 4096)); destruct (Hmap _ Hma) as [H1 _].
  specialize (H1 (Z.to_nat j) Hj); rewrite Z2Nat.id in H1 by done; split; [by apply H1|].
  rewrite device_entry; [done|]; destruct Hr as [Hs Hb]; split; [nia|]; rewrite Z.mod_add by lia; done.
Qed.

Lemma map_device_register_spec (k : Kmem P) (r : PhysRange) (T : PhysAddr)
    (HT : ttbr1_el1 (kmem k) = T) (Hready : ready alloc_inv (kmem k) Kernel T) (Hr : regs_ok r)
    (Hc : cursor_ok (next_free_device_page_va k) (page_count r)) :
  exists res k', map_device_register k r Page4K = Ok (res, k') /\ steady (kmem k) (kmem k') Kernel T /\
    next_free_device_page_va k' = next_free_device_page_va k + 4096 /\
    match res with
    | Val v => device_mapped (kmem k) (kmem k') T (next_free_device_page_va k) r v
    | Err _ => exists n, (n < page_count r)%nat /\
        range_mapped (words (kmem k)) (words (kmem k')) T (next_free_device_page_va k) (first_page r) n rw_device
    end.
Proof.
  pose proof (page_count_spec r Hr) as (Hf & Hm & Hf' & Hp & He); destruct Hc as (Hc0 & HcK & HcW & HcM).
  set (cur := next_free_device_page_va k) in *; assert (HK : KZERO = 0xffff800000000000) by reflexivity.
  unfold map_device_register; change (size Page4K) with 4096; rewrite (round_pages r Hr); cbn [mbind res_bind start].
  unfold next_free_device_page4k; fold cur; change (size Page4K) with 4096; rewrite uadd_ok by lia; cbn [mbind res_bind kmem next_free_device_page_va].
  assert (HTp : page_pa T) by (apply (tr_pages _ _ _ (rd_tree _ _ _ _ Hready) [] T eq_refl)).
  assert (Hkp : kernel_pagetable (kmem k) = T + KZERO) by (unfold kernel_pagetable; rewrite root_ptr; unfold live_root; by rewrite HT).
  rewrite Hkp; destruct Hr as [Hs Hb].
  destruct (map_phys_range_spec (kmem k) Kernel T (first_page r) (page_count r) (AddrMapping cur) rw_device Hready) as (res & m' & -> & Hst & Hres);
    [reflexivity|lia|done|rewrite W64_val; lia|lia|cbn [map]; lia|cbn [map]; lia|intros i Hi; cbn [map]; apply HcM; lia|]; cbn [mbind res_bind map] in *.
  destruct res as [vr|er].
  - destruct Hres as (_ & -> & Hmap); cbn [vstart]; rewrite usub_ok by lia; cbn [mbind res_bind]; unfold from_physrange.
    rewrite !uadd_ok by lia; cbn [mbind res_bind].
    eexists _, _; split; [reflexivity|]; split; [done|]; split; [done|]; split; [f_equal; unfold first_page; lia|done].
  - eexists _, _; split; [reflexivity|]; split; [done|]; split; [done|].
    destruct Hres as [(Hz & _)|Hk]; [lia|done].
Qed.

(** [map_device_register] with 4 KiB pages does not panic; on success the
    virtual range has the length of the registers and each address in it
    translates to the register at the same offset, and every address outside
    the pages written translates as before; the cursor moves on by one page, the
    tables stay well formed and the rest of the memory is not written. *)
Lemma map_device_register_correct (k : Kmem P) (r : PhysRange) (T : PhysAddr)
    (HT : ttbr1_el1 (kmem k) = T) (Hready : ready alloc_inv (kmem k) Kernel T) (Hr : regs_ok r)
    (Hc : cursor_ok (next_free_device_page_va k) (page_count r)) :
  exists res k', map_device_register k r Page4K = Ok (res, k') /\ steady (kmem k) (kmem k') Kernel T /\
    next_free_device_page_va k' = next_free_device_page_va k + 4096 /\
    forall v, res = Val v -> vend v - vstart v = end_ r - start r /\
      (forall o, 0 <= o < end_ r - start r -> exists en, leaf (words (kmem k')) T (vstart v + o) = Some en /\ phys_addr en + (vstart v + o) mod 4096 = start r + o) /\
      (forall va', mappable va' -> (forall i, (i < page_count r)%nat -> ~ same_page (next_free_device_page_va k + Z.of_nat i * 4096) va') ->
        leaf (words (kmem k')) T va' = leaf (words (kmem k)) T va').
Proof.
  destruct (map_device_register_spec k r T HT Hready Hr Hc) as (res & k' & H1 & H2 & H3 & H4); exists res, k'; split_and!; [done..|].
  intros v ->; split; [destruct H4 as [-> _]; cbn [vstart vend]; lia|]; split.
  - intros o Ho; by apply (device_reached (kmem k) (kmem k') T (next_free_device_page_va k)).
  - intros va' Hm Hno; destruct H4 as [_ Hmap]; by apply (Hmap va' Hm).
Qed.

(** Two devices in a row: the cursor moves by one page however many pages a
    device has, so the second device takes the addresses of the first from its
    second page on: after both calls succeed, page 0 of the first device still
    translates as it did, but page [j], for [1 <= j <= ] the number of pages of the
    second device, translates to page [j - 1] of the second device. *)
Lemma device_mappings_overlap (k k1 k2 : Kmem P) (r1 r2 : PhysRange) (T : PhysAddr) (v1 v2 : VirtRange)
    (HT : ttbr1_el1 (kmem k) = T) (Hready : ready alloc_inv (kmem k) Kernel T) (Hr1 : regs_ok r1) (Hr2 : regs_ok r2)
    (Hc : cursor_ok (next_free_device_page_va k) (page_count r1 + page_count r2))
    (H1 : map_device_register k r1 Page4K = Ok (Val v1, k1)) (H2 : map_device_register k1 r2 Page4K = Ok (Val v2, k2)) (o : Z)
    (Ho : 0 <= o < end_ r1 - start r1) :
  let j := (start r1 mod 4096 + o) / 4096 in
  (j = 0 -> leaf (words (kmem k2)) T (vstart v1 + o) = leaf (words (kmem k1)) T (vstart v1 + o)) /\
  (1 <= j <= Z.of_nat (page_count r2) ->
    exists en, leaf (words (kmem k2)) T (vstart v1 + o) = Some en /\ phys_addr en = first_page r2 + (j - 1) * 4096).
Proof.
  intros j; pose proof Hc as (Hc0 & HcK & HcW & Hcm); set (cur := next_free_device_page_va k) in *.
  pose proof (page_count_spec r1 Hr1) as (_ & _ & _ & Hp1 & _); pose proof (page_count_spec r2 Hr2) as (Hf2 & Hm2 & _ & Hp2 & He2).
  destruct (map_device_register_spec k r1 T HT Hready Hr1) as (res1 & k1' & E1 & S1 & N1 & D1); [split_and!; [done|done|lia|intros a Ha; apply Hcm; lia]|].
  rewrite H1 in E1; injection E1 as <- <-; cbn beta iota in D1; fold cur in N1, D1.
  assert (HT1 : ttbr1_el1 (kmem k1) = T) by (by rewrite (st_ttbr1 _ _ _ _ S1)).
  destruct (map_device_register_spec k1 r2 T HT1 (st_ready _ _ _ _ S1) Hr2) as (res2 & k2' & E2 & S2 & N2 & D2).
  { rewrite N1; split_and!; [rewrite <- Z.add_mod_idemp_l, Hc0 by lia; done|lia|lia|intros a Ha; apply Hcm; lia]. }
  rewrite H2 in E2; injection E2 as <- <-; rewrite N1 in D2; destruct D1 as [-> _], D2 as [_ Hmap]; cbn [vstart].
  destruct (offset_page cur r1 o Hc0 Hr1 Ho) as (Hj & Hj0 & Ha & Hsp & _ & _); fold j in Hj, Hj0, Ha, Hsp.
  destruct (Hmap (cur + start r1 mod 4096 + o)) as [M1 M2]; [apply Hcm; lia|]; split; intros Hjj.
  - apply M2; intros i Hi Hsp'; rewrite Hjj in Hsp; pose proof (proj2 Hr2) as Hb2.
    assert (0 = Z.of_nat i + 1); [|lia]; apply (same_page_near cur); [lia..|].
    replace (cur + (Z.of_nat i + 1) * 4096) with (cur + 4096 + Z.of_nat i * 4096) by lia; eapply same_page_trans; [exact Hsp|by apply same_page_sym].
  - exists (page_entry rw_device (first_page r2 + (j - 1) * 4096)); split.
    + specialize (M1 (Z.to_nat (j - 1)) ltac:(lia)); rewrite Z2Nat.id in M1 by lia; apply M1.
      by replace (cur + 4096 + (j - 1) * 4096) with (cur + j * 4096) by lia.
    + apply device_entry; destruct Hr2 as [Hs Hb]; split; [nia|rewrite Z.mod_add by lia; done].
Qed.
End range.

(** ** Two devices of two pages *)
Module DvDemo.
Import AsDemo.
#[local] Existing Instance demo_alloc.
#[local] Existing Instance demo_laws.

Definition kmachine : Kmem BitmapPageAlloc :=
  {| kmem := {| words := words machine; ttbr0_el1 := 0x2000; ttbr1_el1 := T; pages := palloc |}; next_free_device_page_va := KZERO + 0x100000000000 |}.
Definition gicc : PhysRange := Range.new 0x8010000 0x8012000.
Definition gicd : PhysRange := Range.new 0x8000000 0x8002000.

Lemma kmachine_ready : ready (phys_inv 2 2) (kmem kmachine) Kernel T.
Proof. split; [exact machine_tree|exact palloc_inv|split; [exact T_page|exact T_in_use]|by left]. Qed.

Lemma demo_cursor n : (n <= 4)%nat -> cursor_ok (next_free_device_page_va kmachine) n.
Proof.
  intros Hn; split_and!; [reflexivity|by vm_compute|rewrite W64_val; cbn [kmachine next_free_device_page_va]; unfold KZERO; lia|].
  intros a Ha; apply mappable_root; rewrite va_index_div; cbn [level_shift kmachine next_free_device_page_va] in *; unfold KZERO, RECURSIVE_SLOT in *.
  replace (a / 2 ^ 39) with 33554208 by (Z.to_euclidean_division_equations; lia); discriminate.
Qed.

Lemma gic_ok : regs_ok gicc /\ regs_ok gicd.
Proof. split; split; cbn; lia. Qed.

End DvDemo.
End Dv.
