(* ===== verification/Vminit.v ===== *)
(** * The first page tables ([aarch64/src/pre_mmu/vminit.rs])

    [init_vm] runs before the MMU is on, at physical addresses: it takes pages
    from a fixed pool, builds the kernel's tables for the kernel image and the
    devicetree, and a second tree that maps the first gigabyte to itself for
    the jump to the upper half.  The tables it leaves are the kernel tree that
    the rest of the kernel edits with the functions of [Vm]. *)

From S2P Require Import Prelude Addr Fdt BitmapAlloc Vm Aspace Device.
Import Pt.

Module Vi.

(** ** The kernel image: the addresses that the linker script gives *)

Record Syms := {
  eboottext_pa : Z; text_pa : Z; etext_pa : Z; rodata_pa : Z; erodata_pa : Z;
  data_pa : Z; edata_pa : Z; bss_pa : Z; ebss_pa : Z;
  earlyvm_pagetables_pa : Z; eearlyvm_pagetables_pa : Z;
}.

Definition base_physaddr : PhysAddr := 0.
Definition boottext_physrange (y : Syms) : PhysRange := Range.new base_physaddr (eboottext_pa y).
Definition text_physrange (y : Syms) : PhysRange := Range.new (text_pa y) (etext_pa y).
Definition rodata_physrange (y : Syms) : PhysRange := Range.new (rodata_pa y) (erodata_pa y).
Definition data_physrange (y : Syms) : PhysRange := Range.new (data_pa y) (edata_pa y).
Definition bss_physrange (y : Syms) : PhysRange := Range.new (bss_pa y) (ebss_pa y).
Definition earlyvm_pages_physrange (y : Syms) : PhysRange :=
  Range.new (earlyvm_pagetables_pa y) (eearlyvm_pagetables_pa y).

(** ** The pool of pages *)

Record EarlyPageAllocator := { pages_pa : PhysAddr; num_pages : Z; next_page_idx : Z }.

(** The memory while the MMU is off: an address is a physical address. *)
Notation EMem := (Mem EarlyPageAllocator).

Definition set_word (m : EMem) (pa v : Z) : EMem := with_words m (<[pa := v]> (words m)).
Definition clear_page (m : EMem) (pa : PhysAddr) : EMem := with_words m (zero_page pa (words m)).

(** [EarlyPageAllocator::new]: every page of the pool is cleared. *)
Definition new (y : Syms) (w : gmap Z Z) : res (EarlyPageAllocator * gmap Z Z) :=
  sz ← Range.size (earlyvm_pages_physrange y);
  let pages_start := start (earlyvm_pages_physrange y) in
  let n := sz / 4096 in
  Ok ({| pages_pa := pages_start; num_pages := n; next_page_idx := 0 |},
      foldl (fun w i => zero_page (pages_start + 4096 * i) w) w (seqZ 0 n)).

Definition alloc_physpage (m : EMem) : res (result PhysAddr PageAllocError * EMem) :=
  let a := pages m in
  if next_page_idx a <? num_pages a then
    let next_page := pages_pa a + 4096 * next_page_idx a in
    i ← uadd (next_page_idx a) 1;
    let m1 := with_pages m {| pages_pa := pages_pa a; num_pages := num_pages a; next_page_idx := i |} in
    Ok (Val next_page, clear_page m1 next_page)
  else Ok (Err OutOfSpace, m).

(** ** Mapping *)

(** The entry of a new table, in its parent and in its own last slot. *)
Definition new_table_entry (page_pa : PhysAddr) : Entry :=
  with_page_or_table (with_valid (with_phys_addr (with_mair_index (with_accessed
    (with_access_permission empty PrivRw) true) Normal) page_pa) true) true.

(** [next_mut]: unlike the function of the same name in [vm.rs], it refuses the
    recursive index on every level. *)
Definition next_mut (m : EMem) (table : PhysAddr) (l : Level) (va : Z)
    : res (result PhysAddr PageTableError * EMem) :=
  let index := va_index va l in
  if index =? RECURSIVE_SLOT then Ok (Err MappingRecursiveIndex, m) else
  let entry := word (words m) (table + 8 * index) in
  if negb (valid entry) then
    '(r, m1) ← alloc_physpage m;
    match r with
    | Err e => Ok (Err (AllocationFailed e), m1)
    | Val page_pa =>
        let m2 := clear_page m1 page_pa in
        let entry := new_table_entry page_pa in
        let m3 := set_word m2 (table + 8 * index) entry in
        Ok (Val page_pa, set_word m3 (page_pa + 8 * RECURSIVE_SLOT) entry)
    end
  else if negb (is_table entry l) then Ok (Err EntryIsNotTable, m)
  else Ok (Val (phys_addr entry), m).

Definition entry_mut (table : PhysAddr) (l : Level) (va : Z) : PhysAddr := table + 8 * va_index va l.

Definition and_then (x : res (result PhysAddr PageTableError * EMem))
    (f : PhysAddr -> EMem -> res (result PhysAddr PageTableError * EMem))
    : res (result PhysAddr PageTableError * EMem) :=
  '(r, m) ← x; match r with Val t => f t m | Err e => Ok (Err e, m) end.

Definition dest_entry (m : EMem) (root : PhysAddr) (va : Z) (ps : PageSize)
    : res (result PhysAddr PageTableError * EMem) :=
  match ps with
  | Page4K =>
      and_then (and_then (and_then (next_mut m root Level0 va)
        (fun t1 m => next_mut m t1 Level1 va))
        (fun t2 m => next_mut m t2 Level2 va))
        (fun t3 m => Ok (Val (entry_mut t3 Level3 va), m))
  | Page2M =>
      and_then (and_then (next_mut m root Level0 va)
        (fun t1 m => next_mut m t1 Level1 va))
        (fun t2 m => Ok (Val (entry_mut t2 Level2 va), m))
  | Page1G =>
      and_then (next_mut m root Level0 va)
        (fun t1 m => Ok (Val (entry_mut t1 Level1 va), m))
  end.

Definition map_to (m : EMem) (root : PhysAddr) (entry : Entry) (va : Z) (ps : PageSize)
    : res (result unit PageTableError * EMem) :=
  '(r, m1) ← dest_entry m root va ps;
  match r with
  | Err e => Ok (Err e, m1)
  | Val dest =>
      let entry := if decide (ps = Page4K) then with_page_or_table entry true else entry in
      Ok (Val tt, set_word m1 dest entry)
  end.

(** The loop of [map_phys_range]; a page that cannot be mapped is reported on the
    console and skipped. *)
Fixpoint map_pages (m : EMem) (root : PhysAddr) (pas : list PhysAddr) (mapping : VaMapping)
    (entry : Entry) (ps : PageSize) (startva : option Z) (currva endva : Z)
    : res (option Z * Z * EMem) :=
  match pas with
  | [] => Ok (startva, endva, m)
  | pa :: pas' =>
      '(startva1, currva1) ←
        match startva with
        | None => let c := map mapping pa in Ok (Some c, c)
        | Some s => c ← uadd currva (Pt.size ps); Ok (Some s, c)
        end;
      endva1 ← uadd currva1 (Pt.size ps);
      '(_, m1) ← map_to m root (with_phys_addr entry pa) currva1 ps;
      map_pages m1 root pas' mapping entry ps startva1 currva1 endva1
  end.

Definition map_phys_range (m : EMem) (root : PhysAddr) (range : PhysRange) (mapping : VaMapping)
    (entry : Entry) (ps : PageSize) : res (result VirtRange PageTableError * EMem) :=
  if negb (Pa.is_multiple_of (start range) (Pt.size ps)) || negb (Pa.is_multiple_of (end_ range) (Pt.size ps))
  then Ok (Err PhysRangeIsNotOnPageBoundary, m) else
  pas ← Range.step_by_rounded range (Pt.size ps);
  '(startva, endva, m1) ← map_pages m root pas mapping entry ps None 0 0;
  match startva with
  | Some s => Ok (Val {| vstart := s; vend := endva |}, m1)
  | None => Ok (Err PhysRangeIsZero, m1)
  end.

(** ** [init_vm] *)

Record Mapping := { range : PhysRange; flags : Entry; page_size : PageSize }.

(** [sort_by_key(|a| a.1.start)], which is stable. *)
Fixpoint insert_by_start (x : Mapping) (l : list Mapping) : list Mapping :=
  match l with
  | [] => [x]
  | y :: l' => if start (range x) <=? start (range y) then x :: l else y :: insert_by_start x l'
  end.
Definition sort_by_start (l : list Mapping) : list Mapping := foldr insert_by_start [] l.

Definition custom_map (y : Syms) (dtb_physrange : PhysRange) : res (list Mapping) :=
  dtb ← Range.round dtb_physrange (Pt.size Page4K);
  let text := Range.add (boottext_physrange y) (text_physrange y) in
  let data := Range.add (data_physrange y) (bss_physrange y) in
  Ok (sort_by_start
    [ {| range := dtb; flags := ro_kernel_data; page_size := Page4K |};
      {| range := text; flags := ro_kernel_text; page_size := Page2M |};
      {| range := rodata_physrange y; flags := ro_kernel_data; page_size := Page2M |};
      {| range := data; flags := rw_kernel_data; page_size := Page2M |} ]).

(** [map_phys_range(..) else panic!()] for each line of the table. *)
Fixpoint map_all (m : EMem) (root : PhysAddr) (l : list Mapping) : res EMem :=
  match l with
  | [] => Ok m
  | x :: l' =>
      '(r, m1) ← map_phys_range m root (range x) (OffsetMapping KZERO) (flags x) (page_size x);
      match r with Val _ => map_all m1 root l' | Err _ => Panic end
  end.

(** [if let Ok(page_pa) = alloc_physpage() { .. } else { panic!() }]. *)
Definition alloc_table (m : EMem) : res (PhysAddr * EMem) :=
  '(r, m1) ← alloc_physpage m; match r with Val pa => Ok (pa, m1) | Err _ => Panic end.

Definition root_self_entry (pa : PhysAddr) : Entry :=
  with_page_or_table (with_valid (with_accessed (with_phys_addr empty pa) true) true) true.

Definition identity_block : Entry :=
  with_mair_index (with_uxn (with_shareable (with_access_permission (with_accessed (with_page_or_table
    (with_valid (with_phys_addr empty 0) true) false) true) PrivRw) Inner) true) Normal.

Definition identity_table (pa : PhysAddr) : Entry :=
  with_page_or_table (with_valid (with_phys_addr empty pa) true) true.

(** A byte of the devicetree in memory, whose words are little-endian. *)
Definition byte_at (w : gmap Z Z) (a : Z) : Z :=
  Z.land (Z.shiftr (word w (a - a mod 8)) (8 * (a mod 8))) 0xff.

(** The registers that [init_vm] sets beside the memory: the roots are in the
    memory. *)
Record Booted := { bmem : EMem; mair_el1 : Z }.

Definition init_vm (y : Syms) (dtb_pa : Z) (m0 : Mem unit) : res Booted :=
  dt ← (match Fd.from_usize (byte_at (words m0)) dtb_pa with Val dt => Ok dt | Err _ => Panic end);
  dtb_physrange ← Range.with_pa_len dtb_pa (Fd.size dt);
  l ← custom_map y dtb_physrange;
  '(a, w) ← new y (words m0);
  let m := {| words := w; ttbr0_el1 := ttbr0_el1 m0; ttbr1_el1 := ttbr1_el1 m0; pages := a |} in
  '(root_pa, m) ← alloc_table m;
  let m := set_word m (root_pa + 8 * 511) (root_self_entry root_pa) in
  m ← map_all m root_pa l;
  '(physicalpt3_pa, m) ← alloc_table m;
  let m := set_word m (physicalpt3_pa + 8 * 0) identity_block in
  '(physicalpt4_pa, m) ← alloc_table m;
  let m := set_word m (physicalpt4_pa + 8 * 0) (identity_table physicalpt3_pa) in
  Ok {| bmem := {| words := words m; ttbr0_el1 := physicalpt4_pa; ttbr1_el1 := root_pa; pages := pages m |};
        mair_el1 := 0x04ff |}.

(** ** Entries *)

Lemma points_to_table e pa : page_pa pa ->
  points_to (with_page_or_table (with_valid (with_phys_addr e pa) true) true) pa.
Proof.
  intros Hp; unfold points_to; rewrite valid_page, phys_addr_page, page_with; split_and!; [|done|].
  - unfold valid, with_valid; by rewrite get_with_same by lia.
  - unfold phys_addr, addr, with_valid; rewrite get_with_other by lia; exact (phys_addr_with e pa Hp).
Qed.

Lemma new_table_points pa : page_pa pa -> points_to (new_table_entry pa) pa.
Proof. apply points_to_table. Qed.

Lemma identity_table_points pa : page_pa pa -> points_to (identity_table pa) pa.
Proof. apply points_to_table. Qed.

Lemma root_self_points pa : page_pa pa -> points_to (root_self_entry pa) pa.
Proof.
  intros Hp; unfold root_self_entry, points_to; rewrite valid_page, phys_addr_page, page_with; split_and!; [|done|].
  - unfold valid, with_valid; by rewrite get_with_same by lia.
  - unfold phys_addr, addr, with_valid, with_accessed; rewrite !get_with_other by lia; exact (phys_addr_with empty pa Hp).
Qed.

(** ** The trees of early boot

    All mappings are below slot 256 of the root, the first of the kernel half,
    and every table below it has a pointer to itself. *)

Definition boot_loops : Looped := fun r => bool_decide (last r = Some 256).
#[local] Existing Instance boot_loops.

Definition kernel_va (va : Z) : Prop := va_index va Level0 = 256.

Lemma path_low va l : kernel_va va -> l <> Level0 -> last (path va l) = Some 256.
Proof. unfold kernel_va; intros H Hl; destruct l; [done|cbn [path last]; by rewrite H..]. Qed.

Lemma self_path va l : kernel_va va -> has_self (path va l) = true.
Proof.
  intros H; destruct (decide (l = Level0)) as [->|Hl]; [reflexivity|].
  unfold has_self, looped, boot_loops; by rewrite path_low, (bool_decide_true (Some _ = _)), orb_true_r.
Qed.

Lemma mappable_low va : kernel_va va -> mappable va <-> va_index va Level1 <> 511 /\ va_index va Level2 <> 511.
Proof.
  intros H; split; [intros Hm; split; apply Hm; auto using self_path; done|].
  intros [H1 H2] [] Hl _; [unfold kernel_va in H; rewrite H; done|done|done|done].
Qed.

(** ** The pool *)

Definition pool_ok (a : EarlyPageAllocator) : Prop :=
  0 <= pages_pa a /\ pages_pa a mod 4096 = 0 /\ 0 <= next_page_idx a <= num_pages a /\
  pages_pa a + 4096 * num_pages a < 2 ^ 46.

(** Page [k] of the pool. *)
Definition pool_page (a : EarlyPageAllocator) (k : Z) : PhysAddr := pages_pa a + 4096 * k.
Definition allocated (a : EarlyPageAllocator) (x : PhysAddr) : Prop := exists k, 0 <= k < next_page_idx a /\ x = pool_page a k.

Definition bump (a : EarlyPageAllocator) : EarlyPageAllocator :=
  {| pages_pa := pages_pa a; num_pages := num_pages a; next_page_idx := next_page_idx a + 1 |}.

Lemma pool_page_pa a k : pool_ok a -> 0 <= k < num_pages a -> page_pa (pool_page a k).
Proof.
  intros (H0 & Hm & Hi & Hb) Hk; unfold pool_page; split; [lia|].
  rewrite (Z.mul_comm 4096), Z.mod_add by lia; done.
Qed.

Lemma alloc_ok m : pool_ok (pages m) -> next_page_idx (pages m) < num_pages (pages m) ->
  let a := pages m in let n := pool_page a (next_page_idx a) in
  alloc_physpage m = Ok (Val n, clear_page (with_pages m (bump a)) n) /\ pool_ok (bump a) /\ page_pa n /\
  ~ allocated a n /\ (forall x, allocated (bump a) x <-> allocated a x \/ x = n).
Proof.
  intros Hp Hlt a n; pose proof Hp as (H0 & Hm & Hi & Hb); split_and!.
  - unfold alloc_physpage; fold a; rewrite (proj2 (Z.ltb_lt _ _)) by exact Hlt; by rewrite bind_uadd by (rewrite W64_val; subst a; lia).
  - unfold pool_ok, bump; cbn [next_page_idx num_pages pages_pa]; subst a; split_and!; lia || done.
  - apply pool_page_pa; [done|subst a; lia].
  - intros (k & Hk & E); unfold n, pool_page in E; lia.
  - intros x; unfold allocated, bump, pool_page; cbn; split.
    + intros (k & Hk & ->); destruct (decide (k = next_page_idx a)) as [->|]; [by right|left; exists k; split; [lia|done]].
    + intros [(k & Hk & ->)| ->]; [exists k; split; [lia|done]|exists (next_page_idx a); split; [subst a; lia|done]].
Qed.

(** ** One table *)

Record early_ok (m : EMem) (T : PhysAddr) : Prop := {
  eo_tree : tree_ok (words m) T (allocated (pages m));
  eo_pool : pool_ok (pages m);
}.

(** The words outside the page [n] and the slot [i] of [t]. *)
Definition same_but (w w' : gmap Z Z) (n t i : Z) : Prop :=
  forall x j, page_pa x -> x <> n -> 0 <= j < 512 -> ~ (x = t /\ j = i) -> word w' (x + 8 * j) = word w (x + 8 * j).

(** A table that exists is found. *)
Lemma next_mut_hit m T t l nl va n : next l = Some nl -> va_index va l <> 511 ->
  walk (words m) T (path va l) = Some t -> walk (words m) T (path va nl) = Some n -> next_mut m t l va = Ok (Val n, m).
Proof.
  intros Hn Hi Ht Hw; rewrite (path_next va l nl Hn) in Hw; apply walk_last in Hw as (t' & Ht' & Hv & Hp).
  rewrite Ht in Ht'; injection Ht' as <-; apply andb_prop in Hv as [Hv Hpt]; unfold next_mut.
  rewrite (proj2 (Z.eqb_neq _ _)) by done; rewrite Hv; unfold is_table; rewrite Hpt, bool_decide_false by (by destruct l).
  cbn [negb andb]; by rewrite Hp.
Qed.

Section fresh.
Context (m : EMem) (T t : PhysAddr) (l nl : Level) (va : Z).
Context (Hok : early_ok m T) (Hk : kernel_va va) (Hm : mappable va) (Hn : next l = Some nl).
Context (Ht : walk (words m) T (path va l) = Some t) (Hinv : valid (word (words m) (t + 8 * va_index va l)) = false).
Context (Hroom : next_page_idx (pages m) < num_pages (pages m)).

(** A missing table is taken from the pool, empty but for its self-pointer. *)
Lemma next_mut_new : let n := pool_page (pages m) (next_page_idx (pages m)) in
  exists m', next_mut m t l va = Ok (Val n, m') /\ early_ok m' T /\ pages m' = bump (pages m) /\
    walk (words m') T (path va nl) = Some n /\ same_but (words m) (words m') n t (va_index va l) /\
    word (words m') (t + 8 * va_index va l) = new_table_entry n /\
    (forall j, 0 <= j < 511 -> word (words m') (n + 8 * j) = 0) /\ word (words m') (n + 8 * 511) = new_table_entry n /\
    ttbr0_el1 m' = ttbr0_el1 m /\ ttbr1_el1 m' = ttbr1_el1 m /\
    (forall q x, walk (words m) T q = Some x -> walk (words m') T q = Some x).
Proof.
  intros n; destruct Hok as [Htr Hpool]; destruct (alloc_ok m Hpool Hroom) as (Ha & Hpool' & Hpn & Hfresh & HU); fold n in Ha, Hpn, Hfresh, HU.
  destruct (tr_pages _ _ _ Htr _ _ Ht) as [Hpt Hut].
  assert (Hs : step_ok (path va l) (va_index va l) = true) by (apply step_ok_path; [by destruct l|done]).
  assert (Hi : va_index va l <> 511) by (apply Hm; [by destruct l|by apply self_path]).
  pose proof (va_index_range va l) as Hr; set (i := va_index va l) in *.
  assert (Htn : t <> n) by congruence.
  unfold next_mut; fold i; rewrite (proj2 (Z.eqb_neq _ _)) by done; rewrite Hinv; cbn [negb]; rewrite Ha; cbn [mbind res_bind].
  set (w' := <[n + 8 * 511 := new_table_entry n]> (<[t + 8 * i := new_table_entry n]> (zero_page n (zero_page n (words m))))).
  assert (Hsame : same_but (words m) w' n t i).
  { intros x j Hx Hne Hj Hnt; unfold w'; rewrite !word_insert.
    destruct (Z.eqb_spec (n + 8 * 511) (x + 8 * j)) as [E|_]; [destruct (slot_inj n x 511 j Hpn Hx ltac:(lia) Hj E); congruence|].
    destruct (Z.eqb_spec (t + 8 * i) (x + 8 * j)) as [E|_]; [destruct (slot_inj t x i j Hpt Hx Hr Hj E); by destruct Hnt|].
    by rewrite !zero_page_out. }
  assert (Hlink : word w' (t + 8 * i) = new_table_entry n).
  { unfold w'; rewrite !word_insert, Z.eqb_refl; destruct (Z.eqb_spec (n + 8 * 511) (t + 8 * i)); done. }
  assert (Hself : word w' (n + 8 * 511) = new_table_entry n) by (unfold w'; by rewrite word_insert, Z.eqb_refl).
  assert (Hzero : forall j, 0 <= j < 511 -> word w' (n + 8 * j) = 0).
  { intros j Hj; unfold w'; rewrite !word_insert, (proj2 (Z.eqb_neq _ _)) by lia.
    destruct (Z.eqb_spec (t + 8 * i) (n + 8 * j)) as [E|_]; [destruct (slot_inj t n i j Hpt Hpn Hr ltac:(lia) E); congruence|].
    by rewrite zero_page_in by lia. }
  assert (Hdead : forall j, step_ok (i :: path va l) j = true -> valid (word w' (n + 8 * j)) = false).
  { intros j Hj; pose proof (step_ok_range _ _ Hj) as [Hj' _]; rewrite Hzero; [done|].
    assert (j <> 511); [|lia]; intros ->; unfold step_ok in Hj.
    assert (Hsf : has_self (i :: path va l) = true) by (unfold i; rewrite <- (path_next va l nl Hn); by apply self_path).
    rewrite Hsf, andb_false_r in Hj; discriminate. }
  pose proof (new_table_points n Hpn) as Hpo.
  assert (Hlk : points_to (word w' (t + 8 * i)) n) by (by rewrite Hlink).
  exists (with_words (with_pages m (bump (pages m))) w'); split; [reflexivity|]; cbn [words pages with_words with_pages ttbr0_el1 ttbr1_el1].
  split_and!; try done.
  - split; [|done]; by apply (link_tree (words m) w' T t (allocated (pages m)) _ (path va l) i n).
  - rewrite (path_next va l nl Hn); by apply (link_walk_new (words m) w' T t (allocated (pages m)) (path va l) i n).
  - intros q x Hq; rewrite (link_walk_old (words m) w' T t (allocated (pages m)) (path va l) i n); auto.
    intros [k ->]; by rewrite (walk_dead _ _ _ _ _ k Ht Hinv) in Hq.
Qed.
End fresh.

(** ** The first gigabyte *)

(** The addresses that one level-2 table covers, without its self-pointer. *)
Definition LOW : Z := 2 ^ 30 - 2 ^ 21.

Lemma low_index pa : 0 <= pa < 2 ^ 30 ->
  kernel_va (KZERO + pa) /\ va_index (KZERO + pa) Level1 = 0 /\ va_index (KZERO + pa) Level2 = pa / 2 ^ 21 /\
  va_index (KZERO + pa) Level3 = (pa / 4096) mod 512.
Proof.
  intros Hp; unfold kernel_va; rewrite !va_index_div; cbn [level_shift]; unfold KZERO.
  split_and!; pow2s; Z.to_euclidean_division_equations; lia.
Qed.

Lemma low_path pa : 0 <= pa < 2 ^ 30 -> let va := KZERO + pa in
  path va Level1 = [256] /\ path va Level2 = [0; 256] /\ path va Level3 = [pa / 2 ^ 21; 0; 256].
Proof. intros Hp va; destruct (low_index pa Hp) as (H0 & H1 & H2 & _); cbn [path]; unfold va; by rewrite H0, H1, H2. Qed.

Lemma low_mappable pa : 0 <= pa < LOW -> mappable (KZERO + pa).
Proof.
  unfold LOW; intros Hp; destruct (low_index pa ltac:(lia)) as (H0 & H1 & H2 & _); apply mappable_low; [done|]; rewrite H1, H2.
  split; [done|]; Z.to_euclidean_division_equations; lia.
Qed.

Lemma low_block pa : 0 <= pa < LOW -> 0 <= pa / 2 ^ 21 < 511.
Proof. unfold LOW; intros; Z.to_euclidean_division_equations; lia. Qed.

(** The tables of the window, by their place in the pool: the root, the tables of
    levels 1 and 2; [g] is what the level-2 table holds and [k] the number of
    pages taken.  Before the first mapping only the root exists. *)
Record built (m : EMem) (base : PhysAddr) (g : Z -> Z) (k : Z) : Prop := {
  bt_ok : early_ok m base;
  bt_base : pages_pa (pages m) = base;
  bt_next : next_page_idx (pages m) = k;
  bt_walk1 : walk (words m) base [256] = Some (base + 4096);
  bt_walk2 : walk (words m) base [0; 256] = Some (base + 8192);
  bt_slots : forall j, 0 <= j < 511 -> word (words m) (base + 8192 + 8 * j) = g j;
}.

Record bare (m : EMem) (base : PhysAddr) : Prop := {
  br_ok : early_ok m base;
  br_base : pages_pa (pages m) = base;
  br_next : next_page_idx (pages m) = 1;
  br_root : word (words m) (base + 8 * 256) = 0;
}.

(** What the mapper leaves alone. *)
Record kept (m m' : EMem) : Prop := {
  kp_num : num_pages (pages m') = num_pages (pages m);
  kp_ttbr0 : ttbr0_el1 m' = ttbr0_el1 m;
  kp_ttbr1 : ttbr1_el1 m' = ttbr1_el1 m;
}.

Lemma kept_refl m : kept m m.
Proof. by split. Qed.
Lemma kept_trans m1 m2 m3 : kept m1 m2 -> kept m2 m3 -> kept m1 m3.
Proof. intros [] []; split; congruence. Qed.

(** The walk to the level-2 table. *)
Definition to_level2 (m : EMem) (root : PhysAddr) (va : Z) : res (result PhysAddr PageTableError * EMem) :=
  and_then (next_mut m root Level0 va) (fun t1 m => next_mut m t1 Level1 va).

Lemma to_level2_built m base g k pa : built m base g k -> 0 <= pa < LOW -> to_level2 m base (KZERO + pa) = Ok (Val (base + 8192), m).
Proof.
  intros Hb Hp; unfold LOW in Hp; destruct (low_index pa ltac:(lia)) as (H0 & H1 & _); destruct (low_path pa ltac:(lia)) as (P1 & P2 & _).
  unfold kernel_va in H0; unfold to_level2, and_then.
  rewrite (next_mut_hit m base base Level0 Level1 _ (base + 4096)); [cbn [mbind res_bind]|done|by rewrite H0|done|rewrite P1; apply Hb].
  apply (next_mut_hit m base (base + 4096) Level1 Level2); [done|by rewrite H1|rewrite P1; apply Hb|rewrite P2; apply Hb].
Qed.

Lemma to_level2_bare m base pa : bare m base -> 0 <= pa < LOW -> 3 <= num_pages (pages m) ->
  exists m', to_level2 m base (KZERO + pa) = Ok (Val (base + 8192), m') /\ built m' base (fun _ => 0) 3 /\ kept m m'.
Proof.
  intros [Hok Hbase Hnext Hroot] Hp Hnum; pose proof (low_mappable pa Hp) as Hm; unfold LOW in Hp.
  destruct (low_index pa ltac:(lia)) as (H0 & H1 & _); destruct (low_path pa ltac:(lia)) as (P1 & P2 & _).
  destruct (next_mut_new m base base Level0 Level1 (KZERO + pa) Hok H0 Hm eq_refl eq_refl) as
    (m1 & E1 & Hok1 & Hpg1 & Hw1 & _ & _ & Hz1 & _ & A1 & B1 & _); [unfold kernel_va in H0; by rewrite H0, Hroot|lia|].
  assert (Hn1 : pool_page (pages m) (next_page_idx (pages m)) = base + 4096) by (unfold pool_page; rewrite Hbase, Hnext; lia).
  rewrite Hn1 in *.
  destruct (next_mut_new m1 base (base + 4096) Level1 Level2 (KZERO + pa) Hok1 H0 Hm eq_refl Hw1) as
    (m2 & E2 & Hok2 & Hpg2 & Hw2 & _ & _ & Hz2 & _ & A2 & B2 & Hold2); [by rewrite H1, Hz1 by lia|rewrite Hpg1; cbn; lia|].
  assert (Hn2 : pool_page (pages m1) (next_page_idx (pages m1)) = base + 8192)
    by (unfold pool_page; rewrite Hpg1; unfold bump; cbn [pages_pa next_page_idx]; rewrite Hbase, Hnext; lia).
  rewrite Hn2 in *; exists m2; unfold to_level2, and_then; rewrite E1; cbn [mbind res_bind]; split; [done|]; split.
  - split; [done|by rewrite Hpg2, Hpg1|rewrite Hpg2, Hpg1; cbn; lia|rewrite P1 in Hw1; by apply Hold2|by rewrite <- P2|].
    intros j Hj; by apply Hz2.
  - split; [by rewrite Hpg2, Hpg1|congruence..].
Qed.

(** *** Blocks of 2 MiB *)

Lemma page_phys e pa : page_or_table (with_phys_addr e pa) = page_or_table e.
Proof. unfold page_or_table, with_phys_addr, with_addr; by rewrite get_with_other by lia. Qed.

Definition upd (g : Z -> Z) (j v : Z) : Z -> Z := fun i => if decide (i = j) then v else g i.

Lemma set_block m base g k pa e : built m base g k -> 0 <= pa < LOW -> let j := pa / 2 ^ 21 in
  valid (g j) && page_or_table (g j) = false -> valid e = true -> page_or_table e = false ->
  built (set_word m (base + 8192 + 8 * j) e) base (upd g j e) k.
Proof.
  intros [Hok Hbase Hnext W1 W2 Hs] Hp j Hg Hv He; pose proof (low_block pa Hp) as Hj; fold j in Hj.
  pose proof (low_mappable pa Hp) as Hm; unfold LOW in Hp.
  destruct (low_index pa ltac:(lia)) as (H0 & H1 & H2 & _); destruct (low_path pa ltac:(lia)) as (_ & P2 & _); fold j in H2.
  destruct Hok as [Htr Hpool]; set (w' := words (set_word m (base + 8192 + 8 * j) e)).
  assert (Hw' : w' = <[base + 8192 + 8 * va_index (KZERO + pa) Level2 := e]> (words m)) by (by rewrite H2).
  assert (Hold : Level2 <> Level3 -> let o := word (words m) (base + 8192 + 8 * va_index (KZERO + pa) Level2) in valid o && page_or_table o = false)
    by (intros _; cbn zeta; by rewrite H2, Hs by lia).
  assert (Hnew : is_table e Level2 = false) by (unfold is_table; by rewrite He).
  assert (Hwalk2 : walk (words m) base (path (KZERO + pa) Level2) = Some (base + 8192)) by (by rewrite P2).
  pose proof (write_walk (words m) w' base (base + 8192) _ (KZERO + pa) Level2 e Htr Hwalk2 Hold Hnew Hw') as Hww.
  split; [split; [|done]|done|done|..].
  - by apply (write_tree (words m) w' base (base + 8192) _ (KZERO + pa) Level2 e Htr Hm Hwalk2 Hold Hnew).
  - fold w'; by rewrite Hww.
  - fold w'; by rewrite Hww.
  - intros i Hi; unfold set_word; cbn [words with_words]; rewrite word_insert; unfold upd; destruct (decide (i = j)) as [->|Hne]; [by rewrite Z.eqb_refl|].
    by rewrite (proj2 (Z.eqb_neq _ _)), Hs by lia.
Qed.

Lemma map_to_2M m base e pa : map_to m base e (KZERO + pa) Page2M =
  ('(r, m1) ← to_level2 m base (KZERO + pa);
   match r with
   | Val t2 => Ok (Val tt, set_word m1 (t2 + 8 * va_index (KZERO + pa) Level2) e)
   | Err er => Ok (Err er, m1)
   end).
Proof.
  unfold map_to, dest_entry; fold (to_level2 m base (KZERO + pa)); unfold and_then, entry_mut.
  by destruct (to_level2 m base (KZERO + pa)) as [[[t2|er] m1]| |].
Qed.

(** The state before a mapping: with tables, or with the root alone. *)
Inductive window (m : EMem) (base : PhysAddr) : (Z -> Z) -> Z -> Prop :=
  | window_built g k : built m base g k -> window m base g k
  | window_bare : bare m base -> 3 <= num_pages (pages m) -> window m base (fun _ => 0) 3.

Lemma window_level2 m base g k pa : window m base g k -> 0 <= pa < LOW ->
  exists m', to_level2 m base (KZERO + pa) = Ok (Val (base + 8192), m') /\ built m' base g k /\ kept m m'.
Proof.
  intros [g' k' Hb|Hb Hn] Hp; [exists m; split_and!; [by apply (to_level2_built m base g' k')|done|apply kept_refl]|by apply to_level2_bare].
Qed.

Lemma map_block m base g k pa e : window m base g k -> 0 <= pa < LOW -> let j := pa / 2 ^ 21 in
  valid (g j) && page_or_table (g j) = false -> valid e = true -> page_or_table e = false ->
  exists m', map_to m base e (KZERO + pa) Page2M = Ok (Val tt, m') /\ built m' base (upd g j e) k /\ kept m m'.
Proof.
  intros Hw Hp j Hg Hv He; destruct (window_level2 m base g k pa Hw Hp) as (m1 & E1 & Hb1 & Hk1).
  rewrite map_to_2M, E1; cbn [mbind res_bind]; pose proof Hp as Hp'; unfold LOW in Hp'; destruct (low_index pa ltac:(lia)) as (_ & _ & H2 & _).
  rewrite H2; fold j; exists (set_word m1 (base + 8192 + 8 * j) e); split_and!; [done|by apply set_block|].
  destruct Hk1; by split.
Qed.

(** *** Ranges *)

(** The addresses of [n] pages of size [sz] from [pa] on. *)
Definition steps (pa : Z) (n : nat) (sz : Z) : list PhysAddr := (fun i => pa + Z.of_nat i * sz) <$> seq 0 n.

Lemma steps_S pa n sz : steps pa (S n) sz = pa :: steps (pa + sz) n sz.
Proof.
  unfold steps; cbn [seq fmap list_fmap]; f_equal; [lia|]; rewrite <- seq_shift, <- list_fmap_compose.
  apply list_fmap_ext; intros; cbn [compose]; lia.
Qed.

Lemma range_steps pa n b : 0 <= b < 64 -> 0 <= pa -> pa mod 2 ^ b = 0 -> pa + Z.of_nat n * 2 ^ b + 2 ^ b < W64 ->
  Range.step_by_rounded {| start := pa; end_ := pa + Z.of_nat n * 2 ^ b |} (2 ^ b) = Ok (steps pa n (2 ^ b)).
Proof.
  intros Hb Hp Hm Hw; assert (Hpos : 0 < 2 ^ b) by lia; unfold Range.step_by_rounded, Pa.round_down2, Pa.round_up2; cbn [start end_].
  rewrite round_down2_eval, round_up2_eval by (unfold is_u; nia); cbn [mbind res_bind]; rewrite Hm, Z.sub_0_r.
  replace ((pa + Z.of_nat n * 2 ^ b + 2 ^ b - 1) mod 2 ^ b) with (2 ^ b - 1).
  2:{ replace (pa + Z.of_nat n * 2 ^ b + 2 ^ b - 1) with (pa + (2 ^ b - 1 + Z.of_nat n * 2 ^ b)) by lia.
      rewrite <- Z.add_mod_idemp_l, Hm, Z.add_0_l, Z.mod_add, Z.mod_small by lia; done. }
  f_equal; replace (pa + Z.of_nat n * 2 ^ b + 2 ^ b - 1 - (2 ^ b - 1)) with (pa + Z.of_nat n * 2 ^ b) by lia; unfold Range.step_by.
  apply Dv.step_by_list; [lia|lia|nia|]; replace (pa + Z.of_nat n * 2 ^ b - pa) with (Z.of_nat n * 2 ^ b) by lia; rewrite Z.div_mul by lia; lia.
Qed.

(** One turn of the loop over a range that is mapped at [KZERO]. *)
Lemma map_pages_cons m root pa pas e ps sv cv ev : 0 <= pa < 2 ^ 46 ->
  (sv = None \/ cv + Pt.size ps = KZERO + pa) ->
  map_pages m root (pa :: pas) (OffsetMapping KZERO) e ps sv cv ev =
  ('(_, m1) ← map_to m root (with_phys_addr e pa) (KZERO + pa) ps;
   map_pages m1 root pas (OffsetMapping KZERO) e ps (Some (default (KZERO + pa) sv)) (KZERO + pa) (KZERO + pa + Pt.size ps)).
Proof.
  intros Hp Hc; assert (Hsz : 0 <= Pt.size ps <= 2 ^ 30) by (by destruct ps).
  assert (Hov : KZERO + pa + Pt.size ps < W64) by (unfold KZERO; rewrite W64_val; lia).
  cbn [map_pages]; destruct sv as [x|]; cbn [default].
  - destruct Hc as [?|Hc]; [done|]; rewrite (uadd_ok cv), Hc by lia; cbn [mbind res_bind]; by rewrite uadd_ok by lia.
  - cbn [map mbind res_bind]; unfold wrapping_add; rewrite (Z.add_comm pa), (Z.mod_small (KZERO + pa)) by (unfold KZERO in *; lia).
    by rewrite uadd_ok by lia.
Qed.

Lemma built_ext m base g g' k : (forall j, 0 <= j < 511 -> g j = g' j) -> built m base g k -> built m base g' k.
Proof. intros He [? ? ? ? ? Hs]; split; auto; intros j Hj; by rewrite Hs, He. Qed.

(** The level-2 table after [n] blocks from [pa] on. *)
Definition blocks (g : Z -> Z) (pa : Z) (n : nat) (e : Entry) : Z -> Z := fun j =>
  if decide (pa / 2 ^ 21 <= j < pa / 2 ^ 21 + Z.of_nat n) then with_phys_addr e (j * 2 ^ 21) else g j.

Lemma blocks_S g pa n e j : pa mod 2 ^ 21 = 0 -> blocks (upd g (pa / 2 ^ 21) (with_phys_addr e pa)) (pa + 2 ^ 21) n e j = blocks g pa (S n) e j.
Proof.
  intros Hm; unfold blocks, upd; replace ((pa + 2 ^ 21) / 2 ^ 21) with (pa / 2 ^ 21 + 1) by (Z.to_euclidean_division_equations; lia).
  repeat case_decide; try done; try lia; subst j; f_equal; Z.to_euclidean_division_equations; lia.
Qed.

Section map_blocks.
Context (base : PhysAddr) (e : Entry) (Hv : valid e = true) (He : page_or_table e = false).

Definition no_tables (g : Z -> Z) (pa : Z) (n : nat) : Prop :=
  forall j, pa / 2 ^ 21 <= j < pa / 2 ^ 21 + Z.of_nat n -> valid (g j) && page_or_table (g j) = false.

Lemma map_first_block m g k pa n sv cv ev : window m base g k -> 0 <= pa -> pa mod 2 ^ 21 = 0 -> pa + Z.of_nat (S n) * 2 ^ 21 <= LOW ->
  (sv = None \/ cv + 2 ^ 21 = KZERO + pa) -> no_tables g pa (S n) ->
  exists m', map_pages m base (steps pa (S n) (2 ^ 21)) (OffsetMapping KZERO) e Page2M sv cv ev =
      map_pages m' base (steps (pa + 2 ^ 21) n (2 ^ 21)) (OffsetMapping KZERO) e Page2M (Some (default (KZERO + pa) sv)) (KZERO + pa) (KZERO + pa + 2 ^ 21) /\
    built m' base (upd g (pa / 2 ^ 21) (with_phys_addr e pa)) k /\ kept m m' /\
    no_tables (upd g (pa / 2 ^ 21) (with_phys_addr e pa)) (pa + 2 ^ 21) n.
Proof.
  intros Hw Hp Hm Hle Hc Hg; assert (Hlow : 0 <= pa < LOW) by lia.
  destruct (map_block m base g k pa (with_phys_addr e pa) Hw Hlow) as (m1 & E1 & Hb1 & Hk1); [apply Hg; lia|by rewrite valid_phys|by rewrite page_phys|].
  exists m1; split_and!; [|done|done|].
  - rewrite steps_S, map_pages_cons; [rewrite E1; done|unfold LOW in *; lia|done].
  - intros j Hj; replace ((pa + 2 ^ 21) / 2 ^ 21) with (pa / 2 ^ 21 + 1) in Hj by (Z.to_euclidean_division_equations; lia).
    unfold upd; rewrite decide_False by lia; apply Hg; lia.
Qed.

Lemma map_more_blocks n : forall m g k pa x ev, built m base g k -> 0 <= pa -> pa mod 2 ^ 21 = 0 -> pa + Z.of_nat n * 2 ^ 21 <= LOW ->
  no_tables g pa n ->
  exists ev' m', map_pages m base (steps pa n (2 ^ 21)) (OffsetMapping KZERO) e Page2M (Some x) (KZERO + pa - 2 ^ 21) ev = Ok (Some x, ev', m') /\
    built m' base (blocks g pa n e) k /\ kept m m'.
Proof.
  induction n as [|n IH]; intros m g k pa x ev Hb Hp Hm Hle Hg.
  - exists ev, m; split_and!; [done| |apply kept_refl]; apply (built_ext m base g); [|done]; intros j Hj; unfold blocks; by rewrite decide_False by lia.
  - destruct (map_first_block m g k pa n (Some x) (KZERO + pa - 2 ^ 21) ev (window_built _ _ _ _ Hb) Hp Hm Hle) as (m1 & E1 & Hb1 & Hk1 & Hg1); [right; lia|done|].
    destruct (IH m1 _ k (pa + 2 ^ 21) x (KZERO + pa + 2 ^ 21) Hb1) as (ev' & m' & E2 & Hb2 & Hk2); [lia|Z.to_euclidean_division_equations; lia|lia|done|].
    exists ev', m'; split_and!; [|apply (built_ext m' base _ _ _ (fun j _ => blocks_S g pa n e j Hm) Hb2)|by eapply kept_trans].
    rewrite E1, <- E2; cbn [default]; f_equal; lia.
Qed.

(** Mapping a range in blocks: every block of it is in the level-2 table then,
    and nothing else of that table has changed. *)
Lemma map_range_blocks m g k pa n : window m base g k -> (0 < n)%nat -> 0 <= pa -> pa mod 2 ^ 21 = 0 -> pa + Z.of_nat n * 2 ^ 21 <= LOW ->
  no_tables g pa n ->
  exists vr m', map_phys_range m base {| start := pa; end_ := pa + Z.of_nat n * 2 ^ 21 |} (OffsetMapping KZERO) e Page2M = Ok (Val vr, m') /\
    built m' base (blocks g pa n e) k /\ kept m m'.
Proof.
  intros Hw Hn Hp Hm Hle Hg; unfold map_phys_range, Pa.is_multiple_of; change (Pt.size Page2M) with (2 ^ 21); cbn [start end_]; change (2 ^ 21 =? 0) with false.
  rewrite Z.mod_add, Hm by lia; cbn [Z.eqb negb orb]; rewrite range_steps by (unfold LOW in *; rewrite ?W64_val; lia || done); cbn [mbind res_bind].
  destruct n as [|n]; [lia|].
  destruct (map_first_block m g k pa n None 0 0 Hw Hp Hm Hle) as (m1 & E1 & Hb1 & Hk1 & Hg1); [by left|done|].
  destruct (map_more_blocks n m1 _ k (pa + 2 ^ 21) (KZERO + pa) (KZERO + pa + 2 ^ 21) Hb1) as (ev' & m' & E2 & Hb2 & Hk2);
    [lia|Z.to_euclidean_division_equations; lia|lia|done|].
  replace (KZERO + (pa + 2 ^ 21) - 2 ^ 21) with (KZERO + pa) in E2 by lia.
  rewrite E1; cbn [default]; rewrite E2; cbn [mbind res_bind]; eexists _, m'; split_and!; [done| |by eapply kept_trans].
  apply (built_ext m' base _ _ _ (fun j _ => blocks_S g pa n e j Hm) Hb2).
Qed.
End map_blocks.

(** *** Pages of 4 KiB *)

Section map_pages.
(** The first page and the block it is in; the level-2 table before. *)
Context (base : PhysAddr) (e : Entry) (g : Z -> Z) (p0 : Z).
Context (Hv : valid e = true).
Let j0 := p0 / 512.

(** The level-3 table of block [j]. *)
Definition tab (j : Z) : PhysAddr := base + 4096 * (3 + (j - j0)).

(** The level-2 table with [c] level-3 tables, and what they hold when the pages
    from [p0] up to [p] are mapped. *)
Definition with_tabs (c : Z) : Z -> Z := fun j => if decide (j0 <= j < j0 + c) then new_table_entry (tab j) else g j.
Definition content (p q : Z) : Entry :=
  if decide (p0 <= q < p) then Dv.page_entry e (q * 4096) else if decide (q mod 512 = 511) then new_table_entry (tab (q / 512)) else 0.

Record paged (m : EMem) (c p : Z) : Prop := {
  pd_built : built m base (with_tabs c) (3 + c);
  pd_walk : forall j, j0 <= j < j0 + c -> walk (words m) base [j; 0; 256] = Some (tab j);
  pd_words : forall j i, j0 <= j < j0 + c -> 0 <= i < 512 -> word (words m) (tab j + 8 * i) = content p (512 * j + i);
  pd_count : 0 <= c /\ p0 <= p /\ ((c = 0 /\ p = p0) \/ p <= 512 * (j0 + c));
}.

Lemma paged_start m : built m base g 3 -> paged m 0 p0.
Proof.
  intros Hb; split; [|lia..]; apply (built_ext m base g); [|done].
  intros j Hj; unfold with_tabs; by rewrite decide_False by lia.
Qed.

Lemma paged_pages m c p : paged m c p -> page_pa (base + 8192) /\ forall j, j0 <= j < j0 + c -> page_pa (tab j).
Proof.
  intros [[[Htr _] _ _ _ W2 _] Hw _ _]; split; [by apply (tr_pages _ _ _ Htr [0; 256])|].
  intros j Hj; by apply (tr_pages _ _ _ Htr [j; 0; 256]), Hw.
Qed.

(** The level-3 table of the next page exists or is made. *)
Lemma to_level3 m c p : paged m c p -> 0 <= p0 -> 4096 * p < LOW -> g (p / 512) = 0 ->
  let j := p / 512 in let c' := Z.max c (j - j0 + 1) in 3 + c' <= num_pages (pages m) ->
  exists m', next_mut m (base + 8192) Level2 (KZERO + 4096 * p) = Ok (Val (tab j), m') /\ paged m' c' p /\ kept m m'.
Proof.
  intros Hpd Hp0 Hlow Hg j c' Hnum; pose proof (paged_pages m c p Hpd) as [HT2 Htab]; destruct Hpd as [Hb Hwk Hws (Hc & Hpp & Hcount)].
  assert (Hj0 : j0 = p0 / 512) by done; assert (Hjp : j = p / 512) by done; clearbody j; rewrite <- Hjp in Hg.
  assert (Hj : j0 <= j /\ j <= j0 + c) by (Z.to_euclidean_division_equations; lia).
  assert (Hr : 0 <= 4096 * p < 2 ^ 30) by (unfold LOW in Hlow; lia).
  destruct (low_index (4096 * p) Hr) as (H0 & H1 & H2 & H3); destruct (low_path (4096 * p) Hr) as (_ & P2 & P3).
  assert (Hdiv : 4096 * p / 2 ^ 21 = j) by (Z.to_euclidean_division_equations; lia); rewrite Hdiv in H2, P3.
  assert (Hj511 : 0 <= j < 511) by (rewrite <- Hdiv; apply low_block; lia).
  pose proof (low_mappable (4096 * p) ltac:(lia)) as Hm.
  destruct (decide (j < j0 + c)) as [Hlt|Hge].
  - exists m; replace c' with c by lia; split_and!; [|by split|apply kept_refl].
    apply (next_mut_hit m base (base + 8192) Level2 Level3); [done|lia|rewrite P2; apply Hb|rewrite P3; apply Hwk; lia].
  - assert (Hje : j = j0 + c) by lia; replace c' with (c + 1) in * by lia.
    pose proof Hb as [Hok Hbase Hnext W1 W2 Hslots].
    destruct (next_mut_new m base (base + 8192) Level2 Level3 (KZERO + 4096 * p) Hok H0 Hm eq_refl) as
      (m' & E & Hok' & Hpg & Hw' & Hsame & Hlink & Hzero & Hself & A & B & Hold);
      [by rewrite P2|rewrite H2, Hslots by lia; unfold with_tabs; by rewrite decide_False, Hg by lia|lia|].
    assert (Hn : pool_page (pages m) (next_page_idx (pages m)) = tab j) by (unfold pool_page, tab; rewrite Hbase, Hnext; lia).
    rewrite Hn in *; rewrite H2 in *; rewrite P3 in Hw'; exists m'; split; [done|]; split; [split|split; [by rewrite Hpg|done|done]].
    + split; [done|by rewrite Hpg|rewrite Hpg; cbn; lia|by apply Hold|by apply Hold|].
      intros i Hi; unfold with_tabs; destruct (decide (i = j)) as [->|Hne].
      * by rewrite decide_True by lia.
      * rewrite Hsame; [|done|unfold tab; lia|lia|lia]; rewrite Hslots by done; unfold with_tabs.
        destruct (decide (j0 <= i < j0 + c)); [by rewrite decide_True by lia|by rewrite decide_False by lia].
    + intros i Hi; destruct (decide (i = j)) as [->|Hne]; [done|]; apply Hold, Hwk; lia.
    + intros i k Hi Hk; destruct (decide (i = j)) as [->|Hne].
      * unfold content; rewrite decide_False by (Z.to_euclidean_division_equations; lia).
        destruct (decide (k = 511)) as [->|]; [rewrite decide_True by (rewrite Z.add_comm, Z.mul_comm, Z.mod_add by lia; done)|].
        -- rewrite Hself; do 2 f_equal; Z.to_euclidean_division_equations; lia.
        -- rewrite Hzero by lia; by rewrite decide_False by (rewrite Z.add_comm, Z.mul_comm, Z.mod_add, Z.mod_small by lia; lia).
      * rewrite Hsame; [apply Hws; lia|apply Htab; lia|unfold tab; lia|lia|]; intros [Ht _]; unfold tab in Ht; lia.
    + split_and!; [lia|done|right; Z.to_euclidean_division_equations; lia].
Qed.

(** Writing the entry of a page whose table exists. *)
Lemma set_page m c p : paged m c p -> 0 <= p0 -> 4096 * p < LOW -> let j := p / 512 in j0 <= j < j0 + c ->
  paged (set_word m (tab j + 8 * (p mod 512)) (Dv.page_entry e (4096 * p))) c (p + 1).
Proof.
  intros Hpd Hp0 Hlow j Hj; destruct Hpd as [Hb Hwk Hws (Hc & Hpp & Hcount)]; pose proof Hb as [[Htr Hpool] Hbase Hnext W1 W2 Hslots].
  assert (Hr : 0 <= 4096 * p < 2 ^ 30) by (unfold LOW in Hlow; lia).
  destruct (low_index (4096 * p) Hr) as (_ & _ & _ & H3); destruct (low_path (4096 * p) Hr) as (_ & _ & P3).
  rewrite (Z.mul_comm 4096 p), Z.div_mul, <- (Z.mul_comm 4096 p) in H3 by lia.
  replace (4096 * p / 2 ^ 21) with j in P3 by (unfold j; Z.to_euclidean_division_equations; lia).
  assert (Hpm : p = 512 * j + p mod 512) by (unfold j; Z.to_euclidean_division_equations; lia).
  pose proof (Z.mod_pos_bound p 512 ltac:(lia)) as Hi; set (i := p mod 512) in *; clearbody i j.
  set (e' := Dv.page_entry e (4096 * p)); set (w' := words (set_word m (tab j + 8 * i) e')).
  assert (Hw3 : walk (words m) base (path (KZERO + 4096 * p) Level3) = Some (tab j)) by (rewrite P3; by apply Hwk).
  assert (Hw' : w' = <[tab j + 8 * va_index (KZERO + 4096 * p) Level3 := e']> (words m)) by (by rewrite H3).
  pose proof (page_walk (words m) w' base (tab j) _ _ e' Htr Hw3 Hw') as Hww.
  split; [split; [split; [|done]|done|done|..]|..]; fold w'; rewrite ?Hww; auto.
  - apply (write_tree (words m) w' base (tab j) _ (KZERO + 4096 * p) Level3 e' Htr (low_mappable (4096 * p) ltac:(lia)) Hw3); auto using page_no_table; done.
  - intros i' Hi'; rewrite <- Hslots by done; unfold w', set_word; cbn [words with_words]; rewrite word_insert, (proj2 (Z.eqb_neq _ _)); [done|].
    unfold tab; lia.
  - intros j' Hj'; rewrite Hww; auto.
  - intros j' i' Hj' Hi'; unfold w', set_word; cbn [words with_words]; rewrite word_insert.
    destruct (Z.eqb_spec (tab j + 8 * i) (tab j' + 8 * i')) as [E|Hne].
    + assert (j' = j /\ i' = i) as [-> ->] by (unfold tab in E; lia); rewrite <- Hpm; unfold content; rewrite decide_True by lia.
      unfold e'; f_equal; lia.
    + rewrite Hws by done; unfold content; assert (512 * j' + i' <> p) by (intros E; apply Hne; assert (j' = j) as -> by lia; lia).
      destruct (decide (p0 <= 512 * j' + i' < p)); [by rewrite decide_True by lia|by rewrite (decide_False (P := _ <= _ < p + 1)) by lia].
  - split_and!; [done|lia|right; lia].
Qed.

Lemma map_page m c p : paged m c p -> 0 <= p0 -> 4096 * p < LOW -> g (p / 512) = 0 ->
  let c' := Z.max c (p / 512 - j0 + 1) in 3 + c' <= num_pages (pages m) ->
  exists m', map_to m base (with_phys_addr e (4096 * p)) (KZERO + 4096 * p) Page4K = Ok (Val tt, m') /\ paged m' c' (p + 1) /\ kept m m'.
Proof.
  intros Hpd Hp0 Hlow Hg c' Hnum; destruct (to_level3 m c p Hpd Hp0 Hlow Hg Hnum) as (m1 & E1 & Hpd1 & Hk1); fold c' in Hpd1.
  pose proof (pd_count _ _ _ Hpd) as (Hc & Hpp & _); assert (Hr : 0 <= 4096 * p < 2 ^ 30) by (unfold LOW in Hlow; lia).
  destruct (low_index (4096 * p) Hr) as (_ & _ & _ & H3); rewrite (Z.mul_comm 4096 p), Z.div_mul, <- (Z.mul_comm 4096 p) in H3 by lia.
  exists (set_word m1 (tab (p / 512) + 8 * (p mod 512)) (Dv.page_entry e (4096 * p))); split_and!.
  - unfold map_to, dest_entry; fold (to_level2 m base (KZERO + 4096 * p)).
    rewrite (to_level2_built m base _ _ (4096 * p) (pd_built _ _ _ Hpd)) by lia; unfold and_then, entry_mut; cbn [mbind res_bind].
    rewrite E1; cbn [mbind res_bind]; by rewrite H3.
  - apply set_page; [done|done|done|]; unfold c', j0; split; [apply Z.div_le_mono; lia|lia].
  - by destruct Hk1; split.
Qed.

Lemma map_more_pages n : forall m c p x ev, paged m c p -> 0 <= p0 -> 4096 * (p + Z.of_nat n) <= LOW ->
  (forall q, p <= q < p + Z.of_nat n -> g (q / 512) = 0 /\ 3 + Z.max c (q / 512 - j0 + 1) <= num_pages (pages m)) ->
  exists ev' m' c', map_pages m base (steps (4096 * p) n 4096) (OffsetMapping KZERO) e Page4K x (KZERO + 4096 * p - 4096) ev =
      Ok (if decide (n = 0%nat) then x else Some (default (KZERO + 4096 * p) x), ev', m') /\
    paged m' c' (p + Z.of_nat n) /\ kept m m' /\ c' <= Z.max c ((p + Z.of_nat n - 1) / 512 - j0 + 1).
Proof.
  induction n as [|n IH]; intros m c p x ev Hpd Hp0 Hlow Hq.
  - exists ev, m, c; rewrite Z.add_0_r; split_and!; [done|done|apply kept_refl|lia].
  - destruct (Hq p ltac:(lia)) as [Hg Hnum]; destruct (map_page m c p Hpd Hp0 ltac:(lia) Hg Hnum) as (m1 & E1 & Hpd1 & Hk1).
    pose proof (pd_count _ _ _ Hpd) as (_ & Hpp & _).
    destruct (IH m1 _ (p + 1) (Some (default (KZERO + 4096 * p) x)) (KZERO + 4096 * p + 4096) Hpd1 Hp0 ltac:(lia)) as (ev' & m' & c' & E2 & Hpd2 & Hk2 & Hc2).
    { intros q Hqr; destruct (Hq q ltac:(lia)) as [Hgq Hnq]; rewrite (kp_num _ _ Hk1); split; [done|].
      assert (p / 512 <= q / 512) by (apply Z.div_le_mono; lia); lia. }
    exists ev', m', c'; split; [|split_and!; [by replace (p + Z.of_nat (S n)) with (p + 1 + Z.of_nat n) by lia|by eapply kept_trans|]].
    + rewrite steps_S, map_pages_cons; [|unfold LOW in Hlow; lia|right; change (Pt.size Page4K) with 4096; lia].
      rewrite E1; cbn [mbind res_bind]; change (Pt.size Page4K) with 4096; rewrite decide_False by lia.
      replace (4096 * p + 4096) with (4096 * (p + 1)) by lia; replace (KZERO + 4096 * p) with (KZERO + 4096 * (p + 1) - 4096) at 2 by lia.
      rewrite E2; cbn [default]; by destruct (decide (n = 0%nat)).
    + replace (p + Z.of_nat (S n) - 1) with (p + 1 + Z.of_nat n - 1) by lia.
      assert (p / 512 <= (p + 1 + Z.of_nat n - 1) / 512) by (apply Z.div_le_mono; lia); lia.
Qed.

Lemma map_pages_none m root pas cv ev cv' ev' : pas <> [] ->
  map_pages m root pas (OffsetMapping KZERO) e Page4K None cv ev = map_pages m root pas (OffsetMapping KZERO) e Page4K None cv' ev'.
Proof. by destruct pas. Qed.

(** Mapping a range in pages. *)
Lemma map_range_pages m n : built m base g 3 -> (0 < n)%nat -> 0 <= p0 -> 4096 * (p0 + Z.of_nat n) <= LOW ->
  (forall q, p0 <= q < p0 + Z.of_nat n -> g (q / 512) = 0) -> 3 + ((p0 + Z.of_nat n - 1) / 512 - j0 + 1) <= num_pages (pages m) ->
  exists vr m' c, map_phys_range m base {| start := 4096 * p0; end_ := 4096 * p0 + Z.of_nat n * 4096 |} (OffsetMapping KZERO) e Page4K = Ok (Val vr, m') /\
    paged m' c (p0 + Z.of_nat n) /\ kept m m' /\ c <= (p0 + Z.of_nat n - 1) / 512 - j0 + 1.
Proof.
  intros Hb Hn Hp Hlow Hg Hnum; unfold map_phys_range, Pa.is_multiple_of; change (Pt.size Page4K) with 4096; cbn [start end_]; change (4096 =? 0) with false.
  assert (Hm : (4096 * p0) mod 4096 = 0) by (rewrite Z.mul_comm; apply Z.mod_mul; lia).
  rewrite Z.mod_add, Hm by lia; cbn [Z.eqb negb orb]; change 4096 with (2 ^ 12) at 1 2 3 4.
  rewrite range_steps by (unfold LOW in *; rewrite ?W64_val; change (2 ^ 12) with 4096; lia || done); cbn [mbind res_bind]; change (2 ^ 12) with 4096.
  destruct (map_more_pages n m 0 p0 None 0 (paged_start m Hb) Hp Hlow) as (ev' & m' & c & E & Hpd & Hk & Hc).
  { intros q Hq; split; [by apply Hg|]; assert (q / 512 <= (p0 + Z.of_nat n - 1) / 512) by (apply Z.div_le_mono; lia).
    assert (j0 <= (p0 + Z.of_nat n - 1) / 512) by (apply Z.div_le_mono; lia); lia. }
  rewrite (map_pages_none m base _ 0 0 (KZERO + 4096 * p0 - 4096) 0), E by (destruct n; [lia|rewrite steps_S; done]).
  rewrite decide_False by lia; cbn [mbind res_bind default].
  eexists _, m', c; split; [reflexivity|]; split_and!; [done|done|].
  assert (j0 <= (p0 + Z.of_nat n - 1) / 512) by (apply Z.div_le_mono; lia); lia.
Qed.

(** ** Reading the tables *)

(** What is written in the tables, apart from the pool. *)
Record tables (w : gmap Z Z) (c p : Z) : Prop := {
  tb_walk1 : walk w base [256] = Some (base + 4096);
  tb_walk2 : walk w base [0; 256] = Some (base + 8192);
  tb_slots : forall j, 0 <= j < 511 -> word w (base + 8192 + 8 * j) = with_tabs c j;
  tb_walk3 : forall j, j0 <= j < j0 + c -> walk w base [j; 0; 256] = Some (tab j);
  tb_words : forall j i, j0 <= j < j0 + c -> 0 <= i < 512 -> word w (tab j + 8 * i) = content p (512 * j + i);
}.

Lemma paged_tables m c p : paged m c p -> tables (words m) c p.
Proof. intros [[] ? ? ?]; by split. Qed.

Lemma tables_agree w w' c p : tables w c p -> (forall q x, walk w base q = Some x -> walk w' base q = Some x) ->
  (forall q x j, walk w base q = Some x -> 0 <= j < 512 -> word w' (x + 8 * j) = word w (x + 8 * j)) -> tables w' c p.
Proof.
  intros [H1 H2 H3 H4 H5] Hw Hs; split; auto.
  - intros j Hj; rewrite (Hs [0; 256]) by (done || lia); auto.
  - intros j i Hj Hi; rewrite (Hs [j; 0; 256]) by (auto || lia); auto.
Qed.

Section reading.
Context (w : gmap Z Z) (c p pa : Z) (Ht : tables w c p) (Hpa : 0 <= pa < LOW).
Let va := KZERO + pa.
Let j := pa / 2 ^ 21.

Lemma read_level2 : leaf w base va = leaf_from w va Level2 (base + 8192) /\ word w (base + 8192 + 8 * va_index va Level2) = with_tabs c j.
Proof.
  pose proof Hpa as Hp; unfold LOW in Hp; destruct (low_index pa ltac:(lia)) as (_ & _ & H2 & _); destruct (low_path pa ltac:(lia)) as (_ & P2 & _).
  split; [apply leaf_walk; [by apply low_mappable|unfold va; rewrite P2; apply Ht]|].
  unfold va; rewrite H2; apply Ht; by apply low_block.
Qed.

Lemma hw_level2 : hw_walk w base va =
  (let e2 := with_tabs c j in
   if negb (valid e2) then None else
   if negb (page_or_table e2) then Some (phys_addr e2 + va mod 2 ^ 21) else
   let e3 := word w (phys_addr e2 + 8 * va_index va Level3) in
   if negb (valid e3 && page_or_table e3) then None else Some (phys_addr e3 + va mod 2 ^ 12)).
Proof.
  pose proof Hpa as Hp; unfold LOW in Hp; destruct (low_index pa ltac:(lia)) as (H0 & H1 & H2 & _).
  destruct (walk_last _ _ _ _ _ (tb_walk1 _ _ _ Ht)) as (t0 & [= <-] & V0 & A0).
  destruct (walk_last _ _ _ _ _ (tb_walk2 _ _ _ Ht)) as (t1 & W1 & V1 & A1); rewrite (tb_walk1 _ _ _ Ht) in W1; injection W1 as <-.
  unfold hw_walk; unfold kernel_va in H0; fold va in H0, H1, H2; rewrite H0, V0, A0; cbn [negb]; rewrite H1; apply andb_prop in V1 as [-> ->].
  rewrite A1; cbn [negb]; rewrite H2; by rewrite (tb_slots _ _ _ Ht) by (by apply low_block).
Qed.

Lemma va_mod b : 0 <= b <= 47 -> va mod 2 ^ b = pa mod 2 ^ b.
Proof.
  intros Hb; unfold va; replace KZERO with (0x1ffff * 2 ^ (47 - b) * 2 ^ b); [rewrite Z.add_comm; apply Z.mod_add; lia|].
  rewrite <- Z.mul_assoc, <- Z.pow_add_r by lia; replace (47 - b + b) with 47 by lia; reflexivity.
Qed.

(** A block: the address is mapped to itself with the attributes of the range. *)
Lemma read_block fl : ~ (j0 <= j < j0 + c) -> g j = with_phys_addr fl (j * 2 ^ 21) -> valid fl = true -> page_or_table fl = false ->
  leaf w base va = Some (with_phys_addr fl (pa - pa mod 2 ^ 21)) /\ hw_walk w base va = Some pa.
Proof.
  intros Hj Hg Hfv Hfp; assert (Hx : with_tabs c j = with_phys_addr fl (j * 2 ^ 21)) by (unfold with_tabs; by rewrite decide_False).
  assert (Hjp : j * 2 ^ 21 = pa - pa mod 2 ^ 21) by (unfold j; Z.to_euclidean_division_equations; lia).
  destruct read_level2 as [-> Hsl]; split.
  - cbn [leaf_from]; unfold leaf_in at 1; rewrite Hsl, Hx, valid_phys, Hfv; unfold is_table; rewrite page_phys, Hfp; cbn [negb andb]; by rewrite Hjp.
  - rewrite hw_level2, Hx; cbn zeta; rewrite valid_phys, page_phys, Hfv, Hfp; cbn [negb]; rewrite va_mod, phys_addr_with by (split; unfold LOW in Hpa; unfold j; Z.to_euclidean_division_equations; lia || lia).
    f_equal; lia.
Qed.

(** A block that is not mapped. *)
Lemma read_none : ~ (j0 <= j < j0 + c) -> g j = 0 -> leaf w base va = None /\ hw_walk w base va = None.
Proof.
  intros Hj Hg; assert (Hx : with_tabs c j = 0) by (unfold with_tabs; by rewrite decide_False).
  destruct read_level2 as [-> Hsl]; split; [|by rewrite hw_level2, Hx].
  cbn [leaf_from]; unfold leaf_in at 1; by rewrite Hsl, Hx.
Qed.

Lemma page_number : pa / 4096 = 512 * j + va_index va Level3 /\ pa - pa mod 4096 = pa / 4096 * 4096.
Proof.
  pose proof Hpa as Hp; unfold LOW in Hp; destruct (low_index pa ltac:(lia)) as (_ & _ & _ & H3); unfold va; rewrite H3; unfold j.
  split; Z.to_euclidean_division_equations; lia.
Qed.

Lemma read_level3 : j0 <= j < j0 + c -> page_pa (tab j) ->
  leaf w base va = leaf_from w va Level3 (tab j) /\ word w (tab j + 8 * va_index va Level3) = content p (pa / 4096) /\
  hw_walk w base va = (let e3 := content p (pa / 4096) in
    if negb (valid e3 && page_or_table e3) then None else Some (phys_addr e3 + va mod 2 ^ 12)).
Proof.
  intros Hj Hpg; pose proof Hpa as Hp; unfold LOW in Hp; destruct (low_path pa ltac:(lia)) as (_ & _ & P3); fold va j in P3.
  assert (Hw : word w (tab j + 8 * va_index va Level3) = content p (pa / 4096))
    by (rewrite (proj1 page_number); apply Ht; [done|apply va_index_range]).
  split_and!; [apply leaf_walk; [by apply low_mappable|rewrite P3; by apply Ht]|done|].
  rewrite hw_level2; unfold with_tabs; rewrite decide_True by done; cbn zeta; destruct (new_table_points (tab j) Hpg) as (-> & -> & ->); cbn [negb].
  by rewrite Hw.
Qed.

(** A page of the range. *)
Lemma read_page : j0 <= j < j0 + c -> page_pa (tab j) -> p0 <= pa / 4096 < p ->
  leaf w base va = Some (Dv.page_entry e (pa - pa mod 4096)) /\ hw_walk w base va = Some pa.
Proof.
  intros Hj Hpg Hq; destruct (read_level3 Hj Hpg) as (-> & Hw & Hh); unfold content in Hw, Hh; rewrite decide_True in Hw, Hh by done.
  rewrite (proj2 page_number); assert (Hve : valid (Dv.page_entry e (pa / 4096 * 4096)) = true) by (unfold Dv.page_entry; by rewrite valid_page, valid_phys).
  split; [cbn [leaf_from]; unfold leaf_in; by rewrite Hw, Hve, page_no_table|].
  rewrite Hh; cbn zeta; rewrite Hve; unfold Dv.page_entry; rewrite page_with, phys_addr_page, phys_addr_with; cbn [andb negb].
  - f_equal; rewrite va_mod by lia; change (2 ^ 12) with 4096; Z.to_euclidean_division_equations; lia.
  - unfold LOW in Hpa; split; [Z.to_euclidean_division_equations; lia|apply Z.mod_mul; lia].
Qed.

(** A page beside the range in one of its blocks; the last page of a block is
    where the level-3 table shows through its own self-pointer. *)
Lemma read_beside : j0 <= j < j0 + c -> page_pa (tab j) -> ~ (p0 <= pa / 4096 < p) ->
  (va_index va Level3 <> 511 -> leaf w base va = None /\ hw_walk w base va = None) /\
  (va_index va Level3 = 511 -> hw_walk w base va = Some (tab j + pa mod 4096)).
Proof.
  intros Hj Hpg Hq; destruct (read_level3 Hj Hpg) as (-> & Hw & Hh); unfold content in Hw, Hh; rewrite decide_False in Hw, Hh by done.
  pose proof (proj1 page_number) as Hn; pose proof (va_index_range va Level3) as Hr.
  assert (Hm : (pa / 4096) mod 512 = va_index va Level3) by (rewrite Hn, Z.add_comm, Z.mul_comm, Z.mod_add, Z.mod_small by lia; done).
  assert (Hd : pa / 4096 / 512 = j) by (rewrite Hn; Z.to_euclidean_division_equations; lia).
  rewrite Hm, Hd in *; split; intros Hi.
  - rewrite decide_False in Hw, Hh by done; split; [|done]; cbn [leaf_from]; unfold leaf_in; by rewrite Hw.
  - rewrite decide_True in Hh by done; rewrite Hh; cbn zeta; destruct (new_table_points (tab j) Hpg) as (-> & -> & ->); cbn [andb negb].
    by rewrite va_mod by lia.
Qed.
End reading.
End map_pages.

(** ** Starting and finishing *)

(** A root that holds nothing but its self-pointer. *)
Lemma root_alone w T U : page_pa T -> U T -> (forall j, 0 <= j < 511 -> word w (T + 8 * j) = 0) -> points_to (word w (T + 8 * 511)) T -> tree_ok w T U.
Proof.
  intros HT HU Hz Hs; assert (Hw : forall p t, walk w T p = Some t -> p = [] /\ t = T).
  { induction p as [|j r IH]; intros t; [by intros [= <-]|]; cbn [walk]; destruct (walk w T r) as [t0|]; [|done].
    destruct (IH t0 eq_refl) as [-> ->]; destruct (step_ok [] j) eqn:E; cbn [andb]; [|done]; intros Hx; exfalso.
    assert (Hj : 0 <= j < 512 /\ j <> 511) by (split; [by apply (step_ok_range _ _ E)|intros ->; discriminate E]).
    assert (Hv : word w (T + 8 * j) = 0) by (apply Hz; lia); by rewrite Hv in Hx. }
  split; [by intros p t [-> ->]%Hw|by intros p q t [-> _]%Hw [-> _]%Hw|done].
Qed.

(** A page taken from the pool for something else. *)
Lemma extra_page m T v : early_ok m T -> next_page_idx (pages m) < num_pages (pages m) ->
  let n := pool_page (pages m) (next_page_idx (pages m)) in
  exists m1, alloc_table m = Ok (n, m1) /\ let m2 := set_word m1 (n + 8 * 0) v in
    early_ok m2 T /\ pages m2 = bump (pages m) /\ word (words m2) (n + 8 * 0) = v /\ ttbr0_el1 m2 = ttbr0_el1 m /\ ttbr1_el1 m2 = ttbr1_el1 m /\
    (forall x j, allocated (pages m) x -> page_pa x -> 0 <= j < 512 -> word (words m2) (x + 8 * j) = word (words m) (x + 8 * j)) /\
    (forall q, walk (words m2) T q = walk (words m) T q).
Proof.
  intros [Htr Hpool] Hlt n; destruct (alloc_ok m Hpool Hlt) as (Ha & Hpool' & Hpn & Hfresh & HU); fold n in Ha, Hpn, Hfresh, HU.
  eexists; unfold alloc_table; rewrite Ha; cbn [mbind res_bind]; split; [reflexivity|]; set (m2 := set_word _ _ _).
  assert (Hs : forall x j, allocated (pages m) x -> page_pa x -> 0 <= j < 512 -> word (words m2) (x + 8 * j) = word (words m) (x + 8 * j)).
  { intros x j Hx Hp Hj; unfold m2, set_word, clear_page; cbn [words with_words with_pages]; rewrite word_insert.
    destruct (Z.eqb_spec (n + 8 * 0) (x + 8 * j)) as [E|_]; [destruct (slot_inj n x 0 j Hpn Hp ltac:(lia) Hj E); congruence|].
    apply zero_page_out; auto; congruence. }
  assert (Hw : forall q, walk (words m2) T q = walk (words m) T q).
  { apply walk_agree_all; intros r t j Hr Hst; destruct (tr_pages _ _ _ Htr r t Hr); apply Hs; auto; by apply (step_ok_range _ _ Hst). }
  assert (Hpg : pages m2 = bump (pages m)) by done.
  split_and!; auto; [split; [split|by rewrite Hpg]|].
  - intros q t; rewrite Hw, Hpg, HU; intros Hq; destruct (tr_pages _ _ _ Htr q t Hq); auto.
  - intros q1 q2 t; rewrite !Hw; apply (tr_inj _ _ _ Htr).
  - destruct (tr_pages _ _ _ Htr [] T eq_refl); rewrite Hs by (done || lia); apply (tr_self _ _ _ Htr).
  - unfold m2, set_word; cbn [words with_words]; by rewrite word_insert, Z.eqb_refl.
Qed.

(** ** The layout of the image

    What the linker script and the boot loader provide: the parts of the kernel
    in order and in whole blocks of 2 MiB, then the devicetree, all in the first
    gigabyte, less its last block, where the self-pointers are; and enough
    pages in the pool: three tables, one for each block the devicetree
    touches, and two for the identity map. *)
Record layout_ok (y : Syms) (dtb size : Z) : Prop := {
  lo_text : 0 <= text_pa y <= etext_pa y /\ 0 <= eboottext_pa y <= etext_pa y /\ 0 < etext_pa y /\ etext_pa y mod 2 ^ 21 = 0;
  lo_rodata : etext_pa y <= rodata_pa y < erodata_pa y /\ rodata_pa y mod 2 ^ 21 = 0 /\ erodata_pa y mod 2 ^ 21 = 0;
  lo_data : erodata_pa y <= data_pa y <= bss_pa y /\ edata_pa y <= ebss_pa y /\ data_pa y < ebss_pa y /\
    data_pa y mod 2 ^ 21 = 0 /\ ebss_pa y mod 2 ^ 21 = 0;
  lo_dtb : ebss_pa y <= dtb /\ 0 < size /\ dtb + size <= LOW;
  lo_pool : 0 <= earlyvm_pagetables_pa y /\ earlyvm_pagetables_pa y mod 4096 = 0 /\ eearlyvm_pagetables_pa y < 2 ^ 46;
  lo_room : earlyvm_pagetables_pa y + 4096 * (5 + ((dtb + size - 1) / 2 ^ 21 - dtb / 2 ^ 21 + 1)) <= eearlyvm_pagetables_pa y;
}.

Section init.
Context (y : Syms) (dtb size : Z) (Hl : layout_ok y dtb size).

Let base := earlyvm_pagetables_pa y.
Let p0 := dtb / 4096.
Let p1 := (dtb + size - 1) / 4096 + 1.
Let nt := Z.to_nat (etext_pa y / 2 ^ 21).
Let nr := Z.to_nat ((erodata_pa y - rodata_pa y) / 2 ^ 21).
Let nd := Z.to_nat ((ebss_pa y - data_pa y) / 2 ^ 21).
Let g1 := blocks (fun _ => 0) 0 nt ro_kernel_text.
Let g2 := blocks g1 (rodata_pa y) nr ro_kernel_data.
Let g3 := blocks g2 (data_pa y) nd rw_kernel_data.

Let text : Mapping := {| range := {| start := 0; end_ := 0 + Z.of_nat nt * 2 ^ 21 |}; flags := ro_kernel_text; page_size := Page2M |}.
Let rodata : Mapping := {| range := {| start := rodata_pa y; end_ := rodata_pa y + Z.of_nat nr * 2 ^ 21 |}; flags := ro_kernel_data; page_size := Page2M |}.
Let data : Mapping := {| range := {| start := data_pa y; end_ := data_pa y + Z.of_nat nd * 2 ^ 21 |}; flags := rw_kernel_data; page_size := Page2M |}.
Let tree : Mapping := {| range := {| start := 4096 * p0; end_ := 4096 * p0 + Z.of_nat (Z.to_nat (p1 - p0)) * 4096 |}; flags := ro_kernel_data; page_size := Page4K |}.

(** The numbers of the layout, for [lia]. *)
Lemma numbers : Z.of_nat nt * 2 ^ 21 = etext_pa y /\ (0 < nt)%nat /\ rodata_pa y + Z.of_nat nr * 2 ^ 21 = erodata_pa y /\ (0 < nr)%nat /\
  data_pa y + Z.of_nat nd * 2 ^ 21 = ebss_pa y /\ (0 < nd)%nat /\ 0 <= p0 < p1 /\ 4096 * p1 <= LOW /\ ebss_pa y <= 4096 * p0 /\
  p0 / 512 = dtb / 2 ^ 21 /\ (p1 - 1) / 512 = (dtb + size - 1) / 2 ^ 21 /\ ebss_pa y / 2 ^ 21 <= p0 / 512.
Proof.
  destruct Hl as [(Ht1 & Ht2 & Ht3 & Ht4) (Hr1 & Hr2 & Hr3) (Hd1 & Hd2 & Hd3 & Hd4 & Hd5) (Hb1 & Hb2 & Hb3) _ _].
  unfold nt, nr, nd, p0, p1, LOW in *; split_and!; Z.to_euclidean_division_equations; lia.
Qed.

(** The table of [init_vm] in the order it is mapped. *)
Lemma custom_map_sorted : custom_map y {| start := dtb; end_ := dtb + size |} = Ok [text; rodata; data; tree].
Proof.
  pose proof numbers as (N1 & N2 & N3 & N4 & N5 & N6 & N7 & N8 & N9 & _).
  destruct Hl as [(Ht1 & Ht2 & Ht3 & Ht4) (Hr1 & Hr2 & Hr3) (Hd1 & Hd2 & Hd3 & Hd4 & Hd5) (Hb1 & Hb2 & Hb3) _ _].
  unfold custom_map, Range.round, Pa.round_down2, Pa.round_up2; cbn [start end_].
  change (Pt.size Page4K) with (2 ^ 12); rewrite round_down2_eval, round_up2_eval by (unfold is_u, LOW in *; rewrite ?W64_val; lia).
  cbn [mbind res_bind]; f_equal; unfold Range.add, boottext_physrange, text_physrange, data_physrange, bss_physrange, rodata_physrange, Range.new, base_physaddr; cbn [start end_].
  replace (dtb - dtb mod 2 ^ 12) with (4096 * p0) by (unfold p0; Z.to_euclidean_division_equations; lia).
  replace (dtb + size + 2 ^ 12 - 1 - (dtb + size + 2 ^ 12 - 1) mod 2 ^ 12) with (4096 * p0 + Z.of_nat (Z.to_nat (p1 - p0)) * 4096)
    by (rewrite Z2Nat.id by lia; unfold p0, p1; Z.to_euclidean_division_equations; lia).
  rewrite (Z.min_l 0), (Z.max_r (eboottext_pa y)), (Z.min_l (data_pa y)), (Z.max_r (edata_pa y)) by lia.
  unfold sort_by_start; cbn [foldr insert_by_start range start].
  rewrite (proj2 (Z.leb_le (rodata_pa y) _)) by lia; cbn [insert_by_start range start]; rewrite (proj2 (Z.leb_le 0 _)) by lia; cbn [insert_by_start range start].
  rewrite (proj2 (Z.leb_gt _ 0)), (proj2 (Z.leb_gt _ (rodata_pa y))), (proj2 (Z.leb_gt _ (data_pa y))) by lia.
  unfold text, rodata, data, tree; repeat (f_equal; try lia).
Qed.

Lemma map_all_ok m : bare m base -> 5 + ((dtb + size - 1) / 2 ^ 21 - dtb / 2 ^ 21 + 1) <= num_pages (pages m) ->
  exists m' c, map_all m base [text; rodata; data; tree] = Ok m' /\ paged base ro_kernel_data g3 p0 m' c p1 /\ kept m m' /\
    c <= (dtb + size - 1) / 2 ^ 21 - dtb / 2 ^ 21 + 1.
Proof.
  intros Hb Hnum; pose proof numbers as (N1 & N2 & N3 & N4 & N5 & N6 & N7 & N8 & N9 & N10 & N11 & N12).
  destruct Hl as [(Ht1 & Ht2 & Ht3 & Ht4) (Hr1 & Hr2 & Hr3) (Hd1 & Hd2 & Hd3 & Hd4 & Hd5) (Hb1 & Hb2 & Hb3) _ _].
  assert (Hdb : dtb / 2 ^ 21 <= (dtb + size - 1) / 2 ^ 21) by (apply Z.div_le_mono; lia).
  assert (Q1 : 0 / 2 ^ 21 + Z.of_nat nt <= rodata_pa y / 2 ^ 21) by (Z.to_euclidean_division_equations; lia).
  assert (Q2 : rodata_pa y / 2 ^ 21 + Z.of_nat nr <= data_pa y / 2 ^ 21) by (Z.to_euclidean_division_equations; lia).
  assert (Q3 : data_pa y / 2 ^ 21 + Z.of_nat nd <= p0 / 512) by (Z.to_euclidean_division_equations; lia).
  destruct (map_range_blocks base ro_kernel_text eq_refl eq_refl m (fun _ => 0) 3 0 nt) as (v1 & m1 & E1 & B1 & K1);
    [apply window_bare; [done|lia]|done|lia|done|unfold LOW in *; lia|by intros j _|].
  destruct (map_range_blocks base ro_kernel_data eq_refl eq_refl m1 g1 3 (rodata_pa y) nr) as (v2 & m2 & E2 & B2 & K2);
    [by left|done|lia|done|unfold LOW in *; lia|intros j Hj; unfold g1, blocks; by rewrite decide_False by lia|].
  destruct (map_range_blocks base rw_kernel_data eq_refl eq_refl m2 g2 3 (data_pa y) nd) as (v3 & m3 & E3 & B3 & K3);
    [by left|done|lia|done|unfold LOW in *; lia|intros j Hj; unfold g2, g1, blocks; by rewrite !decide_False by lia|].
  destruct (map_range_pages base ro_kernel_data g3 p0 m3 (Z.to_nat (p1 - p0)) B3) as (v4 & m4 & c & E4 & B4 & K4 & Hc);
    rewrite ?Z2Nat.id, ?(Zplus_minus p0 p1) in * by lia; [lia|lia|done| |rewrite (kp_num _ _ K3), (kp_num _ _ K2), (kp_num _ _ K1); lia|].
  { intros q Hq; assert (p0 / 512 <= q / 512) by (apply Z.div_le_mono; lia); unfold g3, g2, g1, blocks; by rewrite !decide_False by lia. }
  exists m4, c; split_and!; [|done|by eapply kept_trans; [eapply kept_trans; [eapply kept_trans|]|]|lia].
  unfold map_all, text, rodata, data, tree; cbn [range flags page_size]; rewrite E1; cbn [mbind res_bind]; rewrite E2; cbn [mbind res_bind].
  rewrite E3; cbn [mbind res_bind]; rewrite Z2Nat.id by lia; by rewrite E4.
Qed.

(** An address of the offset mapping: its entry, and the translation. *)
Definition offset_mapped (w : gmap Z Z) (T pa : PhysAddr) (en : Entry) : Prop :=
  leaf w T (KZERO + pa) = Some en /\ hw_walk w T (KZERO + pa) = Some pa.

Record kernel_mapped (w : gmap Z Z) (T : PhysAddr) : Prop := {
  km_text : forall pa, 0 <= pa < etext_pa y -> offset_mapped w T pa (with_phys_addr ro_kernel_text (pa - pa mod 2 ^ 21));
  km_rodata : forall pa, rodata_pa y <= pa < erodata_pa y -> offset_mapped w T pa (with_phys_addr ro_kernel_data (pa - pa mod 2 ^ 21));
  km_data : forall pa, data_pa y <= pa < ebss_pa y -> offset_mapped w T pa (with_phys_addr rw_kernel_data (pa - pa mod 2 ^ 21));
  km_dtb : forall pa, dtb - dtb mod 4096 <= pa < dtb + size -> offset_mapped w T pa (Dv.page_entry ro_kernel_data (pa - pa mod 4096));
  (** Nothing else of the window, except the last page of a block that the
      devicetree is in: there the level-3 table of the block shows through its own
      self-pointer. *)
  km_none : forall pa, 0 <= pa < LOW -> etext_pa y <= pa < rodata_pa y \/ erodata_pa y <= pa < data_pa y \/ ebss_pa y <= pa ->
    pa / 4096 < dtb / 4096 \/ (dtb + size - 1) / 4096 < pa / 4096 ->
    (pa / 4096) mod 512 <> 511 \/ ~ (dtb / 2 ^ 21 <= pa / 2 ^ 21 <= (dtb + size - 1) / 2 ^ 21) ->
    leaf w T (KZERO + pa) = None /\ hw_walk w T (KZERO + pa) = None;
  km_self : forall pa, 0 <= pa < LOW -> dtb / 2 ^ 21 <= pa / 2 ^ 21 <= (dtb + size - 1) / 2 ^ 21 ->
    pa / 4096 < dtb / 4096 \/ (dtb + size - 1) / 4096 < pa / 4096 -> (pa / 4096) mod 512 = 511 ->
    exists x, walk w T [pa / 2 ^ 21; 0; 256] = Some x /\ hw_walk w T (KZERO + pa) = Some (x + pa mod 4096);
}.

Lemma tables_mapped w c : tables base ro_kernel_data g3 p0 w c p1 -> (forall j, p0 / 512 <= j < p0 / 512 + c -> page_pa (tab base p0 j)) ->
  (c = 0 /\ p1 = p0) \/ p1 <= 512 * (p0 / 512 + c) -> c <= (dtb + size - 1) / 2 ^ 21 - dtb / 2 ^ 21 + 1 -> kernel_mapped w base.
Proof.
  intros Ht Hpg Hcount Hc; pose proof numbers as (N1 & N2 & N3 & N4 & N5 & N6 & N7 & N8 & N9 & N10 & N11 & N12).
  destruct Hl as [(Ht1 & Ht2 & Ht3 & Ht4) (Hr1 & Hr2 & Hr3) (Hd1 & Hd2 & Hd3 & Hd4 & Hd5) (Hb1 & Hb2 & Hb3) _ _].
  assert (Hcnt : p1 <= 512 * (p0 / 512 + c)) by (destruct Hcount as [[_ ?]|?]; [lia|done]).
  assert (Hlow : forall pa, pa < ebss_pa y -> pa / 2 ^ 21 < p0 / 512) by (intros pa Hp; Z.to_euclidean_division_equations; lia).
  assert (Q1 : 0 / 2 ^ 21 + Z.of_nat nt <= rodata_pa y / 2 ^ 21) by (clear - N1 Ht4 Hr1 Hr2 Ht3; Z.to_euclidean_division_equations; lia).
  assert (Q2 : rodata_pa y / 2 ^ 21 + Z.of_nat nr <= data_pa y / 2 ^ 21) by (clear - N3 Hr1 Hr2 Hd1 Hd4; Z.to_euclidean_division_equations; lia).
  split.
  - intros pa Hpa; assert (Hp : 0 <= pa < LOW) by (unfold LOW in *; lia).
    apply (read_block base ro_kernel_data g3 p0 w c p1 pa Ht Hp ro_kernel_text); [specialize (Hlow pa ltac:(lia)); lia| |done|done].
    assert (0 / 2 ^ 21 <= pa / 2 ^ 21 < 0 / 2 ^ 21 + Z.of_nat nt) by (clear - N1 Hpa Ht4; Z.to_euclidean_division_equations; lia).
    unfold g3, g2, g1, blocks; rewrite decide_False, decide_False, decide_True by lia; done.
  - intros pa Hpa; assert (Hp : 0 <= pa < LOW) by (unfold LOW in *; lia).
    apply (read_block base ro_kernel_data g3 p0 w c p1 pa Ht Hp ro_kernel_data); [specialize (Hlow pa ltac:(lia)); lia| |done|done].
    assert (rodata_pa y / 2 ^ 21 <= pa / 2 ^ 21 < rodata_pa y / 2 ^ 21 + Z.of_nat nr) by (clear - N3 Hpa Hr2 Hr3; Z.to_euclidean_division_equations; lia).
    unfold g3, g2, blocks; rewrite decide_False, decide_True by lia; done.
  - intros pa Hpa; assert (Hp : 0 <= pa < LOW) by (unfold LOW in *; lia).
    apply (read_block base ro_kernel_data g3 p0 w c p1 pa Ht Hp rw_kernel_data); [specialize (Hlow pa ltac:(lia)); lia| |done|done].
    assert (data_pa y / 2 ^ 21 <= pa / 2 ^ 21 < data_pa y / 2 ^ 21 + Z.of_nat nd) by (clear - N5 Hpa Hd4 Hd5; Z.to_euclidean_division_equations; lia).
    unfold g3, blocks; rewrite decide_True by lia; done.
  - intros pa Hpa; assert (Hp : 0 <= pa < LOW) by (unfold LOW in *; Z.to_euclidean_division_equations; lia).
    assert (Hq : p0 <= pa / 4096 < p1) by (clear - Hpa p0 p1; unfold p0, p1; Z.to_euclidean_division_equations; lia).
    assert (Hj : p0 / 512 <= pa / 2 ^ 21 < p0 / 512 + c) by (clear - Hcnt Hq; clearbody p0 p1; Z.to_euclidean_division_equations; lia).
    apply (read_page base ro_kernel_data g3 p0 eq_refl w c p1 pa Ht Hp); auto.
  - intros pa Hp Hout Hnd Hst; assert (Hq : ~ (p0 <= pa / 4096 < p1)) by (unfold p0, p1; lia).
    destruct (decide (p0 / 512 <= pa / 2 ^ 21 < p0 / 512 + c)) as [Hj|Hj].
    + apply (read_beside base ro_kernel_data g3 p0 w c p1 pa Ht Hp Hj (Hpg _ Hj) Hq).
      unfold LOW in Hp; destruct (low_index pa ltac:(lia)) as (_ & _ & _ & ->); destruct Hst as [Hst|Hst]; [done|]; destruct Hst; lia.
    + apply (read_none base ro_kernel_data g3 p0 w c p1 pa Ht Hp Hj); unfold g3, g2, g1, blocks.
      rewrite !decide_False; [done|..]; clear - Hout N1 N3 N5 Ht4 Hr2 Hr3 Hd4 Hd5 Hr1 Hd1 Hd3; Z.to_euclidean_division_equations; lia.
  - intros pa Hp Hblk Hnd Hst; assert (Hq : ~ (p0 <= pa / 4096 < p1)) by (unfold p0, p1; lia).
    assert (Hlast : (p1 - 1) / 512 < p0 / 512 + c) by (clear - Hcnt; clearbody p0 p1; Z.to_euclidean_division_equations; lia).
    assert (Hj : p0 / 512 <= pa / 2 ^ 21 < p0 / 512 + c) by lia.
    exists (tab base p0 (pa / 2 ^ 21)); split; [by apply Ht|].
    apply (read_beside base ro_kernel_data g3 p0 w c p1 pa Ht Hp Hj (Hpg _ Hj) Hq).
    unfold LOW in Hp; destruct (low_index pa ltac:(lia)) as (_ & _ & _ & ->); done.
Qed.

(** The pool and the root before the first mapping. *)
Lemma start_ok (m0 : Mem unit) : exists a w, new y (words m0) = Ok (a, w) /\
  let m := {| words := w; ttbr0_el1 := ttbr0_el1 m0; ttbr1_el1 := ttbr1_el1 m0; pages := a |} in
  exists m1, alloc_table m = Ok (base, m1) /\ bare (set_word m1 (base + 8 * 511) (root_self_entry base)) base /\
    num_pages (pages m1) = (eearlyvm_pagetables_pa y - base) / 4096.
Proof.
  destruct Hl as [_ _ _ (Hb1 & Hb2 & Hb3) (Hp1 & Hp2 & Hp3) Hroom]; fold base in Hp1, Hp2, Hroom.
  assert (Hdb : dtb / 2 ^ 21 <= (dtb + size - 1) / 2 ^ 21) by (apply Z.div_le_mono; lia).
  unfold new, Range.size, earlyvm_pages_physrange, Range.new; cbn [start end_]; fold base; rewrite usub_ok by lia; cbn [mbind res_bind].
  set (n := (eearlyvm_pagetables_pa y - base) / 4096); eexists _, _; split; [reflexivity|].
  assert (Hn : 5 <= n /\ base + 4096 * n <= eearlyvm_pagetables_pa y) by (unfold n; Z.to_euclidean_division_equations; lia); clearbody n.
  cbv zeta; match goal with |- context [alloc_table ?x] => set (m := x) end; assert (Hpool : pool_ok (pages m)) by (subst m; unfold pool_ok; cbn [pages pages_pa num_pages next_page_idx]; split_and!; lia || done).
  destruct (alloc_ok m Hpool) as (Ha & Hpool' & Hpn & _ & _); [cbn; lia|].
  assert (Hpb : pool_page (pages m) (next_page_idx (pages m)) = base) by (unfold pool_page; cbn; lia); rewrite Hpb in *.
  eexists; unfold alloc_table; rewrite Ha; cbn [mbind res_bind]; split; [reflexivity|]; split; [|done].
  set (m1 := set_word _ _ _).
  assert (Hz : forall j, 0 <= j < 511 -> word (words m1) (base + 8 * j) = 0).
  { intros j Hj; unfold m1, set_word, clear_page; cbn [words with_words with_pages]; rewrite word_insert, (proj2 (Z.eqb_neq _ _)) by lia.
    apply zero_page_in; lia. }
  split; [split|done|done|apply Hz; lia]; [|exact Hpool'].
  apply root_alone; [done|exists 0; split; [cbn; lia|unfold pool_page; cbn; lia]|done|].
  unfold m1, set_word; cbn [words with_words]; rewrite word_insert, Z.eqb_refl; by apply root_self_points.
Qed.

(** The tree that maps the first gigabyte to itself. *)
Lemma identity_walk w t3 t4 va : page_pa t3 -> word w (t4 + 8 * 0) = identity_table t3 -> word w (t3 + 8 * 0) = identity_block ->
  0 <= va < 2 ^ 30 -> hw_walk w t4 va = Some va.
Proof.
  intros Hp H4 H3 Hva; destruct (identity_table_points t3 Hp) as (V & Q & A); unfold hw_walk; rewrite !va_index_div; cbn [level_shift].
  rewrite (Z.div_small va (2 ^ 39)), (Z.div_small va (2 ^ 30)) by lia; change (0 mod 512) with 0; rewrite H4, V, Q, A; cbn [andb negb].
  rewrite H3; change (valid identity_block) with true; change (page_or_table identity_block) with false; cbn [negb].
  change (phys_addr identity_block) with 0; by rewrite Z.mod_small.
Qed.

Lemma init_vm_spec (m0 : Mem unit) (dt : Fd.DeviceTree) : Fd.from_usize (byte_at (words m0)) dtb = Val dt -> Fd.size dt = size ->
  exists b, init_vm y dtb m0 = Ok b /\ ttbr1_el1 (bmem b) = base /\ kernel_mapped (words (bmem b)) base /\
    (forall va, 0 <= va < 2 ^ 30 -> hw_walk (words (bmem b)) (ttbr0_el1 (bmem b)) va = Some va) /\
    early_ok (bmem b) base /\ pages_pa (pages (bmem b)) = base /\ num_pages (pages (bmem b)) = (eearlyvm_pagetables_pa y - base) / 4096 /\
    mair_el1 b = 0x04ff.
Proof.
  intros Hdt Hsz; pose proof Hl as [_ _ _ (Hb1 & Hb2 & Hb3) _ Hroom]; fold base in Hroom.
  assert (Hnum : 5 + ((dtb + size - 1) / 2 ^ 21 - dtb / 2 ^ 21 + 1) <= (eearlyvm_pagetables_pa y - base) / 4096)
    by (apply Z.div_le_lower_bound; lia).
  unfold init_vm; rewrite Hdt; cbn [mbind res_bind]; unfold Range.with_pa_len; rewrite Hsz, uadd_ok by (unfold LOW in *; rewrite W64_val; lia); cbn [mbind res_bind].
  rewrite custom_map_sorted; cbn [mbind res_bind]; destruct (start_ok m0) as (a & w & -> & m1 & E1 & Hbare & Hn1); cbn [mbind res_bind]; rewrite E1; cbn [mbind res_bind].
  destruct (map_all_ok _ Hbare) as (m2 & c & E2 & Hpd & [Hkn Hk0 Hk1] & Hc); [cbn [pages set_word with_words]; lia|]; rewrite E2; cbn [mbind res_bind].
  cbn [pages set_word with_words] in Hkn; pose proof (paged_pages _ _ _ _ _ _ _ Hpd) as [_ Htabs].
  pose proof Hpd as [[Hok2 Hba2 Hne2 _ _ _] _ _ (Hc0 & _ & Hcount)].
  destruct (extra_page m2 base identity_block Hok2) as (m3 & E3 & Hok3 & Hpg3 & Hw3 & _ & _ & Hs3 & Hq3); [lia|]; set (t3 := pool_page _ _) in *.
  set (m3' := set_word m3 (t3 + 8 * 0) identity_block) in *; rewrite E3; cbn [mbind res_bind]; fold m3'.
  destruct (extra_page m3' base (identity_table t3) Hok3) as (m4 & E4 & Hok4 & Hpg4 & Hw4 & _ & _ & Hs4 & Hq4); [rewrite Hpg3; cbn; lia|].
  set (t4 := pool_page (pages m3') _) in *; set (m4' := set_word m4 (t4 + 8 * 0) (identity_table t3)) in *; rewrite E4; cbn [mbind res_bind]; fold m4'.
  assert (Ht3 : page_pa t3 /\ allocated (pages m3') t3).
  { destruct (alloc_ok m2 (eo_pool _ _ Hok2)) as (_ & _ & Hp & _ & HU); [lia|]; split; [done|rewrite Hpg3; apply HU; by right]. }
  assert (Htree : forall q x, walk (words m2) base q = Some x -> page_pa x /\ allocated (pages m2) x /\ allocated (pages m3') x).
  { intros q x Hq; destruct (tr_pages _ _ _ (eo_tree _ _ Hok2) q x Hq); rewrite <- Hq3 in Hq; destruct (tr_pages _ _ _ (eo_tree _ _ Hok3) q x Hq); done. }
  eexists; split; [reflexivity|]; cbn [bmem mair_el1 ttbr1_el1 ttbr0_el1 words pages].
  split; [done|]; split; [|split; [|split; [split; [apply (eo_tree _ _ Hok4)|apply (eo_pool _ _ Hok4)]|split_and!; [|rewrite Hpg4, Hpg3; cbn; lia|done]]]].
  - apply (tables_mapped _ c); auto; apply (tables_agree _ _ _ _ (words m2)); [by apply paged_tables|intros q x Hq; by rewrite Hq4, Hq3|].
    intros q x j Hq Hj; destruct (Htree q x Hq) as (Hp & Hu2 & Hu3); by rewrite Hs4, Hs3.
  - intros va Hva; apply (identity_walk _ t3); [apply Ht3|done| |done].
    rewrite (Hs4 t3 0) by (apply Ht3 || lia); done.
  - by rewrite Hpg4, Hpg3.
Qed.
End init.

(** C11: [init_vm] on an image laid out as the linker script does, with a devicetree
    that the reader accepts and that lies above the image and below [LOW] (1 GiB less
    one block), with enough pages in the pool for its blocks: it does not panic; the
    tables of TTBR1 map the text and the read-only data read-only, the data and bss
    writable, and the pages of the devicetree read-only, each physical address [pa] at
    [KZERO + pa]; of the rest of the window below [LOW] only the last page of each
    2 MiB block that the devicetree is in is mapped: the block's level-3 table shows
    there through its self-pointer; the tables of TTBR0 map the first gigabyte
    to itself; and the tree is well formed, of pages of the pool, with self-pointers in
    all tables that were made. *)
Theorem init_vm_correct (y : Syms) (dtb : Z) (dt : Fd.DeviceTree) (m0 : Mem unit)
    (Hdt : Fd.from_usize (byte_at (words m0)) dtb = Val dt) (Hl : layout_ok y dtb (Fd.size dt)) :
  exists b, init_vm y dtb m0 = Ok b /\ let w := words (bmem b) in let T := ttbr1_el1 (bmem b) in
    kernel_mapped y dtb (Fd.size dt) w T /\
    (forall va, 0 <= va < 2 ^ 30 -> hw_walk w (ttbr0_el1 (bmem b)) va = Some va) /\
    tree_ok w T (allocated (pages (bmem b))) /\
    (forall x, allocated (pages (bmem b)) x -> earlyvm_pagetables_pa y <= x /\ x + 4096 <= eearlyvm_pagetables_pa y).
Proof.
  destruct (init_vm_spec y dtb (Fd.size dt) Hl m0 dt Hdt eq_refl) as (b & E & HT & Hk & Hi & [Htr Hpool] & Hb & Hn & _).
  exists b; split; [done|]; cbv zeta; rewrite HT; split_and!; auto; intros x (k & Hkr & ->); unfold pool_page; rewrite Hb.
  destruct Hpool as (_ & _ & Hidx & _); rewrite Hn in Hidx; destruct Hl as [_ _ _ _ (Hp1 & _) _].
  split; [lia|]; Z.to_euclidean_division_equations; lia.
Qed.

(** ** The kernel tree after boot *)

(** The window of the devices is under another slot of the root. *)
Definition DEVICE_VA : Z := KZERO + 0x100000000000.

Lemma device_window a : DEVICE_VA <= a < DEVICE_VA + 2 ^ 39 -> va_index a Level0 = 288.
Proof. unfold DEVICE_VA, KZERO; intros; rewrite va_index_div; cbn [level_shift]; Z.to_euclidean_division_equations; lia. Qed.

Lemma device_mappable a : DEVICE_VA <= a < DEVICE_VA + 2 ^ 39 -> mappable a.
Proof.
  intros Ha%device_window l Hlv Hs; destruct l; cbn [path] in *; [rewrite Ha; done|rewrite Ha in Hs; discriminate Hs..|done].
Qed.

(** The kernel maps a device with the tables that [init_vm] left, whatever
    page allocator it has set up meanwhile, if that one counts the pages of the
    pool as in use: [map_device_register] does not panic, each register is
    reached at its address, and every address of the kernel's window translates
    as [init_vm] arranged it. *)
Lemma device_after_boot {P : Type} `{!PageAllocator P} (alloc_inv : P -> Prop) `{!AllocLaws P alloc_inv}
    (y : Syms) (dtb : Z) (dt : Fd.DeviceTree) (m0 : Mem unit)
    (Hdt : Fd.from_usize (byte_at (words m0)) dtb = Val dt) (Hl : layout_ok y dtb (Fd.size dt)) :
  exists b, init_vm y dtb m0 = Ok b /\
  forall (p : P) (r : PhysRange), alloc_inv p -> (forall x, allocated (pages (bmem b)) x -> in_use p x) ->
    Dv.regs_ok r -> end_ r - start r <= 2 ^ 38 ->
    let T := ttbr1_el1 (bmem b) in let w := words (bmem b) in
    let k := {| Dv.kmem := {| words := w; ttbr0_el1 := ttbr0_el1 (bmem b); ttbr1_el1 := T; pages := p |}; Dv.next_free_device_page_va := DEVICE_VA |} in
    exists res k', Dv.map_device_register k r Page4K = Ok (res, k') /\
      (forall pa, 0 <= pa < LOW -> leaf (words (Dv.kmem k')) T (KZERO + pa) = leaf w T (KZERO + pa)) /\
      forall v, res = Val v -> forall o, 0 <= o < end_ r - start r ->
        exists en, leaf (words (Dv.kmem k')) T (vstart v + o) = Some en /\ phys_addr en + (vstart v + o) mod 4096 = start r + o.
Proof.
  destruct (init_vm_spec y dtb (Fd.size dt) Hl m0 dt Hdt eq_refl) as (b & E & HT & _ & _ & [Htr _] & _).
  exists b; split; [done|]; intros p r Hp Hin Hr Hlen; cbv zeta; rewrite HT; set (base := earlyvm_pagetables_pa y) in *; set (w := words (bmem b)) in *.
  match goal with |- context [Dv.map_device_register ?x] => set (k := x) end.
  destruct (tr_pages _ _ _ Htr [] base eq_refl) as [Hpb Hub].
  assert (Hready : ready alloc_inv (Dv.kmem k) Kernel base).
  { split; [|done|split; [done|by apply Hin]|by left]; split; [|apply (tr_inj _ _ _ Htr)|apply (tr_self _ _ _ Htr)].
    intros q x Hq; destruct (tr_pages _ _ _ Htr q x Hq); auto. }
  pose proof (Dv.page_count_spec r Hr) as (Hf & _ & Hf' & _ & He).
  assert (Hc : Dv.cursor_ok (Dv.next_free_device_page_va k) (Dv.page_count r)).
  { cbn [Dv.next_free_device_page_va k]; split_and!; [reflexivity|unfold DEVICE_VA, KZERO; lia|unfold DEVICE_VA, KZERO; rewrite W64_val; lia|].
    intros a Ha; apply device_mappable; lia. }
  destruct (Dv.map_device_register_spec alloc_inv k r base eq_refl Hready Hr Hc) as (res & k' & E1 & _ & _ & Hres); exists res, k'; split; [done|]; split.
  - assert (Hkeep : forall n va pa e, Dv.range_mapped w (words (Dv.kmem k')) base va pa n e -> DEVICE_VA <= va -> va + Z.of_nat n * 4096 <= DEVICE_VA + 2 ^ 39 ->
      forall q, 0 <= q < LOW -> leaf (words (Dv.kmem k')) base (KZERO + q) = leaf w base (KZERO + q)).
    { intros n va pa e Hm H1 H2 q Hq; apply (Hm _ (low_mappable q Hq)); intros i Hi Hsp; specialize (Hsp Level0).
      unfold LOW in Hq; destruct (low_index q ltac:(lia)) as (H0 & _); unfold kernel_va in H0; rewrite H0, device_window in Hsp by lia; lia. }
    intros pa Hpa; destruct res as [v|er]; [destruct Hres as [_ Hm]|destruct Hres as (n & Hn & Hm)]; cbn [Dv.next_free_device_page_va k] in Hm;
      apply (Hkeep _ _ _ _ Hm); cbn; lia.
  - intros v -> o Ho; by apply (Dv.device_reached (Dv.kmem k) (Dv.kmem k') base (Dv.next_free_device_page_va k) r).
Qed.

(** A page that cannot be mapped is passed over in silence: in the last block of
    the gigabyte, where the slot of the level-2 table is its self-pointer, the
    range counts as mapped and the tables are as before. *)
Lemma last_block_lost m base g k pa e : built m base g k -> LOW <= pa < 2 ^ 30 -> pa mod 4096 = 0 ->
  map_phys_range m base {| start := pa; end_ := pa + 1 * 4096 |} (OffsetMapping KZERO) e Page4K =
    Ok (Val {| vstart := KZERO + pa; vend := KZERO + pa + 4096 |}, m).
Proof.
  intros Hb Hp Hm; unfold LOW in Hp; unfold map_phys_range, Pa.is_multiple_of; change (Pt.size Page4K) with 4096; cbn [start end_]; change (4096 =? 0) with false.
  rewrite Z.mod_add, Hm by lia; cbn [Z.eqb negb orb]; change (1 * 4096) with (Z.of_nat 1 * 2 ^ 12); change 4096 with (2 ^ 12) at 1.
  rewrite range_steps by (rewrite ?W64_val; change (2 ^ 12) with 4096; lia || done); cbn [mbind res_bind]; rewrite steps_S, map_pages_cons; [|lia|by left].
  destruct (low_index pa ltac:(lia)) as (H0 & H1 & H2 & _); destruct (low_path pa ltac:(lia)) as (P1 & P2 & _); unfold kernel_va in H0.
  assert (Hi : va_index (KZERO + pa) Level2 = 511) by (rewrite H2; Z.to_euclidean_division_equations; lia).
  unfold map_to, dest_entry, and_then; rewrite (next_mut_hit m base base Level0 Level1 _ (base + 4096)); [|done|by rewrite H0|done|rewrite P1; apply Hb].
  cbn [mbind res_bind]; rewrite (next_mut_hit m base (base + 4096) Level1 Level2 _ (base + 8192)); [|done|by rewrite H1|rewrite P1; apply Hb|rewrite P2; apply Hb].
  cbn [mbind res_bind]; unfold next_mut; rewrite Hi; reflexivity.
Qed.

(** ** A small image

    Three parts of one block each, the pool in the second to the ninth page, and
    a devicetree of 40 bytes at 128 MiB. *)
Module ViDemo.
Import AsDemo.
#[local] Existing Instance demo_alloc.
#[local] Existing Instance demo_laws.

Definition image : Syms :=
  {| eboottext_pa := 0x81000; text_pa := 0x81000; etext_pa := 0x200000; rodata_pa := 0x200000; erodata_pa := 0x400000;
     data_pa := 0x400000; edata_pa := 0x401000; bss_pa := 0x401000; ebss_pa := 0x600000;
     earlyvm_pagetables_pa := 0x1000; eearlyvm_pagetables_pa := 0x9000 |}.
Definition dtb : Z := 0x8000000.
Definition ram : Mem unit := {| words := {[ dtb := 0x28000000edfe0dd0 ]}; ttbr0_el1 := 0; ttbr1_el1 := 0; pages := tt |}.

Lemma image_tree : exists dt, Fd.from_usize (byte_at (words ram)) dtb = Val dt /\ Fd.size dt = 40.
Proof. eexists; split; [vm_compute; reflexivity|reflexivity]. Qed.

Lemma image_layout : layout_ok image dtb 40.
Proof. split; unfold LOW, dtb; cbn [image text_pa etext_pa eboottext_pa rodata_pa erodata_pa data_pa edata_pa bss_pa ebss_pa earlyvm_pagetables_pa eearlyvm_pagetables_pa]; split_and?; try lia; try reflexivity; vm_compute; discriminate. Qed.

Lemma init_vm_correct_witness : exists b, init_vm image dtb ram = Ok b /\ hw_walk (words (bmem b)) (ttbr1_el1 (bmem b)) (KZERO + 0x400123) = Some 0x400123.
Proof.
  destruct image_tree as (dt & Hdt & Hsz).
  destruct (init_vm_correct image dtb dt ram Hdt ltac:(rewrite Hsz; exact image_layout)) as (b & E & Hk & _).
  exists b; split; [exact E|]; destruct (km_data _ _ _ _ _ Hk 0x400123) as [_ H]; [cbn; lia|exact H].
Defined.

(** An allocator of 32 pages of which the first sixteen are in use. *)
Definition palloc2 : BitmapPageAlloc :=
  {| bitmaps := [[255; 255]; [0; 0]]; alloc_page_size := 4096; ba_end := 32 * 4096; next_pa_to_scan := 0 |}.

Lemma palloc2_inv : phys_inv 2 2 palloc2.
Proof.
  split_and!; [|done|unfold npages; lia]; split; unfold npages; simpl.
  - split; [done|]; repeat constructor; unfold is_u, W8; simpl; lia.
  - unfold geometry, npages; simpl; rewrite W64_val; split_and!; try lia; exists 12; lia.
  - lia.
  - intros; lia.
  - split; [apply Z.divide_0_r|lia].
Qed.

Lemma pool_in_use b : init_vm image dtb ram = Ok b -> forall x, allocated (pages (bmem b)) x -> in_use palloc2 x.
Proof.
  intros E x (k & Hk & ->).
  assert (Hp : (fun b => pages (bmem b)) <$> init_vm image dtb ram = Ok {| pages_pa := 0x1000; num_pages := 8; next_page_idx := 6 |}) by (vm_compute; reflexivity).
  rewrite E in Hp; injection Hp as Hp; rewrite Hp in *; unfold pool_page; cbn [pages_pa next_page_idx] in *.
  assert (Hc : k = 0 \/ k = 1 \/ k = 2 \/ k = 3 \/ k = 4 \/ k = 5) by lia.
  destruct Hc as [->|[->|[->|[->|[->| ->]]]]]; (split_and!; [done|done|done|vm_compute; reflexivity]).
Qed.

(** The functions of [vm.rs] refuse the recursive slot in the root only, but the
    tables of early boot have self-pointers on all levels: mapping the page at
    [KZERO] + 511 GiB follows the pointer of the level-1 table back into that
    table, and the entry of the page ends up in the level-2 table, in place of
    the block of the kernel's text: an address of the text no longer translates
    to itself. *)
Example self_slot_reached : match init_vm image dtb ram with
  | Ok b =>
      let T := ttbr1_el1 (bmem b) in
      let m := {| words := words (bmem b); ttbr0_el1 := ttbr0_el1 (bmem b); ttbr1_el1 := T; pages := palloc2 |} in
      hw_walk (words m) T (KZERO + 0x81000) = Some 0x81000 /\
      match Pt.map_to m (T + KZERO) (with_phys_addr rw_kernel_data 0x700000) (KZERO + 511 * 2 ^ 30) Page4K Kernel with
      | Ok (Val _, m') => hw_walk (words m') T (KZERO + 0x81000) <> Some 0x81000
      | _ => False
      end
  | _ => False
  end.
Proof. vm_compute; split; [reflexivity|discriminate]. Qed.
End ViDemo.

End Vi.
