(* ===== verification/Gic.v ===== *)
(** * The interrupt controller ([aarch64/src/gic.rs], [aarch64/src/io.rs])

    Finding and mapping the GICv2, programming its distributor and the CPU
    interface of a core, and the operations of the interrupt path.  The
    controller itself is a parameter: what its registers do is stated as laws
    over the state that software can observe. *)

From S2P Require Import Prelude Addr Fdt BitmapAlloc Boot Vm Aspace Device Irq.

Module Gc.
Import Fd.

(** ** Registers *)

Definition GICC_CTLR : Z := 0x0000.
Definition GICC_PMR : Z := 0x0004.
Definition GICC_IAR : Z := 0x000c.
Definition GICC_EOIR : Z := 0x0010.
Definition GICC_IIDR : Z := 0x00fc.
Definition GICD_CTLR : Z := 0x0000.
Definition GICD_TYPER : Z := 0x0004.
Definition GICD_IPRIORITYR : Z := 0x0400.
Definition GICD_ISENABLER : Z := 0x0100.
Definition GICD_ICENABLER : Z := 0x0180.
Definition GICD_ICPENDR : Z := 0x0280.
Definition GICD_ICACTIVER : Z := 0x0380.
Definition GICD_BANKED_INTIDS : Z := 32.
Definition DEFAULT_PRIORITY : Z := 0xa0.
Definition DEFAULT_PRIORITY_WORD : Z := DEFAULT_PRIORITY * 0x01010101.
Definition GICC_CTLR_BYPASS_MASK : Z := 0x1e0.
Definition INTID_SPECIAL_START : Z := 1020.

(** Bit fields [lo..hi]. *)
Definition field (v lo hi : Z) : Z := Z.land (Z.shiftr v lo) (Z.ones (hi - lo)).
Definition arch_version (iidr : Z) : Z := field iidr 16 20.
Definition it_lines_number (typer : Z) : Z := field typer 0 5.
Definition int_id (iar : Z) : Z := field iar 0 10.

(** [!0]. *)
Definition ALL_ONES : Z := 0xffffffff.

(** Access to a 32-bit register by a core. *)
Class Mmio (HW : Type) := {
  mmio_write : Z -> Z -> Z -> HW -> HW;
  mmio_read : Z -> Z -> HW -> Z * HW;
}.

Record Gic := { gicc_virtrange : VirtRange; gicd_virtrange : VirtRange; intid_blocks : Z }.

Section driver.
Context {HW : Type} `{!Mmio HW}.
(** The core that runs the code. *)
Context (core : Z).
Implicit Types hw : HW.

(** *** [io.rs] *)

Definition write_reg (range : VirtRange) (offset val : Z) hw : res HW :=
  o ← Virt.offset_addr range offset; dst ← unwrap o; Ok (mmio_write core dst val hw).
Definition read_reg (range : VirtRange) (offset : Z) hw : res (Z * HW) :=
  o ← Virt.offset_addr range offset; src ← unwrap o; Ok (mmio_read core src hw).
Definition write_or_reg (range : VirtRange) (offset val : Z) hw : res HW :=
  o ← Virt.offset_addr range offset; dst ← unwrap o;
  let '(old, hw1) := mmio_read core dst hw in Ok (mmio_write core dst (Z.lor val old) hw1).

(** *** Bring-up *)

(** [for i in i..i + n { write_reg(range, base + 4 * i, val) }]. *)
Fixpoint sweep (range : VirtRange) (base val i : Z) (n : nat) hw : res HW :=
  match n with
  | O => Ok hw
  | S n' => hw1 ← write_reg range (base + 4 * i) val hw; sweep range base val (i + 1) n' hw1
  end.

Definition init_distributor (g : Gic) hw : res HW :=
  hw1 ← sweep (gicd_virtrange g) GICD_ICENABLER ALL_ONES 0 (Z.to_nat (intid_blocks g)) hw;
  hw2 ← sweep (gicd_virtrange g) GICD_ICPENDR ALL_ONES 0 (Z.to_nat (intid_blocks g)) hw1;
  hw3 ← sweep (gicd_virtrange g) GICD_IPRIORITYR DEFAULT_PRIORITY_WORD 0 (Z.to_nat (intid_blocks g * 8)) hw2;
  write_reg (gicd_virtrange g) GICD_CTLR 1 hw3.

(** The first loop of [init_cpu]. *)
Fixpoint clear_banked (range : VirtRange) (i : Z) (n : nat) hw : res HW :=
  match n with
  | O => Ok hw
  | S n' =>
      hw1 ← write_reg range (GICD_ICACTIVER + 4 * i) ALL_ONES hw;
      hw2 ← write_reg range (GICD_ICENABLER + 4 * i) ALL_ONES hw1;
      clear_banked range (i + 1) n' hw2
  end.

Definition init_cpu (g : Gic) hw : res HW :=
  hw1 ← clear_banked (gicd_virtrange g) 0 (Z.to_nat (GICD_BANKED_INTIDS / 8)) hw;
  hw2 ← sweep (gicd_virtrange g) GICD_IPRIORITYR DEFAULT_PRIORITY_WORD 0 (Z.to_nat (GICD_BANKED_INTIDS / 4)) hw1;
  hw3 ← write_reg (gicc_virtrange g) GICC_PMR 0xff hw2;
  '(v, hw4) ← read_reg (gicc_virtrange g) GICC_CTLR hw3;
  let bypass := Z.land v GICC_CTLR_BYPASS_MASK in
  write_reg (gicc_virtrange g) GICC_CTLR (Z.lor bypass 1) hw4.

(** *** The interrupt path *)

Definition try_ack_interrupt (g : Gic) hw : res (option Z * HW) :=
  '(iar, hw1) ← read_reg (gicc_virtrange g) GICC_IAR hw;
  Ok (if INTID_SPECIAL_START <=? int_id iar then None else Some iar, hw1).
Definition end_interrupt (g : Gic) (iar : Z) hw : res HW := write_reg (gicc_virtrange g) GICC_EOIR iar hw.
Definition enable_interrupt (g : Gic) (intid : Z) hw : res HW :=
  write_reg (gicd_virtrange g) (GICD_ISENABLER + 4 * (intid / 32)) (Z.shiftl 1 (intid mod 32)) hw.
Definition disable_interrupt (g : Gic) (intid : Z) hw : res HW :=
  write_reg (gicd_virtrange g) (GICD_ICENABLER + 4 * (intid / 32)) (Z.shiftl 1 (intid mod 32)) hw.

(** *** Discovery *)

Inductive GicError := NoGicc | NoGicd | NoNode | V1Unsupported | MapFailed.

(** The devices of the machine as the driver sees them. *)
Record Machine (P : Type) := { km : Dv.Kmem P; hw : HW; irq : Irq.World Irq.Core; GIC : option Gic }.
Arguments km {P} _.
Arguments hw {P} _.
Arguments irq {P} _.
Arguments GIC {P} _.

Context {P : Type} `{!Pt.PageAllocator P} (fuel : nat) (s names : list Z).

(** [Iterator::nth]: the elements before are dropped. *)
Fixpoint nth_next {St A} (next : St -> res (option A * St)) (n : nat) (st : St) : res (option A) :=
  '(o, st') ← next st;
  match o, n with None, _ => Ok None | Some a, O => Ok (Some a) | Some _, S n' => nth_next next n' st' end.

(** The [n]-th block of [reg], mapped; [missing] when there is none or it has no length. *)
Definition map_nth (n : nat) (missing : GicError) (node : Node) (k : Dv.Kmem P) : res (result VirtRange GicError * Dv.Kmem P) :=
  '(next, i) ← reg_iter fuel s names node;
  st ← next i;
  t ← nth_next (translated_next fuel s names next node) n st;
  match t ≫= Bt.regblock with
  | None => Ok (Err missing, k)
  | Some r =>
      pr ← Range.from_regblock r;
      match pr with
      | None => Ok (Err missing, k)
      | Some physrange =>
          '(r, k1) ← Dv.map_device_register k physrange Pt.Page4K;
          Ok (match r with Val v => Val v | Err _ => Err MapFailed end, k1)
      end
  end.

Definition find_gicc_gicd_virtranges (id : list Z) (k : Dv.Kmem P) : res (result (VirtRange * VirtRange) GicError * Dv.Kmem P) :=
  n ← find_first fuel s names (str "compatible") id;
  match n with
  | None => Ok (Err NoNode, k)
  | Some gic_node =>
      '(gicc, k1) ← map_nth 1 NoGicc gic_node k;
      match gicc with
      | Err e => Ok (Err e, k1)
      | Val gicc =>
          '(gicd, k2) ← map_nth 0 NoGicd gic_node k1;
          Ok (match gicd with Err e => Err e | Val gicd => Val (gicc, gicd) end, k2)
      end
  end.

Definition new (m : Machine P) : res (result Gic GicError * Machine P) :=
  '(r, k1) ← find_gicc_gicd_virtranges (str "arm,gic-400") (km m);
  '(r2, k2) ← match r with Val x => Ok (Val x, k1) | Err _ => find_gicc_gicd_virtranges (str "arm,cortex-a15-gic") k1 end;
  let m1 := {| km := k2; hw := hw m; irq := irq m; GIC := GIC m |} in
  match r2 with
  | Err e => Ok (Err e, m1)
  | Val (gicc, gicd) =>
      '(iidr, hw1) ← read_reg gicc GICC_IIDR (hw m1);
      if arch_version iidr =? 1 then Ok (Err V1Unsupported, {| km := k2; hw := hw1; irq := irq m; GIC := GIC m |}) else
      '(typer, hw2) ← read_reg gicd GICD_TYPER hw1;
      Ok (Val {| gicc_virtrange := gicc; gicd_virtrange := gicd; intid_blocks := it_lines_number typer + 1 |},
          {| km := k2; hw := hw2; irq := irq m; GIC := GIC m |})
  end.

(** [init]: panics without a controller and when called twice; the guard keeps
    interrupts masked until the end. *)
Definition init (m : Machine P) : res (Machine P) :=
  '(r, m1) ← new m;
  match r with
  | Err _ => Panic
  | Val g =>
      let '(guard, i1) := Irq.new (irq m1) in
      match GIC m1 with
      | Some _ => Panic
      | None =>
          hw2 ← init_distributor g (hw m1);
          hw3 ← init_cpu g hw2;
          Ok {| km := km m1; hw := hw3; irq := Irq.drop guard i1; GIC := Some g |}
      end
  end.

(** The operations of the module go through the published driver and do nothing before it is there. *)
Definition with_gic {A} (dflt : A) (f : Gic -> HW -> res (A * HW)) (m : Machine P) : res (A * Machine P) :=
  match GIC m with
  | None => Ok (dflt, m)
  | Some g => '(a, h) ← f g (hw m); Ok (a, {| km := km m; hw := h; irq := irq m; GIC := GIC m |})
  end.
Definition gic_try_ack_interrupt (m : Machine P) : res (option Z * Machine P) := with_gic None try_ack_interrupt m.
Definition gic_end_interrupt (iar : Z) (m : Machine P) : res (unit * Machine P) := with_gic tt (fun g h => h' ← end_interrupt g iar h; Ok (tt, h')) m.
Definition gic_enable_interrupt (intid : Z) (m : Machine P) : res (unit * Machine P) := with_gic tt (fun g h => h' ← enable_interrupt g intid h; Ok (tt, h')) m.
Definition gic_disable_interrupt (intid : Z) (m : Machine P) : res (unit * Machine P) := with_gic tt (fun g h => h' ← disable_interrupt g intid h; Ok (tt, h')) m.
End driver.

(** ** What the controller does

    [dbase] and [cbase] are the addresses of the distributor and of the CPU
    interface, [lines] the number of interrupt numbers that are implemented.
    Numbers below 32 are private to a core: the same address reaches the bank of
    the core that accesses it.  The laws are those of the GICv2 architecture
    for the registers that the driver writes, on a controller without Security
    Extensions.  Of a priority, in the priority registers and in PMR, the bits of
    [prio_mask] are implemented, at least the upper four, and the others read as zero
    and ignore writes; of GICC_CTLR, bit 0 and the bits that read as one can be
    written with one.  Software-generated interrupts (below 16), whose enable bits an
    implementation may hard-wire and whose pending bits are elsewhere, are left out. *)
Definition visible (core core' i : Z) : bool := (32 <=? i) || (core' =? core).

(** The write of [v] at [off] sets bit [i] of the bitmap register at [base]. *)
Definition hits (base off v core core' i : Z) : bool := (off =? base + 4 * (i / 32)) && Z.testbit v (i mod 32) && visible core core' i.

(** The offsets that the driver writes in the distributor. *)
Definition driver_offset (off : Z) : Prop :=
  off = GICD_CTLR \/ GICD_ISENABLER <= off < 0x200 \/ GICD_ICPENDR <= off < 0x300 \/ GICD_ICACTIVER <= off < 0x800.

Class Gicv2 (HW : Type) `{!Mmio HW} (dbase cbase lines : Z) := {
  enabled : HW -> Z -> Z -> bool;
  latched : HW -> Z -> Z -> bool;
  active : HW -> Z -> Z -> bool;
  priority : HW -> Z -> Z -> Z;
  forwarding : HW -> bool;
  pmr : HW -> Z -> Z;
  ctlr : HW -> Z -> Z;
  prio_mask : Z;
  prio_mask_bits : 0 <= prio_mask < 256 /\ Z.land prio_mask 0xf0 = 0xf0;
  enabled_write c off v h c' i : driver_offset off -> 16 <= i < lines ->
    enabled (mmio_write c (dbase + off) v h) c' i =
      if hits GICD_ISENABLER off v c c' i then true else if hits GICD_ICENABLER off v c c' i then false else enabled h c' i;
  latched_write c off v h c' i : driver_offset off -> 16 <= i < lines ->
    latched (mmio_write c (dbase + off) v h) c' i = if hits GICD_ICPENDR off v c c' i then false else latched h c' i;
  active_write c off v h c' i : driver_offset off -> 16 <= i < lines ->
    active (mmio_write c (dbase + off) v h) c' i = if hits GICD_ICACTIVER off v c c' i then false else active h c' i;
  priority_write c off v h c' i : driver_offset off -> 16 <= i < lines ->
    priority (mmio_write c (dbase + off) v h) c' i =
      if (off =? GICD_IPRIORITYR + 4 * (i / 4)) && visible c c' i then Z.land (field v (8 * (i mod 4)) (8 * (i mod 4) + 8)) prio_mask else priority h c' i;
  forwarding_write c off v h : driver_offset off ->
    forwarding (mmio_write c (dbase + off) v h) = if off =? GICD_CTLR then Z.testbit v 0 else forwarding h;
  interface_write c off v h c' : driver_offset off ->
    pmr (mmio_write c (dbase + off) v h) c' = pmr h c' /\ ctlr (mmio_write c (dbase + off) v h) c' = ctlr h c';
  pmr_write c v h c' : pmr (mmio_write c (cbase + GICC_PMR) v h) c' = if c' =? c then Z.land v prio_mask else pmr h c';
  ctlr_keeps_pmr c v h c' : pmr (mmio_write c (cbase + GICC_CTLR) v h) c' = pmr h c';
  ctlr_write c v h c' : Z.land v (Z.lor (ctlr h c) 1) = v -> ctlr (mmio_write c (cbase + GICC_CTLR) v h) c' = if c' =? c then v else ctlr h c';
  pmr_keeps_ctlr c v h c' : ctlr (mmio_write c (cbase + GICC_PMR) v h) c' = ctlr h c';
  ctlr_read c h : mmio_read c (cbase + GICC_CTLR) h = (ctlr h c, h);
  interface_quiet c off v h : off = GICC_PMR \/ off = GICC_CTLR ->
    forwarding (mmio_write c (cbase + off) v h) = forwarding h /\
    forall c' i, enabled (mmio_write c (cbase + off) v h) c' i = enabled h c' i /\ latched (mmio_write c (cbase + off) v h) c' i = latched h c' i /\
      active (mmio_write c (cbase + off) v h) c' i = active h c' i /\ priority (mmio_write c (cbase + off) v h) c' i = priority h c' i;
}.

Section bringup.
Context {HW : Type} `{!Mmio HW} (dbase cbase lines : Z) `{!Gicv2 HW dbase cbase lines}.
Context (c : Z) (g : Gic).

(** The ranges of the driver are the register blocks of the controller, 4 KiB each at least. *)
Record driver_ok : Prop := {
  ok_d : vstart (gicd_virtrange g) = dbase /\ dbase + 0x1000 <= vend (gicd_virtrange g) /\ 0 <= dbase /\ dbase + 0x1000 < W64;
  ok_c : vstart (gicc_virtrange g) = cbase /\ cbase + 0x1000 <= vend (gicc_virtrange g) /\ 0 <= cbase /\ cbase + 0x1000 < W64;
  ok_lines : lines = 32 * intid_blocks g /\ 1 <= intid_blocks g <= 32;
}.
Context (Hok : driver_ok).

Lemma write_gicd off v h : 0 <= off < 0x1000 -> write_reg c (gicd_virtrange g) off v h = Ok (mmio_write c (dbase + off) v h).
Proof.
  intros Ho; destruct Hok as [(Hd & He & H0 & Hw) _ _]; unfold write_reg, Virt.offset_addr; rewrite Hd, uadd_ok by lia; cbn [mbind res_bind].
  unfold Virt.contains; rewrite Hd, (proj2 (Z.leb_le dbase _)), (proj2 (Z.ltb_lt _ (vend _))) by lia; done.
Qed.

Lemma gicc_addr off : 0 <= off < 0x1000 -> Virt.offset_addr (gicc_virtrange g) off = Ok (Some (cbase + off)).
Proof.
  intros Ho; destruct Hok as [_ (Hd & He & H0 & Hw) _]; unfold Virt.offset_addr; rewrite Hd, uadd_ok by lia; cbn [mbind res_bind].
  unfold Virt.contains; rewrite Hd, (proj2 (Z.leb_le cbase _)), (proj2 (Z.ltb_lt _ (vend _))) by lia; done.
Qed.

(** The state after a run of writes to the distributor, as a fold. *)
Fixpoint after (ws : list (Z * Z)) (h : HW) : HW := match ws with [] => h | (off, v) :: ws' => after ws' (mmio_write c (dbase + off) v h) end.
Definition words_of (base v i : Z) (n : nat) : list (Z * Z) := (fun k => (base + 4 * (i + Z.of_nat k), v)) <$> seq 0 n.

Lemma words_of_S base v i n : words_of base v i (S n) = (base + 4 * i, v) :: words_of base v (i + 1) n.
Proof.
  unfold words_of; cbn [seq fmap list_fmap]; f_equal; [f_equal; lia|]; rewrite <- seq_shift, <- list_fmap_compose.
  apply list_fmap_ext; intros; cbn [compose]; f_equal; lia.
Qed.

Lemma after_app l1 l2 h : after (l1 ++ l2) h = after l2 (after l1 h).
Proof. revert h; induction l1 as [|[o v] l1 IH]; intros h; cbn [app after]; auto. Qed.

Lemma sweep_after base v n : forall i h, 0 <= base + 4 * i -> base + 4 * (i + Z.of_nat n) <= 0x1000 ->
  sweep c (gicd_virtrange g) base v i n h = Ok (after (words_of base v i n) h).
Proof.
  induction n as [|n IH]; intros i h H0 H1; [done|]; rewrite words_of_S; cbn [sweep after].
  rewrite write_gicd by lia; cbn [mbind res_bind]; apply IH; lia.
Qed.

Fixpoint banked_words (i : Z) (n : nat) : list (Z * Z) :=
  match n with O => [] | S n' => (GICD_ICACTIVER + 4 * i, ALL_ONES) :: (GICD_ICENABLER + 4 * i, ALL_ONES) :: banked_words (i + 1) n' end.

Lemma clear_banked_after n : forall i h, 0 <= i -> i + Z.of_nat n <= 32 ->
  clear_banked c (gicd_virtrange g) i n h = Ok (after (banked_words i n) h).
Proof.
  induction n as [|n IH]; intros i h H0 H1; [done|]; cbn [clear_banked banked_words after]; unfold GICD_ICACTIVER, GICD_ICENABLER.
  rewrite write_gicd by lia; cbn [mbind res_bind]; rewrite write_gicd by lia; cbn [mbind res_bind]; apply IH; lia.
Qed.

(** *** What a run of writes does to one interrupt *)

Definition offsets_ok (ws : list (Z * Z)) : Prop := Forall (fun w => driver_offset w.1) ws.

(** The runs that never set an enable bit. *)
Lemma after_enabled ws h c' i : offsets_ok ws -> 16 <= i < lines -> Forall (fun w => hits GICD_ISENABLER w.1 w.2 c c' i = false) ws ->
  enabled (after ws h) c' i = if existsb (fun w => hits GICD_ICENABLER w.1 w.2 c c' i) ws then false else enabled h c' i.
Proof.
  intros Ho Hi; revert h; induction ws as [|[o v] ws IH]; intros h; [done|]; intros [Hs Hss]%Forall_cons; cbn [after existsb].
  apply Forall_cons in Ho as [Ho1 Ho]; rewrite IH, enabled_write by done; cbn [fst snd] in *; rewrite Hs.
  destruct (hits GICD_ICENABLER o v c c' i); cbn [orb]; [|done]; by destruct (existsb _ ws).
Qed.

Lemma after_latched ws h c' i : offsets_ok ws -> 16 <= i < lines ->
  latched (after ws h) c' i = if existsb (fun w => hits GICD_ICPENDR w.1 w.2 c c' i) ws then false else latched h c' i.
Proof.
  intros Ho Hi; revert h; induction ws as [|[o v] ws IH]; intros h; [done|]; cbn [after existsb].
  apply Forall_cons in Ho as [Ho1 Ho]; rewrite IH, latched_write by done; cbn [fst snd] in *.
  destruct (hits GICD_ICPENDR o v c c' i); cbn [orb]; [|done]; by destruct (existsb _ ws).
Qed.

Lemma after_active ws h c' i : offsets_ok ws -> 16 <= i < lines ->
  active (after ws h) c' i = if existsb (fun w => hits GICD_ICACTIVER w.1 w.2 c c' i) ws then false else active h c' i.
Proof.
  intros Ho Hi; revert h; induction ws as [|[o v] ws IH]; intros h; [done|]; cbn [after existsb].
  apply Forall_cons in Ho as [Ho1 Ho]; rewrite IH, active_write by done; cbn [fst snd] in *.
  destruct (hits GICD_ICACTIVER o v c c' i); cbn [orb]; [|done]; by destruct (existsb _ ws).
Qed.

(** The default priority is representable, and below the mask. *)
Lemma default_kept : Z.land DEFAULT_PRIORITY prio_mask = DEFAULT_PRIORITY.
Proof. change DEFAULT_PRIORITY with (Z.land 0xa0 0xf0); rewrite <- Z.land_assoc, (Z.land_comm 0xf0); by rewrite (proj2 prio_mask_bits). Qed.

Lemma mask_top : 0xf0 <= prio_mask /\ Z.land 0xff prio_mask = prio_mask.
Proof.
  destruct prio_mask_bits as [Hb Hm]; split.
  - apply (f_equal (fun z => Z.shiftr z 4)) in Hm; rewrite Z.shiftr_land in Hm; change (Z.shiftr 0xf0 4) with (Z.ones 4) in Hm.
    rewrite Z.land_ones, Z.shiftr_div_pow2 in Hm by lia; change (Z.ones 4) with 15 in Hm; Z.to_euclidean_division_equations; lia.
  - rewrite Z.land_comm; change 0xff with (Z.ones 8); rewrite Z.land_ones by lia; by apply Z.mod_small.
Qed.

(** Every priority word that the driver writes is the default in each byte. *)
Definition prio_hit (w : Z * Z) (c' i : Z) : bool := (w.1 =? GICD_IPRIORITYR + 4 * (i / 4)) && visible c c' i.

Lemma after_priority ws h c' i : offsets_ok ws -> 16 <= i < lines -> Forall (fun w => GICD_IPRIORITYR <= w.1 -> w.2 = DEFAULT_PRIORITY_WORD) ws ->
  priority (after ws h) c' i = if existsb (fun w => prio_hit w c' i) ws then DEFAULT_PRIORITY else priority h c' i.
Proof.
  intros Ho Hi; revert h; induction ws as [|[o v] ws IH]; intros h; [done|]; intros [Hv Hvs]%Forall_cons; cbn [after existsb].
  apply Forall_cons in Ho as [Ho1 Ho]; rewrite IH, priority_write by done; change (prio_hit (o, v) c' i) with ((o =? GICD_IPRIORITYR + 4 * (i / 4)) && visible c c' i); cbn [fst snd] in *.
  destruct (Z.eqb_spec o (GICD_IPRIORITYR + 4 * (i / 4))) as [He|]; cbn [andb]; [|done].
  destruct (visible c c' i); cbn [andb orb]; [|done]; destruct (existsb _ ws); [done|].
  rewrite Hv by (rewrite He; pose proof (Z.div_pos i 4); lia).
  assert (Hm : 0 <= i mod 4 < 4) by (apply Z.mod_pos_bound; lia).
  assert (i mod 4 = 0 \/ i mod 4 = 1 \/ i mod 4 = 2 \/ i mod 4 = 3) as [->|[->|[->| ->]]] by lia; exact default_kept.
Qed.

Lemma after_forwarding ws h : offsets_ok ws -> Forall (fun w => w.1 <> GICD_CTLR) ws -> forwarding (after ws h) = forwarding h.
Proof.
  intros Ho; revert h; induction ws as [|[o v] ws IH]; intros h; [done|]; intros [Hv Hvs]%Forall_cons; cbn [after].
  apply Forall_cons in Ho as [Ho1 Ho]; rewrite IH, forwarding_write by done; cbn [fst] in *; by rewrite (proj2 (Z.eqb_neq o _)).
Qed.

Lemma after_interface ws h c' : offsets_ok ws -> pmr (after ws h) c' = pmr h c' /\ ctlr (after ws h) c' = ctlr h c'.
Proof.
  intros Ho; revert h; induction ws as [|[o v] ws IH]; intros h; [done|]; cbn [after]; apply Forall_cons in Ho as [Ho1 Ho].
  destruct (IH Ho (mmio_write c (dbase + o) v h)) as [-> ->]; by apply interface_write.
Qed.

(** *** The runs of the driver *)

Lemma words_of_Forall (Q : Z * Z -> Prop) base v i n : (forall k, 0 <= k < Z.of_nat n -> Q (base + 4 * (i + k), v)) -> Forall Q (words_of base v i n).
Proof. intros H; apply Forall_fmap, Forall_seq; intros k Hk; apply H; lia. Qed.

Lemma words_of_elem base v n k : 0 <= k < Z.of_nat n -> (base + 4 * k, v) ∈ words_of base v 0 n.
Proof. intros Hk; apply list_elem_of_fmap; exists (Z.to_nat k); split; [f_equal; lia|apply elem_of_seq; lia]. Qed.

Lemma ones_bit k : 0 <= k < 32 -> Z.testbit ALL_ONES k = true.
Proof. intros Hk; change ALL_ONES with (Z.ones 32); rewrite Z.ones_spec_low by lia; done. Qed.

Lemma hits_ones base i c' : 0 <= i -> hits base (base + 4 * (i / 32)) ALL_ONES c c' i = visible c c' i.
Proof. intros Hi; unfold hits; rewrite Z.eqb_refl, ones_bit by (apply Z.mod_pos_bound; lia); done. Qed.

Lemma exists_hit (f : Z * Z -> bool) w ws : w ∈ ws -> f w = true -> existsb f ws = true.
Proof. intros Hw Hf; apply existsb_exists; exists w; split; [by apply list_elem_of_In|done]. Qed.

Lemma no_hit (f : Z * Z -> bool) ws : Forall (fun w => f w = false) ws -> existsb f ws = false.
Proof. induction 1 as [|w ws Hw _ IH]; cbn [existsb]; [done|]; by rewrite Hw, IH. Qed.

(** No write of the driver's sweeps is in the set-enable registers. *)
Lemma no_set_enable ws c' i : 0 <= i < 1024 -> Forall (fun w => w.1 = GICD_CTLR \/ GICD_ICENABLER <= w.1) ws ->
  Forall (fun w => hits GICD_ISENABLER w.1 w.2 c c' i = false) ws.
Proof.
  intros Hi HF; eapply Forall_impl; [exact HF|]; intros [o v] Ho; cbn [fst snd] in *; unfold hits, GICD_ISENABLER, GICD_ICENABLER, GICD_CTLR in *.
  rewrite (proj2 (Z.eqb_neq o _)); [done|]; Z.to_euclidean_division_equations; lia.
Qed.

Definition dist_words : list (Z * Z) :=
  words_of GICD_ICENABLER ALL_ONES 0 (Z.to_nat (intid_blocks g)) ++ words_of GICD_ICPENDR ALL_ONES 0 (Z.to_nat (intid_blocks g)) ++
  words_of GICD_IPRIORITYR DEFAULT_PRIORITY_WORD 0 (Z.to_nat (intid_blocks g * 8)) ++ [(GICD_CTLR, 1)].
Definition cpu_words : list (Z * Z) := banked_words 0 4 ++ words_of GICD_IPRIORITYR DEFAULT_PRIORITY_WORD 0 8.

#[local] Ltac offsets := unfold driver_offset, GICD_CTLR, GICD_ICENABLER, GICD_ISENABLER, GICD_ICPENDR, GICD_IPRIORITYR, GICD_ICACTIVER in *; cbn [fst snd]; lia.

Lemma dist_words_Forall (Q : Z * Z -> Prop) :
  (forall k, 0 <= k < 32 -> Q (GICD_ICENABLER + 4 * (0 + k), ALL_ONES) /\ Q (GICD_ICPENDR + 4 * (0 + k), ALL_ONES)) ->
  (forall k, 0 <= k < 256 -> Q (GICD_IPRIORITYR + 4 * (0 + k), DEFAULT_PRIORITY_WORD)) -> Q (GICD_CTLR, 1) -> Forall Q dist_words.
Proof.
  intros H1 H2 H3; destruct Hok as [_ _ [_ Hb]]; unfold dist_words; rewrite !Forall_app; split_and!;
    try (apply words_of_Forall; intros k Hk; (apply H1 || apply H2); lia); by repeat constructor.
Qed.

Lemma cpu_words_Forall (Q : Z * Z -> Prop) :
  (forall k, 0 <= k < 4 -> Q (GICD_ICENABLER + 4 * k, ALL_ONES) /\ Q (GICD_ICACTIVER + 4 * k, ALL_ONES)) ->
  (forall k, 0 <= k < 8 -> Q (GICD_IPRIORITYR + 4 * (0 + k), DEFAULT_PRIORITY_WORD)) -> Forall Q cpu_words.
Proof.
  intros H1 H2; unfold cpu_words; rewrite Forall_app; split; [|apply words_of_Forall; intros k Hk; apply H2; lia].
  cbn [banked_words]; repeat apply Forall_cons_2; [apply H1; lia..|constructor].
Qed.

Lemma dist_offsets : offsets_ok dist_words.
Proof. apply dist_words_Forall; [intros k Hk; split|intros k Hk|]; offsets. Qed.
Lemma cpu_offsets : offsets_ok cpu_words.
Proof. apply cpu_words_Forall; [intros k Hk; split|intros k Hk]; offsets. Qed.

Lemma init_distributor_after h : init_distributor c g h = Ok (after dist_words h).
Proof.
  destruct Hok as [_ _ [_ Hb]]; unfold init_distributor, dist_words; rewrite !sweep_after by offsets; cbn [mbind res_bind].
  rewrite !sweep_after by offsets; cbn [mbind res_bind]; rewrite !sweep_after by offsets; cbn [mbind res_bind].
  by rewrite write_gicd by offsets; rewrite !after_app.
Qed.

Lemma init_cpu_after h : init_cpu c g h =
  Ok (mmio_write c (cbase + GICC_CTLR) (Z.lor (Z.land (ctlr h c) GICC_CTLR_BYPASS_MASK) 1) (mmio_write c (cbase + GICC_PMR) 0xff (after cpu_words h))).
Proof.
  unfold init_cpu, cpu_words; change (Z.to_nat (GICD_BANKED_INTIDS / 8)) with 4%nat; change (Z.to_nat (GICD_BANKED_INTIDS / 4)) with 8%nat.
  rewrite clear_banked_after by lia; cbn [mbind res_bind]; rewrite sweep_after by offsets; cbn [mbind res_bind]; unfold write_reg, read_reg.
  rewrite (gicc_addr GICC_PMR) by done; cbn [mbind res_bind unwrap]; rewrite !(gicc_addr GICC_CTLR) by done; cbn [mbind res_bind unwrap].
  rewrite ctlr_read; cbn [mbind res_bind]; rewrite pmr_keeps_ctlr, <- after_app; fold cpu_words.
  by rewrite (proj2 (after_interface cpu_words h c cpu_offsets)).
Qed.

(** The final writes to the CPU interface touch no interrupt. *)
Lemma interface_last h u v c' i :
  let h' := mmio_write c (cbase + GICC_CTLR) u (mmio_write c (cbase + GICC_PMR) v h) in
  enabled h' c' i = enabled h c' i /\ latched h' c' i = latched h c' i /\ active h' c' i = active h c' i /\ priority h' c' i = priority h c' i /\
  forwarding h' = forwarding h.
Proof.
  cbn zeta; destruct (interface_quiet c GICC_CTLR u (mmio_write c (cbase + GICC_PMR) v h) (or_intror eq_refl)) as [-> H1].
  destruct (interface_quiet c GICC_PMR v h (or_introl eq_refl)) as [-> H2]; destruct (H1 c' i) as (-> & -> & -> & ->); by destruct (H2 c' i) as (-> & -> & -> & ->).
Qed.

(** *** What the sweeps reach *)

Lemma dist_clears c' i : 16 <= i < lines -> visible c c' i = true ->
  existsb (fun w => hits GICD_ICENABLER w.1 w.2 c c' i) dist_words = true /\ existsb (fun w => hits GICD_ICPENDR w.1 w.2 c c' i) dist_words = true /\
  existsb (fun w => prio_hit w c' i) dist_words = true.
Proof.
  intros Hi Hv; destruct Hok as [_ _ [Hl Hb]]; assert (H32 : 0 <= i / 32 < intid_blocks g) by (Z.to_euclidean_division_equations; lia).
  assert (H4 : 0 <= i / 4 < intid_blocks g * 8) by (Z.to_euclidean_division_equations; lia); unfold dist_words; split_and!.
  - apply (exists_hit _ (GICD_ICENABLER + 4 * (i / 32), ALL_ONES)); [apply elem_of_app; left; apply words_of_elem; lia|cbn [fst snd]; by rewrite hits_ones by lia].
  - apply (exists_hit _ (GICD_ICPENDR + 4 * (i / 32), ALL_ONES)); [|cbn [fst snd]; by rewrite hits_ones by lia].
    apply elem_of_app; right; apply elem_of_app; left; apply words_of_elem; lia.
  - apply (exists_hit _ (GICD_IPRIORITYR + 4 * (i / 4), DEFAULT_PRIORITY_WORD)); [|unfold prio_hit; cbn [fst]; by rewrite Z.eqb_refl].
    do 2 (apply elem_of_app; right); apply elem_of_app; left; apply words_of_elem; lia.
Qed.

(** The per-core sweep of a bitmap register covers four words of 32. *)
Lemma cpu_bitmap base c' i : base = GICD_ICENABLER \/ base = GICD_ICACTIVER -> 16 <= i < 1024 ->
  existsb (fun w => hits base w.1 w.2 c c' i) cpu_words = (i <? 128) && visible c c' i.
Proof.
  intros Hb Hi; destruct (Z.ltb_spec i 128) as [Hlt|Hge]; cbn [andb].
  - assert (Hk : 0 <= i / 32 < 4) by (Z.to_euclidean_division_equations; lia).
    destruct (visible c c' i) eqn:Hv.
    + apply (exists_hit _ (base + 4 * (i / 32), ALL_ONES)); [|by cbn [fst snd]; rewrite hits_ones by lia].
      unfold cpu_words; apply elem_of_app; left; cbn [banked_words].
      assert (i / 32 = 0 \/ i / 32 = 1 \/ i / 32 = 2 \/ i / 32 = 3) as [->|[->|[->| ->]]] by lia; destruct Hb as [->| ->]; set_solver.
    + apply no_hit; eapply (Forall_impl (fun _ => True)); [by apply Forall_true|]; intros w _; unfold hits; by rewrite Hv, andb_false_r.
  - apply no_hit, cpu_words_Forall; intros k Hk; [split|]; unfold hits; cbn [fst snd]; rewrite (proj2 (Z.eqb_neq _ _)); try done;
      destruct Hb as [->| ->]; unfold GICD_ICENABLER, GICD_ICACTIVER, GICD_IPRIORITYR; Z.to_euclidean_division_equations; lia.
Qed.

Lemma cpu_priority c' i : 16 <= i < 1024 -> existsb (fun w => prio_hit w c' i) cpu_words = (i <? 32) && visible c c' i.
Proof.
  intros Hi; destruct (Z.ltb_spec i 32) as [Hlt|Hge]; cbn [andb].
  - destruct (visible c c' i) eqn:Hv.
    + apply (exists_hit _ (GICD_IPRIORITYR + 4 * (i / 4), DEFAULT_PRIORITY_WORD)); [|unfold prio_hit; cbn [fst]; by rewrite Z.eqb_refl].
      unfold cpu_words; apply elem_of_app; right; apply words_of_elem; Z.to_euclidean_division_equations; lia.
    + apply no_hit; eapply (Forall_impl (fun _ => True)); [by apply Forall_true|]; intros w _; unfold prio_hit; by rewrite Hv, andb_false_r.
  - apply no_hit, cpu_words_Forall; intros k Hk; [split|]; unfold prio_hit; cbn [fst snd]; rewrite (proj2 (Z.eqb_neq _ _)); try done;
      unfold GICD_ICENABLER, GICD_ICACTIVER, GICD_IPRIORITYR; Z.to_euclidean_division_equations; lia.
Qed.

(** The exact effect of [init_cpu]. *)
Lemma init_cpu_spec h : exists h', init_cpu c g h = Ok h' /\ forwarding h' = forwarding h /\
  (forall c', pmr h' c' = if c' =? c then prio_mask else pmr h c') /\
  (forall c', ctlr h' c' = if c' =? c then Z.lor (Z.land (ctlr h c) GICC_CTLR_BYPASS_MASK) 1 else ctlr h c') /\
  forall c' i, 16 <= i < lines ->
    enabled h' c' i = (if (i <? 128) && visible c c' i then false else enabled h c' i) /\
    active h' c' i = (if (i <? 128) && visible c c' i then false else active h c' i) /\
    latched h' c' i = latched h c' i /\
    priority h' c' i = if (i <? 32) && visible c c' i then DEFAULT_PRIORITY else priority h c' i.
Proof.
  rewrite init_cpu_after; eexists; split; [reflexivity|]; split_and!.
  - destruct (interface_last (after cpu_words h) (Z.lor (Z.land (ctlr h c) GICC_CTLR_BYPASS_MASK) 1) 0xff 0 0) as (_ & _ & _ & _ & ->).
    apply after_forwarding; [apply cpu_offsets|apply cpu_words_Forall; [intros k Hk; split|intros k Hk]; offsets].
  - intros c'; rewrite ctlr_keeps_pmr, pmr_write, (proj2 mask_top); by rewrite (proj1 (after_interface cpu_words h c' cpu_offsets)).
  - intros c'; rewrite ctlr_write, pmr_keeps_ctlr; [by rewrite (proj2 (after_interface cpu_words h c' cpu_offsets))|].
    rewrite pmr_keeps_ctlr, (proj2 (after_interface cpu_words h c cpu_offsets)); apply Z.bits_inj'; intros n Hn; rewrite !Z.land_spec, !Z.lor_spec, !Z.land_spec.
    by destruct (Z.testbit (ctlr h c) n), (Z.testbit GICC_CTLR_BYPASS_MASK n), (Z.testbit 1 n).
  - intros c' i Hi; pose proof (ok_lines Hok) as [Hl Hb].
    destruct (interface_last (after cpu_words h) (Z.lor (Z.land (ctlr h c) GICC_CTLR_BYPASS_MASK) 1) 0xff c' i) as (-> & -> & -> & -> & _).
    rewrite after_enabled, after_active, after_latched, after_priority by
      first [apply cpu_offsets|done|apply no_set_enable; [lia|apply cpu_words_Forall; [intros k Hk; split|intros k Hk]; offsets]
            |apply cpu_words_Forall; [intros k Hk; split|intros k Hk]; cbn [fst snd]; [offsets..|done]].
    rewrite !cpu_bitmap, cpu_priority by first [lia|by left|by right]; split_and!; try done.
    rewrite no_hit; [done|]; apply cpu_words_Forall; intros k Hk; [split|]; unfold hits; cbn [fst snd]; rewrite (proj2 (Z.eqb_neq _ _)); try done;
      unfold GICD_ICENABLER, GICD_ICACTIVER, GICD_IPRIORITYR, GICD_ICPENDR; Z.to_euclidean_division_equations; lia.
Qed.

(** C27: bringing up the controller on the boot core: whatever state the firmware
    left, after [init_distributor] and [init_cpu] no shared interrupt and no private
    peripheral interrupt of this core (numbers 16 and up; the software-generated ones
    are not covered) is enabled or latched as pending, each has the default
    priority, the distributor forwards, the priority mask of this core has all
    implemented bits set, which admits the default priority, its interface is on with
    the bypass bits of the firmware kept, and the interfaces of the other cores are
    as they were. *)
Theorem bring_up_correct (h : HW) : exists h1 h2, init_distributor c g h = Ok h1 /\ init_cpu c g h1 = Ok h2 /\
  forwarding h2 = true /\ (forall c', pmr h2 c' = if c' =? c then prio_mask else pmr h c') /\ DEFAULT_PRIORITY < prio_mask /\
  (forall c', ctlr h2 c' = if c' =? c then Z.lor (Z.land (ctlr h c) GICC_CTLR_BYPASS_MASK) 1 else ctlr h c') /\
  forall c' i, 16 <= i < lines -> 32 <= i \/ c' = c ->
    enabled h2 c' i = false /\ latched h2 c' i = false /\ priority h2 c' i = DEFAULT_PRIORITY.
Proof.
  pose proof (ok_lines Hok) as [Hl Hb]; set (h1 := after dist_words h); destruct (init_cpu_spec h1) as (h2 & H2 & Hf & Hp & Hc & Hi).
  exists h1, h2; split; [apply init_distributor_after|]; split; [done|]; split_and!.
  - rewrite Hf; unfold h1, dist_words; rewrite !after_app; cbn [after]; rewrite forwarding_write by offsets; done.
  - intros c'; rewrite Hp; unfold h1; by rewrite (proj1 (after_interface dist_words h c' dist_offsets)).
  - pose proof (proj1 mask_top); unfold DEFAULT_PRIORITY; lia.
  - intros c'; rewrite Hc; unfold h1; by rewrite !(proj2 (after_interface dist_words h _ dist_offsets)).
  - intros c' i Hl' Hv; destruct (Hi c' i Hl') as (He & _ & Hlt & Hpr).
    assert (Hvis : visible c c' i = true) by (unfold visible; lia); destruct (dist_clears c' i Hl' Hvis) as (D1 & D2 & D3).
    assert (K : enabled h1 c' i = false /\ latched h1 c' i = false /\ priority h1 c' i = DEFAULT_PRIORITY).
    { unfold h1; rewrite after_enabled, after_latched, after_priority, D1, D2, D3; auto using dist_offsets.
      - apply dist_words_Forall; [intros k Hk; split|intros k Hk|]; cbn [fst snd]; [offsets..|done|offsets].
      - apply no_set_enable; [lia|]; apply dist_words_Forall; [intros k Hk; split|intros k Hk|]; offsets. }
    destruct K as (K1 & K2 & K3); rewrite He, Hlt, Hpr, K1, K2, K3; split_and!; [by destruct (i <? 128), (visible c c' i)|done|by destruct (i <? 32), (visible c c' i)].
Qed.

(** What [init_cpu] reaches: on any core it succeeds and clears the enable
    and active bits of every interrupt below 128, not only of the 32 private
    ones: the shared interrupts 32 to 127 are switched off for the whole
    machine.  On the boot core nothing is enabled yet; a core that runs it later
    disables devices that are already in use.  Priorities are written for the
    private interrupts of this core only. *)
Lemma init_cpu_reaches_shared (h : HW) : exists h', init_cpu c g h = Ok h' /\
  (forall c' i, 32 <= i < lines -> enabled h' c' i = (if i <? 128 then false else enabled h c' i) /\
     active h' c' i = (if i <? 128 then false else active h c' i) /\ priority h' c' i = priority h c' i) /\
  (forall i, 16 <= i < 32 -> enabled h' c i = false /\ active h' c i = false /\ priority h' c i = DEFAULT_PRIORITY) /\
  (forall c' i, c' <> c -> 16 <= i < 32 -> enabled h' c' i = enabled h c' i /\ active h' c' i = active h c' i /\ priority h' c' i = priority h c' i).
Proof.
  pose proof (ok_lines Hok) as [Hl Hb]; destruct (init_cpu_spec h) as (h' & H & _ & _ & _ & Hi); exists h'; split; [done|]; split_and!.
  - intros c' i Hr; destruct (Hi c' i ltac:(lia)) as (-> & -> & _ & ->); unfold visible.
    by rewrite (proj2 (Z.leb_le 32 i)), (proj2 (Z.ltb_ge i 32)), andb_true_r by lia.
  - intros i Hr; destruct (Hi c i ltac:(lia)) as (-> & -> & _ & ->); unfold visible.
    by rewrite Z.eqb_refl, orb_true_r, (proj2 (Z.ltb_lt i 128)), (proj2 (Z.ltb_lt i 32)) by lia.
  - intros c' i Hne Hr; destruct (Hi c' i ltac:(lia)) as (-> & -> & _ & ->); unfold visible.
    by rewrite (proj2 (Z.leb_gt 32 i)), (proj2 (Z.eqb_neq c' c)), !andb_false_r by lia.
Qed.

(** One bit of a bitmap register. *)
Lemma hits_one base n i c' : 0 <= n -> 0 <= i -> hits base (base + 4 * (n / 32)) (Z.shiftl 1 (n mod 32)) c c' i = (i =? n) && visible c c' i.
Proof.
  intros Hn Hi; unfold hits; f_equal; rewrite Z.shiftl_1_l, Z.pow2_bits_eqb by (apply Z.mod_pos_bound; lia).
  destruct (Z.eqb_spec i n) as [->|Hne]; [by rewrite !Z.eqb_refl|].
  destruct (Z.eqb_spec (base + 4 * (n / 32)) (base + 4 * (i / 32))), (Z.eqb_spec (n mod 32) (i mod 32)); try done.
  pose proof (Z.div_mod n 32); pose proof (Z.div_mod i 32); lia.
Qed.

Lemma hits_far base base' n i c' v : 0 <= n < 1024 -> 0 <= i < 1024 -> base + 128 <= base' \/ base' + 128 <= base ->
  hits base' (base + 4 * (n / 32)) v c c' i = false.
Proof. intros Hn Hi Hb; unfold hits; rewrite (proj2 (Z.eqb_neq _ _)); [done|]; Z.to_euclidean_division_equations; lia. Qed.

(** Switching one interrupt: [enable_interrupt] and [disable_interrupt]
    change the enable bit of that interrupt and of no other; a private one
    only for the core that asks. *)
Lemma enable_disable_exact (h : HW) (n : Z) (Hn : 16 <= n < lines) :
  exists h1 h2, enable_interrupt c g n h = Ok h1 /\ disable_interrupt c g n h = Ok h2 /\
  forall c' i, 16 <= i < lines ->
    enabled h1 c' i = (if (i =? n) && ((32 <=? i) || (c' =? c)) then true else enabled h c' i) /\
    enabled h2 c' i = (if (i =? n) && ((32 <=? i) || (c' =? c)) then false else enabled h c' i).
Proof.
  pose proof (ok_lines Hok) as [Hl Hb]; assert (Hq : 0 <= n / 32 < 32) by (Z.to_euclidean_division_equations; lia).
  unfold enable_interrupt, disable_interrupt; rewrite !write_gicd by (unfold GICD_ISENABLER, GICD_ICENABLER; lia).
  eexists _, _; split; [reflexivity|]; split; [reflexivity|]; intros c' i Hi.
  rewrite !enabled_write by first [done|unfold driver_offset, GICD_ISENABLER, GICD_ICENABLER; lia].
  rewrite !hits_one, (hits_far GICD_ISENABLER GICD_ICENABLER), (hits_far GICD_ICENABLER GICD_ISENABLER) by (unfold GICD_ISENABLER, GICD_ICENABLER; lia).
  done.
Qed.
End bringup.

(** ** A controller of four cores and 160 interrupts, with five bits of priority *)
Module GcDemo.
Record Hw := { h_en : Z -> Z -> bool; h_pend : Z -> Z -> bool; h_act : Z -> Z -> bool; h_prio : Z -> Z -> Z; h_fwd : bool; h_pmr : Z -> Z; h_ctlr : Z -> Z }.
Definition db : Z := 0x10000.
Definition cb : Z := 0x20000.

Definition dist_write (c off v : Z) (h : Hw) : Hw :=
  {| h_en := fun c' i => if hits GICD_ISENABLER off v c c' i then true else if hits GICD_ICENABLER off v c c' i then false else h_en h c' i;
     h_pend := fun c' i => if hits GICD_ICPENDR off v c c' i then false else h_pend h c' i;
     h_act := fun c' i => if hits GICD_ICACTIVER off v c c' i then false else h_act h c' i;
     h_prio := fun c' i => if (off =? GICD_IPRIORITYR + 4 * (i / 4)) && visible c c' i then Z.land (field v (8 * (i mod 4)) (8 * (i mod 4) + 8)) 0xf8 else h_prio h c' i;
     h_fwd := if off =? GICD_CTLR then Z.testbit v 0 else h_fwd h; h_pmr := h_pmr h; h_ctlr := h_ctlr h |}.
Definition set_pmr (c v : Z) (h : Hw) : Hw :=
  {| h_en := h_en h; h_pend := h_pend h; h_act := h_act h; h_prio := h_prio h; h_fwd := h_fwd h; h_pmr := fun c' => if c' =? c then Z.land v 0xf8 else h_pmr h c'; h_ctlr := h_ctlr h |}.
Definition set_ctlr (c v : Z) (h : Hw) : Hw :=
  {| h_en := h_en h; h_pend := h_pend h; h_act := h_act h; h_prio := h_prio h; h_fwd := h_fwd h; h_pmr := h_pmr h; h_ctlr := fun c' => if c' =? c then v else h_ctlr h c' |}.

#[local] Instance demo_mmio : Mmio Hw := {
  mmio_write c a v h := if (db <=? a) && (a <? db + 0x1000) then dist_write c (a - db) v h
    else if a =? cb + GICC_PMR then set_pmr c v h else if a =? cb + GICC_CTLR then set_ctlr c v h else h;
  mmio_read c a h := (if a =? cb + GICC_CTLR then h_ctlr h c else 1023, h);
}.

Lemma demo_dist c off v h : driver_offset off -> mmio_write c (db + off) v h = dist_write c off v h.
Proof.
  intros Ho; cbn [mmio_write demo_mmio]; unfold driver_offset, GICD_CTLR, GICD_ISENABLER, GICD_ICPENDR, GICD_ICACTIVER in Ho.
  rewrite (proj2 (Z.leb_le db _)), (proj2 (Z.ltb_lt _ (db + 0x1000))) by lia; cbn [andb]; by replace (db + off - db) with off by lia.
Qed.

#[local] Instance demo_gic : Gicv2 Hw db cb 160.
Proof.
  refine (Build_Gicv2 Hw _ db cb 160 h_en h_pend h_act h_prio h_fwd h_pmr h_ctlr 0xf8 _ _ _ _ _ _ _ _ _ _ _ _ _);
    try (intros; rewrite demo_dist by done; done); try done.
  intros c off v h [->| ->]; done.
Defined.

Definition driver : Gic := {| gicc_virtrange := {| vstart := cb; vend := cb + 0x2000 |}; gicd_virtrange := {| vstart := db; vend := db + 0x1000 |}; intid_blocks := 5 |}.
Lemma driver_demo : driver_ok db cb 160 driver.
Proof. split; cbn; rewrite ?W64_val; unfold db, cb; lia. Qed.

(** The firmware left everything enabled, pending and at the lowest priority. *)
Definition left_over : Hw :=
  {| h_en := fun _ _ => true; h_pend := fun _ _ => true; h_act := fun _ _ => true; h_prio := fun _ _ => 0xff; h_fwd := false; h_pmr := fun _ => 0; h_ctlr := fun _ => 0x1e0 |}.

Lemma bring_up_correct_witness : exists h1 h2, init_distributor 0 driver left_over = Ok h1 /\ init_cpu 0 driver h1 = Ok h2 /\
  h_en h2 0 30 = false /\ h_prio h2 3 100 = 0xa0 /\ h_ctlr h2 0 = 0x1e1.
Proof.
  destruct (bring_up_correct db cb 160 0 driver driver_demo left_over) as (h1 & h2 & H1 & H2 & _ & _ & _ & Hc & Hi).
  exists h1, h2; split; [exact H1|]; split; [exact H2|]; split; [|split].
  - exact (proj1 (Hi 0 30 ltac:(lia) (or_intror eq_refl))).
  - exact (proj2 (proj2 (Hi 3 100 ltac:(lia) ltac:(left; lia)))).
  - exact (Hc 0).
Defined.

End GcDemo.
End Gc.
