(* ===== verification/Machine.v ===== *)
(** * The address spaces of the machine

    The page tables of [Vm], the allocator and the operations of [Aspace]
    implement the interface that the heap calls of [Heap] are written against:
    several processes share one memory, each with a tree of tables of its own,
    and giving one of them a page leaves the others alone. *)

From S2P Require Import Prelude Addr BitmapAlloc Sched Heap Vm Aspace Device.
Import Pt.

Module Mc.

#[global] Instance Aspace_eq_dec : EqDecision Aspace.
Proof. solve_decision. Defined.

Section machine.
Context {P : Type} `{!PageAllocator P} (alloc_inv : P -> Prop) `{!AllocLaws P alloc_inv}.
(** The roots of the processes. *)
Context (roots : gset Z).
Implicit Types m : Mem P.

Definition space (T : Z) : Aspace := {| root := T + KZERO; root_pa := T |}.

(** Every root has a well-formed tree, and no table is in two trees. *)
Record mach_ok m : Prop := {
  mo_ready : forall T, T ∈ roots -> ready alloc_inv m User T;
  mo_apart : forall T T' p q t, T ∈ roots -> T' ∈ roots -> T <> T' -> walk (words m) T p = Some t -> walk (words m) T' q <> Some t;
}.

(** The user addresses that the tables can map: below the slot of the recursive
    mapping. *)
Definition USER_TOP : Z := 511 * 2 ^ 39.

(** The interface, implemented: a panic of the mapping is a panic here. *)
#[local] Instance machine_ops : AspaceOps Aspace (Mem P) := {
  Heap.map_user_data_page_pa a va m := Aspace.map_user_data_page_pa a va m;
  backing m a va := phys_addr <$> leaf (words m) (root_pa a) va;
  space_ok m a := mach_ok m /\ exists T, T ∈ roots /\ a = space T;
  usable va := 0 <= va < USER_TOP;
}.

(** *** A write to one tree does not reach another *)

Section other.
Context m m' (T T' : Z) (Hm : mach_ok m) (HT : T ∈ roots) (HT' : T' ∈ roots) (Hne : T <> T') (Hout : outside m m' T).

Lemma other_word q t j : walk (words m) T' q = Some t -> 0 <= j < 512 -> word (words m') (t + 8 * j) = word (words m) (t + 8 * j).
Proof.
  intros Hq Hj; destruct (tr_pages _ _ _ (rd_tree _ _ _ _ (mo_ready m Hm T' HT')) q t Hq) as [Hp Hu].
  apply Hout; [done|done|intros p Hp'; by apply (mo_apart m Hm T T' p q t)|done].
Qed.

Lemma other_walk q : walk (words m') T' q = walk (words m) T' q.
Proof. apply walk_agree_all; intros r t j Hr Hs; apply (other_word r); [done|]; by apply step_ok_range in Hs as [? _]. Qed.

Lemma other_leaf va : mappable va -> leaf (words m') T' va = leaf (words m) T' va.
Proof. intros Hv; apply leaf_agree; [done|]; intros l t Ht; apply (other_word (path va l)); [done|apply va_index_range]. Qed.
End other.

(** The state stays well formed when one tree is extended. *)
Lemma mach_ok_step m m' T : mach_ok m -> T ∈ roots -> ready alloc_inv m' User T -> outside m m' T ->
  (forall x, in_use (pages m) x -> in_use (pages m') x) -> ttbr0_el1 m' = ttbr0_el1 m -> mach_ok m'.
Proof.
  intros Hm HT Hr Hout Huse Ht; split.
  - intros T' HT'; destruct (decide (T = T')) as [<-|Hne]; [done|].
    destruct (mo_ready m Hm T' HT') as [[H1 H2 H3] _ [H4 H5] H6].
    assert (Hl : live_root m' User = live_root m User) by exact Ht.
    split; [split| |rewrite Hl; split; auto|].
    + intros p t; rewrite (other_walk m m' T T') by done; intros Hw; destruct (H1 p t Hw); auto.
    + intros p q t; rewrite !(other_walk m m' T T') by done; apply H2.
    + rewrite (other_word m m' T T' Hm HT HT' Hne Hout [] T') by (done || lia); done.
    + apply Hr.
    + rewrite Hl; destruct H6 as [|H6]; [by left|right]; intros p; rewrite (other_walk m m' T T') by done; apply H6.
  - assert (Hgen : forall T' p q t, T' ∈ roots -> T <> T' -> walk (words m') T p = Some t -> walk (words m') T' q <> Some t).
    { intros T' p q t HT' Hne Hp; rewrite (other_walk m m' T T') by done; intros Hq.
      destruct (tr_pages _ _ _ (rd_tree _ _ _ _ (mo_ready m Hm T' HT')) q t Hq) as [Hpg Hu].
      destruct (Hout t Hu Hpg) as [Hn _]; [intros p' Hp'; by apply (mo_apart m Hm T T' p' q t)|by apply (Hn p)]. }
    intros T1 T2 p q t H1 H2 Hne Hp Hq.
    destruct (decide (T = T1)) as [<-|N1]; [by apply (Hgen T2 p q t)|].
    destruct (decide (T = T2)) as [<-|N2]; [by apply (Hgen T1 q p t)|].
    rewrite (other_walk m m' T T1) in Hp by done; rewrite (other_walk m m' T T2) in Hq by done; by apply (mo_apart m Hm T1 T2 p q t).
Qed.

(** *** Addresses *)

Lemma usable_mappable va : 0 <= va < USER_TOP -> mappable va.
Proof.
  intros Hv; apply mappable_root; unfold RECURSIVE_SLOT, USER_TOP in *; rewrite va_index_div; cbn [level_shift].
  assert (0 <= va / 2 ^ 39 < 511) by (Z.to_euclidean_division_equations; lia); rewrite Z.mod_small by lia; lia.
Qed.

Lemma usable_same va va' : 0 <= va < USER_TOP -> 0 <= va' < USER_TOP -> (PAGE_SIZE_4K | va) -> (PAGE_SIZE_4K | va') -> same_page va va' -> va = va'.
Proof.
  unfold USER_TOP; change PAGE_SIZE_4K with 4096; intros H1 H2 [x ->] [y ->] Hs%Dv.same_page_number.
  rewrite !Z.div_mul in Hs by lia; rewrite !Z.mod_small in Hs by lia; lia.
Qed.

(** What one call does, as the interface sees it. *)
Lemma machine_map m T va : mach_ok m -> T ∈ roots -> 0 <= va < USER_TOP ->
  exists r m', Aspace.map_user_data_page_pa (space T) va m = Ok (r, m') /\ mach_ok m' /\ page_given m m' T va r /\
    forall T' va', T' ∈ roots -> T' <> T -> mappable va' -> leaf (words m') T' va' = leaf (words m) T' va'.
Proof.
  intros Hm HT Hv; destruct (map_user_data_page_spec alloc_inv m T va (mo_ready m Hm T HT)) as (r & m' & H1 & H2 & H3 & H4 & H5 & H6 & _);
    [unfold USER_TOP in Hv; rewrite W64_val; lia|].
  exists r, m'; split_and!; [done|by apply (mach_ok_step m m' T)|done|]; intros T' va' HT' Hne Hm'; by apply (other_leaf m m' T T').
Qed.

#[local] Instance machine_laws : AspaceLaws Aspace (Mem P).
Proof.
  split.
  - intros a va m (Hm & T & HT & ->) [Hu Hd]; cbn [Heap.map_user_data_page_pa machine_ops usable] in *.
    destruct (machine_map m T va Hm HT Hu) as (r & m1 & H1 & _); eauto.
  - intros a va m pa m' (Hm & T & HT & ->) [Hu Hd] Heq; cbn [Heap.map_user_data_page_pa machine_ops usable] in *.
    destruct (machine_map m T va Hm HT Hu) as (r & m1 & H1 & H2 & H3 & H4); rewrite H1 in Heq; injection Heq as -> ->.
    destruct H3 as (_ & _ & _ & H3); split; [intros a' (_ & Ha'); by split|]; cbn [backing machine_ops root_pa space].
    destruct (H3 va (usable_mappable va Hu)) as [Hsame _]; destruct (Hsame (fun l => eq_refl)) as (e & -> & He & _); split; [cbn; by rewrite He|].
    intros a' va' (_ & T' & HT' & ->) [Hu' Hd'] Hne; cbn [backing machine_ops root_pa space]; f_equal; pose proof (usable_mappable va' Hu') as Hmap.
    destruct (decide (T' = T)) as [->|]; [|by apply H4].
    apply H3; [done|]; intros Hsp; apply Hne; f_equal; symmetry; by apply usable_same.
  - intros a va m e m' (Hm & T & HT & ->) [Hu Hd] Heq; cbn [Heap.map_user_data_page_pa machine_ops usable] in *.
    destruct (machine_map m T va Hm HT Hu) as (r & m1 & H1 & H2 & H3 & H4); rewrite H1 in Heq; injection Heq as -> ->.
    split; [intros a' (_ & Ha'); by split|]; intros a' va' (_ & T' & HT' & ->) [Hu' Hd']; cbn [backing machine_ops root_pa space]; f_equal; pose proof (usable_mappable va' Hu') as Hmap.
    destruct (decide (T' = T)) as [->|]; [by apply H3|by apply H4].
Qed.

(** C25: growing the heap of a process on the machine itself, with the page tables
    walked through the recursive mapping and the pages taken from the
    allocator, when the top, the bytes asked for and a page more stay below
    [USER_TOP] (511 * 2^39): [heap_grow] neither panics nor loops; on success the grant is at
    least as large as asked and each of its pages translates, in the tables of
    that process, to a physical page; on failure the top is unchanged.  The
    trees of all processes stay well formed and apart, and every page of every
    other process translates to the page it did before. *)
Theorem heap_grow_on_tables (s : Sched Aspace) (m : Mem P) (T id count : Z) (p : Process Aspace)
    (Hm : mach_ok m) (HT : T ∈ roots) (Hcur : Proc.current_id s = Some id) (Hp : Proc.slot s id = Some p) (Ha : aspace p = space T)
    (Hheap : heap_ok p m) (Hcount : 0 <= count) (Htop : heap_brk p + count + PAGE_SIZE_4K <= USER_TOP) :
  exists r s' m' p', heap_grow s m count = Ok (r, s', m') /\ Proc.slot s' id = Some p' /\ mach_ok m' /\ heap_ok p' m' /\
    (forall T' va, T' ∈ roots -> T' <> T -> 0 <= va < USER_TOP -> (PAGE_SIZE_4K | va) ->
       phys_addr <$> leaf (words m') T' va = phys_addr <$> leaf (words m) T' va) /\
    match r with
    | Some va => va = heap_brk p /\ count <= heap_brk p' - va /\
        forall page, va <= page < heap_brk p' -> (PAGE_SIZE_4K | page) -> exists pa, phys_addr <$> leaf (words m') T page = Some pa
    | None => heap_brk p' = heap_brk p
    end.
Proof.
  pose proof (ho_order _ _ Hheap) as Hord; unfold USER_TOP in Htop; change PAGE_SIZE_4K with 4096 in Htop.
  destruct (heap_grow_correct s m id count p Hcur Hp Hheap) as (r & s' & m' & p' & H1 & H2 & H3 & H4 & H5).
  { unfold is_u; rewrite W64_val; lia. }
  { intros va Hva; cbn [usable machine_ops]; unfold USER_TOP; change PAGE_SIZE_4K with 4096 in Hva; lia. }
  assert (Hm' : mach_ok m') by (apply (ho_space _ _ H3)).
  exists r, s', m', p'; split_and!; [done|done|done|done| |].
  - intros T' va HT' Hne Hv Hd; destruct (H4 (space T') va) as [_ Hb]; [rewrite Ha; unfold space; congruence|by split; [|exists T']|by split|exact Hb].
  - destruct r as [va|]; [|done]; destruct H5 as (-> & _ & H6 & _ & _ & H7); split_and!; [done|done|].
    intros page Hpg Hd; destruct (H7 page Hpg Hd) as [pa Hpa]; rewrite Ha in Hpa; by exists pa.
Qed.
End machine.

(** ** The small machine with one process *)
Module McDemo.
Import AsDemo.
#[local] Existing Instance demo_alloc.
#[local] Existing Instance demo_laws.
#[local] Instance demo_ops : AspaceOps Aspace (Mem BitmapPageAlloc) := machine_ops (phys_inv 2 2) {[ T ]}.

Definition one_process : Sched Aspace :=
  match Proc.try_install 0x1000 boot_sched (space T) Abi.IMAGE_BASE 0x2000f0 0x210000 128 None with
  | Ok (_, s) => match Proc.run_all s with Ok s' => s' | _ => s end
  | _ => boot_sched
  end.

Lemma machine_mach_ok : mach_ok (phys_inv 2 2) {[ T ]} machine.
Proof.
  split; [intros T' ->%elem_of_singleton; exact machine_ready|].
  intros T1 T2 p q t ->%elem_of_singleton ->%elem_of_singleton; done.
Qed.

Lemma one_process_heap : exists p, Proc.current_id one_process = Some 0 /\ Proc.slot one_process 0 = Some p /\ aspace p = space T /\
  heap_brk p = 0x210000 /\ heap_ok p machine.
Proof.
  destruct (Proc.slot one_process 0) as [p|] eqn:E; [|vm_compute in E; discriminate].
  assert (Hb : aspace p = space T /\ heap_base p = 0x210000 /\ heap_brk p = 0x210000 /\ heap_hwm p = 0x210000)
    by (vm_compute in E; injection E as <-; split_and!; reflexivity).
  destruct Hb as (Ha & Hb & Hk & Hh); exists p; split_and!; [vm_compute; reflexivity|done|done|done|].
  split; rewrite ?Ha, ?Hb, ?Hk, ?Hh, ?PAGE_4K.
  - split_and!; by exists 528.
  - unfold KZERO; lia.
  - intros va Hva; lia.
  - split; [exact machine_mach_ok|exists T; split; [by apply elem_of_singleton|done]].
Qed.

Lemma heap_grow_on_tables_witness : exists s' m', heap_grow one_process machine 5000 = Ok (Some 0x210000, s', m') /\ mach_ok (phys_inv 2 2) {[ T ]} m'.
Proof.
  destruct one_process_heap as (p & Hcur & Hp & Ha & Hk & Hok).
  destruct (heap_grow_on_tables (phys_inv 2 2) {[ T ]} one_process machine T 0 5000 p machine_mach_ok) as (r & s' & m' & p' & H & _ & Hm & _);
    [by apply elem_of_singleton|exact Hcur|exact Hp|exact Ha|exact Hok|discriminate|rewrite Hk; vm_compute; discriminate|].
  assert (Hr : (fun x => x.1.1) <$> heap_grow one_process machine 5000 = Ok (Some 0x210000)) by (vm_compute; reflexivity).
  change (heap_grow one_process machine 5000 = Ok (r, s', m')) in H; rewrite H in Hr; injection Hr as ->; exists s', m'; split; [exact H|exact Hm].
Defined.
End McDemo.
End Mc.
