(* ===== verification/Umem.v ===== *)
(** * User memory on the page tables

    The interface that the system calls use for user memory ([UserMem] of
    [KernIpc]), implemented by the page tables of [Vm] and the bytes of physical
    memory: the check of a range is the software walk, a copy goes byte by byte
    through the hardware walk and panics at an address that does not translate. *)

From S2P Require Import Prelude Addr BitmapAlloc Abi Ipc Sched Heap KernIpc Vm Aspace Device Machine.
Import Pt Mc.

Module Um.

(** ** Bytes of physical memory *)

Definition word_of (p : PhysAddr) : PhysAddr := p - p mod 8.

Definition byte_at (w : gmap Z Z) (p : PhysAddr) : Z := (word w (word_of p) / 2 ^ (8 * (p mod 8))) mod 256.

Definition put_byte (w : gmap Z Z) (p : PhysAddr) (b : Z) : gmap Z Z :=
  <[word_of p := word w (word_of p) + (b - byte_at w p) * 2 ^ (8 * (p mod 8))]> w.

(** Replacing one digit in base 256. *)
Lemma digit_same x k b : 0 <= k -> 0 <= b < 256 ->
  ((x + (b - (x / 2 ^ (8 * k)) mod 256) * 2 ^ (8 * k)) / 2 ^ (8 * k)) mod 256 = b.
Proof.
  intros Hk Hb; assert (0 < 2 ^ (8 * k)) by (apply Z.pow_pos_nonneg; lia).
  rewrite Z.div_add by lia; set (y := x / _).
  replace (y + (b - y mod 256)) with (b + (y / 256) * 256) by (pose proof (Z.div_mod y 256); lia).
  rewrite Z.mod_add by lia; by apply Z.mod_small.
Qed.

Lemma digit_below x k j d : 0 <= j < k -> ((x + d * 2 ^ (8 * k)) / 2 ^ (8 * j)) mod 256 = (x / 2 ^ (8 * j)) mod 256.
Proof.
  intros Hj; replace (2 ^ (8 * k)) with (2 ^ (8 * (k - j - 1)) * 256 * 2 ^ (8 * j)).
  2:{ change 256 with (2 ^ 8); rewrite <- !Z.pow_add_r by lia; f_equal; lia. }
  assert (0 < 2 ^ (8 * j)) by (apply Z.pow_pos_nonneg; lia).
  rewrite !Z.mul_assoc, Z.div_add by lia; by rewrite Z.mod_add.
Qed.

Lemma digit_above x k j b : 0 <= k < j -> 0 <= b < 256 ->
  (x + (b - (x / 2 ^ (8 * k)) mod 256) * 2 ^ (8 * k)) / 2 ^ (8 * j) = x / 2 ^ (8 * j).
Proof.
  intros Hj Hb; set (B := 2 ^ (8 * k)); assert (HB : 0 < B) by (apply Z.pow_pos_nonneg; lia).
  replace (2 ^ (8 * j)) with (B * 256 * 2 ^ (8 * (j - k - 1))).
  2:{ unfold B; change 256 with (2 ^ 8); rewrite <- !Z.pow_add_r by lia; f_equal; lia. }
  assert (0 < 2 ^ (8 * (j - k - 1))) by (apply Z.pow_pos_nonneg; lia).
  rewrite <- !Z.div_div by lia; f_equal; set (y := x / B); rewrite Z.div_add by lia; fold y.
  replace (y + (b - y mod 256)) with (b + (y / 256) * 256) by (pose proof (Z.div_mod y 256); lia).
  rewrite Z.div_add by lia; rewrite (Z.div_small b) by lia; lia.
Qed.

Lemma byte_at_range w p : 0 <= byte_at w p < 256.
Proof. apply Z.mod_pos_bound; lia. Qed.

Lemma put_byte_same w p b : 0 <= b < 256 -> byte_at (put_byte w p b) p = b.
Proof.
  intros Hb; unfold byte_at at 1, put_byte; rewrite word_insert, Z.eqb_refl; unfold byte_at.
  apply digit_same; [apply Z.mod_pos_bound; lia|done].
Qed.

Lemma put_byte_other w p q b : 0 <= b < 256 -> p <> q -> byte_at (put_byte w p b) q = byte_at w q.
Proof.
  intros Hb Hne; unfold byte_at at 1, put_byte; rewrite word_insert.
  destruct (Z.eqb_spec (word_of p) (word_of q)) as [E|]; [|done]; unfold byte_at; rewrite <- E.
  unfold word_of in *; pose proof (Z.mod_pos_bound p 8); pose proof (Z.mod_pos_bound q 8).
  destruct (Z.lt_trichotomy (q mod 8) (p mod 8)) as [Hlt|[Heq|Hgt]]; [apply digit_below; lia|lia|].
  f_equal; apply digit_above; lia.
Qed.

Lemma put_byte_word w p b x : word_of p <> x -> word (put_byte w p b) x = word w x.
Proof. intros H; unfold put_byte; rewrite word_insert; by rewrite (proj2 (Z.eqb_neq _ _) H). Qed.

(** ** The hardware walk depends on the slots on its way *)

Lemma hw_walk_agree w w' T va : mappable va ->
  (forall l t, walk w T (path va l) = Some t -> word w' (t + 8 * va_index va l) = word w (t + 8 * va_index va l)) ->
  hw_walk w' T va = hw_walk w T va.
Proof.
  intros Hm Hw; unfold hw_walk.
  assert (Hn : forall l l' t, next l = Some l' -> walk w T (path va l) = Some t ->
    valid (word w (t + 8 * va_index va l)) = true -> page_or_table (word w (t + 8 * va_index va l)) = true ->
    walk w T (path va l') = Some (phys_addr (word w (t + 8 * va_index va l)))).
  { intros l l' t Hl Ht Hv Hp; rewrite (path_next va l l' Hl); cbn [walk]; rewrite Ht, step_ok_path by (done || by destruct l); by rewrite Hv, Hp. }
  rewrite (Hw Level0 T eq_refl); set (e0 := word w (T + _)).
  destruct (valid e0) eqn:Hv0, (page_or_table e0) eqn:Hp0; cbn [andb negb]; try done.
  pose proof (Hn Level0 Level1 T eq_refl eq_refl Hv0 Hp0) as H1; fold e0 in H1.
  rewrite (Hw Level1 _ H1); set (e1 := word w (phys_addr e0 + _)).
  destruct (valid e1) eqn:Hv1; cbn [negb]; [|done]; destruct (page_or_table e1) eqn:Hp1; cbn [negb]; [|done].
  pose proof (Hn Level1 Level2 _ eq_refl H1 Hv1 Hp1) as H2; fold e1 in H2.
  rewrite (Hw Level2 _ H2); set (e2 := word w (phys_addr e1 + _)).
  destruct (valid e2) eqn:Hv2; cbn [negb]; [|done]; destruct (page_or_table e2) eqn:Hp2; cbn [negb]; [|done].
  pose proof (Hn Level2 Level3 _ eq_refl H2 Hv2 Hp2) as H3; fold e2 in H3.
  by rewrite (Hw Level3 _ H3).
Qed.

(** ** The interface, implemented *)

Section umem.
Context {P : Type} `{!PageAllocator P}.
Implicit Types m : Mem P.

(** The machine with the tables of [a] in TTBR0. *)
Definition at_root m (a : Aspace) : Mem P :=
  {| words := words m; ttbr0_el1 := root_pa a; ttbr1_el1 := ttbr1_el1 m; pages := pages m |}.

Definition translate m (a : Aspace) (va : Z) : option PhysAddr := mmu (at_root m a) va.

(** An access to an address that does not translate is a data abort in the kernel. *)
Definition load_byte m (a : Aspace) (va : Z) : res Z :=
  p ← unwrap (translate m a va); Ok (byte_at (words m) p).

Definition store_byte m (a : Aspace) (va b : Z) : res (Mem P) :=
  p ← unwrap (translate m a va); Ok (with_words m (put_byte (words m) p b)).

Fixpoint load_run m (a : Aspace) (va : Z) (n : nat) : res (list Z) :=
  match n with O => Ok [] | S n' => b ← load_byte m a va; bs ← load_run m a (va + 1) n'; Ok (b :: bs) end.

Fixpoint store_bytes m (a : Aspace) (va : Z) (bs : list Z) : res (Mem P) :=
  match bs with [] => Ok m | b :: bs' => m1 ← store_byte m a va b; store_bytes m1 a (va + 1) bs' end.

(** A physical address outside the tables of a root. *)
Definition off_tables (w : gmap Z Z) (T p : Z) : Prop := forall q t, walk w T q = Some t -> p - p mod 4096 <> t.

(** A range whose bytes translate to addresses of their own, outside the tables. *)
Record plain_range m (a : Aspace) (va n : Z) : Prop := {
  pr_low : 0 <= va /\ va + n <= USER_TOP;
  pr_at : forall v, va <= v < va + n -> exists p : Z, translate m a v = Some p /\ off_tables (words m) (root_pa a) p;
  pr_inj : forall v v' (p : Z), va <= v < va + n -> va <= v' < va + n -> translate m a v = Some p -> translate m a v' = Some p -> v = v';
  pr_tree : forall q t, walk (words m) (root_pa a) q = Some t -> page_pa t;
}.

#[local] Instance table_user : UserMem Aspace (Mem P) := {
  KernIpc.user_range_ok m a va n wr := Pt.user_range_ok (at_root m a) va n wr;
  load m a va n := load_run m a va (Z.to_nat n);
  store m a va bs := store_bytes m a va bs;
  KernIpc.map_mmio a r va m := Aspace.map_mmio a r va m;
  plain m a va n := plain_range m a va n;
}.

(** *** A byte outside the tables *)

Section one_byte.
Context m (T p b : Z) (Hpg : forall q t, walk (words m) T q = Some t -> page_pa t) (Hoff : off_tables (words m) T p).

Lemma off_word q t j : walk (words m) T q = Some t -> 0 <= j < 512 -> word (put_byte (words m) p b) (t + 8 * j) = word (words m) (t + 8 * j).
Proof using Hpg Hoff.
  intros Hq Hj; apply put_byte_word; intros E; apply (Hoff q t Hq); destruct (Hpg q t Hq) as [_ Hm].
  unfold word_of in E; Z.to_euclidean_division_equations; lia.
Qed.

Lemma off_walk q : walk (put_byte (words m) p b) T q = walk (words m) T q.
Proof using Hpg Hoff. apply walk_agree_all; intros r t j Hr Hs; apply (off_word r); [done|]; by apply step_ok_range in Hs as [? _]. Qed.

Lemma off_leaf va : mappable va -> leaf (put_byte (words m) p b) T va = leaf (words m) T va.
Proof using Hpg Hoff. intros Hv; apply leaf_agree; [done|]; intros l t Ht; apply (off_word (path va l)); [done|apply va_index_range]. Qed.

Lemma off_hw va : mappable va -> hw_walk (put_byte (words m) p b) T va = hw_walk (words m) T va.
Proof using Hpg Hoff. intros Hv; apply hw_walk_agree; [done|]; intros l t Ht; apply (off_word (path va l)); [done|apply va_index_range]. Qed.
End one_byte.

Lemma translate_low m a v : 0 <= v < USER_TOP -> translate m a v = hw_walk (words m) (root_pa a) v.
Proof.
  intros Hv; unfold translate, mmu; unfold USER_TOP in Hv.
  assert (E : Z.shiftr v 48 = 0) by (rewrite Z.shiftr_div_pow2 by lia; apply Z.div_small; lia); by rewrite E.
Qed.

(** *** Stores *)

(** What the stores of some bytes leave: the addresses [addrs] hold them. *)
Definition stored (w w' : gmap Z Z) (ps bs : list Z) : Prop :=
  (forall (i : nat) (p b : Z), ps !! i = Some p -> bs !! i = Some b -> byte_at w' p = b) /\
  (forall p : Z, p ∉ ps -> byte_at w' p = byte_at w p) /\
  (forall T, (forall q t, walk w T q = Some t -> page_pa t) -> Forall (off_tables w T) ps ->
     (forall q t j, walk w T q = Some t -> 0 <= j < 512 -> word w' (t + 8 * j) = word w (t + 8 * j)) /\
     (forall q, walk w' T q = walk w T q) /\
     (forall va, mappable va -> leaf w' T va = leaf w T va /\ hw_walk w' T va = hw_walk w T va)).

Lemma store_bytes_spec a bs : forall m va, bytes_ok bs -> plain_range m a va (len bs) ->
  exists w' ps, store_bytes m a va bs = Ok (with_words m w') /\ length ps = length bs /\ NoDup ps /\
    (forall (i : nat) (p : Z), ps !! i = Some p -> translate m a (va + Z.of_nat i) = Some p) /\ stored (words m) w' ps bs.
Proof.
  induction bs as [|b bs IH]; intros m va Hb Hp.
  - exists (words m), []; cbn [store_bytes]; split_and!; [by destruct m|done|apply NoDup_nil_2|done|].
    split_and!; [done|done|]; intros; by split_and!.
  - apply Forall_cons in Hb as [Hb0 Hb]; assert (Hlen : len (b :: bs) = 1 + len bs) by (unfold len; cbn [length]; lia).
    pose proof (len_nonneg bs); destruct Hp as [Hlow Hat Hinj Hpg]; rewrite Hlen in *.
    assert (Hup : 0 <= va /\ va + 1 + Z.of_nat (length bs) <= USER_TOP) by (unfold len in Hlow; lia).
    destruct (Hat va ltac:(lia)) as (p & Ht & Hoff); cbn [store_bytes]; unfold store_byte; rewrite Ht; cbn [unwrap mbind res_bind].
    set (m1 := with_words m (put_byte (words m) p b)).
    assert (Hsame : forall v, 0 <= v < USER_TOP -> translate m1 a v = translate m a v).
    { intros v Hv; rewrite !translate_low by done; cbn [words m1 with_words]; apply off_hw; [done|done|by apply usable_mappable]. }
    assert (Hwalk : forall q, walk (words m1) (root_pa a) q = walk (words m) (root_pa a) q) by (intros q; by apply off_walk).
    destruct (IH m1 (va + 1) Hb) as (w' & ps & E & Hl & Hnd & Hps & Hst).
    { split; [lia| | |].
      - intros v Hv; destruct (Hat v ltac:(lia)) as (p' & Hp' & Ho'); exists p'; rewrite Hsame by lia; split; [done|].
        intros q t; rewrite Hwalk; apply Ho'.
      - intros v v' p' Hv Hv'; rewrite !Hsame by lia; apply Hinj; lia.
      - intros q t; rewrite Hwalk; apply Hpg. }
    assert (Hin : forall (i : nat) (p' : Z), ps !! i = Some p' -> translate m a (va + Z.of_nat (S i)) = Some p').
    { intros i p' Hi; pose proof (lookup_lt_Some _ _ _ Hi); rewrite <- Hsame by lia; rewrite <- (Hps i p' Hi); f_equal; lia. }
    assert (Hnew : p ∉ ps).
    { intros (i & Hi)%list_elem_of_lookup; pose proof (lookup_lt_Some _ _ _ Hi); specialize (Hin i p Hi); unfold len in *.
      assert (va = va + Z.of_nat (S i)) by (apply (Hinj va (va + Z.of_nat (S i)) p); (done || lia)); lia. }
    exists w', (p :: ps); split_and!; [by rewrite E|cbn; lia|by apply NoDup_cons| |].
    + intros [|i] p' Hi; [injection Hi as <-; by rewrite Z.add_0_r|by apply Hin].
    + destruct Hst as (S1 & S2 & S3); split_and!.
      * intros [|i] p' b' Hi Hb'; [|by apply (S1 i)]; injection Hi as <-; injection Hb' as <-.
        rewrite S2 by done; by apply put_byte_same.
      * intros q [Hq1 Hq2]%not_elem_of_cons; rewrite S2 by done; by apply put_byte_other.
      * intros T HT [Hoff' Hps']%Forall_cons.
        assert (HwT : forall q, walk (words m1) T q = walk (words m) T q) by (intros q; by apply off_walk).
        destruct (S3 T) as (W1 & W2 & W3).
        { intros q t; rewrite HwT; apply HT. }
        { eapply Forall_impl; [exact Hps'|]; intros p' Ho q t; rewrite HwT; apply Ho. }
        split_and!.
        -- intros q t j Hq Hj; rewrite (W1 q t j) by (by rewrite ?HwT); by apply (off_word m T p b HT Hoff' q).
        -- intros q; by rewrite W2.
        -- intros v Hv; destruct (W3 v Hv) as [-> ->]; split; [by apply off_leaf|by apply off_hw].
Qed.

(** A load that returns has read the byte at each address. *)
Lemma load_run_ok m a n : forall va bs, load_run m a va n = Ok bs ->
  length bs = n /\ bytes_ok bs /\ forall (i : nat) (x : Z), bs !! i = Some x -> load_byte m a (va + Z.of_nat i) = Ok x.
Proof.
  induction n as [|n IH]; intros va bs; cbn [load_run]; [intros [= <-]; split_and!; [done|constructor|done]|].
  intros (x & Hx & H)%bind_Ok; apply bind_Ok in H as (bs' & Hb & [= <-]); destruct (IH _ _ Hb) as (Hl & Hf & Hi); split_and!.
  - cbn; lia.
  - constructor; [|done]; unfold load_byte in Hx; destruct (translate m a va); [|done]; injection Hx as <-; apply byte_at_range.
  - intros [|i] y; [intros [= <-]; by rewrite Z.add_0_r|]; intros Hy; rewrite <- (Hi i y Hy); f_equal; lia.
Qed.

(** A load returns when every address translates. *)
Lemma load_run_returns m a n : forall va, (forall v, va <= v < va + Z.of_nat n -> exists p : Z, translate m a v = Some p) ->
  exists bs, load_run m a va n = Ok bs.
Proof.
  induction n as [|n IH]; intros va Ht; cbn [load_run]; [by eexists|]; destruct (Ht va ltac:(lia)) as [p Hp].
  unfold load_byte; rewrite Hp; cbn [unwrap mbind res_bind]; destruct (IH (va + 1)) as [bs ->]; [intros v Hv; apply Ht; lia|by eexists].
Qed.

(** What is stored is read back. *)
Lemma load_stored m a va bs : bytes_ok bs -> plain_range m a va (len bs) ->
  exists m', store_bytes m a va bs = Ok m' /\ load_run m' a va (length bs) = Ok bs.
Proof.
  intros Hb Hp; destruct (store_bytes_spec a bs m va Hb Hp) as (w' & ps & E & Hl & Hnd & Hps & S1 & _ & S3).
  exists (with_words m w'); split; [done|]; destruct Hp as [Hlow Hat Hinj Hpg].
  assert (Hoff : Forall (off_tables (words m) (root_pa a)) ps).
  { apply Forall_lookup; intros i p Hi; pose proof (lookup_lt_Some _ _ _ Hi); destruct (Hat (va + Z.of_nat i)) as (p' & Hp' & Ho); [unfold len; lia|].
    rewrite (Hps i p Hi) in Hp'; by injection Hp' as <-. }
  destruct (S3 (root_pa a) Hpg Hoff) as (_ & _ & W).
  assert (Hone : forall (i : nat) (b : Z), bs !! i = Some b -> load_byte (with_words m w') a (va + Z.of_nat i) = Ok b).
  { intros i b Hbi; pose proof (lookup_lt_Some _ _ _ Hbi); destruct (lookup_lt_is_Some_2 ps i ltac:(lia)) as [p Hpi].
    assert (Hv : 0 <= va + Z.of_nat i < USER_TOP) by (unfold len in Hlow; lia).
    unfold load_byte; rewrite translate_low by done; cbn [words with_words]; rewrite (proj2 (W _ (usable_mappable _ Hv))).
    rewrite <- (translate_low m a) by done; rewrite (Hps i p Hpi); cbn [unwrap mbind res_bind]; f_equal; by apply (S1 i). }
  clear - Hone; revert va Hone; generalize (with_words m w') as m'; intros m'; induction bs as [|b bs IH]; intros va Hone; [done|].
  cbn [length load_run]; pose proof (Hone 0%nat b eq_refl) as H0; rewrite Z.add_0_r in H0; rewrite H0; cbn [mbind res_bind].
  rewrite IH; [done|]; intros i x Hi; rewrite <- (Hone (S i) x Hi); f_equal; lia.
Qed.

#[local] Instance table_user_laws : UserMemLaws Aspace (Mem P).
Proof.
  split; cbn [load store table_user].
  - intros m a va n bs Hn H; apply load_run_ok in H as [H _]; unfold len; lia.
  - intros m a va n bs H; by apply load_run_ok in H as (_ & H & _).
  - intros m a va bs _ Hp Hb; unfold len; rewrite Nat2Z.id; by apply load_stored.
Qed.
End umem.

(** ** Messages between processes of the machine *)

Section messages.
Context {P : Type} `{!PageAllocator P} (alloc_inv : P -> Prop) `{!AllocLaws P alloc_inv} (roots : gset Z).
Implicit Types m : Mem P.
#[local] Existing Instance table_user.
#[local] Existing Instance table_user_laws.

(** A range that the hardware lets user code of the process with root [T] read
    (or write). *)
Definition allowed m (T va n : Z) (wr : bool) : Prop :=
  0 <= va /\ va + n <= USER_TOP /\ forall v, va <= v < va + n -> el0_access (at_root m (space T)) wr v.

(** A buffer of that process: writable, each byte at a physical address of its
    own, and none of them in a page table of any process. *)
Record buffer m (T va n : Z) : Prop := {
  bf_allowed : allowed m T va n true;
  bf_at : forall v, va <= v < va + n -> exists p : Z, hw_walk (words m) T v = Some p /\ forall T', T' ∈ roots -> off_tables (words m) T' p;
  bf_inj : forall v v' (p : Z), va <= v < va + n -> va <= v' < va + n -> hw_walk (words m) T v = Some p -> hw_walk (words m) T v' = Some p -> v = v';
}.

Lemma allowed_ok m T va n wr : mach_ok alloc_inv roots m -> T ∈ roots -> 0 <= n -> allowed m T va n wr ->
  KernIpc.user_range_ok m (space T) va n wr = Ok true.
Proof.
  intros Hm HT Hn (H0 & Htop & Hacc); cbn [KernIpc.user_range_ok table_user].
  destruct (user_range_ok_spec (at_root m (space T)) va n wr) as (b & -> & Hiff).
  - split; apply (rd_tree _ _ _ _ (mo_ready _ _ _ Hm T HT)).
  - unfold is_u; rewrite W64_val; unfold USER_TOP in Htop; lia.
  - done.
  - intros v Hv; apply usable_mappable; lia.
  - f_equal; apply Hiff; split; [unfold USER_TOP, KZERO in *; lia|]; intros v Hv; apply access_el0; [unfold RECURSIVE_BASE, USER_TOP in *; lia|by apply Hacc].
Qed.

(** The copy from an allowed range does not fault. *)
Lemma allowed_load m T va n wr : allowed m T va n wr -> 0 <= n -> exists bs, load m (space T) va n = Ok bs.
Proof.
  intros (H0 & Htop & Hacc) Hn; cbn [load table_user]; apply load_run_returns; intros v Hv; rewrite translate_low by lia.
  destruct (Hacc v ltac:(lia)) as (_ & e & He & _); destruct (hw_leaf_walk _ _ _ _ He) as [p Hp]; by exists p.
Qed.

Lemma tables_paged m T : mach_ok alloc_inv roots m -> T ∈ roots -> forall q t, walk (words m) T q = Some t -> page_pa t.
Proof. intros Hm HT q t Hq; by destruct (tr_pages _ _ _ (rd_tree _ _ _ _ (mo_ready _ _ _ Hm T HT)) q t Hq). Qed.

Lemma buffer_plain m T va n : mach_ok alloc_inv roots m -> T ∈ roots -> buffer m T va n -> plain m (space T) va n.
Proof.
  intros Hm HT [(H0 & Htop & _) Hat Hinj]; split.
  - done.
  - intros v Hv; destruct (Hat v Hv) as (p & Hp & Ho); exists p; rewrite translate_low by lia; split; [done|]; by apply Ho.
  - intros v v' p Hv Hv'; rewrite !translate_low by lia; by apply Hinj.
  - by apply tables_paged.
Qed.

(** Bytes stored outside all tables leave the trees as they are. *)
Lemma stored_mach m w' ps bs : mach_ok alloc_inv roots m -> stored (words m) w' ps bs ->
  (forall T, T ∈ roots -> Forall (off_tables (words m) T) ps) -> mach_ok alloc_inv roots (with_words m w').
Proof.
  intros Hm (_ & _ & S3) Hoff.
  assert (HW : forall T, T ∈ roots -> forall q, walk w' T q = walk (words m) T q).
  { intros T HT; apply (S3 T); [by apply tables_paged|by apply Hoff]. }
  split.
  - intros T HT; destruct (mo_ready _ _ _ Hm T HT) as [[H1 H2 H3] H4 H5 H6]; destruct (S3 T) as (W1 & _ & _); [by apply tables_paged|by apply Hoff|].
    split; [split|done|done|].
    + intros q t; cbn [words with_words]; rewrite HW by done; apply H1.
    + intros q q' t; cbn [words with_words]; rewrite !HW by done; apply H2.
    + cbn [words with_words]; rewrite (W1 [] T 511) by (done || lia); done.
    + destruct H6 as [H6|H6]; [by left|right]; intros q; cbn [words with_words]; rewrite HW by done; apply H6.
  - intros T T' q q' t HT HT' Hne; cbn [words with_words]; rewrite !HW by done; by apply (mo_apart _ _ _ Hm).
Qed.

(** What a store to a buffer does to the machine. *)
Lemma buffer_store m T va bs : mach_ok alloc_inv roots m -> T ∈ roots -> bytes_ok bs -> buffer m T va (len bs) ->
  exists m', store m (space T) va bs = Ok m' /\ mach_ok alloc_inv roots m' /\
  (forall p : Z, (forall v, va <= v < va + len bs -> hw_walk (words m) T v <> Some p) -> byte_at (words m') p = byte_at (words m) p) /\
  (forall T' v, T' ∈ roots -> mappable v -> leaf (words m') T' v = leaf (words m) T' v /\ hw_walk (words m') T' v = hw_walk (words m) T' v).
Proof.
  intros Hm HT Hb Hbuf; cbn [store table_user].
  destruct (store_bytes_spec (space T) bs m va Hb (buffer_plain m T va (len bs) Hm HT Hbuf)) as (w' & ps & -> & Hl & _ & Hps & Hst).
  destruct Hbuf as [(H0 & Htop & _) Hat _].
  assert (Hhw : forall (i : nat) (p : Z), ps !! i = Some p -> va <= va + Z.of_nat i < va + len bs /\ hw_walk (words m) T (va + Z.of_nat i) = Some p).
  { intros i p Hi; pose proof (lookup_lt_Some _ _ _ Hi); specialize (Hps i p Hi); rewrite translate_low in Hps by (unfold len in *; lia).
    split; [unfold len; lia|done]. }
  assert (Hoff : forall T', T' ∈ roots -> Forall (off_tables (words m) T') ps).
  { intros T' HT'; apply Forall_lookup; intros i p Hi; destruct (Hhw i p Hi) as [Hr Hp]; destruct (Hat _ Hr) as (p' & Hp' & Ho).
    rewrite Hp in Hp'; injection Hp' as <-; by apply Ho. }
  eexists; split; [reflexivity|]; split; [by apply (stored_mach m w' ps bs)|]; destruct Hst as (_ & S2 & S3); cbn [words with_words]; split.
  - intros p Hp; apply S2; intros (i & Hi)%list_elem_of_lookup; destruct (Hhw i p Hi) as [Hr Hw]; by apply (Hp _ Hr).
  - intros T' v HT' Hv; destruct (S3 T') as (_ & _ & W); [by apply tables_paged|by apply Hoff|]; by apply W.
Qed.

Context (others : ProcId -> KernIpc.Kernel Aspace (Mem P) -> res (KernIpc.Kernel Aspace (Mem P))).
Context (others_live : forall id k k2, others id k = Ok k2 -> is_Some (Proc.slot (sched k2) id)).

End messages.

(** ** Two processes *)

Module UmDemo.

(** No page is free. *)
#[local] Instance full_alloc : PageAllocator unit := { alloc_physpage p := Ok (Err OutOfSpace, p); in_use _ _ := True }.
#[local] Instance full_laws : AllocLaws unit (fun _ => True).
Proof. split. all: intros. all: try (eexists _, _; split; [reflexivity|]). all: try done. Qed.

(** A process with its root at [T], the tables of [va0] in the next three pages
    and one page of data behind them. *)
Definition va0 : Z := 0x200000.
Definition tree_words (T x : Z) : list (Z * Z) :=
  [(T + 8 * 511, table_entry T); (T, table_entry (T + 0x1000)); (T + 0x1000, table_entry (T + 0x2000));
   (T + 0x2008, table_entry (T + 0x3000)); (T + 0x3000, with_page_or_table (with_phys_addr rw_user_data (T + 0x4000)) true);
   (T + 0x4000, x)].

Definition A : Z := 0x10000.
Definition B : Z := 0x20000.
Definition all_words : list (Z * Z) := tree_words A 0x0504030201 ++ tree_words B 0.
Definition two : Mem unit := {| words := list_to_map all_words; ttbr0_el1 := A; ttbr1_el1 := 0x1000; pages := tt |}.

Lemma two_word x : word (words two) x = 0 \/ (x, word (words two) x) ∈ all_words.
Proof.
  unfold word; destruct (words two !! x) as [v|] eqn:E; [right|by left].
  by apply elem_of_list_to_map_2.
Qed.

Definition table_of (T : Z) (n : nat) : Z := T + 0x1000 * Z.of_nat n.

Lemma two_walk T p t : T = A \/ T = B -> walk (words two) T p = Some t ->
  p = skipn (3 - length p) [1; 0; 0] /\ t = table_of T (length p) /\ (length p <= 3)%nat.
Proof.
  intros HT; revert t; induction p as [|j r IH]; intros t; [intros [= <-]; split_and!; [done|unfold table_of; cbn; lia|cbn; lia]|].
  cbn [walk]; destruct (walk (words two) T r) as [t0|]; [|done]; destruct (IH t0 eq_refl) as (Er & -> & Hl).
  destruct (step_ok r j) eqn:Hs; cbn [andb]; [|done]; pose proof (step_ok_range _ _ Hs) as [Hj Hlr].
  destruct (two_word (table_of T (length r) + 8 * j)) as [E|E]; [by rewrite E|].
  set (e := word (words two) _) in *; clearbody e; intros Hv.
  assert (Hcase : (length r = 0%nat /\ j = 0 \/ length r = 1%nat /\ j = 0 \/ length r = 2%nat /\ j = 1) /\ phys_addr e = table_of T (S (length r))).
  { assert (Hself : length r = 0%nat -> j <> 511) by (intros H0 ->; destruct r; [discriminate Hs|discriminate H0]).
    unfold all_words in E; apply elem_of_app in E; unfold table_of in *.
    destruct HT as [-> | ->], E as [E|E]; unfold tree_words in E;
      repeat (apply elem_of_cons in E as [E|E]; [injection E as Ek ->; unfold A, B in *; try (exfalso; lia); (split; [lia|]); by (first [replace (length r) with 0%nat by lia | replace (length r) with 1%nat by lia | replace (length r) with 2%nat by lia]; vm_compute)|]);
      by apply elem_of_nil in E. }
  destruct Hcase as [Hj' Hpa]; rewrite Hpa in Hv; destruct (valid e && page_or_table e); [|done]; injection Hv as <-; split_and!; [|done|cbn; lia].
  cbn [length]; rewrite Er; destruct Hj' as [[H0 ->]|[[H0 ->]|[H0 ->]]]; rewrite H0; cbn.
  all: rewrite ?H0; cbn; done.
Qed.

Definition both : gset Z := {[ A; B ]}.

Lemma both_cases T : T ∈ both -> T = A \/ T = B.
Proof. unfold both; set_solver. Qed.

Lemma two_mach : mach_ok (fun _ => True) both two.
Proof.
  split.
  - intros T HT%both_cases; split; [split|done|split; [split; [vm_compute; split; congruence|done]|done]|].
    + intros p t (_ & -> & Hl)%two_walk; [|done]; split; [|done]; unfold table_of, A, B in *; split; [lia|].
      destruct HT as [-> | ->]; Z.to_euclidean_division_equations; lia.
    + intros p q t (Ep & Et & Hp)%two_walk (Eq & Et' & Hq)%two_walk; [|done..]; rewrite Ep, Eq; f_equal; unfold table_of in *; lia.
    + destruct HT as [-> | ->]; vm_compute; split_and!; reflexivity.
    + destruct HT as [-> | ->]; [by left|right]; intros p (_ & E & Hl)%two_walk; [|by right]; cbn [live_root ttbr0_el1 two] in E; unfold table_of, A, B in E; lia.
  - intros T T' p q t HT%both_cases HT'%both_cases Hne (_ & -> & Hp)%two_walk (_ & E & Hq)%two_walk; [|done..].
    unfold table_of, A, B in *; lia.
Qed.

Lemma two_off T p : T ∈ both -> (A + 0x4000 <= p < A + 0x5000 \/ B + 0x4000 <= p < B + 0x5000) -> off_tables (words two) T p.
Proof.
  intros HT%both_cases Hp q t (_ & -> & Hl)%two_walk; [|done]; unfold table_of, A, B in *; Z.to_euclidean_division_equations; lia.
Qed.

Lemma two_byte T v : T = A \/ T = B -> va0 <= v < va0 + 5 ->
  hw_walk (words two) T v = Some (T + 0x4000 + (v - va0)) /\ forall wr, el0_access (at_root two (space T)) wr v.
Proof.
  intros HT Hv; assert (v = va0 \/ v = va0 + 1 \/ v = va0 + 2 \/ v = va0 + 3 \/ v = va0 + 4) as Hcase by lia.
  destruct HT as [-> | ->], Hcase as [-> | [-> | [-> | [-> | ->]]]]; (split; [vm_compute; reflexivity|intros []; (split; [vm_compute; reflexivity|eexists; split; vm_compute; reflexivity])]).
Qed.

Lemma two_buffer T : T ∈ both -> buffer both two T va0 5.
Proof.
  intros HT; pose proof (both_cases T HT) as HT'; split.
  - split_and!; [done|vm_compute; congruence|]; intros v Hv; by apply two_byte.
  - intros v Hv; exists (T + 0x4000 + (v - va0)); split; [by apply two_byte|]; intros T' Hr; apply two_off; [done|]; unfold A, B in *; lia.
  - intros v v' p Hv Hv'; rewrite (proj1 (two_byte T v HT' Hv)), (proj1 (two_byte T v' HT' Hv')); intros [= <-] [= E]; lia.
Qed.

(** The process of a root, running. *)
Definition running (T : Z) : Sched Aspace :=
  match Proc.try_install 0x1000 boot_sched (space T) Abi.IMAGE_BASE 0x2000f0 0x210000 128 None with
  | Ok (_, s) => match Proc.run_all s with Ok s' => s' | _ => s end
  | _ => boot_sched
  end.

Definition start : KernIpc.Kernel Aspace (Mem unit) :=
  {| sched := running A; mem := two; channels := ∅; nused := 1; routes := replicate (Z.to_nat NIRQS) None; nirqueued := 0;
     gic_enabled := []; console := [] |}.
Definition alone : ProcId -> KernIpc.Kernel Aspace (Mem unit) -> res (KernIpc.Kernel Aspace (Mem unit)) := fun _ _ => Timeout.

#[local] Existing Instance table_user.

End UmDemo.

End Um.
