(* ===== verification/Loader.v ===== *)
(** * Starting processes ([aarch64/src/process.rs], [aarch64/src/registry.rs])

    The image registry, the ELF loader, and the three ways a process starts:
    a raw image, an embedded ELF at boot, and [SYS_SPAWN].

    The loader works against an interface of the memory system: a fresh address
    space, the mapping of one user page (which also gives a kernel pointer to
    it) and stores through such pointers.  The other fields of the interface
    are what its laws speak of: the contents and attributes of a user address,
    the page behind a kernel pointer, the number of free pages, and that the
    memory and an address space of it are intact.  [LoaderTables] implements the
    interface by the page tables. *)

From S2P Require Import Prelude Abi Addr BitmapAlloc Elf Ipc Sched Heap KernIpc Vm.

Class LoaderOps (A M : Type) := {
  new_aspace : M -> res (A * M);
  map_user_page : A -> Pt.Entry -> Z -> M -> res (result Z PageAllocError * M);
  kstore : M -> Z -> list Z -> res M;
  user_byte : M -> A -> Z -> option Z;
  (** the attributes an address is mapped with *)
  user_entry : M -> A -> Z -> option Pt.Entry;
  (** the kernel pointer reaches the page at this address of this space *)
  kpage : M -> Z -> A -> Z -> Prop;
  free_pages : M -> Z;
  mem_ok : M -> Prop;
  aspace_ok : M -> A -> Prop;
}.

Definition ELF_BASE : Z := IMAGE_BASE.
Definition STACK_PAGES : Z := 16.

Record Handles := { inbound : Z; outbound : Z; ns_inbound : Z; ns_outbound : Z }.

Definition for_server (ns : Handles) : Handles :=
  {| inbound := 0; outbound := 0; ns_inbound := inbound ns; ns_outbound := outbound ns |}.

Inductive Image :=
  | Raw (text : list Z) (text_va stack_va : Z)
  | ElfImage (bytes : list Z) (handles : option Handles).

(** ** The registry *)

Record EmbeddedElf := { ebytes : list Z; ename : string }.

Definition NIMAGES : Z := 8.

Record Registry := { images : list (option EmbeddedElf); nregistered : Z }.

Definition empty_registry : Registry := {| images := replicate (Z.to_nat NIMAGES) None; nregistered := 0 |}.

(** The loop of [register]: slot [i] and up. *)
Fixpoint fill (tbl : list (option EmbeddedElf)) (i : nat) (imgs : list EmbeddedElf) : list (option EmbeddedElf) :=
  match imgs with [] => tbl | img :: imgs' => fill (<[i := Some img]> tbl) (S i) imgs' end.

Definition register (r : Registry) (imgs : list EmbeddedElf) : Registry :=
  {| images := fill (images r) 0 (take (Z.to_nat NIMAGES) imgs);
     nregistered := Z.min (len imgs) NIMAGES |}.

Definition lookup_image (r : Registry) (index : Z) : option EmbeddedElf :=
  if (nregistered r <=? index) || (NIMAGES <=? index) then None
  else match images r !! Z.to_nat index with Some o => o | None => None end.

(** ** The loader *)

Section loader.
Context {A M : Type} `{!LoaderOps A M}.
Implicit Types m : M.

Definition page_down (va : Z) : Z := Z.land va (unot W64 (PAGE_SIZE_4K - 1)).

(** [(end + PAGE_SIZE_4K - 1) & !(PAGE_SIZE_4K - 1)]. *)
Definition page_up (e : Z) : res Z :=
  x ← uadd e PAGE_SIZE_4K; y ← usub x 1; Ok (page_down y).

Fixpoint check_overlap (prev : list Segment) (page_lo page_hi : Z) : res unit :=
  match prev with
  | [] => Ok tt
  | p :: prev' =>
      pend ← uadd (vaddr p) (memsz p);
      p_hi ← page_up pend;
      _ ← assert (negb ((page_lo <? p_hi) && (page_down (vaddr p) <? page_hi)));
      check_overlap prev' page_lo page_hi
  end.

(** The placement checks; the result is [top]. *)
Fixpoint check_placement (prev segs : list Segment) (top : Z) : res Z :=
  match segs with
  | [] => Ok top
  | seg :: segs' =>
      _ ← assert (ELF_BASE <=? vaddr seg);
      e ← unwrap (checked_add (vaddr seg) (memsz seg));
      let page_lo := page_down (vaddr seg) in
      page_hi ← page_up e;
      _ ← assert (page_hi <? KZERO);
      _ ← check_overlap prev page_lo page_hi;
      check_placement (prev ++ [seg]) segs' (if top <? page_hi then page_hi else top)
  end.

(** [segs.iter().any(..)]. *)
Fixpoint entry_in_segment (ent : Z) (segs : list Segment) : res bool :=
  match segs with
  | [] => Ok false
  | seg :: segs' =>
      if exec seg && (vaddr seg <=? ent) then
        e ← uadd (vaddr seg) (memsz seg);
        if ent <? e then Ok true else entry_in_segment ent segs'
      else entry_in_segment ent segs'
  end.

Definition segment_entry (seg : Segment) : Pt.Entry :=
  if exec seg then Pt.ro_user_text else Pt.rw_user_data.

(** [unwrap_or_else(|err| panic!(..))] on a mapping. *)
Definition expect_page (x : res (result Z PageAllocError * M)) : res (Z * M) :=
  '(r, m) ← x; match r with Val k => Ok (k, m) | Err _ => Panic end.

(** One page of a segment: mapped, zeroed, and its share of the file copied. *)
Definition load_page (a : A) (bytes : list Z) (seg : Segment) (page : Z) (m : M) : res M :=
  '(kptr, m1) ← expect_page (map_user_page a (segment_entry seg) page m);
  m2 ← kstore m1 kptr (replicate (Z.to_nat PAGE_SIZE_4K) 0);
  let va_lo := Z.max page (vaddr seg) in
  pe ← uadd page PAGE_SIZE_4K;
  ve ← uadd (vaddr seg) (filesz seg);
  let va_hi := Z.min pe ve in
  if va_lo <? va_hi then
    let n := va_hi - va_lo in
    lo ← uadd (offset seg) (va_lo - vaddr seg);
    hi ← uadd (offset seg) (va_hi - vaddr seg);
    src ← unwrap (sget bytes lo (hi - lo));
    kstore m2 (kptr + (va_lo - page)) src
  else Ok m2.

Fixpoint load_pages (fuel : nat) (a : A) (bytes : list Z) (seg : Segment) (page page_hi : Z) (m : M) : res M :=
  match fuel with
  | O => Timeout
  | S fuel' =>
      if page <? page_hi then
        m1 ← load_page a bytes seg page m;
        page1 ← uadd page PAGE_SIZE_4K;
        load_pages fuel' a bytes seg page1 page_hi m1
      else Ok m
  end.

Definition load_segment (a : A) (bytes : list Z) (seg : Segment) (m : M) : res M :=
  let page_lo := page_down (vaddr seg) in
  e ← uadd (vaddr seg) (memsz seg);
  page_hi ← page_up e;
  load_pages (Z.to_nat ((page_hi - page_lo) / PAGE_SIZE_4K + 1)) a bytes seg page_lo page_hi m.

Fixpoint load_segments (a : A) (bytes : list Z) (segs : list Segment) (m : M) : res M :=
  match segs with
  | [] => Ok m
  | seg :: segs' => m1 ← load_segment a bytes seg m; load_segments a bytes segs' m1
  end.

Fixpoint map_stack (a : A) (stack_base : Z) (ps : list Z) (m : M) : res M :=
  match ps with
  | [] => Ok m
  | p :: ps' =>
      o ← umul p PAGE_SIZE_4K; va ← uadd stack_base o;
      '(_, m1) ← expect_page (map_user_page a Pt.rw_user_data va m);
      map_stack a stack_base ps' m1
  end.

Record LoadedElf := {
  l_aspace : A; l_entry : Z; l_user_sp : Z; l_heap_base : Z; l_symtab : option SymTable;
}.

Definition load_elf (bytes : list Z) (m : M) : res (LoadedElf * M) :=
  r ← parse bytes;
  match r with
  | Err _ => Panic
  | Val image =>
      let segs := segments image in
      top ← check_placement [] segs 0;
      let ent := entry image in
      in_segment ← entry_in_segment ent segs;
      _ ← assert in_segment;
      '(a, m1) ← new_aspace m;
      m2 ← load_segments a bytes segs m1;
      stack_base ← page_up top;
      m3 ← map_stack a stack_base (seqZ 0 STACK_PAGES) m2;
      stack_top ← uadd stack_base (STACK_PAGES * PAGE_SIZE_4K);
      user_sp ← usub stack_top 16;
      Ok ({| l_aspace := a; l_entry := ent; l_user_sp := user_sp; l_heap_base := stack_top;
             l_symtab := symtab image |}, m3)
  end.

(** ** Spawning *)

Context (trapret : Z).

(** A 64-bit little-endian store through a kernel pointer. *)
Definition store_u64 (m : M) (p v : Z) : res M := kstore m p (to_le 8 v).

Definition spawn_raw (text : list Z) (text_va stack_va : Z) (s : Sched A) (m : M)
    : res (ProcId * Sched A * M) :=
  '(a, m1) ← new_aspace m;
  '(ktext, m2) ← expect_page (map_user_page a Pt.ro_user_text text_va m1);
  _ ← assert (len text <=? PAGE_SIZE_4K);
  m3 ← kstore m2 ktext text;
  '(_, m4) ← expect_page (map_user_page a Pt.rw_user_data stack_va m3);
  '(user_handles, m5) ← expect_page (map_user_page a Pt.rw_user_data HANDLES_VA m4);
  m5' ← store_u64 m5 user_handles 1;
  m6 ← store_u64 m5' (user_handles + 8) 0;
  stack_top ← uadd stack_va PAGE_SIZE_4K;
  user_sp ← usub stack_top 16;
  '(id, s1) ← Proc.install trapret s a text_va user_sp stack_top None;
  Ok (id, s1, m6).

(** The symbols for the backtrace, if the image has a table of them. *)
Definition symref (bytes : list Z) (l : LoadedElf) : option SymRef :=
  match l_symtab l with Some t => Some {| image := bytes; tab := t |} | None => None end.

(** The header [spawn_elf] writes: the count and one or two pairs. *)
Definition handles_header (h : Handles) : list Z :=
  let n := if negb (ns_inbound h =? 0) || negb (ns_outbound h =? 0) then 4 else 2 in
  take (Z.to_nat (n * 4 + 4))
    (to_le 4 n ++ to_le 4 (inbound h) ++ to_le 4 (outbound h) ++
     if n =? 4 then to_le 4 (ns_inbound h) ++ to_le 4 (ns_outbound h) else replicate 8 0).

Definition spawn_elf (bytes : list Z) (handles : option Handles) (s : Sched A) (m : M)
    : res (ProcId * Sched A * M) :=
  '(l, m1) ← load_elf bytes m;
  m2 ←
    match handles with
    | None => Ok m1
    | Some h =>
        '(kptr, m2) ← expect_page (map_user_page (l_aspace l) Pt.rw_user_data HANDLES_VA m1);
        kstore m2 kptr (handles_header h)
    end;
  '(id, s1) ← Proc.install trapret s (l_aspace l) (l_entry l) (l_user_sp l) (l_heap_base l) (symref bytes l);
  Ok (id, s1, m2).

Definition spawn (image : Image) (s : Sched A) (m : M) : res (ProcId * Sched A * M) :=
  match image with
  | Raw text text_va stack_va => spawn_raw text text_va stack_va s m
  | ElfImage bytes handles => spawn_elf bytes handles s m
  end.

Context `{!UserMem A M}.

(** The child-state of [SYS_SPAWN]: a zero page, or the spawner's page with a
    valid handle count; [None] when it is refused. *)
Definition child_state (k : Kernel A M) (state_va : Z) : res (option (list Z)) :=
  if state_va =? 0 then Ok (Some (replicate (Z.to_nat PAGE_SIZE_4K) 0)) else
  o ← read_user k PAGE_SIZE_4K state_va PAGE_SIZE_4K;
  Ok match o with
     | None => None
     | Some state => if SPAWN_MAX_HANDLES <? from_le (take 4 state) then None else Some state
     end.

Definition sys_spawn (reg : Registry) (index state_va prio : Z) (k : Kernel A M) : res (Z * Kernel A M) :=
  match lookup_image reg index with
  | None => Ok (SPAWN_BAD_INDEX, k)
  | Some img =>
      if negb (prio <=? 254) then Ok (SPAWN_BAD_STATE, k) else
      o ← child_state k state_va;
      match o with
      | None => Ok (SPAWN_BAD_STATE, k)
      | Some state =>
          '(l, m1) ← load_elf (ebytes img) (mem k);
          '(kptr, m2) ← expect_page (map_user_page (l_aspace l) Pt.rw_user_data HANDLES_VA m1);
          m3 ← kstore m2 kptr state;
          '(o, s1) ← Proc.try_install trapret (sched k) (l_aspace l) (l_entry l) (l_user_sp l)
                       (l_heap_base l) prio (symref (ebytes img) l);
          Ok (match o with Some id => id | None => SPAWN_NO_SLOT end, set_mem (set_sched k s1) m3)
      end
  end.
End loader.

(** ** What loading an image means *)

(** The pages a segment touches. *)
Definition span_lo (seg : Segment) : Z := vaddr seg - vaddr seg mod 4096.
Definition span_hi (seg : Segment) : Z :=
  vaddr seg + memsz seg + 4095 - (vaddr seg + memsz seg + 4095) mod 4096.

(** The pages a segment and a list of segments take. *)
Definition seg_pages (seg : Segment) : Z := (span_hi seg - span_lo seg) / 4096.
Definition pages_of (segs : list Segment) : Z := foldr (fun s n => seg_pages s + n) 0 segs.

(** In the user half, with a page to spare below [KZERO]. *)
Definition seg_placed (seg : Segment) : Prop :=
  ELF_BASE <= vaddr seg /\ vaddr seg + memsz seg <= KZERO - 4096.

Definition apart (s1 s2 : Segment) : Prop := span_hi s1 <= span_lo s2 \/ span_hi s2 <= span_lo s1.

Definition entry_ok (ent : Z) (segs : list Segment) : Prop :=
  exists seg, seg ∈ segs /\ exec seg = true /\ vaddr seg <= ent < vaddr seg + memsz seg.

(** The memory contents of a segment: its file bytes, then zeros. *)
Definition seg_byte (bytes : list Z) (seg : Segment) (v : Z) : Z :=
  if (vaddr seg <=? v) && (v <? vaddr seg + filesz seg)
  then default 0 (bytes !! Z.to_nat (offset seg + (v - vaddr seg))) else 0.

(** The addresses and the pages of a process: below the slot of the recursive
    mapping. *)
Definition user_va (v : Z) : Prop := 0 <= v < Pt.RECURSIVE_BASE.
Definition user_pg (va : Z) : Prop := 0 <= va /\ va + 4096 <= Pt.RECURSIVE_BASE /\ va mod 4096 = 0.

(** The address spaces stay intact, and outside the range [lo, hi) of [a] nothing
    changed in them. *)
Definition unchanged {A M} `{!LoaderOps A M} (m m' : M) (a : A) (lo hi : Z) : Prop :=
  forall a', aspace_ok m a' -> aspace_ok m' a' /\
    forall v, user_va v -> ~ (a' = a /\ lo <= v < hi) -> user_byte m' a' v = user_byte m a' v /\ user_entry m' a' v = user_entry m a' v.

(** What the loader relies on: a mapped page is reached at its address with the
    attributes given, and a store through its kernel pointer changes that page
    and nothing else.  A new address space takes at most four pages (its root
    and the tables that map it for the kernel), a mapped page at most seven
    (itself, three tables of the process and three of the kernel), and with
    that many pages free neither fails, for the pages that user tables can map. *)
Class LoaderLaws (A M : Type) `{!LoaderOps A M} : Prop := {
  new_aspace_ok m : mem_ok m -> 4 <= free_pages m ->
    exists a m', new_aspace m = Ok (a, m') /\ aspace_ok m' a /\ free_pages m - 4 <= free_pages m' /\ ~ aspace_ok m a /\ unchanged m m' a 0 0;
  map_user_page_ok a e va m : aspace_ok m a -> user_pg va -> e = Pt.ro_user_text \/ e = Pt.rw_user_data -> 7 <= free_pages m ->
    exists k m', map_user_page a e va m = Ok (Val k, m') /\ free_pages m - 7 <= free_pages m' /\ kpage m' k a va /\
      unchanged m m' a va (va + 4096) /\
      forall v, va <= v < va + 4096 -> is_Some (user_byte m' a v) /\ user_entry m' a v = Some e;
  kstore_ok m k a va off bs : aspace_ok m a -> kpage m k a va -> 0 <= off -> off + len bs <= 4096 -> bytes_ok bs ->
    exists m', kstore m (k + off) bs = Ok m' /\ free_pages m' = free_pages m /\ kpage m' k a va /\
      unchanged m m' a (va + off) (va + off + len bs) /\
      (forall v, va + off <= v < va + off + len bs ->
         user_byte m' a v = bs !! Z.to_nat (v - va - off) /\ user_entry m' a v = user_entry m a v);
}.

Lemma page_down_eval va : is_u64 va -> page_down va = va - va mod 4096.
Proof.
  intros Hva; unfold page_down; change (unot W64 (PAGE_SIZE_4K - 1)) with (2 ^ 64 - 2 ^ 12).
  rewrite Pt.land_page_mask by lia; rewrite Z.mod_small by (change (2 ^ 64) with W64; exact Hva).
  change (2 ^ 12) with 4096; pose proof (Z.div_mod va 4096); lia.
Qed.

Lemma page_up_eval e : 0 <= e -> e + 4096 < W64 -> page_up e = Ok (e + 4095 - (e + 4095) mod 4096).
Proof.
  intros; unfold page_up; change PAGE_SIZE_4K with 4096; rewrite bind_uadd, bind_usub by lia.
  rewrite page_down_eval by (unfold is_u; lia); by replace (e + 4096 - 1) with (e + 4095) by lia.
Qed.

(** A segment as the reader returns it. *)
Record seg_sane (bytes : list Z) (seg : Segment) : Prop := {
  sn_vaddr : 0 <= vaddr seg;
  sn_sizes : 0 <= filesz seg <= memsz seg;
  sn_file : 0 <= offset seg /\ offset seg + filesz seg <= len bytes;
}.

Lemma span_bounds seg : seg_placed seg -> 0 <= memsz seg ->
  0 <= span_lo seg <= vaddr seg /\ vaddr seg + memsz seg <= span_hi seg <= KZERO - 4096 /\
  span_lo seg mod 4096 = 0 /\ span_hi seg mod 4096 = 0 /\ span_lo seg <= span_hi seg.
Proof.
  unfold seg_placed, span_lo, span_hi, ELF_BASE, IMAGE_BASE, KZERO; intros.
  Z.to_euclidean_division_equations; lia.
Qed.

(** *** Placement *)

Lemma check_overlap_spec prev seg : seg_placed seg -> 0 <= memsz seg ->
  Forall (fun p => seg_placed p /\ 0 <= memsz p) prev ->
  (Forall (fun p => apart p seg) prev -> check_overlap prev (span_lo seg) (span_hi seg) = Ok tt) /\
  (~ Forall (fun p => apart p seg) prev -> check_overlap prev (span_lo seg) (span_hi seg) = Panic).
Proof.
  intros Hs Hms; induction 1 as [|p prev [Hp Hmp] _ IH]; cbn [check_overlap]; [split; [done|by intros []]|].
  pose proof (span_bounds p Hp Hmp) as (Hlo & Hhi & _); destruct Hp as [Hp1 Hp2]; unfold ELF_BASE, IMAGE_BASE, KZERO in *.
  rewrite bind_uadd by (rewrite W64_val; lia).
  rewrite page_up_eval by (rewrite ?W64_val; lia); fold (span_hi p); cbn [mbind res_bind].
  rewrite page_down_eval by (unfold is_u; rewrite W64_val; lia); fold (span_lo p).
  rewrite !Forall_cons; unfold apart at 1 3.
  destruct (Z.ltb_spec (span_lo seg) (span_hi p)), (Z.ltb_spec (span_lo p) (span_hi seg));
    cbn [andb negb assert mbind res_bind].
  1: split; [intros [? _]; lia|done].
  all: destruct IH as [IH1 IH2]; split; [intros [_ Hf]; by apply IH1|intros Hn; apply IH2; intros Hf; apply Hn; split; [lia|done]].
Qed.

(** The placement of a list of segments after [prev]. *)
Definition placed (prev segs : list Segment) : Prop :=
  Forall seg_placed segs /\ StronglySorted apart segs /\
  Forall (fun s => Forall (fun p => apart p s) prev) segs.

Lemma placed_cons prev seg segs : placed prev (seg :: segs) <->
  seg_placed seg /\ Forall (fun p => apart p seg) prev /\ placed (prev ++ [seg]) segs.
Proof.
  unfold placed; rewrite !Forall_cons; split.
  - intros ((Hs & Hss) & Hsort & Hp & Hps); inversion Hsort; subst; split_and!; auto.
    rewrite Forall_forall in *; intros s Hin; rewrite Forall_app, Forall_singleton; auto.
  - intros (Hs & Hp & Hss & Hsort & Hps); rewrite !Forall_forall in Hps.
    split_and!; auto; [constructor; auto|]; rewrite Forall_forall; intros s Hin;
      specialize (Hps s Hin); rewrite Forall_app, Forall_singleton in Hps; naive_solver.
Qed.

Lemma check_placement_spec segs : forall prev top, 0 <= top ->
  Forall (fun s => 0 <= vaddr s /\ 0 <= memsz s) segs -> Forall (fun p => seg_placed p /\ 0 <= memsz p) prev ->
  (placed prev segs -> exists t, check_placement prev segs top = Ok t /\ top <= t /\
     Forall (fun s => span_hi s <= t) segs /\ (t = top \/ exists s, s ∈ segs /\ t = span_hi s)) /\
  (~ placed prev segs -> check_placement prev segs top = Panic).
Proof.
  induction segs as [|seg segs IH]; intros prev top Ht Hpos Hprev; cbn [check_placement].
  { split; [intros _; exists top; split_and!; auto; lia|]; intros Hn; destruct Hn; split_and!; constructor. }
  apply Forall_cons in Hpos as [[Hv Hms] Hpos]; rewrite placed_cons.
  destruct (Z.leb_spec ELF_BASE (vaddr seg)) as [Hb|Hb]; cbn [assert mbind res_bind].
  2:{ split; [intros [[? _] _]; lia|done]. }
  unfold checked_add; destruct (Z.ltb_spec (vaddr seg + memsz seg) W64) as [Hov|Hov]; cbn [unwrap mbind res_bind].
  2:{ split; [intros [[_ ?] _]; unfold KZERO in *; rewrite W64_val in *; lia|done]. }
  destruct (Z.le_gt_cases (vaddr seg + memsz seg) (KZERO - 4096)) as [Hk|Hk].
  - assert (Hsp : seg_placed seg) by (by split).
    pose proof (span_bounds seg Hsp Hms) as (Hlo & Hhi & _).
    rewrite page_up_eval by (unfold KZERO in *; rewrite ?W64_val; lia); fold (span_hi seg); cbn [mbind res_bind].
    rewrite (proj2 (Z.ltb_lt (span_hi seg) KZERO)) by lia; cbn [assert mbind res_bind].
    rewrite page_down_eval by (unfold is_u; lia); fold (span_lo seg).
    destruct (check_overlap_spec prev seg Hsp Hms Hprev) as [Hok Hbad].
    destruct (decide (Forall (fun p => apart p seg) prev)) as [Ha|Ha].
    + rewrite (Hok Ha); cbn [mbind res_bind].
      destruct (IH (prev ++ [seg]) (if top <? span_hi seg then span_hi seg else top)) as [IH1 IH2].
      * destruct (top <? span_hi seg); lia.
      * done.
      * apply Forall_app; split; [done|by apply Forall_singleton].
      * split; [|intros Hn; apply IH2; intros Hp; apply Hn; auto]; intros (_ & _ & Hp).
        destruct (IH1 Hp) as (t & -> & Hle & Hall & Hmax); exists t; split; [done|].
        destruct (Z.ltb_spec top (span_hi seg)); (split_and!; [lia|constructor; [lia|done]|]).
        -- destruct Hmax as [->|(s & Hs & ->)]; right; [exists seg; split; [left|done]|exists s; split; [by right|done]].
        -- destruct Hmax as [->|(s & Hs & ->)]; [by left|right; exists s; split; [by right|done]].
    + rewrite (Hbad Ha); split; [intros (_ & ? & _); done|done].
  - split; [intros [[_ ?] _]; lia|intros _].
    destruct (Z.lt_ge_cases (vaddr seg + memsz seg + 4096) W64).
    + rewrite page_up_eval by lia; fold (span_hi seg); cbn [mbind res_bind].
      rewrite (proj2 (Z.ltb_ge (span_hi seg) KZERO)); [done|].
      unfold span_hi, KZERO in *; Z.to_euclidean_division_equations; lia.
    + unfold page_up, uadd; change PAGE_SIZE_4K with 4096; by rewrite (proj2 (Z.ltb_ge _ _)).
Qed.

Lemma entry_in_segment_spec ent segs : Forall (fun s => vaddr s + memsz s < W64) segs ->
  exists b, entry_in_segment ent segs = Ok b /\ (b = true <-> entry_ok ent segs).
Proof.
  unfold entry_ok; induction 1 as [|seg segs Hs _ IH]; cbn [entry_in_segment].
  { exists false; split; [done|]; split; [done|]; intros (s & Hin & _); inversion Hin. }
  destruct IH as (b & Hb & Hiff).
  assert (Hskip : ~ (exec seg = true /\ vaddr seg <= ent < vaddr seg + memsz seg) ->
    (b = true <-> exists s, s ∈ seg :: segs /\ exec s = true /\ vaddr s <= ent < vaddr s + memsz s)).
  { intros Hn; rewrite Hiff; split; intros (s & Hin & Hr); exists s; (split; [|done]); [by right|].
    apply elem_of_cons in Hin as [->|]; [by destruct Hn|done]. }
  destruct (exec seg) eqn:Hx; cbn [andb]; [|exists b; split; [done|apply Hskip; intros [? _]; done]].
  destruct (Z.leb_spec (vaddr seg) ent); [|exists b; split; [done|apply Hskip; lia]].
  rewrite bind_uadd by lia; destruct (Z.ltb_spec ent (vaddr seg + memsz seg)).
  - exists true; split; [done|]; split; [|done]; intros _; exists seg; split_and!; auto; left.
  - exists b; split; [done|apply Hskip; lia].
Qed.

(** *** Contents *)

Section loading.
Context {A M : Type} `{!LoaderOps A M, !LoaderLaws A M}.
Implicit Types m : M.

(** [n] more pages can be mapped in [a]. *)
Definition able (m : M) (a : A) (n : Z) : Prop := aspace_ok m a /\ 7 * n <= free_pages m.

Lemma able_weaken m a n n' : able m a n -> n' <= n -> able m a n'.
Proof. intros [? ?] ?; split; [done|lia]. Qed.

(** The range [lo, hi) of [a] holds the segment. *)
Definition loaded (m : M) (a : A) (bytes : list Z) (seg : Segment) (lo hi : Z) : Prop :=
  forall v, lo <= v < hi ->
    user_byte m a v = Some (seg_byte bytes seg v) /\ user_entry m a v = Some (segment_entry seg).

Lemma unchanged_trans m1 m2 m3 a lo hi lo1 hi1 lo2 hi2 :
  unchanged m1 m2 a lo1 hi1 -> unchanged m2 m3 a lo2 hi2 ->
  lo <= lo1 -> hi1 <= hi -> lo <= lo2 -> hi2 <= hi -> unchanged m1 m3 a lo hi.
Proof.
  intros H1 H2 ???? a' Ha; destruct (H1 a' Ha) as [Ha2 H1']; destruct (H2 a' Ha2) as [Ha3 H2']; split; [done|]; intros v Hv Hn.
  destruct (H1' v Hv) as [Hb1 He1]; [intros [? ?]; apply Hn; split; [done|lia]|].
  destruct (H2' v Hv) as [Hb2 He2]; [intros [? ?]; apply Hn; split; [done|lia]|]; split; congruence.
Qed.

Lemma unchanged_refl m a lo hi : unchanged m m a lo hi.
Proof. intros a' Ha; by split. Qed.

Lemma loaded_unchanged m m' a bytes seg lo hi lo2 hi2 : aspace_ok m a -> 0 <= lo -> hi <= Pt.RECURSIVE_BASE ->
  loaded m a bytes seg lo hi -> unchanged m m' a lo2 hi2 -> hi <= lo2 \/ hi2 <= lo ->
  loaded m' a bytes seg lo hi.
Proof.
  intros Ha H0 Ht Hl Hu Hd v Hv; destruct (Hl v Hv) as [Hb He]; destruct (Hu a Ha) as [_ Hs].
  destruct (Hs v) as [-> ->]; [unfold user_va; lia|intros [_ ?]; lia|done].
Qed.

(** A page is mapped, with room for [n] more. *)
Lemma able_map m a n e va : able m a (n + 1) -> 0 <= n -> user_pg va -> e = Pt.ro_user_text \/ e = Pt.rw_user_data ->
  exists k m', expect_page (map_user_page a e va m) = Ok (k, m') /\ able m' a n /\ kpage m' k a va /\ unchanged m m' a va (va + 4096) /\
    forall v, va <= v < va + 4096 -> is_Some (user_byte m' a v) /\ user_entry m' a v = Some e.
Proof.
  intros [Hok Hf] Hn Hva He; destruct (map_user_page_ok a e va m Hok Hva He ltac:(lia)) as (k & m' & H & Hf' & Hk & Hu & Hin).
  exists k, m'; unfold expect_page; rewrite H; split; [done|]; split_and!; [split; [by apply (Hu a)|lia]|done..].
Qed.

(** A mapped page, stored to through its kernel pointer. *)
Lemma able_store m a n k va off bs : able m a n -> kpage m k a va -> 0 <= off -> off + len bs <= 4096 -> bytes_ok bs ->
  exists m', kstore m (k + off) bs = Ok m' /\ able m' a n /\ kpage m' k a va /\ unchanged m m' a (va + off) (va + off + len bs) /\
    forall v, va + off <= v < va + off + len bs -> user_byte m' a v = bs !! Z.to_nat (v - va - off) /\ user_entry m' a v = user_entry m a v.
Proof.
  intros [Hok Hf] Hk H0 Hle Hb; destruct (kstore_ok m k a va off bs Hok Hk H0 Hle Hb) as (m' & H & Hfr & Hk' & Hu & Hs).
  exists m'; split_and!; auto; split; [by apply (Hu a)|lia].
Qed.

Lemma segment_entry_user seg : segment_entry seg = Pt.ro_user_text \/ segment_entry seg = Pt.rw_user_data.
Proof. unfold segment_entry; destruct (exec seg); auto. Qed.

(** A fresh page after it is zeroed. *)
Lemma zeroed_page a n e va m : able m a (n + 1) -> 0 <= n -> user_pg va -> e = Pt.ro_user_text \/ e = Pt.rw_user_data ->
  exists k m1 m2, expect_page (map_user_page a e va m) = Ok (k, m1) /\ kstore m1 k (replicate (Z.to_nat PAGE_SIZE_4K) 0) = Ok m2 /\
    able m2 a n /\ kpage m2 k a va /\ unchanged m m2 a va (va + 4096) /\
    forall v, va <= v < va + 4096 -> user_byte m2 a v = Some 0 /\ user_entry m2 a v = Some e.
Proof.
  intros Hab Hn Hva He; destruct (able_map m a n e va Hab Hn Hva He) as (k & m1 & Hmap & Hab1 & Hk & Hu & Hin).
  assert (Hl : len (replicate (Z.to_nat PAGE_SIZE_4K) 0) = 4096) by (unfold len; by rewrite length_replicate).
  destruct (able_store m1 a n k va 0 (replicate (Z.to_nat PAGE_SIZE_4K) 0) Hab1 Hk) as (m2 & Hst & Hab2 & Hk2 & Hu2 & Hs);
    [lia|lia|apply Forall_replicate; done|]; rewrite Hl, !Z.add_0_r in *.
  exists k, m1, m2; split_and!; auto; [by eapply unchanged_trans|].
  intros v Hv; destruct (Hs v Hv) as [-> ->]; split; [|by apply Hin].
  apply lookup_replicate_2; change (Z.to_nat PAGE_SIZE_4K) with 4096%nat; lia.
Qed.

Lemma load_page_spec a bytes seg page m n : seg_sane bytes seg -> bytes_ok bytes -> len bytes < W64 ->
  user_pg page -> vaddr seg + filesz seg < W64 -> able m a (n + 1) -> 0 <= n ->
  exists m', load_page a bytes seg page m = Ok m' /\ unchanged m m' a page (page + 4096) /\
    loaded m' a bytes seg page (page + 4096) /\ able m' a n.
Proof.
  intros [Hv Hf [Ho Hfile]] Hby Hlen Hp Hov Hab Hn0; unfold load_page.
  destruct (zeroed_page a n (segment_entry seg) page m Hab Hn0 Hp (segment_entry_user seg)) as (k & m1 & m2 & -> & Hz0 & Hab2 & Hk & Hu & Hz).
  cbn [mbind res_bind]; rewrite Hz0; cbn [mbind res_bind]; destruct Hp as (Hp0 & Hpt & Hpm); unfold Pt.RECURSIVE_BASE in Hpt.
  change PAGE_SIZE_4K with 4096; rewrite bind_uadd by (rewrite W64_val; lia).
  rewrite bind_uadd by lia.
  set (lo := Z.max page (vaddr seg)); set (hi := Z.min (page + 4096) (vaddr seg + filesz seg)).
  assert (Hlo : lo = Z.max page (vaddr seg)) by done; assert (Hhi : hi = Z.min (page + 4096) (vaddr seg + filesz seg)) by done.
  clearbody lo hi; destruct (Z.ltb_spec lo hi) as [Hlt|Hge].
  - rewrite bind_uadd, bind_uadd by lia.
    set (s := offset seg + (lo - vaddr seg)).
    replace (offset seg + (hi - vaddr seg) - s) with (hi - lo) by lia.
    destruct (sget bytes s (hi - lo)) as [src|] eqn:Es.
    2:{ exfalso; unfold sget in Es; rewrite !(proj2 (Z.leb_le _ _)) in Es by lia; done. }
    pose proof (sget_len _ _ _ _ Es) as Hsl; apply sget_Some in Es as (_ & _ & _ & Hsrc).
    cbn [unwrap mbind res_bind].
    destruct (able_store m2 a n k page (lo - page) src Hab2 Hk) as (m3 & -> & Hab3 & _ & Hu3 & Hs); [lia|lia|rewrite Hsrc; by apply Forall_take, Forall_drop|].
    exists m3; split_and!; [done|eapply unchanged_trans; [exact Hu|exact Hu3|lia..]| |done].
    + intros v Hvr; unfold seg_byte.
      destruct (decide (lo <= v < hi)) as [Hin|Hin].
      * destruct (Hs v ltac:(lia)) as [-> ->]; split; [|by apply Hz]; rewrite (proj2 (Z.leb_le _ _)), (proj2 (Z.ltb_lt _ _)) by lia; cbn [andb].
        rewrite Hsrc, lookup_take_lt, lookup_drop by lia.
        replace (Z.to_nat s + Z.to_nat (v - page - (lo - page)))%nat with (Z.to_nat (offset seg + (v - vaddr seg))) by lia.
        destruct (lookup_lt_is_Some_2 bytes (Z.to_nat (offset seg + (v - vaddr seg)))) as [x ->];
          [unfold len in *; lia|done].
      * destruct (Hu3 a (proj1 Hab2)) as [_ Hsame]; destruct (Hsame v) as [-> ->]; [unfold user_va, Pt.RECURSIVE_BASE; lia|intros [_ ?]; lia|].
        destruct (Hz v Hvr) as [-> ->]; split; [|done]; f_equal; symmetry.
        destruct (Z.leb_spec (vaddr seg) v), (Z.ltb_spec v (vaddr seg + filesz seg)); cbn [andb]; auto; lia.
  - exists m2; split_and!; [done|done| |done]; intros v Hvr; destruct (Hz v Hvr) as [-> ->]; split; [|done].
    f_equal; unfold seg_byte; destruct (Z.leb_spec (vaddr seg) v), (Z.ltb_spec v (vaddr seg + filesz seg));
      cbn [andb]; auto; lia.
Qed.

Lemma load_pages_spec fuel : forall a bytes seg page hi m n, seg_sane bytes seg -> bytes_ok bytes -> len bytes < W64 ->
  0 <= page -> page mod 4096 = 0 -> hi mod 4096 = 0 -> hi <= Pt.RECURSIVE_BASE -> vaddr seg + filesz seg < W64 ->
  0 < Z.of_nat fuel /\ hi - page <= 4096 * (Z.of_nat fuel - 1) ->
  page <= hi -> able m a (n + (hi - page) / 4096) -> 0 <= n ->
  exists m', load_pages fuel a bytes seg page hi m = Ok m' /\ unchanged m m' a page hi /\
    loaded m' a bytes seg page hi /\ able m' a n.
Proof.
  induction fuel as [|fuel IH]; intros a bytes seg page hi m n Hs Hby Hl H0 Hp Hh Hk Hov Hf Hle Hab Hn0; cbn [load_pages]; [lia|].
  destruct (Z.ltb_spec page hi) as [Hlt|Hge].
  2:{ exists m; split_and!; [done|apply unchanged_refl|intros v ?; lia|]; replace hi with page in Hab by lia.
      by rewrite Z.sub_diag, Z.add_0_r in Hab. }
  assert (Hstep : page + 4096 <= hi) by (Z.to_euclidean_division_equations; lia).
  assert (Hnext : (hi - page) / 4096 = (hi - (page + 4096)) / 4096 + 1 /\ 0 <= (hi - (page + 4096)) / 4096)
    by (Z.to_euclidean_division_equations; lia).
  destruct (load_page_spec a bytes seg page m (n + (hi - (page + 4096)) / 4096) Hs Hby Hl) as (m1 & -> & Hu1 & Hl1 & Hab1);
    [by split_and!; [|lia|]|done|eapply able_weaken; [exact Hab|lia]|lia|]; cbn [mbind res_bind].
  change PAGE_SIZE_4K with 4096; rewrite bind_uadd by (unfold Pt.RECURSIVE_BASE in Hk; rewrite W64_val; lia).
  destruct (IH a bytes seg (page + 4096) hi m1 n) as (m2 & -> & Hu2 & Hl2 & Hab2); auto; try lia.
  { rewrite <- Z.add_mod_idemp_r by lia; change (4096 mod 4096) with 0; by rewrite Z.add_0_r. }
  exists m2; split_and!; [done|eapply unchanged_trans; [exact Hu1|exact Hu2|lia..]| |done].
  intros v Hv; destruct (Z.lt_ge_cases v (page + 4096)); [|apply Hl2; lia].
  apply (loaded_unchanged m1 m2 a bytes seg page (page + 4096) (page + 4096) hi (proj1 Hab1) H0 ltac:(lia) Hl1 Hu2); lia.
Qed.

Lemma load_segment_spec a bytes seg m n : seg_sane bytes seg -> bytes_ok bytes -> len bytes < W64 -> seg_placed seg -> span_hi seg <= Pt.RECURSIVE_BASE ->
  able m a (n + seg_pages seg) -> 0 <= n ->
  exists m', load_segment a bytes seg m = Ok m' /\ unchanged m m' a (span_lo seg) (span_hi seg) /\
    loaded m' a bytes seg (span_lo seg) (span_hi seg) /\ able m' a n.
Proof.
  intros Hs Hby Hl Hp Htop Hab Hn0; pose proof Hs as [Hv Hf _]; pose proof (span_bounds seg Hp ltac:(lia)) as (Hlo & Hhi & Hml & Hmh & Hle).
  destruct Hp as [Hp1 Hp2]; unfold load_segment, KZERO in *.
  rewrite bind_uadd by (rewrite W64_val; lia).
  rewrite page_up_eval by (rewrite ?W64_val; lia); fold (span_hi seg); cbn [mbind res_bind].
  rewrite page_down_eval by (unfold is_u; rewrite W64_val; lia); fold (span_lo seg).
  apply load_pages_spec; auto; try lia; [rewrite W64_val; lia|].
  change PAGE_SIZE_4K with 4096; Z.to_euclidean_division_equations; lia.
Qed.

Definition covered (segs : list Segment) (v : Z) : Prop := exists s, s ∈ segs /\ span_lo s <= v < span_hi s.

Lemma pages_of_nonneg segs : Forall seg_placed segs -> Forall (fun s => 0 <= memsz s) segs -> 0 <= pages_of segs.
Proof.
  induction 1 as [|s segs Hs _ IH]; intros Hm; [done|]; apply Forall_cons in Hm as [Hm Hms]; cbn [pages_of foldr].
  pose proof (span_bounds s Hs Hm); assert (0 <= seg_pages s) by (apply Z.div_pos; lia).
  specialize (IH Hms); unfold pages_of in IH; lia.
Qed.

Lemma load_segments_spec a bytes segs : forall m n, Forall (seg_sane bytes) segs -> bytes_ok bytes -> len bytes < W64 ->
  placed [] segs -> Forall (fun s => span_hi s <= Pt.RECURSIVE_BASE) segs -> able m a (n + pages_of segs) -> 0 <= n ->
  exists m', load_segments a bytes segs m = Ok m' /\
    (forall a', aspace_ok m a' -> aspace_ok m' a' /\ forall v, user_va v -> ~ (a' = a /\ covered segs v) ->
       user_byte m' a' v = user_byte m a' v /\ user_entry m' a' v = user_entry m a' v) /\
    Forall (fun s => loaded m' a bytes s (span_lo s) (span_hi s)) segs /\ able m' a n.
Proof.
  induction segs as [|seg segs IH]; intros m n Hs Hby Hl Hp Htop Hab Hn0; cbn [load_segments].
  { exists m; split_and!; auto; eapply able_weaken; [exact Hab|cbn; lia]. }
  apply Forall_cons in Htop as [Ht Htop]; destruct Hp as (Hpl & Hsort & _); apply Forall_cons in Hpl as [Hpl Hpls]; apply Forall_cons in Hs as [Hs Hss].
  inversion Hsort as [|? ? Hsort' Hap]; subst.
  assert (Hpn : 0 <= pages_of segs).
  { apply pages_of_nonneg; [done|]; eapply Forall_impl; [exact Hss|]; intros s [_ ? _]; lia. }
  destruct (load_segment_spec a bytes seg m (n + pages_of segs) Hs Hby Hl Hpl Ht) as (m1 & -> & Hu1 & Hl1 & Hab1);
    [eapply able_weaken; [exact Hab|cbn [pages_of foldr]; unfold pages_of; lia]|lia|]; cbn [mbind res_bind].
  destruct (IH m1 n Hss Hby Hl) as (m2 & -> & Hu2 & Hl2 & Hab2); [|done|done|done|].
  { split_and!; auto; apply Forall_forall; intros; constructor. }
  exists m2; split_and!; [done| |constructor; [|done]|done].
  - intros a' Ha; destruct (Hu1 a' Ha) as [Ha1 Hs1]; destruct (Hu2 a' Ha1) as [Ha2 Hs2]; split; [done|]; intros v Hv Hn.
    destruct (Hs2 v Hv) as [-> ->]; [intros [? (s & Hin & Hr)]; apply Hn; split; [done|]; exists s; split; [by right|done]|].
    apply Hs1; [done|]; intros [? ?]; apply Hn; split; [done|]; exists seg; split; [left|done].
  - intros v Hv; destruct (Hu2 a (proj1 Hab1)) as [_ Hs2]; pose proof (span_bounds seg Hpl (Z.le_trans _ _ _ (proj1 (sn_sizes _ _ Hs)) (proj2 (sn_sizes _ _ Hs)))).
    destruct (Hs2 v) as [-> ->]; [unfold user_va; lia| |by apply Hl1].
    intros [_ (s & Hin & Hr)]; rewrite Forall_forall in Hap; specialize (Hap s Hin); unfold apart in Hap; lia.
Qed.

(** A page of the stack. *)
Definition in_stack (base : Z) (ps : list Z) (v : Z) : Prop := exists p, p ∈ ps /\ base + p * 4096 <= v < base + p * 4096 + 4096.

Lemma map_stack_spec a base ps : forall m n, 0 <= base -> base mod 4096 = 0 ->
  Forall (fun p => 0 <= p /\ base + p * 4096 + 4096 <= Pt.RECURSIVE_BASE) ps -> able m a (n + len ps) -> 0 <= n ->
  exists m', map_stack a base ps m = Ok m' /\
    (forall a', aspace_ok m a' -> aspace_ok m' a' /\ forall v, user_va v -> ~ (a' = a /\ in_stack base ps v) ->
       user_byte m' a' v = user_byte m a' v /\ user_entry m' a' v = user_entry m a' v) /\
    (NoDup ps -> forall p v, p ∈ ps -> base + p * 4096 <= v < base + p * 4096 + 4096 ->
       is_Some (user_byte m' a v) /\ user_entry m' a v = Some Pt.rw_user_data) /\ able m' a n.
Proof.
  induction ps as [|p ps IH]; intros m n Hb Hbm Hps Hab Hn0; cbn [map_stack].
  { exists m; split_and!; auto; [intros _ q v Hq; inversion Hq|eapply able_weaken; [exact Hab|unfold len; simpl; lia]]. }
  apply Forall_cons in Hps as [[Hp Hend] Hps]; unfold Pt.RECURSIVE_BASE in Hend; change PAGE_SIZE_4K with 4096.
  rewrite bind_umul by (rewrite W64_val; lia); rewrite bind_uadd by (rewrite W64_val; lia).
  pose proof (len_nonneg ps) as Hln.
  destruct (able_map m a (n + len ps) Pt.rw_user_data (base + p * 4096)) as (k & m1 & -> & Hab1 & _ & Hu1 & Hin).
  { eapply able_weaken; [exact Hab|unfold len; cbn [length]; lia]. }
  { lia. }
  { unfold user_pg, Pt.RECURSIVE_BASE; rewrite Z.mod_add by lia; split_and!; [lia|lia|done]. }
  { by right. }
  cbn [mbind res_bind].
  destruct (IH m1 n Hb Hbm Hps Hab1 Hn0) as (m2 & -> & Hu2 & Hl2 & Hab2); exists m2; split_and!; [done| | |done].
  - intros a' Ha; destruct (Hu1 a' Ha) as [Ha1 Hs1]; destruct (Hu2 a' Ha1) as [Ha2 Hs2]; split; [done|]; intros v Hv Hn.
    destruct (Hs2 v Hv) as [-> ->]; [intros [? (q & Hq & Hr)]; apply Hn; split; [done|]; exists q; split; [by right|done]|].
    apply Hs1; [done|]; intros [? ?]; apply Hn; split; [done|]; exists p; split; [left|done].
  - intros Hnd q v Hq Hv; inversion Hnd as [|? ? Hni Hnd']; subst; apply elem_of_cons in Hq as [->|Hq]; [|by eapply Hl2].
    destruct (Hu2 a (proj1 Hab1)) as [_ Hs2]; destruct (Hs2 v) as [-> ->]; [unfold user_va, Pt.RECURSIVE_BASE; lia| |by apply Hin].
    intros [_ (q & Hq & Hr)]; assert (q = p) by lia; subst; done.
Qed.

Lemma segments_sane bytes : bytes_ok bytes -> elf_ok bytes ->
  Forall (seg_sane bytes) (segment_at bytes <$> load_headers bytes).
Proof.
  intros Hb Hok; pose proof (ok_segments _ Hok) as Hs; rewrite Forall_forall in *.
  intros seg Hin; destruct (Hs seg Hin) as [H1 H2]; apply list_elem_of_fmap in Hin as (b & -> & _).
  cbn [segment_at vaddr filesz memsz offset] in *.
  pose proof (field64 bytes Hb (b + 16)); pose proof (field64 bytes Hb (b + 32)); pose proof (field64 bytes Hb (b + 8)).
  split; cbn [segment_at vaddr filesz memsz offset]; lia.
Qed.

(** What the loader leaves behind. *)
Record image_loaded (bytes : list Z) (segs : list Segment) (m m' : M) (l : LoadedElf) : Prop := {
  il_entry : l_entry l = field bytes 24 8;
  il_segments : Forall (fun s => loaded m' (l_aspace l) bytes s (span_lo s) (span_hi s)) segs;
  il_stack : forall v, l_heap_base l - 65536 <= v < l_heap_base l ->
    is_Some (user_byte m' (l_aspace l) v) /\ user_entry m' (l_aspace l) v = Some Pt.rw_user_data;
  il_above : Forall (fun s => span_hi s <= l_heap_base l - 65536) segs;
  il_tight : exists s, s ∈ segs /\ l_heap_base l = span_hi s + 65536;
  il_sp : l_user_sp l = l_heap_base l - 16;
  il_heap : l_heap_base l mod 4096 = 0;
  il_fresh : ~ aspace_ok m (l_aspace l) /\ aspace_ok m' (l_aspace l);
  il_others : forall a', aspace_ok m a' -> aspace_ok m' a' /\ forall v, user_va v ->
    user_byte m' a' v = user_byte m a' v /\ user_entry m' a' v = user_entry m a' v;
}.

Lemma stack_page p base v : 0 <= p -> base <= v < base + 65536 -> p = (v - base) / 4096 ->
  p < 16 /\ base + p * 4096 <= v < base + p * 4096 + 4096.
Proof. intros Hp Hv ->; Z.to_euclidean_division_equations; lia. Qed.

(** The part of [load_elf] after the checks. *)
Lemma load_checked bytes segs m top n : Forall (seg_sane bytes) segs -> bytes_ok bytes -> len bytes < W64 -> placed [] segs ->
  mem_ok m -> 4 + 7 * (n + STACK_PAGES + pages_of segs) <= free_pages m -> 0 <= n ->
  0 <= top -> top + 65536 <= Pt.RECURSIVE_BASE -> top mod 4096 = 0 -> Forall (fun s => span_hi s <= top) segs ->
  exists a m1 m2 m3, new_aspace m = Ok (a, m1) /\ load_segments a bytes segs m1 = Ok m2 /\
    page_up top = Ok top /\ map_stack a top (seqZ 0 STACK_PAGES) m2 = Ok m3 /\
    Forall (fun s => loaded m3 a bytes s (span_lo s) (span_hi s)) segs /\
    (forall v, top <= v < top + 65536 -> is_Some (user_byte m3 a v) /\ user_entry m3 a v = Some Pt.rw_user_data) /\
    ~ aspace_ok m a /\
    (forall a', aspace_ok m a' -> aspace_ok m3 a' /\ forall v, user_va v -> user_byte m3 a' v = user_byte m a' v /\ user_entry m3 a' v = user_entry m a' v) /\
    able m3 a n.
Proof.
  intros Hsane Hby Hlen Hpl Hmem Hfree Hn0 Ht0 Htk Htm Habove.
  assert (Hms : Forall (fun s => 0 <= memsz s) segs) by (eapply Forall_impl; [exact Hsane|]; intros s [_ ? _]; lia).
  assert (Hpn : 0 <= pages_of segs) by (apply pages_of_nonneg; [apply Hpl|done]).
  destruct (new_aspace_ok m Hmem) as (a & m1 & Hnew & Hok1 & Hf1 & Hnot & Hu1); [unfold STACK_PAGES in Hfree; lia|].
  destruct (load_segments_spec a bytes segs m1 (n + STACK_PAGES) Hsane Hby Hlen Hpl) as (m2 & Hm2 & Hu2 & Hl2 & Hab2);
    [eapply Forall_impl; [exact Habove|]; cbn beta; intros; lia|split; [done|lia]|unfold STACK_PAGES; lia|].
  destruct (map_stack_spec a top (seqZ 0 STACK_PAGES) m2 n Ht0 Htm) as (m3 & Hm3 & Hu3 & Hl3 & Hab3); [|done|done|].
  { apply Forall_seqZ; unfold STACK_PAGES; intros; lia. }
  exists a, m1, m2, m3; split_and!; auto.
  - rewrite page_up_eval by (unfold Pt.RECURSIVE_BASE in *; rewrite ?W64_val; lia); f_equal.
    Z.to_euclidean_division_equations; lia.
  - destruct Hpl as (Hpl & _); rewrite Forall_forall in *; intros s Hin v Hv; specialize (Habove s Hin); simpl in Habove.
    pose proof (span_bounds s (Hpl s Hin) (Hms s Hin)); destruct (Hu3 a (proj1 Hab2)) as [_ Hs3].
    destruct (Hs3 v) as [-> ->]; [unfold user_va; lia| |by apply Hl2].
    intros [_ (q & Hq & Hr)]; apply elem_of_seqZ in Hq; lia.
  - intros v Hv; assert (0 <= (v - top) / 4096) by (apply Z.div_pos; lia).
    destruct (stack_page ((v - top) / 4096) top v) as [Hp1 Hp2]; auto.
    apply (Hl3 (NoDup_seqZ 0 STACK_PAGES) ((v - top) / 4096)); [apply elem_of_seqZ; unfold STACK_PAGES; lia|done].
  - intros a' Ha; assert (a' <> a) by (intros ->; done).
    destruct (Hu1 a' Ha) as [Ha1 Hs1]; destruct (Hu2 a' Ha1) as [Ha2 Hs2]; destruct (Hu3 a' Ha2) as [Ha3 Hs3]; split; [done|]; intros v Hv.
    destruct (Hs3 v Hv) as [-> ->]; [by intros [? _]|]; destruct (Hs2 v Hv) as [-> ->]; [by intros [? _]|]; apply Hs1; [done|by intros [? _]].
Qed.

Lemma load_elf_spec bytes m n : let segs := segment_at bytes <$> load_headers bytes in
  bytes_ok bytes -> len bytes < 2 ^ 63 -> symtabs_fit bytes -> elf_ok bytes ->
  placed [] segs -> Forall (fun s => span_hi s + 65536 <= Pt.RECURSIVE_BASE) segs ->
  entry_ok (field bytes 24 8) segs -> mem_ok m -> 4 + 7 * (n + STACK_PAGES + pages_of segs) <= free_pages m -> 0 <= n ->
  exists l m', load_elf bytes m = Ok (l, m') /\ image_loaded bytes segs m m' l /\ able m' (l_aspace l) n.
Proof.
  intros segs Hb Hl Hfit Hok Hpl Hroom Hent Hmem Hfree Hn0; pose proof (segments_sane bytes Hb Hok) as Hsane; fold segs in Hsane.
  assert (HW : len bytes < W64) by (rewrite W64_val; lia).
  unfold load_elf; destruct (parse_spec bytes Hb Hl Hfit) as (r & -> & Hr); cbn [mbind res_bind].
  destruct r as [image|e]; [|done]; destruct Hr as (_ & Hentry & Hsegs & _); rewrite Hsegs, Hentry; fold segs.
  assert (Hpos : Forall (fun s => 0 <= vaddr s /\ 0 <= memsz s) segs).
  { eapply Forall_impl; [exact Hsane|]; intros s [? ? ?]; split; lia. }
  destruct (check_placement_spec segs [] 0 ltac:(lia) Hpos ltac:(constructor)) as [Hcp _].
  destruct (Hcp Hpl) as (top & -> & Ht0 & Habove & Htop); cbn [mbind res_bind].
  assert (Hplf : Forall seg_placed segs) by apply Hpl.
  assert (Htight : exists s, s ∈ segs /\ top = span_hi s).
  { destruct Htop as [->|?]; [|done]; destruct Hent as (s & Hin & _ & Hr); rewrite Forall_forall in Habove, Hplf, Hpos.
    pose proof (Habove s Hin) as H1; pose proof (Hpos s Hin) as H2; pose proof (span_bounds s (Hplf s Hin) (proj2 H2)).
    simpl in H1; lia. }
  assert (Htop' : top + 65536 <= Pt.RECURSIVE_BASE /\ top mod 4096 = 0).
  { destruct Htop as [->|(s & Hin & ->)]; [by unfold Pt.RECURSIVE_BASE|]; rewrite Forall_forall in Hroom, Hplf, Hpos.
    split; [by apply Hroom|]; apply (span_bounds s); [by apply Hplf|by apply Hpos]. }
  destruct (entry_in_segment_spec (field bytes 24 8) segs) as (b & -> & Hbi).
  { eapply Forall_impl; [exact Hplf|]; intros s [_ ?]; unfold KZERO in *; rewrite W64_val; lia. }
  apply Hbi in Hent; subst b; cbn [mbind res_bind assert].
  destruct (load_checked bytes segs m top n Hsane Hb HW Hpl Hmem Hfree Hn0 Ht0 (proj1 Htop') (proj2 Htop') Habove)
    as (a & m1 & m2 & m3 & -> & H2 & H3 & H4 & H5 & H6 & Hnot & H7 & H8); cbn [mbind res_bind].
  rewrite H2; cbn [mbind res_bind]; rewrite H3; cbn [mbind res_bind]; rewrite H4; cbn [mbind res_bind].
  change (STACK_PAGES * PAGE_SIZE_4K) with 65536.
  rewrite bind_uadd by (unfold Pt.RECURSIVE_BASE in *; rewrite W64_val; lia); rewrite bind_usub by lia.
  eexists _, m3; split; [reflexivity|]; split; [|exact H8]; split; cbn [l_entry l_aspace l_user_sp l_heap_base]; auto.
  - intros v Hv; apply H6; lia.
  - eapply Forall_impl; [exact Habove|]; cbn beta; intros s Hs; lia.
  - destruct Htight as (s & Hin & ->); by exists s.
  - destruct Htop' as [_ Hm]; Z.to_euclidean_division_equations; lia.
  - split; [done|apply H8].
Qed.

End loading.

(** ** [SYS_SPAWN] *)

Section spawning.
Context {A M : Type} `{!LoaderOps A M, !LoaderLaws A M, !UserMem A M, !UserMemLaws A M}.
Implicit Types m : M.

Lemma child_state_len (k : Kernel A M) va st : child_state k va = Ok (Some st) -> len st = 4096 /\ bytes_ok st.
Proof.
  unfold child_state; destruct (va =? 0).
  { intros H; apply (f_equal (fun x => match x with Ok (Some y) => y | _ => [] end)) in H; cbv beta iota in H; rewrite <- H.
    split; [unfold len; by rewrite length_replicate|by apply Forall_replicate]. }
  unfold read_user; change (Z.min PAGE_SIZE_4K PAGE_SIZE_4K) with PAGE_SIZE_4K; change (PAGE_SIZE_4K =? 0) with false; cbv iota.
  destruct (range_ok _ _ _ _) as [ok| |]; cbn [mbind res_bind]; [|done..]; destruct (negb ok); [done|]; destruct (ttbr0 (sched k)) as [a|]; [|done].
  destruct (load (mem k) a va PAGE_SIZE_4K) as [bs| |] eqn:E; cbn [mbind res_bind]; [|done..]; case_match; [done|]; intros [= <-].
  split; [by eapply load_len|by eapply load_bytes].
Qed.

(** Mapping a page above the heap leaves the image as it is. *)
Lemma image_loaded_extra bytes segs m m1 m2 l lo hi : image_loaded bytes segs m m1 l ->
  unchanged m1 m2 (l_aspace l) lo hi -> l_heap_base l <= lo -> l_heap_base l <= Pt.RECURSIVE_BASE ->
  Forall (fun s => 0 <= span_lo s) segs -> 65536 <= l_heap_base l -> image_loaded bytes segs m m2 l.
Proof.
  intros [H1 H2 H3 H4 H5 H6 H7 [Hn Hf] H8] Hu Hlo Htop Hpos Hh; destruct (Hu _ Hf) as [Hf2 Hs]; split; auto.
  - rewrite Forall_forall in *; intros s Hin; specialize (H4 s Hin); specialize (Hpos s Hin); simpl in H4, Hpos.
    eapply loaded_unchanged; [exact Hf|exact Hpos|lia|by apply H2|exact Hu|left; lia].
  - intros v Hv; destruct (Hs v) as [-> ->]; [unfold user_va; lia|intros [_ ?]; lia|by apply H3].
  - intros a' Ha; destruct (H8 a' Ha) as [Ha1 Hs1]; destruct (Hu a' Ha1) as [Ha2 Hs2]; split; [done|]; intros v Hv.
    destruct (Hs2 v Hv) as [-> ->]; [intros [-> _]; done|by apply Hs1].
Qed.

(** A page mapped and filled through its kernel pointer. *)
Lemma filled_page a n e va m st : able m a (n + 1) -> 0 <= n -> user_pg va -> e = Pt.ro_user_text \/ e = Pt.rw_user_data ->
  len st = 4096 -> bytes_ok st ->
  exists k m1 m2, expect_page (map_user_page a e va m) = Ok (k, m1) /\ kstore m1 k st = Ok m2 /\
    unchanged m m2 a va (va + 4096) /\ forall v, va <= v < va + 4096 -> user_byte m2 a v = st !! Z.to_nat (v - va).
Proof.
  intros Hab Hn Hva He Hst Hby; destruct (able_map m a n e va Hab Hn Hva He) as (k & m1 & Hmap & Hab1 & Hk & Hu & _).
  destruct (able_store m1 a n k va 0 st Hab1 Hk) as (m2 & Hs & _ & _ & Hu2 & Hb); [lia|lia|done|]; rewrite Hst, !Z.add_0_r in *.
  exists k, m1, m2; split_and!; auto; [by eapply unchanged_trans|].
  intros v Hv; destruct (Hb v Hv) as [-> _]; do 2 f_equal; lia.
Qed.

Lemma try_install_spec (trapret : Z) (s : Sched A) asp elr sp hb pr sy :
  hb mod 4096 = 0 -> 0 <= hb < KZERO ->
  exists o s', Proc.try_install trapret s asp elr sp hb pr sy = Ok (o, s') /\
    o = Proc.position Proc.free_slot s /\
    match o with
    | Some id => (exists p, Proc.slot s' id = Some p /\ state p = Runnable /\ prio p = Prio.new pr /\
          aspace p = asp /\ heap_base p = hb /\ heap_brk p = hb /\ heap_hwm p = hb /\ sym p = sy) /\
        forall j, j <> id -> Proc.slot s' j = Proc.slot s j
    | None => s' = s
    end.
Proof.
  intros Hm Hk; unfold Proc.try_install; destruct (Proc.position Proc.free_slot s) as [id|] eqn:E.
  2:{ by exists None, s. }
  destruct (Proc.forkret_context trapret (kstacks s) id elr sp) as [km ctx].
  unfold Pa.is_multiple_of; change PAGE_SIZE_4K with 4096.
  rewrite (proj2 (Z.ltb_lt _ _)), Hm by lia; cbn [Z.eqb andb assert mbind res_bind].
  pose proof (position_spec Proc.free_slot s) as Hpos; rewrite E in Hpos; destruct Hpos as (o & Hr & _).
  eexists (Some id), _; split; [reflexivity|]; split; [done|]; split.
  - eexists; rewrite slot_put by (simpl; lia); by rewrite Z.eqb_refl.
  - intros j Hj; rewrite slot_put by (simpl; lia); by rewrite (proj2 (Z.eqb_neq _ _)).
Qed.

Lemma sys_spawn_spec (trapret : Z) (reg : Registry) (index va pr : Z) (k : Kernel A M) (img : EmbeddedElf)
    (st : list Z) : let bytes := ebytes img in let segs := segment_at bytes <$> load_headers bytes in
  lookup_image reg index = Some img -> 0 <= pr <= 254 -> child_state k va = Ok (Some st) ->
  bytes_ok bytes -> len bytes < 2 ^ 63 -> symtabs_fit bytes -> elf_ok bytes -> placed [] segs ->
  Forall (fun s => span_hi s + 65536 <= HANDLES_VA) segs -> entry_ok (field bytes 24 8) segs -> mem_ok (mem k) ->
  4 + 7 * (1 + STACK_PAGES + pages_of segs) <= free_pages (mem k) ->
  exists r k' l, sys_spawn trapret reg index va pr k = Ok (r, k') /\
    image_loaded bytes segs (mem k) (mem k') l /\
    (forall v, HANDLES_VA <= v < HANDLES_VA + 4096 ->
       user_byte (mem k') (l_aspace l) v = st !! Z.to_nat (v - HANDLES_VA)) /\
    match Proc.position Proc.free_slot (sched k) with
    | Some id => r = id /\ (forall j, j <> id -> Proc.slot (sched k') j = Proc.slot (sched k) j) /\
        exists p, Proc.slot (sched k') id = Some p /\ state p = Runnable /\ prio p = Prio.new pr /\
          aspace p = l_aspace l /\ heap_base p = l_heap_base l /\ sym p = symref (ebytes img) l
    | None => r = SPAWN_NO_SLOT /\ sched k' = sched k
    end.
Proof.
  intros bytes segs Hlk Hpr Hst Hb Hl Hfit Hok Hpl Hbelow Hent Hmem Hfree.
  destruct (load_elf_spec bytes (mem k) 1 Hb Hl Hfit Hok Hpl) as (l & m1 & Hld & Him & Hab); auto; [|lia|].
  { eapply Forall_impl; [exact Hbelow|]; cbn beta; unfold HANDLES_VA, Pt.RECURSIVE_BASE; intros; lia. }
  pose proof (il_heap _ _ _ _ _ Him) as Hhm; pose proof (segments_sane bytes Hb Hok) as Hss; fold segs in Hss.
  assert (Hspan : Forall (fun s => 0 <= span_lo s /\ 0 <= span_hi s) segs).
  { destruct Hpl as (Hpl & _); rewrite Forall_forall in *; intros s Hin; pose proof (Hss s Hin) as [? ? _]; pose proof (span_bounds s (Hpl s Hin) ltac:(lia)); lia. }
  assert (Hhb : 65536 <= l_heap_base l <= HANDLES_VA).
  { destruct (il_tight _ _ _ _ _ Him) as (s & Hin & ->); rewrite Forall_forall in Hbelow, Hspan.
    specialize (Hbelow s Hin); specialize (Hspan s Hin); simpl in *; lia. }
  unfold sys_spawn; rewrite Hlk, (proj2 (Z.leb_le _ _)), Hst by lia; cbn [negb mbind res_bind].
  fold bytes; rewrite Hld; cbn [mbind res_bind]; destruct (child_state_len k va st Hst) as [Hstl Hstb].
  destruct (filled_page (l_aspace l) 0 Pt.rw_user_data HANDLES_VA m1 st Hab) as (kp & m2 & m3 & -> & Hfill & Hu & Hbytes);
    [lia|by vm_compute|by right|done|done|].
  cbn [mbind res_bind]; rewrite Hfill; cbn [mbind res_bind].
  destruct (try_install_spec trapret (sched k) (l_aspace l) (l_entry l) (l_user_sp l) (l_heap_base l) pr (symref bytes l))
    as (o & s' & -> & -> & Ho); [done|unfold HANDLES_VA, KZERO in *; lia|]; cbn [mbind res_bind].
  eexists _, _, l; split; [reflexivity|]; cbn [set_mem set_sched mem sched]; split_and!; [|exact Hbytes|].
  - eapply image_loaded_extra; [exact Him|exact Hu|lia|unfold HANDLES_VA, Pt.RECURSIVE_BASE in *; lia| |lia].
    eapply Forall_impl; [exact Hspan|]; cbn beta; lia.
  - destruct (Proc.position Proc.free_slot (sched k)) as [id|]; [|done].
    destruct Ho as [(p & Hp & H1 & H2 & H3 & H4 & _ & _ & H5) Hoth]; split_and!; auto; exists p; split_and!; auto.
Qed.

End spawning.

(** ** A concrete memory

    Address spaces are numbered in order of creation; each mapping takes the
    next kernel page, and one free page. *)
Module LdDemo.

Record lmem := {
  spaces : Z;
  budget : Z;
  next_k : Z;
  kpages : gmap Z (Z * Z);
  bytes_of : Z -> Z -> option Z;
  entry_of : Z -> Z -> option Pt.Entry;
}.

Definition in_range (a lo n a' v : Z) : bool := (a' =? a) && (lo <=? v) && (v <? lo + n).

Definition set_bytes (f : Z -> Z -> option Z) (a lo : Z) (bs : list Z) (a' v : Z) : option Z :=
  if in_range a lo (len bs) a' v then bs !! Z.to_nat (v - lo) else f a' v.

#[export] Instance lmem_ops : LoaderOps Z lmem := {
  new_aspace m :=
    if budget m <? 1 then Panic else
    Ok (spaces m, {| spaces := spaces m + 1; budget := budget m - 1; next_k := next_k m; kpages := kpages m;
                     bytes_of := bytes_of m; entry_of := entry_of m |});
  map_user_page a e va m :=
    if budget m <? 1 then Ok (Err UnableToMap, m) else
    Ok (Val (next_k m * 4096),
      {| spaces := spaces m; budget := budget m - 1; next_k := next_k m + 1; kpages := <[next_k m := (a, va)]> (kpages m);
         bytes_of := fun a' v => if in_range a va 4096 a' v then Some 0xff else bytes_of m a' v;
         entry_of := fun a' v => if in_range a va 4096 a' v then Some e else entry_of m a' v |});
  kstore m k bs :=
    match kpages m !! (k / 4096) with
    | Some (a, va) =>
        Ok {| spaces := spaces m; budget := budget m; next_k := next_k m; kpages := kpages m;
              bytes_of := set_bytes (bytes_of m) a (va + k mod 4096) bs; entry_of := entry_of m |}
    | None => if bool_decide (bs = []) then Ok m else Panic
    end;
  user_byte m := bytes_of m;
  user_entry m := entry_of m;
  kpage m k a va := k mod 4096 = 0 /\ kpages m !! (k / 4096) = Some (a, va);
  free_pages := budget;
  mem_ok _ := True;
  aspace_ok m a := a < spaces m;
}.

Lemma in_range_true a lo n a' v : in_range a lo n a' v = true <-> a' = a /\ lo <= v < lo + n.
Proof.
  unfold in_range; destruct (Z.eqb_spec a' a), (Z.leb_spec lo v), (Z.ltb_spec v (lo + n)); simpl; naive_solver lia.
Qed.

Lemma in_range_false a lo n a' v : ~ (a' = a /\ lo <= v < lo + n) -> in_range a lo n a' v = false.
Proof. rewrite <- in_range_true; by destruct (in_range a lo n a' v). Qed.

#[export] Instance lmem_laws : LoaderLaws Z lmem.
Proof.
  split; simpl.
  - intros m _ Hf; rewrite (proj2 (Z.ltb_ge _ _)) by lia; eexists _, _; split; [done|]; simpl; split_and!; [lia|lia|lia|].
    intros a' Ha; simpl in *; split; [lia|done].
  - intros a e va m Ha Hp _ Hf; rewrite (proj2 (Z.ltb_ge _ _)) by lia; eexists _, _; split; [done|]; simpl.
    rewrite Z.mod_mul, Z.div_mul, lookup_insert_eq by lia; split_and!; [lia|done|done| |].
    + intros a' Ha'; split; [done|]; intros v Hv Hn; simpl; by rewrite in_range_false.
    + intros v Hv; rewrite (proj2 (in_range_true _ _ _ _ _)) by done; split; [by eexists|done].
  - intros m k a va off bs Ha [Hm Hk] H0 Hle _.
    destruct (decide (off = 4096)) as [->|Hne].
    + assert (bs = []) as -> by (destruct bs; [done|unfold len in Hle; simpl in Hle; lia]).
      destruct (kpages m !! ((k + 4096) / 4096)) as [[a1 va1]|]; (eexists; split; [reflexivity|]); simpl; split_and!; auto;
        try (intros v Hv; unfold len in Hv; simpl in Hv; lia).
      * intros a' Ha'; split; [done|]; intros v Hv _; simpl; unfold set_bytes; rewrite in_range_false; [done|unfold len; simpl; lia].
      * intros a' Ha'; by split.
    + assert (off < 4096) by (pose proof (len_nonneg bs); lia).
      replace ((k + off) / 4096) with (k / 4096) by (Z.to_euclidean_division_equations; lia).
      rewrite Hk; eexists; split; [reflexivity|]; simpl; replace ((k + off) mod 4096) with off by (Z.to_euclidean_division_equations; lia).
      unfold set_bytes; split_and!; auto.
      * intros a' Ha'; split; [done|]; intros v Hv Hn; simpl; by rewrite in_range_false.
      * intros v Hv; rewrite (proj2 (in_range_true _ _ _ _ _)) by (split; [done|lia]).
        by replace (v - (va + off)) with (v - va - off) by lia.
Qed.

#[export] Instance lmem_user : UserMem Z lmem := {
  user_range_ok m a va n w := Ok (forallb (fun i => bool_decide (is_Some (bytes_of m a (va + i)))) (seqZ 0 n));
  load m a va n := Ok ((fun i => default 0 (bytes_of m a (va + i)) mod W8) <$> seqZ 0 n);
  store m a va bs := Ok {| spaces := spaces m; budget := budget m; next_k := next_k m; kpages := kpages m;
                        bytes_of := set_bytes (bytes_of m) a va bs; entry_of := entry_of m |};
  map_mmio a r va m := Ok (Err UnableToMap, m);
  plain _ _ _ _ := True;
}.

#[export] Instance lmem_user_laws : UserMemLaws Z lmem.
Proof.
  split; simpl.
  - intros m a va n bs Hn [= <-]; unfold len; rewrite length_fmap, length_seqZ; lia.
  - intros m a va n bs [= <-]; apply Forall_forall; intros x (i & -> & _)%list_elem_of_fmap; apply Z.mod_pos_bound; done.
  - intros m a va bs _ _ Hb; eexists; split; [reflexivity|]; f_equal; apply list_eq; intros i; rewrite list_lookup_fmap.
    destruct (decide (i < length bs)%nat) as [Hi|Hi].
    + rewrite lookup_seqZ_lt by (unfold len; lia); cbn [fmap option_fmap option_map].
      cbn [bytes_of]; unfold set_bytes; rewrite (proj2 (in_range_true _ _ _ _ _)) by (unfold len; lia).
      replace (Z.to_nat (va + (0 + Z.of_nat i) - va)) with i by lia.
      destruct (lookup_lt_is_Some_2 bs i Hi) as [x Hx]; rewrite Hx; cbn [default]; f_equal.
      apply Z.mod_small, (proj1 (Forall_lookup _ _) Hb i x Hx).
    + rewrite lookup_seqZ_ge by (unfold len; lia); by rewrite lookup_ge_None_2 by lia.
Qed.

Definition fresh : lmem :=
  {| spaces := 0; budget := 150; next_k := 0; kpages := ∅; bytes_of := fun _ _ => None; entry_of := fun _ _ => None |}.

(** The unit tests' executable, moved to the image base. *)
Definition image : list Z :=
  ElfDemo.put 24 8 0x100010
    (ElfDemo.phdr 120 6 272 0x102000 0x10 0x100 (ElfDemo.phdr 64 5 176 0x100000 0x100 0x100 ElfDemo.valid_elf)).

Definition image_segs : list Segment :=
  [ {| vaddr := 0x100000; offset := 176; filesz := 0x100; memsz := 0x100; exec := true |};
    {| vaddr := 0x102000; offset := 272; filesz := 0x10; memsz := 0x100; exec := false |} ].

Lemma image_headers : segment_at image <$> load_headers image = image_segs.
Proof. vm_compute; reflexivity. Qed.

Lemma image_bytes : bytes_ok image.
Proof.
  apply Forall_forall; intros x Hx.
  assert (H : forallb (fun b => (0 <=? b) && (b <? 256)) image = true) by (vm_compute; reflexivity).
  rewrite forallb_forall in H; apply list_elem_of_In in Hx; specialize (H x Hx); bsplit; split; [lia|].
  change W8 with 256; lia.
Qed.

Lemma image_fit : symtabs_fit image.
Proof. intros i Hi; assert (H0 : shnum_of image = 0) by (vm_compute; reflexivity); lia. Qed.

Lemma image_ok : elf_ok image.
Proof.
  split.
  - vm_compute; discriminate.
  - vm_compute; reflexivity.
  - vm_compute; reflexivity.
  - vm_compute; reflexivity.
  - vm_compute; reflexivity.
  - intros _; split; [vm_compute; reflexivity|vm_compute; discriminate].
  - rewrite image_headers; repeat constructor; vm_compute; discriminate.
  - split; vm_compute; discriminate.
  - intros H; vm_compute in H; discriminate.
Qed.

Lemma image_placed : placed [] (segment_at image <$> load_headers image).
Proof.
  rewrite image_headers; split_and!.
  - repeat constructor; vm_compute; discriminate.
  - apply SSorted_cons; [apply SSorted_cons; [apply SSorted_nil|by apply Forall_nil]|].
    apply Forall_singleton; left; vm_compute; discriminate.
  - repeat constructor.
Qed.

Lemma image_entry : entry_ok (field image 24 8) (segment_at image <$> load_headers image).
Proof.
  rewrite image_headers; eexists; split; [left|]; split; [reflexivity|].
  split; [vm_compute; discriminate|vm_compute; reflexivity].
Qed.


Definition reg : Registry := register empty_registry [ {| ebytes := image; ename := "init" |} ].

Definition kernel : Kernel Z lmem :=
  {| sched := boot_sched; mem := fresh; channels := ∅; nused := 0; routes := [];
     nirqueued := 0; gic_enabled := []; console := [] |}.


End LdDemo.
