(* ===== verification/Timer.v ===== *)
(** * Timers ([aarch64/src/timer.rs])

    The table of caller-owned timers, the arming of the hardware compare
    register and the interrupt handler.  The timers are statics; a timer is
    named by an identifier that stands for its address.  A callback runs in the
    handler and may change the whole machine, so the operations are written
    over a world that contains the timers. *)

From S2P Require Import Prelude.

Module Tm.

Definition TimerId := Z.

Record Timer := {
  duration : Z;            (** nanoseconds *)
  repeat : bool;
  deadline_ticks : Z;
  period_ticks : Z;
  active : bool;
}.

Definition new (relative : Z) : Timer :=
  {| duration := relative; repeat := false; deadline_ticks := 0; period_ticks := 0; active := false |}.

Definition periodic (period : Z) : Timer :=
  {| duration := period; repeat := true; deadline_ticks := 0; period_ticks := 0; active := false |}.

Definition with_period (t : Timer) (v : Z) : Timer :=
  {| duration := duration t; repeat := repeat t; deadline_ticks := deadline_ticks t; period_ticks := v; active := active t |}.
Definition with_deadline (t : Timer) (v : Z) : Timer :=
  {| duration := duration t; repeat := repeat t; deadline_ticks := v; period_ticks := period_ticks t; active := active t |}.
Definition with_active (t : Timer) (v : bool) : Timer :=
  {| duration := duration t; repeat := repeat t; deadline_ticks := deadline_ticks t; period_ticks := period_ticks t; active := v |}.

Definition MAX_TIMERS : Z := 8.

(** The statics, the table, and the two registers CNTP_CVAL_EL0 and
    CNTP_CTL_EL0.ENABLE. *)
Record Timers := {
  statics : gmap TimerId Timer;
  slots : list (option TimerId);
  cval : Z;
  enabled : bool;
}.

Definition timer (ts : Timers) (id : TimerId) : Timer := default (new 0) (statics ts !! id).

Definition set_timer (ts : Timers) (id : TimerId) (t : Timer) : Timers :=
  {| statics := <[id := t]> (statics ts); slots := slots ts; cval := cval ts; enabled := enabled ts |}.

Definition set_slots (ts : Timers) (l : list (option TimerId)) : Timers :=
  {| statics := statics ts; slots := l; cval := cval ts; enabled := enabled ts |}.

(** ** Conversion of a duration *)

Definition W128 : Z := 2 ^ 128.

Definition duration_to_ticks (freq dur : Z) : res Z :=
  _ ← assert (negb (freq =? 0));
  _ ← assert (dur * freq <? W128);
  Ok ((dur * freq / 1000000000) mod W64).

(** ** The table *)

Definition in_table (ts : Timers) (id : TimerId) : bool :=
  existsb (fun o => bool_decide (o = Some id)) (slots ts).

(** The first slot that is empty or whose timer is not active. *)
Fixpoint take_slot (ts : Timers) (l : list (option TimerId)) (id : TimerId) : option (list (option TimerId)) :=
  match l with
  | [] => None
  | o :: l' =>
      if match o with None => true | Some j => negb (active (timer ts j)) end
      then Some (Some id :: l')
      else cons o <$> take_slot ts l' id
  end.

Definition register (ts : Timers) (id : TimerId) : option Timers :=
  if in_table ts id then Some ts else set_slots ts <$> take_slot ts (slots ts) id.

(** [into_iter().flatten()]. *)
Definition flatten (l : list (option TimerId)) : list TimerId := omap id l.

(** [Iterator::min]. *)
Definition min_list (l : list Z) : option Z :=
  match l with [] => None | x :: l' => Some (foldl Z.min x l') end.

Definition active_deadlines (ts : Timers) : list Z :=
  (fun id => deadline_ticks (timer ts id)) <$> filter (fun id => active (timer ts id) = true) (flatten (slots ts)).

Definition arm_hardware (ts : Timers) : Timers :=
  match min_list (active_deadlines ts) with
  | Some d => {| statics := statics ts; slots := slots ts; cval := d; enabled := true |}
  | None => {| statics := statics ts; slots := slots ts; cval := cval ts; enabled := false |}
  end.

Definition cancel (ts : Timers) (id : TimerId) : Timers := set_timer ts id (with_active (timer ts id) false).

Definition start (freq now : Z) (ts : Timers) (id : TimerId) : res (bool * Timers) :=
  let t := timer ts id in
  ticks ← duration_to_ticks freq (duration t);
  _ ← assert (negb (repeat t) || (0 <? ticks));
  d ← uadd now ticks;
  let ts1 := set_timer ts id (with_active (with_deadline (with_period t ticks) d) true) in
  match register ts1 id with
  | None => Ok (false, set_timer ts1 id (with_active (timer ts1 id) false))
  | Some ts2 => Ok (true, arm_hardware ts2)
  end.

(** ** The interrupt handler *)

(** The world of a callback: the timers, the counter, and [TimerCallback::fire]
    of each timer. *)
Class TimerWorld (W : Type) := {
  timers : W -> Timers;
  put_timers : Timers -> W -> W;
  count : W -> Z;
  fire : TimerId -> W -> bool * W;
}.

Section handler.
Context {W : Type} `{!TimerWorld W}.
Implicit Types w : W.

Definition upd (id : TimerId) (f : Timer -> Timer) (w : W) : W :=
  put_timers (set_timer (timers w) id (f (timer (timers w) id))) w.

(** One timer of the copied table. *)
Definition handle (now : Z) (id : TimerId) (w : W) : res W :=
  let t := timer (timers w) id in
  if negb (active t) then Ok w else
  let deadline := deadline_ticks t in
  if now <? deadline then Ok w else
  if negb (repeat t) then
    if active (timer (timers w) id) then Ok (fire id (upd id (fun t => with_active t false) w)).2 else Ok w
  else
    let period := period_ticks t in
    q ← udiv (now - deadline) period;
    q1 ← uadd q 1;
    a ← umul q1 period;
    next ← uadd deadline a;
    if deadline_ticks (timer (timers w) id) =? deadline then
      let '(keep, w1) := fire id (upd id (fun t => with_deadline t next) w) in
      Ok (if (keep : bool) then w1 else upd id (fun t => with_active t false) w1)
    else Ok w.

Fixpoint handle_all (now : Z) (ids : list TimerId) (w : W) : res W :=
  match ids with
  | [] => Ok w
  | id :: ids' => w1 ← handle now id w; handle_all now ids' w1
  end.

Definition interrupt_handler (w : W) : res W :=
  w1 ← handle_all (count w) (flatten (slots (timers w))) w;
  Ok (put_timers (arm_hardware (timers w1)) w1).
End handler.

(** ** What the handler promises *)

(** What a callback does to the timers, as those of the kernel may: it starts timers
    that run out after [now], and cancels timers. *)
Inductive timer_step (now : Z) (ts : Timers) : Timers -> Prop :=
  | t_start freq now' id ticks ok ts' : now <= now' -> duration_to_ticks freq (duration (timer ts id)) = Ok ticks -> 0 < ticks ->
      start freq now' ts id = Ok (ok, ts') -> timer_step now ts ts'
  | t_cancel id : timer_step now ts (cancel ts id).

Class CallbackLaws (W : Type) `{!TimerWorld W} : Prop := {
  timers_put_any ts (w : W) : timers (put_timers ts w) = ts;
  count_put ts (w : W) : count (put_timers ts w) = count w;
  count_fire id (w : W) : count w <= count (fire id w).2;
  fire_timers id (w : W) : rtc (timer_step (count w)) (timers w) (timers (fire id w).2);
}.

(** The special case of a callback that leaves the timers alone, as the scheduler
    tick does. *)
Class TimerLaws (W : Type) `{!TimerWorld W} : Prop := {
  timers_put ts (w : W) : timers (put_timers ts w) = ts;
  put_put ts ts' (w : W) : put_timers ts (put_timers ts' w) = put_timers ts w;
  put_timers_same (w : W) : put_timers (timers w) w = w;
  fire_frame id ts (w : W) : fire id (put_timers ts w) = ((fire id w).1, put_timers ts (fire id w).2);
}.

Definition due (now : Z) (t : Timer) : bool := active t && (deadline_ticks t <=? now).

(** The first expiry after [now] in phase with the deadline. *)
Definition next_expiry (now : Z) (t : Timer) : Z :=
  deadline_ticks t + ((now - deadline_ticks t) / period_ticks t + 1) * period_ticks t.

(** A due timer after its callback returned [keep]. *)
Definition expired (now : Z) (keep : bool) (t : Timer) : Timer :=
  if repeat t then with_active (with_deadline t (next_expiry now t)) keep else with_active t false.

Definition due_ids (now : Z) (ts : Timers) (ids : list TimerId) : list TimerId :=
  filter (fun id => due now (timer ts id) = true) ids.

(** A periodic timer as [start] leaves it, away from the end of time. *)
Definition timer_ok (now : Z) (t : Timer) : Prop :=
  repeat t = true -> due now t = true -> 0 < period_ticks t /\ 0 <= deadline_ticks t /\ now + period_ticks t < W64.

(** The hardware is armed for the earliest active deadline of the table, or
    disarmed. *)
Definition armed (ts : Timers) : Prop :=
  if enabled ts then
    (exists id, Some id ∈ slots ts /\ active (timer ts id) = true /\ cval ts = deadline_ticks (timer ts id)) /\
    forall id, Some id ∈ slots ts -> active (timer ts id) = true -> cval ts <= deadline_ticks (timer ts id)
  else forall id, Some id ∈ slots ts -> active (timer ts id) = false.

Lemma timer_set ts id t j : timer (set_timer ts id t) j = if decide (j = id) then t else timer ts j.
Proof.
  unfold timer; simpl; case_decide as Hj; [subst; by rewrite lookup_insert_eq|by rewrite lookup_insert_ne].
Qed.

Lemma set_set ts id t t' : set_timer (set_timer ts id t) id t' = set_timer ts id t'.
Proof. unfold set_timer; simpl; by rewrite insert_insert_eq. Qed.

Lemma next_expiry_range now t : 0 < period_ticks t -> deadline_ticks t <= now ->
  now < next_expiry now t <= now + period_ticks t.
Proof.
  intros Hp Hd; unfold next_expiry; pose proof (Z.div_mod (now - deadline_ticks t) (period_ticks t) ltac:(lia)).
  pose proof (Z.mod_pos_bound (now - deadline_ticks t) (period_ticks t) Hp); lia.
Qed.

Lemma elem_of_flatten l id : id ∈ flatten l <-> Some id ∈ l.
Proof. unfold flatten; rewrite list_elem_of_omap; split; [intros ([?|] & ? & [=]); subst; done|]; intros; by exists (Some id). Qed.

Lemma foldl_min l : forall x, foldl Z.min x l <= x /\ (forall y, y ∈ l -> foldl Z.min x l <= y) /\
  (foldl Z.min x l = x \/ foldl Z.min x l ∈ l).
Proof.
  induction l as [|z l IH]; intros x; simpl; [split_and!; [lia|by intros y ?%elem_of_nil|by left]|].
  destruct (IH (Z.min x z)) as (H1 & H2 & H3); split_and!; [lia| |].
  - intros y [->|Hy]%elem_of_cons; [lia|by apply H2].
  - destruct H3 as [H3|H3]; [|by right; right]; rewrite H3.
    destruct (Z.min_spec x z) as [[_ ->]|[_ ->]]; [by left|right; left].
Qed.

Lemma arm_hardware_armed ts : armed (arm_hardware ts).
Proof.
  unfold arm_hardware; assert (Hin : forall id, Some id ∈ slots ts -> active (timer ts id) = true ->
    deadline_ticks (timer ts id) ∈ active_deadlines ts).
  { intros id Hid Ha; apply list_elem_of_fmap; exists id; split; [done|]; apply list_elem_of_filter.
    split; [done|by apply elem_of_flatten]. }
  destruct (active_deadlines ts) as [|x l] eqn:E; cbn [min_list]; unfold armed; cbn [enabled slots cval timer statics].
  - intros id Hid; destruct (active (timer ts id)) eqn:Ha; [|done]; specialize (Hin id Hid Ha); by apply elem_of_nil in Hin.
  - change (timer {| statics := _; slots := _; cval := _; enabled := _ |}) with (timer ts).
    destruct (foldl_min l x) as (H1 & H2 & H3); split.
    + assert (Hm : foldl Z.min x l ∈ active_deadlines ts) by (rewrite E; destruct H3 as [->|]; [left|by right]).
      apply list_elem_of_fmap in Hm as (id & Hd & Hf); apply list_elem_of_filter in Hf as [Ha Hs].
      exists id; split_and!; [by apply elem_of_flatten|done|done].
    + intros id Hid Ha; specialize (Hin id Hid Ha); apply elem_of_cons in Hin as [->|?]; [done|by apply H2].
Qed.

Section correct.
Context {W : Type} `{!TimerWorld W, !TimerLaws W}.
Implicit Types w : W.

(** The callbacks of [ids], in order, with their answers. *)
Fixpoint fire_all (ids : list TimerId) (w : W) : list (TimerId * bool) * W :=
  match ids with
  | [] => ([], w)
  | id :: ids' => let '(keep, w1) := fire id w in let '(l, w2) := fire_all ids' w1 in ((id, keep) :: l, w2)
  end.

Lemma fire_all_frame ids : forall ts w, fire_all ids (put_timers ts w) =
  ((fire_all ids w).1, put_timers ts (fire_all ids w).2).
Proof.
  induction ids as [|id ids IH]; intros ts w; cbn [fire_all]; [done|].
  rewrite fire_frame; destruct (fire id w) as [keep w1]; cbn [fst snd]; rewrite IH.
  by destruct (fire_all ids w1).
Qed.

Lemma fire_all_ids ids : forall w, (fire_all ids w).1.*1 = ids.
Proof.
  induction ids as [|id ids IH]; intros w; cbn [fire_all]; [done|]; destruct (fire id w) as [keep w1].
  specialize (IH w1); destruct (fire_all ids w1) as [l w2]; cbn in *; by rewrite IH.
Qed.

Lemma timers_fire id w : timers (fire id w).2 = timers w.
Proof. rewrite <- (put_timers_same w) at 1; rewrite fire_frame; cbn [snd]; by rewrite timers_put. Qed.

Lemma timers_fire_all ids : forall w, timers (fire_all ids w).2 = timers w.
Proof.
  induction ids as [|id ids IH]; intros w; cbn [fire_all]; [done|].
  pose proof (timers_fire id w) as Hf; destruct (fire id w) as [keep w1]; cbn [snd] in Hf.
  specialize (IH w1); destruct (fire_all ids w1) as [l w2]; cbn [snd] in *; congruence.
Qed.

(** One timer. *)
Lemma handle_spec now id w : timer_ok now (timer (timers w) id) ->
  let t := timer (timers w) id in
  handle now id w = Ok (if due now t
    then put_timers (set_timer (timers w) id (expired now (fire id w).1 t)) (fire id w).2 else w).
Proof.
  intros Hok t; unfold handle; fold t; unfold timer_ok in Hok; fold t in Hok; unfold due in *.
  destruct (active t) eqn:Ha; cbn [negb andb] in *; [|done].
  rewrite Z.ltb_antisym; destruct (Z.leb_spec (deadline_ticks t) now) as [Hd|]; cbn [negb]; [|done].
  assert (Hupd : forall f, fire id (upd id f w) = ((fire id w).1, put_timers (set_timer (timers w) id (f t)) (fire id w).2))
    by (intros f; unfold upd; by rewrite fire_frame).
  destruct (repeat t) eqn:Hr; cbn [negb].
  - destruct (Hok eq_refl eq_refl) as (Hp & Hd0 & Hend); pose proof (next_expiry_range now t Hp Hd) as Hn.
    assert (Hq : 0 <= (now - deadline_ticks t) / period_ticks t) by (apply Z.div_pos; lia).
    unfold next_expiry in Hn; rewrite udiv_ok by lia; cbn [mbind res_bind].
    rewrite bind_uadd, bind_umul, bind_uadd by nia; rewrite Z.eqb_refl, Hupd; cbn [mbind res_bind]; fold (next_expiry now t).
    unfold expired; rewrite Hr; f_equal; destruct (fire id w).1; [unfold with_active, with_deadline; simpl; by rewrite Ha|].
    unfold upd; rewrite timers_put, put_put, set_set, timer_set, decide_True by done; done.
  - unfold expired; rewrite Hr, Hupd; done.
Qed.

(** The timer [id] after the answers [l]. *)
Definition outcome (now : Z) (l : list (TimerId * bool)) (ts : Timers) (id : TimerId) : Timer :=
  match (list_to_map l : gmap TimerId bool) !! id with
  | Some keep => expired now keep (timer ts id)
  | None => timer ts id
  end.

Lemma handle_all_spec now ids : forall w, NoDup ids ->
  (forall id, id ∈ ids -> timer_ok now (timer (timers w) id)) ->
  exists ts', handle_all now ids w = Ok (put_timers ts' (fire_all (due_ids now (timers w) ids) w).2) /\
    slots ts' = slots (timers w) /\
    forall id, timer ts' id = outcome now (fire_all (due_ids now (timers w) ids) w).1 (timers w) id.
Proof.
  induction ids as [|id ids IH]; intros w Hnd Hok; cbn [handle_all].
  { exists (timers w); cbn; rewrite put_timers_same; split_and!; auto. }
  inversion Hnd as [|? ? Hni Hnd']; subst.
  rewrite handle_spec by (apply Hok; left); cbn [mbind res_bind]; unfold due_ids; rewrite filter_cons.
  set (t := timer (timers w) id); destruct (due now t) eqn:Hdue.
  2:{ rewrite decide_False by done; apply IH; [done|]; intros j Hj; apply Hok; by right. }
  rewrite decide_True by done; cbn [fire_all]; pose proof (timers_fire id w) as Htf.
  destruct (fire id w) as [keep w1]; cbn [fst snd] in *; set (ts1 := set_timer (timers w) id (expired now keep t)).
  assert (Hne : forall j, j ∈ ids -> timer ts1 j = timer (timers w) j).
  { intros j Hj; unfold ts1; rewrite timer_set, decide_False; [done|by intros ->]. }
  destruct (IH (put_timers ts1 w1) Hnd') as (ts' & Hall & Hsl & Hout).
  { intros j Hj; rewrite timers_put, Hne by done; apply Hok; by right. }
  rewrite timers_put in *; fold (due_ids now (timers w) ids).
  assert (Hd : due_ids now ts1 ids = due_ids now (timers w) ids)
    by (apply filter_ext_in; intros j Hj; by rewrite Hne).
  rewrite Hd, fire_all_frame in *; pose proof (fire_all_ids (due_ids now (timers w) ids) w1) as Hids.
  destruct (fire_all (due_ids now (timers w) ids) w1) as [l w2]; cbn [fst snd] in *; rewrite put_put in Hall.
  exists ts'; split_and!; [done|done|]; intros j; rewrite Hout; unfold outcome; cbn [list_to_map].
  assert (Hl : (list_to_map l : gmap TimerId bool) !! id = None).
  { apply not_elem_of_list_to_map_1; rewrite Hids; intros Hin; apply list_elem_of_filter in Hin as [_ Hin]; done. }
  destruct (decide (j = id)) as [->|Hj].
  - change (list_to_map ((id, keep) :: l) : gmap TimerId bool) with (<[id := keep]> (list_to_map l : gmap TimerId bool)).
    rewrite Hl, lookup_insert_eq; unfold ts1; by rewrite timer_set, decide_True.
  - change (list_to_map ((id, keep) :: l) : gmap TimerId bool) with (<[id := keep]> (list_to_map l : gmap TimerId bool)).
    rewrite lookup_insert_ne by done; unfold ts1; rewrite timer_set, decide_False by done; done.
Qed.

Lemma arm_timer ts id : timer (arm_hardware ts) id = timer ts id.
Proof. unfold arm_hardware; by destruct (min_list _). Qed.

Lemma arm_slots ts : slots (arm_hardware ts) = slots ts.
Proof. unfold arm_hardware; by destruct (min_list _). Qed.

(** After the handler no active timer of the table is due any more. *)
Lemma outcome_not_due now w ids id : (forall id, id ∈ ids -> timer_ok now (timer (timers w) id)) -> id ∈ ids ->
  let t := outcome now (fire_all (due_ids now (timers w) ids) w).1 (timers w) id in
  active t = true -> now < deadline_ticks t.
Proof.
  intros Hok Hid t; unfold t, outcome; pose proof (fire_all_ids (due_ids now (timers w) ids) w) as Hids.
  destruct (list_to_map _ !! id) as [keep|] eqn:E.
  - apply elem_of_list_to_map_2, (list_elem_of_fmap_2 fst) in E; cbn [fst] in E; rewrite Hids in E.
    apply list_elem_of_filter in E as [Hdue _]; specialize (Hok id Hid); unfold expired.
    destruct (repeat (timer (timers w) id)) eqn:Hr; [|done]; intros _; cbn [with_active with_deadline deadline_ticks].
    destruct (Hok Hr Hdue) as (Hp & _ & _); apply andb_true_iff in Hdue as [_ Hd%Z.leb_le].
    by apply next_expiry_range.
  - apply not_elem_of_list_to_map_2 in E; rewrite Hids in E; intros Ha.
    destruct (Z.lt_ge_cases now (deadline_ticks (timer (timers w) id))); [done|]; exfalso; apply E.
    apply list_elem_of_filter; split; [|done]; unfold due; rewrite Ha; simpl; by apply Z.leb_le.
Qed.

Lemma handler_spec w : NoDup (flatten (slots (timers w))) ->
  (forall id, Some id ∈ slots (timers w) -> timer_ok (count w) (timer (timers w) id)) ->
  let r := fire_all (due_ids (count w) (timers w) (flatten (slots (timers w)))) w in
  exists ts', interrupt_handler w = Ok (put_timers ts' r.2) /\
    slots ts' = slots (timers w) /\
    (forall id, timer ts' id = outcome (count w) r.1 (timers w) id) /\
    armed ts' /\ (enabled ts' = true -> count w < cval ts').
Proof.
  intros Hnd Hok r; destruct (handle_all_spec (count w) (flatten (slots (timers w))) w Hnd) as (ts & Hall & Hsl & Hout).
  { intros id Hid; by apply Hok, elem_of_flatten. }
  fold r in Hall, Hout; exists (arm_hardware ts); unfold interrupt_handler; rewrite Hall; cbn [mbind res_bind].
  rewrite timers_put, put_put, arm_slots; pose proof (arm_hardware_armed ts) as Harm; split_and!; [done|done| |done|].
  - intros id; by rewrite arm_timer.
  - unfold armed in Harm; intros He; rewrite He, arm_slots in Harm; destruct Harm as [(id & Hin & Ha & ->) _].
    rewrite arm_timer, Hout in *; rewrite Hsl in Hin; apply outcome_not_due; [|by apply elem_of_flatten|done].
    intros j Hj; by apply Hok, elem_of_flatten.
Qed.
End correct.

(** ** Callbacks that start and cancel timers *)

(** The timer [id] as [start] sets it up. *)
Definition started (now ticks : Z) (t : Timer) : Timer :=
  with_active (with_deadline (with_period t ticks) (now + ticks)) true.

(** A due timer when its callback runs: a one-shot timer is inactive, a periodic
    one has moved to its first expiry after [now]. *)
Definition claimed (now : Z) (t : Timer) : Timer :=
  if repeat t then with_deadline t (next_expiry now t) else with_active t false.

Definition all_ok (now : Z) (ts : Timers) : Prop := forall id, timer_ok now (timer ts id).

Section callbacks.
Context {W : Type} `{!TimerWorld W, !CallbackLaws W}.
Implicit Types w : W.

(** The turns of the timers [ids]: each one that is due when its turn comes is
    claimed, then its callback runs, and a periodic one whose callback says no
    is switched off; the log has the callbacks and their answers. *)
Inductive turns (now : Z) : list TimerId -> W -> list (TimerId * bool) -> W -> Prop :=
  | turns_nil w : turns now [] w [] w
  | turns_skip id ids w l w' : due now (timer (timers w) id) = false -> turns now ids w l w' -> turns now (id :: ids) w l w'
  | turns_fire id ids w keep w1 l w' (t := timer (timers w) id) : due now t = true ->
      fire id (put_timers (set_timer (timers w) id (claimed now t)) w) = (keep, w1) ->
      turns now ids (if repeat t && negb keep then upd id (fun t => with_active t false) w1 else w1) l w' ->
      turns now (id :: ids) w ((id, keep) :: l) w'.

(** The timers that fire are some of [ids], in their order. *)
Lemma turns_sublist now ids w l w' : turns now ids w l w' -> sublist l.*1 ids.
Proof. induction 1; cbn; [constructor|by apply sublist_cons|by apply sublist_skip]. Qed.

(** No timer becomes due. *)
Definition no_new_due (now : Z) (ts ts' : Timers) : Prop :=
  forall id, due now (timer ts' id) = true -> due now (timer ts id) = true.

Lemma start_timer freq now' ts id ticks ok ts' j : duration_to_ticks freq (duration (timer ts id)) = Ok ticks ->
  start freq now' ts id = Ok (ok, ts') -> timer ts' j = timer ts j \/ (timer ts' j = started now' ticks (timer ts id) \/ active (timer ts' j) = false).
Proof.
  intros Ht; unfold start; rewrite Ht; cbn [mbind res_bind]; destruct (assert _); cbn [mbind res_bind]; [|done..].
  intros (d & Hd & Hr)%bind_Ok; apply uadd_Ok in Hd as [-> _]; set (ts1 := set_timer ts id _) in *.
  assert (H1 : timer ts1 j = if decide (j = id) then started now' ticks (timer ts id) else timer ts j) by apply timer_set.
  assert (Hreg : forall ts2, register ts1 id = Some ts2 -> timer ts2 j = timer ts1 j).
  { unfold register; intros ts2; destruct (in_table ts1 id); [by intros [= <-]|]; destruct (take_slot _ _ _); [|done]; by intros [= <-]. }
  destruct (register ts1 id) as [ts2|]; injection Hr as <- <-.
  - rewrite arm_timer, (Hreg ts2 eq_refl), H1; case_decide; [right; by left|by left].
  - rewrite timer_set; destruct (decide (j = id)) as [->|Hj]; [right; by right|]; left; done.
Qed.

(** What stays as it is or is not due is still fine. *)
Definition quiet_change (now : Z) (ts ts' : Timers) : Prop :=
  forall id, timer ts' id = timer ts id \/ due now (timer ts' id) = false.

Lemma quiet_ok now ts ts' : quiet_change now ts ts' -> all_ok now ts -> all_ok now ts' /\ no_new_due now ts ts'.
Proof.
  intros Hq Hok; split; intros id.
  - destruct (Hq id) as [->|Hd]; [apply Hok|]; intros _ H; congruence.
  - destruct (Hq id) as [->|Hd]; [done|congruence].
Qed.

Lemma quiet_trans now ts1 ts2 ts3 : quiet_change now ts1 ts2 -> quiet_change now ts2 ts3 -> quiet_change now ts1 ts3.
Proof. intros H1 H2 id; destruct (H2 id) as [->|]; [apply H1|by right]. Qed.

Lemma step_quiet now now' ts ts' : now <= now' -> timer_step now' ts ts' -> quiet_change now ts ts'.
Proof.
  intros Hle Hst j; destruct Hst as [freq now1 id ticks ok ts' Hn Ht Hp Hs|id].
  - destruct (start_timer freq now1 ts id ticks ok ts' j Ht Hs) as [-> |[-> | Hf]]; [by left|right|right].
    + unfold due, started; cbn; apply Z.leb_gt; lia.
    + unfold due; by rewrite Hf.
  - unfold cancel; rewrite timer_set; case_decide; [by right|by left].
Qed.

Lemma steps_quiet now now' ts ts' : now <= now' -> rtc (timer_step now') ts ts' -> quiet_change now ts ts'.
Proof. intros Hle; induction 1 as [|ts1 ts2 ts3 Hst _ IH]; [by left|]; eapply quiet_trans; [by eapply step_quiet|done]. Qed.

Lemma claimed_not_due now t : due now t = true -> timer_ok now t -> due now (claimed now t) = false.
Proof.
  intros Hd Hok; unfold claimed; destruct (repeat t) eqn:Hr; [|done]; destruct (Hok Hr Hd) as (Hp & _ & _).
  apply andb_true_iff in Hd as [Ha Hd%Z.leb_le]; pose proof (next_expiry_range now t Hp Hd).
  unfold due; cbn; rewrite Ha; apply Z.leb_gt; lia.
Qed.

Lemma upd_quiet now id w : quiet_change now (timers w) (timers (upd id (fun t => with_active t false) w)).
Proof. intros j; unfold upd; rewrite timers_put_any, timer_set; case_decide; [by right|by left]. Qed.

(** One turn of the handler. *)
Lemma handle_turn now id w : all_ok now (timers w) -> now <= count w ->
  let t := timer (timers w) id in
  (due now t = false /\ handle now id w = Ok w) \/
  (due now t = true /\ exists keep w1, fire id (put_timers (set_timer (timers w) id (claimed now t)) w) = (keep, w1) /\
     let w2 := if repeat t && negb keep then upd id (fun t => with_active t false) w1 else w1 in
     handle now id w = Ok w2 /\ quiet_change now (timers w) (timers w2) /\ due now (timer (timers w2) id) = false /\ now <= count w2).
Proof.
  intros Hok Hc t; specialize (Hok id) as Hokt; fold t in Hokt; unfold handle; fold t; destruct (due now t) eqn:Hdue; [right|left].
  2:{ split; [done|]; unfold due in Hdue; destruct (active t); cbn [negb andb] in *; [|done]; by rewrite Z.ltb_antisym, Hdue. }
  split; [done|]; pose proof Hdue as Hd; apply andb_true_iff in Hd as [Ha Hd]; rewrite Ha, Z.ltb_antisym, Hd; cbn [negb].
  set (w0 := put_timers (set_timer (timers w) id (claimed now t)) w).
  pose proof (claimed_not_due now t Hdue Hokt) as Hnd.
  destruct (fire id w0) as [keep w1] eqn:Ef; exists keep, w1; split; [done|].
  pose proof (fire_timers id w0) as Hst; pose proof (count_fire id w0) as Hcf; rewrite Ef in Hst, Hcf; cbn [snd] in Hst, Hcf.
  unfold w0 in Hst, Hcf; rewrite timers_put_any, count_put in Hst; rewrite count_put in Hcf.
  assert (Hq0 : quiet_change now (timers w) (set_timer (timers w) id (claimed now t)))
    by (intros j; rewrite timer_set; case_decide; [by right|by left]).
  pose proof (steps_quiet now _ _ _ Hc Hst) as Hq1.
  assert (Hid : due now (timer (timers w1) id) = false)
    by (destruct (Hq1 id) as [->|]; [by rewrite timer_set, decide_True|done]).
  set (w2 := if repeat t && negb keep then upd id (fun t => with_active t false) w1 else w1); cbn zeta; fold w2.
  assert (Hq2 : quiet_change now (timers w1) (timers w2)) by (unfold w2; destruct (_ && _); [apply upd_quiet|by left]).
  assert (Hc2 : count w2 = count w1) by (unfold w2; destruct (_ && _); [by unfold upd; rewrite count_put|done]).
  split_and!; [|by eapply quiet_trans; [|eapply quiet_trans]|destruct (Hq2 id) as [->|]; done|lia].
  assert (Hw0 : w0 = upd id (if repeat t then fun x => with_deadline x (next_expiry now t) else fun x => with_active x false) w)
    by (unfold w0, upd, claimed; fold t; by destruct (repeat t)).
  unfold w2; clear w2 Hq2 Hc2; rewrite Hw0 in Ef; destruct (repeat t) eqn:Hr; cbn [negb andb].
  - destruct (Hokt Hr Hdue) as (Hp & Hd0 & Hend); apply Z.leb_le in Hd; pose proof (next_expiry_range now t Hp Hd) as Hn.
    assert (Hq : 0 <= (now - deadline_ticks t) / period_ticks t) by (apply Z.div_pos; lia).
    unfold next_expiry in Hn; rewrite udiv_ok by lia; cbn [mbind res_bind].
    rewrite bind_uadd, bind_umul, bind_uadd by nia; fold (next_expiry now t).
    fold t; rewrite Z.eqb_refl, Ef; by destruct keep.
  - by rewrite Ef.
Qed.

Lemma handle_all_turns now ids : forall w, all_ok now (timers w) -> now <= count w ->
  (forall id, due now (timer (timers w) id) = true -> id ∈ ids) ->
  exists l w', handle_all now ids w = Ok w' /\ turns now ids w l w' /\ forall id, due now (timer (timers w') id) = false.
Proof.
  induction ids as [|id ids IH]; intros w Hok Hc Hdue; cbn [handle_all].
  { exists [], w; split_and!; [done|constructor|]; intros id; destruct (due _ _) eqn:E; [|done]; by apply Hdue, elem_of_nil in E. }
  destruct (handle_turn now id w Hok Hc) as [[Hn ->]|(Hd & keep & w1 & Ef & -> & Hq & Hid & Hc2)]; cbn [mbind res_bind].
  - destruct (IH w Hok Hc) as (l & w' & H1 & H2 & H3); [|exists l, w'; split_and!; [done|by constructor|done]].
    intros j Hj; pose proof (Hdue j Hj) as Hin; apply elem_of_cons in Hin as [->|]; [congruence|done].
  - destruct (quiet_ok _ _ _ Hq Hok) as [Hok2 Hnew]; set (w2 := if _ && _ then _ else _) in *.
    destruct (IH w2 Hok2 Hc2) as (l & w' & H1 & H2 & H3); [|exists ((id, keep) :: l), w'; split_and!; [done|by eapply turns_fire|done]].
    intros j Hj; pose proof (Hdue j (Hnew j Hj)) as Hin; apply elem_of_cons in Hin as [->|]; [congruence|done].
Qed.

End callbacks.

(** ** Starting a timer *)

(** The table: eight slots, no timer twice. *)
Definition table_ok (ts : Timers) : Prop := len (slots ts) = MAX_TIMERS /\ NoDup (flatten (slots ts)).

Lemma in_table_spec ts id : in_table ts id = true <-> Some id ∈ slots ts.
Proof.
  unfold in_table; rewrite existsb_exists; split.
  - intros (o & Hin & ->%bool_decide_eq_true); by apply list_elem_of_In.
  - intros Hin; exists (Some id); split; [by apply list_elem_of_In|by apply bool_decide_eq_true].
Qed.

Definition reusable (ts : Timers) (o : option TimerId) : bool :=
  match o with None => true | Some j => negb (active (timer ts j)) end.

Lemma take_slot_spec ts id l : match take_slot ts l id with
  | Some l' => exists i o, l !! i = Some o /\ reusable ts o = true /\ l' = <[i := Some id]> l
  | None => forall o, o ∈ l -> reusable ts o = false
  end.
Proof.
  induction l as [|o l IH]; cbn [take_slot]; [by intros o ?%elem_of_nil|]; fold (reusable ts o).
  destruct (reusable ts o) eqn:Ho; [by exists 0%nat, o|].
  destruct (take_slot ts l id) as [l'|]; cbn [fmap option_fmap option_map].
  - destruct IH as (i & o' & Hi & Hr & ->); by exists (S i), o'.
  - intros o' [->|Hin]%elem_of_cons; [done|by apply IH].
Qed.

Lemma NoDup_flatten_insert l i id : NoDup (flatten l) -> id ∉ flatten l -> NoDup (flatten (<[i := Some id]> l)).
Proof.
  revert i; induction l as [|o l IH]; intros [|i] Hnd Hni; cbn; auto.
  - destruct o as [j|]; cbn in *; constructor; auto; [intros ?; apply Hni; by right|by inversion Hnd].
  - destruct o as [j|]; cbn in *; [|by apply IH]; apply NoDup_cons in Hnd as [Hj Hnd]; apply not_elem_of_cons in Hni as [Hne Hni].
    constructor; [|by apply IH]; intros Hin%elem_of_flatten; apply list_elem_of_lookup in Hin as [k Hk].
    apply list_lookup_insert_Some in Hk as [(_ & [= ->] & _)|[_ Hk]]; [done|].
    apply Hj, elem_of_flatten; by eapply list_elem_of_lookup_2.
Qed.

(** Room for [id]: it is in the table, or a slot is free or holds an inactive
    timer. *)
Definition has_room (ts : Timers) (id : TimerId) : Prop :=
  Some id ∈ slots ts \/ exists o, o ∈ slots ts /\ o <> Some id /\ reusable ts o = true.

Lemma reusable_set ts id t o : o <> Some id -> reusable (set_timer ts id t) o = reusable ts o.
Proof. destruct o as [j|]; [|done]; intros Hne; cbn; rewrite timer_set, decide_False; [done|congruence]. Qed.

(** [Timer::start] on a table of eight slots without duplicates, for a
    duration that converts to ticks without overflow and, for a periodic
    timer, to at least one: it does not panic; it succeeds exactly when the
    timer is already in the table or some slot is free or holds an inactive
    timer; then the timer is active and in the table with its deadline one
    duration from now, the hardware is armed for the earliest active deadline,
    and no other timer is changed and no other active timer loses its slot;
    otherwise the timer is left inactive and the table and the hardware are
    unchanged. *)
Lemma start_correct (freq now : Z) (ts : Timers) (id : TimerId)
    (Htab : table_ok ts) (Hfreq : 0 < freq) (Hdur : 0 <= duration (timer ts id))
    (Hticks : duration (timer ts id) * freq < W128 /\ now + duration (timer ts id) * freq / 1000000000 < W64)
    (Hnow : 0 <= now)
    (Hper : repeat (timer ts id) = true -> 1000000000 <= duration (timer ts id) * freq) :
  let ticks := duration (timer ts id) * freq / 1000000000 in
  exists ok ts', start freq now ts id = Ok (ok, ts') /\ table_ok ts' /\
    (ok = true <-> has_room ts id) /\
    (forall j, j <> id -> timer ts' j = timer ts j) /\
    if ok : bool then
      timer ts' id = started now ticks (timer ts id) /\ Some id ∈ slots ts' /\ armed ts' /\
      forall j, Some j ∈ slots ts -> active (timer ts j) = true -> Some j ∈ slots ts'
    else active (timer ts' id) = false /\ slots ts' = slots ts /\ cval ts' = cval ts /\ enabled ts' = enabled ts.
Proof.
  intros ticks; destruct Htab as [Hlen Hnd]; assert (Ht0 : 0 <= ticks) by (apply Z.div_pos; nia).
  unfold start, duration_to_ticks; rewrite (proj2 (Z.eqb_neq freq 0)) by lia.
  rewrite (proj2 (Z.ltb_lt _ _)) by apply Hticks; cbn [negb assert mbind res_bind]; fold ticks.
  rewrite Z.mod_small by (unfold is_u; fold ticks in Hticks; lia).
  assert (Hr : negb (repeat (timer ts id)) || (0 <? ticks) = true).
  { destruct (repeat (timer ts id)); cbn; [|done]; apply Z.ltb_lt; specialize (Hper eq_refl).
    unfold ticks; pose proof (Z.div_le_lower_bound (duration (timer ts id) * freq) 1000000000 1); lia. }
  rewrite Hr; cbn [assert mbind res_bind]; rewrite bind_uadd by (fold ticks in Hticks; lia).
  fold (started now ticks (timer ts id)); set (ts1 := set_timer ts id _).
  assert (H1 : forall j, timer ts1 j = if decide (j = id) then started now ticks (timer ts id) else timer ts j)
    by (intros; apply timer_set).
  unfold register; destruct (in_table ts1 id) eqn:Hit.
  - apply in_table_spec in Hit; exists true, (arm_hardware ts1); unfold table_ok; rewrite arm_slots, arm_timer.
    split_and!; auto using arm_hardware_armed.
    + split; [intros _; by left|done].
    + intros j Hj; by rewrite arm_timer, H1, decide_False.
    + by rewrite H1, decide_True.
  - assert (Hni : Some id ∉ slots ts) by (intros Hin; apply (in_table_spec ts1) in Hin; congruence).
    pose proof (take_slot_spec ts1 id (slots ts1)) as Hslot.
    destruct (take_slot ts1 (slots ts1) id) as [l|]; cbn [fmap option_fmap option_map].
    + destruct Hslot as (i & o & Hi & Hre & ->); exists true, (arm_hardware (set_slots ts1 (<[i := Some id]> (slots ts1)))).
      change (slots ts1) with (slots ts) in Hi; assert (Hlt : (i < length (slots ts))%nat) by (by eapply lookup_lt_Some).
      assert (Ho : o ∈ slots ts) by (by eapply list_elem_of_lookup_2).
      assert (Hone : o <> Some id) by (intros ->; done).
      unfold ts1 in Hre; rewrite reusable_set in Hre by done.
      unfold table_ok; rewrite arm_slots, arm_timer; cbn [set_slots slots ts1 set_timer].
      split_and!; auto using arm_hardware_armed.
      * by rewrite len_insert.
      * apply NoDup_flatten_insert; [done|]; by rewrite elem_of_flatten.
      * split; [intros _; right; by exists o|done].
      * intros j Hj; rewrite arm_timer; change (timer (set_slots ts1 _) j) with (timer ts1 j); by rewrite H1, decide_False.
      * change (timer (set_slots ts1 _) id) with (timer ts1 id); by rewrite H1, decide_True.
      * by apply list_elem_of_insert.
      * intros j Hj Ha; apply list_elem_of_lookup in Hj as [k Hk]; apply list_elem_of_lookup; exists k.
        rewrite list_lookup_insert_ne; [done|]; intros ->; rewrite Hi in Hk; injection Hk as ->.
        cbn in Hre; by rewrite Ha in Hre.
    + exists false, (set_timer ts1 id (with_active (timer ts1 id) false)); split_and!; try done.
      * split; [done|]; intros [?|(o & Ho & Hne & Hre)]; [done|]; specialize (Hslot o Ho).
        unfold ts1 in Hslot; rewrite reusable_set in Hslot by done; congruence.
      * intros j Hj; by rewrite timer_set, decide_False, H1, decide_False.
      * by rewrite timer_set, decide_True.
Qed.

(** ** Several cores

    Every core arms its own compare register for the same deadline, so several
    cores can be in [interrupt_handler] for one expiry.  The steps are the
    atomic operations of the loop body for one timer: the load of [active], the
    load of the deadline, the claim (a swap of [active] for a one-shot timer, a
    compare-and-exchange of the deadline for a periodic one), and the end of
    the callback; a one-shot timer may be started again by its own callback. *)
Module Smp.

Inductive Pc :=
  | Idle
  | SawActive (now : Z)
  | SawDue (now deadline : Z)
  | Firing.

(** A fire is recorded with the time the core read and the deadline the timer
    had when it was claimed. *)
Record Shared := { clock : Z; tmr : Timer; pcs : gmap Z Pc; fires : list (Z * Z) }.

Definition pc (s : Shared) (c : Z) : Pc := default Idle (pcs s !! c).

Definition goto (s : Shared) (c : Z) (p : Pc) : Shared :=
  {| clock := clock s; tmr := tmr s; pcs := <[c := p]> (pcs s); fires := fires s |}.
Definition with_tmr (s : Shared) (t : Timer) : Shared :=
  {| clock := clock s; tmr := t; pcs := pcs s; fires := fires s |}.
Definition record (s : Shared) (f : Z * Z) : Shared :=
  {| clock := clock s; tmr := tmr s; pcs := pcs s; fires := f :: fires s |}.

(** The compare-and-exchange of a periodic timer. *)
Definition claim_periodic (s : Shared) (c now d : Z) : Shared :=
  if deadline_ticks (tmr s) =? d then
    goto (record (with_tmr s (with_deadline (tmr s) (d + ((now - d) / period_ticks (tmr s) + 1) * period_ticks (tmr s))))
            (now, d)) c Firing
  else goto s c Idle.

(** The swap of a one-shot timer. *)
Definition claim_oneshot (s : Shared) (c now : Z) : Shared :=
  if active (tmr s) then
    goto (record (with_tmr s (with_active (tmr s) false)) (now, deadline_ticks (tmr s))) c Firing
  else goto s c Idle.

Inductive step (s : Shared) : Shared -> Prop :=
  | s_time t : clock s <= t ->
      step s {| clock := t; tmr := tmr s; pcs := pcs s; fires := fires s |}
  | s_active c : pc s c = Idle -> active (tmr s) = true -> step s (goto s c (SawActive (clock s)))
  | s_deadline c now : pc s c = SawActive now ->
      step s (goto s c (if now <? deadline_ticks (tmr s) then Idle else SawDue now (deadline_ticks (tmr s))))
  | s_claim c now d : pc s c = SawDue now d ->
      step s (if repeat (tmr s) then claim_periodic s c now d else claim_oneshot s c now)
  | s_return c keep : pc s c = Firing ->
      step s (goto (if repeat (tmr s) && negb keep then with_tmr s (with_active (tmr s) false) else s) c Idle)
  | s_restart c ticks : pc s c = Firing -> repeat (tmr s) = false -> 0 <= ticks ->
      step s (with_tmr s (started (clock s) ticks (tmr s))).

(** A timer nobody is handling. *)
Definition quiet (t : Timer) (now : Z) : Shared := {| clock := now; tmr := t; pcs := ∅; fires := [] |}.

Lemma pc_goto s c p c' : pc (goto s c p) c' = if decide (c' = c) then p else pc s c'.
Proof. unfold pc; cbn; case_decide as Hc; [subst; by rewrite lookup_insert_eq|by rewrite lookup_insert_ne]. Qed.

(** Claimed expiries only grow, each was due, and the next one is still ahead. *)
Record claims_ok (s : Shared) : Prop := {
  ck_periodic : repeat (tmr s) = true /\ 0 < period_ticks (tmr s);
  ck_sorted : StronglySorted Z.gt (deadline_ticks (tmr s) :: (fires s).*2);
  ck_due : Forall (fun f => f.2 <= f.1) (fires s);
  ck_pcs : forall c now d, pc s c = SawDue now d -> d <= now;
}.

Lemma claims_goto s c p : claims_ok s -> (forall now d, p = SawDue now d -> d <= now) -> claims_ok (goto s c p).
Proof.
  intros [H1 H2 H3 H4] Hp; split; auto; intros c' now d; rewrite pc_goto; case_decide; [by apply Hp|by apply H4].
Qed.

Lemma claims_tmr s t : claims_ok s -> repeat t = repeat (tmr s) -> period_ticks t = period_ticks (tmr s) ->
  deadline_ticks t = deadline_ticks (tmr s) -> claims_ok (with_tmr s t).
Proof. intros [H1 H2 H3 H4] Hr Hp Hd; split; cbn; rewrite ?Hr, ?Hp, ?Hd; auto. Qed.

Lemma claim_periodic_ok s c now d : claims_ok s -> pc s c = SawDue now d -> claims_ok (claim_periodic s c now d).
Proof.
  intros Hs Hpc; pose proof Hs as [[Hr Hp] H2 H3 H4]; unfold claim_periodic.
  destruct (Z.eqb_spec (deadline_ticks (tmr s)) d) as [Hd|]; [|by apply claims_goto].
  pose proof (H4 c now d Hpc) as Hle; apply claims_goto; [|done].
  pose proof (next_expiry_range now (tmr s) Hp ltac:(lia)) as Hn; unfold next_expiry in Hn; rewrite Hd in Hn.
  split; cbn; [done| |constructor; [done|done]|done].
  rewrite Hd in H2; pose proof H2 as H2'; inversion H2' as [|? ? Hss Hall]; subst.
  constructor; [exact H2|]; constructor; [lia|]; eapply Forall_impl; [exact Hall|]; cbn; intros; lia.
Qed.

Lemma step_claims s s' : claims_ok s -> step s s' -> claims_ok s'.
Proof.
  intros Hs Hst; pose proof Hs as [[Hr Hp] H2 H3 H4]; destruct Hst as [t Ht|c Hpc Ha|c now Hpc|c now d Hpc|c keep Hpc|c ticks Hpc Hone Ht].
  - split; auto.
  - by apply claims_goto.
  - apply claims_goto; [done|]; intros n d; destruct (Z.ltb_spec now (deadline_ticks (tmr s))); [done|]; by intros [= <- <-].
  - rewrite Hr; by apply claim_periodic_ok.
  - apply claims_goto; [|done]; destruct (repeat (tmr s) && negb keep); [by apply claims_tmr|done].
  - congruence.
Qed.

(** A periodic timer handled by any number of cores: however their loads,
    claims and callbacks interleave, every fire claims an expiry that was due
    at the time the core read, and no expiry is claimed twice; the deadline
    lies beyond every expiry claimed so far. *)
Lemma periodic_fires_once (t : Timer) (now : Z) (s : Shared)
    (Hrep : repeat t = true) (Hper : 0 < period_ticks t) (Hreach : rtc step (quiet t now) s) :
  NoDup (fires s).*2 /\ Forall (fun f => f.2 <= f.1 /\ f.2 < deadline_ticks (tmr s)) (fires s).
Proof.
  assert (Hs : claims_ok s).
  { remember (quiet t now) as s0 eqn:E; assert (H0 : claims_ok s0).
    { subst; split; cbn; [done|repeat constructor|constructor|intros c n d; unfold pc; cbn; by rewrite lookup_empty]. }
    clear E; induction Hreach as [|s1 s2 s3 Hst _ IH]; [done|]; by apply IH, (step_claims s1). }
  destruct Hs as [_ Hsort Hdue _]; inversion Hsort as [|? ? Hss Hall]; subst; split.
  - clear -Hss; induction Hss as [|x l Hs IH Hf]; constructor; [|done]; intros Hin.
    rewrite Forall_forall in Hf; specialize (Hf x Hin); lia.
  - rewrite Forall_fmap in Hall; rewrite Forall_forall in *; intros f Hf; specialize (Hdue f Hf); specialize (Hall f Hf).
    cbn in Hall; lia.
Qed.

Definition tick_demo : Timer := {| duration := 10; repeat := true; deadline_ticks := 10; period_ticks := 10; active := true |}.

Definition once_demo : Timer := {| duration := 10; repeat := false; deadline_ticks := 10; period_ticks := 10; active := true |}.

(** A one-shot timer that its callback starts again can fire before its new
    deadline: a second core that saw the old expiry as due swaps [active] after
    the restart and claims the new expiry, at a time (25) well before the new
    deadline (125). *)
Lemma oneshot_restart_fires_early : exists s, rtc step (quiet once_demo 25) s /\ fires s = [(25, 125); (25, 10)].
Proof.
  set (s0 := quiet once_demo 25).
  set (s1 := goto s0 0 (SawActive 25)); set (s2 := goto s1 1 (SawActive 25)).
  set (s3 := goto s2 0 (SawDue 25 10)); set (s4 := goto s3 1 (SawDue 25 10)).
  set (s5 := claim_oneshot s4 0 25); set (s6 := with_tmr s5 (started 25 100 (tmr s5))).
  set (s7 := claim_oneshot s6 1 25); exists s7; split; [|reflexivity].
  apply (rtc_l _ _ s1); [by apply (s_active s0 0)|]; apply (rtc_l _ _ s2); [by apply (s_active s1 1)|].
  apply (rtc_l _ _ s3); [by apply (s_deadline s2 0 25)|]; apply (rtc_l _ _ s4); [by apply (s_deadline s3 1 25)|].
  apply (rtc_l _ _ s5); [by apply (s_claim s4 0 25 10)|]; apply (rtc_l _ _ s6); [by apply (s_restart s5 0 100)|].
  apply rtc_once; by apply (s_claim s6 1 25 10).
Qed.
End Smp.

(** ** A small world: the timers, a counter and the log of the callbacks

    The callback of timer 0 cancels timer 2 and starts timer 3. *)
Module TmDemo.

Record world := { ts_of : Timers; at_ : Z; log : list TimerId }.

Definition FREQ : Z := 1000000000.

Definition restart (now : Z) (ts : Timers) : Timers :=
  let ts1 := cancel ts 2 in
  match duration_to_ticks FREQ (duration (timer ts1 3)), start FREQ now ts1 3 with
  | Ok ticks, Ok (_, ts2) => if 0 <? ticks then ts2 else ts1
  | _, _ => ts1
  end.

#[export] Instance world_timers : TimerWorld world := {
  timers := ts_of;
  put_timers ts w := {| ts_of := ts; at_ := at_ w; log := log w |};
  count := at_;
  fire id w := (negb (id =? 2), {| ts_of := if id =? 0 then restart (at_ w) (ts_of w) else ts_of w; at_ := at_ w; log := log w ++ [id] |});
}.

#[export] Instance world_laws : CallbackLaws world.
Proof.
  split; [done|done|done|]; intros id w; cbn; destruct (id =? 0); [|done]; unfold restart.
  assert (Hc : rtc (timer_step (at_ w)) (ts_of w) (cancel (ts_of w) 2)) by (apply rtc_once; constructor).
  destruct (duration_to_ticks _ _) as [ticks| |] eqn:E; [|done..]; destruct (start _ _ _ _) as [[ok ts2]| |] eqn:E2; [|done..].
  destruct (Z.ltb_spec 0 ticks); [|done]; eapply rtc_r; [exact Hc|]; by eapply t_start; [reflexivity|exact E|done|].
Qed.

Definition table : Timers :=
  {| statics := {[ 0 := {| duration := 10; repeat := true; deadline_ticks := 10; period_ticks := 10; active := true |};
                   1 := {| duration := 30; repeat := false; deadline_ticks := 30; period_ticks := 30; active := true |};
                   2 := {| duration := 5; repeat := true; deadline_ticks := 5; period_ticks := 5; active := true |};
                   3 := {| duration := 2; repeat := false; deadline_ticks := 0; period_ticks := 0; active := false |} ]};
     slots := [Some 0; Some 1; None; Some 2; None; None; None; None]; cval := 5; enabled := true |}.

Definition start_world : world := {| ts_of := table; at_ := 25; log := [] |}.

Lemma table_cases (Q : TimerId -> Timer -> Prop) : Q 0 (timer table 0) -> Q 1 (timer table 1) -> Q 2 (timer table 2) -> Q 3 (timer table 3) ->
  (forall id, Q id (new 0)) -> forall id, Q id (timer table id).
Proof.
  intros H0 H1 H2 H3 Hn id; destruct (decide (id = 0)) as [->|N0]; [done|]; destruct (decide (id = 1)) as [->|N1]; [done|].
  destruct (decide (id = 2)) as [->|N2]; [done|]; destruct (decide (id = 3)) as [->|N3]; [done|].
  unfold timer, table; cbn [statics]; rewrite !lookup_insert_ne by done; rewrite lookup_singleton_ne by done; apply Hn.
Qed.


End TmDemo.
End Tm.
