(* ===== verification/Trap.v ===== *)
(** * Traps ([aarch64/src/trap.rs], [aarch64/src/reg/esr_el1.rs], [aarch64/src/gic.rs])

    The exception entry: the decoding of the vector and of the exception class,
    the interrupt path with the acknowledge and end-of-interrupt protocol, and
    the dispatch of system calls to their handlers. *)

From S2P Require Import Prelude Abi Addr BitmapAlloc Ipc Elf Sched Heap KernIpc Backtrace Vm Loader Timer.

(** ** Vectors and exception classes *)

Inductive ExceptionType :=
  | SyncInvalidEL1t | IrqInvalidEL1t | FiqInvalidEL1t | ErrorInvalidEL1t
  | SyncInvalidEL1h | IrqInvalidEL1h | FiqInvalidEL1h | ErrorInvalidEL1h
  | SyncInvalidEL0_64 | IrqInvalidEL0_64 | FiqInvalidEL0_64 | ErrorInvalidEL0_64
  | SyncInvalidEL0_32 | IrqInvalidEL0_32 | FiqInvalidEL0_32 | ErrorInvalidEL0_32.

#[export] Instance ExceptionType_eq_dec : EqDecision ExceptionType.
Proof. solve_decision. Defined.

Definition is_irq (e : ExceptionType) : bool :=
  match e with
  | IrqInvalidEL1t | IrqInvalidEL1h | IrqInvalidEL0_64 | IrqInvalidEL0_32 => true
  | _ => false
  end.

Definition exception_type (v : Z) : option ExceptionType :=
  match v with
  | 0 => Some SyncInvalidEL1t | 1 => Some IrqInvalidEL1t | 2 => Some FiqInvalidEL1t | 3 => Some ErrorInvalidEL1t
  | 4 => Some SyncInvalidEL1h | 5 => Some IrqInvalidEL1h | 6 => Some FiqInvalidEL1h | 7 => Some ErrorInvalidEL1h
  | 8 => Some SyncInvalidEL0_64 | 9 => Some IrqInvalidEL0_64 | 10 => Some FiqInvalidEL0_64
  | 11 => Some ErrorInvalidEL0_64
  | 12 => Some SyncInvalidEL0_32 | 13 => Some IrqInvalidEL0_32 | 14 => Some FiqInvalidEL0_32
  | 15 => Some ErrorInvalidEL0_32
  | _ => None
  end.

Inductive ExceptionClass :=
  | Unknown | WaitFor | FloatSimd | Ls64 | BranchTargetException | IllegalExecutionState | SvcAarch64
  | MsrMrsSystem | Sve | Tstart | PointerAuthFailure | Sme | GranuleProtectionCheck
  | InstructionAbortLowerEl | InstructionAbortSameEl | PcAlignmentFault | DataAbortLowerEl | DataAbortSameEl
  | SpAlignmentFault | MemoryOperationException | TrappedFloatingPointException | SError
  | BreakpointLowerEl | BreakpointSameEl | SoftwareStepLowerEl | SoftwareStepSameEl
  | WatchpointLowerEl | WatchpointSameEl | Brk.

Definition exception_class (n : Z) : result ExceptionClass Z :=
  match n with
  | 0 => Val Unknown | 1 => Val WaitFor | 7 => Val FloatSimd | 10 => Val Ls64
  | 13 => Val BranchTargetException | 14 => Val IllegalExecutionState | 21 => Val SvcAarch64
  | 24 => Val MsrMrsSystem | 25 => Val Sve | 27 => Val Tstart | 28 => Val PointerAuthFailure
  | 29 => Val Sme | 30 => Val GranuleProtectionCheck | 32 => Val InstructionAbortLowerEl
  | 33 => Val InstructionAbortSameEl | 34 => Val PcAlignmentFault | 36 => Val DataAbortLowerEl
  | 37 => Val DataAbortSameEl | 38 => Val SpAlignmentFault | 39 => Val MemoryOperationException
  | 44 => Val TrappedFloatingPointException | 47 => Val SError | 48 => Val BreakpointLowerEl
  | 49 => Val BreakpointSameEl | 50 => Val SoftwareStepLowerEl | 51 => Val SoftwareStepSameEl
  | 52 => Val WatchpointLowerEl | 53 => Val WatchpointSameEl | 60 => Val Brk
  | _ => Err n
  end.

(** Bits 26 to 31 of ESR_EL1. *)
Definition ec (esr : Z) : Z := Z.land (Z.shiftr esr 26) 0x3f.

Definition exception_class_enum (esr : Z) : result ExceptionClass Z := exception_class (ec esr).

(** ** The register frame *)

Record TrapFrame := {
  xs : list Z;             (** x0 to x30 *)
  esr_el1 : Z;
  elr_el1 : Z;
  far_el1 : Z;
  interrupt_type : Z;
  sp : Z;
  spsr : Z;
}.

Definition x (f : TrapFrame) (i : nat) : Z := default 0 (xs f !! i).

Definition set_x (f : TrapFrame) (i : nat) (v : Z) : TrapFrame :=
  {| xs := <[i := v]> (xs f); esr_el1 := esr_el1 f; elr_el1 := elr_el1 f; far_el1 := far_el1 f;
     interrupt_type := interrupt_type f; sp := sp f; spsr := spsr f |}.

(** ** The interrupt controller *)

Definition INTID_SPECIAL_START : Z := 1020.

(** Bits 0 to 9 of GICC_IAR. *)
Definition int_id (iar : Z) : Z := Z.land iar 0x3ff.

(** [iar] is what GICC_IAR reads, [None] while the GIC is not set up. *)
Definition try_ack_interrupt (iar : option Z) : option Z :=
  match iar with
  | Some v => if INTID_SPECIAL_START <=? int_id v then None else Some v
  | None => None
  end.

(** ** The trap handler *)

(** The rest of the machine the interrupt path touches: the timers, the INTID of
    the timer once it is set, and the end-of-interrupt register. *)
Class TrapWorld (K : Type) := {
  k_timers : K -> Tm.Timers;
  k_put_timers : Tm.Timers -> K -> K;
  timer_intid : K -> option Z;
  end_interrupt : Z -> K -> K;
}.

(** How a trap ends: back to the interrupted context with this frame, with the
    CPU given away for good, or in the endless loop. *)
Inductive Outcome (K : Type) :=
  | Eret (f : TrapFrame) (k : K)
  | Gone (k : K)
  | Spin (k : K).

Arguments Eret {K} f k.
Arguments Gone {K} k.
Arguments Spin {K} k.

Section trap.
Context {A M : Type} `{!AspaceOps A M, !UserMem A M, !LoaderOps A M, !TrapWorld (Kernel A M)}.
Context (others : ProcId -> Kernel A M -> res (Kernel A M)) (trapret : Z) (reg : Registry) (fuel : nat).
Notation K := (Kernel A M).
Implicit Types k : Kernel A M.

(** The tick is the only timer of the kernel. *)
#[export] Instance kernel_timers : Tm.TimerWorld K := {
  Tm.timers := k_timers;
  Tm.put_timers := k_put_timers;
  Tm.count k := counter (sched k);
  Tm.fire _ k := let '(keep, s) := Proc.tick_fire (sched k) in (keep, set_sched k s);
}.

(** [irq_resched] and [yield_current]: when another process takes the CPU the
    rest runs after this one has it back. *)
Definition kern_irq_resched (k : K) : res K :=
  '(switched, s1) ← Proc.irq_resched (sched k);
  if switched : bool then
    cur ← unwrap (tpidr (sched k));
    k1 ← switched_away others cur k s1;
    Ok (on_sched Proc.count_preemption k1)
  else Ok (set_sched k s1).

Definition kern_yield (k : K) : res K :=
  '(switched, s1) ← Proc.resched (sched k);
  if switched : bool then
    cur ← unwrap (tpidr (sched k));
    switched_away others cur k s1
  else Ok (set_sched k s1).

(** The interrupt branch of [trap]. *)
Definition irq (iar : option Z) (k : K) : res K :=
  k1 ← match try_ack_interrupt iar with
       | Some v =>
           let intid := int_id v in
           tid ← unwrap (timer_intid k);
           k1 ← (if intid =? tid then Tm.interrupt_handler k else device_irq others intid k);
           Ok (end_interrupt v k1)
       | None => Ok k
       end;
  kern_irq_resched k1.

(** Results in x0; in x0 and x1; in x0, x3 and x4. *)
Definition ret1 (f : TrapFrame) (r : Z * K) : Outcome K := let '(v, k) := r in Eret (set_x f 0 v) k.
Definition ret2 (f : TrapFrame) (r : (Z * Z) * K) : Outcome K :=
  let '((v0, v1), k) := r in Eret (set_x (set_x f 0 v0) 1 v1) k.
Definition ret3 (f : TrapFrame) (r : (Z * Z * Z) * K) : Outcome K :=
  let '((v0, v3, v4), k) := r in Eret (set_x (set_x (set_x f 0 v0) 3 v3) 4 v4) k.

(** The [SvcAarch64] arm: the number is x8. *)
Definition svc (f : TrapFrame) (k : K) : res (Outcome K) :=
  let n := x f 8 in
  if n =? SYSYIELD then Eret f <$> kern_yield k
  else if n =? SYCSEND then ret1 f <$> sys_send others fuel (x f 0) (x f 1) (x f 2) (x f 3) (x f 4) k
  else if n =? SYCRECEIVE then ret3 f <$> sys_receive others fuel (x f 0) (x f 1) (x f 2) k
  else if n =? SYCREPLY then ret1 f <$> sys_reply others fuel (x f 0) (x f 1) (x f 2) (x f 3) (x f 4) k
  else if n =? SYSIRQCLAIM then Ok (ret1 f (sys_irq_claim (x f 0) (x f 1) k))
  else if n =? SYSMAPMMIO then ret1 f <$> sys_map_mmio (x f 0) (x f 1) (x f 2) k
  else if n =? SYCCREATECHAN then Ok (ret1 f (sys_createchan k))
  else if n =? SYS_ALLOC then ret1 f <$> sys_alloc (x f 0) k
  else if n =? SYS_FREE then Ok (ret1 f (sys_free (x f 0) k))
  else if n =? SYS_SPAWN then ret1 f <$> sys_spawn trapret reg (x f 0) (x f 1) (x f 2) k
  else if n =? SYS_CLOCK then Ok (ret1 f (sys_clock (x f 0) k, k))
  else if n =? SYS_RECEIVE_AT then ret3 f <$> sys_receive_at others fuel (x f 0) (x f 1) (x f 2) (x f 3) k
  else if n =? SYS_ALLOC_PAGE then ret2 f <$> sys_alloc_page k
  else if n =? SYS_WAIT then
    Ok (ret2 f (let '(r, s) := Proc.sys_wait (sched k) (x f 0) (x f 1) in (r, set_sched k s)))
  else if n =? SYS_KILL then Ok (ret1 f (sys_kill others (x f 0) k))
  else if n =? SYS_SETPRIO then
    Ok (ret1 f (let '(r, s) := Proc.sys_setprio (sched k) (x f 0) (x f 1) in (r, set_sched k s)))
  else if n =? SYS_PRINT then ret1 f <$> sys_print (x f 0) (x f 1) k
  else if n =? SYSEXIT then Gone <$> exit_current others (x f 0) k
  else Gone <$> exit_current others n k.

Definition trap (iar : option Z) (f : TrapFrame) (k : K) : res (Outcome K) :=
  match exception_type (interrupt_type f) with
  | None => Ok (Spin k)
  | Some exc =>
      if is_irq exc then Eret f <$> irq iar k else
      match exception_class_enum (esr_el1 f) with
      | Val SvcAarch64 => svc f k
      | Val DataAbortLowerEl | Val InstructionAbortLowerEl =>
          if decide (exc = SyncInvalidEL0_64) then Gone <$> Bk.fault others (x f 29) (x f 30) k else Ok (Spin k)
      | _ => Ok (Spin k)
      end
  end.

(** The entry from the vectors. *)
Definition trap_unsafe (iar : option Z) (f : TrapFrame) (k : K) : res (Outcome K) :=
  o ← trap iar f (on_sched Proc.enter_interrupt k);
  Ok (match o with
      | Eret f' k' => Eret f' (on_sched Proc.exit_interrupt k')
      | _ => o
      end).
End trap.

(** ** What a trap promises *)

(** The interrupt state is separate from the scheduler's, and an end of
    interrupt changes neither. *)
Class TrapLaws (A M : Type) `{!TrapWorld (Kernel A M)} : Prop := {
  k_timers_put ts (k : Kernel A M) : k_timers (k_put_timers ts k) = ts;
  k_put_put ts ts' (k : Kernel A M) : k_put_timers ts (k_put_timers ts' k) = k_put_timers ts k;
  k_put_same (k : Kernel A M) : k_put_timers (k_timers k) k = k;
  k_put_sched ts (k : Kernel A M) : sched (k_put_timers ts k) = sched k;
  k_set_sched ts s (k : Kernel A M) : set_sched (k_put_timers ts k) s = k_put_timers ts (set_sched k s);
  end_interrupt_sched v (k : Kernel A M) : sched (end_interrupt v k) = sched k;
  end_interrupt_timers v (k : Kernel A M) : k_timers (end_interrupt v k) = k_timers k;
  k_timers_sched (k : Kernel A M) s : k_timers (set_sched k s) = k_timers k;
}.

(** The registers a system call may change. *)
Definition results (n : Z) : list nat :=
  if (n =? SYCRECEIVE) || (n =? SYS_RECEIVE_AT) then [0; 3; 4]%nat
  else if (n =? SYS_ALLOC_PAGE) || (n =? SYS_WAIT) then [0; 1]%nat
  else if n =? SYSYIELD then [] else [0]%nat.

(** [f'] is [f] but for the registers [rs]. *)
Definition same_but (rs : list nat) (f f' : TrapFrame) : Prop :=
  (forall i, i ∉ rs -> xs f' !! i = xs f !! i) /\ esr_el1 f' = esr_el1 f /\ elr_el1 f' = elr_el1 f /\
  far_el1 f' = far_el1 f /\ interrupt_type f' = interrupt_type f /\ sp f' = sp f /\ spsr f' = spsr f.

Lemma same_but_set rs f f' i v : same_but rs f f' -> i ∈ rs -> same_but rs f (set_x f' i v).
Proof.
  intros (Hx & H) Hi; split; [|exact H]; intros j Hj; cbn; rewrite list_lookup_insert_ne; [by apply Hx|].
  by intros ->.
Qed.

Lemma same_but_refl rs f : same_but rs f f.
Proof. by split_and!. Qed.

Ltac in_results := cbn; repeat first [left | right].

Section trap_proofs.
Context {A M : Type} `{!AspaceOps A M, !UserMem A M, !LoaderOps A M, !TrapWorld (Kernel A M)}.
Context (others : ProcId -> Kernel A M -> res (Kernel A M)) (trapret : Z) (reg : Registry) (fuel : nat).
Implicit Types k : Kernel A M.
Notation svc := (svc others trapret reg fuel).
Notation trap := (trap others trapret reg fuel).
Notation trap_unsafe := (trap_unsafe others trapret reg fuel).

(** The frame an outcome returns with, when it returns. *)
Definition returns (rs : list nat) (f : TrapFrame) (o : Outcome (Kernel A M)) : Prop :=
  match o with Eret f' _ => same_but rs f f' | _ => True end.

Lemma ret1_returns rs f r : 0%nat ∈ rs -> returns rs f (ret1 f r).
Proof. destruct r; cbn; intros; by apply same_but_set; [apply same_but_refl|]. Qed.

Lemma ret2_returns f r : returns [0; 1]%nat f (ret2 f r).
Proof. destruct r as [[??]?]; cbn; repeat (apply same_but_set; [|by in_results]); apply same_but_refl. Qed.

Lemma ret3_returns f r : returns [0; 3; 4]%nat f (ret3 f r).
Proof. destruct r as [[[??]?]?]; cbn; repeat (apply same_but_set; [|by in_results]); apply same_but_refl. Qed.

Lemma fmap_returns {B} rs f (g : B -> Outcome (Kernel A M)) (m : res B) o :
  (forall b, returns rs f (g b)) -> g <$> m = Ok o -> returns rs f o.
Proof. intros Hg (b & _ & <-)%fmap_Ok; apply Hg. Qed.

Lemma svc_returns f k o : svc f k = Ok o -> returns (results (x f 8)) f o.
Proof.
  unfold Trap.svc; generalize (x f 8) as n; intros n.
  repeat match goal with
  | |- (if ?n =? ?c then _ else _) = _ -> _ => destruct (Z.eqb_spec n c) as [->|?]
  end;
  try (intros [= <-]); try (intros H; eapply fmap_returns; [|exact H]; intros b); try exact I;
  try apply ret2_returns; try apply ret3_returns; try (apply ret1_returns; left); try apply same_but_refl;
  apply same_but_set; (apply same_but_refl || left).
Qed.
End trap_proofs.

Section trap_claims.
Context {A M : Type} `{!AspaceOps A M, !UserMem A M, !LoaderOps A M, !TrapWorld (Kernel A M)}.
Context (others : ProcId -> Kernel A M -> res (Kernel A M)) (trapret : Z) (reg : Registry) (fuel : nat).
Implicit Types k : Kernel A M.
Notation trap_unsafe := (trap_unsafe others trapret reg fuel).

(** A trap that returns to the interrupted context returns with its frame
    intact: after an interrupt every register is what it was, and after a
    system call the only registers that may differ are the result registers of
    that call (x0; x0 and x1; x0, x3 and x4; none for a yield); the return
    address, the stack pointer and the saved PSTATE never change. *)
Lemma trap_preserves_registers (iar : option Z) (f f' : TrapFrame) (k k' : Kernel A M)
    (Htrap : trap_unsafe iar f k = Ok (Eret f' k')) :
  f' = f \/ exception_class_enum (esr_el1 f) = Val SvcAarch64 /\ same_but (results (x f 8)) f f'.
Proof.
  unfold Trap.trap_unsafe in Htrap; apply bind_Ok in Htrap as (o & Ho & Heq).
  destruct o as [f1 k1|k1|k1]; [|discriminate Heq..]; injection Heq as -> _.
  unfold trap in Ho; destruct (exception_type (interrupt_type f)) as [exc|]; [|discriminate Ho].
  destruct (is_irq exc); [apply fmap_Ok in Ho as (k2 & _ & [= <- _]); by left|].
  destruct (exception_class_enum (esr_el1 f)) as [[]|]; try discriminate Ho;
    try (case_decide; [apply fmap_Ok in Ho as (k2 & _ & [=])|discriminate Ho]).
  right; split; [done|]; exact (svc_returns others trapret reg fuel _ _ _ Ho).
Qed.

Definition syscalls : list Z :=
  [SYSEXIT; SYSYIELD; SYCSEND; SYCRECEIVE; SYCREPLY; SYSIRQCLAIM; SYSMAPMMIO; SYCCREATECHAN; SYS_ALLOC; SYS_FREE;
   SYS_SPAWN; SYS_CLOCK; SYS_RECEIVE_AT; SYS_ALLOC_PAGE; SYS_WAIT; SYS_KILL; SYS_SETPRIO; SYS_PRINT].

Definition is_svc (f : TrapFrame) : Prop :=
  (exists exc, exception_type (interrupt_type f) = Some exc /\ is_irq exc = false) /\ ec (esr_el1 f) = 21.

(** A data or instruction abort taken from EL0. *)
Definition is_abort (f : TrapFrame) : Prop := interrupt_type f = 8 /\ (ec (esr_el1 f) = 36 \/ ec (esr_el1 f) = 32).

(** The backtrace of a process can be printed: the reads of its stack do not fault,
    and the symbols of its image, if it has any, are well formed. *)
Definition traceable (k : Kernel A M) (cur : ProcId) : Prop :=
  Bk.reads_return k /\ forall p, Proc.slot (sched k) cur = Some p -> Bk.symbols_ok (sym p).

(** A trap that ends the current process, with the status it gets. *)
Inductive fatal (f : TrapFrame) : Z -> Prop :=
  | fatal_abort : is_abort f -> fatal f FAULT_STATUS
  | fatal_exit : is_svc f -> x f 8 = SYSEXIT -> fatal f (x f 0)
  | fatal_unknown : is_svc f -> x f 8 ∉ syscalls -> fatal f (x f 8).

Lemma svc_dispatch f k iar : is_svc f -> trap others trapret reg fuel iar f k = svc others trapret reg fuel f k.
Proof.
  intros [(exc & He & Hi) Hec]; unfold trap; rewrite He, Hi; unfold exception_class_enum; by rewrite Hec.
Qed.

Lemma svc_unknown f k : x f 8 ∉ syscalls -> svc others trapret reg fuel f k = Gone <$> exit_current others (x f 8) k.
Proof.
  unfold svc, syscalls; generalize (x f 8) as n; intros n Hn.
  repeat (apply not_elem_of_cons in Hn as [? Hn]); rewrite !(proj2 (Z.eqb_neq n _)) by done; done.
Qed.

Lemma fatal_ends f st k cur iar : fatal f st -> (is_abort f -> traceable k cur) -> sched_inv (sched k) -> tpidr (sched k) = Some cur ->
  exists k', trap others trapret reg fuel iar f k = Ok (Gone k') /\ dead k k' cur st.
Proof.
  intros Hf Hbt Hinv Htp; destruct Hf as [Hab|Hsvc Hx|Hsvc Hx].
  - destruct (Hbt Hab) as [Hrd Hsy]; destruct (wi_current _ (si_weak _ Hinv) cur Htp) as [pc Hpc].
    destruct (Bk.backtrace_ok k (x f 29) (x f 30) (sym pc) Hrd (Hsy pc Hpc)) as (out & Eo & _).
    pose proof (Bk.fault_spec others k cur pc (x f 29) (x f 30) Hinv Htp Hpc) as Hfs; rewrite Eo in Hfs; destruct Hfs as (k' & Hk' & Hd).
    destruct Hab as [Hty Hec]; exists k'; split; [|done]; unfold trap; rewrite Hty; cbn; unfold exception_class_enum; destruct Hec as [-> | ->]; cbn; by rewrite Hk'.
  - destruct (exit_current_spec others k cur (x f 0) Hinv Htp) as (k' & Hk' & Hd); exists k'; split; [|done].
    rewrite svc_dispatch by done; unfold svc; rewrite Hx; cbn; by rewrite Hk'.
  - destruct (exit_current_spec others k cur (x f 8) Hinv Htp) as (k' & Hk' & Hd); exists k'; split; [|done].
    rewrite svc_dispatch, svc_unknown by done; by rewrite Hk'.
Qed.

Lemma sched_inv_enter s : sched_inv s -> sched_inv (@Proc.enter_interrupt A s).
Proof. intros H; by apply (sched_inv_regs s). Qed.


(** When the backtrace of a faulting process panics, so does the kernel. *)
Lemma abort_backtrace_panics (iar : option Z) (f : TrapFrame) (k : Kernel A M) (cur : ProcId) (pc : Process A)
    (Ha : is_abort f) (Hinv : sched_inv (sched k)) (Htp : tpidr (sched k) = Some cur) (Hpc : Proc.slot (sched k) cur = Some pc)
    (Hbt : Bk.print_backtrace k (x f 29) (x f 30) (sym pc) = Panic) : trap_unsafe iar f k = Panic.
Proof.
  set (k0 := on_sched Proc.enter_interrupt k).
  pose proof (Bk.fault_spec others k0 cur pc (x f 29) (x f 30) (sched_inv_enter _ Hinv) Htp Hpc) as Hfs.
  rewrite (Bk.backtrace_same k k0), Hbt in Hfs by done.
  destruct Ha as [Hty Hec]; unfold Trap.trap_unsafe, trap; fold k0; rewrite Hty; cbn; unfold exception_class_enum; destruct Hec as [-> | ->]; cbn; by rewrite Hfs.
Qed.

(** The other exceptions of user code are not isolated: an undefined
    instruction, a misaligned program counter or stack pointer, or a breakpoint
    instruction executed at EL0 puts the kernel into its endless loop. *)
Lemma el0_undefined_spins (iar : option Z) (f : TrapFrame) (k : Kernel A M)
    (Hty : interrupt_type f = 8)
    (Hec : ec (esr_el1 f) = 0 \/ ec (esr_el1 f) = 34 \/ ec (esr_el1 f) = 38 \/ ec (esr_el1 f) = 60) :
  trap_unsafe iar f k = Ok (Spin (on_sched Proc.enter_interrupt k)).
Proof.
  unfold Trap.trap_unsafe, trap; rewrite Hty; cbn; unfold exception_class_enum.
  by destruct Hec as [-> |[-> |[-> | ->]]].
Qed.

(** *** Preemption *)

Context `{!TrapLaws A M}.

#[local] Instance kernel_timer_laws : Tm.TimerLaws (Kernel A M).
Proof.
  split; cbn.
  - apply k_timers_put.
  - apply k_put_put.
  - apply k_put_same.
  - intros id ts k; by rewrite k_put_sched, k_set_sched.
Qed.

Lemma set_sched_same k : set_sched k (sched k) = k.
Proof. by destruct k. Qed.

Lemma need_resched_same (s : Sched A) : need_resched s = true -> with_need_resched s true = s.
Proof. destruct s; cbn; by intros ->. Qed.

(** Any number of ticks raises the flag. *)
Lemma tick_fire_all ids : forall k, ids <> [] ->
  (Tm.fire_all ids k).2 = set_sched k (with_need_resched (sched k) true).
Proof.
  assert (Hagain : forall ids k, need_resched (sched k) = true -> (Tm.fire_all ids k).2 = k).
  { clear ids; induction ids as [|id ids IH]; intros k Hk; cbn; [done|].
    rewrite need_resched_same, set_sched_same by done; specialize (IH k Hk).
    destruct (Tm.fire_all ids k); exact IH. }
  destruct ids as [|id ids]; intros k Hne; [done|]; cbn [Tm.fire_all Tm.fire kernel_timers Proc.tick_fire].
  specialize (Hagain ids (set_sched k (with_need_resched (sched k) true)) eq_refl).
  destruct (Tm.fire_all ids _); exact Hagain.
Qed.

(** The state of the scheduler after the deadlines are checked, as the tail of
    the interrupt path sees it. *)
Definition after_deadlines (s : Sched A) : Sched A :=
  Proc.check_deadlines (with_need_resched (with_need_resched s true) false).

Lemma after_deadlines_inv s : sched_inv s -> sched_inv (after_deadlines s).
Proof. intros H; apply check_deadlines_inv; by apply (sched_inv_regs s). Qed.

Lemma after_deadlines_slot s j : Proc.slot (after_deadlines s) j = Proc.expire (counter s) (Proc.slot s j).
Proof. unfold after_deadlines; by rewrite slot_check_deadlines. Qed.

Lemma timer_irq_spec v k cur pc : sched_inv (sched k) -> tpidr (sched k) = Some cur ->
  Proc.slot (sched k) cur = Some pc ->
  int_id v < INTID_SPECIAL_START -> timer_intid k = Some (int_id v) ->
  let now := counter (sched k) in
  NoDup (Tm.flatten (Tm.slots (k_timers k))) ->
  (forall id, Some id ∈ Tm.slots (k_timers k) -> Tm.timer_ok now (Tm.timer (k_timers k) id)) ->
  Tm.due_ids now (k_timers k) (Tm.flatten (Tm.slots (k_timers k))) <> [] ->
  (exists j q, j <> cur /\ Proc.slot (after_deadlines (sched k)) j = Some q /\ state q = Runnable) ->
  exists ts' nid p s1,
    let k1 := set_sched (end_interrupt v (k_put_timers ts' (set_sched k (with_need_resched (sched k) true)))) s1 in
    irq others (Some v) k =
      (k2 ← others cur k1; Ok (on_sched Proc.count_preemption (on_sched (fun s => Proc.resume_handler s cur) k2))) /\
    Tm.armed ts' /\ (Tm.enabled ts' = true -> now < Tm.cval ts') /\
    nid <> cur /\ Proc.slot (after_deadlines (sched k)) nid = Some p /\ state p = Runnable /\
    (forall j q, j <> cur -> Proc.slot (after_deadlines (sched k)) j = Some q -> state q = Runnable ->
       effective (prio p) <= effective (prio q)) /\
    tpidr s1 = Some nid /\ ttbr0 s1 = Some (aspace p) /\
    Proc.slot s1 nid = Some (with_state p Running) /\
    Proc.slot s1 cur = Some (with_context (with_state pc Runnable) Suspended).
Proof.
  intros Hinv Htp Hpc Hspec Htid now Hnd Hok Hdue (j0 & q0 & Hj0 & Hq0 & Hr0).
  destruct (Tm.handler_spec k) as (ts' & Hh & _ & _ & Harm & Hfut); [exact Hnd|exact Hok|].
  cbn [Tm.timers Tm.count Tm.put_timers kernel_timers] in Hh; rewrite tick_fire_all in Hh by exact Hdue.
  set (s0 := with_need_resched (sched k) true) in *; set (sd := after_deadlines (sched k)).
  assert (Hsd : sched_inv sd) by (by apply after_deadlines_inv).
  assert (Hpcd : Proc.slot sd cur = Some pc).
  { unfold sd; rewrite after_deadlines_slot, Hpc; pose proof (si_current _ Hinv cur pc Htp Hpc) as Hrun.
    cbn; destruct (deadline pc); [|done]; rewrite decide_False; [done|]; rewrite Hrun; by intros [? _]. }
  destruct (switch_out_spec sd cur pc Runnable (si_weak _ Hsd) Htp Hpcd ltac:(by left)) as (b & s1 & Hsw & Hout).
  destruct b; [|destruct Hout as [Hno _]; by destruct (Hno j0 q0 Hj0 Hq0)].
  destruct Hout as (nid & p & Hne & Hp & Hst & Hbest & Htp1 & Htt & _ & Hs & _).
  exists ts', nid, p, s1; intros k1; pose proof (Hs nid) as Hsn; pose proof (Hs cur) as Hsc.
  rewrite Z.eqb_refl in Hsn; rewrite (proj2 (Z.eqb_neq nid cur)), Z.eqb_refl in Hsc by done.
  rewrite (si_current _ Hinv cur pc Htp Hpc), decide_True in Hsc by done.
  split_and!; auto; unfold irq, try_ack_interrupt.
  rewrite (proj2 (Z.leb_gt _ _)), Htid by lia; cbn [unwrap mbind res_bind]; rewrite Z.eqb_refl, Hh; cbn [mbind res_bind].
  unfold kern_irq_resched; rewrite end_interrupt_sched, k_put_sched; cbn [set_sched sched].
  unfold Proc.irq_resched; cbn [s0 with_need_resched need_resched negb]; fold s0.
  change (Proc.check_deadlines (with_need_resched s0 false)) with sd.
  change (tpidr sd) with (tpidr (sched k)); rewrite Htp; unfold Proc.resched; rewrite Hsw; cbn [mbind res_bind].
  change (tpidr s0) with (tpidr (sched k)); rewrite Htp; cbn [unwrap mbind res_bind]; unfold switched_away; fold k1.
  by destruct (others cur k1).
Qed.

(** C21: preemption, end to end: the timer interrupt arrives while a process
    runs, a timer is due and another process is Runnable (or its deadline has
    just passed).  Before the CPU changes hands the compare register is armed
    in the future (or the timer is off) and the interrupt is ended; the CPU
    then goes to a Runnable process that no other one outranks, with its
    address space installed, and the interrupted process is left Runnable;
    when it is scheduled again it returns to exactly the frame it was
    interrupted in. *)
Theorem tick_preempts (v : Z) (f : TrapFrame) (k : Kernel A M) (cur : ProcId) (pc : Process A)
    (Hty : interrupt_type f = 9) (Hinv : sched_inv (sched k)) (Htp : tpidr (sched k) = Some cur)
    (Hpc : Proc.slot (sched k) cur = Some pc)
    (Hspec : int_id v < INTID_SPECIAL_START)
    (Htid : timer_intid (on_sched Proc.enter_interrupt k) = Some (int_id v))
    (Hnd : NoDup (Tm.flatten (Tm.slots (k_timers k))))
    (Hok : forall id, Some id ∈ Tm.slots (k_timers k) -> Tm.timer_ok (counter (sched k)) (Tm.timer (k_timers k) id))
    (Hdue : Tm.due_ids (counter (sched k)) (k_timers k) (Tm.flatten (Tm.slots (k_timers k))) <> [])
    (Hother : exists j q, j <> cur /\ Proc.slot (after_deadlines (sched k)) j = Some q /\ state q = Runnable) :
  exists ts' k0 nid p s1, let k1 := set_sched (end_interrupt v (k_put_timers ts' k0)) s1 in
    trap_unsafe (Some v) f k =
      (k2 ← others cur k1;
       Ok (Eret f (on_sched Proc.exit_interrupt
             (on_sched Proc.count_preemption (on_sched (fun s => Proc.resume_handler s cur) k2))))) /\
    Tm.armed ts' /\ (Tm.enabled ts' = true -> counter (sched k) < Tm.cval ts') /\
    nid <> cur /\ Proc.slot (after_deadlines (sched k)) nid = Some p /\ state p = Runnable /\
    (forall j q, j <> cur -> Proc.slot (after_deadlines (sched k)) j = Some q -> state q = Runnable ->
       effective (prio p) <= effective (prio q)) /\
    tpidr s1 = Some nid /\ ttbr0 s1 = Some (aspace p) /\
    Proc.slot s1 cur = Some (with_context (with_state pc Runnable) Suspended).
Proof.
  set (ke := on_sched Proc.enter_interrupt k).
  assert (Hkt : k_timers ke = k_timers k) by apply k_timers_sched.
  destruct (timer_irq_spec v ke cur pc (sched_inv_enter _ Hinv) Htp Hpc Hspec Htid)
    as (ts' & nid & p & s1 & Hirq & Harm & Hfut & Hne & Hp & Hst & Hbest & Ht1 & Htt & _ & Hcur);
    rewrite ?Hkt; auto.
  exists ts', (set_sched ke (with_need_resched (sched ke) true)), nid, p, s1; intros k1; split_and!; auto.
  unfold Trap.trap_unsafe, trap; rewrite Hty; cbn [exception_type is_irq]; fold ke; rewrite Hirq; fold k1.
  by destruct (others cur k1).
Qed.
End trap_claims.

(** ** A small machine: two processes, the tick, no user memory *)
Module TrDemo.

Record dmem := { tms : Tm.Timers; eois : list Z }.

#[export] Instance dmem_aspace : AspaceOps Z dmem := {
  map_user_data_page_pa _ _ m := Ok (Err OutOfSpace, m);
  backing _ _ _ := None;
  space_ok _ _ := True;
  usable _ := True;
}.

#[export] Instance dmem_user : UserMem Z dmem := {
  user_range_ok _ _ _ _ _ := Ok false;
  load _ _ _ n := Ok (replicate (Z.to_nat n) 0);
  store m _ _ _ := Ok m;
  map_mmio _ _ _ m := Ok (Err OutOfSpace, m);
  plain _ _ _ _ := True;
}.

#[export] Instance dmem_loader : LoaderOps Z dmem := {
  new_aspace _ := Panic;
  map_user_page _ _ _ m := Ok (Err OutOfSpace, m);
  kstore m _ _ := Ok m;
  user_byte _ _ _ := None;
  user_entry _ _ _ := None;
  kpage _ _ _ _ := False;
  free_pages _ := 0;
  mem_ok _ := True;
  aspace_ok _ _ := False;
}.

#[export] Instance dmem_trap : TrapWorld (Kernel Z dmem) := {
  k_timers k := tms (mem k);
  k_put_timers ts k := set_mem k {| tms := ts; eois := eois (mem k) |};
  timer_intid _ := Some 30;
  end_interrupt v k := set_mem k {| tms := tms (mem k); eois := eois (mem k) ++ [v] |};
}.

#[export] Instance dmem_trap_laws : TrapLaws Z dmem.
Proof. split; try done; intros []; cbn; by destruct mem. Qed.

Definition tick_table : Tm.Timers :=
  {| Tm.statics := {[ 0 := {| Tm.duration := 100; Tm.repeat := true; Tm.deadline_ticks := 50;
                              Tm.period_ticks := 100; Tm.active := true |} ]};
     Tm.slots := [Some 0; None; None; None; None; None; None; None]; Tm.cval := 50; Tm.enabled := true |}.

Definition two_running : Kernel Z dmem :=
  {| sched := with_counter demo_run 60; mem := {| tms := tick_table; eois := [] |}; channels := ∅; nused := 0;
     routes := []; nirqueued := 0; gic_enabled := []; console := [] |}.

Definition frame (ty ec n : Z) : TrapFrame :=
  {| xs := <[8%nat := n]> (replicate 31 7); esr_el1 := Z.shiftl ec 26; elr_el1 := 0x100010; far_el1 := 0;
     interrupt_type := ty; sp := 0x110000; spsr := 0 |}.

(** Nobody else runs: the process has the CPU back at once. *)
Definition at_once : ProcId -> Kernel Z dmem -> res (Kernel Z dmem) := fun _ k => Ok k.

Lemma two_running_inv : sched_inv (sched two_running).
Proof. apply (sched_inv_regs demo_run); [exact demo_run_inv|reflexivity..]. Qed.

Lemma two_running_reads fp : exists o, Bk.read_frame two_running fp = Ok o.
Proof.
  unfold Bk.read_frame, read_user, range_ok; change (Z.min 16 16 =? 0) with false.
  destruct (ttbr0 (sched two_running)); cbn [user_range_ok dmem_user mbind res_bind negb]; by eexists.
Qed.


Lemma tick_preempts_witness : exists nid k',
  trap_unsafe at_once 0 empty_registry 1 (Some 30) (frame 9 0 0) two_running = Ok (Eret (frame 9 0 0) k') /\ nid <> 0.
Proof.
  destruct (Proc.slot (sched two_running) 0) as [pc|] eqn:Hpc; [|vm_compute in Hpc; discriminate].
  destruct (tick_preempts at_once 0 empty_registry 1 30 (frame 9 0 0) two_running 0 pc)
    as (ts' & k0 & nid & p & s1 & H & _ & _ & Hne & _).
  - reflexivity.
  - exact two_running_inv.
  - vm_compute; reflexivity.
  - exact Hpc.
  - reflexivity.
  - reflexivity.
  - vm_compute; repeat constructor; intros Hin; by apply elem_of_nil in Hin.
  - intros id Hid; cbn [k_timers dmem_trap tms mem two_running Tm.slots tick_table] in Hid.
    repeat (apply elem_of_cons in Hid as [Hid|Hid]; [try discriminate; injection Hid as ->;
      vm_compute; intros; split_and!; (reflexivity || discriminate)|]); by apply elem_of_nil in Hid.
  - vm_compute; discriminate.
  - destruct (Proc.slot (after_deadlines (sched two_running)) 1) as [q|] eqn:Hq; [|vm_compute in Hq; discriminate].
    exists 1, q; split; [discriminate|]; split; [exact Hq|]; vm_compute in Hq; by injection Hq as <-.
  - exists nid; eexists; split; [exact H|exact Hne].
Defined.
End TrDemo.
