(* ===== verification/Userlib.v ===== *)
(** * The user library ([std/src])

    What a user program links: the trap into the kernel, the wrappers of the
    system calls, the heap behind [alloc], the memory builtins of the compiler
    and the bounded formatting of the print macros.  The trap runs the kernel's
    own entry of [Trap], so the wrappers are checked against the handlers. *)

From S2P Require Import Prelude Abi Addr BitmapAlloc Ipc Sched Heap KernIpc Vm Elf Loader Timer Trap.

Module Us.

(** ** Results *)

Inductive SpawnErr := BadIndex | NoSlot | BadState.
Inductive WaitError := WTimeout | WBadId.
Inductive KillError := KBadId.
Inductive SetPrioError := PBadId | PBadPrio.

Section sys.
Context {A M : Type} `{!AspaceOps A M, !UserMem A M, !LoaderOps A M, !TrapWorld (Kernel A M)}.
Context (others : ProcId -> Kernel A M -> res (Kernel A M)) (trapret : Z) (reg : Registry) (fuel : nat).
Notation K := (Kernel A M).
Implicit Types k : K.

(** ** The trap ([sys.rs]) *)

(** The frame at [svc #0]: the number in x8, the arguments in x0 to x4. *)
Definition svc_frame (n a0 a1 a2 a3 a4 : Z) : TrapFrame :=
  {| xs := [a0; a1; a2; a3; a4; 0; 0; 0; n] ++ replicate 22 0; esr_el1 := Z.shiftl 21 26; elr_el1 := 0; far_el1 := 0;
     interrupt_type := 8; sp := 0; spsr := 0 |}.

(** [sys]: the results are x0, x3 and x4.  A call that does not come back is a
    loop that does not end. *)
Definition sys (n a0 a1 a2 a3 a4 : Z) (k : K) : res ((Z * Z * Z) * K) :=
  o ← trap_unsafe others trapret reg fuel None (svc_frame n a0 a1 a2 a3 a4) k;
  match o with Eret f k' => Ok ((x f 0, x f 3, x f 4), k') | _ => Timeout end.

(** ** Messages ([ipc.rs]): a buffer is its address and length *)

Definition create_chan (k : K) : res (Z * K) :=
  '((h, _, _), k1) ← sys SYCCREATECHAN 0 0 0 0 0 k; Ok (h, k1).

Definition create_pair (k : K) : res ((Z * Z) * K) :=
  '(a, k1) ← create_chan k; '(b, k2) ← create_chan k1; Ok ((a, b), k2).

Definition send (handle opcode tag ptr n : Z) (k : K) : res (Z * K) :=
  '((r, _, _), k1) ← sys SYCSEND handle ptr n opcode tag k; Ok (r, k1).

Definition receive (handle ptr n : Z) (k : K) : res ((Z * Z * Z) * K) :=
  '((op, bytes, tag), k1) ← sys SYCRECEIVE handle ptr n 0 0 k; Ok ((op mod W16, bytes, tag mod W32), k1).

Definition receive_at (handle ptr n deadline : Z) (k : K) : res ((Z * Z * Z) * K) :=
  '((op, bytes, tag), k1) ← sys SYS_RECEIVE_AT handle ptr n deadline 0 k; Ok ((op mod W16, bytes, tag mod W32), k1).

Definition reply (handle opcode tag ptr n : Z) (k : K) : res K :=
  '(_, k1) ← sys SYCREPLY handle ptr n opcode tag k; Ok k1.

(** ** Memory ([mem.rs]) *)

Definition pages_for (size : Z) : Z := Z.max (div_ceil size PAGE_SIZE) 1.

Definition map_mmio (phys va size : Z) (k : K) : res (Z * K) :=
  '((r, _, _), k1) ← sys SYSMAPMMIO phys va size 0 0 k; Ok (r, k1).

Definition alloc_page (k : K) : res (option (Z * Z) * K) :=
  '((va, pa, _), k1) ← sys SYS_ALLOC_PAGE 0 0 0 0 0 k;
  Ok (if va <? PAGE_SIZE then None else Some (va, pa), k1).

(** [GlobalAlloc::alloc] with the watermark [HEAP.brk]: the block (none for the
    null pointer) and the watermark after. *)
Definition alloc (size brk : Z) (k : K) : res (option Z * Z * K) :=
  needed ← umul (pages_for size) PAGE_SIZE;
  '((va, _, _), k1) ← sys SYS_ALLOC needed 0 0 0 0 k;
  if va <? PAGE_SIZE then Ok (None, brk, k1) else
  brk' ← uadd va needed; Ok (Some va, brk', k1).

Definition dealloc (ptr size brk : Z) (k : K) : res (Z * K) :=
  n ← umul (pages_for size) PAGE_SIZE;
  top ← uadd ptr n;
  if top =? brk then '(_, k1) ← sys SYS_FREE ptr 0 0 0 0 k; Ok (ptr, k1) else Ok (brk, k).

(** ** Processes ([process.rs], [thread.rs]) and the clock ([time.rs]) *)

Definition spawn (index state prio : Z) (k : K) : res (result Z SpawnErr * K) :=
  '((id, _, _), k1) ← sys SYS_SPAWN index state prio 0 0 k;
  Ok (if id =? SPAWN_BAD_INDEX then Err BadIndex
      else if id =? SPAWN_NO_SLOT then Err NoSlot
      else if id =? SPAWN_BAD_STATE then Err BadState
      else if id <? SPAWN_ERR_MIN then Val id else Err BadState, k1).

Definition thread_spawn (index state : Z) (k : K) : res (result Z SpawnErr * K) := spawn index state 128 k.

(** [exit] spins if the call should come back. *)
Definition exit (code : Z) (k : K) : res K := _ ← sys SYSEXIT code 0 0 0 0 k; Timeout.

Definition yield_now (k : K) : res K := '(_, k1) ← sys SYSYIELD 0 0 0 0 0 k; Ok k1.

Definition wait (self deadline : Z) (k : K) : res (result Z WaitError * K) :=
  '((id, status, _), k1) ← sys SYS_WAIT self deadline 0 0 0 k;
  Ok (if id =? WAIT_BAD_ID then Err WBadId else if id =? WAIT_TIMEOUT then Err WTimeout else Val status, k1).

Definition wait_any (deadline : Z) (k : K) : res (result (Z * Z) WaitError * K) :=
  '((id, status, _), k1) ← sys SYS_WAIT 0 deadline 0 0 0 k;
  Ok (if id =? WAIT_BAD_ID then Err WBadId else if id =? WAIT_TIMEOUT then Err WTimeout else Val (id, status), k1).

Definition kill (self : Z) (k : K) : res (result unit KillError * K) :=
  '((r, _, _), k1) ← sys SYS_KILL self 0 0 0 0 k;
  Ok (if r =? KILL_BAD_ID then Err KBadId else Val tt, k1).

(** [prio] is a [Priority], a byte. *)
Definition set_priority (target prio : Z) (k : K) : res (result unit SetPrioError * K) :=
  '((r, _, _), k1) ← sys SYS_SETPRIO target prio 0 0 0 k;
  Ok (if r =? 0 then Val tt else if r =? SETPRIO_BAD_PRIO then Err PBadPrio else Err PBadId, k1).

Definition COUNTER_FREQ : Z := 1000000000.
Definition FRAME_PERIOD : Z := 16666667.

Definition now (k : K) : res (Z * K) := '((t, _, _), k1) ← sys SYS_CLOCK 0 0 0 0 0 k; Ok (t, k1).

Definition from_secs (secs : Z) : res Z := umul secs COUNTER_FREQ.

Definition deadline_from (ticks : Z) (k : K) : res (Z * K) :=
  '(t, k1) ← now k; Ok (Z.min (t + ticks) (W64 - 1), k1).

(** ** What a call is *)

Lemma sys_svc n a0 a1 a2 a3 a4 k : sys n a0 a1 a2 a3 a4 k =
  (o ← svc others trapret reg fuel (svc_frame n a0 a1 a2 a3 a4) (on_sched Proc.enter_interrupt k);
   match o with Eret f k' => Ok ((x f 0, x f 3, x f 4), on_sched Proc.exit_interrupt k') | _ => Timeout end).
Proof.
  unfold sys, trap_unsafe; rewrite svc_dispatch by (split; [by exists SyncInvalidEL0_64|done]).
  destruct (svc _ _ _ _ _ _) as [o| |]; [|done..]; by destruct o.
Qed.

(** A handler with one result: it is the first. *)
Lemma ret1_regs n a0 a1 a2 a3 a4 (r : Z * K) : let f := svc_frame n a0 a1 a2 a3 a4 in
  match ret1 f r with Eret f' k' => Ok ((x f' 0, x f' 3, x f' 4), on_sched Proc.exit_interrupt k') | _ => Timeout end =
  Ok ((r.1, a3, a4), on_sched Proc.exit_interrupt r.2).
Proof. by destruct r. Qed.

(** A handler with two results writes x1, where the library does not look. *)
Lemma ret2_regs n a0 a1 a2 a3 a4 (r : (Z * Z) * K) : let f := svc_frame n a0 a1 a2 a3 a4 in
  match ret2 f r with Eret f' k' => Ok ((x f' 0, x f' 3, x f' 4), on_sched Proc.exit_interrupt k') | _ => Timeout end =
  Ok ((r.1.1, a3, a4), on_sched Proc.exit_interrupt r.2).
Proof. by destruct r as [[] ?]. Qed.

Lemma ret3_regs n a0 a1 a2 a3 a4 (r : (Z * Z * Z) * K) : let f := svc_frame n a0 a1 a2 a3 a4 in
  match ret3 f r with Eret f' k' => Ok ((x f' 0, x f' 3, x f' 4), on_sched Proc.exit_interrupt k') | _ => Timeout end =
  Ok (r.1, on_sched Proc.exit_interrupt r.2).
Proof. by destruct r as [[[]] ?]. Qed.

(** The calls of the heap, as the kernel serves them. *)
Lemma sys_alloc_call count k : sys SYS_ALLOC count 0 0 0 0 k =
  ('(va, k1) ← sys_alloc count (on_sched Proc.enter_interrupt k); Ok ((va, 0, 0), on_sched Proc.exit_interrupt k1)).
Proof.
  rewrite sys_svc; change (svc _ _ _ _ _ _) with (ret1 (svc_frame SYS_ALLOC count 0 0 0 0) <$> sys_alloc count (on_sched Proc.enter_interrupt k)).
  by destruct (sys_alloc _ _) as [[va k1]| |].
Qed.

Lemma sys_free_call va k : sys SYS_FREE va 0 0 0 0 k =
  (let '(r, k1) := sys_free va (on_sched Proc.enter_interrupt k) in Ok ((r, 0, 0), on_sched Proc.exit_interrupt k1)).
Proof. rewrite sys_svc; by change (svc _ _ _ _ _ _) with (Ok (ret1 (svc_frame SYS_FREE va 0 0 0 0) (sys_free va (on_sched Proc.enter_interrupt k)))). Qed.

Lemma sys_alloc_page_call k : sys SYS_ALLOC_PAGE 0 0 0 0 0 k =
  ('(r, k1) ← sys_alloc_page (on_sched Proc.enter_interrupt k); Ok ((r.1, 0, 0), on_sched Proc.exit_interrupt k1)).
Proof.
  rewrite sys_svc; change (svc _ _ _ _ _ _) with (ret2 (svc_frame SYS_ALLOC_PAGE 0 0 0 0 0) <$> sys_alloc_page (on_sched Proc.enter_interrupt k)).
  destruct (sys_alloc_page _) as [[[v0 v1] k1]| |]; cbn [fmap res_fmap mbind res_bind]; [|done..]; by rewrite ret2_regs.
Qed.

Lemma sys_wait_call id d k : sys SYS_WAIT id d 0 0 0 k =
  (let '(r, s) := Proc.sys_wait (sched (on_sched Proc.enter_interrupt k)) id d in
   Ok ((r.1, 0, 0), on_sched Proc.exit_interrupt (set_sched (on_sched Proc.enter_interrupt k) s))).
Proof.
  rewrite sys_svc; change (svc _ _ _ _ _ _) with (Ok (ret2 (svc_frame SYS_WAIT id d 0 0 0)
    (let '(r, s) := Proc.sys_wait (sched (on_sched Proc.enter_interrupt k)) id d in (r, set_sched (on_sched Proc.enter_interrupt k) s)))).
  cbn [mbind res_bind]; rewrite ret2_regs; by destruct (Proc.sys_wait _ _ _) as [[] ?].
Qed.
End sys.

(** ** The heap of a program *)

Section heap.
Context {A M : Type} `{!EqDecision A, !AspaceOps A M, !AspaceLaws A M, !UserMem A M, !LoaderOps A M, !TrapWorld (Kernel A M)}.
Context (others : ProcId -> Kernel A M -> res (Kernel A M)) (trapret : Z) (reg : Registry) (fuel : nat).
Notation K := (Kernel A M).

(** A program: the kernel, the watermark of the library and the blocks that are
    allocated, with the sizes of their layouts. *)
Record Prog := { kern : K; brk : Z; live : gmap Z Z }.

Inductive HeapOp := HAlloc (size : Z) | HFree (ptr : Z).

(** A program gives back only what it has. *)
Definition heap_op (o : HeapOp) (st : Prog) : res Prog :=
  match o with
  | HAlloc size =>
      '(r, b, k) ← alloc others trapret reg fuel size (brk st) (kern st);
      Ok {| kern := k; brk := b; live := match r with Some p => <[p := size]> (live st) | None => live st end |}
  | HFree ptr =>
      match live st !! ptr with
      | Some size => '(b, k) ← dealloc others trapret reg fuel ptr size (brk st) (kern st); Ok {| kern := k; brk := b; live := delete ptr (live st) |}
      | None => Ok st
      end
  end.

Fixpoint heap_run (os : list HeapOp) (st : Prog) : res Prog :=
  match os with [] => Ok st | o :: os' => st1 ← heap_op o st; heap_run os' st1 end.

Definition span (size : Z) : Z := pages_for size * PAGE_SIZE.

(** The blocks lie in the heap, do not overlap and are backed by pages. The
    library's watermark starts at 0 and is set by the first grant: until then the
    heap is empty, from then on it is the kernel's. *)
Record prog_ok (st : Prog) (id : ProcId) (p : Process A) : Prop := {
  po_cur : Proc.current_id (sched (kern st)) = Some id;
  po_slot : Proc.slot (sched (kern st)) id = Some p;
  po_heap : heap_ok p (mem (kern st));
  po_base : PAGE_SIZE <= heap_base p;
  po_brk : brk st = heap_brk p \/ brk st = 0 /\ live st = ∅ /\ heap_brk p = heap_base p;
  po_in : forall ptr size, live st !! ptr = Some size -> 0 <= size /\ (PAGE_SIZE | ptr) /\ heap_base p <= ptr /\ ptr + span size <= heap_brk p;
  po_apart : forall ptr size ptr' size', live st !! ptr = Some size -> live st !! ptr' = Some size' -> ptr < ptr' -> ptr + span size <= ptr';
}.

Lemma div_ceil_mult n : div_ceil (n * 4096) 4096 = n.
Proof. unfold div_ceil; replace (n * 4096 + 4096 - 1) with (4095 + n * 4096) by lia; rewrite Z.div_add by lia; change (4095 / 4096) with 0; lia. Qed.

Lemma span_bounds_user size : 0 <= size -> size <= span size < size + 2 * PAGE_SIZE /\ PAGE_SIZE <= span size /\ (PAGE_SIZE | span size).
Proof.
  intros Hs; unfold span, pages_for; change PAGE_SIZE with 4096; pose proof (div_ceil_spec size 4096 Hs ltac:(lia)).
  split_and!; [lia|lia|lia|by exists (Z.max (div_ceil size 4096) 1)].
Qed.

(** Room: addresses below [top] can be mapped. *)
Context (top : Z) (Htop : top <= KZERO) (Husable : forall va, 0 <= va < top -> usable va).

Definition wanted (o : HeapOp) : Z := match o with HAlloc size => span size | HFree _ => 0 end.
Definition op_ok (o : HeapOp) : Prop := match o with HAlloc size => 0 <= size < 2 ^ 63 | HFree _ => True end.
Fixpoint room (os : list HeapOp) : Z := match os with [] => 0 | o :: os' => wanted o + room os' end.

Lemma user_alloc_ok st id p size : prog_ok st id p -> 0 <= size < 2 ^ 63 -> heap_brk p + span size + PAGE_SIZE <= top ->
  exists st' p', heap_op (HAlloc size) st = Ok st' /\ prog_ok st' id p' /\ heap_brk p' <= heap_brk p + span size /\ aspace p' = aspace p.
Proof.
  intros [Hc Hp Hh Hb Hk Hin Hap] Hs Hr; pose proof (span_bounds_user size ltac:(lia)) as (Hsp & Hsp1 & Hdiv); pose proof (ho_order _ _ Hh) as Ho.
  unfold heap_op, alloc; fold (span size); rewrite umul_ok by (fold (span size); change PAGE_SIZE with 4096 in *; unfold KZERO in *; rewrite W64_val; lia); cbn [mbind res_bind]; fold (span size).
  rewrite sys_alloc_call; unfold sys_alloc; set (ke := on_sched Proc.enter_interrupt (kern st)).
  assert (Hce : Proc.current_id (sched ke) = Some id) by exact Hc; assert (Hpe : Proc.slot (sched ke) id = Some p) by exact Hp; change (mem ke) with (mem (kern st)).
  destruct (heap_grow_correct (sched ke) (mem (kern st)) id (span size) p Hce Hpe Hh) as (r & s' & m' & p' & E & Hp' & Hh' & _ & Hres).
  { unfold is_u; change PAGE_SIZE with 4096 in *; unfold KZERO in *; rewrite W64_val; lia. }
  { intros va Hva; apply Husable; change PAGE_SIZE with 4096 in *; change PAGE_SIZE_4K with 4096 in *; lia. }
  destruct (heap_grow_brk (sched ke) s' (mem (kern st)) m' id (span size) r p Hce Hpe E) as (Hc' & q & Hq & Hbase & Has & Hbrk).
  rewrite Hp' in Hq; injection Hq as <-; rewrite E; cbn [mbind res_bind]; change PAGE_SIZE_4K with 4096 in *; change PAGE_SIZE with 4096 in *.
  destruct r as [va|].
  - destruct Hres as (-> & _); unfold span at 1 in Hbrk; change PAGE_SIZE with 4096 in Hbrk; rewrite div_ceil_mult in Hbrk; change (pages_for size * 4096) with (span size) in Hbrk.
    rewrite (proj2 (Z.ltb_ge _ _)) by lia; rewrite uadd_ok by (unfold KZERO in *; rewrite W64_val; lia); cbn [mbind res_bind].
    eexists _, p'; split; [reflexivity|]; split; [|split; [lia|done]]; split; cbn [kern brk live]; auto; try lia.
    + change PAGE_SIZE with 4096; lia.
    + intros ptr sz [[<- <-]|[Hne Hl]]%lookup_insert_Some.
      * split_and!; [lia|apply Hh|lia|lia].
      * destruct (Hin ptr sz Hl) as (? & ? & ? & ?); split_and!; [done|done|lia|lia].
    + intros ptr sz ptr' sz' [[<- <-]|[Hne Hl]]%lookup_insert_Some [[<- <-]|[Hne' Hl']]%lookup_insert_Some Hlt; [lia| | |by eapply Hap].
      * destruct (Hin ptr' sz' Hl') as (H0 & _ & _ & Hle); pose proof (span_bounds_user sz' H0); change PAGE_SIZE with 4096 in *; lia.
      * destruct (Hin ptr sz Hl) as (_ & _ & _ & Hle); lia.
  - cbn [Z.ltb Z.compare Pos.compare Pos.compare_cont]; eexists _, p'; split; [reflexivity|]; split; [|split; [lia|done]].
    rewrite Z.add_0_r in Hbrk; split; cbn [kern brk live]; rewrite ?Hbase, ?Hbrk; auto.
Qed.

Lemma user_dealloc_ok st id p ptr : prog_ok st id p ->
  exists st' p', heap_op (HFree ptr) st = Ok st' /\ prog_ok st' id p' /\ heap_brk p' <= heap_brk p /\ aspace p' = aspace p.
Proof.
  intros Hok; pose proof Hok as [Hc Hp Hh Hb Hk Hin Hap]; cbn [heap_op]; destruct (live st !! ptr) as [size|] eqn:El.
  2:{ exists st, p; split_and!; [done|done|lia|done]. }
  destruct (Hin ptr size El) as (Hs & Hd & Hlo & Hhi); pose proof (ho_order _ _ Hh) as Ho; pose proof (span_bounds_user size Hs) as (_ & Hsp & _).
  assert (Hbk : brk st = heap_brk p) by (destruct Hk as [|(_ & Hk & _)]; [done|]; by rewrite Hk, lookup_empty in El).
  change PAGE_SIZE with 4096 in *; unfold dealloc; rewrite umul_ok by (change PAGE_SIZE with 4096; fold (span size); unfold span in *; change PAGE_SIZE with 4096 in *; unfold KZERO in *; rewrite W64_val; lia); cbn [mbind res_bind]; fold (span size).
  rewrite uadd_ok by (unfold KZERO in *; rewrite W64_val; lia); cbn [mbind res_bind].
  assert (Hdel : forall b s, live st !! b = Some s -> delete ptr (live st) !! b = Some s -> b <> ptr) by (intros b s _ H1 ->; by rewrite lookup_delete_eq in H1).
  destruct (Z.eqb_spec (ptr + span size) (brk st)) as [Htp|Htp].
  - rewrite sys_free_call; unfold sys_free; set (ke := on_sched Proc.enter_interrupt (kern st)).
    assert (Hce : Proc.current_id (sched ke) = Some id) by exact Hc; assert (Hpe : Proc.slot (sched ke) id = Some p) by exact Hp.
    destruct (heap_shrink_correct (sched ke) (mem (kern st)) id ptr p Hce Hpe Hh) as (p' & Hp' & Hh' & _ & Hbase & Hbrk); [unfold is_u; unfold KZERO in *; rewrite W64_val; lia|].
    rewrite bool_decide_true in Hbrk by (split; [done|lia]).
    assert (Hsh : heap_shrink (sched ke) ptr = Proc.put_slot (sched ke) id (with_heap_brk p ptr)).
    { unfold heap_shrink, brk_shrink, Pa.is_multiple_of; rewrite Hce, Hpe, (proj2 (Z.eqb_neq PAGE_SIZE_4K 0)) by done.
      rewrite (proj2 (Z.eqb_eq (ptr mod PAGE_SIZE_4K) 0)) by (apply Z.mod_divide; done); by rewrite !(proj2 (Z.leb_le _ _)) by lia. }
    destruct (current_id_put (sched ke) id p (with_heap_brk p ptr) Hce Hpe) as [Hc' Hs']; rewrite Hsh, Hs' in Hp'; injection Hp' as <-.
    eexists _, (with_heap_brk p ptr); split; [reflexivity|]; split; [|split; [rewrite Hbrk; lia|done]].
    split; cbn [kern brk live]; rewrite ?Hbase, ?Hbrk; auto.
    + unfold on_sched; rewrite Hsh; exact Hc'.
    + unfold on_sched; rewrite Hsh; exact Hs'.
    + intros b sz [Hne Hl]%lookup_delete_Some; destruct (Hin b sz Hl) as (H0 & H1 & H2 & H3); split_and!; auto.
      destruct (Z.lt_ge_cases b ptr); [by apply (Hap b sz ptr size)|]; specialize (Hap ptr size b sz El Hl ltac:(lia)); pose proof (span_bounds_user sz H0); change PAGE_SIZE with 4096 in *; lia.
    + intros b sz b' sz' [_ Hl]%lookup_delete_Some [_ Hl']%lookup_delete_Some; by eapply Hap.
  - eexists _, p; split; [reflexivity|]; split; [|split; [lia|done]]; split; cbn [kern brk live]; auto.
    + intros b sz [_ Hl]%lookup_delete_Some; by apply Hin.
    + intros b sz b' sz' [_ Hl]%lookup_delete_Some [_ Hl']%lookup_delete_Some; by eapply Hap.
Qed.

Lemma heap_run_ok os : forall st id p, prog_ok st id p -> Forall op_ok os -> heap_brk p + room os + PAGE_SIZE <= top ->
  exists st' p', heap_run os st = Ok st' /\ prog_ok st' id p' /\ aspace p' = aspace p.
Proof.
  induction os as [|o os IH]; intros st id p Hok Hos Hr; cbn [heap_run room] in *; [by exists st, p|].
  apply Forall_cons in Hos as [Ho Hos].
  assert (Hr0 : 0 <= room os).
  { clear -Hos; induction Hos as [|o os Ho _ IH]; cbn [room]; [lia|]; destruct o as [size|]; cbn [wanted op_ok] in *; [pose proof (span_bounds_user size ltac:(lia)); change PAGE_SIZE with 4096 in *|]; lia. }
  assert (Hstep : exists st1 p1, heap_op o st = Ok st1 /\ prog_ok st1 id p1 /\ heap_brk p1 <= heap_brk p + wanted o /\ aspace p1 = aspace p).
  { destruct o as [size|ptr]; cbn [wanted op_ok] in *; [apply user_alloc_ok; [done|done|lia]|]; rewrite Z.add_0_r; by apply user_dealloc_ok. }
  destruct Hstep as (st1 & p1 & E & Hok1 & Hb1 & Ha1); rewrite E; cbn [mbind res_bind].
  destruct (IH st1 id p1 Hok1 Hos ltac:(lia)) as (st' & p' & E' & Hok' & Ha'); exists st', p'; by rewrite Ha', Ha1.
Qed.
End heap.

(** C18: a program that allocates and frees as it likes, through [alloc], [dealloc] and
    the kernel's own heap calls: no call panics or hangs; at every time the blocks
    it holds are page aligned, do not overlap, and every page of them is mapped in
    its address space. The library's watermark is 0 while nothing has been granted,
    the kernel's heap being empty, and equal to the kernel's from the first grant
    on. The layouts are below 2^63 bytes, all addresses below [top] can be mapped,
    and the pages asked for, had none been given back, and one more lie below
    [top]. (The kernel's [SYS_ALLOC_PAGE] must not be used in between.) *)
Theorem user_heap_safe {A M : Type} `{!EqDecision A, !AspaceOps A M, !AspaceLaws A M, !UserMem A M, !LoaderOps A M, !TrapWorld (Kernel A M)}
    (others : ProcId -> Kernel A M -> res (Kernel A M)) (trapret : Z) (reg : Registry) (fuel : nat)
    (os : list HeapOp) (st : @Prog A M) (id : ProcId) (p : Process A) (top : Z)
    (Htop : top <= KZERO) (Husable : forall va, 0 <= va < top -> usable va)
    (Hok : prog_ok st id p) (Hos : Forall op_ok os) (Hroom : heap_brk p + room os + PAGE_SIZE <= top) :
  exists st' p', heap_run others trapret reg fuel os st = Ok st' /\ prog_ok st' id p' /\
    forall ptr size, live st' !! ptr = Some size -> (PAGE_SIZE | ptr) /\
      (forall page, ptr <= page < ptr + size -> (PAGE_SIZE | page) -> is_Some (backing (mem (kern st')) (aspace p) page)) /\
      (forall ptr' size', live st' !! ptr' = Some size' -> ptr < ptr' -> ptr + size <= ptr').
Proof.
  destruct (heap_run_ok others trapret reg fuel top Htop Husable os st id p Hok Hos Hroom) as (st' & p' & E & Hok' & Ha).
  exists st', p'; split_and!; [done|done|]; intros ptr size Hl; destruct Hok' as [_ _ Hh _ _ Hin Hap].
  destruct (Hin ptr size Hl) as (Hs & Hd & Hlo & Hhi); pose proof (span_bounds_user size Hs) as (Hsp & _); pose proof (ho_order _ _ Hh) as Ho; split_and!; [done| |].
  - intros page Hpg Hdp; rewrite <- Ha; by apply (ho_backed _ _ Hh); [lia|].
  - intros ptr' size' Hl' Hlt; specialize (Hap ptr size ptr' size' Hl Hl' Hlt); lia.
Qed.

(** The kernel returns the second result of [SYS_ALLOC_PAGE] and of [SYS_WAIT] in
    x1, but the library reads x3, which the kernel leaves alone: whatever page
    the kernel gave, [alloc_page] reports the physical address 0, and whatever the
    child's status was, [wait] reports 0. *)
Lemma second_results_lost {A M : Type} `{!AspaceOps A M, !UserMem A M, !LoaderOps A M, !TrapWorld (Kernel A M)}
    (others : ProcId -> Kernel A M -> res (Kernel A M)) (trapret : Z) (reg : Registry) (fuel : nat) (k : Kernel A M) :
  let s := sched (on_sched Proc.enter_interrupt k) in
  (forall va pa s1 m1, heap_alloc_page s (mem k) = Ok (Some (va, pa), s1, m1) -> PAGE_SIZE <= va ->
     exists k', alloc_page others trapret reg fuel k = Ok (Some (va, 0), k')) /\
  (forall child d id st s1, Proc.sys_wait s child d = ((id, st), s1) -> id <> WAIT_BAD_ID -> id <> WAIT_TIMEOUT ->
     exists k', wait others trapret reg fuel child d k = Ok (Val 0, k')).
Proof.
  intros s; split.
  - intros va pa s1 m1 H Hv; unfold alloc_page; rewrite sys_alloc_page_call; unfold sys_alloc_page.
    change (mem (on_sched Proc.enter_interrupt k)) with (mem k); fold s; rewrite H; cbn [mbind res_bind fst]; rewrite (proj2 (Z.ltb_ge _ _)) by done; by eexists.
  - intros child d id st s1 H H1 H2; unfold wait; rewrite sys_wait_call; fold s; rewrite H; cbn [mbind res_bind fst].
    rewrite !(proj2 (Z.eqb_neq _ _)) by done; by eexists.
Qed.

(** ** The memory builtins ([builtin.rs]): loops over bytes *)

Definition Bytes : Type := Z -> Z.
Definition put (a v : Z) (m : Bytes) : Bytes := fun y => if y =? a then v else m y.

Fixpoint memcpy_loop (n : nat) (d s : Z) (m : Bytes) : Bytes :=
  match n with O => m | S n' => memcpy_loop n' (d + 1) (s + 1) (put d (m s) m) end.
Definition memcpy (dst src : Z) (n : nat) (m : Bytes) : Z * Bytes := (dst, memcpy_loop n dst src m).

Fixpoint copy_at (is_ : list Z) (dst src : Z) (m : Bytes) : Bytes :=
  match is_ with [] => m | i :: is' => copy_at is' dst src (put (dst + i) (m (src + i)) m) end.
Definition memmove (dst src : Z) (n : nat) (m : Bytes) : Z * Bytes :=
  (dst, if dst <? src then copy_at (seqZ 0 (Z.of_nat n)) dst src m else copy_at (reverse (seqZ 0 (Z.of_nat n))) dst src m).

Fixpoint memset_loop (n : nat) (d c : Z) (m : Bytes) : Bytes :=
  match n with O => m | S n' => memset_loop n' (d + 1) c (put d c m) end.
Definition memset (dst c : Z) (n : nat) (m : Bytes) : Z * Bytes := (dst, memset_loop n dst c m).

Fixpoint memcmp (a b : Z) (n : nat) (m : Bytes) : Z :=
  match n with O => 0 | S n' => if m a =? m b then memcmp (a + 1) (b + 1) n' m else m a - m b end.

(** [n] bytes from [src] put at [dst] all at once. *)
Definition moved (dst src n : Z) (m : Bytes) : Bytes := fun y => if (dst <=? y) && (y <? dst + n) then m (src + (y - dst)) else m y.
Definition text (m : Bytes) (a : Z) (n : nat) : list Z := (fun i => m (a + i)) <$> seqZ 0 (Z.of_nat n).

(** What the loop has copied when it has the indices [is_] behind it. *)
Lemma copy_at_spec is_ : forall dst src m, NoDup is_ ->
  (forall i j, i ∈ is_ -> j ∈ is_ -> src + i = dst + j -> exists l1 l2, is_ = l1 ++ i :: l2 /\ j ∈ i :: l2) ->
  forall y, copy_at is_ dst src m y = if bool_decide (y - dst ∈ is_) then m (src + (y - dst)) else m y.
Proof.
  induction is_ as [|i is_ IH]; intros dst src m Hnd Hord y; cbn [copy_at]; [by rewrite bool_decide_false by set_solver|].
  apply NoDup_cons in Hnd as [Hi Hnd]; rewrite IH; [|done|].
  - unfold put; destruct (decide (y - dst = i)) as [Heq|Hne].
    + rewrite (bool_decide_false (y - dst ∈ is_)) by (by rewrite Heq); rewrite bool_decide_true by set_solver; rewrite (proj2 (Z.eqb_eq y (dst + i))) by lia; f_equal; lia.
    + assert (Hiff : y - dst ∈ i :: is_ <-> y - dst ∈ is_) by set_solver.
      destruct (decide (y - dst ∈ is_)) as [Hin|Hin]; [rewrite !bool_decide_true by set_solver|rewrite !bool_decide_false by set_solver; by rewrite (proj2 (Z.eqb_neq y (dst + i))) by lia].
      rewrite (proj2 (Z.eqb_neq _ _)); [done|]; intros Heq; destruct (Hord (y - dst) i) as (l1 & l2 & Hl & Hj); [set_solver|set_solver|lia|].
      destruct l1 as [|z l1]; [injection Hl as Hl _; lia|]; injection Hl as -> ->; set_solver.
  - intros a b Ha Hb Hab; destruct (Hord a b) as (l1 & l2 & Hl & Hj); [set_solver|set_solver|done|].
    destruct l1 as [|z l1]; [|by injection Hl as -> ->; exists l1, l2]; injection Hl as -> ->; set_solver.
Qed.

Lemma seqZ_split (n : nat) i : i ∈ seqZ 0 (Z.of_nat n) -> seqZ 0 (Z.of_nat n) = seqZ 0 i ++ i :: seqZ (i + 1) (Z.of_nat n - i - 1).
Proof.
  rewrite elem_of_seqZ; intros Hi; replace (Z.of_nat n) with (i + (Z.of_nat n - i)) at 1 by lia.
  rewrite seqZ_app by lia; f_equal; rewrite (seqZ_cons (0 + i)) by lia; replace (0 + i) with i by lia; do 2 f_equal; lia.
Qed.

Lemma moved_index dst src (n : nat) m y (is_ : list Z) : (forall i, i ∈ is_ <-> i ∈ seqZ 0 (Z.of_nat n)) ->
  (if bool_decide (y - dst ∈ is_) then m (src + (y - dst)) else m y) = moved dst src (Z.of_nat n) m y.
Proof.
  intros His; unfold moved; case_bool_decide as H; rewrite His, elem_of_seqZ in H.
  - by rewrite (proj2 (Z.leb_le _ _)), (proj2 (Z.ltb_lt _ _)) by lia.
  - destruct (_ && _) eqn:E; [|done]; bsplit; lia.
Qed.

Lemma memmove_spec dst src n m : (memmove dst src n m).1 = dst /\ forall y, (memmove dst src n m).2 y = moved dst src (Z.of_nat n) m y.
Proof.
  split; [done|]; intros y; unfold memmove; cbn [snd]; destruct (Z.ltb_spec dst src) as [Hlt|Hge].
  - rewrite copy_at_spec; [by apply moved_index|apply NoDup_seqZ|]; intros i j Hi Hj Hij; pose proof (seqZ_split n i Hi) as Hs.
    eexists _, _; split; [exact Hs|]; destruct (decide (j = i)) as [->|]; [by left|right]; rewrite elem_of_seqZ in *; lia.
  - rewrite copy_at_spec; [apply moved_index; intros i; by rewrite elem_of_reverse|by rewrite reverse_Permutation; apply NoDup_seqZ|].
    intros i j Hi Hj Hij; rewrite elem_of_reverse in Hi, Hj; pose proof (seqZ_split n i Hi) as Hs.
    exists (reverse (seqZ (i + 1) (Z.of_nat n - i - 1))), (reverse (seqZ 0 i)); split.
    + rewrite Hs at 1; rewrite reverse_app, reverse_cons, <- app_assoc; done.
    + destruct (decide (j = i)) as [->|]; [by left|right]; rewrite ?elem_of_reverse; rewrite elem_of_seqZ in *; lia.
Qed.

Lemma memcpy_spec n : forall dst src m y, (src + Z.of_nat n <= dst \/ dst <= src) ->
  memcpy_loop n dst src m y = moved dst src (Z.of_nat n) m y.
Proof.
  induction n as [|n IH]; intros dst src m y Hov; cbn [memcpy_loop].
  - unfold moved; destruct (_ && _) eqn:E; [|done]; bsplit; lia.
  - rewrite IH by lia; unfold moved, put.
    destruct (Z.leb_spec dst y), (Z.ltb_spec y (dst + Z.of_nat (S n))), (Z.leb_spec (dst + 1) y), (Z.ltb_spec y (dst + 1 + Z.of_nat n)); cbn [andb]; try lia.
    + rewrite (proj2 (Z.eqb_neq _ _)) by lia; f_equal; lia.
    + rewrite (proj2 (Z.eqb_eq y dst)) by lia; f_equal; lia.
    + by rewrite (proj2 (Z.eqb_neq y dst)) by lia.
    + by rewrite (proj2 (Z.eqb_neq y dst)) by lia.
Qed.

Lemma memset_spec n : forall dst c m y, memset_loop n dst c m y = if (dst <=? y) && (y <? dst + Z.of_nat n) then c else m y.
Proof.
  induction n as [|n IH]; intros dst c m y; cbn [memset_loop]; [destruct (_ && _) eqn:E; [bsplit; lia|done]|].
  rewrite IH; unfold put; destruct (Z.leb_spec dst y), (Z.ltb_spec y (dst + Z.of_nat (S n))), (Z.leb_spec (dst + 1) y), (Z.ltb_spec y (dst + 1 + Z.of_nat n)); cbn [andb]; try lia; try done;
    destruct (Z.eqb_spec y dst); try lia; done.
Qed.

(** The order of byte strings. *)
Fixpoint lex (l1 l2 : list Z) : Z :=
  match l1, l2 with a :: l1', b :: l2' => if a =? b then lex l1' l2' else a - b | _, _ => 0 end.

Lemma text_S m a n : text m a (S n) = m a :: text m (a + 1) n.
Proof.
  unfold text; rewrite seqZ_cons by lia; cbn [fmap list_fmap]; f_equal; [f_equal; lia|].
  replace (Z.pred (Z.of_nat (S n))) with (Z.of_nat n) by lia; change (Z.succ 0) with (1 + 0).
  rewrite <- (fmap_add_seqZ 1 0 (Z.of_nat n)), <- list_fmap_compose; apply list_fmap_ext; intros; cbn; f_equal; lia.
Qed.

Lemma memcmp_spec n : forall a b m, memcmp a b n m = lex (text m a n) (text m b n).
Proof. induction n as [|n IH]; intros a b m; [done|]; cbn [memcmp]; rewrite !text_S; cbn [lex]; by rewrite IH. Qed.

Lemma lex_zero l1 : forall l2, length l1 = length l2 -> lex l1 l2 = 0 <-> l1 = l2.
Proof.
  induction l1 as [|a l1 IH]; intros [|b l2] Hl; try done; cbn [lex]; injection Hl as Hl.
  destruct (Z.eqb_spec a b) as [->|Hne]; [rewrite IH by done; naive_solver|split; [lia|naive_solver]].
Qed.

(** The memory builtins do what their callers rely on: [memmove] moves the bytes as
    if through a copy of the source, however the two ranges overlap; [memcpy] does
    so for ranges that do not; [memset] fills the range and nothing else; [memcmp]
    is the order of the byte strings, and zero exactly for equal ones. *)
Lemma builtins_correct (m : Bytes) (a b c : Z) (n : nat) :
  (forall y, (memmove a b n m).2 y = moved a b (Z.of_nat n) m y) /\
  (b + Z.of_nat n <= a \/ a + Z.of_nat n <= b -> forall y, (memcpy a b n m).2 y = moved a b (Z.of_nat n) m y) /\
  (forall y, (memset a c n m).2 y = if (a <=? y) && (y <? a + Z.of_nat n) then c else m y) /\
  memcmp a b n m = lex (text m a n) (text m b n) /\ (memcmp a b n m = 0 <-> text m a n = text m b n).
Proof.
  split_and!; [apply memmove_spec|intros H y; apply memcpy_spec; lia|apply memset_spec|apply memcmp_spec|].
  rewrite memcmp_spec; apply lex_zero; unfold text; by rewrite !length_fmap.
Qed.

(** ** Bounded formatting ([print.rs], [console.rs]) *)

(** [buf[a..b].copy_from_slice(src)]. *)
Definition copy_into (buf : list Z) (a b : Z) (src : list Z) : res (list Z) :=
  if (0 <=? a) && (a <=? b) && (b <=? len buf) && (len src =? b - a)
  then Ok (take (Z.to_nat a) buf ++ src ++ drop (Z.to_nat b) buf) else Panic.

(** [BufWriter]: the buffer and the position.  [None] is the format error. *)
Definition write_str (buf : list Z) (pos : Z) (s : list Z) : res (option (list Z * Z)) :=
  lim ← usub (len buf) 1;
  e ← uadd pos (len s);
  if lim <? e then Ok None else buf' ← copy_into buf pos e s; Ok (Some (buf', e)).

(** [write_fmt]: the pieces of the arguments in order, up to the first error. *)
Fixpoint write_fmt (buf : list Z) (pos : Z) (pieces : list (list Z)) : res (list Z * Z * bool) :=
  match pieces with
  | [] => Ok (buf, pos, false)
  | s :: ss =>
      r ← write_str buf pos s;
      match r with Some (buf', pos') => write_fmt buf' pos' ss | None => Ok (buf, pos, true) end
  end.

Definition dots : list Z := [46; 46; 46].
Definition BUF_SIZE : Z := 259.

(** [print_str] and [print_fmt]: the bytes handed to [SYS_PRINT]. *)
Definition print_str (s : list Z) : res (list Z) :=
  let buf := replicate (Z.to_nat BUF_SIZE) 0 in
  let n := Z.min (len s) (BUF_SIZE - 1) in
  src ← unwrap (sget s 0 n);
  buf1 ← copy_into buf 0 n src;
  buf2 ← aset buf1 n 10;
  unwrap (sget buf2 0 (n + 1)).

Definition print_fmt (pieces : list (list Z)) : res (list Z) :=
  '(buf, pos, truncated) ← write_fmt (replicate (Z.to_nat BUF_SIZE) 0) 0 pieces;
  buf1 ← (if (truncated : bool) then
            let e := Z.min pos (BUF_SIZE - 1) in
            copy_into buf (Z.max 0 (e - 3)) e dots
          else Ok buf);
  let n := Z.min pos (BUF_SIZE - 1) in
  buf2 ← aset buf1 n 10;
  unwrap (sget buf2 0 (n + 1)).

(** [console::println]: the bytes handed to [write]. *)
Definition println (pieces : list (list Z)) : res (list Z) :=
  '(buf, pos, truncated) ← write_fmt (replicate 257 0) 0 pieces;
  buf1 ← (if (truncated : bool) then a ← usub pos 3; copy_into buf a pos dots else Ok buf);
  buf2 ← aset buf1 pos 10;
  unwrap (sget buf2 0 (pos + 1)).

(** The pieces that fit whole in [cap] bytes after [out], and whether one did not. *)
Fixpoint fitted (cap : Z) (out : list Z) (pieces : list (list Z)) : list Z * bool :=
  match pieces with
  | [] => (out, false)
  | s :: ss => if cap <? len out + len s then (out, true) else fitted cap (out ++ s) ss
  end.

(** What is printed: the text and a newline; a text that does not fit ends in
    three dots, and there must be room for them. *)
Definition shown (cap : Z) (pieces : list (list Z)) : res (list Z) :=
  let '(out, truncated) := fitted cap [] pieces in
  if (truncated : bool) then if len out <? 3 then Panic else Ok (take (Z.to_nat (len out - 3)) out ++ dots ++ [10])
  else Ok (out ++ [10]).

Lemma copy_into_ok buf a b src : 0 <= a <= b -> b <= len buf -> len src = b - a ->
  copy_into buf a b src = Ok (take (Z.to_nat a) buf ++ src ++ drop (Z.to_nat b) buf).
Proof.
  intros Ha Hb Hs; unfold copy_into; rewrite !(proj2 (Z.leb_le _ _)) by lia; by rewrite (proj2 (Z.eqb_eq _ _)) by done.
Qed.

(** The buffer holds [out]. *)
Definition holds (cap : Z) (buf out : list Z) : Prop := len buf = cap + 1 /\ len out <= cap /\ take (length out) buf = out.

Lemma holds_copy cap buf out s : holds cap buf out -> len out + len s <= cap ->
  exists buf', copy_into buf (len out) (len out + len s) s = Ok buf' /\ holds cap buf' (out ++ s).
Proof.
  intros (Hb & Ho & Ht) Hs; pose proof (len_nonneg out); pose proof (len_nonneg s); eexists; split; [apply copy_into_ok; lia|].
  unfold holds, len in *; rewrite Nat2Z.id, Ht; split_and!.
  - rewrite !length_app, length_drop; lia.
  - rewrite length_app; lia.
  - by rewrite app_assoc, take_app_length.
Qed.

Lemma write_fmt_spec cap pieces : forall buf out, holds cap buf out -> cap < 1000 -> Forall (fun s => len s < 2 ^ 63) pieces ->
  exists buf', write_fmt buf (len out) pieces = Ok (buf', len (fitted cap out pieces).1, (fitted cap out pieces).2) /\ holds cap buf' (fitted cap out pieces).1.
Proof.
  induction pieces as [|s ss IH]; intros buf out Hh Hc Hl; [by exists buf|]; apply Forall_cons in Hl as [Hs Hl]; cbn [write_fmt fitted].
  pose proof Hh as (Hb & Ho & _); pose proof (len_nonneg out); pose proof (len_nonneg s); unfold write_str; rewrite usub_ok by lia; cbn [mbind res_bind].
  rewrite uadd_ok by (rewrite W64_val; lia); cbn [mbind res_bind]; replace (len buf - 1) with cap by lia; destruct (Z.ltb_spec cap (len out + len s)); [by exists buf|].
  destruct (holds_copy cap buf out s Hh ltac:(lia)) as (buf1 & -> & Hh1); cbn [mbind res_bind]; rewrite <- len_app; by apply IH.
Qed.

(** A newline after what the buffer holds. *)
Lemma holds_finish cap buf out : holds cap buf out -> (b2 ← aset buf (len out) 10; unwrap (sget b2 0 (len out + 1))) = Ok (out ++ [10]).
Proof.
  intros (Hb & Ho & Ht); pose proof (len_nonneg out); rewrite aset_lt by lia; cbn [mbind res_bind].
  assert (Hi : take (length out + 1) (<[length out:=10]> buf) = out ++ [10]).
  { rewrite <- (take_drop (length out) buf) at 1; rewrite Ht; destruct (drop (length out) buf) as [|c r] eqn:E.
    - apply (f_equal length) in E; rewrite length_drop in E; unfold len in *; simpl in E; lia.
    - rewrite insert_app_r_alt by lia; rewrite Nat.sub_diag; cbn [insert list_insert]; rewrite firstn_app_2; done. }
  assert (Hs : sget (<[Z.to_nat (len out):=10]> buf) 0 (len out + 1) = Some (out ++ [10])).
  { apply sget_Some; rewrite len_insert; split_and!; [lia|lia|lia|]; cbn [drop Z.to_nat]; rewrite <- Hi; unfold len; by rewrite Nat2Z.id, Z2Nat.inj_add, Nat2Z.id by lia. }
  by rewrite Hs.
Qed.

Lemma holds_dots cap buf out : holds cap buf out -> 3 <= len out ->
  exists buf', copy_into buf (len out - 3) (len out) dots = Ok buf' /\ holds cap buf' (take (Z.to_nat (len out - 3)) out ++ dots).
Proof.
  intros (Hb & Ho & Ht) H3; eexists; split; [apply copy_into_ok; [lia|lia|change (len dots) with 3; lia]|].
  assert (Hl : length (take (Z.to_nat (len out - 3)) out) = Z.to_nat (len out - 3)) by (rewrite length_take; unfold len in *; lia).
  assert (Hlo : length (take (Z.to_nat (len out - 3)) out ++ dots) = length out) by (rewrite length_app, Hl; unfold len in *; simpl; lia).
  assert (Htk : take (Z.to_nat (len out - 3)) buf = take (Z.to_nat (len out - 3)) out).
  { transitivity (take (Z.to_nat (len out - 3)) (take (length out) buf)); [rewrite take_take; f_equal; unfold len; lia|by rewrite Ht]. }
  unfold holds; rewrite Htk; split_and!.
  - unfold len in *; rewrite !length_app, length_drop, Hl; simpl; lia.
  - unfold len in *; rewrite Hlo; lia.
  - by rewrite app_assoc, take_app_length.
Qed.

(** Both printers, on every branch. *)
Lemma printed cap pieces buf0 (dot : list Z -> Z -> res (list Z)) : len buf0 = cap + 1 -> 0 <= cap < 1000 -> Forall (fun s => len s < 2 ^ 63) pieces ->
  (forall buf out, holds cap buf out -> dot buf (len out) = if len out <? 3 then Panic else copy_into buf (len out - 3) (len out) dots) ->
  ('(buf, pos, truncated) ← write_fmt buf0 0 pieces;
   buf1 ← (if (truncated : bool) then dot buf pos else Ok buf);
   buf2 ← aset buf1 pos 10; unwrap (sget buf2 0 (pos + 1))) = shown cap pieces.
Proof.
  intros Hb Hc Hl Hdot; destruct (write_fmt_spec cap pieces buf0 []) as (buf & E & Hh); [by split_and!; [|change (len []) with 0; lia|]|lia|done|].
  change (len []) with 0 in E; rewrite E; unfold shown; destruct (fitted cap [] pieces) as [out t]; cbn [fst snd mbind res_bind] in *; destruct t.
  - rewrite (Hdot buf out Hh); destruct (Z.ltb_spec (len out) 3); [done|]; destruct (holds_dots cap buf out Hh ltac:(lia)) as (buf1 & -> & Hh1); cbn [mbind res_bind].
    pose proof (holds_finish cap buf1 _ Hh1) as Hf; rewrite len_app in Hf; change (len dots) with 3 in Hf.
    replace (len (take (Z.to_nat (len out - 3)) out) + 3) with (len out) in Hf by (unfold len in *; rewrite length_take; lia); by rewrite Hf, <- app_assoc.
  - cbn [mbind res_bind]; apply (holds_finish cap buf out Hh).
Qed.

(** C31: printing, on every branch: [print_fmt] of the print macro and [println] of the
    console client give the text and a newline when it fits (258 and 256 bytes);
    otherwise the pieces that fit whole, with the last three bytes replaced by
    dots; and they panic, ending the program, when a piece does not fit and fewer
    than three bytes were written before it. *)
Theorem printing_exact (pieces : list (list Z)) (Hlen : Forall (fun s => len s < 2 ^ 63) pieces) :
  print_fmt pieces = shown 258 pieces /\ println pieces = shown 256 pieces.
Proof.
  split.
  - rewrite <- (printed 258 pieces (replicate (Z.to_nat BUF_SIZE) 0) (fun buf pos => copy_into buf (Z.max 0 (pos - 3)) pos dots)); [|done|lia|done|].
    + unfold print_fmt; destruct (write_fmt_spec 258 pieces (replicate (Z.to_nat BUF_SIZE) 0) [] ltac:(split_and!; [done|change (len []) with 0; lia|done]) ltac:(lia) Hlen) as (buf & E & Hh).
      change (len []) with 0 in E; rewrite E; cbn [mbind res_bind]; destruct Hh as (_ & Ho & _); change (BUF_SIZE - 1) with 258; by rewrite Z.min_l by done.
    + intros buf out (Hb & Ho & _); pose proof (len_nonneg out); destruct (Z.ltb_spec (len out) 3); [|by rewrite Z.max_r by lia].
      unfold copy_into; change (len dots) with 3; rewrite (proj2 (Z.eqb_neq _ _)) by lia; by rewrite andb_false_r.
  - unfold println; apply (printed 256 pieces (replicate 257 0) (fun buf pos => a ← usub pos 3; copy_into buf a pos dots)); [done|lia|done|].
    intros buf out (Hb & Ho & _); pose proof (len_nonneg out); destruct (Z.ltb_spec (len out) 3); [|by rewrite usub_ok by lia].
    unfold usub; by rewrite (proj2 (Z.leb_gt _ _)) by lia.
Qed.

(** ** A program on a flat memory *)
Module UsDemo.
#[local] Existing Instances KDemo.kmem_ops KDemo.kmem_user.

#[local] Instance kmem_aspace_laws : AspaceLaws Z KDemo.kmem.
Proof.
  split; simpl; intros; simplify_eq; simpl.
  - by eexists _, _.
  - split; [done|]; split; [by rewrite lookup_insert_eq|]; intros; by rewrite lookup_insert_ne by congruence.
Qed.

#[local] Instance kmem_loader : LoaderOps Z KDemo.kmem := {
  new_aspace _ := Panic; map_user_page _ _ _ m := Ok (Err OutOfSpace, m); kstore m _ _ := Ok m; user_byte _ _ _ := None;
  user_entry _ _ _ := None; kpage _ _ _ _ := False; free_pages _ := 0; mem_ok _ := True; aspace_ok _ _ := False;
}.

#[local] Instance kmem_trap : TrapWorld (Kernel Z KDemo.kmem) := {
  k_timers _ := TrDemo.tick_table; k_put_timers _ k := k; timer_intid _ := None; end_interrupt _ k := k;
}.

Definition prog0 : Prog := {| kern := KDemo.start; brk := 0; live := ∅ |}.

Lemma prog0_ok : exists p, prog_ok prog0 0 p /\ heap_brk p = 0x210000.
Proof.
  destruct Flat.demo_heap as (p & Hc & Hp & Hh); exists p.
  assert (Hb : heap_base p = 0x210000 /\ heap_brk p = 0x210000) by (vm_compute in Hp; injection Hp as <-; split; reflexivity).
  destruct Hb as [Hb1 Hb2]; split; [|done]; split; cbn [kern brk live prog0]; auto.
  - destruct Hh as [H1 H2 H3 H4]; split; [done|done|done|done].
  - rewrite Hb1; discriminate.
  - right; by rewrite Hb1, Hb2.
  - by intros ptr size.
  - by intros ptr size.
Qed.

(** Two blocks, the second freed, a larger one. *)
Definition ops : list HeapOp := [HAlloc 100; HAlloc 5000; HFree 0x211000; HAlloc 9000].

Lemma user_heap_safe_witness : exists st', heap_run KDemo.alone 0 empty_registry 1 ops prog0 = Ok st' /\
  forall ptr size, live st' !! ptr = Some size -> forall ptr' size', live st' !! ptr' = Some size' -> ptr < ptr' -> ptr + size <= ptr'.
Proof.
  destruct prog0_ok as (p & Hok & Hb).
  destruct (user_heap_safe KDemo.alone 0 empty_registry 1 ops prog0 0 p (2 ^ 30)) as (st' & p' & E & _ & H).
  - vm_compute; discriminate.
  - intros va _; exact I.
  - exact Hok.
  - repeat constructor; vm_compute; (discriminate || reflexivity).
  - rewrite Hb; vm_compute; discriminate.
  - exists st'; split; [exact E|]; intros ptr size Hl; apply (H ptr size Hl).
Defined.

(** [SYS_ALLOC_PAGE] moves the kernel's watermark but not the library's: a page
    that it gave is handed out again when the block below it is freed. *)
Definition page_reused : res (option (Z * Z) * Z * option Z) :=
  '(_, b1, k1) ← alloc KDemo.alone 0 empty_registry 1 4096 0 KDemo.start;
  '(pg, k2) ← alloc_page KDemo.alone 0 empty_registry 1 k1;
  '(b3, k3) ← dealloc KDemo.alone 0 empty_registry 1 0x210000 4096 b1 k2;
  '(blk, b4, _) ← alloc KDemo.alone 0 empty_registry 1 8192 b3 k3;
  Ok (pg, b3, blk).

Lemma alloc_page_reused : page_reused = Ok (Some (0x211000, 0), 0x210000, Some 0x210000).
Proof. vm_compute; reflexivity. Qed.
(** A line of one piece of 300 bytes ends the program; one of 257 bytes is cut. *)
Lemma printing_exact_witness : print_fmt [replicate 300 65] = Panic /\ println [[65; 66; 67; 68]; replicate 253 65] = Ok [65; 46; 46; 46; 10].
Proof.
  split.
  - refine (eq_trans (proj1 (printing_exact [replicate 300 65] _)) _); [repeat constructor|vm_compute; reflexivity].
  - refine (eq_trans (proj2 (printing_exact [[65; 66; 67; 68]; replicate 253 65] _)) _); [repeat constructor|vm_compute; reflexivity].
Defined.
End UsDemo.

End Us.
