(* ===== verification/Servers.v ===== *)
(** * The console path of user space ([std/src/console.rs], [cmd/console/src/main.rs])

    The client side of the console (resolve by name, write in chunks), the
    console server with its UART, and a small system in which they run: queues
    of messages, the nameserver of [Nameserver] and the console server, which
    have their turns while the client waits.  A message is what the kernel
    carries: opcode, tag and bytes. *)

From S2P Require Import Prelude Abi Ipc KernIpc Nameserver Userlib.
Import Us(copy_into, copy_into_ok).

Module Sv.

(** ** The services a program uses *)

Record Msg := { m_op : Z; m_tag : Z; m_body : list Z }.

(** [ipc::create_chan], [ipc::send], [ipc::receive] (the buffer before and after
    it), [ipc::reply] and [rt::handle_at]. *)
Class Os (W : Type) := {
  os_create : W -> res (Z * W);
  os_send : Z -> Z -> Z -> list Z -> W -> res (Z * W);
  os_receive : Z -> list Z -> W -> res ((Z * Z * Z) * list Z * W);
  os_handle_at : Z -> W -> Z;
}.

(** ** The console client *)

Definition OP_WRITE : Z := 0.
Definition OP_RESOLVE : Z := 1.
Definition OP_BIND : Z := 0.
Definition R_OK : Z := 0.
Definition R_EINVAL : Z := 3.
(** [/dev/console]. *)
Definition CONSOLE_NAME : list Z := [47; 100; 101; 118; 47; 99; 111; 110; 115; 111; 108; 101].

Inductive ConsoleError := EIpc | EClosed.
Record Console := { c_in : Z; reply_h : Z }.

(** [x as u32].to_le_bytes(). *)
Definition le32 (h : Z) : list Z := to_le 4 (h mod W32).

Section client.
Context {W : Type} `{!Os W}.

(** The state is the cache of the process and the world. *)
Definition resolve (cache : option Console) (w : W) : res (result Console ConsoleError * option Console * W) :=
  match cache with
  | Some c => Ok (Val c, cache, w)
  | None =>
      let ns_in := os_handle_at 2 w in
      '(rh, w1) ← os_create w;
      let req := CONSOLE_NAME ++ le32 rh in
      '(r, w2) ← os_send ns_in OP_RESOLVE 0 req w1;
      if negb (r =? 0) then Ok (Err EIpc, None, w2) else
      '((op, bytes, _), reply, w3) ← os_receive rh (replicate 8 0) w2;
      if op =? RECEIVE_CLOSED then Ok (Err EClosed, None, w3) else
      if negb (op =? R_OK) || negb (bytes =? 8) then Ok (Err EIpc, None, w3) else
      h ← Ns.u32_at reply 0;
      let c := {| c_in := h; reply_h := rh |} in
      Ok (Val c, Some c, w3)
  end.

Definition CHUNK : Z := MSG_MAX - 4.

(** The loop of [write] over the rest of the data; [payload] is the buffer that
    it fills again for each message. *)
Fixpoint write_loop (fuel : nat) (c : Console) (payload rest : list Z) (w : W) : res (result unit ConsoleError * W) :=
  match fuel with
  | O => Timeout
  | S fuel' =>
      if len rest =? 0 then Ok (Val tt, w) else
      let n := Z.min (len rest) CHUNK in
      part ← unwrap (sget rest 0 n);
      payload1 ← copy_into payload 4 (4 + n) part;
      body ← unwrap (sget payload1 0 (4 + n));
      '(r, w1) ← os_send (c_in c) OP_WRITE 0 body w;
      if negb (r =? 0) then Ok (Err EIpc, w1) else
      '((op, _, _), _, w2) ← os_receive (reply_h c) (replicate 4 0) w1;
      if op =? RECEIVE_CLOSED then Ok (Err EClosed, w2) else
      if negb (op =? R_OK) then Ok (Err EIpc, w2) else
      write_loop fuel' c payload1 (drop (Z.to_nat n) rest) w2
  end.

(** One unit of fuel for each message and one for the exit. *)
Definition write (data : list Z) (cache : option Console) (w : W) : res (result unit ConsoleError * option Console * W) :=
  '(r, cache1, w1) ← resolve cache w;
  match r with
  | Err e => Ok (Err e, cache1, w1)
  | Val c =>
      payload ← copy_into (replicate (Z.to_nat MSG_MAX) 0) 0 4 (le32 (reply_h c));
      '(r2, w2) ← write_loop (S (length data)) c payload data w1;
      Ok (r2, cache1, w2)
  end.

Definition reply_channel (cache : option Console) : result Z ConsoleError :=
  match cache with Some c => Val (reply_h c) | None => Err EIpc end.

(** How the servers publish a name: the request and the result, received on a
    channel of their own. *)
Definition publish (name : list Z) (in_h out_h : Z) (w : W) : res (Z * W) :=
  let ns_in := os_handle_at 2 w in
  '(rc, w1) ← os_create w;
  let req := name ++ le32 in_h ++ le32 out_h ++ le32 rc in
  '(_, w2) ← os_send ns_in OP_BIND 0 req w1;
  '((op, _, _), _, w3) ← os_receive rc (replicate 8 0) w2;
  Ok (op, w3).
End client.

(** ** The console server *)

(** The PL011 of the server: the flag register and the data register. *)
Class Pl011 (U : Type) := { read_fr : U -> Z * U; write_dr : Z -> U -> U }.
Definition TXFF : Z := 32.

Section server.
Context {U : Type} `{!Pl011 U} (spin : nat).

(** [while read_volatile(fr) & TXFF != 0 {}]. *)
Fixpoint wait_room (fuel : nat) (u : U) : res U :=
  match fuel with
  | O => Timeout
  | S fuel' => let '(v, u1) := read_fr u in if negb (Z.land v TXFF =? 0) then wait_room fuel' u1 else Ok u1
  end.

Fixpoint put_bytes (data : list Z) (u : U) : res U :=
  match data with [] => Ok u | b :: data' => u1 ← wait_room spin u; put_bytes data' (write_dr b u1) end.

(** One turn of the loop: the reply, if there is one. *)
Definition console_serve (op bytes tag : Z) (req_buf : list Z) (u : U) : res (option (Z * Z * Z) * U) :=
  if bytes <? 4 then Ok (None, u) else
  rh ← Ns.u32_at req_buf 0;
  if op =? OP_WRITE then
    data ← unwrap (sget req_buf 4 (Z.min bytes 256 - 4));
    u1 ← put_bytes data u;
    Ok (Some (rh, R_OK, tag), u1)
  else Ok (Some (rh, R_EINVAL, tag), u).

(** ** The system *)

Record World := {
  queues : gmap Z (list Msg);
  next_chan : Z;
  ns_in : Z; ns_table : Ns.BindTable; ns_buf : list Z;
  con_in : Z; con_buf : list Z; uart : U;
}.

Definition with_queue (w : World) (h : Z) (q : list Msg) : World :=
  {| queues := <[h := q]> (queues w); next_chan := next_chan w; ns_in := ns_in w; ns_table := ns_table w; ns_buf := ns_buf w;
     con_in := con_in w; con_buf := con_buf w; uart := uart w |}.
Definition with_ns (w : World) (t : Ns.BindTable) (b : list Z) : World :=
  {| queues := queues w; next_chan := next_chan w; ns_in := ns_in w; ns_table := t; ns_buf := b;
     con_in := con_in w; con_buf := con_buf w; uart := uart w |}.
Definition with_con (w : World) (b : list Z) (u : U) : World :=
  {| queues := queues w; next_chan := next_chan w; ns_in := ns_in w; ns_table := ns_table w; ns_buf := ns_buf w;
     con_in := con_in w; con_buf := b; uart := u |}.

(** A channel of the table, while there is one. *)
Definition create (w : World) : res (Z * World) :=
  if next_chan w <? NCHANNELS then
    Ok (next_chan w,
        {| queues := <[next_chan w := []]> (queues w); next_chan := next_chan w + 1; ns_in := ns_in w; ns_table := ns_table w; ns_buf := ns_buf w;
           con_in := con_in w; con_buf := con_buf w; uart := uart w |})
  else Ok (ERR_NO_SLOT, w).

(** A message is cut to 256 bytes; nobody empties a full queue in this system. *)
Definition enqueue (h op tag : Z) (body : list Z) (w : World) : res (Z * World) :=
  match queues w !! h with
  | None => Ok (ERR_BAD_HANDLE, w)
  | Some q =>
      if QUEUE_CAP <=? len q then Timeout
      else Ok (OK, with_queue w h (q ++ [ {| m_op := op; m_tag := tag; m_body := take (Z.to_nat MSG_MAX) body |} ]))
  end.

(** What [receive] leaves in a buffer, and how many bytes. *)
Definition fill (buf body : list Z) : list Z * Z :=
  let n := Nat.min (length body) (length buf) in (take n body ++ drop n buf, Z.of_nat n).

Definition ns_turn (w : World) : res (option World) :=
  match queues w !! ns_in w with
  | Some (m :: q) =>
      let '(buf, n) := fill (ns_buf w) (m_body m) in
      '(rep, t) ← Ns.serve (ns_table w) (m_op m) buf n (m_tag m);
      '(_, w1) ← enqueue (Ns.reply_chan rep) (Ns.result_op rep) (Ns.rtag rep) (Ns.body rep) (with_ns (with_queue w (ns_in w) q) t buf);
      Ok (Some w1)
  | _ => Ok None
  end.

Definition con_turn (w : World) : res (option World) :=
  match queues w !! con_in w with
  | Some (m :: q) =>
      let '(buf, n) := fill (con_buf w) (m_body m) in
      '(rep, u) ← console_serve (m_op m) n (m_tag m) buf (uart w);
      let w1 := with_con (with_queue w (con_in w) q) buf u in
      match rep with
      | Some (rh, code, tag) => '(_, w2) ← enqueue rh code tag [] w1; Ok (Some w2)
      | None => Ok (Some w1)
      end
  | _ => Ok None
  end.

Definition server_turn (w : World) : res (option World) :=
  r ← ns_turn w; match r with Some w1 => Ok (Some w1) | None => con_turn w end.

(** A client that waits lets the servers run; if none has anything to do it waits
    for ever. *)
Fixpoint receive (fuel : nat) (h : Z) (buf : list Z) (w : World) : res ((Z * Z * Z) * list Z * World) :=
  match queues w !! h with
  | None => Ok ((ERR_BAD_HANDLE, 0, 0), buf, w)
  | Some (m :: q) => let '(buf1, n) := fill buf (m_body m) in Ok ((m_op m, n, m_tag m), buf1, with_queue w h q)
  | Some [] =>
      match fuel with
      | O => Timeout
      | S fuel' => r ← server_turn w; match r with Some w1 => receive fuel' h buf w1 | None => Timeout end
      end
  end.

#[global] Instance world_os : Os World := {
  os_create := create;
  os_send := enqueue;
  os_receive := receive 16;
  os_handle_at i w := if i =? 2 then ns_in w else 0;
}.

(** The start of the server: the letter A to the UART, a pair of channels, and
    the name; it then waits for requests on the first of them. *)
Definition console_start (w : World) : res World :=
  let w0 := with_con w (con_buf w) (write_dr 65 (uart w)) in
  '(in_h, w1) ← os_create w0;
  '(out_h, w2) ← os_create w1;
  let w3 := {| queues := queues w2; next_chan := next_chan w2; ns_in := ns_in w2; ns_table := ns_table w2; ns_buf := ns_buf w2;
               con_in := in_h; con_buf := con_buf w2; uart := uart w2 |} in
  '(_, w4) ← publish CONSOLE_NAME in_h out_h w3;
  Ok w4.
End server.

Arguments World U : clear implicits.

(** ** The UART: what its data sheet says *)

Fixpoint polls {U} `{!Pl011 U} (n : nat) (u : U) : U := match n with O => u | S n' => polls n' (read_fr u).2 end.

(** Reading the flags sends nothing, a byte written is sent, and the transmit
    queue is not full for ever: fewer than [patience] reads show room. *)
Class Pl011Laws (U : Type) `{!Pl011 U} (patience : nat) := {
  sent : U -> list Z;
  sent_fr u : sent (read_fr u).2 = sent u;
  sent_dr u b : sent (write_dr b u) = sent u ++ [b];
  drains u : exists n, (n < patience)%nat /\ Z.land (read_fr (polls n u)).1 TXFF = 0;
}.

Section proofs.
Context {U : Type} `{!Pl011 U} (spin : nat) `{L : !Pl011Laws U spin}.
Implicit Types w : World U.
Notation sent := (sent (Pl011Laws := L)).

Lemma wait_room_ok fuel : forall u, (exists n, (n < fuel)%nat /\ Z.land (read_fr (polls n u)).1 TXFF = 0) ->
  exists u', wait_room fuel u = Ok u' /\ sent u' = sent u.
Proof.
  induction fuel as [|fuel IH]; intros u (n & Hn & Hz); [lia|]; cbn [wait_room]; pose proof (sent_fr u) as Hs; destruct (read_fr u) as [v u1] eqn:E; cbn [snd] in Hs.
  destruct (Z.eqb_spec (Z.land v TXFF) 0) as [Hv|Hv]; cbn [negb]; [by exists u1|].
  destruct n as [|n]; cbn [polls] in Hz; rewrite E in Hz; cbn [fst snd] in Hz; [done|].
  destruct (IH u1) as (u' & -> & Hu'); [exists n; split; [lia|done]|]; exists u'; by rewrite Hu', Hs.
Qed.

Lemma put_bytes_ok data : forall u, exists u', put_bytes spin data u = Ok u' /\ sent u' = sent u ++ data.
Proof.
  induction data as [|b data IH]; intros u; cbn [put_bytes]; [exists u; by rewrite app_nil_r|].
  destruct (wait_room_ok spin u (drains u)) as (u1 & -> & H1); cbn [mbind res_bind].
  destruct (IH (write_dr b u1)) as (u' & -> & H2); exists u'; by rewrite H2, sent_dr, H1, <- app_assoc.
Qed.

(** The servers wait: their queues are empty and their buffers have their size. *)
Record quiet w : Prop := {
  qt_ns : queues w !! ns_in w = Some [];
  qt_con : queues w !! con_in w = Some [];
  qt_ne : ns_in w <> con_in w;
  qt_bufs : length (ns_buf w) = 256%nat /\ length (con_buf w) = 256%nat;
  qt_table : Ns.inv (ns_table w);
  qt_u32 : is_u32 (con_in w);
}.

(** A queue of the client. *)
Definition mine w (h : Z) : Prop := queues w !! h = Some [] /\ h <> ns_in w /\ h <> con_in w /\ is_u32 h.

Lemma u32_front h r : is_u32 h -> Ns.u32_at (to_le 4 h ++ r) 0 = Ok h.
Proof. intros Hh; exact (Ns.u32_at_app [] h r Hh). Qed.

Lemma fill_short (buf body : list Z) : (length body <= length buf)%nat -> fill buf body = (body ++ drop (length body) buf, len body).
Proof. intros H; unfold fill; rewrite Nat.min_l by done; by rewrite firstn_all. Qed.

Lemma console_serve_ok rh data rest tag u : is_u32 rh -> len data <= 252 ->
  exists u', console_serve spin OP_WRITE (4 + len data) tag (to_le 4 rh ++ data ++ rest) u = Ok (Some (rh, R_OK, tag), u') /\ sent u' = sent u ++ data.
Proof.
  intros Hr Hd; pose proof (len_nonneg data); unfold console_serve; rewrite (proj2 (Z.ltb_ge _ _)) by lia; rewrite u32_front by done; cbn [mbind res_bind].
  change (OP_WRITE =? OP_WRITE) with true; cbn iota; rewrite Z.min_l by lia; replace (4 + len data - 4) with (len data) by lia.
  assert (Hs : sget (to_le 4 rh ++ data ++ rest) 4 (len data) = Some data).
  { apply sget_Some; rewrite !len_app, Ns.len_to_le4; pose proof (len_nonneg rest); split_and!; [lia|lia|lia|].
    change (Z.to_nat 4) with 4%nat; rewrite drop_app_length' by (by rewrite length_to_le); unfold len; by rewrite Nat2Z.id, take_app_length. }
  rewrite Hs; cbn [unwrap mbind res_bind]; destruct (put_bytes_ok data u) as (u' & -> & Hu); by exists u'.
Qed.

Definition write_msg (rh : Z) (data : list Z) : Msg := {| m_op := OP_WRITE; m_tag := 0; m_body := to_le 4 rh ++ data |}.

(** The turn of the console server. *)
Lemma con_turn_ok w rh data : queues w !! con_in w = Some [write_msg rh data] -> queues w !! rh = Some [] -> rh <> con_in w -> is_u32 rh ->
  length (con_buf w) = 256%nat -> len data <= 252 ->
  exists buf u', con_turn spin w = Ok (Some (with_queue (with_con (with_queue w (con_in w) []) buf u') rh [ {| m_op := R_OK; m_tag := 0; m_body := [] |} ])) /\
    length buf = 256%nat /\ sent u' = sent (uart w) ++ data.
Proof.
  intros Hq Hr Hne Hu Hb Hd; unfold con_turn; rewrite Hq; cbn [write_msg m_body m_op m_tag].
  assert (Hlen : length (to_le 4 rh ++ data) = (4 + length data)%nat) by (by rewrite length_app, length_to_le).
  rewrite fill_short by (rewrite Hlen, Hb; unfold len in Hd; lia); rewrite len_app, Ns.len_to_le4, <- app_assoc.
  destruct (console_serve_ok rh data (drop (length (to_le 4 rh ++ data)) (con_buf w)) 0 (uart w) Hu Hd) as (u' & -> & Hs); cbn [mbind res_bind].
  unfold enqueue; cbn [with_con with_queue queues]; rewrite lookup_insert_ne, Hr by done; change (QUEUE_CAP <=? len []) with false; cbn iota; cbn [mbind res_bind].
  eexists _, u'; split; [reflexivity|]; split; [|done]; rewrite ?length_app, ?length_drop, ?length_app, ?length_to_le, Hb; unfold len in Hd; lia.
Qed.

(** One write request, sent and answered. *)
Lemma write_chunk w rh data : quiet w -> mine w rh -> len data <= CHUNK ->
  exists w1 w2 buf, enqueue (con_in w) OP_WRITE 0 (to_le 4 rh ++ data) w = Ok (OK, w1) /\
    receive spin 16 rh (replicate 4 0) w1 = Ok ((R_OK, 0, 0), buf, w2) /\
    quiet w2 /\ mine w2 rh /\ con_in w2 = con_in w /\ ns_table w2 = ns_table w /\ sent (uart w2) = sent (uart w) ++ data.
Proof.
  intros [Q1 Q2 Q3 [Q4 Q5] Q6 Q7] (M1 & M2 & M3 & M4) Hd; change CHUNK with 252 in Hd.
  assert (Hlen : length (to_le 4 rh ++ data) = (4 + length data)%nat) by (by rewrite length_app, length_to_le).
  unfold enqueue; rewrite Q2; change (QUEUE_CAP <=? len []) with false; cbn iota.
  rewrite (take_ge (to_le 4 rh ++ data)) by (rewrite Hlen; unfold len in Hd; change (Z.to_nat MSG_MAX) with 256%nat; lia).
  fold (write_msg rh data); cbn [app]; set (w1 := with_queue w (con_in w) [write_msg rh data]).
  destruct (con_turn_ok w1 rh data) as (buf & u' & Ht & Hb & Hs); [cbn; by rewrite lookup_insert_eq|cbn; by rewrite lookup_insert_ne|done|done|done|done|].
  assert (Hrq : queues w1 !! rh = Some []) by (cbn; by rewrite lookup_insert_ne).
  assert (Hnt : ns_turn w1 = Ok None) by (unfold ns_turn; cbn [w1 with_queue queues ns_in]; by rewrite lookup_insert_ne, Q1 by done).
  eexists w1, _, _; split; [done|]; split.
  - cbn [receive]; rewrite Hrq; unfold server_turn; rewrite Hnt; cbn [mbind res_bind]; rewrite Ht; cbn [mbind res_bind].
    cbn [receive with_queue queues]; rewrite lookup_insert_eq; cbn [m_body m_op m_tag fill length Nat.min take drop app Z.of_nat]; reflexivity.
  - cbn [w1 with_queue with_con queues next_chan ns_in ns_table ns_buf con_in con_buf uart]; split_and!; try done.
    + split; cbn [with_queue with_con queues ns_in ns_table ns_buf con_in con_buf]; [|by rewrite !lookup_insert_ne, lookup_insert_eq by done|done|done|done|done].
      rewrite !lookup_insert_ne by done; unfold w1; cbn [with_queue queues ns_in]; by rewrite lookup_insert_ne.
    + split; [|done]; cbn [with_queue with_con queues]; by rewrite lookup_insert_eq.
Qed.

(** The payload buffer begins with the reply channel. *)
Lemma chunk_payload (payload part : list Z) rh : length payload = 256%nat -> take 4 payload = to_le 4 rh -> len part <= CHUNK ->
  exists payload1, copy_into payload 4 (4 + len part) part = Ok payload1 /\ sget payload1 0 (4 + len part) = Some (to_le 4 rh ++ part) /\
    length payload1 = 256%nat /\ take 4 payload1 = to_le 4 rh.
Proof.
  intros Hl Ht Hp; change CHUNK with 252 in Hp; pose proof (len_nonneg part); eexists; split; [apply copy_into_ok; unfold len in *; lia|].
  change (Z.to_nat 4) with 4%nat; rewrite Ht; split_and!.
  - apply sget_Some; rewrite !len_app, Ns.len_to_le4; pose proof (len_nonneg (drop (Z.to_nat (4 + len part)) payload)); split_and!; [lia|lia|lia|].
    change (Z.to_nat 0) with O; rewrite drop_0, app_assoc, take_app_length'; [done|]; rewrite length_app, length_to_le; unfold len; lia.
  - rewrite !length_app, length_to_le, length_drop; unfold len in *; lia.
  - by rewrite take_app_length' by (by rewrite length_to_le).
Qed.

Lemma write_loop_ok fuel : forall w c payload rest, quiet w -> c_in c = con_in w -> mine w (reply_h c) -> length payload = 256%nat ->
  take 4 payload = to_le 4 (reply_h c) -> (length rest < fuel)%nat ->
  exists w', write_loop (Os0 := world_os spin) fuel c payload rest w = Ok (Val tt, w') /\ quiet w' /\ mine w' (reply_h c) /\
    con_in w' = con_in w /\ ns_table w' = ns_table w /\ sent (uart w') = sent (uart w) ++ rest.
Proof.
  induction fuel as [|fuel IH]; intros w c payload rest Hq Hc Hm Hpl Hp4 Hf; [lia|]; cbn [write_loop].
  destruct (Z.eqb_spec (len rest) 0) as [H0|H0].
  { destruct rest; [|unfold len in H0; simpl in H0; lia]; exists w; rewrite app_nil_r; by split_and!. }
  set (n := Z.min (len rest) CHUNK); set (part := take (Z.to_nat n) rest); pose proof (len_nonneg rest).
  assert (Hn : 0 < n <= 252 /\ n <= len rest) by (unfold n; change CHUNK with 252; lia).
  assert (Hpart : len part = n) by (unfold part, len in *; rewrite length_take; lia).
  assert (Hsg : sget rest 0 n = Some part) by (apply sget_Some; split_and!; [lia|lia|lia|done]); rewrite Hsg; cbn [unwrap mbind res_bind].
  destruct (chunk_payload payload part (reply_h c) Hpl Hp4) as (payload1 & Hcp & Hb & Hl1 & H41); [rewrite Hpart; change CHUNK with 252; lia|].
  rewrite Hpart in Hcp, Hb; rewrite Hcp; cbn [mbind res_bind]; rewrite Hb; cbn [unwrap mbind res_bind].
  destruct (write_chunk w (reply_h c) part Hq Hm) as (w1 & w2 & buf & Hs & Hr & Hq2 & Hm2 & Hc2 & Ht2 & Hsent); [rewrite Hpart; change CHUNK with 252; lia|].
  cbn [os_send os_receive world_os]; rewrite Hc, Hs; cbn [mbind res_bind negb OK Z.eqb]; rewrite Hr; cbn [mbind res_bind].
  change (R_OK =? RECEIVE_CLOSED) with false; change (R_OK =? R_OK) with true; cbn [negb].
  destruct (IH w2 c payload1 (drop (Z.to_nat n) rest)) as (w' & -> & Hq' & Hm' & Hc' & Ht' & Hs'); [done|congruence|done|done|done|rewrite length_drop; unfold len in *; lia|].
  exists w'; rewrite Hs', Hsent, <- app_assoc; unfold part; rewrite take_drop; split_and!; congruence || done.
Qed.
(** *** Requests to the nameserver *)

Lemma ns_request w r chan : quiet w -> mine w chan -> Ns.request_ok r chan ->
  exists w1 w2 buf res found, enqueue (ns_in w) (Ns.opcode r) 0 (Ns.encode r chan) w = Ok (OK, w1) /\
    receive spin 16 chan (replicate 8 0) w1 = Ok ((res, len (Ns.reply_body found), 0), buf, w2) /\
    buf = Ns.reply_body found ++ drop (length (Ns.reply_body found)) (replicate 8 0) /\
    Ns.spec_step (Ns.view (ns_table w)) r = (res, found, Ns.view (ns_table w2)) /\
    quiet w2 /\ mine w2 chan /\ ns_in w2 = ns_in w /\ con_in w2 = con_in w /\ next_chan w2 = next_chan w /\ uart w2 = uart w.
Proof.
  intros [Q1 Q2 Q3 [Q4 Q5] Q6 Q7] (M1 & M2 & M3 & M4) Hr; pose proof (Ns.encode_len r chan Hr) as Hlen; unfold MSG_MAX in Hlen.
  unfold enqueue at 1; rewrite Q1; change (QUEUE_CAP <=? len []) with false; cbn iota.
  rewrite (take_ge (Ns.encode r chan)) by (unfold len in Hlen; change (Z.to_nat MSG_MAX) with 256%nat; lia); cbn [app].
  set (msg := {| m_op := Ns.opcode r; m_tag := 0; m_body := Ns.encode r chan |}); set (w1 := with_queue w (ns_in w) [msg]).
  destruct (Ns.serve_step (ns_table w) r chan (drop (length (Ns.encode r chan)) (ns_buf w)) 0 Q6 Hr) as (rep & t' & res & found & Hserve & Hi & Hspec & Hrep).
  assert (Hbody : (length (Ns.reply_body found) <= 8)%nat) by (destruct found; [cbn [Ns.reply_body]; rewrite length_app, !length_to_le; lia|simpl; lia]).
  assert (Hrq : queues w1 !! chan = Some []) by (cbn; by rewrite lookup_insert_ne).
  set (buf := Ns.encode r chan ++ drop (length (Ns.encode r chan)) (ns_buf w)).
  set (w2 := with_queue (with_ns (with_queue w1 (ns_in w) []) t' buf) chan [ {| m_op := res; m_tag := 0; m_body := Ns.reply_body found |} ]).
  assert (Hnt : ns_turn w1 = Ok (Some w2)).
  { unfold ns_turn; cbn [w1 with_queue queues ns_in ns_buf ns_table]; rewrite lookup_insert_eq; cbn [msg m_body m_op m_tag].
    rewrite fill_short by (unfold len in Hlen; lia); rewrite Hserve; cbn [mbind res_bind]; rewrite Hrep; cbn [Ns.reply_chan Ns.result_op Ns.rtag Ns.body].
    unfold enqueue; cbn [with_ns with_queue queues]; rewrite !lookup_insert_ne by done; rewrite ?Hrq, ?M1; change (QUEUE_CAP <=? len []) with false; cbn iota; cbn [mbind res_bind app].
    by rewrite (take_ge (Ns.reply_body found)) by (change (Z.to_nat MSG_MAX) with 256%nat; lia). }
  eexists w1, (with_queue w2 chan []), _, res, found; split; [done|]; split; [|split; [reflexivity|]].
  - cbn [receive]; rewrite Hrq; unfold server_turn; rewrite Hnt; cbn [mbind res_bind].
    cbn [receive w2 with_queue queues]; rewrite lookup_insert_eq; cbn [m_body m_op m_tag]; rewrite fill_short by (rewrite length_replicate; lia); reflexivity.
  - split; [done|]; split_and!; try done.
    + split; cbn [w2 w1 with_queue with_ns queues ns_in ns_table ns_buf con_in con_buf]; try done.
      * rewrite !lookup_insert_ne by done; by rewrite lookup_insert_eq.
      * by rewrite !lookup_insert_ne by done.
      * split; [|done]; unfold buf; rewrite length_app, length_drop, Q4; unfold len in Hlen; lia.
    + split; [|done]; cbn [w2 w1 with_queue with_ns queues]; by rewrite lookup_insert_eq.
Qed.

(** A fresh channel. *)
Definition room w : Prop := 0 <= next_chan w < NCHANNELS /\ next_chan w <> ns_in w /\ next_chan w <> con_in w.

Lemma create_eq w : next_chan w < NCHANNELS -> create w = Ok (next_chan w,
  {| queues := <[next_chan w := []]> (queues w); next_chan := next_chan w + 1; ns_in := ns_in w; ns_table := ns_table w; ns_buf := ns_buf w;
     con_in := con_in w; con_buf := con_buf w; uart := uart w |}).
Proof. intros H; unfold create; by rewrite (proj2 (Z.ltb_lt _ _)) by lia. Qed.

Lemma create_ok w : quiet w -> room w -> exists w1, create w = Ok (next_chan w, w1) /\ quiet w1 /\ mine w1 (next_chan w) /\
  ns_in w1 = ns_in w /\ con_in w1 = con_in w /\ ns_table w1 = ns_table w /\ uart w1 = uart w.
Proof.
  intros [Q1 Q2 Q3 Q4 Q6 Q7] (R1 & R2 & R3); rewrite create_eq by lia; eexists; split; [reflexivity|].
  unfold NCHANNELS in R1; split_and!; try done; [split; cbn [queues ns_in con_in ns_buf con_buf ns_table]; auto; by rewrite lookup_insert_ne|].
  split; [cbn; by rewrite lookup_insert_eq|split_and!; [done|done|]]; unfold is_u; change W32 with 4294967296; lia.
Qed.

Lemma le32_small h : is_u32 h -> le32 h = to_le 4 h.
Proof. intros Hh; unfold le32; by rewrite Z.mod_small by exact Hh. Qed.

(** The client finds the server that the nameserver knows. *)
Lemma resolve_ok w p : quiet w -> room w -> Ns.view (ns_table w) !! CONSOLE_NAME = Some p -> Ns.in_h p = con_in w ->
  exists w', let c := {| c_in := con_in w; reply_h := next_chan w |} in resolve (Os0 := world_os spin) None w = Ok (Val c, Some c, w') /\
    quiet w' /\ mine w' (next_chan w) /\ con_in w' = con_in w /\ uart w' = uart w.
Proof.
  intros Hq Hr Hv Hp; unfold resolve; cbn [os_handle_at os_create os_send os_receive world_os Z.eqb Pos.eqb].
  destruct (create_ok w Hq Hr) as (w1 & -> & Hq1 & Hm1 & Hn1 & Hc1 & Ht1 & Hu1); cbn [mbind res_bind]; rewrite le32_small by apply Hm1.
  destruct (ns_request w1 (Ns.Resolve CONSOLE_NAME) (next_chan w) Hq1 Hm1) as (w2 & w3 & buf & res & found & Hs & Hrc & Hb & Hsp & Hq3 & Hm3 & Hn3 & Hc3 & _ & Hu3);
    [split_and!; [vm_compute; discriminate|apply Hm1|done]|].
  cbn [Ns.encode Ns.opcode] in Hs; change OP_RESOLVE with Ns.OP_RESOLVE; rewrite <- Hn1, Hs; cbn [mbind res_bind OK Z.eqb negb]; rewrite Hrc; cbn [mbind res_bind].
  cbn [Ns.spec_step] in Hsp; rewrite Ht1, Hv in Hsp; injection Hsp as <- <- _; destruct p as [pi po]; cbn [Ns.in_h] in Hp; subst pi.
  cbn [Ns.reply_body Ns.in_h Ns.out_h] in *; rewrite len_app, !Ns.len_to_le4; change (Ns.R_OK =? RECEIVE_CLOSED) with false; change (Ns.R_OK =? R_OK) with true; change (4 + 4 =? 8) with true; cbn [negb orb].
  rewrite Hb, <- app_assoc, u32_front by (apply Hq); cbn [mbind res_bind]; exists w3; split_and!; try done; congruence.
Qed.

(** A server that publishes a name is found under it. *)
Lemma publish_ok w name in_h out_h : quiet w -> room w -> len name <= Ns.NAME_MAX -> is_u32 in_h -> is_u32 out_h ->
  Z.of_nat (size (Ns.view (ns_table w))) < Ns.NENT ->
  exists w', publish (Os0 := world_os spin) name in_h out_h w = Ok (R_OK, w') /\ quiet w' /\ con_in w' = con_in w /\ uart w' = uart w /\
    Ns.view (ns_table w') = <[name := {| Ns.in_h := in_h; Ns.out_h := out_h |}]> (Ns.view (ns_table w)).
Proof.
  intros Hq Hr Hl Hi Ho Hroom; unfold publish; cbn [os_handle_at os_create os_send os_receive world_os Z.eqb Pos.eqb].
  destruct (create_ok w Hq Hr) as (w1 & -> & Hq1 & Hm1 & Hn1 & Hc1 & Ht1 & Hu1); cbn [mbind res_bind]; rewrite !le32_small by (done || apply Hm1).
  destruct (ns_request w1 (Ns.Bind name {| Ns.in_h := in_h; Ns.out_h := out_h |}) (next_chan w) Hq1 Hm1) as (w2 & w3 & buf & res & found & Hs & Hrc & Hb & Hsp & Hq3 & Hm3 & Hn3 & Hc3 & _ & Hu3);
    [split_and!; [done|apply Hm1|done|done]|].
  cbn [Ns.encode Ns.opcode Ns.in_h Ns.out_h] in Hs; change OP_BIND with Ns.OP_BIND; rewrite <- Hn1, Hs; cbn [mbind res_bind]; rewrite Hrc; cbn [mbind res_bind].
  cbn [Ns.spec_step] in Hsp; rewrite Ht1, (proj2 (Z.ltb_lt _ _)), orb_true_r in Hsp by done; injection Hsp as <- <- Hview.
  exists w3; split_and!; try done; congruence.
Qed.

(** From a system in which only the nameserver runs. *)
Lemma console_start_ok w : queues w !! ns_in w = Some [] -> length (ns_buf w) = 256%nat -> length (con_buf w) = 256%nat -> Ns.inv (ns_table w) ->
  0 <= ns_in w < next_chan w -> next_chan w + 3 <= NCHANNELS -> Z.of_nat (size (Ns.view (ns_table w))) < Ns.NENT ->
  exists w', console_start spin w = Ok w' /\ quiet w' /\ con_in w' = next_chan w /\ sent (uart w') = sent (uart w) ++ [65] /\
    Ns.view (ns_table w') !! CONSOLE_NAME = Some {| Ns.in_h := next_chan w; Ns.out_h := next_chan w + 1 |}.
Proof.
  intros H1 H2 H3 H4 H5 H6 H7; unfold NCHANNELS in H6; unfold console_start; cbn [os_create world_os].
  rewrite create_eq by (cbn [next_chan with_con]; unfold NCHANNELS; lia); cbn [mbind res_bind]; rewrite create_eq by (cbn [next_chan with_con]; unfold NCHANNELS; lia).
  cbn [mbind res_bind queues next_chan ns_in ns_table ns_buf con_buf uart with_con].
  match goal with |- context [publish _ _ _ ?w3] => set (w3' := w3) end.
  destruct (publish_ok w3' CONSOLE_NAME (next_chan w) (next_chan w + 1)) as (w' & -> & Hq & Hc & Hu & Hv).
  - split; cbn [w3' queues ns_in con_in ns_buf con_buf ns_table]; auto; [by rewrite !lookup_insert_ne by lia|by rewrite lookup_insert_ne, lookup_insert_eq by lia|lia|].
    unfold is_u; change W32 with 4294967296; lia.
  - unfold room; cbn [w3' next_chan ns_in con_in]; unfold NCHANNELS; lia.
  - vm_compute; discriminate.
  - unfold is_u; change W32 with 4294967296; lia.
  - unfold is_u; change W32 with 4294967296; lia.
  - done.
  - cbn [mbind res_bind]; exists w'; split_and!; [done|done|done|rewrite Hu; apply sent_dr|by rewrite Hv, lookup_insert_eq].
Qed.
End proofs.

(** C17: output through the console, end to end in user space: the client resolves
    [/dev/console] with the nameserver, and [write] then sends any data in
    messages of at most 252 bytes, each answered by the console server before
    the next: it succeeds, and the UART has been sent exactly the data, in
    order, behind what it had been sent before; the servers are left waiting and
    the client keeps the channel it found. *)
Theorem console_write_delivers {U : Type} `{!Pl011 U} (spin : nat) `{L : !Pl011Laws U spin} (w : World U) (data : list Z) (p : Ns.Pair)
    (Hq : quiet w) (Hr : room w) (Hv : Ns.view (ns_table w) !! CONSOLE_NAME = Some p) (Hp : Ns.in_h p = con_in w) :
  exists w', write (Os0 := world_os spin) data None w = Ok (Val tt, Some {| c_in := con_in w; reply_h := next_chan w |}, w') /\
    quiet w' /\ sent (uart w') = sent (uart w) ++ data.
Proof.
  unfold write; destruct (resolve_ok spin w p Hq Hr Hv Hp) as (w1 & -> & Hq1 & Hm1 & Hc1 & Hu1); cbn [mbind res_bind reply_h].
  rewrite le32_small by apply Hm1; rewrite copy_into_ok by (rewrite ?Ns.len_to_le4; unfold len; rewrite ?length_replicate; vm_compute; intuition discriminate).
  cbn [mbind res_bind]; change (Z.to_nat 0) with O; rewrite take_0, app_nil_l.
  destruct (write_loop_ok spin (S (length data)) w1 {| c_in := con_in w; reply_h := next_chan w |} (to_le 4 (next_chan w) ++ drop (Z.to_nat 4) (replicate (Z.to_nat MSG_MAX) 0)) data)
    as (w' & -> & Hq' & _ & _ & _ & Hs); [done|done|done| | |lia|].
  - by rewrite length_app, length_to_le, length_drop, length_replicate.
  - by rewrite take_app_length' by (by rewrite length_to_le).
  - cbn [mbind res_bind]; exists w'; split_and!; [done|done|by rewrite Hs, Hu1].
Qed.

(** ** A boot: the console server publishes its name, then a client writes *)
Module SvDemo.

(** A UART that is busy once after every byte. *)
Record Uart := { out : list Z; busy : bool }.
#[export] Instance uart_ops : Pl011 Uart := {
  read_fr u := (if busy u then TXFF else 0, {| out := out u; busy := false |});
  write_dr b u := {| out := out u ++ [b]; busy := true |};
}.
#[export] Instance uart_laws : Pl011Laws Uart 2.
Proof.
  refine {| sent := out |}; try done.
  intros [o []]; [exists 1%nat|exists 0%nat]; split; lia || reflexivity.
Defined.

(** Channels 0 and 1 are the nameserver's. *)
Definition boot : World Uart :=
  {| queues := {[ 0 := []; 1 := [] ]}; next_chan := 2; ns_in := 0; ns_table := Ns.new; ns_buf := replicate 256 0;
     con_in := 0; con_buf := replicate 256 0; uart := {| out := []; busy := false |} |}.

(** 300 bytes: two messages. *)
Definition data : list Z := seqZ 0 300.

Lemma console_write_delivers_witness : exists w1 w2 c, console_start 2 boot = Ok w1 /\
  write (Os0 := world_os 2) data None w1 = Ok (Val tt, Some c, w2) /\ out (uart w2) = 65 :: data.
Proof.
  destruct (console_start_ok 2 boot) as (w1 & Hst & Hq & Hc & Hu & Hv);
    [reflexivity|reflexivity|reflexivity|apply Ns.new_inv|split; [discriminate|reflexivity]|discriminate|reflexivity|].
  assert (Hn : (fun x => (next_chan x, ns_in x)) <$> console_start 2 boot = Ok (5, 0)) by (vm_compute; reflexivity).
  rewrite Hst in Hn; cbn [fmap res_fmap] in Hn; injection Hn as Hn1 Hn2.
  destruct (console_write_delivers 2 w1 data {| Ns.in_h := 2; Ns.out_h := 3 |}) as (w2 & Hw & _ & Hs).
  - exact Hq.
  - unfold room; rewrite Hn1, Hn2, Hc; split_and!; vm_compute; (discriminate || reflexivity).
  - exact Hv.
  - rewrite Hc; reflexivity.
  - eexists w1, w2, _; split; [exact Hst|]; split; [exact Hw|]; refine (eq_trans Hs _); rewrite Hu; reflexivity.
Defined.
End SvDemo.

End Sv.
