(* ===== verification/Display.v ===== *)
(** * The mailbox and the display ([aarch64/src/mailbox.rs], [cmd/mailbox/src/main.rs], [cmd/display/src/main.rs])

    The property mailbox of the VideoCore, as the kernel's driver and the
    mailbox server use it (registers, request buffer, responses), the requests
    that the server answers, and the display server: its request for a frame
    buffer and the frames it draws. *)

From S2P Require Import Prelude Abi Addr Vm Userlib.
Import Us(copy_into, copy_into_ok).

Module Mb.

(** ** The device: registers, and memory that both sides see *)

Class VideoCore (H : Type) := {
  reg : Z -> H -> Z * H;
  reg_set : Z -> Z -> H -> H;
  word : H -> Z -> Z;
  word_set : Z -> Z -> H -> H;
}.

Definition MBOX_READ : Z := 0x00.
Definition MBOX_STATUS : Z := 0x18.
Definition MBOX_WRITE : Z := 0x20.
Definition MBOX_FULL : Z := 0x80000000.
Definition MBOX_EMPTY : Z := 0x40000000.
Definition CHANNEL_ARM_TO_VC : Z := 8.

Definition FbAllocate : Z := 0x00040001.
Definition FbSetPhysicalWidthHeight : Z := 0x00048003.
Definition FbSetDepth : Z := 0x00048005.
Definition FbSetPixelOrder : Z := 0x00048006.
Definition GetFirmwareRevision : Z := 0x00000001.
Definition GetBoardModel : Z := 0x00010001.
Definition GetBoardRevision : Z := 0x00010002.
Definition GetBoardMacAddress : Z := 0x00010003.
Definition GetBoardSerial : Z := 0x00010004.
Definition GetArmMemory : Z := 0x00010005.
Definition GetVcMemory : Z := 0x00010006.
Definition SetClockRate : Z := 0x00038002.

Section driver.
Context {H : Type} `{!VideoCore H} (fuel : nat).

(** [while (read_reg(STATUS) & bit) != 0 {}]. *)
Fixpoint wait_clear (n : nat) (bit : Z) (h : H) : res H :=
  match n with
  | O => Timeout
  | S n' => let '(v, h1) := reg MBOX_STATUS h in if negb (Z.land v bit =? 0) then wait_clear n' bit h1 else Ok h1
  end.

(** The loop for the response [r]. *)
Fixpoint wait_reply (n : nat) (r : Z) (h : H) : res H :=
  match n with
  | O => Timeout
  | S n' =>
      h1 ← wait_clear fuel MBOX_EMPTY h;
      let '(v, h2) := reg MBOX_READ h1 in
      if v =? r then Ok h2 else wait_reply n' r h2
  end.

(** [Mailbox::request] and [mbox_request] of the server: the buffer is at [pa]. *)
Definition request_word (pa : Z) : Z := Z.lor (Z.land (pa mod W32) (unot W32 0xf)) CHANNEL_ARM_TO_VC.
Definition mbox_request (pa : Z) (h : H) : res H :=
  h1 ← wait_clear fuel MBOX_FULL h;
  wait_reply fuel (request_word pa) (reg_set MBOX_WRITE (request_word pa) h1).

(** [n] words of zero from [base], and words stored from [base] on. *)
Fixpoint zero_words (n : nat) (base : Z) (h : H) : H :=
  match n with O => h | S n' => zero_words n' (base + 4) (word_set base 0 h) end.
Fixpoint store_words (base : Z) (ws : list Z) (h : H) : H :=
  match ws with [] => h | v :: ws' => store_words (base + 4) ws' (word_set base v h) end.

(** ** The kernel's driver *)

(** [size_of] of a request or response with a body of [t] bytes, and of the
    union of both, which is aligned to 16. *)
Definition round_to (n a : Z) : Z := (n + a - 1) / a * a.
Definition size_of_message (t u : Z) : Z := round_to (Z.max (round_to (8 + t) 4) (round_to (8 + u) 4)) 16.
Definition size_of_tag (t : Z) : Z := round_to (12 + t) 4 + 4.

(** [request]: the words of the body and the bytes of the response's body; the
    result is where the response's body begins. *)
Definition request (base code tag_id buf_size : Z) (body : list Z) (u : Z) (h : H) : res H :=
  let t := 4 * len body in
  let size := size_of_message t u in
  let h1 := zero_words (Z.to_nat (size_of_message (size_of_tag t) (size_of_tag u) / 4)) base h in
  let h2 := store_words base ([size; code; tag_id; buf_size; 0] ++ body ++ [0]) h1 in
  mbox_request base h2.
Definition body_word (base i : Z) (h : H) : Z := word h (base + 20 + 4 * i).

Definition set_clock_rate (base clock_id rate_hz skip : Z) (h : H) : res H :=
  request base 0 SetClockRate 12 [clock_id; rate_hz; skip] 8 h.

(** The end of the range is a checked sum of 32 bits. *)
Definition memory_range (base tag_id : Z) (h : H) : res (PhysRange * H) :=
  h1 ← request base 0 tag_id 12 [] 8 h;
  let start := body_word base 0 h1 in
  let size := body_word base 1 h1 in
  if start + size <? W32 then Ok ({| start := start; end_ := start + size |}, h1) else Panic.
Definition get_arm_memory (base : Z) (h : H) : res (PhysRange * H) := memory_range base GetArmMemory h.
Definition get_vc_memory (base : Z) (h : H) : res (PhysRange * H) := memory_range base GetVcMemory h.

Definition get_u32 (base tag_id : Z) (h : H) : res (Z * H) :=
  h1 ← request base 0 tag_id 4 [] 4 h; Ok (body_word base 0 h1, h1).
Definition get_firmware_revision (base : Z) := get_u32 base GetFirmwareRevision.
Definition get_board_model (base : Z) := get_u32 base GetBoardModel.
Definition get_board_revision (base : Z) := get_u32 base GetBoardRevision.

Definition get_board_macaddr (base : Z) (h : H) : res (list Z * H) :=
  h1 ← request base 0 GetBoardMacAddress 6 [] 6 h;
  Ok (take 6 (to_le 4 (body_word base 0 h1) ++ to_le 4 (body_word base 1 h1)), h1).

Definition get_board_serial (base : Z) (h : H) : res (Z * H) :=
  h1 ← request base 0 GetBoardSerial 8 [] 8 h;
  Ok (Z.lor (Z.shiftl (body_word base 0 h1) 32) (body_word base 1 h1), h1).

(** The two messages of [configure_framebuffer]. *)
Definition config_words (width height bpp : Z) : list Z :=
  [64; 0; FbSetPhysicalWidthHeight; 8; 0; width; height; FbSetDepth; 4; 0; bpp; FbSetPixelOrder; 4; 0; 0; 0].
Definition alloc_words : list Z := [32; 0; FbAllocate; 8; 0].

(** [n] words are cleared before the second message (8 in the kernel, 32 in the
    server); the words 5 and 6 are left for the answer. *)
Definition configure_with (n : nat) (base width height bpp : Z) (h : H) : res (Z * Z * H) :=
  let h1 := store_words base (config_words width height bpp) (zero_words 16 base h) in
  h2 ← mbox_request base h1;
  let h3 := word_set (base + 28) 0 (store_words base alloc_words (zero_words n base h2)) in
  h4 ← mbox_request base h3;
  Ok (word h4 (base + 20), word h4 (base + 24), h4).

(** The kernel also keeps the address ([FB_PHYS]). *)
Definition configure_framebuffer (base width height bpp : Z) (h : H) : res (PhysRange * Z * H) :=
  '(pa, size, h1) ← configure_with 8 base width height bpp h;
  e ← uadd pa size;
  Ok ({| start := pa; end_ := e |}, pa, h1).

(** ** The mailbox server *)

Definition server_configure (base width height bpp : Z) (h : H) : res (Z * Z * H) := configure_with 32 base width height bpp h.

Definition get_property (base tag_id : Z) (h : H) : res (Z * H) :=
  let h1 := store_words base [24; 0; tag_id; 4; 0; 0] (zero_words 6 base h) in
  h2 ← mbox_request base h1; Ok (word h2 (base + 20), h2).

Definition server_arm_memory (base : Z) (h : H) : res (Z * Z * H) :=
  let h1 := store_words base [32; 0; GetArmMemory; 8; 0; 0; 0; 0] (zero_words 8 base h) in
  h2 ← mbox_request base h1; Ok (word h2 (base + 20), word h2 (base + 24), h2).

Definition OP_CONFIGURE_FB : Z := 0.
Definition OP_GET_PROPERTY : Z := 1.
Definition R_OK : Z := 0.

(** [u32::from_le_bytes([buf[i], .., buf[i + 3]])]. *)
Definition u32_of (buf : list Z) (i : Z) : Z := from_le (take 4 (drop (Z.to_nat i) buf)).

(** The reply, or the end of the server. *)
Inductive Answer := Reply (body : list Z) | Exit (code : Z).

(** One turn of the loop: the buffer of 64 bytes after the [receive], and the
    number of bytes it returned. *)
Definition serve (base bytes : Z) (req_buf : list Z) (h : H) : res (Answer * H) :=
  let n := Z.min bytes 64 in
  let op := from_le (take 2 req_buf) in
  if op =? OP_CONFIGURE_FB then
    if n <? 14 then Ok (Exit 1, h) else
    '(pa, size, h1) ← server_configure base (u32_of req_buf 2) (u32_of req_buf 6) (u32_of req_buf 10) h;
    r1 ← copy_into (replicate 17 0) 1 5 (to_le 4 (pa mod W32));
    r2 ← copy_into r1 5 9 (to_le 4 (Z.shiftr pa 32 mod W32));
    r3 ← copy_into r2 9 13 (to_le 4 (size mod W32));
    r4 ← copy_into r3 13 17 (to_le 4 (Z.shiftr size 32 mod W32));
    Ok (Reply r4, h1)
  else if op =? OP_GET_PROPERTY then
    if n <? 6 then Ok (Exit 1, h) else
    '(v, h1) ← get_property base (u32_of req_buf 2) h;
    r ← copy_into (replicate 5 0) 1 5 (to_le 4 v);
    Ok (Reply r, h1)
  else Ok (Reply [1], h).
End driver.

(** ** The display server: configuration *)

Definition WIDTH : Z := 640.
Definition HEIGHT : Z := 480.
Definition BAR_WIDTH : Z := 32.
Definition FB_VA : Z := 0x40000000.
Definition FB_SIZE : Z := WIDTH * HEIGHT * 4.

(** The request. *)
Definition fb_request : res (list Z) :=
  r1 ← copy_into (replicate 14 0) 0 2 (to_le 2 OP_CONFIGURE_FB);
  r2 ← copy_into r1 2 6 (to_le 4 WIDTH);
  r3 ← copy_into r2 6 10 (to_le 4 HEIGHT);
  copy_into r3 10 14 (to_le 4 32).

(** The reply, in a buffer of 24 bytes: the physical address, or the exit code. *)
Definition fb_reply (op : Z) (reply : list Z) : result Z Z :=
  if negb (op =? R_OK) || negb (default 0 (reply !! 0%nat) =? 0) then Err 1 else
  let phys := Z.lor (Z.shiftl (u32_of reply 5) 32) (u32_of reply 1) in
  if phys =? 0 then Err 2 else Val phys.

(** ** Frames *)

(** The inner loop, from column [x] of the bar on. *)
Fixpoint bar_row (fuel : nat) (bar_x row_start x : Z) (back : list Z) : res (list Z) :=
  match fuel with
  | O => Timeout
  | S fuel' =>
      if (x <? BAR_WIDTH) && (bar_x + x <? WIDTH) then
        px ← uadd row_start (x * 4);
        b1 ← aset back px 0; b2 ← aset b1 (px + 1) 255; b3 ← aset b2 (px + 2) 0; b4 ← aset b3 (px + 3) 255;
        bar_row fuel' bar_x row_start (x + 1) b4
      else Ok back
  end.

Fixpoint bar_rows (fuel : nat) (bar_x y : Z) (back : list Z) : res (list Z) :=
  match fuel with
  | O => Timeout
  | S fuel' =>
      if y <? HEIGHT then
        back1 ← bar_row 33 bar_x ((y * WIDTH + bar_x) * 4) 0 back;
        bar_rows fuel' bar_x (y + 1) back1
      else Ok back
  end.

(** The fuel is one more than the columns of the bar and the rows. *)
Definition write_frame (back : list Z) (frame_number : Z) : res (list Z) :=
  bar_rows 481 (frame_number mod WIDTH) 0 (replicate (length back) 0).

(** ** The firmware: what the property interface documents *)

Fixpoint polls {H} `{!VideoCore H} (n : nat) (h : H) : H := match n with O => h | S n' => polls n' (reg MBOX_STATUS h).2 end.

(** The buffer at [pa] holds these words. *)
Definition holds {H} `{!VideoCore H} (h : H) (pa : Z) (ws : list Z) : Prop := forall i v, ws !! i = Some v -> word h (pa + 4 * Z.of_nat i) = v.

(** The memory is memory; the mailbox is not full for ever; a request (the address
    of a buffer, aligned to 16, and the channel) is answered by the same word,
    once the status says that there is a response, and by then the firmware has
    done what the buffer asks: a configuration is taken, and an allocation
    with zeroed values is answered with the address and the size of the frame
    buffer that is configured. *)
Class VcLaws (H : Type) `{!VideoCore H} (patience : nat) := {
  fb : H -> option (Z * Z * Z);
  fb_base : Z * Z * Z -> Z;
  fb_size : Z * Z * Z -> Z;
  fb_range c : 0 < fb_base c < W32 /\ 0 <= fb_size c < W32;
  word_same h a v : is_u32 v -> word (word_set a v h) a = v;
  word_other h a b v : (4 | a) -> (4 | b) -> a <> b -> word (word_set a v h) b = word h b;
  fb_word h a v : fb (word_set a v h) = fb h;
  status_word h a : word (reg MBOX_STATUS h).2 a = word h a;
  status_fb h : fb (reg MBOX_STATUS h).2 = fb h;
  not_full h : exists n, (n < patience)%nat /\ Z.land (reg MBOX_STATUS (polls n h)).1 MBOX_FULL = 0;
  not_empty h r : exists n, (n < patience)%nat /\ Z.land (reg MBOX_STATUS (polls n (reg_set MBOX_WRITE r h))).1 MBOX_EMPTY = 0;
  response h pa n : (16 | pa) -> is_u32 pa -> let h1 := polls n (reg_set MBOX_WRITE (pa + 8) h) in
    Z.land (reg MBOX_STATUS h1).1 MBOX_EMPTY = 0 -> let '(v, h2) := reg MBOX_READ (reg MBOX_STATUS h1).2 in
    v = pa + 8 /\
    (forall w hh b, holds h pa (config_words w hh b) -> fb h2 = Some (w, hh, b)) /\
    (forall c, fb h = Some c -> holds h pa [32; 0; FbAllocate; 8; 0; 0; 0; 0] -> word h2 (pa + 20) = fb_base c /\ word h2 (pa + 24) = fb_size c);
}.

Section proofs.
Context {H : Type} `{!VideoCore H} (patience : nat) `{L : !VcLaws H patience}.

Lemma request_word_eq pa : (16 | pa) -> is_u32 pa -> request_word pa = pa + 8.
Proof.
  intros [q ->] Hpa; unfold request_word, CHANNEL_ARM_TO_VC; rewrite Z.mod_small by exact Hpa.
  assert (Hl : Z.land (q * 16) (unot W32 0xf) = q * 2 ^ 4).
  { change W32 with (2 ^ 32); rewrite land_unot by (unfold is_u, W32 in *; lia).
    change 0xf with (Z.ones 4); rewrite Z.ldiff_ones_r, Z.shiftl_mul_pow2, Z.shiftr_div_pow2 by lia; change 16 with (2 ^ 4); by rewrite Z.div_mul. }
  by rewrite Hl, Pt.lor_disjoint by lia.
Qed.

Lemma wait_clear_ok n bit : forall h, (exists k, (k < n)%nat /\ Z.land (reg MBOX_STATUS (polls k h)).1 bit = 0) ->
  exists k, (k < n)%nat /\ Z.land (reg MBOX_STATUS (polls k h)).1 bit = 0 /\ wait_clear n bit h = Ok (reg MBOX_STATUS (polls k h)).2.
Proof.
  induction n as [|n IH]; intros h (k & Hk & Hz); [lia|]; cbn [wait_clear]; destruct (reg MBOX_STATUS h) as [v h1] eqn:E.
  destruct (Z.eqb_spec (Z.land v bit) 0) as [Hv|Hv]; cbn [negb].
  - exists 0%nat; cbn [polls]; rewrite E; split_and!; [lia|done|done].
  - destruct k as [|k]; cbn [polls] in Hz; rewrite E in Hz; cbn [fst snd] in Hz; [done|].
    destruct (IH h1) as (k' & Hk' & Hz' & ->); [exists k; split; [lia|done]|]; exists (S k'); cbn [polls]; rewrite E; cbn [snd]; split_and!; [lia|done|done].
Qed.

Lemma polls_word n : forall h a, word (polls n h) a = word h a.
Proof. induction n as [|n IH]; intros h a; cbn [polls]; [done|]; by rewrite IH, status_word. Qed.
Lemma polls_fb n : forall h, fb (VcLaws := L) (polls n h) = fb h.
Proof. induction n as [|n IH]; intros h; cbn [polls]; [done|]; by rewrite IH, status_fb. Qed.

Lemma holds_words h h' pa ws : (forall a, word h' a = word h a) -> holds h pa ws -> holds h' pa ws.
Proof. intros Hw Hh i v Hi; rewrite Hw; by apply Hh. Qed.

(** A request is answered. *)
Lemma mbox_request_ok h pa : (16 | pa) -> is_u32 pa -> (0 < patience)%nat ->
  exists h', mbox_request patience pa h = Ok h' /\ (forall w hh b, holds h pa (config_words w hh b) -> fb h' = Some (w, hh, b)) /\
    (forall c, fb h = Some c -> holds h pa [32; 0; FbAllocate; 8; 0; 0; 0; 0] -> word h' (pa + 20) = fb_base c /\ word h' (pa + 24) = fb_size c).
Proof.
  intros Ha Hu Hp; unfold mbox_request; rewrite request_word_eq by done.
  destruct (wait_clear_ok patience MBOX_FULL h (not_full h)) as (k & _ & _ & ->); cbn [mbind res_bind]; set (h0 := (reg MBOX_STATUS (polls k h)).2).
  assert (Hw0 : forall a, word h0 a = word h a) by (intros a; unfold h0; by rewrite status_word, polls_word).
  assert (Hf0 : fb h0 = fb h) by (unfold h0; by rewrite status_fb, polls_fb).
  destruct patience as [|n]; [lia|]; cbn [wait_reply].
  destruct (wait_clear_ok (S n) MBOX_EMPTY _ (not_empty h0 (pa + 8))) as (j & _ & Hz & ->); cbn [mbind res_bind].
  pose proof (response h0 pa j Ha Hu Hz) as Hr; cbv zeta in Hr; destruct (reg MBOX_READ _) as [v h2]; destruct Hr as (-> & Hcfg & Hal); rewrite Z.eqb_refl.
  exists h2; split_and!; [done| |].
  - intros w hh b Hh; apply Hcfg; by apply (holds_words h).
  - intros c Hc Hh; apply Hal; [by rewrite Hf0|by apply (holds_words h)].
Qed.

(** *** Filling the buffer *)

Lemma store_words_out ws : forall base h a, (4 | base) -> (4 | a) -> a < base \/ base + 4 * len ws <= a -> word (store_words base ws h) a = word h a.
Proof.
  induction ws as [|v ws IH]; intros base h a Hb Ha Hout; cbn [store_words]; [done|]; rewrite (len_app [v] ws : len (v :: ws) = _) in Hout; change (len [v]) with 1 in Hout; pose proof (len_nonneg ws).
  rewrite IH; [apply word_other; [done|done|lia]|by apply Z.divide_add_r; [|exists 1]|done|lia].
Qed.

Lemma store_words_holds ws : forall base h, (4 | base) -> Forall is_u32 ws -> holds (store_words base ws h) base ws.
Proof.
  induction ws as [|v ws IH]; intros base h Hb Hu i x Hi; cbn [store_words]; [done|]; apply Forall_cons in Hu as [Hv Hu].
  assert (Hb4 : (4 | base + 4)) by (by apply Z.divide_add_r; [|exists 1]).
  destruct i as [|i]; cbn in Hi; [injection Hi as <-; rewrite Z.mul_0_r, Z.add_0_r, store_words_out by (done || lia); by apply word_same|].
  replace (base + 4 * Z.of_nat (S i)) with (base + 4 + 4 * Z.of_nat i) by lia; by apply IH.
Qed.

Lemma store_words_fb ws : forall base h, fb (VcLaws := L) (store_words base ws h) = fb h.
Proof. induction ws as [|v ws IH]; intros base h; cbn [store_words]; [done|]; by rewrite IH, fb_word. Qed.

Lemma zero_words_stores n : forall base h, zero_words n base h = store_words base (replicate n 0) h.
Proof. induction n as [|n IH]; intros base h; cbn [zero_words store_words replicate]; [done|]; by rewrite IH. Qed.

(** A frame buffer of the size asked for. *)
Lemma configure_ok n h base w hh b : (8 <= n)%nat -> (0 < patience)%nat -> (16 | base) -> is_u32 base -> is_u32 w -> is_u32 hh -> is_u32 b ->
  exists h', configure_with patience n base w hh b h = Ok (fb_base (w, hh, b), fb_size (w, hh, b), h').
Proof.
  intros Hn Hp Ha Hu Hw Hh Hb; unfold configure_with; set (h1 := store_words base (config_words w hh b) (zero_words 16 base h)).
  assert (H4 : (4 | base)) by (destruct Ha as [q ->]; exists (q * 4); lia).
  assert (Hc : holds h1 base (config_words w hh b)) by (apply store_words_holds; [done|]; repeat (constructor; [try done; split; (discriminate || reflexivity)|]); constructor).
  destruct (mbox_request_ok h1 base Ha Hu Hp) as (h2 & -> & Hcfg & _); cbn [mbind res_bind]; specialize (Hcfg w hh b Hc).
  set (h3 := word_set (base + 28) 0 (store_words base alloc_words (zero_words n base h2))).
  assert (Hf3 : fb h3 = Some (w, hh, b)) by (unfold h3; by rewrite fb_word, store_words_fb, zero_words_stores, store_words_fb).
  assert (H28 : (4 | base + 28)) by (apply Z.divide_add_r; [done|by exists 7]).
  assert (Hz : forall i, (i < n)%nat -> word (zero_words n base h2) (base + 4 * Z.of_nat i) = 0).
  { intros i Hi; rewrite zero_words_stores; apply (store_words_holds (replicate n 0) base h2 H4); [apply Forall_replicate; split; (discriminate || reflexivity)|by apply lookup_replicate_2]. }
  assert (Hal : holds h3 base [32; 0; FbAllocate; 8; 0; 0; 0; 0]).
  { intros i v Hi; assert (Hd : (4 | base + 4 * Z.of_nat i)) by (apply Z.divide_add_r; [done|exists (Z.of_nat i); lia]); assert (Hi8 : (i < 8)%nat) by (apply lookup_lt_Some in Hi; done).
    unfold h3; destruct (decide (i = 7%nat)) as [->|N7]; [injection Hi as <-; change (base + 4 * Z.of_nat 7) with (base + 28); apply word_same; split; (discriminate || reflexivity)|].
    rewrite word_other by (done || lia); destruct (decide (i < 5)%nat) as [H5|H5].
    - apply (store_words_holds alloc_words base _ H4); [repeat (constructor; [split; (discriminate || reflexivity)|]); constructor|].
      do 5 (destruct i as [|i]; [exact Hi|]); lia.
    - rewrite store_words_out by (done || (change (len alloc_words) with 5; lia)); rewrite Hz by lia; do 5 (destruct i as [|i]; [lia|]); do 3 (destruct i as [|i]; [by injection Hi|]); lia. }
  destruct (mbox_request_ok h3 base Ha Hu Hp) as (h4 & -> & _ & Hans); cbn [mbind res_bind]; destruct (Hans (w, hh, b) Hf3 Hal) as [-> ->]; by exists h4.
Qed.
(** *** The reply on the wire *)

Lemma to_le4_list x : exists a b c d, to_le 4 x = [a; b; c; d].
Proof. by eexists _, _, _, _. Qed.

(** The reply to a configuration: status 0, address and size of 64 bits each. *)
Definition fb_body (pa size : Z) : list Z := [0] ++ to_le 4 pa ++ to_le 4 0 ++ to_le 4 size ++ to_le 4 0.

Lemma serve_configure h base req w hh b : (0 < patience)%nat -> (16 | base) -> is_u32 base -> is_u32 w -> is_u32 hh -> is_u32 b ->
  from_le (take 2 req) = OP_CONFIGURE_FB -> u32_of req 2 = w -> u32_of req 6 = hh -> u32_of req 10 = b ->
  exists h', serve patience base 14 req h = Ok (Reply (fb_body (fb_base (w, hh, b)) (fb_size (w, hh, b))), h').
Proof.
  intros Hp Ha Hu Hw Hh Hb Hop <- <- <-; unfold serve; rewrite Hop; cbn [Z.eqb Z.min Z.compare Pos.compare Pos.compare_cont OP_CONFIGURE_FB Z.ltb].
  set (c := (u32_of req 2, u32_of req 6, u32_of req 10)); unfold server_configure.
  destruct (configure_ok 32 h base (u32_of req 2) (u32_of req 6) (u32_of req 10) ltac:(lia) Hp Ha Hu Hw Hh Hb) as (h' & ->); cbn [mbind res_bind]; fold c; exists h'.
  destruct (fb_range c) as [[H1 H2] H3]; rewrite !Z.shiftr_div_pow2 by lia; rewrite !(Z.div_small _ (2 ^ 32)) by (unfold W32 in *; lia).
  rewrite (Z.mod_small (fb_base c)), (Z.mod_small (fb_size c)) by lia; change (0 mod W32) with 0; unfold fb_body.
  destruct (to_le4_list (fb_base c)) as (a0 & a1 & a2 & a3 & ->); destruct (to_le4_list (fb_size c)) as (s0 & s1 & s2 & s3 & ->); reflexivity.
Qed.

Lemma fb_reply_ok pa size : 0 < pa < W32 -> fb_reply R_OK (fb_body pa size ++ replicate 7 0) = Val pa.
Proof.
  intros Hp; unfold fb_reply, fb_body; cbn [app lookup list_lookup default R_OK Z.eqb negb orb].
  assert (H1 : u32_of (0 :: to_le 4 pa ++ to_le 4 0 ++ to_le 4 size ++ to_le 4 0 ++ replicate 7 0) 1 = pa).
  { unfold u32_of; destruct (to_le4_list pa) as (a & b & c & d & E); rewrite E; change (from_le [a; b; c; d] = pa); rewrite <- E; apply from_to_le; unfold W32 in Hp; cbn; lia. }
  assert (H5 : u32_of (0 :: to_le 4 pa ++ to_le 4 0 ++ to_le 4 size ++ to_le 4 0 ++ replicate 7 0) 5 = 0).
  { unfold u32_of; change (Z.to_nat 5) with 5%nat; destruct (to_le4_list pa) as (a & b & c & d & ->); reflexivity. }
  rewrite <- !app_assoc, H1, H5; change (Z.shiftl 0 32) with 0; rewrite Z.lor_0_l; by rewrite (proj2 (Z.eqb_neq pa 0)) by lia.
Qed.
End proofs.

(** The display server gets its frame buffer: the request it sends (640 by 480, 32
    bits) is understood by the mailbox server, which drives the mailbox through
    both of its requests without hanging, and the address that the display
    server reads from the reply is that of the buffer the firmware configured
    for this size. *)
Lemma display_gets_framebuffer {H : Type} `{!VideoCore H} (patience : nat) `{L : !VcLaws H patience} (h : H) (base : Z)
    (Hp : (0 < patience)%nat) (Ha : (16 | base)) (Hu : is_u32 base) :
  exists req h' body, fb_request = Ok req /\ len req = 14 /\ serve patience base 14 (req ++ replicate 50 0) h = Ok (Reply body, h') /\
    fb_reply R_OK (body ++ replicate 7 0) = Val (fb_base (WIDTH, HEIGHT, 32)).
Proof.
  exists [0; 0; 128; 2; 0; 0; 224; 1; 0; 0; 32; 0; 0; 0].
  destruct (serve_configure patience h base ([0; 0; 128; 2; 0; 0; 224; 1; 0; 0; 32; 0; 0; 0] ++ replicate 50 0) WIDTH HEIGHT 32) as (h' & Hs);
    [done|done|done|split; (discriminate || reflexivity)..|reflexivity|reflexivity|reflexivity|reflexivity|].
  exists h'; eexists; split_and!; [vm_compute; reflexivity|reflexivity|exact Hs|apply fb_reply_ok, (fb_range (WIDTH, HEIGHT, 32))].
Qed.

(** *** Frames *)

Definition green (c : Z) : Z := if (c =? 1) || (c =? 3) then 255 else 0.

(** Byte [i] of a buffer: the row, the column and the byte of its pixel. *)
Definition row_of (i : Z) : Z := i / 4 / WIDTH.
Definition col_of (i : Z) : Z := (i / 4) mod WIDTH.

(** The bar is drawn in the rows before [y], and in row [y] up to [x] columns. *)
Definition drawn (bar_x y x i : Z) : bool :=
  ((row_of i <? y) && (bar_x <=? col_of i) && (col_of i <? bar_x + BAR_WIDTH)) ||
  ((row_of i =? y) && (bar_x <=? col_of i) && (col_of i <? bar_x + x)).
Definition shows (bar_x y x : Z) (l : list Z) : Prop :=
  len l = FB_SIZE /\ forall i, 0 <= i < FB_SIZE -> l !! Z.to_nat i = Some (if drawn bar_x y x i then green (i mod 4) else 0).

Lemma pixel_index y x i : 0 <= y -> 0 <= x < WIDTH -> 0 <= i -> (row_of i = y /\ col_of i = x <-> (y * WIDTH + x) * 4 <= i < (y * WIDTH + x) * 4 + 4).
Proof. unfold row_of, col_of, WIDTH; intros; split; [intros [? ?]|intros ?; split]; Z.to_euclidean_division_equations; lia. Qed.

(** One pixel more. *)
Lemma shows_pixel bar_x y x l : 0 <= bar_x < WIDTH -> 0 <= y < HEIGHT -> 0 <= x < BAR_WIDTH -> bar_x + x < WIDTH -> shows bar_x y x l ->
  let px := (y * WIDTH + bar_x) * 4 + x * 4 in
  exists l', (b1 ← aset l px 0; b2 ← aset b1 (px + 1) 255; b3 ← aset b2 (px + 2) 0; aset b3 (px + 3) 255) = Ok l' /\ shows bar_x y (x + 1) l'.
Proof.
  intros Hb Hy Hx Hbx [Hl Hs] px; assert (Hpx : 0 <= px /\ px + 4 <= FB_SIZE) by (unfold px, FB_SIZE, WIDTH, HEIGHT in *; lia).
  repeat (rewrite aset_lt by (rewrite ?len_insert; lia); cbn [mbind res_bind]); eexists; split; [reflexivity|]; split; [by rewrite !len_insert|].
  intros i Hi; assert (Hidx : forall j, 0 <= j -> Z.to_nat i = Z.to_nat j <-> i = j) by (intros; lia).
  assert (Hpix : row_of i = y /\ col_of i = bar_x + x <-> px <= i < px + 4) by (unfold px; rewrite pixel_index by lia; lia).
  assert (Hd : drawn bar_x y (x + 1) i = drawn bar_x y x i || ((px <=? i) && (i <? px + 4))).
  { unfold drawn; apply eq_true_iff_eq; rewrite !orb_true_iff, !andb_true_iff, !Z.leb_le, !Z.ltb_lt, !Z.eqb_eq; lia. }
  assert (Hlen : (Z.to_nat i < length l)%nat) by (unfold len in Hl; lia).
  rewrite Hd; destruct ((px <=? i) && (i <? px + 4)) eqn:Ein.
  - bsplit; rewrite orb_true_r; assert (Hm : i mod 4 = i - px) by (unfold px in *; Z.to_euclidean_division_equations; lia); rewrite Hm.
    assert (Hc : i = px \/ i = px + 1 \/ i = px + 2 \/ i = px + 3) by lia.
    destruct Hc as [-> | [-> | [-> | ->]]]; repeat (rewrite list_lookup_insert_ne by lia); rewrite list_lookup_insert_eq by (rewrite ?length_insert; lia); f_equal; unfold green;
      [replace (px - px) with 0 by lia|replace (px + 1 - px) with 1 by lia|replace (px + 2 - px) with 2 by lia|replace (px + 3 - px) with 3 by lia]; reflexivity.
  - rewrite orb_false_r; apply andb_false_iff in Ein; rewrite Z.leb_gt, Z.ltb_ge in Ein; repeat (rewrite list_lookup_insert_ne by lia); by apply Hs.
Qed.

(** The inner loop ends at the width of the bar or of the screen. *)
Lemma bar_row_ok fuel bar_x y : 0 <= bar_x < WIDTH -> 0 <= y < HEIGHT -> forall x l, 0 <= x <= BAR_WIDTH -> (Z.to_nat (BAR_WIDTH - x) < fuel)%nat -> shows bar_x y x l ->
  exists l', bar_row fuel bar_x ((y * WIDTH + bar_x) * 4) x l = Ok l' /\ shows bar_x (y + 1) 0 l'.
Proof.
  intros Hb Hy; induction fuel as [|fuel IH]; intros x l Hx Hf Hs; [lia|]; cbn [bar_row].
  destruct ((x <? BAR_WIDTH) && (bar_x + x <? WIDTH)) eqn:E.
  - bsplit; rewrite uadd_ok by (unfold WIDTH, HEIGHT, BAR_WIDTH in *; rewrite W64_val; lia); cbn [mbind res_bind].
    destruct (shows_pixel bar_x y x l Hb Hy ltac:(lia) ltac:(lia) Hs) as (l1 & E1 & Hs1).
    destruct (IH (x + 1) l1) as (l' & El & Hs'); [lia|lia|done|]; exists l'; split; [|done]; rewrite <- El; clear -E1.
    destruct (aset l _ 0) as [b1| |]; cbn [mbind res_bind] in *; [|done..]; destruct (aset b1 _ 255) as [b2| |]; cbn [mbind res_bind] in *; [|done..].
    destruct (aset b2 _ 0) as [b3| |]; cbn [mbind res_bind] in *; [|done..]; by rewrite E1.
  - exists l; split; [done|]; destruct Hs as [Hl Hs]; split; [done|]; intros i Hi; rewrite (Hs i Hi); f_equal.
    assert (Hc : 0 <= col_of i < WIDTH) by (unfold col_of, WIDTH; apply Z.mod_pos_bound; lia).
    assert (Hd : drawn bar_x y x i = drawn bar_x (y + 1) 0 i); [|by rewrite Hd].
    apply andb_false_iff in E; rewrite !Z.ltb_ge in E; unfold drawn; apply eq_true_iff_eq; rewrite !orb_true_iff, !andb_true_iff, !Z.leb_le, !Z.ltb_lt, !Z.eqb_eq; lia.
Qed.

Lemma bar_rows_ok fuel bar_x : 0 <= bar_x < WIDTH -> forall y l, 0 <= y <= HEIGHT -> (Z.to_nat (HEIGHT - y) < fuel)%nat -> shows bar_x y 0 l ->
  exists l', bar_rows fuel bar_x y l = Ok l' /\ shows bar_x HEIGHT 0 l'.
Proof.
  intros Hb; induction fuel as [|fuel IH]; intros y l Hy Hf Hs; [lia|]; cbn [bar_rows]; destruct (Z.ltb_spec y HEIGHT).
  - destruct (bar_row_ok 33 bar_x y Hb ltac:(lia) 0 l) as (l1 & -> & Hs1); [unfold BAR_WIDTH; lia|unfold BAR_WIDTH; lia|done|]; cbn [mbind res_bind]; apply IH; [lia|lia|done].
  - exists l; split; [done|]; by replace HEIGHT with y by lia.
Qed.

(** A frame is drawn exactly: for a buffer of the screen's size and any frame number,
    [write_frame] neither panics nor runs on; afterwards the pixels of the 32
    columns from the bar's position on (cut at the right edge) are green and all
    others are black. *)
Lemma write_frame_exact (back : list Z) (n : Z) (Hlen : len back = FB_SIZE) (Hn : 0 <= n) :
  exists l, write_frame back n = Ok l /\ len l = FB_SIZE /\
    forall y x c, 0 <= y < HEIGHT -> 0 <= x < WIDTH -> 0 <= c < 4 ->
      l !! Z.to_nat ((y * WIDTH + x) * 4 + c) = Some (if (n mod WIDTH <=? x) && (x <? n mod WIDTH + BAR_WIDTH) then green c else 0).
Proof.
  unfold write_frame; assert (Hb : 0 <= n mod WIDTH < WIDTH) by (apply Z.mod_pos_bound; unfold WIDTH; lia).
  destruct (bar_rows_ok 481 (n mod WIDTH) Hb 0 (replicate (length back) 0)) as (l & -> & Hl & Hs).
  - unfold HEIGHT; lia.
  - unfold HEIGHT; lia.
  - split; [unfold len in *; by rewrite length_replicate|]; intros i Hi; rewrite lookup_replicate_2 by (unfold len in Hlen; lia); f_equal.
    unfold drawn; assert (0 <= row_of i) by (unfold row_of, WIDTH; apply Z.div_pos; [apply Z.div_pos|]; lia).
    destruct (Z.ltb_spec (row_of i) 0); [lia|]; cbn [andb orb]; destruct (Z.eqb_spec (row_of i) 0); cbn [andb]; [|done].
    destruct (Z.leb_spec (n mod WIDTH) (col_of i)); cbn [andb]; [|done]; by rewrite (proj2 (Z.ltb_ge _ _)) by lia.
  - exists l; split_and!; [done|done|]; intros y x c Hy Hx Hc; set (i := (y * WIDTH + x) * 4 + c).
    assert (Hi : 0 <= i < FB_SIZE) by (unfold i, FB_SIZE, WIDTH, HEIGHT in *; lia); rewrite (Hs i Hi); f_equal.
    destruct (proj2 (pixel_index y x i ltac:(lia) Hx ltac:(lia))) as [Hr Hcol]; [unfold i; lia|].
    assert (Hm : i mod 4 = c) by (unfold i; rewrite Z.add_comm, Z.mod_add by lia; apply Z.mod_small; lia).
    unfold drawn; rewrite Hr, Hcol, Hm, (proj2 (Z.ltb_lt y HEIGHT)), (proj2 (Z.eqb_neq y HEIGHT)) by lia; cbn [andb orb]; by rewrite orb_false_r.
Qed.

(** A short request ends the mailbox server, whoever sent it. *)
Lemma short_request_exits {H : Type} `{!VideoCore H} (fuel : nat) (base bytes : Z) (buf : list Z) (h : H) :
  from_le (take 2 buf) = OP_CONFIGURE_FB -> bytes < 14 -> serve fuel base bytes buf h = Ok (Exit 1, h).
Proof. intros Hop Hb; unfold serve; rewrite Hop; cbn [Z.eqb OP_CONFIGURE_FB]; by rewrite (proj2 (Z.ltb_lt _ _)) by lia. Qed.

(** The size that the kernel's driver writes into a request is that of a message
    whose body is the bare value: for every request it makes, it is less than
    the header and the tag with its end marker take. *)
Lemma request_size_short : Forall (fun tu => size_of_message tu.1 tu.2 < 8 + size_of_tag (Z.max tu.1 tu.2)) [(12, 8); (0, 8); (0, 4); (0, 6)].
Proof. repeat constructor. Qed.

(** ** A firmware *)
Module MbDemo.

Record Fw := { cells : Z -> Z; config : option (Z * Z * Z); pending : option Z }.

Definition upd (f : Z -> Z) (a v : Z) : Z -> Z := fun x => if x =? a then v else f x.
Definition base_of (c : Z * Z * Z) : Z := 0x3c100000.
Definition size_of (c : Z * Z * Z) : Z := (c.1.1 * c.1.2 * (c.2 / 8)) mod W32.

(** The firmware acts when the request arrives. *)
Definition act (r : Z) (h : Fw) : Fw :=
  let pa := r - 8 in let f := cells h in
  if f (pa + 8) =? FbSetPhysicalWidthHeight then {| cells := f; config := Some (f (pa + 20), f (pa + 24), f (pa + 40)); pending := Some r |}
  else match config h with
       | Some c => {| cells := upd (upd f (pa + 20) (base_of c)) (pa + 24) (size_of c); config := Some c; pending := Some r |}
       | None => {| cells := f; config := None; pending := Some r |}
       end.

#[export] Instance fw_core : VideoCore Fw := {
  reg o h := if o =? MBOX_STATUS then (match pending h with Some _ => 0 | None => MBOX_EMPTY end, h)
             else (default 0 (pending h), {| cells := cells h; config := config h; pending := None |});
  reg_set o v h := act v h;
  word h a := cells h a;
  word_set a v h := {| cells := upd (cells h) a v; config := config h; pending := pending h |};
}.

Lemma polls_same n : forall h : Fw, polls n h = h.
Proof. induction n as [|n IH]; intros h; [done|]; cbn [polls]; apply IH. Qed.

Lemma act_pending r h : pending (act r h) = Some r.
Proof. unfold act; destruct (_ =? _); [done|]; by destruct (config h). Qed.

#[export] Instance fw_laws : VcLaws Fw 1.
Proof.
  refine {| fb := config; fb_base := base_of; fb_size := size_of |}; cbn [word word_set reg reg_set fw_core cells config]; try done.
  - intros c; split; [split; reflexivity|]; unfold size_of; apply Z.mod_pos_bound; reflexivity.
  - intros h a v _; unfold upd; by rewrite Z.eqb_refl.
  - intros h a b v _ _ Hne; unfold upd; by rewrite (proj2 (Z.eqb_neq b a)) by done.
  - intros h; exists 0%nat; split; [lia|]; cbn [polls reg fw_core Z.eqb fst]; by destruct (pending h).
  - intros h r; exists 0%nat; split; [lia|]; cbn [polls reg reg_set fw_core Z.eqb fst]; by rewrite act_pending.
  - intros h pa n _ _; cbv zeta; intros _; rewrite polls_same; change (MBOX_STATUS =? MBOX_STATUS) with true; change (MBOX_READ =? MBOX_STATUS) with false; cbv beta iota; cbn [snd]; cbv beta iota; rewrite act_pending; cbn [default].
    split; [done|]; unfold act; replace (pa + 8 - 8) with pa by lia; split.
    + intros w hh b Hh; pose proof (Hh 2%nat _ eq_refl) as H2; pose proof (Hh 5%nat _ eq_refl) as H5; pose proof (Hh 6%nat _ eq_refl) as H6; pose proof (Hh 10%nat _ eq_refl) as H10.
      cbn [word fw_core] in *; change (4 * Z.of_nat 2) with 8 in H2; change (4 * Z.of_nat 5) with 20 in H5; change (4 * Z.of_nat 6) with 24 in H6; change (4 * Z.of_nat 10) with 40 in H10.
      rewrite H2; change (FbSetPhysicalWidthHeight =? FbSetPhysicalWidthHeight) with true; cbn [config]; by rewrite H5, H6, H10.
    + intros c Hc Hh; pose proof (Hh 2%nat _ eq_refl) as H2; cbn [word fw_core] in H2; change (4 * Z.of_nat 2) with 8 in H2; rewrite H2, Hc.
      change (FbAllocate =? FbSetPhysicalWidthHeight) with false; cbn [cells]; unfold upd; rewrite Z.eqb_refl, (proj2 (Z.eqb_neq (pa + 20) (pa + 24))), Z.eqb_refl by lia; done.
Defined.

Definition idle : Fw := {| cells := fun _ => 7; config := None; pending := None |}.

End MbDemo.

End Mb.
