(* ===== verification/Text.v ===== *)
(** * Rust strings

    What [xtask] uses of [str], [char] and the ordered collections of strings
    of Rust's standard library.  A string is the list of the code points of its
    characters: every offset the program computes lies between characters, and
    the bytes it compares are ASCII, so an offset in characters stands for the
    offset in bytes.  The order of strings by bytes is their order by code
    points. *)

From S2P Require Import Prelude.
From stdpp Require Import pretty.
From Stdlib Require Import Ascii.

#[local] Open Scope Z_scope.

Module Tx.

Abbreviation str := (list Z).

(** ** Characters *)

(** ['c']. *)
Definition chr (c : ascii) : Z := Z.of_N (N_of_ascii c).
Arguments chr c%_char.

(** A string literal (of ASCII characters). *)
Fixpoint lit (t : string) : str :=
  match t with EmptyString => [] | String c t' => chr c :: lit t' end.
Arguments lit t%_string.

Definition LF : Z := 10.
Definition CR : Z := 13.
(** The dashes of the program's messages. *)
Definition EN_DASH : Z := 8211.
Definition EM_DASH : Z := 8212.

Definition is_ascii_digit (c : Z) : bool := (chr "0" <=? c) && (c <=? chr "9").
Definition is_ascii_uppercase (c : Z) : bool := (chr "A" <=? c) && (c <=? chr "Z").
Definition is_ascii_lowercase (c : Z) : bool := (chr "a" <=? c) && (c <=? chr "z").
Definition is_ascii_alphabetic (c : Z) : bool := is_ascii_uppercase c || is_ascii_lowercase c.
Definition is_ascii_hexdigit (c : Z) : bool :=
  is_ascii_digit c || ((chr "A" <=? c) && (c <=? chr "F")) || ((chr "a" <=? c) && (c <=? chr "f")).
(** [u8::is_ascii_whitespace]: no vertical tab. *)
Definition is_ascii_whitespace (c : Z) : bool :=
  (c =? 32) || (c =? 9) || (c =? 10) || (c =? 12) || (c =? 13).
(** [char::is_whitespace]: Unicode's [White_Space]. *)
Definition is_whitespace (c : Z) : bool :=
  ((9 <=? c) && (c <=? 13)) || (c =? 32) || (c =? 133) || (c =? 160) || (c =? 5760)
  || ((8192 <=? c) && (c <=? 8202)) || (c =? 8232) || (c =? 8233) || (c =? 8239) || (c =? 8287) || (c =? 12288).

Definition to_ascii_lowercase (t : str) : str :=
  map (fun c => if is_ascii_uppercase c then c + 32 else c) t.

(** ** Searching and cutting *)

Fixpoint strip_prefix (p t : str) : option str :=
  match p, t with
  | [], _ => Some t
  | _ :: _, [] => None
  | a :: p', c :: t' => if a =? c then strip_prefix p' t' else None
  end.

Definition starts_with (p t : str) : bool := bool_decide (is_Some (strip_prefix p t)).

(** [t.find(p)]. *)
Fixpoint find (p t : str) : option nat :=
  if starts_with p t then Some 0%nat
  else match t with [] => None | _ :: t' => S <$> find p t' end.

(** [t.split_once(p)]. *)
Definition split_once (p t : str) : option (str * str) :=
  match find p t with
  | Some i => Some (take i t, drop (i + length p) t)
  | None => None
  end.

(** [t.split(c)]: at least one piece. *)
Fixpoint split (c : Z) (t : str) : list str :=
  match t with
  | [] => [[]]
  | a :: t' =>
      if a =? c then [] :: split c t'
      else match split c t' with
           | w :: ws => (a :: w) :: ws
           | [] => [[a]]
           end
  end.

(** [t.split(c).next()] and [t.rsplit(c).next()], which always exist. *)
Definition first_part (c : Z) (t : str) : str := hd [] (split c t).
Definition last_part (c : Z) (t : str) : str := List.last (split c t) [].

(** [t.split_inclusive('\n')]. *)
Fixpoint split_inclusive (t : str) : list str :=
  match t with
  | [] => []
  | a :: t' =>
      if a =? LF then [a] :: split_inclusive t'
      else match split_inclusive t' with
           | w :: ws => (a :: w) :: ws
           | [] => [[a]]
           end
  end.

(** [t.trim_end_matches(c)]. *)
Fixpoint trim_end_by (p : Z -> bool) (t : str) : str :=
  match t with
  | [] => []
  | a :: t' => match trim_end_by p t' with
               | [] => if p a then [] else [a]
               | w => a :: w
               end
  end.

Fixpoint trim_start_by (p : Z -> bool) (t : str) : str :=
  match t with
  | [] => []
  | a :: t' => if p a then trim_start_by p t' else t
  end.

Definition trim_start (t : str) : str := trim_start_by is_whitespace t.
Definition trim (t : str) : str := trim_end_by is_whitespace (trim_start t).
Definition trim_matches (p : Z -> bool) (t : str) : str := trim_end_by p (trim_start_by p t).

(** [t.trim_start_matches(p)] for a string [p]: every copy of [p] in front. *)
Fixpoint trim_prefixes (fuel : nat) (p t : str) : str :=
  match fuel with
  | O => t
  | S f => match strip_prefix p t with Some t' => trim_prefixes f p t' | None => t end
  end.
Definition trim_start_matches (p t : str) : str := trim_prefixes (length t) p t.

(** [t.split_whitespace()]. *)
Fixpoint words_from (w : str) (t : str) : list str :=
  let done := match w with [] => [] | _ => [w] end in
  match t with
  | [] => done
  | a :: t' => if is_whitespace a then done ++ words_from [] t' else words_from (w ++ [a]) t'
  end.
Definition split_whitespace (t : str) : list str := words_from [] t.

(** One piece of [t.lines()]: without ["\n"], and then without ["\r"]. *)
Definition line_of (raw : str) : str :=
  match reverse raw with
  | a :: r => if a =? LF then match r with
                              | c :: r' => if c =? CR then reverse r' else reverse r
                              | [] => []
                              end
              else raw
  | [] => []
  end.
Definition lines (t : str) : list str := map line_of (split_inclusive t).

Definition ends_with_char (c : Z) (t : str) : bool :=
  match reverse t with a :: _ => a =? c | [] => false end.

Fixpoint take_while (p : Z -> bool) (t : str) : str :=
  match t with [] => [] | a :: t' => if p a then a :: take_while p t' else [] end.

(** [ls.join(sep)]. *)
Fixpoint join (sep : str) (ls : list str) : str :=
  match ls with
  | [] => []
  | [l] => l
  | l :: ls' => l ++ sep ++ join sep ls'
  end.

(** [&t[n..]]. *)
Definition slice_from (t : str) (n : nat) : res str :=
  if (n <=? length t)%nat then Ok (drop n t) else Panic.
(** [&t[a..b]]. *)
Definition slice (t : str) (a b : nat) : res str :=
  if (a <=? b)%nat && (b <=? length t)%nat then Ok (take (b - a) (drop a t)) else Panic.

(** [format!("{n}")]. *)
Definition show (n : Z) : str := lit (pretty (Z.to_N n)).

(** ** Ordered maps and sets *)

Fixpoint str_lt (a b : str) : bool :=
  match a, b with
  | _, [] => false
  | [], _ :: _ => true
  | x :: a', y :: b' => (x <? y) || ((x =? y) && str_lt a' b')
  end.

(** [BTreeSet<&str>]: increasing, without repetition. *)
Fixpoint place (k : str) (l : list str) : list str :=
  match l with
  | [] => [k]
  | k' :: l' => if str_lt k k' then k :: l else k' :: place k l'
  end.
Definition bset_insert (k : str) (l : list str) : list str :=
  if bool_decide (k ∈ l) then l else place k l.
Definition bset (l : list str) : list str := foldl (fun s k => bset_insert k s) [] l.

(** [BTreeMap<&str, V>]. *)
Section BTreeMap.
Context {V : Type}.
Fixpoint bt_get (k : str) (l : list (str * V)) : option V :=
  match l with
  | [] => None
  | (k', v) :: l' => if bool_decide (k = k') then Some v else bt_get k l'
  end.
Fixpoint bt_place (k : str) (v : V) (l : list (str * V)) : list (str * V) :=
  match l with
  | [] => [(k, v)]
  | (k', v') :: l' => if str_lt k k' then (k, v) :: l else (k', v') :: bt_place k v l'
  end.
Fixpoint bt_replace (k : str) (v : V) (l : list (str * V)) : list (str * V) :=
  match l with
  | [] => []
  | (k', v') :: l' => if bool_decide (k = k') then (k, v) :: l' else (k', v') :: bt_replace k v l'
  end.
(** [m.entry(k).or_default()] updated with [f]. *)
Definition bt_entry (k : str) (d : V) (f : V -> V) (l : list (str * V)) : list (str * V) :=
  match bt_get k l with
  | Some v => bt_replace k (f v) l
  | None => bt_place k (f d) l
  end.
End BTreeMap.

(** ** Lemmas: searching *)

Lemma strip_prefix_spec p t r : strip_prefix p t = Some r <-> t = p ++ r.
Proof.
  revert t. induction p as [|a p IH]; intros [|c t]; cbn; try naive_solver.
  destruct (Z.eqb_spec a c) as [->|N]; [rewrite IH|]; naive_solver.
Qed.

Lemma starts_with_spec p t : starts_with p t = true <-> exists r, t = p ++ r.
Proof.
  unfold starts_with. rewrite bool_decide_eq_true. unfold is_Some. by setoid_rewrite strip_prefix_spec.
Qed.

Lemma starts_with_app p r : starts_with p (p ++ r) = true.
Proof. apply starts_with_spec. eauto. Qed.

(** A pattern that ends before a character it does not have. *)
Lemma starts_with_within d p a r : d ∉ p -> starts_with p (a ++ d :: r) = true -> starts_with p a = true.
Proof.
  intros Hd (r' & E)%starts_with_spec. apply starts_with_spec. revert a E.
  induction p as [|x p IH]; intros [|y a] E; [by eexists | by eexists | |].
  - cbn in E. injection E as -> _. set_solver.
  - cbn in E. injection E as -> E. destruct (IH ltac:(set_solver) a E) as (q & ->). by exists q.
Qed.

Definition absent (p t : str) : Prop := find p t = None.

Lemma find_spec p t i : find p t = Some i ->
  exists a r, t = a ++ p ++ r /\ i = length a /\ forall k, (k < i)%nat -> starts_with p (drop k t) = false.
Proof.
  revert i. induction t as [|c t IH]; intros i; cbn [find].
  - destruct (starts_with p []) eqn:E; [|done]. intros [= <-]. apply starts_with_spec in E as (r & E).
    exists [], r. repeat split; [done|lia].
  - destruct (starts_with p (c :: t)) eqn:E.
    + intros [= <-]. apply starts_with_spec in E as (r & E). exists [], r. repeat split; [done|lia].
    + intros (j & Hj & ->)%fmap_Some. destruct (IH j Hj) as (a & r & -> & -> & Hk).
      exists (c :: a), r. repeat split. intros [|k] Hlt; [done|]. apply Hk. lia.
Qed.

Lemma absent_spec p t : absent p t <-> forall k, (k <= length t)%nat -> starts_with p (drop k t) = false.
Proof.
  unfold absent. induction t as [|c t IH]; cbn [find].
  - destruct (starts_with p []) eqn:E; split; try done.
    + intros H. specialize (H 0%nat ltac:(cbn; lia)). by rewrite drop_0, E in H.
    + intros _ k Hk. cbn in Hk. by replace k with 0%nat by lia.
  - destruct (starts_with p (c :: t)) eqn:E; split; try done.
    + intros H. specialize (H 0%nat ltac:(cbn; lia)). by rewrite drop_0, E in H.
    + intros H. destruct (find p t) eqn:F; [done|]. intros [|k] Hk; [done|]. cbn. apply IH; [done|]. cbn in Hk. lia.
    + intros H. assert (find p t = None) as ->; [|done]. apply IH. intros k Hk. apply (H (S k)). cbn. lia.
Qed.

Lemma absent_infix p a t b : absent p (a ++ t ++ b) -> absent p t.
Proof.
  rewrite !absent_spec. intros H k Hk. destruct (starts_with p (drop k t)) eqn:E; [|done].
  specialize (H (length a + k)%nat ltac:(rewrite !length_app; lia)).
  rewrite <- drop_drop, drop_app_length, drop_app_le in H by lia.
  apply starts_with_spec in E as (r & E). by rewrite E, <- app_assoc, starts_with_app in H.
Qed.

Lemma absent_prefix p t b : absent p (t ++ b) -> absent p t.
Proof. apply (absent_infix p [] t b). Qed.

Lemma absent_suffix p a t : absent p (a ++ t) -> absent p t.
Proof. intros H. apply (absent_infix p a t []). by rewrite app_nil_r. Qed.

(** What is found behind a part without the pattern. *)
Lemma find_skip d p a r : d ∉ tail p -> hd_error p = Some d -> absent p a ->
  find p (a ++ d :: r) = (fun k => length a + k)%nat <$> find p (d :: r).
Proof.
  intros Hd Hp. unfold absent. remember (find p (d :: r)) as o eqn:Ho. induction a as [|x a IH]; intros Ha.
  - cbn [app length]. rewrite <- Ho. by destruct o.
  - cbn [find app] in *. destruct (starts_with p (x :: a)) eqn:E; [done|].
    destruct (starts_with p (x :: a ++ d :: r)) eqn:F.
    + destruct p as [|y q]; [done|]. injection Hp as ->. cbn in Hd.
      apply starts_with_spec in F as (r' & F). injection F as -> F.
      assert (starts_with q a = true) as (w & ->)%starts_with_spec.
      { apply (starts_with_within d _ _ r); [done|]. rewrite F. apply starts_with_app. }
      change (d :: q ++ w) with ((d :: q) ++ w) in E. by rewrite starts_with_app in E.
    + rewrite IH by (by destruct (find p a)). by destruct o.
Qed.

(** A pattern without [d] is on one side of a [d]. *)
Lemma absent_cut d p a b : p <> [] -> d ∉ p -> absent p a -> absent p b -> absent p (a ++ d :: b).
Proof.
  intros Hn Hd. induction a as [|x a IH]; intros Ha Hb; unfold absent; cbn [app find].
  - destruct (starts_with p (d :: b)) eqn:E; [|by rewrite Hb].
    apply (starts_with_within d p [] b Hd) in E. apply starts_with_spec in E as (r & E). by destruct p.
  - unfold absent in Ha. cbn [find] in Ha. destruct (starts_with p (x :: a)) eqn:E; [done|].
    destruct (starts_with p (x :: a ++ d :: b)) eqn:F.
    + apply (starts_with_within d p (x :: a) b Hd) in F. by rewrite E in F.
    + unfold absent in IH. rewrite IH; [done| |done]. by destruct (find p a).
Qed.

(** A pattern that starts with a character the front does not have. *)
Lemma find_behind d p a t : hd_error p = Some d -> d ∉ a ->
  find p (a ++ t) = (fun k => length a + k)%nat <$> find p t.
Proof.
  intros Hp. induction a as [|x a IH]; intros Hd; cbn [app find length].
  - by destruct (find p t).
  - destruct (starts_with p (x :: a ++ t)) eqn:E.
    + destruct p as [|y q]; [done|]. injection Hp as ->. apply starts_with_spec in E as (r & E). injection E as -> _. set_solver.
    + rewrite IH by set_solver. by destruct (find p t).
Qed.

(** The first occurrence of a one-character pattern. *)
Lemma find_char_app c a r : c ∉ a -> find [c] (a ++ c :: r) = Some (length a).
Proof.
  intros H. rewrite (find_behind c) by done. cbn [find]. rewrite (starts_with_app [c] r : starts_with [c] (c :: r) = true). cbn. f_equal. lia.
Qed.

Lemma split_once_at p a r : find p (a ++ p ++ r) = Some (length a) -> split_once p (a ++ p ++ r) = Some (a, r).
Proof.
  intros H. unfold split_once. rewrite H. rewrite take_app_length. f_equal. f_equal.
  by rewrite <- drop_drop, drop_app_length, drop_app_length.
Qed.

Lemma find_cut p t i : p <> [] -> find p t = Some i -> exists a r, t = a ++ p ++ r /\ i = length a /\ absent p a.
Proof.
  intros Hp (a & r & -> & -> & H)%find_spec. exists a, r. repeat split. apply absent_spec. intros k Hk.
  destruct (starts_with p (drop k a)) eqn:E; [|done]. exfalso.
  apply starts_with_spec in E as (q & E). destruct (decide (k = length a)) as [->|].
  - rewrite drop_all in E. by destruct p.
  - specialize (H k ltac:(lia)). rewrite drop_app_le in H by lia. by rewrite E, <- app_assoc, starts_with_app in H.
Qed.

Lemma find_here p r : find p (p ++ r) = Some 0%nat.
Proof. destruct (p ++ r) eqn:E; cbn [find]; by rewrite <- E, starts_with_app. Qed.

(** ** Lemmas: lines *)

Lemma split_inclusive_line a r : LF ∉ a -> split_inclusive (a ++ LF :: r) = (a ++ [LF]) :: split_inclusive r.
Proof.
  induction a as [|x a IH]; intros H; cbn [app split_inclusive]; [done|].
  destruct (Z.eqb_spec x LF) as [->|N]; [set_solver|]. by rewrite IH by set_solver.
Qed.

Lemma split_inclusive_last a : LF ∉ a -> a <> [] -> split_inclusive a = [a].
Proof.
  induction a as [|x a IH]; intros H Hn; [done|]. cbn [split_inclusive].
  destruct (Z.eqb_spec x LF) as [->|N]; [set_solver|]. destruct a as [|y a]; [done|]. by rewrite IH by set_solver.
Qed.

Lemma concat_split_inclusive t : concat (split_inclusive t) = t.
Proof.
  induction t as [|a t IH]; [done|]. cbn [split_inclusive].
  destruct (Z.eqb_spec a LF) as [->|N]; [by cbn; rewrite IH|].
  destruct (split_inclusive t) as [|w ws]; cbn in IH |- *; [by rewrite <- IH | by rewrite <- IH].
Qed.

Lemma line_of_LF a : CR ∉ a -> line_of (a ++ [LF]) = a.
Proof.
  intros H. unfold line_of. rewrite reverse_app. change (reverse [LF]) with [LF]. cbn [app]. rewrite Z.eqb_refl. destruct (reverse a) as [|c r] eqn:E.
  - by rewrite <- (reverse_involutive a), E.
  - destruct (Z.eqb_spec c CR) as [->|N].
    + exfalso. apply H. rewrite <- (reverse_involutive a), E, reverse_cons. set_solver.
    + by rewrite <- E, reverse_involutive.
Qed.

Lemma line_of_no_LF a : LF ∉ a -> line_of a = a.
Proof.
  intros H. unfold line_of. destruct (reverse a) as [|c r] eqn:E.
  - by rewrite <- (reverse_involutive a), E.
  - destruct (Z.eqb_spec c LF) as [->|N]; [|done].
    exfalso. apply H. rewrite <- (reverse_involutive a), E, reverse_cons. set_solver.
Qed.

(** A text is empty, a last line, or a line and a rest. *)
Lemma text_lines_ind (P : str -> Prop) :
  P [] -> (forall a, LF ∉ a -> a <> [] -> P a) -> (forall a r, LF ∉ a -> P r -> P (a ++ LF :: r)) -> forall t, P t.
Proof.
  intros H0 H1 H2 t. remember (length t) as n eqn:E. revert t E.
  induction (lt_wf n) as [n _ IH]. intros t ->.
  destruct (decide (LF ∈ t)) as [I|I].
  - apply list_elem_of_split in I as (a & r & ->).
    assert (exists a' r', a ++ LF :: r = a' ++ LF :: r' /\ LF ∉ a') as (a' & r' & E & Ha).
    { clear. induction a as [|x a IH]; [by exists [], r; split; [|set_solver]|].
      destruct (Z.eqb_spec x LF) as [->|N]; [by exists [], (a ++ LF :: r); split; [|set_solver]|].
      destruct IH as (a' & r' & E & Ha). exists (x :: a'), r'. split; [by cbn; rewrite E | set_solver]. }
    rewrite E in *. apply H2; [done|]. apply (IH (length r')); [|done]. rewrite length_app. cbn. lia.
  - destruct (decide (t = [])) as [->|]; auto.
Qed.

Lemma lines_line a r : LF ∉ a -> CR ∉ a -> lines (a ++ LF :: r) = a :: lines r.
Proof. intros H Hc. unfold lines. rewrite split_inclusive_line by done. cbn [map]. by rewrite line_of_LF. Qed.

Lemma lines_last a : LF ∉ a -> a <> [] -> lines a = [a].
Proof. intros H Hn. unfold lines. rewrite split_inclusive_last by done. cbn. by rewrite line_of_no_LF. Qed.

Lemma line_of_sub a : exists b, a = line_of a ++ b.
Proof.
  unfold line_of. destruct (reverse a) as [|c r] eqn:E.
  { exists []. by rewrite <- (reverse_involutive a), E. }
  assert (Ha : a = reverse r ++ [c]) by (by rewrite <- (reverse_involutive a), E, reverse_cons).
  destruct (c =? LF); [|exists []; by rewrite app_nil_r].
  destruct r as [|d r']; [by exists [c]|]. destruct (d =? CR); [|by exists [c]].
  exists [d; c]. rewrite Ha, reverse_cons. by rewrite <- app_assoc.
Qed.

(** Every line is a part of the text, without line feeds. *)
Lemma lines_sub t l : l ∈ lines t -> LF ∉ l /\ exists a b, t = a ++ l ++ b.
Proof.
  revert t. refine (text_lines_ind _ _ _ _); [set_solver | |].
  - intros a H Hn. rewrite lines_last by done. intros ->%list_elem_of_singleton. split; [done|]. exists [], []. by rewrite app_nil_r.
  - intros a r H IH. unfold lines. rewrite split_inclusive_line by done. cbn [map]. intros [->|Hl]%elem_of_cons.
    + destruct (line_of_sub (a ++ [LF])) as (b & Hb). split.
      * unfold line_of. rewrite reverse_app. change (reverse [LF]) with [LF]. cbn [app]. rewrite Z.eqb_refl. assert (Hr : LF ∉ reverse a) by (by rewrite elem_of_reverse).
        destruct (reverse a) as [|c q] eqn:Eq; [set_solver|]. destruct (c =? CR); rewrite elem_of_reverse; set_solver.
      * exists [], (b ++ r). rewrite !app_assoc. cbn [app]. rewrite <- Hb, <- app_assoc. done.
    + destruct (IH Hl) as (Hf & a' & b' & ->). split; [done|]. exists (a ++ LF :: a'), b'. by rewrite <- app_assoc.
Qed.

(** What [lines] and [join] lose: the final line feed. *)
Definition unlines (nl : bool) (ls : list str) : str := join [LF] ls ++ if nl then [LF] else [].

Lemma ends_with_char_app c a : ends_with_char c (a ++ [c]) = true.
Proof. unfold ends_with_char. rewrite reverse_app. change (reverse [c]) with [c]. cbn [app]. apply Z.eqb_refl. Qed.

Lemma ends_with_char_spec c t : ends_with_char c t = true <-> exists a, t = a ++ [c].
Proof.
  split; [|by intros (a & ->); apply ends_with_char_app].
  unfold ends_with_char. destruct (reverse t) as [|x r] eqn:E; [done|]. intros ->%Z.eqb_eq.
  exists (reverse r). by rewrite <- (reverse_involutive t), E, reverse_cons.
Qed.

Lemma unlines_cons nl l ls : unlines nl (l :: ls) = l ++ (if decide (ls = []) then [] else [LF]) ++ unlines nl ls.
Proof.
  unfold unlines. destruct ls as [|l' ls]; cbn [join]; [done|].
  destruct (decide (l' :: ls = [])); [done|]. by rewrite !app_assoc.
Qed.

Lemma unlines_lines t : CR ∉ t -> unlines (ends_with_char LF t) (lines t) = t.
Proof.
  revert t. refine (text_lines_ind _ _ _ _); [done | |].
  - intros a H Hn _. rewrite lines_last by done. unfold unlines. cbn [join].
    destruct (ends_with_char LF a) eqn:E; [|by rewrite app_nil_r].
    apply ends_with_char_spec in E as (b & ->). set_solver.
  - intros a r H IH Hc. rewrite lines_line by set_solver. specialize (IH ltac:(set_solver)).
    destruct (decide (r = [])) as [->|Hr].
    + rewrite ends_with_char_app. done.
    + assert (ends_with_char LF (a ++ LF :: r) = ends_with_char LF r) as ->.
      { unfold ends_with_char. rewrite reverse_app, reverse_cons. destruct (reverse r) as [|x q] eqn:E; [|done].
        by rewrite <- (reverse_involutive r), E in Hr. }
      rewrite unlines_cons, IH. destruct (decide (lines r = [])) as [E|]; [|done].
      rewrite E in IH. destruct (ends_with_char LF r) eqn:F; cbn in IH; [|done].
      subst r. done.
Qed.

(** Joined lines, read again: the same lines, but for empty ones at the end. *)
Lemma lines_unlines nl ls : Forall (fun l => LF ∉ l /\ CR ∉ l) ls ->
  exists i j, lines (unlines nl ls) ++ replicate i [] = ls ++ replicate j [].
Proof.
  induction ls as [|l ls IH]; intros H.
  - destruct nl; [exists 0%nat, 1%nat | exists 0%nat, 0%nat]; done.
  - apply Forall_cons in H as [[Hl Hr] H]. rewrite unlines_cons.
    destruct (decide (ls = [])) as [->|N]; cbn [app].
    + unfold unlines. cbn [join app]. destruct nl.
      * exists 0%nat, 0%nat. rewrite lines_line by done. done.
      * rewrite app_nil_r. destruct (decide (l = [])) as [->|]; [by exists 1%nat, 0%nat|].
        exists 0%nat, 0%nat. by rewrite lines_last.
    + destruct (IH H) as (i & j & E). exists i, j. rewrite lines_line by done. cbn. by rewrite E.
Qed.

(** A pattern of one line is absent from joined lines without it. *)
Lemma absent_unlines p nl ls : p <> [] -> LF ∉ p -> Forall (absent p) ls -> absent p (unlines nl ls).
Proof.
  intros Hn Hp. assert (H0 : absent p []).
  { unfold absent. cbn. destruct (starts_with p []) eqn:E; [|done]. apply starts_with_spec in E as (r & E). by destruct p. }
  induction ls as [|l ls IH]; intros H.
  - unfold unlines. destruct nl; cbn [join app]; [|done]. by apply (absent_cut LF p [] []).
  - apply Forall_cons in H as [Hl H]. rewrite unlines_cons. destruct (decide (ls = [])) as [->|].
    + unfold unlines. cbn. destruct nl; [by apply absent_cut | by rewrite app_nil_r].
    + cbn [app]. apply absent_cut; auto.
Qed.

(** ** Lemmas: parts of paths *)

Lemma split_no_sep c t : Forall (fun w => c ∉ w) (split c t).
Proof.
  induction t as [|a t IH]; cbn; [repeat constructor; set_solver|].
  destruct (Z.eqb_spec a c) as [->|N]; [constructor; [set_solver|done]|].
  destruct (split c t) as [|w ws]; repeat constructor; inversion IH; set_solver.
Qed.

Lemma split_whole c t : c ∉ t -> split c t = [t].
Proof.
  induction t as [|a t IH]; intros H; cbn; [done|].
  destruct (Z.eqb_spec a c) as [->|N]; [set_solver|]. by rewrite IH by set_solver.
Qed.

Lemma split_not_nil c t : split c t <> [].
Proof. destruct t as [|a t]; cbn; [done|]. destruct (a =? c); [done|]. by destruct (split c t). Qed.

Lemma split_cons c a t : c ∉ a -> split c (a ++ c :: t) = a :: split c t.
Proof.
  induction a as [|x a IH]; intros H; cbn.
  - by rewrite Z.eqb_refl.
  - destruct (Z.eqb_spec x c) as [->|N]; [set_solver|]. by rewrite IH by set_solver.
Qed.

Lemma last_part_no_sep c t : c ∉ last_part c t.
Proof.
  unfold last_part. pose proof (split_no_sep c t) as H. pose proof (split_not_nil c t) as Hn.
  destruct (exists_last Hn) as (l & w & E). rewrite E, List.last_last. rewrite E in H. apply Forall_app in H as [_ H]. by inversion H.
Qed.

Lemma last_part_whole c t : c ∉ t -> last_part c t = t.
Proof. intros H. unfold last_part. by rewrite split_whole. Qed.

Lemma first_part_at c a r : c ∉ a -> first_part c (a ++ c :: r) = a.
Proof. intros H. unfold first_part. by rewrite split_cons. Qed.

Lemma split_sub c t w : w ∈ split c t -> exists a b, t = a ++ w ++ b.
Proof.
  revert w. induction t as [|x t IH]; intros w; cbn.
  - intros ->%list_elem_of_singleton. by exists [], [].
  - destruct (x =? c).
    + intros [->|H]%elem_of_cons; [by exists [], (x :: t)|]. destruct (IH w H) as (a & b & ->). by exists (x :: a), b.
    + pose proof (split_not_nil c t). destruct (split c t) as [|w' ws] eqn:E; [done|].
      intros [->|H']%elem_of_cons.
      * assert (exists b, t = w' ++ b) as (b & ->); [|by exists [], b].
        clear -E. revert w' ws E. induction t as [|y t IH]; intros w' ws; cbn; [intros [= <- _]; by exists []|].
        destruct (y =? c); [intros [= <- _]; by exists (y :: t)|]. destruct (split c t) as [|v vs]; [intros [= <- _]; by exists t|].
        intros [= <- _]. destruct (IH v vs eq_refl) as (b & ->). by exists b.
      * destruct (IH w) as (a & b & ->); [set_solver|]. by exists (x :: a), b.
Qed.

Lemma trim_start_by_sub p t : exists a, t = a ++ trim_start_by p t.
Proof.
  induction t as [|c t (a & IH)]; cbn; [by exists []|]. destruct (p c); [|by exists []].
  exists (c :: a). cbn. by rewrite <- IH.
Qed.

Lemma trim_end_by_sub p t : exists b, t = trim_end_by p t ++ b.
Proof.
  induction t as [|c t (b & IH)]; cbn; [by exists []|].
  destruct (trim_end_by p t) as [|d w]; [destruct (p c); [by exists (c :: t) | by exists t]|].
  exists b. cbn. by rewrite IH at 1.
Qed.

Lemma trim_sub t : exists a b, t = a ++ trim t ++ b.
Proof.
  unfold trim, trim_start. destruct (trim_start_by_sub is_whitespace t) as (a & Ha).
  destruct (trim_end_by_sub is_whitespace (trim_start_by is_whitespace t)) as (b & Hb).
  exists a, b. by rewrite <- Hb, <- Ha.
Qed.

Lemma trim_prefixes_sub n p t : exists a, t = a ++ trim_prefixes n p t.
Proof.
  revert t. induction n as [|n IH]; intros t; cbn; [by exists []|].
  destruct (strip_prefix p t) as [t'|] eqn:E; [|by exists []].
  apply strip_prefix_spec in E as ->. destruct (IH t') as (a & Ha). exists (p ++ a). by rewrite <- app_assoc, <- Ha.
Qed.

(** ** Lemmas: lists that come out empty *)

Lemma omap_none {A B} (f : A -> option B) l : omap f l = [] <-> forall x, x ∈ l -> f x = None.
Proof.
  induction l as [|x l IH]; cbn [omap list_omap]; [split; [set_solver|done]|]. destruct (f x) eqn:E.
  - split; [done|]. intros H. specialize (H x). rewrite E in H. discriminate H. set_solver.
  - rewrite IH. split; [|set_solver]. intros H y [->|Hy]%elem_of_cons; auto.
Qed.

Lemma filter_none {A} (P : A -> Prop) `{forall x, Decision (P x)} l : (forall x, x ∈ l -> ~ P x) -> filter P l = [].
Proof.
  induction l as [|x l IH]; intros Hl; [done|]. rewrite filter_cons_False by (apply Hl; set_solver). apply IH. set_solver.
Qed.

(** ** Lemmas: ordered maps and sets *)

Lemma elem_of_place x k l : x ∈ place k l <-> x = k \/ x ∈ l.
Proof. induction l as [|k' l IH]; cbn; [set_solver|]. destruct (str_lt k k'); set_solver. Qed.

Lemma NoDup_place k l : k ∉ l -> NoDup l -> NoDup (place k l).
Proof.
  induction l as [|k' l IH]; intros Hk H; cbn; [by apply NoDup_singleton|].
  apply NoDup_cons in H as [H1 H2]. destruct (str_lt k k'); [by repeat (apply NoDup_cons; split)|].
  apply NoDup_cons. split; [|apply IH; set_solver]. rewrite elem_of_place. set_solver.
Qed.

Lemma elem_of_bset_insert x k l : x ∈ bset_insert k l <-> x = k \/ x ∈ l.
Proof. unfold bset_insert. case_bool_decide; [set_solver|]. apply elem_of_place. Qed.

Lemma NoDup_bset_insert k l : NoDup l -> NoDup (bset_insert k l).
Proof. unfold bset_insert. case_bool_decide; [done|]. by apply NoDup_place. Qed.

Lemma bset_fold_spec l s : NoDup s ->
  NoDup (foldl (fun s k => bset_insert k s) s l) /\
  forall x, x ∈ foldl (fun s k => bset_insert k s) s l <-> x ∈ s \/ x ∈ l.
Proof.
  revert s. induction l as [|k l IH]; intros s H; cbn [foldl]; [set_solver|].
  destruct (IH _ (NoDup_bset_insert k s H)) as [N E]. split; [done|]. intros x. rewrite E, elem_of_bset_insert. set_solver.
Qed.

Lemma elem_of_bset x l : x ∈ bset l <-> x ∈ l.
Proof. unfold bset. rewrite (proj2 (bset_fold_spec l [] (NoDup_nil_2))). set_solver. Qed.

Lemma NoDup_bset l : NoDup (bset l).
Proof. apply bset_fold_spec, NoDup_nil_2. Qed.

Section BTreeLemmas.
Context {V : Type}.
Implicit Types (l : list (str * V)).

Lemma bt_get_place k k' v l : bt_get k' l = None -> bt_get k (bt_place k' v l) = if bool_decide (k = k') then Some v else bt_get k l.
Proof.
  induction l as [|[k2 v2] l IH]; cbn; [by case_bool_decide|]. destruct (bool_decide (k' = k2)) eqn:E; [done|].
  apply bool_decide_eq_false in E. intros Hn. destruct (str_lt k' k2); cbn; [done|]. rewrite IH by done. repeat case_bool_decide; congruence.
Qed.

Lemma bt_get_replace k k' v l : is_Some (bt_get k' l) -> bt_get k (bt_replace k' v l) = if bool_decide (k = k') then Some v else bt_get k l.
Proof.
  induction l as [|[k2 v2] l IH]; cbn; [by intros []|]. destruct (bool_decide (k' = k2)) eqn:E; intros Hn; cbn.
  - apply bool_decide_eq_true in E as ->. by case_bool_decide.
  - apply bool_decide_eq_false in E. rewrite IH by done. repeat case_bool_decide; congruence.
Qed.

Lemma bt_get_entry k k' d f l :
  bt_get k (bt_entry k' d f l) = if bool_decide (k = k') then Some (f (default d (bt_get k' l))) else bt_get k l.
Proof. unfold bt_entry. destruct (bt_get k' l) eqn:E; [by apply bt_get_replace; rewrite E | by apply bt_get_place]. Qed.

Lemma bt_get_None k l : bt_get k l = None <-> k ∉ fst <$> l.
Proof.
  induction l as [|[k2 v2] l IH]; cbn; [split; [set_solver|done]|]. rewrite not_elem_of_cons. case_bool_decide; [naive_solver|]. rewrite IH. naive_solver.
Qed.

Lemma elem_of_bt_place k v l x : x ∈ bt_place k v l <-> x = (k, v) \/ x ∈ l.
Proof. induction l as [|[k2 v2] l IH]; cbn; [set_solver|]. destruct (str_lt k k2); set_solver. Qed.

(** Every key once. *)
Lemma bt_entry_NoDup k d f l : NoDup (fst <$> l) -> NoDup (fst <$> bt_entry k d f l).
Proof.
  intros H. unfold bt_entry. destruct (bt_get k l) as [v|] eqn:E.
  - assert (fst <$> bt_replace k (f v) l = fst <$> l) as ->; [|done]. clear. induction l as [|[k2 v2] l IH]; cbn; [done|].
    case_bool_decide; cbn; congruence.
  - apply bt_get_None in E. revert E H. induction l as [|[k2 v2] l IH]; cbn; intros E H; [by apply NoDup_singleton|].
    destruct (str_lt k k2); cbn; [by apply NoDup_cons|]. apply NoDup_cons in H as [H1 H2]. apply NoDup_cons. split; [|apply IH; set_solver].
    rewrite list_elem_of_fmap. intros (x & Hx & [->|Hin]%elem_of_bt_place); cbn in Hx; [set_solver|]. apply H1. rewrite Hx. by apply list_elem_of_fmap_2.
Qed.

Lemma bt_get_elem k v l : NoDup (fst <$> l) -> (k, v) ∈ l <-> bt_get k l = Some v.
Proof.
  induction l as [|[k2 v2] l IH]; cbn; [split; [set_solver|done]|]. intros [H1 H2]%NoDup_cons. rewrite elem_of_cons. case_bool_decide as E.
  - subst. split; [|intros [= ->]; by left]. intros [[= ->]|Hin]; [done|]. exfalso. apply H1. apply list_elem_of_fmap. by exists (k2, v).
  - rewrite <- IH by done. split; [intros [[= -> ->]|]; done | by right].
Qed.
End BTreeLemmas.

(** Grouping by a key: the values of the elements with that key, in order. *)
Section Group.
Context {A V : Type} (key : A -> str) (d : V) (upd : A -> V -> V).
Definition group (l : list (str * V)) (xs : list A) : list (str * V) := foldl (fun m x => bt_entry (key x) d (upd x) m) l xs.

Lemma group_NoDup l xs : NoDup (fst <$> l) -> NoDup (fst <$> group l xs).
Proof. revert l. induction xs as [|x xs IH]; intros l H; [done|]. apply IH. by apply bt_entry_NoDup. Qed.

Lemma group_get k xs l :
  bt_get k (group l xs) = match filter (fun x => key x = k) xs with
                          | [] => bt_get k l
                          | ys => Some (foldl (fun v x => upd x v) (default d (bt_get k l)) ys)
                          end.
Proof.
  revert l. induction xs as [|x xs IH]; intros l; [done|]. change (group l (x :: xs)) with (group (bt_entry (key x) d (upd x) l) xs).
  rewrite IH, bt_get_entry. destruct (decide (key x = k)) as [<-|N].
  - rewrite filter_cons_True by done. rewrite bool_decide_eq_true_2 by done. by destruct (filter _ xs).
  - rewrite filter_cons_False by done. by rewrite bool_decide_eq_false_2 by done.
Qed.
End Group.

(** At most one element per key. *)
Lemma NoDup_group {A} (key : A -> str) xs : NoDup (key <$> xs) <-> forall k, (length (filter (fun x => key x = k) xs) <= 1)%nat.
Proof.
  induction xs as [|x xs IH]; cbn [fmap list_fmap]; [split; [intros; cbn; lia | intros; apply NoDup_nil_2]|]. rewrite NoDup_cons, IH. split.
  - intros [H1 H2] k. destruct (decide (key x = k)) as [<-|N]; [|by rewrite filter_cons_False].
    rewrite filter_cons_True by done. rewrite filter_none; [done|]. intros y Hy E. apply H1. rewrite <- E. by apply list_elem_of_fmap_2.
  - intros H. split.
    + intros (y & E & Hy)%list_elem_of_fmap. specialize (H (key x)). rewrite filter_cons_True in H by done. cbn in H.
      assert (y ∈ filter (fun z => key z = key x) xs) as Hin by (by apply list_elem_of_filter).
      destruct (filter _ xs); [set_solver | cbn in H; lia].
    + intros k. specialize (H k). destruct (decide (key x = k)); [rewrite filter_cons_True in H by done; cbn in H; lia | by rewrite filter_cons_False in H].
Qed.

End Tx.
