(* ===== verification/Tasks.v ===== *)
(** * The task index ([xtask/src/tasks.rs])

    [xtask tasks] checks a directory of task files and reconciles the list in
    [todo.md] with it: front matter, references in prose, the generated region,
    the findings of [--check], and [--fix]. *)

From S2P Require Import Prelude Text.
From Stdlib Require Import Ascii.

Module Tk.
Import Tx.

(** ** Data *)

Definition ALLOWED_KEYS : list str :=
  [lit "id"; lit "status"; lit "wave"; lit "depends-on"; lit "commit"; lit "issue"].
Definition INDEX_FILES : list str := [lit "README.md"; lit "todo.md"; lit "done.md"].
Definition BEGIN_MARKER : str := lit "<!-- xtask:tasks begin -->".
Definition END_MARKER : str := lit "<!-- xtask:tasks end -->".

Inductive Finding :=
  | Malformed (file detail : str)
  | StatusMismatch (file front prose : str)
  | H1Mismatch (file h1 : str) (id : option str)
  | Misplaced (file detail : str)
  | UnresolvedRef (file : str) (line : Z) (id : str)
  | DuplicateId (id : str) (files : list str)
  | MissingCommit (file candidate : str)
  | IndexDrift (detail : str).

Definition Finding_render (f : Finding) : str :=
  match f with
  | Malformed file detail => lit "malformed      " ++ file ++ lit ": " ++ detail
  | StatusMismatch file front prose =>
      lit "status/prose   " ++ file ++ lit ": front matter says `" ++ front ++ lit "`, prose says `" ++ prose ++ lit "`"
  | H1Mismatch file h1 id =>
      let id_part := match id with
                     | Some i => lit "front matter says `id: " ++ i ++ lit "`"
                     | None => lit "there is no `id:`"
                     end in
      lit "h1/id          " ++ file ++ lit ": H1 claims `Task " ++ h1 ++ lit ":`, but " ++ id_part
  | Misplaced file detail => lit "misplaced      " ++ file ++ lit ": " ++ detail
  | UnresolvedRef file line id =>
      let loc := if line =? 0 then file ++ lit " (front matter)" else file ++ lit ":" ++ show line in
      lit "unresolved-ref " ++ loc ++ lit ": 'task " ++ id ++ lit "' names no known task (id or list number)"
  | DuplicateId id files => lit "duplicate-id   " ++ id ++ lit ": claimed by " ++ join (lit ", ") files
  | MissingCommit file candidate =>
      lit "missing-commit " ++ file ++ lit ": no `commit:` field, recoverable from its Status line (" ++ candidate ++ lit ")"
  | IndexDrift detail => lit "index-drift    " ++ detail
  end.

Record TaskFile := mk_TaskFile {
  rel : str;
  in_done_dir : bool;
  id : option str;
  status : str;
  depends_on : list str;
  commit : option str;
  malformed : list str;
  header_lines : Z;
  prose_status : option str;
  status_line : option str;
  body : str
}.

Record Tree := mk_Tree {
  tasks : list TaskFile;
  id_claims : list (str * list str);
  known_ids : list str;
  listed : list (str * str * Z);
  todo_marked : bool
}.

(** ** Values *)

Definition is_task_id (t : str) : bool :=
  match t with
  | [] => false
  | c :: _ =>
      if negb (is_ascii_digit c) then false
      else
        let digits := if (1 <? len t) && is_ascii_lowercase (List.last t 0) then removelast t else t in
        forallb is_ascii_digit digits
  end.

Definition is_commit_hash (t : str) : bool :=
  (7 <=? len t) && (len t <=? 40) && forallb is_ascii_hexdigit t.

Definition is_decimal (t : str) : bool :=
  negb (bool_decide (t = [])) && forallb is_ascii_digit t.

(** ** Front matter *)

Record FrontMatter := mk_FrontMatter {
  fm_id : option str;
  fm_status : option str;
  fm_depends_on : list str;
  fm_commit : option str;
  fm_body : str;
  fm_header_lines : Z;
  fm_errors : list str
}.

(** Rust's [{:?}] of a string, whose tables of printable characters are
    generated. *)
Class StrDebug := debug_str : str -> str.

(** The walk over the raw lines: the lines of the block and the offset behind
    the closing fence. *)
Fixpoint scan_block (first : bool) (raws : list str) (line_start : nat) (block : list str) : option (list str * nat) :=
  match raws with
  | [] => None
  | raw :: raws' =>
      let line := trim_end_by (Z.eqb LF) raw in
      if bool_decide (trim line = lit "---") then
        if first then scan_block false raws' (line_start + length raw) block
        else Some (block, (line_start + length raw)%nat)
      else scan_block false raws' (line_start + length raw) (if first then block else block ++ [line])
  end.

(** The locals of the loop over the block's lines. *)
Record FmState := mk_FmState {
  s_errors : list str;
  s_seen : list str;
  s_id : option str;
  s_status : option str;
  s_depends_on : list str;
  s_commit : option str
}.

Definition add_error (e : str) (s : FmState) : FmState :=
  mk_FmState (s_errors s ++ [e]) (s_seen s) (s_id s) (s_status s) (s_depends_on s) (s_commit s).

Definition add_depends (s : FmState) (item0 : str) : FmState :=
  let item := trim item0 in
  let s := if is_task_id item then s
           else add_error (lit "`depends-on` item `" ++ item ++ lit "` is not a task id") s in
  mk_FmState (s_errors s) (s_seen s) (s_id s) (s_status s) (s_depends_on s ++ [item]) (s_commit s).

(** The [match key] of the loop. *)
Definition set_key (key value : str) (s : FmState) : FmState :=
  if bool_decide (key = lit "id") then
    let s := if is_task_id value then s
             else add_error (lit "`id: " ++ value ++ lit "` is not a task id (digits, optionally one letter)") s in
    mk_FmState (s_errors s) (s_seen s) (Some value) (s_status s) (s_depends_on s) (s_commit s)
  else if bool_decide (key = lit "status") then
    let s := if bool_decide (value ∈ [lit "open"; lit "parked"; lit "done"]) then s
             else add_error (lit "`status: " ++ value ++ lit "` is not open, parked or done") s in
    mk_FmState (s_errors s) (s_seen s) (s_id s) (Some value) (s_depends_on s) (s_commit s)
  else if bool_decide (key ∈ [lit "wave"; lit "issue"]) && negb (is_decimal value) then
    add_error (lit "`" ++ key ++ lit ": " ++ value ++ lit "` is not a number") s
  else if bool_decide (key = lit "depends-on") then
    foldl add_depends s (split (chr ",") value)
  else if bool_decide (key = lit "commit") then
    let s := if is_commit_hash value then s
             else add_error (lit "`commit: " ++ value ++ lit "` is not a 7" ++ [EN_DASH] ++ lit "40 character hex hash") s in
    mk_FmState (s_errors s) (s_seen s) (s_id s) (s_status s) (s_depends_on s) (Some value)
  else s.

Definition fm_line `{StrDebug} (s : FmState) (line : str) : FmState :=
  match split_once (lit ":") line with
  | None => add_error (lit "front matter line has no `key: value` separator: " ++ debug_str line) s
  | Some (k, v) =>
      let key := trim k in let value := trim v in
      let s := if bool_decide (key ∈ s_seen s)
               then add_error (lit "duplicate front matter key `" ++ key ++ lit "`") s
               else mk_FmState (s_errors s) (bset_insert key (s_seen s)) (s_id s) (s_status s) (s_depends_on s) (s_commit s) in
      if bool_decide (key ∈ ALLOWED_KEYS) then set_key key value s
      else add_error (lit "unknown front matter key `" ++ key ++ lit "`") s
  end.

Definition as_u32 (n : Z) : Z := n mod W32.

Definition parse_front_matter `{StrDebug} (text : str) : option FrontMatter :=
  match scan_block true (split_inclusive text) 0 [] with
  | None => None
  | Some (block, close_end) =>
      let s := foldl fm_line (mk_FmState [] [] None None [] None) block in
      let s := if s_status s is None then add_error (lit "front matter has no `status:`") s else s in
      Some (mk_FrontMatter (s_id s) (s_status s) (s_depends_on s) (s_commit s)
              (drop close_end text) (as_u32 (len block)) (s_errors s))
  end.

Definition malformed_only (rel : str) (in_done_dir : bool) (detail : str) : TaskFile :=
  mk_TaskFile rel in_done_dir None [] [] None [detail] 0 None None [].

(** The first line of the body that starts with [## Status:]. *)
Fixpoint find_status (ls : list str) : option str * option str :=
  match ls with
  | [] => (None, None)
  | line :: ls' =>
      match strip_prefix (lit "## Status:") line with
      | Some rest => (Some (hd [] (split_whitespace rest)), Some line)
      | None => find_status ls'
      end
  end.

Definition into_task_file (fm : FrontMatter) (rel : str) (in_done_dir : bool) : TaskFile :=
  let ok := bool_decide (fm_errors fm = []) in
  let '(prose, line) := find_status (lines (fm_body fm)) in
  mk_TaskFile rel in_done_dir
    (if ok then fm_id fm else None)
    (if ok then default [] (fm_status fm) else [])
    (if ok then fm_depends_on fm else [])
    (if ok then fm_commit fm else None)
    (fm_errors fm) (fm_header_lines fm) prose line (fm_body fm).

(** ** References in prose *)

(** The loop over [task N]. *)
Fixpoint task_refs (fuel : nat) (line_no : Z) (line lower : str) (pos : nat) (out : list (Z * str)) : res (list (Z * str)) :=
  match fuel with
  | O => Timeout
  | S f =>
      rest ← slice_from lower pos;
      match find (lit "task") rest with
      | None => Ok out
      | Some r =>
          let start := (pos + r)%nat in
          prev ← (if (0 <? start)%nat then c ← unwrap (line !! (start - 1)%nat); Ok (is_ascii_alphabetic c) else Ok false);
          if (prev : bool) then task_refs f line_no line lower (start + 1) out
          else
            word ← slice_from lower start;
            let after := (start + 4 + if starts_with (lit "tasks") word then 1 else 0)%nat in
            match line !! after with
            | None => Ok out
            | Some sep =>
                if (sep =? chr " ") || (sep =? chr "-") then
                  let num_start := (after + 1)%nat in
                  tail ← slice_from line num_start;
                  let digits := length (take_while is_ascii_digit tail) in
                  let num_end := (num_start + digits)%nat in
                  let id_end := match line !! num_end with
                                | Some c => if is_ascii_alphabetic c then (num_end + 1)%nat else num_end
                                | None => num_end
                                end in
                  out' ← (if (0 <? digits)%nat then
                            id ← slice line num_start id_end;
                            rest ← slice_from line id_end;
                            let ordinal :=
                              match strip_prefix (lit "of ") (to_ascii_lowercase (trim_start rest)) with
                              | Some (c :: _) => is_ascii_digit c
                              | _ => false
                              end in
                            Ok (if ordinal then out else out ++ [(line_no, id)])
                          else Ok out);
                  task_refs f line_no line lower (id_end `max` (start + 1)) out'
                else task_refs f line_no line lower (start + 1) out
            end
      end
  end.

(** The length of the run of digits, commas, white space and suffix letters. *)
Fixpoint run_len (after_digit : bool) (t : str) : nat :=
  match t with
  | [] => 0%nat
  | c :: t' =>
      if is_ascii_digit c || (c =? chr ",") || is_ascii_whitespace c || (is_ascii_lowercase c && after_digit)
      then S (run_len (is_ascii_digit c) t')
      else 0%nat
  end.

Definition run_ids (line_no : Z) (run : str) : list (Z * str) :=
  omap (fun part => let part := trim part in if is_task_id part then Some (line_no, part) else None)
    (split (chr ",") run).

(** The loop over [Depends on N, M]. *)
Fixpoint depends_refs (fuel : nat) (line_no : Z) (line lower : str) (search_from : nat) (out : list (Z * str)) : res (list (Z * str)) :=
  match fuel with
  | O => Timeout
  | S f =>
      rest ← slice_from lower search_from;
      match find (lit "depends on") rest with
      | None => Ok out
      | Some r =>
          let j0 := (search_from + r + 10)%nat in
          let j := (j0 + length (take_while is_ascii_whitespace (drop j0 line)))%nat in
          let run_end := (j + run_len false (drop j line))%nat in
          run ← slice line j run_end;
          depends_refs f line_no line lower run_end (out ++ run_ids line_no run)
      end
  end.

Fixpoint line_refs (ls : list str) (i : Z) (out : list (Z * str)) : res (list (Z * str)) :=
  match ls with
  | [] => Ok out
  | line :: ls' =>
      let line_no := as_u32 (i + 1) in
      let lower := to_ascii_lowercase line in
      out ← task_refs (S (length line)) line_no line lower 0 out;
      out ← depends_refs (S (length line)) line_no line lower 0 out;
      line_refs ls' (i + 1) out
  end.

Definition extract_refs (body : str) : res (list (Z * str)) := line_refs (lines body) 0 [].

(** ** The list in [todo.md] *)

Definition todo_region (text : str) : option (nat * nat) :=
  match find BEGIN_MARKER text, find END_MARKER text with
  | Some b, Some e => if (b <? e)%nat then Some (b, e) else None
  | _, _ => None
  end.

Definition parse_entry_head (line : str) : option (str * str) :=
  let trimmed := trim_start line in
  '(number, rest) ← split_once (lit ". [") trimmed;
  if negb (is_task_id number) then None
  else
    '(file, rest) ← split_once (lit "]") rest;
    rest ← strip_prefix (lit "(") rest;
    let target := first_part (chr ")") rest in
    if bool_decide (file = []) || negb (bool_decide (target = file)) then None
    else Some (number, file).

Fixpoint entries_from (ls : list str) (line_at : Z) : list (str * str * Z) :=
  match ls with
  | [] => []
  | line :: ls' =>
      match parse_entry_head line with
      | Some (number, file) => (number, file, as_u32 line_at) :: entries_from ls' (line_at + 1)
      | None => entries_from ls' (line_at + 1)
      end
  end.

Definition parse_todo_list (text : str) : list (str * str * Z) :=
  match todo_region text with
  | None => []
  | Some (b, e) =>
      let region_start := (b + length BEGIN_MARKER)%nat in
      let line_at_region_start := len (filter (fun c => c = LF) (take region_start text)) + 1 in
      entries_from (lines (take (e - region_start) (drop region_start text))) line_at_region_start
  end.

(** ** Loading the tree *)

(** A directory entry as [read_dir] gives it: its name, whether it is a file,
    and what reading it as text gives; or the error of the iteration. *)
Inductive DirEntry :=
  | Entry (name : str) (is_file : bool) (text : result str str)
  | EntryErr (e : str).

(** A path that is no directory, one that cannot be listed, or a listing. *)
Inductive Dir :=
  | NotDir
  | DirErr (e : str)
  | Listing (es : list DirEntry).

(** What [tasks/] holds, and how a write of [todo.md] ends. *)
Record TasksDir := mk_TasksDir {
  top : Dir;
  done_dir : Dir;
  todo : result str str;
  todo_write : result unit str;
  todo_path : str
}.

(** [path.extension() == Some("md")]: what follows the last dot, unless the name
    has no other dot and starts with it. *)
Definition has_md_extension (name : str) : bool :=
  match rev (split (chr ".") name) with
  | ext :: before :: more =>
      bool_decide (ext = lit "md") && negb (bool_decide (before = []) && bool_decide (more = []))
  | _ => false
  end.

Definition scan_entry `{StrDebug} (in_done_dir : bool) (e : DirEntry) : result (option TaskFile) str :=
  match e with
  | EntryErr e => Err e
  | Entry name is_file text =>
      if negb is_file || negb (has_md_extension name) then Val None
      else if bool_decide (name ∈ INDEX_FILES) && negb in_done_dir then Val None
      else
        let rel := if in_done_dir then lit "done/" ++ name else name in
        match text with
        | Err e => Val (Some (malformed_only rel in_done_dir (lit "cannot read: " ++ e)))
        | Val text =>
            match parse_front_matter text with
            | None => Val (Some (malformed_only rel in_done_dir (lit "no front matter block")))
            | Some fm => Val (Some (into_task_file fm rel in_done_dir))
            end
        end
  end.

Fixpoint scan_entries `{StrDebug} (in_done_dir : bool) (es : list DirEntry) (out : list TaskFile) : result (list TaskFile) str :=
  match es with
  | [] => Val out
  | e :: es' =>
      match scan_entry in_done_dir e with
      | Err e => Err e
      | Val None => scan_entries in_done_dir es' out
      | Val (Some t) => scan_entries in_done_dir es' (out ++ [t])
      end
  end.

Definition scan `{StrDebug} (dir : Dir) (in_done_dir : bool) (out : list TaskFile) : result (list TaskFile) str :=
  match dir with
  | NotDir => Val out
  | DirErr e => Err e
  | Listing es => scan_entries in_done_dir es out
  end.

(** [id_claims] and [known_ids] after the loop over the tasks. *)
Definition claim (m : list (str * list str)) (t : TaskFile) : list (str * list str) :=
  match id t with
  | Some i => bt_entry i [] (bset_insert (rel t)) m
  | None => m
  end.

Definition load `{StrDebug} (d : TasksDir) : result Tree str :=
  match scan (top d) false [] with
  | Err e => Err e
  | Val out =>
      match scan (done_dir d) true out with
      | Err e => Err e
      | Val tasks =>
          let id_claims := foldl claim [] tasks in
          let known_ids := bset (omap id tasks) in
          let todo_text := match todo d with Val t => t | Err _ => [] end in
          let listed := parse_todo_list todo_text in
          let known_ids := foldl (fun s e => bset_insert (fst (fst e)) s) known_ids listed in
          Val (mk_Tree tasks id_claims known_ids listed (bool_decide (is_Some (todo_region todo_text))))
      end
  end.

(** ** Findings about files *)

Definition h1_line (body : str) : option str :=
  snd <$> list_find (fun l => starts_with (lit "# ") l = true) (lines body).

Definition h1_task_number (body : str) : option str :=
  h1 ← h1_line body;
  let rest := trim_start_matches (lit "# ") h1 in
  rest ← strip_prefix (lit "Task ") rest;
  '(num, _) ← split_once (lit ":") rest;
  if is_task_id num then Some num else None.

Definition recover_commit_from_status_line (status_line : option str) : option str :=
  line ← status_line;
  rest ← strip_prefix (lit "## Status:") line;
  group ← split (chr "(") rest !! 1%nat;
  let parens := first_part (chr ")") group in
  let toks := map (trim_matches (fun c => (c =? chr ",") || (c =? chr ")") || (c =? chr "("))) (split_whitespace parens) in
  snd <$> list_find (fun tok => is_commit_hash tok = true) toks.

Definition add32 (a b : Z) : res Z := if a + b <? W32 then Ok (a + b) else Panic.

Fixpoint ref_findings (t : TaskFile) (known : list str) (refs : list (Z * str)) : res (list Finding) :=
  match refs with
  | [] => Ok []
  | (body_line, i) :: refs' =>
      if bool_decide (i ∈ known) then ref_findings t known refs'
      else
        l ← add32 (header_lines t) 2; l ← add32 l body_line;
        fs ← ref_findings t known refs';
        Ok (UnresolvedRef (rel t) l i :: fs)
  end.

Definition status_findings (t : TaskFile) : list Finding :=
  match prose_status t with
  | Some prose =>
      if negb (bool_decide (prose = status t)) || negb (bool_decide (prose ∈ [lit "open"; lit "parked"; lit "done"]))
      then [StatusMismatch (rel t) (status t) prose] else []
  | None => []
  end.

Definition h1_findings (t : TaskFile) : list Finding :=
  match h1_task_number (body t) with
  | Some n => if bool_decide (id t = Some n) then [] else [H1Mismatch (rel t) n (id t)]
  | None => []
  end.

Definition placement_findings (t : TaskFile) : list Finding :=
  (if in_done_dir t && negb (bool_decide (status t = lit "done"))
   then [Misplaced (rel t) (lit "status is `" ++ status t ++ lit "`, but the file is in done/")] else []) ++
  (if negb (in_done_dir t) && bool_decide (status t = lit "done")
   then [Misplaced (rel t) (lit "status is `done`, but the file is at the top level (move it to done/)")] else []).

Definition commit_findings (t : TaskFile) : list Finding :=
  if bool_decide (status t = lit "done") && bool_decide (commit t = None) then
    match recover_commit_from_status_line (status_line t) with
    | Some hash => [MissingCommit (rel t) hash]
    | None => []
    end
  else [].

Definition one_file_findings (tree : Tree) (t : TaskFile) : res (list Finding) :=
  let bad := map (Malformed (rel t)) (malformed t) in
  if negb (bool_decide (malformed t = [])) || bool_decide (status t = []) then Ok bad
  else
    refs ← (if in_done_dir t then Ok []
            else
              rs ← extract_refs (body t);
              fs ← ref_findings t (known_ids tree) rs;
              Ok (fs ++ omap (fun i => if bool_decide (i ∈ known_ids tree) then None
                                       else Some (UnresolvedRef (rel t) 0 i)) (depends_on t)));
    Ok (bad ++ status_findings t ++ h1_findings t ++ placement_findings t ++ refs ++ commit_findings t).

Fixpoint files_findings (tree : Tree) (ts : list TaskFile) : res (list Finding) :=
  match ts with
  | [] => Ok []
  | t :: ts' =>
      fs ← one_file_findings tree t;
      rest ← files_findings tree ts';
      Ok (fs ++ rest)
  end.

Definition file_findings (tree : Tree) : res (list Finding) := files_findings tree (tasks tree).

(** ** Findings about the index *)

(** [t.rel.rsplit('/').next()]. *)
Definition base (t : TaskFile) : str := last_part (chr "/") (rel t).

Definition claim_findings (m : list (str * list str)) : list Finding :=
  omap (fun '(i, files) => if 1 <? len files then Some (DuplicateId i files) else None) m.

Definition shadow_findings (ts : list TaskFile) : list Finding :=
  let top_names := bset (base <$> filter (fun t => in_done_dir t = false) ts) in
  omap (fun t => if in_done_dir t && bool_decide (base t ∈ top_names)
                 then Some (IndexDrift (base t ++ lit " exists both at the top level and in done/; the index keys tasks by basename, so the pair shadows each other"))
                 else None) ts.

Definition todo_line (l : Z) : str := lit "todo.md:" ++ show l.

(** An entry whose number is the id of other files. *)
Definition entry_claim_findings (tree : Tree) : list Finding :=
  omap (fun '(num, file, line) =>
    match bt_get num (id_claims tree) with
    | Some claimants =>
        if bool_decide (last_part (chr "/") file ∈ map (last_part (chr "/")) claimants) then None
        else Some (DuplicateId num (todo_line line :: claimants))
    | None => None
    end) (listed tree).

Definition numbers (l : list (str * str * Z)) : list (str * list Z) :=
  foldl (fun m '(num, _, line) => bt_entry num [] (fun ls => ls ++ [line]) m) [] l.
Definition by_file (l : list (str * str * Z)) : list (str * list (str * Z)) :=
  foldl (fun m '(num, file, line) => bt_entry file [] (fun ls => ls ++ [(num, line)]) m) [] l.

Definition number_findings (l : list (str * str * Z)) : list Finding :=
  omap (fun '(num, ls) => if 1 <? len ls then Some (DuplicateId num (map todo_line ls)) else None) (numbers l).

Definition twice_findings (l : list (str * str * Z)) : list Finding :=
  omap (fun '(file, es) =>
    if 1 <? len es then
      Some (IndexDrift (lit "todo.md lists " ++ file ++ lit " more than once: " ++
        join (lit ", ") (map (fun '(n, l) => lit "number " ++ n ++ lit " (line " ++ show l ++ lit ")") es)))
    else None) (by_file l).

Definition unlisted_findings (tree : Tree) : list Finding :=
  let listed_files := bset ((fun e => snd (fst e)) <$> listed tree) in
  omap (fun t =>
    if in_done_dir t || bool_decide (status t = []) || bool_decide (status t = lit "done") then None
    else if bool_decide (base t ∈ listed_files) then None
    else Some (IndexDrift (base t ++ lit " is " ++ status t ++ lit " but not listed in todo.md"))) (tasks tree).

Definition stale_findings (tree : Tree) : list Finding :=
  omap (fun '(num, file, line) =>
    match list_find (fun t => base t = file) (tasks tree) with
    | None => Some (IndexDrift (todo_line line ++ lit " lists " ++ file ++ lit ", which is not in the tree (number " ++ num ++ lit ")"))
    | Some (_, t) =>
        if in_done_dir t || bool_decide (status t = lit "done")
        then Some (IndexDrift (todo_line line ++ lit " lists " ++ file ++ lit " (number " ++ num ++ lit "), which is done"))
        else None
    end) (listed tree).

Definition index_findings (tree : Tree) : list Finding :=
  claim_findings (id_claims tree) ++ shadow_findings (tasks tree) ++
  if negb (todo_marked tree) then
    [IndexDrift (lit "todo.md carries no generated-region markers; its list is not reconcilable by --fix")]
  else
    entry_claim_findings tree ++ number_findings (listed tree) ++ twice_findings (listed tree) ++
    unlisted_findings tree ++ stale_findings tree.

(** ** [--fix] *)

Definition is_live_open (t : TaskFile) : bool :=
  negb (in_done_dir t) && (bool_decide (status t = lit "open") || bool_decide (status t = lit "parked")).

Definition live_task_named (ts : list TaskFile) (name : str) : option TaskFile :=
  snd <$> list_find (fun t => base t = name /\ is_live_open t = true) ts.

(** The lines of a block behind its entry line, and the rest. *)
Fixpoint block_end (ls : list str) : nat :=
  match ls with
  | [] => 0%nat
  | l :: ls' =>
      if bool_decide (parse_entry_head l = None) && negb (starts_with (lit "#") l)
      then S (block_end ls') else 0%nat
  end.

(** The locals of the loop over the region's lines. *)
Record FixState := mk_FixState { rebuilt : list str; dropped : list str; kept : list str }.

Fixpoint fix_blocks (fuel : nat) (ts : list TaskFile) (ls : list str) (s : FixState) : res FixState :=
  match ls with
  | [] => Ok s
  | line :: ls' =>
      match fuel with
      | O => Timeout
      | S f =>
          match parse_entry_head line with
          | None => fix_blocks f ts ls' (mk_FixState (rebuilt s ++ [line]) (dropped s) (kept s))
          | Some (number, file) =>
              let n := block_end ls' in
              let block := line :: take n ls' in
              let name := last_part (chr "/") file in
              let s := if bool_decide (is_Some (live_task_named ts name))
                       then mk_FixState (rebuilt s ++ block) (dropped s) (bset_insert name (kept s))
                       else mk_FixState (rebuilt s) (dropped s ++ [number ++ lit ". " ++ file]) (kept s) in
              fix_blocks f ts (drop n ls') s
          end
      end
  end.

(** The H1, minus its [# Task N:] prefix. *)
Definition entry_title (t : TaskFile) (i : str) : str :=
  match h1_line (body t) with
  | Some l =>
      let l := trim_start_matches (lit "# ") l in
      default l (strip_prefix (lit "Task " ++ i ++ lit ": ") l)
  | None => lit "untitled"
  end.

Definition entry_line (i name title : str) : str :=
  i ++ lit ". [" ++ name ++ lit "](" ++ name ++ lit ") " ++ [EM_DASH] ++ lit " " ++ title.

(** The loop over the open tasks: what it appends, and what it reports. *)
Fixpoint add_missing (ts : list TaskFile) (kept : list str) (open : list str) : res (list str * list str) :=
  match open with
  | [] => Ok ([], [])
  | name :: open' =>
      if bool_decide (name ∈ kept) then add_missing ts kept open'
      else
        t ← unwrap (live_task_named ts name);
        '(ls, added) ← add_missing ts kept open';
        match id t with
        | Some i => Ok ([] :: entry_line i name (entry_title t i) :: ls,
                        (i ++ lit ". " ++ name ++ lit " (unplaced " ++ [EM_DASH] ++ lit " move it into a section)") :: added)
        | None => Ok (ls, (name ++ lit " (no id " ++ [EM_DASH] ++ lit " assign one, then re-run)") :: added)
        end
  end.

(** The printed lines, how the run ends, and the text it writes to [todo.md]. *)
Record Outcome := mk_Outcome { printed : list str; ends : result unit str; written : option str }.

Definition is_malformed (f : Finding) : bool := match f with Malformed _ _ => true | _ => false end.
Definition count_malformed (fs : list Finding) : Z := len (List.filter is_malformed fs).

Definition print_findings (fs : list Finding) : list str := map (fun f => lit "  " ++ Finding_render f) fs.
Definition found_line (fs : list Finding) : str :=
  lit "xtask tasks: " ++ show (len fs) ++ lit " finding(s) in tasks/".
Definition malformed_err (n : Z) : str := show n ++ lit " malformed front matter block(s)".

Definition fix_text (ts : list TaskFile) (text : str) (b e : nat) : res (list str * list str * str) :=
  let narrative := take (b + length BEGIN_MARKER) text in
  let region := take (e - (b + length BEGIN_MARKER)) (drop (b + length BEGIN_MARKER) text) in
  let tail := drop (e + length END_MARKER) text in
  let open := bset (base <$> List.filter is_live_open ts) in
  let ls := lines region in
  s ← fix_blocks (length ls) ts ls (mk_FixState [] [] []);
  '(new, added) ← add_missing ts (kept s) open;
  let new_region := join [LF] (rebuilt s ++ new) in
  let new_region := if ends_with_char LF region then new_region ++ [LF] else new_region in
  Ok (dropped s, added, narrative ++ new_region ++ END_MARKER ++ tail).

Definition fix_ `{StrDebug} (d : TasksDir) : res Outcome :=
  match load d with
  | Err e => Ok (mk_Outcome [] (Err e) None)
  | Val tree =>
      findings ← file_findings tree;
      let n := count_malformed findings in
      if 0 <? n then
        Ok (mk_Outcome ((lit "xtask tasks: " ++ show n ++ lit " malformed front matter block(s); not touching todo.md")
                          :: print_findings findings) (Err (malformed_err n)) None)
      else
        let out := if bool_decide (findings = []) then [] else found_line findings :: print_findings findings in
        match todo d with
        | Err e => Ok (mk_Outcome out (Err (lit "read " ++ todo_path d ++ lit ": " ++ e)) None)
        | Val text =>
            match todo_region text with
            | None => Ok (mk_Outcome out (Err (lit "todo.md carries no generated-region markers (add `<!-- xtask:tasks begin -->` / `<!-- xtask:tasks end -->`)")) None)
            | Some (b, e) =>
                '(dropped, added, new_text) ← fix_text (tasks tree) text b e;
                if bool_decide (dropped = []) && bool_decide (added = []) then
                  Ok (mk_Outcome (out ++ [lit "xtask tasks: todo.md's list already matches the tree"]) (Val tt) None)
                else
                  match todo_write d with
                  | Err e => Ok (mk_Outcome out (Err e) (Some new_text))
                  | Val _ =>
                      Ok (mk_Outcome (out ++ [lit "xtask tasks: regenerated todo.md's list region"] ++
                                      map (fun x => lit "  dropped: " ++ x) dropped ++
                                      map (fun x => lit "  added:   " ++ x) added) (Val tt) (Some new_text))
                  end
            end
        end
  end.

(** ** [xtask tasks] *)

Definition run_on `{StrDebug} (d : TasksDir) (with_fix : bool) : res Outcome :=
  if with_fix then fix_ d
  else
    match load d with
    | Err e => Ok (mk_Outcome [] (Err e) None)
    | Val tree =>
        fs ← file_findings tree;
        let findings := fs ++ index_findings tree in
        let out := if bool_decide (findings = [])
                   then [lit "xtask tasks: tasks/ is consistent (" ++ show (len (tasks tree)) ++ lit " files checked)"]
                   else found_line findings :: print_findings findings in
        let n := count_malformed findings in
        Ok (mk_Outcome out (if 0 <? n then Err (malformed_err n) else Val tt) None)
    end.

(** ** Lemmas: references *)

Lemma length_lower t : length (to_ascii_lowercase t) = length t.
Proof. apply length_map. Qed.

Lemma slice_from_ok t n : (n <= length t)%nat -> slice_from t n = Ok (drop n t).
Proof. intros H. unfold slice_from. by rewrite (proj2 (Nat.leb_le _ _) H). Qed.

Lemma slice_ok t a b : (a <= b <= length t)%nat -> slice t a b = Ok (take (b - a) (drop a t)).
Proof. intros [H1 H2]. unfold slice. by rewrite (proj2 (Nat.leb_le _ _) H1), (proj2 (Nat.leb_le _ _) H2). Qed.

Lemma find_fits p t i : find p t = Some i -> (i + length p <= length t)%nat.
Proof. intros (a & r & -> & -> & _)%find_spec. rewrite !length_app. lia. Qed.

Lemma take_while_spec p t : exists r, t = take_while p t ++ r /\ Forall (fun c => p c = true) (take_while p t).
Proof.
  induction t as [|c t (r & E & F)]; cbn; [by exists []; split; [|constructor]|].
  destruct (p c) eqn:Ec; [exists r | exists (c :: t)]; cbn; (split; [|by repeat constructor]); [by rewrite <- E | done].
Qed.

Lemma length_take_while p t : (length (take_while p t) <= length t)%nat.
Proof. destruct (take_while_spec p t) as (r & E & _). rewrite E at 2. rewrite length_app. lia. Qed.

Lemma run_len_le b t : (run_len b t <= length t)%nat.
Proof. revert b. induction t as [|c t IH]; intros b; cbn; [lia|]. destruct (_ || _); [specialize (IH (is_ascii_digit c))|]; lia. Qed.

(** What a reference looks like: a digit first, and a part of the line. *)
Definition ref_ok (line_no : Z) (line : str) (r : Z * str) : Prop :=
  fst r = line_no /\ (exists c w, snd r = c :: w /\ is_ascii_digit c = true) /\ exists a b, line = a ++ snd r ++ b.

Lemma task_refs_total line_no line lower fuel pos out :
  length lower = length line -> (pos <= length line)%nat -> (length line - pos < fuel)%nat ->
  exists new, task_refs fuel line_no line lower pos out = Ok (out ++ new) /\ Forall (ref_ok line_no line) new.
Proof.
  intros Hl. revert pos out. induction fuel as [|f IH]; intros pos out Hp Hf; [lia|]. cbn [task_refs].
  rewrite slice_from_ok by lia. cbn [mbind res_bind]. destruct (find _ _) as [r|] eqn:Hr.
  2:{ exists []. by rewrite app_nil_r. }
  apply find_fits in Hr. rewrite length_drop in Hr. change (length (lit "task")) with 4%nat in Hr.
  assert (Hnext : exists new, task_refs f line_no line lower (pos + r + 1) out = Ok (out ++ new) /\ Forall (ref_ok line_no line) new)
    by (apply IH; lia).
  assert (exists bv, (if (0 <? pos + r)%nat then c ← unwrap (line !! (pos + r - 1)%nat); Ok (is_ascii_alphabetic c) else Ok false) = Ok bv) as (bv & ->).
  { destruct (0 <? pos + r)%nat; [|by eexists]. destruct (line !! (pos + r - 1)%nat) eqn:E; [by eexists|].
    apply lookup_ge_None in E. lia. }
  cbn [mbind res_bind]. destruct bv; [done|]. rewrite slice_from_ok by lia. cbn [mbind res_bind].
  set (after := (pos + r + 4 + _)%nat). assert (Ha : (pos + r + 4 <= after)%nat) by (unfold after; lia). clearbody after.
  destruct (line !! after) as [sep|] eqn:Es; [|exists []; by rewrite app_nil_r].
  apply lookup_lt_Some in Es. destruct (_ || _); [|done]. rewrite slice_from_ok by lia. cbn [mbind res_bind].
  set (tail := drop (after + 1) line). pose proof (length_take_while is_ascii_digit tail) as Ht.
  assert (Htl : length tail = (length line - (after + 1))%nat) by apply length_drop.
  set (ne := (after + 1 + length (take_while is_ascii_digit tail))%nat).
  set (ie := match line !! ne with Some c => _ | None => _ end).
  assert (Hie : (ne <= ie <= length line)%nat).
  { unfold ie. destruct (line !! ne) eqn:E; [apply lookup_lt_Some in E; destruct (is_ascii_alphabetic _); lia | unfold ne; lia]. }
  clearbody ie. destruct (0 <? length (take_while is_ascii_digit tail))%nat eqn:Hd.
  - apply Nat.ltb_lt in Hd. rewrite slice_ok by (unfold ne in Hie; lia). cbn [mbind res_bind].
    rewrite slice_from_ok by lia. cbn [mbind res_bind]. destruct (match strip_prefix _ _ with Some _ => _ | None => _ end).
    + apply IH; lia.
    + destruct (IH (ie `max` (pos + r + 1))%nat (out ++ [(line_no, take (ie - (after + 1)) (drop (after + 1) line))])) as (new & E & F); [lia|lia|].
      exists ((line_no, take (ie - (after + 1)) (drop (after + 1) line)) :: new). rewrite E, <- app_assoc. split; [done|].
      constructor; [|done]. split; [done|]. cbn [snd]. fold tail. split.
      * destruct (take_while_spec is_ascii_digit tail) as (q & Eq & Fq).
        destruct (take_while is_ascii_digit tail) as [|c w] eqn:Ew; [cbn in Hd; lia|].
        rewrite Eq. replace (ie - (after + 1))%nat with (S (ie - (after + 2)))%nat by (unfold ne in Hie; cbn in Hie; lia).
        cbn [take app]. exists c, (take (ie - (after + 2)) (w ++ q)). split; [done|]. by inversion Fq.
      * exists (take (after + 1) line), (drop (ie - (after + 1)) tail). rewrite take_drop. unfold tail. by rewrite take_drop.
  - cbn [mbind res_bind]. apply IH; lia.
Qed.

Lemma run_ids_ok line_no run line : (exists a b, line = a ++ run ++ b) -> Forall (ref_ok line_no line) (run_ids line_no run).
Proof.
  intros (a & b & ->). apply Forall_forall. intros r (part & Hin & Hr)%list_elem_of_omap. cbn in Hr.
  destruct (is_task_id (trim part)) eqn:Hid; [|done]. injection Hr as <-. split; [done|]. cbn [snd].
  split.
  - unfold is_task_id in Hid. destruct (trim part) as [|c w]; [done|]. exists c, w. split; [done|]. by destruct (is_ascii_digit c).
  - destruct (split_sub _ _ _ Hin) as (a1 & b1 & ->). destruct (trim_sub part) as (a2 & b2 & Ep).
    exists (a ++ a1 ++ a2), (b2 ++ b1 ++ b). rewrite Ep at 1. by rewrite <- !app_assoc.
Qed.

Lemma depends_refs_total line_no line lower fuel from out :
  length lower = length line -> (from <= length line)%nat -> (length line - from < fuel)%nat ->
  exists new, depends_refs fuel line_no line lower from out = Ok (out ++ new) /\ Forall (ref_ok line_no line) new.
Proof.
  intros Hl. revert from out. induction fuel as [|f IH]; intros from out Hp Hf; [lia|]. cbn [depends_refs].
  rewrite slice_from_ok by lia. cbn [mbind res_bind]. destruct (find _ _) as [r|] eqn:Hr.
  2:{ exists []. by rewrite app_nil_r. }
  apply find_fits in Hr. rewrite length_drop in Hr. change (length (lit "depends on")) with 10%nat in Hr.
  set (j0 := (from + r + 10)%nat). set (j := (j0 + length (take_while is_ascii_whitespace (drop j0 line)))%nat).
  pose proof (length_take_while is_ascii_whitespace (drop j0 line)) as Hw. rewrite length_drop in Hw.
  pose proof (run_len_le false (drop j line)) as Hj. rewrite length_drop in Hj.
  set (e := (j + run_len false (drop j line))%nat). rewrite slice_ok by (unfold e, j, j0 in *; lia). cbn [mbind res_bind].
  destruct (IH e (out ++ run_ids line_no (take (e - j) (drop j line)))) as (new & E & F); [unfold e, j, j0 in *; lia.. |].
  eexists. rewrite E, <- app_assoc. split; [done|]. apply Forall_app. split; [|done]. apply run_ids_ok.
  exists (take j line), (drop (e - j) (drop j line)). by rewrite take_drop, take_drop.
Qed.

Lemma line_refs_total ls i out : 0 <= i ->
  exists new, line_refs ls i out = Ok (out ++ new) /\
    Forall (fun r => 0 <= fst r <= i + len ls /\
              exists (k : nat) l, ls !! k = Some l /\ fst r = as_u32 (i + Z.of_nat k + 1) /\ ref_ok (fst r) l r) new.
Proof.
  revert i out. induction ls as [|l ls IH]; intros i out Hi; cbn [line_refs].
  - exists []. by rewrite app_nil_r.
  - destruct (task_refs_total (as_u32 (i + 1)) l (to_ascii_lowercase l) (S (length l)) 0 out) as (n1 & -> & F1); [apply length_lower|lia..|].
    cbn [mbind res_bind].
    destruct (depends_refs_total (as_u32 (i + 1)) l (to_ascii_lowercase l) (S (length l)) 0 (out ++ n1)) as (n2 & -> & F2); [apply length_lower|lia..|].
    cbn [mbind res_bind]. destruct (IH (i + 1) ((out ++ n1) ++ n2)) as (n3 & -> & F3); [lia|].
    exists (n1 ++ n2 ++ n3). rewrite !app_assoc. split; [done|].
    assert (H32 : 0 <= as_u32 (i + 1) <= i + 1) by (unfold as_u32, W32; split; [apply Z.mod_pos_bound; lia | apply Z.mod_le; lia]).
    assert (Hlen : len (l :: ls) = 1 + len ls) by (unfold len; cbn; lia). pose proof (len_nonneg ls).
    rewrite <- app_assoc. apply Forall_app. split; [|apply Forall_app; split].
    1,2: eapply Forall_impl; [eassumption|]; intros r Hr; pose proof Hr as (E & _); rewrite E; split; [lia|];
      exists 0%nat, l; split; [done|]; split; [f_equal; lia | done].
    eapply Forall_impl; [exact F3|]. intros r (Hb & k & l' & Hk & Hr & Hok). split; [lia|]. exists (S k), l'. split; [done|].
    split; [rewrite Hr; f_equal; lia | done].
Qed.

(** [extract_refs] ends, without a slice out of range, on every text. *)
Lemma extract_refs_total t :
  exists refs, extract_refs t = Ok refs /\
    Forall (fun r => 0 <= fst r <= len (lines t) /\
              exists (k : nat) l, lines t !! k = Some l /\ fst r = as_u32 (0 + Z.of_nat k + 1) /\ ref_ok (fst r) l r) refs.
Proof. apply (line_refs_total (lines t) 0 []). lia. Qed.

(** ** Lemmas: front matter *)

Definition status_word (w : str) : Prop := w ∈ [lit "open"; lit "parked"; lit "done"].

(** The values of a block without errors. *)
Definition fm_values (i st c : option str) (deps : list str) : Prop :=
  (forall w, i = Some w -> is_task_id w = true) /\ (forall w, st = Some w -> status_word w) /\
  Forall (fun w => is_task_id w = true) deps /\ (forall w, c = Some w -> is_commit_hash w = true).

Definition fm_inv (s : FmState) : Prop :=
  s_errors s = [] -> fm_values (s_id s) (s_status s) (s_commit s) (s_depends_on s).

Lemma add_error_inv e s : fm_inv (add_error e s).
Proof. intros H. cbn in H. by destruct (s_errors s). Qed.

Lemma add_depends_inv s item : fm_inv s -> fm_inv (add_depends s item).
Proof.
  unfold add_depends, fm_inv. intros H. destruct (is_task_id (trim item)) eqn:E; cbn.
  - intros (H1 & H2 & H3 & H4)%H. repeat split; auto. apply Forall_app. by repeat constructor.
  - by destruct (s_errors s).
Qed.

Ltac fm_value H s :=
  intros He; cbn in He |- *;
  first [by destruct (s_errors s) | destruct (H He) as (? & ? & ? & ?); repeat split; auto; by intros ? [= <-]].

Lemma set_key_inv key value s : fm_inv s -> fm_inv (set_key key value s).
Proof.
  intros H. unfold set_key.
  case_bool_decide; [destruct (is_task_id value) eqn:E; fm_value H s|].
  case_bool_decide; [case_bool_decide; fm_value H s|].
  match goal with |- fm_inv (if ?c then _ else _) => destruct c; [apply add_error_inv|] end.
  case_bool_decide.
  - generalize (split (chr ",") value). intros l. revert s H.
    induction l as [|x l IH]; intros s H; cbn; [done|]. by apply IH, add_depends_inv.
  - case_bool_decide; [destruct (is_commit_hash value) eqn:E; fm_value H s | done].
Qed.

Lemma fm_line_inv `{StrDebug} s line : fm_inv s -> fm_inv (fm_line s line).
Proof.
  intros Hs. unfold fm_line. destruct (split_once _ _) as [[k v]|]; [|apply add_error_inv].
  case_bool_decide as Hk; case_bool_decide as Ha; try apply add_error_inv; apply set_key_inv; [apply add_error_inv | exact Hs].
Qed.

Lemma parse_front_matter_typed `{StrDebug} t fm : parse_front_matter t = Some fm -> fm_errors fm = [] ->
  fm_values (fm_id fm) (fm_status fm) (fm_commit fm) (fm_depends_on fm) /\ is_Some (fm_status fm).
Proof.
  unfold parse_front_matter. destruct (scan_block _ _ _ _) as [[block n]|]; [|done].
  assert (Hi : forall l s, fm_inv s -> fm_inv (foldl fm_line s l)).
  { induction l as [|x l IH]; intros s Hs; cbn; [done|]. apply IH. by apply fm_line_inv. }
  assert (H0 : fm_inv (mk_FmState [] [] None None [] None)) by (intros _; by repeat split).
  specialize (Hi block _ H0). set (s := foldl _ _ _) in *. clearbody s. destruct (s_status s) as [w|] eqn:E; intros [= <-]; cbn.
  - intros He. specialize (Hi He). rewrite E in *. split; [done|by eexists].
  - by destruct (s_errors s).
Qed.

(** What a loaded file is: a malformed one without values, or one whose values
    all have the format of their key. *)
Definition task_typed (t : TaskFile) : Prop :=
  match malformed t with
  | _ :: _ => id t = None /\ status t = [] /\ depends_on t = [] /\ commit t = None
  | [] => (forall w, id t = Some w -> is_task_id w = true) /\ status_word (status t) /\
          Forall (fun w => is_task_id w = true) (depends_on t) /\ (forall w, commit t = Some w -> is_commit_hash w = true)
  end.

Lemma into_task_file_typed `{StrDebug} text fm r dn : parse_front_matter text = Some fm -> task_typed (into_task_file fm r dn).
Proof.
  intros Hp. unfold into_task_file, task_typed. destruct (find_status _) as [prose line]. cbn.
  destruct (fm_errors fm) eqn:E.
  - rewrite !bool_decide_eq_true_2 by done. destruct (parse_front_matter_typed _ _ Hp E) as ((H1 & H2 & H3 & H4) & (w & Hw)).
    rewrite Hw in *. cbn. repeat split; auto.
  - by rewrite !bool_decide_eq_false_2.
Qed.

(** The place of a loaded file. *)
Definition task_placed (t : TaskFile) : Prop :=
  exists name, rel t = if in_done_dir t then lit "done/" ++ name else name.

Lemma scan_entry_typed `{StrDebug} dn e t : scan_entry dn e = Val (Some t) -> task_typed t /\ task_placed t /\ in_done_dir t = dn.
Proof.
  destruct e as [name f text|]; [|done]. cbn. destruct (_ || _); [done|]. destruct (_ && _); [done|].
  destruct text as [text|e]; [destruct (parse_front_matter text) as [fm|] eqn:E|]; intros [= <-].
  - repeat split; [by eapply into_task_file_typed | |]; unfold into_task_file; destruct (find_status _); cbn; [|done]. exists name. by destruct dn.
  - repeat split. exists name. by destruct dn.
  - repeat split. exists name. by destruct dn.
Qed.

Lemma scan_typed `{StrDebug} dir dn out ts : scan dir dn out = Val ts ->
  exists new, ts = out ++ new /\ Forall (fun t => task_typed t /\ task_placed t /\ in_done_dir t = dn) new.
Proof.
  destruct dir as [| |es]; cbn; [intros [= <-]; exists []; by rewrite app_nil_r | done |].
  revert out. induction es as [|e es IH]; intros out; cbn; [intros [= <-]; exists []; by rewrite app_nil_r|].
  destruct (scan_entry dn e) as [[t|]|] eqn:E; [|by apply IH|done].
  intros (new & -> & F)%IH. exists (t :: new). rewrite <- app_assoc. split; [done|]. constructor; [|done]. by eapply scan_entry_typed.
Qed.

(** What [load] builds, apart from the list in [todo.md]. *)
Lemma load_inv `{StrDebug} d tree : load d = Val tree ->
  exists ts1 ts2, scan (top d) false [] = Val ts1 /\ scan (done_dir d) true ts1 = Val ts2 /\
    let text := match todo d with Val t => t | Err _ => [] end in
    tasks tree = ts2 /\ id_claims tree = foldl claim [] ts2 /\ listed tree = parse_todo_list text /\
    todo_marked tree = bool_decide (is_Some (todo_region text)).
Proof.
  unfold load. destruct (scan (top d) false []) as [ts1|]; [|done]. destruct (scan (done_dir d) true ts1) as [ts2|] eqn:E; [|done].
  intros [= <-]. exists ts1, ts2. by repeat split.
Qed.

Lemma load_tasks_typed `{StrDebug} d tree : load d = Val tree -> Forall (fun t => task_typed t /\ task_placed t) (tasks tree).
Proof.
  intros (ts1 & ts2 & H1 & H2 & -> & _)%load_inv. apply scan_typed in H1 as (n1 & -> & F1). apply scan_typed in H2 as (n2 & -> & F2).
  apply Forall_app. split; (eapply Forall_impl; [eassumption|]); naive_solver.
Qed.

(** ** Lemmas: findings about files *)

(** The line numbers of a file fit 32 bits. *)
Definition lines_fit (t : TaskFile) : Prop := 0 <= header_lines t /\ header_lines t + 2 + len (lines (body t)) < W32.

Lemma ref_findings_total t known refs : lines_fit t -> Forall (fun r => 0 <= fst r <= len (lines (body t))) refs ->
  exists fs, ref_findings t known refs = Ok fs /\ Forall (fun f => is_malformed f = false) fs.
Proof.
  intros [H0 H1]. pose proof (len_nonneg (lines (body t))). induction refs as [|[l i] refs IH]; intros F; cbn.
  - exists []. by split.
  - apply Forall_cons in F as [Hl F]. cbn in Hl. destruct (IH F) as (fs & -> & Ff). case_bool_decide; [by eexists|].
    unfold add32. rewrite (proj2 (Z.ltb_lt (header_lines t + 2) W32)) by lia. cbn [mbind res_bind].
    rewrite (proj2 (Z.ltb_lt (header_lines t + 2 + l) W32)) by lia. cbn [mbind res_bind]. eexists. split; [done|]. by constructor.
Qed.

Lemma one_file_total tree t : lines_fit t ->
  exists fs, one_file_findings tree t = Ok fs /\ (malformed t = [] -> Forall (fun f => is_malformed f = false) fs).
Proof.
  intros Hf. unfold one_file_findings. destruct (_ || _) eqn:E.
  - eexists. split; [done|]. intros ->. constructor.
  - assert (exists fs, (if in_done_dir t then Ok [] else rs ← extract_refs (body t); fs ← ref_findings t (known_ids tree) rs;
       Ok (fs ++ omap (fun i => if bool_decide (i ∈ known_ids tree) then None else Some (UnresolvedRef (rel t) 0 i)) (depends_on t))) = Ok fs
       /\ Forall (fun f => is_malformed f = false) fs) as (fs & -> & Ff).
    { destruct (in_done_dir t); [by exists []|]. destruct (extract_refs_total (body t)) as (rs & -> & Hr). cbn [mbind res_bind].
      destruct (ref_findings_total t (known_ids tree) rs Hf) as (fs & -> & Ff); [eapply Forall_impl; [exact Hr|naive_solver]|].
      eexists. split; [done|]. apply Forall_app. split; [done|]. apply Forall_forall. intros f (i & _ & Hi)%list_elem_of_omap.
      case_bool_decide; naive_solver. }
    cbn [mbind res_bind]. eexists. split; [done|]. intros ->. cbn [map app].
    unfold status_findings, h1_findings, placement_findings, commit_findings.
    repeat (apply Forall_app; split); try done; repeat (first [case_match | case_bool_decide]); by repeat constructor.
Qed.

Lemma file_findings_total tree : Forall lines_fit (tasks tree) ->
  exists fs, file_findings tree = Ok fs /\
    (Forall (fun t => malformed t = []) (tasks tree) -> count_malformed fs = 0).
Proof.
  unfold file_findings. intros H.
  assert (exists fs, files_findings tree (tasks tree) = Ok fs /\
    (Forall (fun t => malformed t = []) (tasks tree) -> Forall (fun f => is_malformed f = false) fs)) as (fs & E & F).
  { induction H as [|t ts Ht H IH]; cbn; [by eexists|]. destruct (one_file_total tree t Ht) as (f1 & -> & F1).
    destruct IH as (f2 & -> & F2). cbn [mbind res_bind]. eexists. split; [done|].
    intros [Hm Hms]%Forall_cons. apply Forall_app. auto. }
  exists fs. split; [done|]. intros Hm. specialize (F Hm). unfold count_malformed. clear -F.
  induction F as [|f fs Hf F IH]; cbn; [done|]. by rewrite Hf.
Qed.

(** ** Lemmas: the region *)

(** The entries of some lines. *)
Definition heads (ls : list str) : list (str * str) := omap parse_entry_head ls.

(** Whether an entry's file is a live task. *)
Definition entry_live (ts : list TaskFile) (h : str * str) : bool :=
  bool_decide (is_Some (live_task_named ts (last_part (chr "/") (snd h)))).

(** What the block loop keeps, as one pass over the lines: an entry decides for
    the lines up to the next entry or header. *)
Fixpoint survivors (ts : list TaskFile) (keep : bool) (ls : list str) : list str :=
  match ls with
  | [] => []
  | l :: ls' =>
      let keep' := match parse_entry_head l with
                   | Some h => entry_live ts h
                   | None => starts_with (lit "#") l || keep
                   end in
      (if keep' then [l] else []) ++ survivors ts keep' ls'
  end.

Lemma survivors_block ts keep ls :
  survivors ts keep ls = (if keep then take (block_end ls) ls else []) ++ survivors ts true (drop (block_end ls) ls).
Proof.
  revert keep. induction ls as [|l ls IH]; intros keep; [by destruct keep|]. cbn [block_end survivors].
  destruct (parse_entry_head l) as [h|] eqn:E.
  - rewrite bool_decide_eq_false_2 by done. cbn [andb take drop]. destruct keep; cbn [app survivors]; by rewrite E.
  - rewrite bool_decide_eq_true_2 by done. cbn [andb]. destruct (starts_with (lit "#") l) eqn:Hs; cbn [negb orb take drop].
    + destruct keep; cbn [app survivors]; by rewrite E, Hs.
    + rewrite IH. by destruct keep.
Qed.

Definition dead_line (h : str * str) : str := fst h ++ lit ". " ++ snd h.
Definition dead (ts : list TaskFile) (ls : list str) : list str :=
  dead_line <$> filter (fun h => entry_live ts h = false) (heads ls).

Lemma block_no_heads ls : heads (take (block_end ls) ls) = [].
Proof.
  induction ls as [|l ls IH]; [done|]. cbn [block_end]. case_bool_decide as E; [|done].
  destruct (starts_with (lit "#") l); [done|]. cbn. unfold heads in IH. by rewrite E.
Qed.

Lemma heads_block ls : heads ls = heads (drop (block_end ls) ls).
Proof. rewrite <- (take_drop (block_end ls) ls) at 1. unfold heads at 1. rewrite omap_app. by setoid_rewrite block_no_heads. Qed.

(** The block loop is the one pass. *)
Lemma fix_blocks_spec ts fuel ls s : (length ls <= fuel)%nat ->
  exists k, fix_blocks fuel ts ls s = Ok (mk_FixState (rebuilt s ++ survivors ts true ls) (dropped s ++ dead ts ls) k) /\
    forall x, x ∈ k <-> x ∈ kept s \/ exists h, h ∈ heads ls /\ entry_live ts h = true /\ x = last_part (chr "/") (snd h).
Proof.
  revert ls s. induction fuel as [|f IH]; intros [|l ls] s Hf; cbn in Hf; try lia; cbn [fix_blocks].
  1,2: exists (kept s); rewrite !app_nil_r; destruct s; split; [done|]; intros x; split; [by left|]; intros [?|(h & Hh & _)]; [done|by inversion Hh].
  destruct (parse_entry_head l) as [[number file]|] eqn:E.
  - pose proof (survivors_block ts (entry_live ts (number, file)) ls) as Hs. pose proof (heads_block ls) as Hh.
    set (n := block_end ls) in *. set (s' := if bool_decide _ then _ else _).
    destruct (IH (drop n ls) s') as (k & -> & Hk); [rewrite length_drop; lia|]. exists k.
    cbn [survivors]. unfold dead, heads in *. cbn [omap list_omap]. rewrite E, Hs, Hh. cbn [filter].
    unfold s', entry_live in *. cbn [snd] in *. case_bool_decide as Hl; cbn [rebuilt dropped kept] in *.
    + rewrite filter_cons_False by (cbn; by rewrite bool_decide_eq_true_2). split; [by rewrite <- !app_assoc|].
      intros x. rewrite Hk, elem_of_bset_insert. setoid_rewrite elem_of_cons. split.
      * intros [[->|?]|(h & ? & ? & ?)]; [right; exists (number, file); cbn; by rewrite bool_decide_eq_true_2; auto | by left | right; eauto].
      * intros [?|(h & [->|?] & ? & ->)]; [by left; right | by left; left | right; eauto].
    + rewrite filter_cons_True by (cbn; by rewrite bool_decide_eq_false_2). split; [by rewrite fmap_cons, <- !app_assoc|].
      intros x. rewrite Hk. setoid_rewrite elem_of_cons. split.
      * intros [?|(h & ? & ? & ?)]; [by left | right; eauto].
      * intros [?|(h & [->|?] & Hb & ->)]; [by left | cbn in Hb; by rewrite bool_decide_eq_false_2 in Hb | right; eauto].
  - destruct (IH ls (mk_FixState (rebuilt s ++ [l]) (dropped s) (kept s))) as (k & -> & Hk); [lia|]. exists k.
    cbn [survivors rebuilt dropped kept] in *. unfold dead, heads in *. cbn [omap list_omap]. rewrite E, orb_true_r, <- app_assoc. done.
Qed.

Lemma heads_survivors ts keep ls : heads (survivors ts keep ls) = filter (fun h => entry_live ts h = true) (heads ls).
Proof.
  revert keep. induction ls as [|l ls IH]; intros keep; [done|]. cbn [survivors]. unfold heads in *. rewrite omap_app, IH. cbn [omap list_omap].
  destruct (parse_entry_head l) as [h|] eqn:E.
  - destruct (entry_live ts h) eqn:Hl; cbn [omap list_omap]; rewrite ?E; cbn [app]; [by rewrite filter_cons_True | by rewrite filter_cons_False by congruence].
  - destruct (_ || _); cbn [omap list_omap]; by rewrite ?E.
Qed.

Lemma survivors_all ts ls : Forall (fun h => entry_live ts h = true) (heads ls) -> survivors ts true ls = ls.
Proof.
  induction ls as [|l ls IH]; intros H; [done|]. cbn [survivors]. unfold heads in *. cbn [omap list_omap] in H.
  destruct (parse_entry_head l) as [h|].
  - apply Forall_cons in H as [-> H]. cbn. by rewrite IH.
  - rewrite orb_true_r. cbn. by rewrite IH.
Qed.

Lemma survivors_sublist ts keep ls : survivors ts keep ls `sublist_of` ls.
Proof.
  revert keep. induction ls as [|l ls IH]; intros keep; cbn [survivors]; [done|].
  match goal with |- context [if ?c then [l] else []] => destruct c end; cbn [app]; by constructor.
Qed.

(** ** Lemmas: added entries *)

Lemma live_task_named_spec ts name t : live_task_named ts name = Some t -> t ∈ ts /\ base t = name /\ is_live_open t = true.
Proof.
  unfold live_task_named. intros ([i t'] & (Hi & Hp & _)%list_find_Some & ->)%fmap_Some. split; [by eapply list_elem_of_lookup_2|done].
Qed.

Lemma live_task_named_exists ts t : t ∈ ts -> is_live_open t = true -> is_Some (live_task_named ts (base t)).
Proof.
  intros Hin Hl. unfold live_task_named. apply fmap_is_Some.
  apply (list_find_elem_of (fun t' => base t' = base t /\ is_live_open t' = true) ts t); done.
Qed.

Definition open_names (ts : list TaskFile) : list str := bset (base <$> List.filter is_live_open ts).

Lemma elem_of_open_names ts name : name ∈ open_names ts <-> is_Some (live_task_named ts name).
Proof.
  unfold open_names. rewrite elem_of_bset, list_elem_of_fmap. split.
  - intros (t & -> & [Hin Hl]%list_elem_of_In%filter_In). apply live_task_named_exists; [by apply list_elem_of_In|done].
  - intros (t & (Hin & <- & Hl)%live_task_named_spec). exists t. split; [done|]. apply list_elem_of_In, filter_In. split; [by apply list_elem_of_In|done].
Qed.

(** The lines that [--fix] appends for the open tasks without an entry. *)
Definition new_lines (ts : list TaskFile) (names : list str) : list str :=
  concat (omap (fun name => t ← live_task_named ts name; i ← id t; Some [[]; entry_line i name (entry_title t i)]) names).

Lemma add_missing_spec ts kept names : Forall (fun n => is_Some (live_task_named ts n)) names ->
  exists added, add_missing ts kept names = Ok (new_lines ts (filter (fun n => n ∉ kept) names), added) /\
    (added = [] <-> filter (fun n => n ∉ kept) names = []).
Proof.
  induction names as [|n names IH]; intros H; [by exists []|]. apply Forall_cons in H as [(t & Ht) H]. cbn [add_missing].
  destruct (IH H) as (added & E & Ha). rewrite E. case_bool_decide as Hk.
  - rewrite filter_cons_False by (intros Hn; by apply Hn). eauto.
  - rewrite filter_cons_True by done. rewrite Ht. cbn [unwrap mbind res_bind]. unfold new_lines. cbn [omap list_omap]. rewrite Ht. cbn [mbind option_bind].
    destruct (id t) as [i|]; cbn [mbind option_bind concat app]; eexists; (split; [done|]); by split.
Qed.

(** ** Lemmas: the markers *)

Lemma begin_once : chr "<" ∉ tail BEGIN_MARKER.
Proof. apply (bool_decide_unpack (chr "<" ∉ tail BEGIN_MARKER)). vm_compute. exact I. Qed.

Lemma end_once : chr "<" ∉ tail END_MARKER.
Proof. apply (bool_decide_unpack (chr "<" ∉ tail END_MARKER)). vm_compute. exact I. Qed.

Lemma find_end_begin r : find END_MARKER (BEGIN_MARKER ++ r) = (fun k => length BEGIN_MARKER + k)%nat <$> find END_MARKER r.
Proof.
  assert (E : starts_with END_MARKER (BEGIN_MARKER ++ r) = false).
  { apply not_true_iff_false. intros (q & E)%starts_with_spec. vm_compute in E. discriminate E. }
  change (BEGIN_MARKER ++ r) with (chr "<" :: tail BEGIN_MARKER ++ r) in *. cbn [find]. rewrite E.
  rewrite (find_behind (chr "<")) by (done || apply begin_once). by destruct (find END_MARKER r).
Qed.

Lemma region_join pre region tl : absent BEGIN_MARKER pre -> absent END_MARKER pre -> absent END_MARKER region ->
  todo_region (pre ++ BEGIN_MARKER ++ region ++ END_MARKER ++ tl) =
  Some (length pre, (length pre + length BEGIN_MARKER + length region)%nat).
Proof.
  intros Hb He Hr. unfold todo_region.
  pose proof begin_once as Hn. pose proof end_once as Hn'.
  set (r := region ++ END_MARKER ++ tl).
  assert (F1 : find BEGIN_MARKER (pre ++ BEGIN_MARKER ++ r) = Some (length pre)).
  { change (BEGIN_MARKER ++ r) with (chr "<" :: tail BEGIN_MARKER ++ r). rewrite (find_skip (chr "<")) by done.
    change (chr "<" :: tail BEGIN_MARKER ++ r) with (BEGIN_MARKER ++ r). rewrite find_here. cbn. f_equal. lia. }
  assert (F2 : find END_MARKER r = Some (length region)).
  { unfold r. change (END_MARKER ++ tl) with (chr "<" :: tail END_MARKER ++ tl). rewrite (find_skip (chr "<")) by done.
    change (chr "<" :: tail END_MARKER ++ tl) with (END_MARKER ++ tl). rewrite find_here. cbn. f_equal. lia. }
  assert (F3 : find END_MARKER (pre ++ BEGIN_MARKER ++ r) = Some (length pre + length BEGIN_MARKER + length region)%nat).
  { change (BEGIN_MARKER ++ r) with (chr "<" :: tail BEGIN_MARKER ++ r). rewrite (find_skip (chr "<")) by done.
    change (chr "<" :: tail BEGIN_MARKER ++ r) with (BEGIN_MARKER ++ r). rewrite find_end_begin, F2. cbn [fmap option_fmap option_map]. f_equal. lia. }
  rewrite F1, F3. change (length BEGIN_MARKER) with 26%nat. by rewrite (proj2 (Nat.ltb_lt (length pre) (length pre + 26 + length region))) by lia.
Qed.

Lemma region_split text b e : todo_region text = Some (b, e) ->
  exists pre region tl, text = pre ++ BEGIN_MARKER ++ region ++ END_MARKER ++ tl /\ b = length pre /\
    e = (length pre + length BEGIN_MARKER + length region)%nat /\
    absent BEGIN_MARKER pre /\ absent END_MARKER pre /\ absent END_MARKER region.
Proof.
  unfold todo_region. destruct (find BEGIN_MARKER text) as [b'|] eqn:Fb; [|done]. destruct (find END_MARKER text) as [e'|] eqn:Fe; [|done].
  destruct (b' <? e')%nat eqn:Hlt; [|done]. intros [= -> ->]. apply Nat.ltb_lt in Hlt.
  apply find_cut in Fb as (pre & r1 & Et & -> & Hpre); [|done]. apply find_cut in Fe as (a & tl & Et' & -> & Ha); [|done].
  assert (exists x, a = pre ++ x) as (x & ->).
  { rewrite Et in Et'. apply app_eq_inv in Et' as [(k & E1 & _)|(k & E1 & _)]; [|by exists k].
    apply (f_equal length) in E1. rewrite length_app in E1. lia. }
  rewrite Et, <- app_assoc in Et'. apply app_inv_head in Et'. rewrite length_app in Hlt.
  assert (exists region, x = BEGIN_MARKER ++ region) as (region & ->).
  { symmetry in Et'. apply app_eq_inv in Et' as [(k & E1 & E2)|(k & E1 & E2)]; [by exists k|].
    destruct k as [|c k]; [exists []; by rewrite app_nil_r in E1 |- *|]. exfalso.
    destruct x as [|x0 x]; [cbn in Hlt; lia|].
    apply begin_once. rewrite E1. cbn [tail app]. assert (c = chr "<") as -> by (change END_MARKER with (chr "<" :: tail END_MARKER) in E2; by injection E2). set_solver. }
  exists pre, region, tl. rewrite <- app_assoc in Et'. apply app_inv_head in Et'. subst r1. repeat split; try done.
  - rewrite !length_app. lia.
  - by apply absent_prefix in Ha.
  - by do 2 apply absent_suffix in Ha.
Qed.

(** The parts of a text around its region. *)
Lemma region_parts (pre region tl : str) (m e : str) :
  take (length pre + length m) (pre ++ m ++ region ++ e ++ tl) = pre ++ m /\
  take (length pre + length m + length region - (length pre + length m)) (drop (length pre + length m) (pre ++ m ++ region ++ e ++ tl)) = region /\
  drop (length pre + length m + length region + length e) (pre ++ m ++ region ++ e ++ tl) = tl.
Proof.
  rewrite !(app_assoc pre m). rewrite <- length_app. repeat split.
  - apply take_app_length.
  - rewrite drop_app_length. replace (_ - _)%nat with (length region) by lia. apply take_app_length.
  - rewrite (app_assoc (pre ++ m) region), <- length_app, (app_assoc _ e tl), <- length_app. apply drop_app_length.
Qed.

(** ** Lemmas: the line of an added entry *)

Lemma task_id_chars i : is_task_id i = true ->
  exists c w, i = c :: w /\ is_ascii_digit c = true /\ Forall (fun c => is_ascii_digit c || is_ascii_lowercase c = true) i.
Proof.
  unfold is_task_id. destruct i as [|c w]; [done|]. destruct (is_ascii_digit c) eqn:Hc; [|done]. cbn [negb]. intros H.
  exists c, w. split; [done|]. split; [done|].
  assert (Hd : forall l, forallb is_ascii_digit l = true -> Forall (fun c => is_ascii_digit c || is_ascii_lowercase c = true) l).
  { intros l Hl. apply Forall_forall. intros x Hx. rewrite forallb_forall in Hl. by rewrite (Hl x) by (by apply list_elem_of_In). }
  destruct (_ && _) eqn:E in H; [|by apply Hd]. apply andb_true_iff in E as [_ E].
  rewrite (app_removelast_last 0 (l := c :: w)) by done. apply Forall_app. split; [by apply Hd|]. constructor; [|done]. by rewrite E, orb_true_r.
Qed.

Lemma entry_line_head i name title : is_task_id i = true -> name <> [] -> chr "]" ∉ name -> chr ")" ∉ name ->
  parse_entry_head (entry_line i name title) = Some (i, name).
Proof.
  intros Hi Hn H1 H2. destruct (task_id_chars i Hi) as (c & w & Ei & Hc & Hf). unfold parse_entry_head, entry_line.
  assert (trim_start (i ++ lit ". [" ++ name ++ lit "](" ++ name ++ lit ") " ++ [EM_DASH] ++ lit " " ++ title)
    = i ++ lit ". [" ++ name ++ lit "](" ++ name ++ lit ") " ++ [EM_DASH] ++ lit " " ++ title) as ->.
  { rewrite Ei. unfold trim_start. cbn [app trim_start_by]. assert (is_whitespace c = false) as ->; [|done].
    unfold is_ascii_digit, is_whitespace in *. change (chr "0") with 48 in Hc. change (chr "9") with 57 in Hc. lia. }
  rewrite split_once_at.
  2:{ rewrite (find_behind (chr ".")); [rewrite find_here; cbn; f_equal; lia | done |].
      intros Hin. rewrite Forall_forall in Hf. by specialize (Hf _ Hin). }
  cbn [mbind option_bind]. rewrite Hi. cbn [negb].
  change (lit "](" ++ name ++ lit ") " ++ [EM_DASH] ++ lit " " ++ title) with (lit "]" ++ lit "(" ++ name ++ lit ") " ++ [EM_DASH] ++ lit " " ++ title).
  rewrite split_once_at by (by apply find_char_app). cbn [mbind option_bind].
  rewrite (proj2 (strip_prefix_spec (lit "(") _ _) eq_refl). cbn [mbind option_bind].
  change (lit ") " ++ [EM_DASH] ++ lit " " ++ title) with (chr ")" :: lit " " ++ [EM_DASH] ++ lit " " ++ title).
  rewrite first_part_at by done. rewrite bool_decide_eq_false_2, bool_decide_eq_true_2 by done. done.
Qed.

(** Names that can be linked, and text that cannot be mistaken for a marker. *)
Definition name_ok (n : str) : Prop :=
  n <> [] /\ Forall (fun c => c ∉ [chr "]"; chr ")"; chr "<"; LF; CR]) n.
Definition plain_line (l : str) : Prop := LF ∉ l /\ CR ∉ l /\ absent END_MARKER l.
Definition live_ok (t : TaskFile) : Prop :=
  is_live_open t = true -> name_ok (base t) /\ CR ∉ body t /\ absent END_MARKER (body t).
Definition tasks_ok (ts : list TaskFile) : Prop :=
  Forall (fun t => (forall i, id t = Some i -> is_task_id i = true) /\ live_ok t) ts.

Lemma name_ok_not n c : name_ok n -> c ∈ [chr "]"; chr ")"; chr "<"; LF; CR] -> c ∉ n.
Proof. intros [_ H] Hc Hn. rewrite Forall_forall in H. by apply (H c Hn). Qed.

Lemma plain_sub l a w b : plain_line l -> l = a ++ w ++ b -> plain_line w.
Proof. intros (H1 & H2 & H3) ->. split; [set_solver|]. split; [set_solver|]. by apply absent_infix in H3. Qed.

Lemma body_lines_plain t l : CR ∉ t -> absent END_MARKER t -> l ∈ lines t -> plain_line l.
Proof. intros Hc He (Hl & a & b & ->)%lines_sub. split; [done|]. split; [set_solver|]. by apply absent_infix in He. Qed.

Lemma entry_title_plain t i : CR ∉ body t -> absent END_MARKER (body t) -> plain_line (entry_title t i).
Proof.
  intros Hc He. unfold entry_title, h1_line. destruct (list_find _ _) as [[k l]|] eqn:E; cbn [fmap option_fmap option_map snd].
  2:{ split; [|split]; [apply (bool_decide_unpack (LF ∉ lit "untitled")); by vm_compute | apply (bool_decide_unpack (CR ∉ lit "untitled")); by vm_compute | by vm_compute]. }
  apply list_find_Some in E as (Hk & _). apply list_elem_of_lookup_2 in Hk. pose proof (body_lines_plain _ _ Hc He Hk) as Hp.
  destruct (trim_prefixes_sub (length l) (lit "# ") l) as (a & Ha). fold (trim_start_matches (lit "# ") l) in Ha.
  destruct (strip_prefix _ _) as [r|] eqn:Es; cbn [default].
  - apply strip_prefix_spec in Es. rewrite Es in Ha. apply (plain_sub l (a ++ lit "Task " ++ i ++ lit ": ") r []); [done|]. rewrite Ha at 1. by rewrite app_nil_r, <- !app_assoc.
  - apply (plain_sub l a _ []); [done|]. by rewrite app_nil_r.
Qed.

Lemma entry_line_plain i name title : is_task_id i = true -> name_ok name -> plain_line title -> plain_line (entry_line i name title).
Proof.
  intros Hi Hn (H1 & H2 & H3). destruct (task_id_chars i Hi) as (_ & _ & _ & _ & Hf). rewrite Forall_forall in Hf.
  assert (Hs : forall c, c ∈ [chr "<"; LF; CR] -> c ∉ i ++ lit ". [" ++ name ++ lit "](" ++ name ++ lit ") " ++ [EM_DASH] ++ lit " ").
  { intros c Hc. assert (c ∉ name) by (apply name_ok_not; [done|set_solver]).
    assert (c ∉ i). { intros Hin. specialize (Hf c Hin). rewrite !elem_of_cons, elem_of_nil in Hc. destruct Hc as [->|[->|[->|[]]]]; vm_compute in Hf; discriminate Hf. }
    rewrite !not_elem_of_app. repeat split; try done; rewrite !elem_of_cons, elem_of_nil in Hc; destruct Hc as [->|[->|[->|[]]]]; apply (bool_decide_unpack (_ ∉ _)); vm_compute; exact I. }
  assert (E : entry_line i name title = (i ++ lit ". [" ++ name ++ lit "](" ++ name ++ lit ") " ++ [EM_DASH] ++ lit " ") ++ title)
    by (unfold entry_line; by rewrite <- !app_assoc).
  rewrite E. split; [|split].
  - intros [H|H]%elem_of_app; [|done]. by apply (Hs LF) in H; [|set_solver].
  - intros [H|H]%elem_of_app; [|done]. by apply (Hs CR) in H; [|set_solver].
  - unfold absent. rewrite (find_behind (chr "<")); [by rewrite H3 | done | apply Hs; set_solver].
Qed.

Lemma new_lines_plain ts names : tasks_ok ts -> Forall plain_line (new_lines ts names).
Proof.
  intros Hts. unfold new_lines. apply Forall_concat, Forall_forall. intros ls (name & _ & H)%list_elem_of_omap.
  destruct (live_task_named ts name) as [t|] eqn:Ht; [|done]. cbn [mbind option_bind] in H. destruct (id t) as [i|] eqn:Hi; [|done]. injection H as <-.
  apply live_task_named_spec in Ht as (Hin & <- & Hl). unfold tasks_ok in Hts. rewrite Forall_forall in Hts. destruct (Hts t Hin) as (Hid & (Hn & Hc & He)%(fun H => H Hl)).
  constructor; [split; [set_solver|]; split; [set_solver | by vm_compute]|]. constructor; [|done]. apply entry_line_plain; [by apply Hid | done | by apply entry_title_plain].
Qed.

Lemma heads_new_lines ts names : tasks_ok ts ->
  heads (new_lines ts names) = omap (fun name => t ← live_task_named ts name; i ← id t; Some (i, name)) names.
Proof.
  intros Hts. unfold new_lines. induction names as [|n names IH]; [done|]. cbn [omap list_omap].
  destruct (live_task_named ts n) as [t|] eqn:Ht; [|done]. cbn [mbind option_bind]. destruct (id t) as [i|] eqn:Hi; [|done].
  cbn [mbind option_bind]. rewrite List.concat_cons. cbn [app]. unfold heads in *. cbn [omap list_omap]. change (parse_entry_head []) with (@None (str * str)). cbn [mbind option_bind].
  apply live_task_named_spec in Ht as (Hin & <- & Hl). unfold tasks_ok in Hts. rewrite Forall_forall in Hts. destruct (Hts t Hin) as (Hid & (Hn & _)%(fun H => H Hl)).
  rewrite entry_line_head; [by rewrite IH | by apply Hid | by destruct Hn | apply name_ok_not; [done|set_solver] ..].
Qed.

(** The open tasks without a live entry among some lines. *)
Definition entry_names (ts : list TaskFile) (ls : list str) : list str :=
  (fun h => last_part (chr "/") (snd h)) <$> filter (fun h => entry_live ts h = true) (heads ls).
Definition missing (ts : list TaskFile) (ls : list str) : list str :=
  filter (fun n => n ∉ entry_names ts ls) (open_names ts).

(** The lines that [--fix] leaves in the region. *)
Definition fixed_lines (ts : list TaskFile) (ls : list str) : list str :=
  survivors ts true ls ++ new_lines ts (missing ts ls).

Lemma fix_text_spec ts pre region tl :
  exists added, fix_text ts (pre ++ BEGIN_MARKER ++ region ++ END_MARKER ++ tl) (length pre) (length pre + length BEGIN_MARKER + length region)
    = Ok (dead ts (lines region), added,
          pre ++ BEGIN_MARKER ++ unlines (ends_with_char LF region) (fixed_lines ts (lines region)) ++ END_MARKER ++ tl)
    /\ (added = [] <-> missing ts (lines region) = []).
Proof.
  unfold fix_text. destruct (region_parts pre region tl BEGIN_MARKER END_MARKER) as (-> & -> & ->).
  destruct (fix_blocks_spec ts (length (lines region)) (lines region) (mk_FixState [] [] [])) as (k & -> & Hk); [lia|].
  cbn [mbind res_bind rebuilt dropped kept app] in *.
  destruct (add_missing_spec ts k (open_names ts)) as (added & E & Ha).
  { apply Forall_forall. intros n Hn. by apply elem_of_open_names. }
  fold (open_names ts). rewrite E. cbn [mbind res_bind].
  assert (filter (fun n => n ∉ k) (open_names ts) = missing ts (lines region)) as Em.
  { apply list_filter_iff. intros n. apply not_iff_compat. rewrite Hk. unfold entry_names. rewrite list_elem_of_fmap. split.
    - intros [?%elem_of_nil|(h & ? & ? & ->)]; [done|]. exists h. by rewrite list_elem_of_filter.
    - intros (h & -> & [? ?]%list_elem_of_filter). right. by exists h. }
  rewrite Em in *. exists added. split; [|done]. unfold unlines, fixed_lines.
  destruct (ends_with_char LF region); rewrite ?app_nil_r, <- ?app_assoc; done.
Qed.

Lemma lines_tail_heads ls ls' i j : ls ++ replicate i [] = ls' ++ replicate j [] -> heads ls = heads ls'.
Proof.
  assert (H : forall l n, heads (l ++ replicate n []) = heads l).
  { intros l n. unfold heads. rewrite omap_app. replace (omap parse_entry_head (replicate n [])) with (@nil (str * str)); [by rewrite app_nil_r|].
    induction n as [|n IH]; [done|]. cbn [replicate omap list_omap]. by rewrite <- IH. }
  intros E. by rewrite <- (H ls i), E, H.
Qed.

Lemma base_base t : last_part (chr "/") (base t) = base t.
Proof. apply last_part_whole, last_part_no_sep. Qed.

(** The entries of fixed lines are those of live tasks, and every open task
    with an id has one. *)
Lemma fixed_heads ts ls : tasks_ok ts ->
  Forall (fun h => entry_live ts h = true) (heads (fixed_lines ts ls)) /\
  forall t, t ∈ ts -> is_live_open t = true -> (exists t', live_task_named ts (base t) = Some t' /\ is_Some (id t')) ->
    base t ∈ entry_names ts (fixed_lines ts ls).
Proof.
  intros Hts. unfold fixed_lines, entry_names. unfold heads. rewrite omap_app. fold (heads (survivors ts true ls)) (heads (new_lines ts (missing ts ls))).
  rewrite heads_survivors, heads_new_lines by done. split.
  - apply Forall_app. split; [apply Forall_forall; by intros h [Hh _]%list_elem_of_filter|].
    apply Forall_forall. intros [i n] (name & Hn & H)%list_elem_of_omap. destruct (live_task_named ts name) as [t|] eqn:Ht; [|done].
    cbn [mbind option_bind] in H. destruct (id t); [|done]. injection H as -> ->. unfold entry_live. cbn [snd].
    pose proof (live_task_named_spec _ _ _ Ht) as (_ & <- & _). rewrite base_base, Ht. by rewrite bool_decide_eq_true_2.
  - intros t Hin Hl (t' & Ht' & (i & Hi)). rewrite filter_app, fmap_app, elem_of_app.
    destruct (decide (base t ∈ entry_names ts ls)) as [Hy|Hn].
    + left. unfold entry_names in Hy. rewrite list_elem_of_fmap in *. setoid_rewrite list_elem_of_filter. setoid_rewrite list_elem_of_filter in Hy.
      destruct Hy as (h & -> & Hh & Hhl). exists h. by rewrite list_elem_of_filter.
    + right. apply list_elem_of_fmap. exists (i, base t). cbn [snd]. rewrite base_base. split; [done|].
      apply list_elem_of_filter. split.
      * unfold entry_live. cbn [snd]. rewrite base_base, Ht'. by rewrite bool_decide_eq_true_2.
      * apply list_elem_of_omap. exists (base t). split; [|by rewrite Ht'; cbn; rewrite Hi].
        apply list_elem_of_filter. split; [done|]. apply elem_of_open_names. by rewrite Ht'.
Qed.

(** ** The fixed region, read again *)

Definition fixed_region (ts : list TaskFile) (region : str) : str :=
  unlines (ends_with_char LF region) (fixed_lines ts (lines region)).

Section Again.
Context (ts : list TaskFile) (region : str).
Context (Hts : tasks_ok ts) (Hc : CR ∉ region) (He : absent END_MARKER region).

Lemma fixed_lines_plain : Forall plain_line (fixed_lines ts (lines region)).
Proof using Hts Hc He.
  unfold fixed_lines. apply Forall_app. split; [|by apply new_lines_plain].
  apply Forall_forall. intros l Hl. apply (body_lines_plain region); [done..|].
  eapply elem_of_submseteq; [exact Hl|]. apply sublist_submseteq, survivors_sublist.
Qed.

Lemma fixed_region_plain : CR ∉ fixed_region ts region /\ absent END_MARKER (fixed_region ts region).
Proof using Hts Hc He.
  unfold fixed_region. pose proof fixed_lines_plain as H. split.
  - generalize dependent (fixed_lines ts (lines region)). intros ls H.
    assert (CR ∉ join [LF] ls); [|unfold unlines; destruct (ends_with_char LF region); set_solver].
    induction H as [|l ls (_ & Hl & _) H IH]; cbn [join]; [set_solver|]. destruct ls; set_solver.
  - apply absent_unlines; [done | apply (bool_decide_unpack (LF ∉ END_MARKER)); by vm_compute |].
    eapply Forall_impl; [exact H|]. by intros l (_ & _ & ?).
Qed.

Lemma fixed_region_lines : exists i j, lines (fixed_region ts region) ++ replicate i [] = fixed_lines ts (lines region) ++ replicate j [].
Proof using Hts Hc He.
  apply lines_unlines. eapply Forall_impl; [exact fixed_lines_plain|]. by intros l (? & ? & _).
Qed.

Lemma fixed_region_heads : heads (lines (fixed_region ts region)) = heads (fixed_lines ts (lines region)).
Proof using Hts Hc He. destruct fixed_region_lines as (i & j & E). by eapply lines_tail_heads. Qed.

Lemma fixed_region_entries n t : live_task_named ts n = Some t -> is_Some (id t) -> n ∈ entry_names ts (lines (fixed_region ts region)).
Proof using Hts Hc He.
  intros Ht Hi. pose proof (live_task_named_spec _ _ _ Ht) as (Hin & <- & Hl).
  unfold entry_names. rewrite fixed_region_heads. apply (proj2 (fixed_heads ts (lines region) Hts) t Hin Hl). eauto.
Qed.

(** Fixing a second time changes nothing. *)
Lemma fixed_region_stable : dead ts (lines (fixed_region ts region)) = [] /\ fixed_region ts (fixed_region ts region) = fixed_region ts region.
Proof using Hts Hc He.
  pose proof (proj1 (fixed_heads ts (lines region) Hts)) as Hl. rewrite <- fixed_region_heads in Hl.
  set (R := fixed_region ts region) in *. split.
  - unfold dead. rewrite filter_none; [done|]. intros h Hh. rewrite Forall_forall in Hl. by rewrite (Hl h Hh).
  - unfold fixed_region at 1. unfold fixed_lines. rewrite survivors_all by done.
    assert (new_lines ts (missing ts (lines R)) = []) as ->.
    { unfold new_lines. rewrite (proj2 (omap_none _ _)); [done|]. intros n [Hn (t & Ht)%elem_of_open_names]%list_elem_of_filter.
      rewrite Ht. cbn [mbind option_bind]. destruct (id t) as [i|] eqn:Hi; [|done]. exfalso. apply Hn, (fixed_region_entries n t Ht). by rewrite Hi. }
    rewrite app_nil_r. apply unlines_lines. apply fixed_region_plain.
Qed.
End Again.

(** ** Runs of [--fix] *)

Lemma entries_from_heads ls k : (fun e => (fst (fst e), snd (fst e))) <$> entries_from ls k = heads ls.
Proof.
  revert k. induction ls as [|l ls IH]; intros k; [done|]. cbn [entries_from]. unfold heads in *. cbn [omap list_omap].
  destruct (parse_entry_head l) as [[n f]|]; [|by rewrite IH]. cbn. by rewrite IH.
Qed.

(** The list that is read from a text with a region. *)
Lemma parse_todo_heads pre region tl : absent BEGIN_MARKER pre -> absent END_MARKER pre -> absent END_MARKER region ->
  (fun e => (fst (fst e), snd (fst e))) <$> parse_todo_list (pre ++ BEGIN_MARKER ++ region ++ END_MARKER ++ tl) = heads (lines region).
Proof.
  intros H1 H2 H3. unfold parse_todo_list. rewrite region_join by done. destruct (region_parts pre region tl BEGIN_MARKER END_MARKER) as (_ & -> & _).
  apply entries_from_heads.
Qed.

Definition set_todo (d : TasksDir) (text : str) : TasksDir := mk_TasksDir (top d) (done_dir d) (Val text) (todo_write d) (todo_path d).

(** A run of [--fix] over a tree without malformed files. *)
Lemma fix_run `{StrDebug} d tree pre region tl :
  load d = Val tree -> todo d = Val (pre ++ BEGIN_MARKER ++ region ++ END_MARKER ++ tl) -> todo_write d = Val tt ->
  absent BEGIN_MARKER pre -> absent END_MARKER pre -> absent END_MARKER region -> CR ∉ region ->
  Forall (fun t => malformed t = []) (tasks tree) -> Forall lines_fit (tasks tree) ->
  exists o, run_on d true = Ok o /\ ends o = Val tt /\
    let new := pre ++ BEGIN_MARKER ++ fixed_region (tasks tree) region ++ END_MARKER ++ tl in
    (written o = Some new \/ written o = None /\ fixed_region (tasks tree) region = region).
Proof.
  intros Hload Htodo Hw H1 H2 H3 Hc Hm Hf. unfold run_on, fix_. rewrite Hload.
  destruct (file_findings_total tree Hf) as (fs & -> & H0). cbn [mbind res_bind]. rewrite (H0 Hm). cbn [Z.ltb Z.compare].
  rewrite Htodo, region_join by done. destruct (fix_text_spec (tasks tree) pre region tl) as (added & -> & Ha). cbn [mbind res_bind].
  destruct (bool_decide (dead _ _ = []) && bool_decide (added = [])) eqn:E.
  - eexists. split; [done|]. split; [done|]. right. split; [done|]. apply andb_true_iff in E as [Ed%bool_decide_eq_true Ea%bool_decide_eq_true].
    apply Ha in Ea. unfold fixed_region, fixed_lines. rewrite Ea. unfold new_lines. cbn [omap list_omap concat]. rewrite app_nil_r, survivors_all; [by apply unlines_lines|].
    apply Forall_forall. intros h Hh. destruct (entry_live _ h) eqn:El; [done|]. unfold dead in Ed.
    apply fmap_nil_inv in Ed. exfalso. apply (filter_nil_not_elem_of (fun h => entry_live (tasks tree) h = false) (heads (lines region)) h Ed El Hh).
  - rewrite Hw. eexists. split; [done|]. split; [done|]. by left.
Qed.

(** [--fix] reads the same task files whatever [todo.md] holds. *)
Lemma load_set_todo `{StrDebug} d tree text : load d = Val tree -> exists tree', load (set_todo d text) = Val tree' /\ tasks tree' = tasks tree.
Proof.
  unfold load, set_todo. cbn [top done_dir todo]. destruct (scan (top d) _ _); [|done]. destruct (scan (done_dir d) _ _); [|done].
  intros [= <-]. eexists. by split.
Qed.

(** C16: [xtask tasks --fix] on a tree of well-formed task files, with the markers
    in [todo.md]: the run succeeds, and the text it leaves is the old one with
    only the region between the markers changed; the region's lines are those of
    the one pass [survivors] (an entry of a task that is done or gone goes with
    its block, every other line stays, in order) followed by entries for the open
    tasks that had none.  Afterwards every entry that is read from the list names
    an open or parked task, every such task with an id is listed, and a second run
    leaves the text as it is. *)
Theorem fix_reconciles `{StrDebug} d tree text b e :
  load d = Val tree -> todo d = Val text -> todo_region text = Some (b, e) -> todo_write d = Val tt ->
  Forall (fun t => malformed t = []) (tasks tree) -> Forall lines_fit (tasks tree) -> Forall live_ok (tasks tree) ->
  CR ∉ text ->
  exists o, run_on d true = Ok o /\ ends o = Val tt /\
    let text' := default text (written o) in
    (exists pre region region' tl i j,
      text = pre ++ BEGIN_MARKER ++ region ++ END_MARKER ++ tl /\ b = length pre /\
      text' = pre ++ BEGIN_MARKER ++ region' ++ END_MARKER ++ tl /\
      todo_region text' = Some (b, b + length BEGIN_MARKER + length region')%nat /\
      lines region' ++ replicate i [] =
        survivors (tasks tree) true (lines region) ++ new_lines (tasks tree) (missing (tasks tree) (lines region)) ++ replicate j []) /\
    (forall num file l, (num, file, l) ∈ parse_todo_list text' -> is_Some (live_task_named (tasks tree) (last_part (chr "/") file))) /\
    (forall n t, live_task_named (tasks tree) n = Some t -> is_Some (id t) ->
      exists num file l, (num, file, l) ∈ parse_todo_list text' /\ last_part (chr "/") file = n) /\
    exists o', run_on (set_todo d text') true = Ok o' /\ ends o' = Val tt /\ default text' (written o') = text'.
Proof.
  intros Hload Htodo Hreg Hw Hm Hf Hlive Hcr.
  destruct (region_split _ _ _ Hreg) as (pre & region & tl & Et & Hb & _ & H1 & H2 & H3).
  assert (Hc : CR ∉ region) by (subst text; set_solver).
  assert (Hts : tasks_ok (tasks tree)).
  { pose proof (load_tasks_typed _ _ Hload) as Ht. unfold tasks_ok. rewrite Forall_forall in *. intros t Hin.
    split; [|by apply Hlive]. destruct (Ht t Hin) as [Hty _]. unfold task_typed in Hty. rewrite (Hm t Hin) in Hty. by destruct Hty. }
  destruct (fixed_region_plain _ _ Hts Hc H3) as [Hc' H3']. set (R := fixed_region (tasks tree) region) in *.
  rewrite Et in Htodo. destruct (fix_run d tree pre region tl) as (o & Ho & Hend & Hwr); try done.
  exists o. split; [done|]. split; [done|]. cbn zeta.
  assert (Htx : default text (written o) = pre ++ BEGIN_MARKER ++ R ++ END_MARKER ++ tl).
  { destruct Hwr as [-> | [-> E]]; [done|]. cbn. fold R in E. by rewrite E. }
  rewrite Htx. pose proof (parse_todo_heads pre R tl H1 H2 H3') as Hh.
  pose proof (proj1 (fixed_heads (tasks tree) (lines region) Hts)) as Hl. rewrite <- (fixed_region_heads _ _ Hts Hc H3) in Hl. fold R in Hl.
  split; [|split; [|split]].
  - destruct (fixed_region_lines _ _ Hts Hc H3) as (i & j & E). exists pre, region, R, tl, i, j. split; [done|]. split; [done|]. split; [done|].
    split; [rewrite region_join by done; by subst b|]. unfold fixed_lines in E. by rewrite <- app_assoc in E.
  - intros num file l Hin. rewrite Forall_forall in Hl. specialize (Hl (num, file)). rewrite <- Hh in Hl.
    apply (bool_decide_eq_true (is_Some _)), Hl. apply list_elem_of_fmap. by exists (num, file, l).
  - intros n t Hn Hi. pose proof (fixed_region_entries _ _ Hts Hc H3 n t Hn Hi) as He. unfold entry_names in He. fold R in He. rewrite <- Hh in He.
    apply list_elem_of_fmap in He as (h & -> & (_ & ([[num file] l] & -> & Hin)%list_elem_of_fmap)%list_elem_of_filter). by exists num, file, l.
  - destruct (load_set_todo d tree (pre ++ BEGIN_MARKER ++ R ++ END_MARKER ++ tl) Hload) as (tree' & Hl' & Et').
    destruct (fix_run (set_todo d (pre ++ BEGIN_MARKER ++ R ++ END_MARKER ++ tl)) tree' pre R tl) as (o' & Ho' & Hend' & Hwr'); try done; rewrite ?Et'; try done.
    exists o'. split; [done|]. split; [done|]. rewrite Et' in Hwr'. unfold R in Hwr' at 1. rewrite (proj2 (fixed_region_stable _ _ Hts Hc H3)) in Hwr'. fold R in Hwr'.
    by destruct Hwr' as [-> | [-> _]].
Qed.

(** ** The index check *)

Definition id_pairs (ts : list TaskFile) : list (str * str) := omap (fun t => i ← id t; Some (i, rel t)) ts.

Lemma elem_of_id_pairs ts i r : (i, r) ∈ id_pairs ts <-> exists t, t ∈ ts /\ id t = Some i /\ rel t = r.
Proof.
  unfold id_pairs. rewrite list_elem_of_omap. split; intros (t & Hin & H); exists t; (split; [done|]).
  - destruct (id t); naive_solver.
  - destruct H as [-> <-]. done.
Qed.

Lemma claims_group ts m : foldl claim m ts = group fst [] (fun p => bset_insert (snd p)) m (id_pairs ts).
Proof.
  revert m. induction ts as [|t ts IH]; intros m; [done|]. cbn [foldl]. rewrite IH. unfold claim, id_pairs. cbn [omap list_omap].
  by destruct (id t).
Qed.

(** The files that claim an id. *)
Lemma claims_spec ts i fs : bt_get i (foldl claim [] ts) = Some fs ->
  NoDup fs /\ (exists r, r ∈ fs) /\ forall r, r ∈ fs <-> exists t, t ∈ ts /\ id t = Some i /\ rel t = r.
Proof.
  rewrite claims_group, group_get. set (ys := filter _ _).
  assert (Hys : forall r, (i, r) ∈ ys <-> exists t, t ∈ ts /\ id t = Some i /\ rel t = r).
  { intros r. unfold ys. rewrite list_elem_of_filter, elem_of_id_pairs. naive_solver. }
  assert (Hk : Forall (fun p => fst p = i) ys) by (apply Forall_forall; by intros p [? _]%list_elem_of_filter).
  clearbody ys. cbn [bt_get default]. intros H.
  assert (E : foldl (fun v p => bset_insert (snd p) v) [] ys = bset (snd <$> ys)).
  { unfold bset. generalize (@nil str). clear. induction ys as [|y ys IH]; intros l; cbn; [done|apply IH]. }
  assert (fs = bset (snd <$> ys) /\ ys <> []) as [-> Hn] by (destruct ys; [done|]; injection H as <-; by rewrite <- E).
  split; [apply NoDup_bset|]. split.
  - destruct ys as [|[k r] ys]; [done|]. exists r. rewrite elem_of_bset. set_solver.
  - intros r. rewrite <- Hys, elem_of_bset, list_elem_of_fmap. split.
    + intros ([k r'] & -> & Hin). rewrite Forall_forall in Hk. by rewrite <- (Hk _ Hin) at 1.
    + intros Hin. by exists (i, r).
Qed.

Lemma claims_exist ts i t : t ∈ ts -> id t = Some i -> is_Some (bt_get i (foldl claim [] ts)).
Proof.
  intros Hin Hi. rewrite claims_group, group_get. assert ((i, rel t) ∈ filter (fun x => fst x = i) (id_pairs ts)) as H.
  { apply list_elem_of_filter. split; [done|]. apply elem_of_id_pairs. by exists t. }
  destruct (filter _ _); [set_solver|by eexists].
Qed.

Lemma claims_NoDup ts : NoDup (fst <$> foldl claim [] ts).
Proof. rewrite claims_group. apply group_NoDup, NoDup_nil_2. Qed.

Lemma NoDup_long {A} (l : list A) : NoDup l -> 1 < len l <-> exists x y, x ∈ l /\ y ∈ l /\ x <> y.
Proof.
  intros H. destruct l as [|x [|y l]].
  - split; [unfold len; cbn; lia|]. intros (x & y & Hx & _). set_solver.
  - split; [unfold len; cbn; lia|]. intros (x' & y' & Hx & Hy & Hne). set_solver.
  - split; [|unfold len; cbn; lia]. intros _. exists x, y. apply NoDup_cons in H as [H _]. set_solver.
Qed.

Definition one_id_each (ts : list TaskFile) : Prop :=
  forall t t' i, t ∈ ts -> t' ∈ ts -> id t = Some i -> id t' = Some i -> rel t = rel t'.

Lemma claim_findings_none ts : claim_findings (foldl claim [] ts) = [] <-> one_id_each ts.
Proof.
  unfold claim_findings. rewrite omap_none. split.
  - intros H t t' i Hin Hin' Hi Hi'. destruct (claims_exist ts i t Hin Hi) as (fs & Hfs). destruct (claims_spec ts i fs Hfs) as (Hn & _ & Hr).
    specialize (H (i, fs)). rewrite bt_get_elem in H by apply claims_NoDup. specialize (H Hfs). cbn in H.
    destruct (Z.ltb_spec 1 (len fs)) as [|Hle]; [done|]. destruct (decide (rel t = rel t')) as [|N]; [done|]. exfalso.
    assert (1 < len fs); [|lia]. apply NoDup_long; [done|]. exists (rel t), (rel t'). split; [apply Hr; by exists t|]. split; [apply Hr; by exists t' | done].
  - intros H [i fs]. rewrite bt_get_elem by apply claims_NoDup. intros (Hn & _ & Hr)%claims_spec.
    destruct (Z.ltb_spec 1 (len fs)) as [Hlt|]; [|done]. exfalso. apply NoDup_long in Hlt as (x & y & Hx & Hy & N); [|done].
    apply Hr in Hx as (t & Ht & Hi & <-). apply Hr in Hy as (t' & Ht' & Hi' & <-). apply N. by apply (H t t' i).
Qed.

Definition no_shadow (ts : list TaskFile) : Prop :=
  forall t t', t ∈ ts -> t' ∈ ts -> in_done_dir t = false -> in_done_dir t' = true -> base t <> base t'.

Lemma shadow_findings_none ts : shadow_findings ts = [] <-> no_shadow ts.
Proof.
  unfold shadow_findings. rewrite omap_none. split.
  - intros H t t' Ht Ht' Hd Hd' E. specialize (H t' Ht'). rewrite Hd' in H. cbn [andb] in H. case_bool_decide as Hb; [done|]. apply Hb.
    rewrite elem_of_bset. apply list_elem_of_fmap. exists t. split; [done|]. by apply list_elem_of_filter.
  - intros H t' Ht'. destruct (in_done_dir t') eqn:Hd'; [|done]. cbn [andb]. case_bool_decide as Hb; [|done]. exfalso.
    rewrite elem_of_bset in Hb. apply list_elem_of_fmap in Hb as (t & E & [Hd Ht]%list_elem_of_filter). by apply (H t t').
Qed.

Definition numbers_agree (tree : Tree) : Prop :=
  forall num file l t, (num, file, l) ∈ listed tree -> t ∈ tasks tree -> id t = Some num -> base t = last_part (chr "/") file.

Lemma entry_claim_none tree : id_claims tree = foldl claim [] (tasks tree) -> one_id_each (tasks tree) ->
  entry_claim_findings tree = [] <-> numbers_agree tree.
Proof.
  intros Hc H1. unfold entry_claim_findings. rewrite omap_none, Hc. split.
  - intros H num file l t Hin Ht Hi. specialize (H _ Hin). cbn in H. destruct (claims_exist _ _ _ Ht Hi) as (fs & Hfs). rewrite Hfs in H.
    case_bool_decide as Hb; [|done]. apply list_elem_of_In, in_map_iff in Hb as (r & Hr & Hin'%list_elem_of_In).
    apply (claims_spec _ _ _ Hfs) in Hin' as (t' & Ht' & Hi' & <-). unfold base. by rewrite (H1 t t' num).
  - intros H [[num file] l] Hin. destruct (bt_get num _) as [fs|] eqn:Hfs; [|done].
    rewrite bool_decide_eq_true_2; [done|]. destruct (claims_spec _ _ _ Hfs) as (_ & (r & Hr) & Hs). pose proof Hr as (t & Ht & Hi & <-)%Hs.
    apply list_elem_of_In, in_map_iff. exists (rel t). split; [by apply (H num file l t) | by apply list_elem_of_In].
Qed.

Lemma numbers_group (l : list (str * str * Z)) (m : list (str * list Z)) : foldl (fun m '(num, _, line) => bt_entry num [] (fun ls => ls ++ [line]) m) m l
  = group (fun e => fst (fst e)) [] (fun e ls => ls ++ [snd e]) m l.
Proof. revert m. induction l as [|[[n f] k] l IH]; intros m; cbn; [done|apply IH]. Qed.

Lemma by_file_group (l : list (str * str * Z)) (m : list (str * list (str * Z))) : foldl (fun m '(num, file, line) => bt_entry file [] (fun ls => ls ++ [(num, line)]) m) m l
  = group (fun e => snd (fst e)) [] (fun e ls => ls ++ [(fst (fst e), snd e)]) m l.
Proof. revert m. induction l as [|[[n f] k] l IH]; intros m; cbn; [done|apply IH]. Qed.

(** A group has as many values as there are elements with its key. *)
Lemma group_sizes {A B} (key : A -> str) (g : A -> B) xs (f : str * list B -> option Finding) :
  (forall k vs, f (k, vs) = None <-> len vs <= 1) ->
  omap f (group key [] (fun x vs => vs ++ [g x]) [] xs) = [] <-> NoDup (key <$> xs).
Proof.
  intros Hf. rewrite omap_none, NoDup_group.
  assert (Hl : forall ys vs, foldl (fun v x => v ++ [g x]) vs ys = vs ++ (g <$> ys)).
  { induction ys as [|y ys IH]; intros vs; cbn; [by rewrite app_nil_r|]. by rewrite IH, <- app_assoc. }
  split.
  - intros H k. pose proof (group_get key [] (fun x vs => vs ++ [g x]) k xs []) as E. destruct (filter _ _) as [|y ys] eqn:Ey; [cbn; lia|].
    cbn [bt_get default] in E. rewrite Hl in E. apply bt_get_elem in E; [|apply group_NoDup, NoDup_nil_2]. apply H, Hf in E. unfold len in E. cbn in *. rewrite ?length_fmap in E. lia.
  - intros H [k vs]. rewrite bt_get_elem by apply group_NoDup, NoDup_nil_2. rewrite group_get. specialize (H k). destruct (filter _ _) as [|y ys]; [done|].
    cbn [bt_get default]. rewrite Hl. intros [= <-]. apply Hf. unfold len. cbn in *. rewrite ?length_fmap. lia.
Qed.

Lemma number_findings_none l : number_findings l = [] <-> NoDup ((fun e => fst (fst e)) <$> l).
Proof.
  unfold number_findings, numbers. rewrite numbers_group. apply group_sizes. intros k vs. destruct (Z.ltb_spec 1 (len vs)); split; (done || lia).
Qed.

Lemma twice_findings_none l : twice_findings l = [] <-> NoDup ((fun e => snd (fst e)) <$> l).
Proof.
  unfold twice_findings, by_file. rewrite by_file_group. apply (group_sizes (fun e : str * str * Z => snd (fst e)) (fun e => (fst (fst e), snd e))).
  intros k vs. destruct (Z.ltb_spec 1 (len vs)); split; (done || lia).
Qed.

(** A task that the list must have. *)
Definition unfinished (t : TaskFile) : Prop := in_done_dir t = false /\ status t <> [] /\ status t <> lit "done".

Definition open_listed (tree : Tree) : Prop :=
  forall t, t ∈ tasks tree -> unfinished t -> exists num l, (num, base t, l) ∈ listed tree.

Lemma unlisted_none tree : unlisted_findings tree = [] <-> open_listed tree.
Proof.
  unfold unlisted_findings. rewrite omap_none. split.
  - intros H t Ht (H1 & H2 & H3). specialize (H t Ht). rewrite H1, !(bool_decide_eq_false_2 (status t = _)) in H by done. cbn [orb] in H.
    case_bool_decide as Hb; [|done]. rewrite elem_of_bset in Hb. apply list_elem_of_fmap in Hb as ([[num file] l] & E & Hin). cbn in E. subst. by exists num, l.
  - intros H t Ht. destruct (in_done_dir t) eqn:H1; [done|]. cbn [orb]. case_bool_decide as H2; [done|]. case_bool_decide as H3; [done|]. cbn [orb].
    rewrite bool_decide_eq_true_2; [done|]. destruct (H t Ht) as (num & l & Hin); [done|]. rewrite elem_of_bset. apply list_elem_of_fmap. by exists (num, base t, l).
Qed.

Definition listed_open (tree : Tree) : Prop :=
  forall num file l, (num, file, l) ∈ listed tree -> exists t, t ∈ tasks tree /\ base t = file /\ in_done_dir t = false /\ status t <> lit "done".

(** A directory has one file of a name. *)
Definition names_unique (ts : list TaskFile) : Prop :=
  forall t t', t ∈ ts -> t' ∈ ts -> in_done_dir t = in_done_dir t' -> base t = base t' -> t = t'.

Lemma stale_none tree : names_unique (tasks tree) -> no_shadow (tasks tree) -> stale_findings tree = [] <-> listed_open tree.
Proof.
  intros Hu Hs. unfold stale_findings. rewrite omap_none. split.
  - intros H num file l Hin. specialize (H _ Hin). cbn in H. destruct (list_find _ _) as [[k t]|] eqn:E; [|done].
    apply list_find_Some in E as (Hk & Hb & _). apply list_elem_of_lookup_2 in Hk. exists t. split; [done|]. split; [done|].
    destruct (in_done_dir t); [done|]. cbn [orb] in H. by case_bool_decide.
  - intros H [[num file] l] Hin. destruct (H _ _ _ Hin) as (t & Ht & <- & Hd & Hst). destruct (list_find _ _) as [[k t']|] eqn:E.
    + apply list_find_Some in E as (Hk & Hb & _). apply list_elem_of_lookup_2 in Hk. destruct (in_done_dir t') eqn:Hd'; [exfalso; by apply (Hs t t')|].
      assert (t' = t) as -> by (apply Hu; congruence). cbn [orb]. by rewrite bool_decide_eq_false_2.
    + apply list_find_None in E. rewrite Forall_forall in E. by destruct (E t Ht).
Qed.

(** What the index check stands for. *)
Record consistent (tree : Tree) : Prop := {
  cs_ids : one_id_each (tasks tree);
  cs_shadow : no_shadow (tasks tree);
  cs_marked : todo_marked tree = true;
  cs_agree : numbers_agree tree;
  cs_numbers : NoDup ((fun e => fst (fst e)) <$> listed tree);
  cs_files : NoDup ((fun e => snd (fst e)) <$> listed tree);
  cs_open : open_listed tree;
  cs_listed : listed_open tree
}.

(** C22: the index check of [xtask tasks --check] is exact: it reports nothing if
    and only if the tree is consistent: no id belongs to two files, no name is
    both live and done, [todo.md] has its markers, no number and no file is
    listed twice, a number that is an id is listed with that id's file, every
    unfinished task is listed, and every entry names an unfinished task. *)
Theorem index_check_exact `{StrDebug} d tree : load d = Val tree -> names_unique (tasks tree) ->
  index_findings tree = [] <-> consistent tree.
Proof.
  intros (ts1 & ts2 & _ & _ & Hts & Hc & _)%load_inv Hu. rewrite <- Hts in Hc. unfold index_findings. rewrite Hc. split.
  - intros [H1%claim_findings_none [H2%shadow_findings_none Hr]%app_nil]%app_nil. destruct (todo_marked tree) eqn:Hm; [|done]. cbn [negb] in Hr.
    apply app_nil in Hr as [H3%entry_claim_none [H4%number_findings_none [H5%twice_findings_none [H6%unlisted_none H7]%app_nil]%app_nil]%app_nil]; [|done..].
    apply stale_none in H7; [|done..]. by split.
  - intros [H1 H2 H3 H4 H5 H6 H7 H8]. rewrite (proj2 (claim_findings_none _) H1), (proj2 (shadow_findings_none _) H2), H3. cbn [negb app].
    rewrite (proj2 (entry_claim_none _ Hc H1) H4), (proj2 (number_findings_none _) H5), (proj2 (twice_findings_none _) H6), (proj2 (unlisted_none _) H7).
    by rewrite (proj2 (stale_none _ Hu H2) H8).
Qed.

(** C32: loading gives every task file a type: either it is malformed, with at
    least one error and no values at all, or it has no error, a status of [open],
    [parked] or [done], and an id, dependencies and commit in their formats; files
    of [done/] are marked as such by their path. *)
Theorem load_well_typed `{StrDebug} d tree : load d = Val tree ->
  Forall (fun t => task_typed t /\ task_placed t) (tasks tree).
Proof. apply load_tasks_typed. Qed.

(** ** The place of a reference *)

Lemma split_inclusive_suffix t k : split_inclusive (concat (drop k (split_inclusive t))) = drop k (split_inclusive t).
Proof.
  revert t k. refine (text_lines_ind _ _ _ _).
  - intros k. cbn [split_inclusive]. rewrite drop_nil. done.
  - intros a H Hn [|k]; rewrite (split_inclusive_last a) by done; cbn [drop]; [cbn; rewrite app_nil_r; by apply split_inclusive_last | by rewrite drop_nil].
  - intros a r H IH [|k]; rewrite (split_inclusive_line a r) by done; cbn [drop]; [|apply IH].
    rewrite List.concat_cons, <- app_assoc. cbn [app]. rewrite split_inclusive_line by done. f_equal. apply (IH 0%nat).
Qed.

(** The scan stops behind the line of the closing fence. *)
Lemma scan_block_spec first raws start block block' n : scan_block first raws start block = Some (block', n) ->
  exists k, (k < length raws)%nat /\ n = (start + length (concat (take (S k) raws)))%nat /\
    (length block' + (if first then 1 else 0) = length block + k)%nat /\ (if first then 1 <= k else 0 <= k)%nat.
Proof.
  revert first start block. induction raws as [|raw raws IH]; intros first start block; cbn [scan_block]; [done|].
  assert (Hrec : forall b, scan_block false raws (start + length raw) b = Some (block', n) ->
    exists k, (k < length raws)%nat /\ n = (start + length (concat (take (S (S k)) (raw :: raws))))%nat /\ (length block' = length b + k)%nat).
  { intros b (k & Hk & -> & Hl & _)%IH. exists k. split; [done|]. cbn [take]. rewrite !List.concat_cons, !length_app. split; lia. }
  case_bool_decide as E; destruct first.
  - intros (k & Hk & Hn & Hl)%Hrec. exists (S k). cbn [length]. repeat split; [lia|done|lia|lia].
  - intros [= <- <-]. exists 0%nat. cbn. rewrite app_nil_r. repeat split; lia.
  - intros (k & Hk & Hn & Hl)%Hrec. exists (S k). cbn [length]. repeat split; [lia|done|lia|lia].
  - intros (k & Hk & Hn & Hl)%Hrec. exists (S k). rewrite length_app in Hl. cbn [length] in *. repeat split; [lia|done|lia|lia].
Qed.

(** The lines of the file: the header's (two more than the block has), and
    those of the body. *)
Lemma parse_front_matter_lines `{StrDebug} text fm : parse_front_matter text = Some fm ->
  exists hdr, lines text = hdr ++ lines (fm_body fm) /\ 2 <= len hdr /\ fm_header_lines fm = as_u32 (len hdr - 2).
Proof.
  unfold parse_front_matter. destruct (scan_block _ _ _ _) as [[block n]|] eqn:E; [|done]. intros Hfm.
  assert (fm_body fm = drop n text /\ fm_header_lines fm = as_u32 (len block)) as [-> ->].
  { destruct (s_status _); injection Hfm as <-; done. }
  apply scan_block_spec in E as (k & Hk & -> & Hb & Hk1). cbn [length Nat.add] in *. set (raws := split_inclusive text) in *.
  assert (Et : drop (length (concat (take (S k) raws))) text = concat (drop (S k) raws)).
  { rewrite <- (concat_split_inclusive text) at 1. fold raws. rewrite <- (take_drop (S k) raws) at 2. rewrite concat_app. apply drop_app_length. }
  rewrite Et. unfold lines. unfold raws. rewrite split_inclusive_suffix. fold raws. exists (map line_of (take (S k) raws)). split.
  - rewrite <- map_app. by rewrite take_drop.
  - unfold len. rewrite length_map, length_take. split; [lia|]. f_equal. lia.
Qed.

(** Where a loaded file of the top level comes from. *)
Lemma scan_origin `{StrDebug} es dn out ts t : scan_entries dn es out = Val ts -> t ∈ ts -> malformed t = [] ->
  t ∈ out \/ exists name text fm, Entry name true (Val text) ∈ es /\ parse_front_matter text = Some fm /\
    t = into_task_file fm (if dn then lit "done/" ++ name else name) dn.
Proof.
  revert out. induction es as [|e es IH]; intros out; cbn [scan_entries]; [intros [= <-]; by left|].
  destruct (scan_entry dn e) as [[t'|]|] eqn:E; [| |done]; intros Hs Hin Hm.
  - destruct (IH _ Hs Hin Hm) as [[Ho| ->%list_elem_of_singleton]%elem_of_app|(name & text & fm & H1 & H2)]; [by left | | right; exists name, text, fm; split; [by apply list_elem_of_further | done]].
    right. destruct e as [name f text|]; [|done]. cbn [scan_entry] in E. destruct f; [|done]. cbn [negb orb] in E. destruct (negb _); [done|]. destruct (_ && _); [done|].
    destruct text as [text|]; [|injection E as <-; done]. destruct (parse_front_matter text) as [fm|] eqn:Hp; [|injection E as <-; done].
    injection E as <-. exists name, text, fm. split; [by left | done].
  - destruct (IH _ Hs Hin Hm) as [Ho|(name & text & fm & H1 & H2)]; [by left | right; exists name, text, fm; split; [by apply list_elem_of_further | done]].
Qed.

Lemma ref_findings_elem t known refs fs f l i : ref_findings t known refs = Ok fs -> UnresolvedRef f l i ∈ fs ->
  rel t = f /\ i ∉ known /\ exists k, (k, i) ∈ refs /\ l = header_lines t + 2 + k.
Proof.
  revert fs. induction refs as [|[k j] refs IH]; intros fs; cbn [ref_findings]; [intros [= <-]; set_solver|].
  case_bool_decide as Hk.
  - intros E Hin. destruct (IH _ E Hin) as (H1 & H2 & k' & H3 & H4). split; [done|]. split; [done|]. exists k'. split; [by right|done].
  - unfold add32. destruct (_ <? _); [|done]. cbn [mbind res_bind]. destruct (_ <? _); [|done]. cbn [mbind res_bind].
    destruct (ref_findings t known refs) as [fs'| |]; [|done|done]. cbn [mbind res_bind]. intros [= <-] [[= -> -> ->]|Hin]%elem_of_cons.
    + split; [done|]. split; [done|]. exists k. split; [by left|lia].
    + destruct (IH _ eq_refl Hin) as (H1 & H2 & k' & H3 & H4). split; [done|]. split; [done|]. exists k'. split; [by right|done].
Qed.

Lemma one_file_refs tree t fs f l i : one_file_findings tree t = Ok fs -> UnresolvedRef f l i ∈ fs -> l <> 0 ->
  malformed t = [] /\ in_done_dir t = false /\ rel t = f /\ i ∉ known_ids tree /\
  exists rs k, extract_refs (body t) = Ok rs /\ (k, i) ∈ rs /\ l = header_lines t + 2 + k.
Proof.
  unfold one_file_findings.
  assert (Hbad : UnresolvedRef f l i ∉ map (Malformed (rel t)) (malformed t)).
  { intros (x & E & _)%list_elem_of_In%in_map_iff. discriminate E. }
  case_bool_decide as Hm; [|cbn [negb orb]; intros [= <-] Hin; by apply Hbad in Hin]. cbn [negb orb].
  case_bool_decide as Hs; [intros [= <-] Hin; by apply Hbad in Hin|].
  assert (Hoth : UnresolvedRef f l i ∉ status_findings t /\ UnresolvedRef f l i ∉ h1_findings t /\ UnresolvedRef f l i ∉ placement_findings t /\ UnresolvedRef f l i ∉ commit_findings t).
  { unfold status_findings, h1_findings, placement_findings, commit_findings.
    repeat split; repeat (first [case_match | case_bool_decide]); rewrite ?elem_of_app, ?list_elem_of_singleton, ?elem_of_nil; naive_solver. }
  destruct Hoth as (Ho1 & Ho2 & Ho3 & Ho4). destruct (in_done_dir t) eqn:Hd; cbn [mbind res_bind].
  - intros [= <-] Hin. rewrite !elem_of_app in Hin. set_solver.
  - destruct (extract_refs (body t)) as [rs| |] eqn:Er; [|done|done]. cbn [mbind res_bind].
    destruct (ref_findings t (known_ids tree) rs) as [fr| |] eqn:Ef; [|done|done]. cbn [mbind res_bind]. intros [= <-] Hin Hl.
    rewrite !elem_of_app in Hin. destruct Hin as [Hin|[Hin|[Hin|[Hin|[[Hin|Hin]|Hin]]]]]; try done.
    + destruct (ref_findings_elem _ _ _ _ _ _ _ Ef Hin) as (H1 & H2 & k & H3 & H4). repeat split; try done. by exists rs, k.
    + apply list_elem_of_omap in Hin as (j & _ & E). case_bool_decide; [done|]. injection E as -> <- ->. done.
Qed.

Lemma files_refs tree ts fs f l i : files_findings tree ts = Ok fs -> UnresolvedRef f l i ∈ fs ->
  exists t fs', t ∈ ts /\ one_file_findings tree t = Ok fs' /\ UnresolvedRef f l i ∈ fs'.
Proof.
  revert fs. induction ts as [|t ts IH]; intros fs; cbn [files_findings]; [intros [= <-]; set_solver|].
  destruct (one_file_findings tree t) as [f1| |] eqn:E1; [|done|done]. cbn [mbind res_bind].
  destruct (files_findings tree ts) as [f2| |]; [|done|done]. cbn [mbind res_bind]. intros [= <-] [Hin|Hin]%elem_of_app.
  - exists t, f1. split; [by left|done].
  - destruct (IH _ eq_refl Hin) as (t' & fs' & H1 & H2). exists t', fs'. split; [by right|done].
Qed.

(** Texts whose lines 32 bits can number. *)
Definition entry_fits (e : DirEntry) : Prop :=
  match e with Entry _ _ (Val text) => len (lines text) < W32 | _ => True end.

(** An unresolved reference that [--check] reports at a line is really there:
    a file of that name is in the directory, the reported number is that of the
    line in the file (header included, counted from 1), that line contains the
    reported id, and no file and no list entry has the id. *)
Lemma unresolved_refs_located `{StrDebug} d tree fs es f l i :
  load d = Val tree -> top d = Listing es -> Forall entry_fits es ->
  file_findings tree = Ok fs -> UnresolvedRef f l i ∈ fs -> l <> 0 ->
  i ∉ known_ids tree /\
  exists text line a b, Entry f true (Val text) ∈ es /\ lines text !! Z.to_nat (l - 1) = Some line /\ line = a ++ i ++ b.
Proof.
  intros Hload Htop Hfit Hfs Hin Hl. destruct (files_refs _ _ _ _ _ _ Hfs Hin) as (t & fs' & Ht & H1 & Hin').
  destruct (one_file_refs _ _ _ _ _ _ H1 Hin' Hl) as (Hm & Hd & <- & Hk & rs & k & Hr & Hki & ->). split; [done|].
  apply load_inv in Hload as (ts1 & ts2 & S1 & S2 & Ets & _). rewrite Ets in Ht.
  apply scan_typed in S2 as (new & -> & Fn). apply elem_of_app in Ht as [Ht|Ht].
  2:{ rewrite Forall_forall in Fn. destruct (Fn t Ht) as (_ & _ & E). congruence. }
  rewrite Htop in S1. cbn [scan] in S1. destruct (scan_origin _ _ _ _ _ S1 Ht Hm) as [?%elem_of_nil|(name & text & fm & He & Hp & Et)]; [done|].
  cbn in Et. rewrite Forall_forall in Hfit. specialize (Hfit _ He). cbn in Hfit.
  destruct (parse_front_matter_lines _ _ Hp) as (hdr & El & Hh & Hhl).
  assert (body t = fm_body fm /\ header_lines t = fm_header_lines fm /\ rel t = name) as (Eb & Eh & Er).
  { subst t. unfold into_task_file. by destruct (find_status _). }
  rewrite Eb in Hr. destruct (extract_refs_total (fm_body fm)) as (rs' & E' & F). rewrite Hr in E'. injection E' as <-. rewrite Forall_forall in F.
  destruct (F _ Hki) as (_ & k' & line & Hline & Hk' & (_ & _ & a & b & ->)). cbn [fst snd] in *.
  pose proof (lookup_lt_Some _ _ _ Hline) as Hlt. rewrite El in Hfit. unfold len in *. rewrite length_app in Hfit.
  assert (k = Z.of_nat k' + 1) as -> by (rewrite Hk'; unfold as_u32; rewrite Z.mod_small; lia).
  assert (fm_header_lines fm = Z.of_nat (length hdr) - 2) as Hq by (rewrite Hhl; unfold as_u32; rewrite Z.mod_small; lia).
  exists text, (a ++ i ++ b), a, b. rewrite Er. split; [done|]. split; [|done].
  rewrite Eh, Hq, El, lookup_app_r by lia. rewrite <- Hline. f_equal. lia.
Qed.

(** ** The first line *)

Lemma scan_block_shift raws s n b : scan_block false raws (s + n) b = (fun p => (fst p, (s + snd p)%nat)) <$> scan_block false raws n b.
Proof.
  revert n b. induction raws as [|raw raws IH]; intros n b; cbn [scan_block]; [done|].
  case_bool_decide; [cbn; by rewrite Nat.add_assoc|]. by rewrite <- IH, Nat.add_assoc.
Qed.

(** Whatever the first line is, it is taken for the opening fence. *)
Lemma first_line_ignored `{StrDebug} a r : LF ∉ a -> parse_front_matter (a ++ LF :: r) = parse_front_matter (lit "---" ++ LF :: r).
Proof.
  intros Ha. unfold parse_front_matter. rewrite !split_inclusive_line by (done || apply (bool_decide_unpack (LF ∉ lit "---")); by vm_compute).
  assert (Hfirst : forall x, scan_block true ((x ++ [LF]) :: split_inclusive r) 0 [] =
    (fun p => (fst p, (length (x ++ [LF]) + snd p)%nat)) <$> scan_block false (split_inclusive r) 0 []).
  { intros x. rewrite <- scan_block_shift, Nat.add_0_r. cbn [scan_block]. by case_bool_decide. }
  rewrite !Hfirst. destruct (scan_block false _ _ _) as [[block n]|]; [|done]. cbn [fmap option_fmap option_map fst snd].
  assert (Hdrop : forall x, drop (length (x ++ [LF]) + n) (x ++ LF :: r) = drop n r).
  { intros x. change (LF :: r) with ([LF] ++ r). rewrite app_assoc, <- drop_drop, drop_app_length. done. }
  by rewrite !Hdrop.
Qed.

(** ** Front matter, written and read *)

(** A header of keys and values between fences, and a body. *)
Definition kv_line (kv : str * str) : str := fst kv ++ lit ": " ++ snd kv.
Definition render_file (kvs : list (str * str)) (body : str) : str :=
  lit "---" ++ LF :: concat (map (fun kv => kv_line kv ++ [LF]) kvs) ++ lit "---" ++ LF :: body.

Definition deps_of (v : str) : list str := map trim (split (chr ",") v).

(** A value in the format of its key. *)
Definition value_ok (k v : str) : Prop :=
  (k = lit "id" -> is_task_id v = true) /\ (k = lit "status" -> status_word v) /\
  (k ∈ [lit "wave"; lit "issue"] -> is_decimal v = true) /\
  (k = lit "depends-on" -> Forall (fun i => is_task_id i = true) (deps_of v)) /\ (k = lit "commit" -> is_commit_hash v = true).
Definition kv_ok (kv : str * str) : Prop :=
  fst kv ∈ ALLOWED_KEYS /\ LF ∉ snd kv /\ trim (snd kv) = snd kv /\ value_ok (fst kv) (snd kv).

(** What a valid line does to the locals. *)
Definition kv_step (s : FmState) (kv : str * str) : FmState :=
  let '(k, v) := kv in
  mk_FmState (s_errors s) (bset_insert k (s_seen s))
    (if bool_decide (k = lit "id") then Some v else s_id s)
    (if bool_decide (k = lit "status") then Some v else s_status s)
    (if bool_decide (k = lit "depends-on") then s_depends_on s ++ deps_of v else s_depends_on s)
    (if bool_decide (k = lit "commit") then Some v else s_commit s).

Lemma add_depends_fold items s : Forall (fun i => is_task_id i = true) (map trim items) ->
  foldl add_depends s items = mk_FmState (s_errors s) (s_seen s) (s_id s) (s_status s) (s_depends_on s ++ map trim items) (s_commit s).
Proof.
  revert s. induction items as [|x items IH]; intros s H; cbn [foldl map] in *; [destruct s; cbn; by rewrite app_nil_r|].
  apply Forall_cons in H as [Hx H]. rewrite IH by done. unfold add_depends. rewrite Hx. cbn. by rewrite <- app_assoc.
Qed.

Lemma key_cases k : k ∈ ALLOWED_KEYS ->
  k = lit "id" \/ k = lit "status" \/ k = lit "wave" \/ k = lit "depends-on" \/ k = lit "commit" \/ k = lit "issue".
Proof. unfold ALLOWED_KEYS. rewrite !elem_of_cons, elem_of_nil. naive_solver. Qed.

Lemma trim_sp v : trim (lit " " ++ v) = trim v.
Proof. done. Qed.

Lemma fm_line_kv `{StrDebug} s kv : kv_ok kv -> fst kv ∉ s_seen s -> fm_line s (kv_line kv) = kv_step s kv.
Proof.
  destruct kv as [k v]. unfold kv_ok, kv_line. cbn [fst snd]. intros (Hk & _ & Hv & H1 & H2 & H3 & H4 & H5) Hs. unfold fm_line.
  change (lit ": " ++ v) with (lit ":" ++ lit " " ++ v).
  assert (Hcol : chr ":" ∉ k /\ trim k = k).
  { destruct (key_cases k Hk) as [-> | [-> | [-> | [-> | [-> | ->]]]]]; (split; [apply (bool_decide_unpack (chr ":" ∉ _)); vm_compute; exact I | reflexivity]). }
  rewrite split_once_at by (apply find_char_app, Hcol). rewrite (proj2 Hcol), trim_sp, Hv.
  rewrite (bool_decide_eq_false_2 (k ∈ s_seen s)), (bool_decide_eq_true_2 (k ∈ ALLOWED_KEYS)) by done.
  destruct (key_cases k Hk) as [-> | [-> | [-> | [-> | [-> | ->]]]]]; unfold set_key, kv_step.
  all: repeat match goal with
       | |- context [@bool_decide (?x = ?y) ?d] =>
           let b := eval vm_compute in (@bool_decide (x = y) d) in change (@bool_decide (x = y) d) with b
       | |- context [@bool_decide (lit ?k ∈ ?y) ?d] =>
           let b := eval vm_compute in (@bool_decide (lit k ∈ y) d) in change (@bool_decide (lit k ∈ y) d) with b
       end; cbn [andb negb].
  - by rewrite H1.
  - by rewrite bool_decide_eq_true_2 by (by apply H2).
  - by rewrite H3 by set_solver.
  - specialize (H4 eq_refl). unfold deps_of in *. rewrite add_depends_fold by done. done.
  - by rewrite H5.
  - by rewrite H3 by set_solver.
Qed.

(** The locals after a header of valid lines with distinct keys. *)
Lemma fm_fold `{StrDebug} kvs s : Forall kv_ok kvs -> NoDup (fst <$> kvs) -> Forall (fun kv => fst kv ∉ s_seen s) kvs ->
  let r := foldl fm_line s (map kv_line kvs) in
  s_errors r = s_errors s /\
  s_id r = match bt_get (lit "id") kvs with Some v => Some v | None => s_id s end /\
  s_status r = match bt_get (lit "status") kvs with Some v => Some v | None => s_status s end /\
  s_depends_on r = s_depends_on s ++ match bt_get (lit "depends-on") kvs with Some v => deps_of v | None => [] end /\
  s_commit r = match bt_get (lit "commit") kvs with Some v => Some v | None => s_commit s end.
Proof.
  revert s. induction kvs as [|[k v] kvs IH]; intros s Hok Hnd Hs; cbn [foldl map bt_get]; [by rewrite app_nil_r|].
  apply Forall_cons in Hok as [Hkv Hok]. apply NoDup_cons in Hnd as [Hk Hnd]. apply Forall_cons in Hs as [Hks Hs].
  rewrite fm_line_kv by done. destruct (IH (kv_step s (k, v)) Hok Hnd) as (-> & -> & -> & -> & ->).
  { rewrite Forall_forall in *. intros kv' Hin. cbn [kv_step s_seen]. rewrite elem_of_bset_insert. intros [E|E]; [|by apply (Hs kv' Hin)].
    apply Hk. change (k ∈ fst <$> kvs). rewrite <- E. by apply list_elem_of_fmap_2. }
  assert (Hn : forall k', k = k' -> bt_get k' kvs = None) by (intros k' <-; by apply bt_get_None).
  cbn [kv_step s_errors s_id s_status s_depends_on s_commit]. split; [done|].
  repeat split; (case_bool_decide as E; case_bool_decide as E'; try congruence; try (rewrite (Hn _ E)); rewrite ?app_nil_r; try done).
Qed.

Lemma trim_head c t : is_whitespace c = false -> exists w, trim (c :: t) = c :: w.
Proof.
  intros Hc. unfold trim, trim_start. cbn [trim_start_by]. rewrite Hc. cbn [trim_end_by].
  destruct (trim_end_by is_whitespace t); [rewrite Hc|]; by eexists.
Qed.

Lemma kv_line_open kv : kv_ok kv -> LF ∉ kv_line kv /\ trim (kv_line kv) <> lit "---".
Proof.
  destruct kv as [k v]. intros (Hk & Hl & _). unfold kv_line. cbn [fst snd] in *. 
  destruct (key_cases k Hk) as [-> | [-> | [-> | [-> | [-> | ->]]]]]; split.
  all: try (rewrite !not_elem_of_app; repeat split; [apply (bool_decide_unpack (LF ∉ _)); vm_compute; exact I.. | done]).
  all: match goal with |- trim (lit (String ?c ?k) ++ ?r) <> _ =>
         destruct (trim_head (chr c) (lit k ++ r) eq_refl) as (w & E); change (lit (String c k) ++ r) with (chr c :: lit k ++ r); rewrite E; discriminate end.
Qed.

Lemma scan_header kvs body start block : Forall kv_ok kvs ->
  scan_block false (split_inclusive (concat (map (fun kv => kv_line kv ++ [LF]) kvs) ++ lit "---" ++ LF :: body)) start block =
  Some (block ++ map kv_line kvs, (start + length (concat (map (fun kv => kv_line kv ++ [LF]) kvs) ++ lit "---" ++ [LF]))%nat).
Proof.
  revert start block. induction kvs as [|kv kvs IH]; intros start block Hok.
  - cbn [map concat app]. rewrite split_inclusive_line by (apply (bool_decide_unpack (LF ∉ _)); vm_compute; exact I). cbn [scan_block].
    rewrite bool_decide_eq_true_2 by (vm_compute; reflexivity). by rewrite app_nil_r.
  - apply Forall_cons in Hok as [Hkv Hok]. destruct (kv_line_open kv Hkv) as [Hl Ht]. cbn [map]. rewrite List.concat_cons, <- !app_assoc. cbn [app].
    rewrite split_inclusive_line by done. cbn [scan_block].
    assert (trim_end_by (Z.eqb LF) (kv_line kv ++ [LF]) = kv_line kv) as ->.
    { revert Hl. generalize (kv_line kv). clear. intros l. induction l as [|x s IH]; intros Hl; [done|]. cbn [app trim_end_by]. rewrite IH by set_solver.
      destruct s; [|done]. destruct (Z.eqb_spec LF x) as [<-|]; [set_solver|done]. }
    rewrite bool_decide_eq_false_2 by done. rewrite IH by done. f_equal. f_equal; [by rewrite <- app_assoc|].
    rewrite ?length_app; cbn [length]; rewrite ?length_app; cbn [length]; lia.
Qed.

(** Front matter round trip: a file written with any header of allowed keys,
    each once and in any order, with a status and values in their formats, is
    read back without an error as exactly those values, with the body that
    follows the closing fence, and with the number of header lines that turns a
    line of the body into a line of the file. *)
Lemma front_matter_roundtrip `{StrDebug} kvs body :
  Forall kv_ok kvs -> NoDup (fst <$> kvs) -> is_Some (bt_get (lit "status") kvs) ->
  parse_front_matter (render_file kvs body) =
  Some (mk_FrontMatter (bt_get (lit "id") kvs) (bt_get (lit "status") kvs)
          match bt_get (lit "depends-on") kvs with Some v => deps_of v | None => [] end
          (bt_get (lit "commit") kvs) body (as_u32 (len kvs)) []).
Proof.
  intros Hok Hnd (st & Hst). unfold parse_front_matter, render_file.
  rewrite split_inclusive_line by (apply (bool_decide_unpack (LF ∉ _)); vm_compute; exact I). cbn [scan_block].
  rewrite bool_decide_eq_true_2 by (vm_compute; reflexivity). rewrite scan_header by done. cbn [app].
  destruct (fm_fold kvs (mk_FmState [] [] None None [] None) Hok Hnd) as (E1 & E2 & E3 & E4 & E5).
  { apply Forall_forall. intros kv _. cbn. set_solver. }
  cbn [s_errors s_id s_status s_depends_on s_commit app] in *. rewrite Hst in E3. rewrite E3, E1, E2, E3, E4, E5, Hst.
  f_equal. f_equal; [by destruct (bt_get (lit "id") kvs) | by destruct (bt_get (lit "commit") kvs) | |].
  - set (h := concat _). change (0 + length (lit "---" ++ [LF]))%nat with 4%nat. change (lit "---" ++ LF :: h ++ lit "---" ++ LF :: body) with ((lit "---" ++ [LF]) ++ h ++ (lit "---" ++ [LF]) ++ body).
    rewrite <- drop_drop. change 4%nat with (length (lit "---" ++ [LF])). rewrite drop_app_length, (app_assoc h (lit "---" ++ [LF]) body). apply drop_app_length.
  - unfold len. by rewrite length_map.
Qed.

(** ** A directory of tasks *)

Module TkDemo.

#[local] Instance demo_debug : StrDebug := fun t => lit "'" ++ t ++ lit "'".

Definition nl : str := [LF].

(** An open task with an id and a reference nobody answers to, one that is
    listed, one that is done, and the list. *)
Definition a_md : str :=
  lit "---" ++ nl ++ lit "id: 129" ++ nl ++ lit "status: open" ++ nl ++ lit "depends-on: 12" ++ nl ++ lit "---" ++ nl ++
  lit "# Task 129: validate" ++ nl ++ lit "After task 118, Depends on 12, 74b" ++ nl.
Definition b_md : str := lit "---" ++ nl ++ lit "id: 12" ++ nl ++ lit "status: parked" ++ nl ++ lit "---" ++ nl ++ lit "# x" ++ nl.
Definition c_md : str := lit "---" ++ nl ++ lit "id: 74b" ++ nl ++ lit "status: done" ++ nl ++ lit "---" ++ nl.
Definition todo_md : str :=
  lit "log" ++ nl ++ BEGIN_MARKER ++ nl ++ lit "12. [b.md](b.md) - b" ++ nl ++ lit "  note" ++ nl ++
  lit "74b. [c.md](c.md) - c" ++ nl ++ lit "  gone" ++ nl ++ lit "## Later" ++ nl ++ END_MARKER ++ nl.

Definition demo : TasksDir :=
  mk_TasksDir (Listing [Entry (lit "a.md") true (Val a_md); Entry (lit "b.md") true (Val b_md); Entry (lit "todo.md") true (Val todo_md)])
    (Listing [Entry (lit "c.md") true (Val c_md)]) (Val todo_md) (Val tt) (lit "tasks/todo.md").

Definition no_tree : Tree := mk_Tree [] [] [] [] false.
Definition demo_tree : Tree := Eval vm_compute in match load demo with Val t => t | Err _ => no_tree end.

(** The list after [--fix]: the done entry is gone with its note, and the open
    task is listed. *)
Definition todo_fixed : str :=
  lit "log" ++ nl ++ BEGIN_MARKER ++ nl ++ lit "12. [b.md](b.md) - b" ++ nl ++ lit "  note" ++ nl ++ lit "## Later" ++ nl ++ nl ++
  lit "129. [a.md](a.md) " ++ [EM_DASH] ++ lit " validate" ++ nl ++ END_MARKER ++ nl.

Example fix_demo : (written <$> run_on demo true) = Ok (Some todo_fixed).
Proof. vm_compute. reflexivity. Qed.

Lemma demo_loaded : load demo = Val demo_tree.
Proof. vm_compute. reflexivity. Qed.

Lemma fix_reconciles_witness : exists o, run_on demo true = Ok o /\ ends o = Val tt /\
  exists o', run_on (set_todo demo (default todo_md (written o))) true = Ok o'.
Proof.
  destruct (fix_reconciles demo demo_tree todo_md 4 97) as (o & Ho & He & _ & _ & _ & o' & Ho' & _).
  - exact demo_loaded.
  - reflexivity.
  - vm_compute. reflexivity.
  - reflexivity.
  - repeat constructor.
  - repeat constructor; vm_compute; intros Hx; discriminate Hx.
  - repeat (apply Forall_cons; split); [..|by apply Forall_nil]; intros Hl; vm_compute in Hl; try discriminate Hl.
    all: split; [split; [vm_compute; intros Hx; discriminate Hx | apply (bool_decide_unpack (Forall _ _)); vm_compute; exact I]|].
    all: split; [apply (bool_decide_unpack (CR ∉ _)); vm_compute; exact I | vm_compute; reflexivity].
  - apply (bool_decide_unpack (CR ∉ todo_md)); vm_compute; exact I.
  - by exists o; split; [|split; [|exists o']].
Defined.

Definition fixed_tree : Tree := Eval vm_compute in match load (set_todo demo todo_fixed) with Val t => t | Err _ => no_tree end.

Lemma index_check_exact_witness : consistent fixed_tree.
Proof.
  apply (index_check_exact (set_todo demo todo_fixed) fixed_tree).
  - vm_compute. reflexivity.
  - intros t t' Ht Ht'. unfold fixed_tree in Ht, Ht'. cbn [tasks] in Ht, Ht'. rewrite !elem_of_cons, elem_of_nil in Ht, Ht'.
    destruct Ht as [-> | [-> | [-> | []]]], Ht' as [-> | [-> | [-> | []]]]; intros H1 H2; first [reflexivity | vm_compute in H1; discriminate H1 | vm_compute in H2; discriminate H2].
  - vm_compute. reflexivity.
Defined.

Lemma load_well_typed_witness : Forall (fun t => task_typed t /\ task_placed t) (tasks demo_tree).
Proof. apply (load_well_typed demo). exact demo_loaded. Defined.

Example check_demo : file_findings demo_tree = Ok [UnresolvedRef (lit "a.md") 7 (lit "118")].
Proof. vm_compute. reflexivity. Qed.

Definition demo_header : list (str * str) :=
  [(lit "wave", lit "3"); (lit "depends-on", lit "12, 74b"); (lit "status", lit "open"); (lit "id", lit "129")].

(** An entry that names a live task by a path into [done/]: [--fix] keeps it and
    says that the list matches the tree, [--check] reports it. *)
Definition todo_path_entry : str := BEGIN_MARKER ++ nl ++ lit "12. [done/b.md](done/b.md)" ++ nl ++ END_MARKER.
Definition demo_path : TasksDir :=
  mk_TasksDir (Listing [Entry (lit "b.md") true (Val b_md)]) NotDir (Val todo_path_entry) (Val tt) (lit "tasks/todo.md").

Example fix_keeps_done_path :
  (fun o => (written o, ends o)) <$> run_on demo_path true = Ok (None, Val tt) /\
  match load demo_path with Val t => len (index_findings t) | Err _ => 0 end = 2.
Proof. split; vm_compute; reflexivity. Qed.

(** Kept lines lose the carriage returns that end them. *)
Definition crlf_region : str := [CR; LF] ++ lit "a note" ++ [CR; LF].
Example fix_drops_cr : fixed_region [] crlf_region = nl ++ lit "a note" ++ nl.
Proof. vm_compute. reflexivity. Qed.

End TkDemo.

End Tk.
