(* ===== verification/X86.v ===== *)
(** * The x86_64 port: machine data and segment descriptors
      ([x86_64/src/dat.rs], [x86_64/src/vsvm.rs])

    Memory is a function from addresses to bytes, as the hardware sees it; a
    structure is a [repr(C)] layout, from which the offsets the code takes with
    [offset_of!] and the ones the assembly writes as numerals are computed.  A
    descriptor is a word with bit fields ([Pt.get_bits], [Pt.with_bits]), built
    by the constructors of [vsvm.rs] and written into memory. *)

From S2P Require Import Prelude Vm.
From Stdlib Require Import String.
#[local] Open Scope string_scope.
#[local] Open Scope Z_scope.

Module Xd.
#[local] Notation get_bits := Pt.get_bits.
#[local] Notation with_bits := Pt.with_bits.

(** ** Memory *)

Definition mem : Type := Z -> Z.

(** [n] bytes at [a], little-endian. *)
Definition ld (n : nat) (m : mem) (a : Z) : Z := from_le (map m (seqZ a (Z.of_nat n))).

Definition st (n : nat) (a v : Z) (m : mem) : mem := fun x =>
  if (a <=? x) && (x <? a + Z.of_nat n) then (v / 256 ^ (x - a)) mod 256 else m x.

Lemma ld_ext n m m' a : (forall x, a <= x < a + Z.of_nat n -> m x = m' x) -> ld n m a = ld n m' a.
Proof.
  intros H; unfold ld; f_equal; apply map_ext_in; intros x Hx.
  apply H; apply list_elem_of_In, elem_of_seqZ in Hx; lia.
Qed.

Lemma ld_S n m a : ld (S n) m a = m a + 256 * ld n m (a + 1).
Proof. unfold ld; rewrite seqZ_cons by lia; cbn [map from_le].
  by replace (Z.pred (Z.of_nat (S n))) with (Z.of_nat n) by lia; rewrite <- Z.add_1_r. Qed.

Lemma ld_other n n' m a a' v : a + Z.of_nat n <= a' \/ a' + Z.of_nat n' <= a ->
  ld n (st n' a' v m) a = ld n m a.
Proof. intros; apply ld_ext; intros x ?; unfold st.
  by destruct (Z.leb_spec a' x), (Z.ltb_spec x (a' + Z.of_nat n')); simpl; try lia. Qed.

(** Reading a part of what was stored. *)
Lemma ld_part n n' m a a' v : a' <= a -> a + Z.of_nat n <= a' + Z.of_nat n' ->
  ld n (st n' a' v m) a = (v / 256 ^ (a - a')) mod 256 ^ Z.of_nat n.
Proof.
  revert a; induction n as [|n IH]; intros a H1 H2; [by rewrite Z.mod_1_r|].
  rewrite ld_S, IH by lia; unfold st at 1; rewrite (proj2 (Z.leb_le _ _)), (proj2 (Z.ltb_lt _ _)) by lia.
  simpl; replace (a + 1 - a') with (Z.succ (a - a')) by lia.
  rewrite Nat2Z.inj_succ, !Z.pow_succ_r by lia.
  rewrite (Z.mul_comm 256 (256 ^ (a - a'))), <- Z.div_div, Z.rem_mul_r by lia; lia.
Qed.

Lemma ld_same n m a v : 0 <= v < 256 ^ Z.of_nat n -> ld n (st n a v m) a = v.
Proof. intros; rewrite ld_part, Z.sub_diag, Z.div_1_r by lia; by apply Z.mod_small. Qed.

Lemma ld_app n k m a : ld (n + k) m a = ld n m a + 256 ^ Z.of_nat n * ld k m (a + Z.of_nat n).
Proof.
  revert a; induction n as [|n IH]; intros a; [simpl; rewrite Z.add_0_r; unfold ld at 2; simpl; lia|].
  simpl; rewrite !ld_S, IH, Nat2Z.inj_succ, Z.pow_succ_r by lia.
  replace (a + 1 + Z.of_nat n) with (a + Z.succ (Z.of_nat n)) by lia; lia.
Qed.

Definition bytes (m : mem) : Prop := forall x, 0 <= m x < 256.

Lemma st_bytes n a v m : bytes m -> bytes (st n a v m).
Proof. intros H x; unfold st; destruct (_ && _); [apply Z.mod_pos_bound; lia | apply H]. Qed.

Lemma ld_bound n m a : bytes m -> 0 <= ld n m a < 256 ^ Z.of_nat n.
Proof.
  intros H; revert a; induction n as [|n IH]; intros a; [unfold ld; simpl; lia|].
  rewrite ld_S, Nat2Z.inj_succ, Z.pow_succ_r by lia; specialize (H a); specialize (IH (a + 1)); lia.
Qed.

Lemma lor_bound a b n : 0 <= n -> 0 <= a < 2 ^ n -> 0 <= b < 2 ^ n -> 0 <= Z.lor a b < 2 ^ n.
Proof.
  intros Hn Ha Hb; split; [apply Z.lor_nonneg; lia|].
  rewrite <- (Z.mod_small a (2 ^ n)), <- (Z.mod_small b (2 ^ n)) by lia.
  rewrite <- !Z.land_ones, <- Z.land_lor_distr_l, Z.land_ones by lia; apply Z.mod_pos_bound; lia.
Qed.

(** A shorter read is the low part of a longer one. *)
Lemma ld_low n k m a : bytes m -> ld n m a = ld (n + k) m a mod 256 ^ Z.of_nat n.
Proof.
  intros Hb; pose proof (ld_bound n m a Hb); rewrite ld_app, Z.mul_comm, Z.mod_add by lia; by rewrite Z.mod_small.
Qed.

(** ** Layouts: the [repr(C)] rule *)

Record field := Fld { f_name : string; f_size : Z; f_align : Z }.

Definition round_up (a n : Z) : Z := (n + a - 1) / a * a.

Fixpoint offsets (at_ : Z) (l : list field) : list (string * Z) :=
  match l with
  | [] => []
  | f :: l => let o := round_up (f_align f) at_ in (f_name f, o) :: offsets (o + f_size f) l
  end.

Fixpoint find_field (n : string) (l : list (string * Z)) : Z :=
  match l with [] => -1 | (n', o) :: l => if bool_decide (n = n') then o else find_field n l end.

Definition offset_of (l : list field) (n : string) : Z := find_field n (offsets 0 l).

Fixpoint extent (at_ : Z) (l : list field) : Z :=
  match l with [] => at_ | f :: l => extent (round_up (f_align f) at_ + f_size f) l end.

(** [align] is the structure's own alignment. *)
Definition size_of (align : Z) (l : list field) : Z := round_up align (extent 0 l).

Definition u64s : list string -> list field := map (fun n => Fld n 8 8).

(** [struct Ureg]. *)
Definition Ureg_fields : list field := u64s
  ["ax"; "bx"; "cx"; "dx"; "si"; "di"; "bp"; "r8"; "r9"; "r10"; "r11"; "r12"; "r13"; "r14"; "r15";
   "ds"; "es"; "fs"; "gs"; "trapno"; "ecode"; "pc"; "cs"; "flags"; "sp"; "ss"].

(** [struct Label]. *)
Definition Label_fields : list field := u64s ["pc"; "sp"; "fp"; "rbx"; "r12"; "r13"; "r14"; "r15"].

Definition PAGE : Z := 4096.
Definition page_field (n : string) : field := Fld n PAGE PAGE.
Definition ExStack_align : Z := 8192.
Definition ExStack_size : Z := size_of ExStack_align [page_field "0"].
Definition KStack_align : Z := 65536.
Definition KStack_size : Z := size_of KStack_align [Fld "0" (16 * PAGE) PAGE].

(** [struct Tss]. *)
Definition pair32 (n : string) : field := Fld n 8 4.
Definition u32f (n : string) : field := Fld n 4 4.
Definition u16f (n : string) : field := Fld n 2 2.
Definition Tss_fields : list field :=
  [u32f "_res0"; pair32 "rsp0"; pair32 "_rsp1"; pair32 "_rsp2"; u32f "_res1"; u32f "_res2";
   pair32 "ist1"; pair32 "ist2"; pair32 "ist3"; pair32 "ist4"; pair32 "ist5"; pair32 "ist6"; pair32 "ist7";
   u32f "_res3"; u32f "_res4"; u16f "_res5"; u16f "iomb"].
Definition Tss_size : Z := size_of 4 Tss_fields.

(** [struct GdtData] and [struct Gdt]. *)
Definition GdtData_fields : list field :=
  u64s ["null"; "ktext"; "kdata"; "udata"; "utext"; "unused"] ++ [Fld "task" 16 16].
Definition Gdt_align : Z := 65536.
Definition Gdt_size : Z := size_of Gdt_align [Fld "0" (size_of 16 GdtData_fields) 16].

(** [struct Idt]: 256 gates of 16 bytes, on a page of its own. *)
Definition Idt_align : Z := 4096.
Definition Idt_size : Z := size_of Idt_align [Fld "0" (256 * 16) 16].

(** [struct Mach]. *)
Definition Mach_fields : list field :=
  [Fld "debug_stack" ExStack_size ExStack_align; Fld "bp_stack" ExStack_size ExStack_align;
   Fld "df_stack" ExStack_size ExStack_align; Fld "nmi_stack" ExStack_size ExStack_align;
   page_field "zero"; Fld "stack" KStack_size KStack_align] ++
  u64s ["me"; "scratch"; "splpc"; "proc"] ++
  [u32f "machno"; u32f "cpuno"; Fld "online" 1 1] ++
  u64s ["cpuhz"; "ticks"; "tlbfaults"; "ulbpurges"; "pfaults"; "syscalls"; "mmuflushes"] ++
  [Fld "sched" (size_of 8 Label_fields) 8] ++
  map page_field ["pml4"; "pml3"; "pml2"; "pml1"; "mpml3"; "mpml2"; "mpml1"] ++
  [Fld "tss" Tss_size 4; Fld "idt" Idt_size Idt_align; Fld "gdt" Gdt_size Gdt_align].
Definition Mach_align : Z := 65536.
Definition Mach_size : Z := size_of Mach_align Mach_fields.

Definition KCPUZERO : Z := 0xffffff0000000000.
Definition KMACH : Z := KCPUZERO + 0x00100000.
Definition KMACHTSS : Z := KMACH + offset_of Mach_fields "tss".
Definition UREG_TRAPNO_OFFSET : Z := 19 * 8.
Definition UREG_CS_OFFSET : Z := 22 * 8.

(** Evaluates the offsets of named fields. *)
Ltac eval_offsets :=
  repeat match goal with
    | |- context [offset_of ?l ?n] => let v := eval vm_compute in (offset_of l n) in change (offset_of l n) with v
    end.

(** The offsets the assembly and the two static assertions rely on. *)
Lemma layout_checked :
  offset_of Mach_fields "pml4" = 65536 * 2 + 4096 /\ offset_of Mach_fields "stack" = 65536 /\
  map (offset_of Mach_fields) ["me"; "scratch"; "proc"] = map (Z.add 0x20000) [0; 8; 24] /\
  map (offset_of Mach_fields) ["tss"; "idt"; "gdt"] = [0x28000; 0x29000; 0x30000] /\ Mach_size = 64 * PAGE /\
  offset_of Ureg_fields "trapno" = UREG_TRAPNO_OFFSET /\ offset_of Ureg_fields "cs" = UREG_CS_OFFSET /\
  size_of 8 Ureg_fields = 26 * 8.
Proof. by vm_compute. Qed.

(** ** Traps, modes and flags ([dat.rs]) *)

Inductive Trap :=
  | DE | DB | NMI | BP | OF | BR | UD | NM | DF | CoSegOvr | TS | NP | SS | GP | PF | Res15 | MF | AC | MC | XM
  | VE | CP | Reserved (n : Z) | Intr (n : Z).

Definition Trap_from (trapno : Z) : Trap :=
  match trapno with
  | 0 => DE | 1 => DB | 2 => NMI | 3 => BP | 4 => OF | 5 => BR | 6 => UD | 7 => NM | 8 => DF | 9 => CoSegOvr
  | 10 => TS | 11 => NP | 12 => SS | 13 => GP | 14 => PF | 15 => Res15 | 16 => MF | 17 => AC | 18 => MC
  | 19 => XM | 20 => VE | 21 => CP
  | _ => if (22 <=? trapno) && (trapno <=? 31) then Reserved trapno else Intr trapno
  end.

Inductive MachMode := MKernel | MRing1 | MRing2 | MUser.

Definition MachMode_from (raw : Z) : res MachMode :=
  match raw with
  | 0 => Ok MKernel | 1 => Ok MRing1 | 2 => Ok MRing2 | 3 => Ok MUser
  | _ => Panic
  end.

Definition mode_u8 (mode : MachMode) : Z :=
  match mode with MKernel => 0 | MRing1 => 1 | MRing2 => 2 | MUser => 3 end.

(** [Flags]: the fields of [RFLAGS] the code sets or reads. *)
Definition with_mb1 (f : Z) (b : bool) : Z := with_bits f 1 2 (Z.b2z b).
Definition with_trap (f : Z) (b : bool) : Z := with_bits f 8 9 (Z.b2z b).
Definition with_intr (f : Z) (b : bool) : Z := with_bits f 9 10 (Z.b2z b).
Definition with_dir (f : Z) (b : bool) : Z := with_bits f 10 11 (Z.b2z b).
Definition intr (f : Z) : bool := get_bits f 9 10 =? 1.
Definition iopl (f : Z) : res MachMode := MachMode_from (get_bits f 12 14).
Definition Flags_empty : Z := 0.
Definition Flags_new (raw : Z) : Z := with_mb1 raw true.

(** [cpu::fmask]. *)
Definition fmask : Z := with_dir (with_trap (with_intr Flags_empty true) true) true.

(** ** Segment descriptors ([vsvm.rs], [mod seg]) *)

Definition with_readable (d : Z) (b : bool) : Z := with_bits d 41 42 (Z.b2z b).
Definition with_conforming (d : Z) (b : bool) : Z := with_bits d 42 43 (Z.b2z b).
Definition with_code (d : Z) (b : bool) : Z := with_bits d 43 44 (Z.b2z b).
Definition with_system (d : Z) (b : bool) : Z := with_bits d 44 45 (Z.b2z b).
Definition with_iopl (d : Z) (m : MachMode) : Z := with_bits d 45 47 (mode_u8 m).
Definition with_present (d : Z) (b : bool) : Z := with_bits d 47 48 (Z.b2z b).
Definition with_long (d : Z) (b : bool) : Z := with_bits d 53 54 (Z.b2z b).

Definition Descr_empty : Z := 0.
Definition Descr_null : Z := Descr_empty.

Definition ktext64 : Z :=
  with_iopl (with_long (with_conforming (with_present (with_readable (with_code (with_system
    Descr_empty true) true) true) true) true) true) MKernel.
Definition kdata64 : Z :=
  with_iopl (with_long (with_present (with_readable (with_code (with_system
    Descr_empty true) false) true) true) true) MKernel.
Definition utext64 : Z :=
  with_iopl (with_long (with_present (with_readable (with_code (with_system
    Descr_empty true) true) true) true) true) MUser.
Definition udata64 : Z :=
  with_iopl (with_present (with_readable (with_code (with_system
    Descr_empty true) false) true) true) MUser.

(** *** Interrupt gates *)

Definition with_offset0 (d v : Z) : Z := with_bits d 0 16 v.
Definition with_segment_selector (d v : Z) : Z := with_bits d 16 32 v.
Definition with_stack_table_index (d v : Z) : Z := with_bits d 32 35 v.
Definition with_dpl (d : Z) (m : MachMode) : Z := with_bits d 45 47 (mode_u8 m).
Definition with_offset16 (d v : Z) : Z := with_bits d 48 64 v.
Definition with_offset32 (d v : Z) : Z := with_bits d 64 96 v.

Definition TYPE_INTERRUPT_GATE : Z := Z.shiftl 14 (32 + 8).
Definition IntrGateDescr_empty : Z := TYPE_INTERRUPT_GATE.

(** The selectors are offsets into the GDT. *)
Definition ktextsel : Z := offset_of GdtData_fields "ktext".
Definition utextsel : Z := offset_of GdtData_fields "utext".
Definition tasksel : Z := offset_of GdtData_fields "task".

Inductive IstIndex := Rsp0 | Ist1 | Ist2 | Ist3 | Ist4 | Ist5 | Ist6 | Ist7.

Definition ist_u8 (i : IstIndex) : Z :=
  match i with Rsp0 => 0 | Ist1 => 1 | Ist2 => 2 | Ist3 => 3 | Ist4 => 4 | Ist5 => 5 | Ist6 => 6 | Ist7 => 7 end.

Definition IntrGateDescr_new (va : Z) (dpl : MachMode) (stack_index : IstIndex) : Z :=
  let d := with_offset0 IntrGateDescr_empty (get_bits va 0 16) in
  let d := with_offset16 d (get_bits va 16 32) in
  let d := with_offset32 d (get_bits va 32 64) in
  let d := with_stack_table_index d (ist_u8 stack_index) in
  let d := with_segment_selector d ktextsel in
  let d := with_present d true in
  with_dpl d dpl.

(** *** The task state descriptor *)

Definition with_limit0 (d v : Z) : Z := with_bits d 0 16 v.
Definition with_base0 (d v : Z) : Z := with_bits d 16 32 v.
Definition with_base16 (d v : Z) : Z := with_bits d 32 40 v.
Definition with_mbo0 (d : Z) (b : bool) : Z := with_bits d 40 41 (Z.b2z b).
Definition with_mbo1 (d : Z) (b : bool) : Z := with_bits d 43 44 (Z.b2z b).
Definition with_cpl (d : Z) (m : MachMode) : Z := with_bits d 45 47 (mode_u8 m).
Definition with_avl (d : Z) (b : bool) : Z := with_bits d 52 53 (Z.b2z b).
Definition with_granularity (d : Z) (b : bool) : Z := with_bits d 55 56 (Z.b2z b).
Definition with_base24 (d v : Z) : Z := with_bits d 56 64 v.
Definition with_base32 (d v : Z) : Z := with_bits d 64 96 v.

Definition TaskStateDescr_new (va : Z) : Z :=
  let d := with_limit0 0 (Tss_size - 1) in
  let d := with_base0 d (get_bits va 0 16) in
  let d := with_base16 d (get_bits va 16 24) in
  let d := with_mbo0 d true in
  let d := with_mbo1 d true in
  let d := with_cpl d MKernel in
  let d := with_present d true in
  let d := with_avl d true in
  let d := with_granularity d true in
  let d := with_base24 d (get_bits va 24 32) in
  with_base32 d (get_bits va 32 64).

(** ** The tables *)

(** [Gdt::init_in]: [page] is the address of the page. *)
Definition Gdt_init_in (page tss : Z) (m : mem) : mem :=
  let at_ n := page + offset_of GdtData_fields n in
  let m := st 8 (at_ "null") Descr_null m in
  let m := st 8 (at_ "ktext") ktext64 m in
  let m := st 8 (at_ "kdata") kdata64 m in
  let m := st 8 (at_ "udata") udata64 m in
  let m := st 8 (at_ "utext") utext64 m in
  let m := st 8 (at_ "unused") Descr_empty m in
  st 16 (at_ "task") (TaskStateDescr_new tss) m.

(** [Gdt::star]. *)
Definition star : Z :=
  Z.lor (Z.shiftl (Z.lor (utextsel - 16) (mode_u8 MUser)) 48) (Z.shiftl ktextsel 32).

Definition DEBUG_TRAPNO : Z := 1.
Definition NMI_TRAPNO : Z := 2.
Definition BREAKPOINT_TRAPNO : Z := 3.
Definition DOUBLE_FAULT_TRAPNO : Z := 8.

Definition from_trap (trapno : Z) : IstIndex :=
  if trapno =? NMI_TRAPNO then Ist1
  else if trapno =? DEBUG_TRAPNO then Ist2
  else if trapno =? BREAKPOINT_TRAPNO then Ist3
  else if trapno =? DOUBLE_FAULT_TRAPNO then Ist4
  else Rsp0.

(** [Idt::init]: a stub is 8 bytes, so gate [k] takes the address of the [k]-th. *)
Definition idt_gate (stubs k : Z) : Z :=
  let index := from_trap k in
  let dpl := if k =? BREAKPOINT_TRAPNO then MUser else MKernel in
  IntrGateDescr_new (stubs + 8 * k) dpl index.

Definition Idt_init (idt stubs : Z) (m : mem) : mem :=
  fold_left (fun m k => st 16 (idt + 16 * k) (idt_gate stubs k) m) (seqZ 0 256) m.

(** ** The processor: translation and descriptor-table registers

    What the code is written for: four-level paging, and the way [LTR], the
    delivery of an interrupt and [SYSCALL]/[SYSRET] read the tables. *)

Definition bit (e i : Z) : bool := Z.testbit e i.

Record access := Acc { a_write : bool; a_exec : bool; a_user : bool }.

(** One level per step, the permissions of all levels combined; an entry with the
    page-size bit ends the walk at levels 2 and 3. *)
Fixpoint walk (m : mem) (lvl : nat) (tbl va : Z) (acc : access) : option (Z * access) :=
  match lvl with
  | O => None
  | S up =>
      let lo := 12 + 9 * Z.of_nat up in
      let e := ld 8 m (tbl + 8 * get_bits va lo (lo + 9)) in
      if bit e 0 then
        let acc := Acc (a_write acc && bit e 1) (a_exec acc && negb (bit e 63)) (a_user acc && bit e 2) in
        if (up =? 0)%nat || (bit e 7 && (up <? 3)%nat)
        then Some (Z.shiftl (get_bits e lo 52) lo + va mod 2 ^ lo, acc)
        else walk m up (Z.shiftl (get_bits e 12 52) 12) va acc
      else None
  end.

(** Bits 47 to 63 of an address are copies of bit 47. *)
Definition canonical (va : Z) : bool := (get_bits va 47 64 =? 0) || (get_bits va 47 64 =? 2 ^ 17 - 1).

Definition translate (m : mem) (cr3 va : Z) : option (Z * access) :=
  if canonical va then walk m 4 cr3 va (Acc true true true) else None.

Record cpu := Cpu {
  phys : mem;
  cr3 : Z;
  gdtr : Z * Z;        (* base and limit *)
  idtr : Z * Z;
  tr : Z * Z;          (* base and limit of the task state segment *)
  gsbase : Z;
  kernel_gs_base : Z;
  msr_star : Z;
  msr_lstar : Z;
  msr_fmask : Z;
  seg_cs : Z;          (* the code segment; its low two bits are the privilege level *)
}.

Definition with_phys (c : cpu) (m : mem) : cpu :=
  Cpu m (cr3 c) (gdtr c) (idtr c) (tr c) (gsbase c) (kernel_gs_base c) (msr_star c) (msr_lstar c) (msr_fmask c) (seg_cs c).

Definition with_cs (c : cpu) (s : Z) : cpu :=
  Cpu (phys c) (cr3 c) (gdtr c) (idtr c) (tr c) (gsbase c) (kernel_gs_base c) (msr_star c) (msr_lstar c) (msr_fmask c) s.

Definition cpl (c : cpu) : Z := Z.land (seg_cs c) 3.

(** Accesses the kernel makes; none of them crosses a page. *)
Definition vld (n : nat) (va : Z) (c : cpu) : option Z :=
  if va mod 4096 + Z.of_nat n <=? 4096
  then '(pa, _) ← translate (phys c) (cr3 c) va; Some (ld n (phys c) pa)
  else None.

(** A write needs the write permission: [CR0.WP] is set at boot. *)
Definition vst (n : nat) (va v : Z) (c : cpu) : option cpu :=
  if va mod 4096 + Z.of_nat n <=? 4096
  then '(pa, acc) ← translate (phys c) (cr3 c) va;
       if a_write acc then Some (with_phys c (st n pa v (phys c))) else None
  else None.

(** A far return to the same privilege level loads the code segment: the descriptor
    is a present code segment of the level, and a 64-bit one, as the code that
    follows is. *)
Definition far_return (sel : Z) (c : cpu) : option cpu :=
  let rpl := Z.land sel 3 in
  if negb (Z.ldiff sel 7 =? 0) && negb (bit sel 2) && (Z.ldiff sel 7 + 7 <=? (gdtr c).2) && (rpl =? cpl c) then
    d ← vld 8 ((gdtr c).1 + Z.ldiff sel 7) c;
    let dpl := get_bits d 45 47 in
    if bit d 44 && bit d 43 && bit d 47 && bit d 53 && (if bit d 42 then dpl <=? rpl else dpl =? rpl)
    then Some (with_cs c sel) else None
  else None.

(** [cpu::lgdt], [cpu::lidt]: the limits are the sizes less one, as [u16].  [lgdt]
    ends with a far return to selector 8. *)
Definition lgdt (va : Z) (c : cpu) : option cpu :=
  far_return 8 (Cpu (phys c) (cr3 c) (va, (Gdt_size - 1) mod W16) (idtr c) (tr c) (gsbase c) (kernel_gs_base c)
    (msr_star c) (msr_lstar c) (msr_fmask c) (seg_cs c)).
Definition lidt (va : Z) (c : cpu) : cpu :=
  Cpu (phys c) (cr3 c) (gdtr c) (va, (Idt_size - 1) mod W16) (tr c) (gsbase c) (kernel_gs_base c)
    (msr_star c) (msr_lstar c) (msr_fmask c) (seg_cs c).

(** The base and the limit a task state descriptor gives; with the granularity bit
    the limit counts pages. *)
Definition tss_base (d : Z) : Z := get_bits d 16 40 + Z.shiftl (get_bits d 56 64) 24 + Z.shiftl (get_bits d 64 96) 32.
Definition tss_limit (d : Z) : Z :=
  let l := get_bits d 0 16 + Z.shiftl (get_bits d 48 52) 16 in
  if bit d 55 then Z.shiftl l 12 + 4095 else l.

(** [cpu::ltr]: the descriptor must be a present, available 64-bit task state
    segment; it becomes busy. *)
Definition ltr (sel : Z) (c : cpu) : option cpu :=
  if sel + 15 <=? (gdtr c).2 then
    d ← vld 16 ((gdtr c).1 + sel) c;
    if (get_bits d 40 45 =? 9) && bit d 47 then
      c ← vst 16 ((gdtr c).1 + sel) (with_bits d 41 42 1) c;
      Some (Cpu (phys c) (cr3 c) (gdtr c) (idtr c) (tss_base d, tss_limit d) (gsbase c) (kernel_gs_base c)
              (msr_star c) (msr_lstar c) (msr_fmask c) (seg_cs c))
    else None
  else None.

Definition MSR_KERNEL_GS_BASE : Z := 0xc0000102.
Definition MSR_STAR : Z := 0xc0000081.
Definition MSR_LSTAR : Z := 0xc0000082.
Definition MSR_FMASK : Z := 0xc0000084.

(** [cpu::wrmsr]: the value is passed in two halves; [None] is an MSR the model
    has no register for. *)
Definition wrmsr (msr value : Z) (c : cpu) : option cpu :=
  let v := Z.lor (Z.shiftl (get_bits value 32 64) 32) (get_bits value 0 32) in
  let set k s l f := Some (Cpu (phys c) (cr3 c) (gdtr c) (idtr c) (tr c) (gsbase c) k s l f (seg_cs c)) in
  if msr =? MSR_KERNEL_GS_BASE then set v (msr_star c) (msr_lstar c) (msr_fmask c)
  else if msr =? MSR_STAR then set (kernel_gs_base c) v (msr_lstar c) (msr_fmask c)
  else if msr =? MSR_LSTAR then set (kernel_gs_base c) (msr_star c) v (msr_fmask c)
  else if msr =? MSR_FMASK then set (kernel_gs_base c) (msr_star c) (msr_lstar c) v
  else None.

(** [cpu::wrgsbase]. *)
Definition wrgsbase (v : Z) (c : cpu) : cpu :=
  Cpu (phys c) (cr3 c) (gdtr c) (idtr c) (tr c) v (kernel_gs_base c) (msr_star c) (msr_lstar c) (msr_fmask c) (seg_cs c).

(** ** The task state segment and the [Mach] *)

Definition ist_field (i : IstIndex) : string :=
  match i with
  | Rsp0 => "rsp0" | Ist1 => "ist1" | Ist2 => "ist2" | Ist3 => "ist3" | Ist4 => "ist4" | Ist5 => "ist5"
  | Ist6 => "ist6" | Ist7 => "ist7"
  end.

(** [Tss::set_stack]: [top] is [stack.top_mut()]. *)
Definition set_stack (tss trapno top : Z) (c : cpu) : option cpu :=
  let index := from_trap trapno in
  let lower := get_bits top 0 32 in
  let upper := get_bits top 32 64 in
  let at_ := tss + offset_of Tss_fields (ist_field index) in
  c ← vst 4 at_ lower c;
  vst 4 (at_ + 4) upper c.

Definition set_rsp0 (tss top : Z) (c : cpu) : option cpu := set_stack tss 0 top c.

(** [Tss::init]. *)
Fixpoint set_stacks (tss : Z) (stacks : list (Z * Z)) (c : cpu) : option cpu :=
  match stacks with
  | [] => Some c
  | (trapno, top) :: stacks => c ← set_stack tss trapno top c; set_stacks tss stacks c
  end.

Definition Tss_init (tss : Z) (stacks : list (Z * Z)) (c : cpu) : option cpu :=
  c ← set_stacks tss stacks c;
  vst 2 (tss + offset_of Tss_fields "iomb") (Tss_size mod W16) c.

(** [Stack::top]: the end of an exception stack's one page, of a kernel stack's
    sixteenth. *)
Definition ExStack_top (stack : Z) : Z := (stack + PAGE) mod W64.
Definition KStack_top (stack : Z) : Z := (stack + 15 * PAGE + PAGE) mod W64.

(** [Mach::init]. *)
Definition Mach_init (self : Z) (c : cpu) : option cpu :=
  let at_ n := self + offset_of Mach_fields n in
  c ← vst 8 (at_ "me") self c;
  c ← Tss_init (at_ "tss")
        [(0, KStack_top (at_ "stack"));
         (NMI_TRAPNO, ExStack_top (at_ "nmi_stack"));
         (DEBUG_TRAPNO, ExStack_top (at_ "debug_stack"));
         (BREAKPOINT_TRAPNO, ExStack_top (at_ "bp_stack"));
         (DOUBLE_FAULT_TRAPNO, ExStack_top (at_ "df_stack"))] c;
  c ← lgdt (at_ "gdt") c;
  let c := lidt (at_ "idt") c in
  ltr tasksel c.

(** [vsvm::init]. *)
Definition vsvm_init (mach : Z) (c : cpu) : option cpu :=
  c ← Mach_init mach c;
  let me := mach + 0x0020000 in
  let c := wrgsbase me c in
  wrmsr MSR_KERNEL_GS_BASE 0 c.

(** [syscall::init], with the address of its [entry]. *)
Definition syscall_init (entry : Z) (c : cpu) : option cpu :=
  c ← wrmsr MSR_LSTAR entry c;
  c ← wrmsr MSR_STAR star c;
  wrmsr MSR_FMASK fmask c.

(** ** What the processor does with the tables *)

(** Where the processor is, beside the code segment: the next instruction, the
    flags and the stack. *)
Record point := At { p_rip : Z; p_flags : Z; p_rsp : Z; p_ss : Z }.

Definition gate_offset (g : Z) : Z :=
  get_bits g 0 16 + Z.shiftl (get_bits g 48 64) 16 + Z.shiftl (get_bits g 64 96) 32.

(** The exceptions that push an error code (without those of virtualization, 29 and
    30, which do not occur). *)
Definition has_error (v : Z) : bool := bool_decide (v ∈ [8; 10; 11; 12; 13; 14; 17; 21]).

(** An interrupt gate clears TF, IF, NT, RF and VM. *)
Definition entry_flags (f : Z) : Z :=
  with_bits (with_bits (with_bits (with_bits (with_bits f 8 9 0) 9 10 0) 14 15 0) 16 17 0) 17 18 0.

(** One word pushed at the current privilege level: level 3 needs the user
    permission. *)
Definition push (rsp w : Z) (c : cpu) : option (Z * cpu) :=
  let rsp := (rsp - 8) mod W64 in
  if rsp mod 4096 + 8 <=? 4096 then
    '(pa, acc) ← translate (phys c) (cr3 c) rsp;
    if a_write acc && (negb (cpl c =? 3) || a_user acc) then Some (rsp, with_phys c (st 8 pa w (phys c))) else None
  else None.

Fixpoint pushes (rsp : Z) (ws : list Z) (c : cpu) : option (Z * cpu) :=
  match ws with [] => Some (rsp, c) | w :: ws => '(rsp, c) ← push rsp w c; pushes rsp ws c end.

(** The interrupt frame, from the top down. *)
Definition frame_words (v : Z) (soft : bool) (err : Z) (p : point) (c : cpu) : list Z :=
  ([p_ss p; p_rsp p; p_flags p; seg_cs c; p_rip p] ++ (if has_error v && negb soft then [err] else []))%list.

(** Delivery of vector [v] with error code [err]; [soft] for [INT3] and [INT n].
    The level changes only for a code segment that is not conforming; the stack comes
    from the gate's table index if it has one, and otherwise from [rsp0] if the level
    changes; it is aligned and the frame is pushed at the new level.  The tables
    themselves are read as the supervisor.  [None] is a fault. *)
Definition deliver (v : Z) (soft : bool) (err : Z) (p : point) (c : cpu) : option (point * cpu) :=
  if 16 * v + 15 <=? (idtr c).2 then
    g ← vld 16 ((idtr c).1 + 16 * v) c;
    if (get_bits g 40 45 =? 14) && bit g 47 && (negb soft || (cpl c <=? get_bits g 45 47)) then
      let sel := get_bits g 16 32 in
      if negb (Z.ldiff sel 7 =? 0) && negb (bit sel 2) && (Z.ldiff sel 7 + 7 <=? (gdtr c).2) then
        d ← vld 8 ((gdtr c).1 + Z.ldiff sel 7) c;
        let dpl := get_bits d 45 47 in
        if bit d 44 && bit d 43 && bit d 47 && bit d 53 && (dpl <=? cpl c) && canonical (gate_offset g) then
          let inner := negb (bit d 42) && (dpl <? cpl c) in
          let cpl' := if inner then dpl else cpl c in
          let ist := get_bits g 32 35 in
          rsp ← (if ist =? 0 then if inner then vld 8 ((tr c).1 + 4) c else Some (p_rsp p)
                 else vld 8 ((tr c).1 + 36 + 8 * (ist - 1)) c);
          let words := frame_words v soft err p c in
          '(rsp, c) ← pushes (Z.ldiff rsp 15) words (with_cs c (Z.lor (Z.ldiff sel 3) cpl'));
          Some (At (gate_offset g) (entry_flags (p_flags p)) rsp (if inner then cpl' else p_ss p), c)
        else None
      else None
    else None
  else None.

(** The first instruction can be fetched. *)
Definition fetch_ok (rip : Z) (c : cpu) : bool :=
  match translate (phys c) (cr3 c) rip with
  | Some (_, acc) => a_exec acc && (negb (cpl c =? 3) || a_user acc)
  | None => false
  end.

(** The I/O permission check at a privilege level above the I/O level: the bitmap
    is inside the segment's limit and the port's bit is clear. *)
Definition io_permitted (port : Z) (c : cpu) : option bool :=
  iomb ← vld 2 ((tr c).1 + 102) c;
  if iomb + port / 8 + 1 <=? (tr c).2 then
    b ← vld 2 ((tr c).1 + iomb + port / 8) c;
    Some (negb (bit b (port mod 8)))
  else Some false.

(** The code and stack segments [SYSCALL] and [SYSRET] load. *)
Definition syscall_cs (c : cpu) : Z := get_bits (msr_star c) 32 48.
Definition syscall_ss (c : cpu) : Z := syscall_cs c + 8.
Definition sysret_cs (c : cpu) : Z := Z.lor (get_bits (msr_star c) 48 64 + 16) 3.
Definition sysret_ss (c : cpu) : Z := get_bits (msr_star c) 48 64 + 8.

End Xd.
