(* ===== verification/X86Boot.v ===== *)
(** * The x86_64 port: the first address space ([x86_64/src/node0.rs])

    [init0] builds the page tables of node 0 and of CPU 0's [Mach] in low memory.
    The theorems read them back the way the processor does: what every address
    translates to, and how the tables themselves appear in the recursive region. *)

From S2P Require Import Prelude Vm X86.
From Stdlib Require Import String.
#[local] Open Scope string_scope.
#[local] Open Scope Z_scope.

Module Xb.
Import Xd.

Definition X : Z := Z.shiftl 0 63.
Definition NX : Z := Z.shiftl 1 63.
Definition L : Z := Z.shiftl 1 7.
Definition RO : Z := Z.shiftl 0 1.
Definition RW : Z := Z.shiftl 1 1.
Definition P : Z := Z.shiftl 1 0.

(** [a | b | c | ...] *)
Definition ors (l : list Z) : Z := fold_left Z.lor l 0.

(** [pml.array_mut()[i] = a | b | ...], for the table in page [pml] of low memory. *)
Record store := Store { s_page : Z; s_idx : Z; s_parts : list Z }.

Notation "pml .[ i ] <- v" := (Store pml i v) (at level 20, i at level 100, v at level 100).

(** [map_mach]: the stores it makes in the table it is given; [phys] is the array of
    29 page addresses. *)
Definition map_mach (pml1 zp idt gdt : Z) (phys : Z -> Z) : list store :=
  let START := 256 in
  let set k v := pml1.[START + k] <- v in
  flat_map (fun k => [set k [NX; phys (k / 2); RW; P]; set (k + 1) [0]]) [0; 2; 4; 6] ++
  [set 8 [NX; zp; RO; P]] ++
  map (fun k => set k [0]) (seqZ 9 7) ++
  map (fun k => set k [NX; phys (k - 12); RW; P]) (seqZ 16 16) ++
  [set 32 [NX; phys 20; RW; P]] ++
  map (fun k => set k [NX; phys (k - 12); RW; P]) (seqZ 33 7) ++
  [set 40 [NX; phys 28; RW; P];
   set 41 [NX; idt; RO; P]] ++
  map (fun k => set k [0]) (seqZ 42 6) ++
  [set 48 [NX; gdt; RW; P]] ++
  map (fun k => set k [NX; zp; RO; P]) (seqZ 49 15).

(** [init0] carves low memory into pages; a page is named by its index there.  The
    boot code calls it with an identity mapping, so that a pointer into low memory
    and its physical address are the same number ([ptr2hpa]). *)
Definition debug_stack : Z := 0.
Definition kpml3 : Z := 1.
Definition bp_stack : Z := 2.
Definition kpml2 : Z := 3.
Definition df_stack : Z := 4.
Definition kpml1 : Z := 5.
Definition nmi_stack : Z := 6.
Definition ncpml3 : Z := 7.
Definition zero_page : Z := 8.
Definition npml2 : Z := 9.
Definition npml1 : Z := 10.
Definition cpml2 : Z := 11.
Definition cpml1 : Z := 12.
Definition arch_page : Z := 13.
Definition idt : Z := 14.
Definition gdt_page : Z := 15.
Definition mach_page : Z := 32.
Definition pml4 : Z := 33.
Definition pml3 : Z := 34.
Definition pml2 : Z := 35.
Definition pml1 : Z := 36.
Definition mpml3 : Z := 37.
Definition mpml2 : Z := 38.
Definition mpml1 : Z := 39.
Definition mpml1_rpml2 : Z := 40.
Definition mpml1_rpml1 : Z := 41.
Definition mpml2_rpml1 : Z := 42.
Definition ncpml2_rpml1 : Z := 43.
Definition ncpml1_rpml2 : Z := 44.
Definition cpml1_rpml1 : Z := 45.
Definition npml1_rpml1 : Z := 46.
Definition kpml2_rpml1 : Z := 47.
Definition kpml1_rpml2 : Z := 48.
Definition kpml1_rpml1 : Z := 49.

Section init0.
Context (lomem intr_stubs : Z).

Definition ptr2hpa (page : Z) : Z := lomem + 4096 * page.

(** The array [phys], as [init0] fills it. *)
Definition mach_phys (k : Z) : Z :=
  match k with
  | 0 => ptr2hpa debug_stack | 1 => ptr2hpa bp_stack | 2 => ptr2hpa df_stack | 3 => ptr2hpa nmi_stack
  | 20 => ptr2hpa mach_page
  | 21 => ptr2hpa pml4 | 22 => ptr2hpa pml3 | 23 => ptr2hpa pml2 | 24 => ptr2hpa pml1
  | 25 => ptr2hpa mpml3 | 26 => ptr2hpa mpml2 | 27 => ptr2hpa mpml1
  | 28 => ptr2hpa arch_page
  | _ => if (4 <=? k) && (k <? 20) then ptr2hpa (k + 12) else 0
  end.

Definition map_kernel : list store :=
  [pml4.[511] <- [X; ptr2hpa kpml3; RW; P];
   kpml3.[510] <- [X; ptr2hpa kpml2; RW; P];
   kpml2.[0] <- [NX; ptr2hpa kpml1; RW; P];
   kpml2.[1] <- [X; 0x00200000; L; RO; P];
   kpml2.[2] <- [NX; 0x00400000; L; RO; P];
   kpml2.[3] <- [NX; 0x00600000; L; RW; P];
   kpml1.[0] <- [NX; RW; P];
   kpml1.[7] <- [NX; 0x00070000; RW; P]] ++
  map (fun k => kpml1.[k] <- [NX; k * 4096; RW; P]) (seqZ 32 32).

Definition map_cpu_node : list store :=
  [pml4.[510] <- [NX; ptr2hpa ncpml3; RW; P];
   ncpml3.[0] <- [NX; ptr2hpa cpml2; RW; P];
   cpml2.[0] <- [NX; ptr2hpa cpml1; RW; P];
   ncpml3.[256] <- [NX; ptr2hpa npml2; RW; P];
   npml2.[0] <- [NX; ptr2hpa npml1; RW; P]].

Definition map_mapping_region : list store :=
  [pml4.[509] <- [NX; ptr2hpa mpml3; RW; P];
   mpml3.[511] <- [NX; ptr2hpa mpml2; RW; P];
   mpml2.[511] <- [NX; ptr2hpa mpml1; RW; P]].

Definition map_recursive : list store :=
  [pml1.[511] <- [NX; ptr2hpa kpml3; RW; P];
   pml1.[510] <- [NX; ptr2hpa ncpml3; RW; P];
   pml1.[509] <- [NX; ptr2hpa mpml3; RW; P];
   pml3.[509] <- [NX; ptr2hpa mpml1_rpml2; RW; P];
   mpml1_rpml2.[511] <- [NX; ptr2hpa mpml1_rpml1; RW; P];
   mpml1_rpml1.[511] <- [NX; ptr2hpa mpml1; RW; P];
   pml2.[509] <- [NX; ptr2hpa mpml2_rpml1; RW; P];
   mpml2_rpml1.[511] <- [NX; ptr2hpa mpml2; RW; P];
   pml3.[510] <- [NX; ptr2hpa ncpml1_rpml2; RW; P];
   ncpml1_rpml2.[0] <- [NX; ptr2hpa cpml1_rpml1; RW; P];
   cpml1_rpml1.[0] <- [NX; ptr2hpa cpml1; RW; P];
   ncpml1_rpml2.[256] <- [NX; ptr2hpa npml1_rpml1; RW; P];
   npml1_rpml1.[0] <- [NX; ptr2hpa npml1; RW; P];
   pml2.[510] <- [NX; ptr2hpa ncpml2_rpml1; RW; P];
   ncpml2_rpml1.[0] <- [NX; ptr2hpa cpml2; RW; P];
   ncpml2_rpml1.[256] <- [NX; ptr2hpa npml2; RW; P];
   pml3.[511] <- [NX; ptr2hpa kpml1_rpml2; RW; P];
   kpml1_rpml2.[510] <- [NX; ptr2hpa kpml1_rpml1; RW; P];
   kpml1_rpml1.[0] <- [NX; ptr2hpa kpml1; RW; P];
   pml2.[511] <- [NX; ptr2hpa kpml2_rpml1; RW; P];
   kpml2_rpml1.[0] <- [NX; ptr2hpa kpml2; RW; P]].

(** The page-table stores of [init0], in their order. *)
Definition stores : list store :=
  map_mach cpml1 (ptr2hpa zero_page) (ptr2hpa idt) (ptr2hpa gdt_page) mach_phys ++
  [pml4.[508] <- [NX; ptr2hpa pml3; RW; P];
   pml3.[508] <- [NX; ptr2hpa pml2; RW; P];
   pml2.[508] <- [NX; ptr2hpa pml1; RW; P];
   pml1.[508] <- [NX; ptr2hpa pml4; RW; P]] ++
  map_kernel ++ map_cpu_node ++ map_mapping_region ++ map_recursive.

Definition do_store (m : mem) (s : store) : mem := st 8 (ptr2hpa (s_page s) + 8 * s_idx s) (ors (s_parts s)) m.

Definition init0 (m : mem) : mem * Z :=
  let m := Idt_init (ptr2hpa idt) intr_stubs m in
  let m := Gdt_init_in (ptr2hpa gdt_page) KMACHTSS m in
  (fold_left do_store stores m, ptr2hpa pml4).
End init0.
(** ** Reading the tables back *)

Section boot_tables.
Context (lomem : Z).
Hypothesis lomem_ok : 0 <= lomem /\ lomem mod 4096 = 0 /\ lomem + 50 * 4096 <= 2 ^ 46.
#[local] Notation ptr2hpa := (ptr2hpa lomem).

(** An entry: a page-aligned address and the flags outside the address field. *)
Definition frame (a : Z) : Prop := 0 <= a < 2 ^ 52 /\ a mod 4096 = 0.
Definition flags_ok (f : Z) : Prop := 0 <= f < 2 ^ 64 /\ Pt.get_bits f 12 52 = 0.

Lemma hpa_frame p : 0 <= p < 50 -> frame (ptr2hpa p).
Proof.
  unfold frame, Xb.ptr2hpa; intros; rewrite Z.mul_comm, Z.mod_add by lia; lia.
Qed.

Lemma frame_bit a i : frame a -> i < 12 \/ 52 <= i -> Z.testbit a i = false.
Proof.
  intros [Hr Hm] [Hi|Hi].
  - rewrite <- (Z.mod_pow2_bits_low a 12) by lia; by change (2 ^ 12) with 4096; rewrite Hm, Z.bits_0.
  - destruct (Z.eq_dec a 0) as [->|]; [apply Z.bits_0|].
    apply Z.bits_above_log2; [lia|]; apply Z.log2_lt_pow2; [lia|].
    pose proof (Z.pow_le_mono_r 2 52 i); lia.
Qed.

Lemma get_bits_lor a b l h : 0 <= l <= h ->
  Pt.get_bits (Z.lor a b) l h = Z.lor (Pt.get_bits a l h) (Pt.get_bits b l h).
Proof. intros; unfold Pt.get_bits; by rewrite Z.shiftr_lor, Z.land_lor_distr_l. Qed.

Lemma get_bits_frame a l : frame a -> 12 <= l <= 52 ->
  Z.shiftl (Pt.get_bits a l 52) l = Z.ldiff a (Z.ones l).
Proof.
  intros Ha Hl; apply Z.bits_inj'; intros i Hi.
  rewrite Z.shiftl_spec, Z.ldiff_spec, Z.testbit_ones_nonneg by lia.
  destruct (Z.ltb_spec i l).
  - by rewrite Z.testbit_neg_r, andb_false_r by lia.
  - rewrite Pt.testbit_get_bits, andb_true_r by lia; replace (i - l + l) with i by lia.
    destruct (Z.ltb_spec (i - l) (52 - l)); simpl; [done | by rewrite frame_bit by (auto; lia)].
Qed.

(** One step of the processor's walk, over the entry [e]. *)
Definition step (m : mem) (up : nat) (va : Z) (acc : access) (e : Z) : option (Z * access) :=
  let l := 12 + 9 * Z.of_nat up in
  if bit e 0 then
    let acc := Acc (a_write acc && bit e 1) (a_exec acc && negb (bit e 63)) (a_user acc && bit e 2) in
    if (up =? 0)%nat || (bit e 7 && (up <? 3)%nat)
    then Some (Z.shiftl (Pt.get_bits e l 52) l + va mod 2 ^ l, acc)
    else walk m up (Z.shiftl (Pt.get_bits e 12 52) 12) va acc
  else None.

Lemma step_lor m up va acc a f : frame a -> flags_ok f -> (up <= 3)%nat ->
  let l := 12 + 9 * Z.of_nat up in
  step m up va acc (Z.lor a f) =
    if bit f 0 then
      let acc := Acc (a_write acc && bit f 1) (a_exec acc && negb (bit f 63)) (a_user acc && bit f 2) in
      if (up =? 0)%nat || (bit f 7 && (up <? 3)%nat)
      then Some (Z.ldiff a (Z.ones l) + va mod 2 ^ l, acc)
      else walk m up a va acc
    else None.
Proof.
  intros Ha Hf Hup l; destruct Hf as [_ Hf]; unfold step, bit; fold l; rewrite !Z.lor_spec, !(frame_bit a), !orb_false_l by (auto; lia).
  destruct (Z.testbit f 0); [|done]; cbv zeta.
  destruct ((up =? 0)%nat || _) eqn:Hleaf.
  - repeat f_equal; rewrite <- get_bits_frame, get_bits_lor by (auto; lia).
    replace (Pt.get_bits f l 52) with 0; [by rewrite Z.lor_0_r|].
    apply Z.bits_inj'; intros i Hi; rewrite Z.bits_0, Pt.testbit_get_bits by lia.
    destruct (Z.ltb_spec i (52 - l)); simpl; [|done].
    assert (Hb : Z.testbit (Pt.get_bits f 12 52) (i + l - 12) = false) by (by rewrite Hf, Z.bits_0).
    rewrite Pt.testbit_get_bits in Hb by lia; replace (i + l - 12 + 12) with (i + l) in Hb by lia.
    destruct (Z.ltb_spec (i + l - 12) (52 - 12)); [done | lia].
  - rewrite get_bits_lor, Hf, Z.lor_0_r, get_bits_frame by (auto; lia).
    rewrite Z.ldiff_ones_r by lia; destruct Ha as [? Hm].
    rewrite Z.shiftr_div_pow2, Z.shiftl_mul_pow2 by lia; change (2 ^ 12) with 4096.
    replace (a / 4096 * 4096) with a; [done|]; pose proof (Z.div_mod a 4096); lia.
Qed.


(** The entries the stores leave in page [p], the last one first. *)
Definition tab (p : Z) (ws : list store) : list (Z * list Z) :=
  rev (map (fun s => (s_idx s, s_parts s)) (List.filter (fun s => s_page s =? p) ws)).

Fixpoint look (i : Z) (l : list (Z * list Z)) : option (list Z) :=
  match l with [] => None | (j, ps) :: l => if i =? j then Some ps else look i l end.

Definition store_ok (s : store) : Prop :=
  0 <= s_idx s < 512 /\ Forall (fun x => 0 <= x < 2 ^ 64) (s_parts s).

Lemma ors_bound ps : Forall (fun x => 0 <= x < 2 ^ 64) ps -> 0 <= ors ps < 256 ^ 8.
Proof.
  change (256 ^ 8) with (2 ^ 64); unfold ors; intros H.
  assert (Hg : forall a, 0 <= a < 2 ^ 64 -> 0 <= fold_left Z.lor ps a < 2 ^ 64); [|apply Hg; lia].
  induction H; simpl; intros; [done|]; apply IHForall, lor_bound; lia.
Qed.

Lemma look_app i l l' : look i (l ++ l') = match look i l with Some x => Some x | None => look i l' end.
Proof. induction l as [|[j ps] l IH]; simpl; [done|]; by destruct (i =? j). Qed.

Lemma ld_stores ws : Forall store_ok ws -> forall m p i, 0 <= i < 512 ->
  ld 8 (fold_left (do_store lomem) ws m) (ptr2hpa p + 8 * i) =
    match look i (tab p ws) with Some ps => ors ps | None => ld 8 m (ptr2hpa p + 8 * i) end.
Proof.
  induction 1 as [|[q j ps] ws [Hj Hps] _ IH]; intros m p i Hi; [done|]; simpl in *.
  rewrite IH by done; unfold tab; simpl; destruct (Z.eqb_spec q p) as [->|Hp]; simpl.
  - rewrite look_app; simpl; destruct (look _ _); [done|].
    unfold do_store; simpl; destruct (Z.eqb_spec i j) as [->|].
    + by apply ld_same, ors_bound.
    + unfold Xb.ptr2hpa; apply ld_other; lia.
  - destruct (look _ _); [done|]; unfold do_store, Xb.ptr2hpa; simpl; apply ld_other; lia.
Qed.

(** Evaluates a term on the stores, up to the addresses and the flags. *)
Ltac eval_stores t :=
  let v := eval cbv -[Xb.ptr2hpa NX X L RO RW P] in t in change t with v.

Lemma stores_ok : Forall store_ok (stores lomem).
Proof.
  eval_stores (stores lomem).
  change NX with (2 ^ 63); change RW with 2; change P with 1; change L with 128; change RO with 0;
    change X with 0; unfold Xb.ptr2hpa.
  repeat match goal with
    | |- Forall _ (_ :: _) => apply Forall_cons
    | |- Forall _ [] => apply Forall_nil; exact I
    | |- store_ok _ => unfold store_ok; cbn [s_idx s_parts]
    | |- _ /\ _ => split
    end; lia.
Qed.

(** The second mebibyte is cleared by the boot code. *)
Definition zeroed (m : mem) : Prop := forall x, lomem <= x < lomem + 50 * 4096 -> m x = 0.

Lemma ld_zero n m a : (forall x, a <= x < a + Z.of_nat n -> m x = 0) -> ld n m a = 0.
Proof.
  revert a; induction n as [|n IH]; intros a H; [done|]; rewrite ld_S, H by lia.
  rewrite IH; [lia|]; intros; apply H; lia.
Qed.

Lemma ld_Idt n a base s m : a + Z.of_nat n <= base \/ base + 4096 <= a ->
  ld n (Idt_init base s m) a = ld n m a.
Proof.
  intros H; unfold Idt_init; assert (Hk : Forall (fun k => 0 <= k < 256) (seqZ 0 256))
    by (apply Forall_forall; intros k Hk; apply elem_of_seqZ in Hk; lia).
  revert m; induction Hk as [|k l Hk _ IH]; intros m; [done|]; cbn [fold_left].
  rewrite IH; apply ld_other; lia.
Qed.

Lemma ld_Gdt n a base t m : a + Z.of_nat n <= base \/ base + 4096 <= a ->
  ld n (Gdt_init_in base t m) a = ld n m a.
Proof. intros; unfold Gdt_init_in; cbv zeta beta; eval_offsets; by rewrite !ld_other by lia. Qed.

(** The pages that hold tables: not the stacks, the [Mach]'s own page, the zero
    page, nor the task state segment, the IDT and the GDT. *)
Definition table_page (p : Z) : bool :=
  bool_decide (p ∈ [1; 3; 5; 7; 9; 10; 11; 12; 33; 34; 35; 36; 37; 38; 39; 40; 41; 42; 43; 44; 45; 46; 47; 48; 49]).

(** The tables in memory are the ones [init0] builds. *)
Definition tables (m : mem) : Prop := forall p i, table_page p = true -> 0 <= i < 512 ->
  ld 8 m (ptr2hpa p + 8 * i) = match look i (tab p (stores lomem)) with Some ps => ors ps | None => 0 end.

Lemma table_page_range p : table_page p = true -> 0 <= p < 50 /\ p <> 13 /\ p <> 14 /\ p <> 15 /\ p <> 32.
Proof.
  unfold table_page; intros H%bool_decide_eq_true; revert p H; apply Forall_forall.
  repeat (apply Forall_cons; split; [lia|]); by apply Forall_nil.
Qed.

Lemma init0_tables intr_stubs m0 : zeroed m0 -> tables (init0 lomem intr_stubs m0).1.
Proof.
  intros Hz p i [Hp Hne]%table_page_range Hi; unfold init0; cbn [fst].
  rewrite ld_stores by (auto using stores_ok; lia).
  destruct (look i _); [done|]; unfold Xb.ptr2hpa, idt, gdt_page.
  rewrite ld_Gdt, ld_Idt by lia; apply ld_zero; intros; apply Hz; lia.
Qed.

(** A store outside the tables leaves them. *)
Lemma st_tables n a v m : tables m -> (forall p, table_page p = true -> a + Z.of_nat n <= ptr2hpa p \/ ptr2hpa (p + 1) <= a) ->
  tables (st n a v m).
Proof.
  intros Ht Ha p i Hp Hi; rewrite ld_other; [by apply Ht|].
  destruct (Ha p Hp); unfold Xb.ptr2hpa in *; lia.
Qed.

Context (m1 : mem).
Hypothesis m1_tables : tables m1.

Lemma walk_m1 p up va acc : table_page p = true ->
  walk m1 (S up) (ptr2hpa p) va acc =
    match look (Pt.get_bits va (12 + 9 * Z.of_nat up) (12 + 9 * Z.of_nat up + 9)) (tab p (stores lomem)) with
    | Some ps => step m1 up va acc (ors ps)
    | None => None
    end.
Proof.
  intros; cbn [walk]; rewrite m1_tables; [by destruct (look _ _) | done |].
  unfold Pt.get_bits; rewrite Z.land_ones by lia; replace (_ - _) with 9 by lia; apply Z.mod_pos_bound; lia.
Qed.

Lemma ors_second hi a r : ors (hi :: a :: r) = Z.lor a (ors (hi :: r)).
Proof.
  unfold ors; cbn [fold_left]; rewrite Z.lor_0_l, (Z.lor_comm hi); generalize hi.
  induction r as [|x r IH]; intros y; cbn [fold_left]; [done|]; by rewrite <- Z.lor_assoc, IH.
Qed.

(** ** Addresses by their four indices *)

Definition va_at (i j k l o : Z) : Z :=
  (if 256 <=? i then 0xffff000000000000 else 0) + i * 2 ^ 39 + j * 2 ^ 30 + k * 2 ^ 21 + l * 2 ^ 12 + o.

Definition index (i : Z) : Prop := 0 <= i < 512.

Lemma get_bits_div v l h : 0 <= l <= h -> Pt.get_bits v l h = (v / 2 ^ l) mod 2 ^ (h - l).
Proof. intros; unfold Pt.get_bits; by rewrite Z.land_ones, Z.shiftr_div_pow2 by lia. Qed.

Lemma va_at_indices i j k l o : index i -> index j -> index k -> index l -> 0 <= o < 4096 ->
  let va := va_at i j k l o in
  Pt.get_bits va 39 48 = i /\ Pt.get_bits va 30 39 = j /\ Pt.get_bits va 21 30 = k /\ Pt.get_bits va 12 21 = l /\
  va mod 2 ^ 12 = o /\ va mod 2 ^ 21 = l * 4096 + o /\ canonical va = true.
Proof.
  unfold index; intros Hi Hj Hk Hl Ho; unfold canonical; rewrite !get_bits_div by lia; unfold va_at.
  assert (Hc : (if 256 <=? i then 0xffff000000000000 else 0) = (if 256 <=? i then 65535 else 0) * 2 ^ 48)
    by (by destruct (256 <=? i)).
  rewrite Hc; set (c := if 256 <=? i then 65535 else 0).
  assert (Hc' : 256 <= i /\ c = 65535 \/ i < 256 /\ c = 0) by (subst c; destruct (Z.leb_spec 256 i); lia).
  clearbody c; set (v := c * 2 ^ 48 + i * 2 ^ 39 + j * 2 ^ 30 + k * 2 ^ 21 + l * 2 ^ 12 + o).
  assert (H39 : v / 2 ^ 39 = c * 512 + i)
    by (symmetry; apply Z.div_unique with (j * 2 ^ 30 + k * 2 ^ 21 + l * 2 ^ 12 + o); lia).
  assert (H30 : v / 2 ^ 30 = (c * 512 + i) * 512 + j)
    by (symmetry; apply Z.div_unique with (k * 2 ^ 21 + l * 2 ^ 12 + o); lia).
  assert (H21 : v / 2 ^ 21 = ((c * 512 + i) * 512 + j) * 512 + k)
    by (symmetry; apply Z.div_unique with (l * 2 ^ 12 + o); lia).
  assert (H12 : v / 2 ^ 12 = (((c * 512 + i) * 512 + j) * 512 + k) * 512 + l)
    by (symmetry; apply Z.div_unique with o; lia).
  assert (H47 : v / 2 ^ 47 = c * 2 + i / 256)
    by (rewrite <- (Z.div_div _ (2 ^ 39) 256), H39 by lia; replace (c * 512) with (c * 2 * 256) by lia;
        by rewrite Z.div_add_l by lia).
  assert (Hq : i / 256 = if 256 <=? i then 1 else 0)
    by (destruct (Z.leb_spec 256 i); [symmetry; apply Z.div_unique with (i - 256); lia | apply Z.div_small; lia]).
  rewrite H39, H30, H21, H12, H47, Hq; change (2 ^ (48 - 39)) with 512; change (2 ^ (39 - 30)) with 512;
    change (2 ^ (30 - 21)) with 512; change (2 ^ (21 - 12)) with 512; change (2 ^ (64 - 47)) with 131072.
  assert (Hm : forall a b, index b -> (a * 512 + b) mod 512 = b)
    by (intros a b Hb; rewrite Z.add_comm, Z.mod_add, Z.mod_small by (unfold index in Hb; lia); done).
  rewrite !Hm by done.
  repeat split.
  - rewrite Zmod_eq_full, H12 by lia; unfold v; lia.
  - rewrite Zmod_eq_full, H21 by lia; unfold v; lia.
  - apply orb_true_iff; rewrite !Z.eqb_eq; destruct Hc' as [[? ->]|[? ->]].
    + right; by rewrite (proj2 (Z.leb_le _ _)) by lia.
    + left; by rewrite (proj2 (Z.leb_gt _ _)) by lia.
Qed.

(** ** What the address space is meant to be *)

Definition rw : access := Acc true false false.
Definition ro : access := Acc false false false.
Definition rx : access := Acc false true false.

(** Page [k] of the [Mach] is page [k] of low memory for the stacks, the data and
    the tables; the pages between the stacks are holes. *)
Definition mach_layout (k o : Z) : option (Z * access) :=
  let at_ p acc := Some (ptr2hpa p + o, acc) in
  if (k =? 0) || (k =? 2) || (k =? 4) || (k =? 6) then at_ k rw
  else if k =? 8 then at_ zero_page ro
  else if (16 <=? k) && (k <? 40) then at_ k rw
  else if k =? 40 then at_ arch_page rw
  else if k =? 41 then at_ idt ro
  else if k =? 48 then at_ gdt_page rw
  else if (49 <=? k) && (k <? 64) then at_ zero_page ro
  else None.

(** The kernel image, by the offset from [KZERO]: text, read-only data and data are
    one large page each, at their physical addresses. *)
Definition KZERO : Z := 0xffffffff80000000.
Definition kernel_layout (off : Z) : option (Z * access) :=
  if (0 <=? off) && (off <? 0x1000) then Some (off, rw)
  else if (0x7000 <=? off) && (off <? 0x8000) then Some (0x70000 + (off - 0x7000), rw)
  else if (0x20000 <=? off) && (off <? 0x40000) then Some (off, rw)
  else if (0x200000 <=? off) && (off <? 0x400000) then Some (off, rx)
  else if (0x400000 <=? off) && (off <? 0x600000) then Some (off, ro)
  else if (0x600000 <=? off) && (off <? 0x800000) then Some (off, rw)
  else None.

(** The tables that appear in the recursive region, by the three lower indices. *)
Definition windows : list (Z * Z * Z * Z) :=
  [(508, 508, 508, pml4);
   (508, 508, 509, mpml3); (508, 508, 510, ncpml3); (508, 508, 511, kpml3);
   (508, 509, 511, mpml2); (508, 510, 0, cpml2); (508, 510, 256, npml2); (508, 511, 0, kpml2);
   (509, 511, 511, mpml1); (510, 0, 0, cpml1); (510, 256, 0, npml1); (511, 510, 0, kpml1)].

Fixpoint window (j k l : Z) (ws : list (Z * Z * Z * Z)) : option Z :=
  match ws with
  | [] => None
  | (j', k', l', p) :: ws => if (j =? j') && (k =? k') && (l =? l') then Some p else window j k l ws
  end.

Definition layout (i j k l o : Z) : option (Z * access) :=
  if i =? 511 then
    if j =? 510 then kernel_layout (k * 2 ^ 21 + l * 2 ^ 12 + o) else None
  else if i =? 510 then
    if (j =? 0) && (k =? 0) then mach_layout (l - 256) o else None
  else if i =? 508 then
    (fun p => (ptr2hpa p + o, rw)) <$> window j k l windows
  else None.

Lemma ldiff_ones_mult a n : 0 <= n -> Z.ldiff (a * 2 ^ n) (Z.ones n) = a * 2 ^ n.
Proof.
  intros; rewrite Z.ldiff_ones_r, Z.shiftr_div_pow2, Z.shiftl_mul_pow2, Z.div_mul by lia; done.
Qed.

Lemma ldiff_frame a : frame a -> Z.ldiff a (Z.ones 12) = a.
Proof.
  intros [_ Hm]; rewrite (Z.div_mod a 4096), Hm, Z.add_0_r, Z.mul_comm by lia.
  by apply (ldiff_ones_mult _ 12).
Qed.

Lemma frame_mult k : 0 <= k < 2 ^ 40 -> frame (k * 4096).
Proof. intros; split; [lia | by apply Z.mod_mul]. Qed.

Lemma nxrw_ok : flags_ok (ors [NX; RW; P]).
Proof. by vm_compute. Qed.
Lemma nxro_ok : flags_ok (ors [NX; RO; P]).
Proof. by vm_compute. Qed.
Lemma xrw_ok : flags_ok (ors [X; RW; P]).
Proof. by vm_compute. Qed.

(** A step over an entry that points to the next table. *)
Lemma step_table m up va acc p hi : 0 <= p < 50 -> (1 <= up <= 3)%nat -> hi = NX \/ hi = X ->
  step m up va acc (ors [hi; ptr2hpa p; RW; P]) =
    walk m up (ptr2hpa p) va (Acc (a_write acc) (a_exec acc && bool_decide (hi = X)) false).
Proof.
  intros Hp Hup Hhi; rewrite ors_second, step_lor; [|by apply hpa_frame| |lia].
  - assert ((up =? 0)%nat = false) as -> by (apply Nat.eqb_neq; lia).
    destruct Hhi as [-> | ->]; cbn; by rewrite !andb_true_r, !andb_false_r.
  - destruct Hhi as [-> | ->]; [apply nxrw_ok | apply xrw_ok].
Qed.

(** A step over an entry that maps a page. *)
Lemma step_page m va acc a w : frame a -> w = RW \/ w = RO ->
  step m 0 va acc (ors [NX; a; w; P]) = Some (a + va mod 2 ^ 12, Acc (a_write acc && bool_decide (w = RW)) false false).
Proof.
  intros Ha Hw; rewrite ors_second, step_lor; [|done| |lia].
  - cbn -[Z.pow Z.ldiff Z.ones]; rewrite ldiff_frame by done.
    destruct Hw as [-> | ->]; cbn -[Z.pow]; by rewrite ?andb_true_r, !andb_false_r.
  - destruct Hw as [-> | ->]; [apply nxrw_ok | apply nxro_ok].
Qed.

(** Unfolds the walk at one table: the entries of the table, and the index. *)
Ltac shifts :=
  repeat match goal with
    | |- context [12 + 9 * Z.of_nat ?n + 9] =>
        let v := eval vm_compute in (12 + 9 * Z.of_nat n + 9) in change (12 + 9 * Z.of_nat n + 9) with v
    | |- context [12 + 9 * Z.of_nat ?n] =>
        let v := eval vm_compute in (12 + 9 * Z.of_nat n) in change (12 + 9 * Z.of_nat n) with v
    end.
Ltac table :=
  rewrite walk_m1 by done;
  match goal with |- context [tab ?p (stores lomem)] => eval_stores (tab p (stores lomem)) end;
  shifts; cbn [look].
Ltac next_table := rewrite step_table by (auto; lia); simpl (a_write _); simpl (a_exec _ && _).

Section regions.
Context (i j k l o : Z) (Hi : index i) (Hj : index j) (Hk : index k) (Hl : index l) (Ho : 0 <= o < 4096).
#[local] Notation va := (va_at i j k l o).

Lemma walk_mapping acc : walk m1 3 (ptr2hpa mpml3) va acc = None.
Proof.
  destruct (va_at_indices i j k l o) as (_ & H30 & H21 & H12 & _); auto; unfold mpml3.
  table; rewrite H30; zcase; [|done]; next_table.
  table; rewrite H21; zcase; [|done]; next_table.
  by table.
Qed.

Lemma walk_node acc : walk m1 2 (ptr2hpa npml2) va acc = None.
Proof.
  destruct (va_at_indices i j k l o) as (_ & H30 & H21 & H12 & _); auto; unfold npml2.
  table; rewrite H21; zcase; [|done]; next_table; by table.
Qed.

Lemma walk_mach x u : walk m1 1 (ptr2hpa cpml1) va (Acc true x u) = mach_layout (l - 256) o.
Proof.
  destruct (va_at_indices i j k l o) as (_ & _ & _ & H12 & H0 & _); auto; unfold cpml1.
  table; rewrite H12.
  repeat (zcase; [subst l; first [rewrite step_page by (auto using hpa_frame; apply hpa_frame; lia); by rewrite H0 | done] |]).
  unfold mach_layout; by repeat (zcase; try lia).
Qed.

End regions.

(** A step over an entry that maps a large page of the kernel. *)
Lemma step_large m acc a hi w i j k l o : index i -> index j -> index k -> index l -> 0 <= o < 4096 ->
  frame (a * 2 ^ 21) -> hi = NX \/ hi = X -> w = RW \/ w = RO ->
  step m 1 (va_at i j k l o) acc (ors [hi; a * 2 ^ 21; L; w; P]) =
    Some (a * 2 ^ 21 + l * 4096 + o, Acc (a_write acc && bool_decide (w = RW)) (a_exec acc && bool_decide (hi = X)) false).
Proof.
  intros Hi Hj Hk Hl Ho Ha Hhi Hw.
  destruct (va_at_indices i j k l o) as (_ & _ & _ & _ & _ & H0 & _); auto.
  rewrite ors_second, step_lor; [|done| |lia].
  - shifts; rewrite ldiff_ones_mult, H0, Z.add_assoc by lia.
    destruct Hhi as [-> | ->], Hw as [-> | ->]; cbn -[Z.pow]; by rewrite ?andb_true_r, !andb_false_r.
  - destruct Hhi as [-> | ->], Hw as [-> | ->]; by vm_compute.
Qed.

Lemma walk_kpml1 x u i j k l o : index i -> index j -> index k -> index l -> 0 <= o < 4096 ->
  walk m1 1 (ptr2hpa kpml1) (va_at i j k l o) (Acc true x u) =
  if (l =? 0) || ((32 <=? l) && (l <? 64)) then Some (l * 4096 + o, rw)
  else if l =? 7 then Some (0x70000 + o, rw) else None.
Proof.
  intros Hi Hj Hk Hl Ho.
  destruct (va_at_indices i j k l o) as (_ & _ & _ & H12 & H0 & _); auto; unfold kpml1.
  table; rewrite H12.
  repeat (match goal with |- context [l =? ?c] => destruct (Z.eqb_spec l c) end; [subst l; first
    [rewrite step_page by (auto; by vm_compute)
    | change (ors [NX; RW; P]) with (ors [NX; 0; RW; P]); rewrite step_page by (auto; by vm_compute)];
    by rewrite H0 |]).
  by repeat (zcase; try lia).
Qed.

Lemma walk_kernel u i j k l o : index i -> index j -> index k -> index l -> 0 <= o < 4096 ->
  walk m1 3 (ptr2hpa kpml3) (va_at i j k l o) (Acc true true u) =
  if j =? 510 then kernel_layout (k * 2 ^ 21 + l * 2 ^ 12 + o) else None.
Proof.
  intros Hi Hj Hk Hl Ho.
  destruct (va_at_indices i j k l o) as (_ & H30 & H21 & H12 & H0 & _); auto; unfold kpml3.
  table; rewrite H30; zcase; [|done]; next_table; clear H30.
  change (2 ^ 12) with 4096; table; rewrite H21.
  zcase; [subst k; change 6291456 with (3 * 2 ^ 21); rewrite step_large by (auto; by vm_compute)
         | zcase; [subst k; change 4194304 with (2 * 2 ^ 21); rewrite step_large by (auto; by vm_compute)
         | zcase; [subst k; change 2097152 with (1 * 2 ^ 21); rewrite step_large by (auto; by vm_compute)
         | zcase; [subst k; next_table; rewrite walk_kpml1 by auto |]]]];
    unfold kernel_layout, index in *; change (2 ^ 21) with 2097152; cbn [a_write a_exec andb bool_decide];
    repeat (zcase; try lia); try done; simpl; repeat f_equal; lia.
Qed.

(** A path of four tables whose last entry maps a table. *)
Ltac window_path H30 H21 H12 H0 :=
  table; rewrite ?H30, ?H21, ?H12;
  repeat (zcase; [subst; first [next_table; window_path H30 H21 H12 H0
                               | rewrite step_page by (auto; apply hpa_frame; lia); by rewrite H0] |]);
  unfold window, windows; by repeat (zcase; try lia).

Lemma walk_recursive x u i j k l o : index i -> index j -> index k -> index l -> 0 <= o < 4096 ->
  walk m1 3 (ptr2hpa pml3) (va_at i j k l o) (Acc true x u) =
    (fun p => (ptr2hpa p + o, rw)) <$> window j k l windows.
Proof.
  intros Hi Hj Hk Hl Ho.
  destruct (va_at_indices i j k l o) as (_ & H30 & H21 & H12 & H0 & _); auto.
  unfold pml3; window_path H30 H21 H12 H0.
Qed.

Lemma boot_translate i j k l o : index i -> index j -> index k -> index l -> 0 <= o < 4096 ->
  translate m1 (ptr2hpa pml4) (va_at i j k l o) = layout i j k l o.
Proof.
  intros Hi Hj Hk Hl Ho.
  destruct (va_at_indices i j k l o) as (H39 & H30 & H21 & H12 & H0 & _ & Hc); auto.
  unfold translate; rewrite Hc; unfold pml4, layout; table; rewrite H39.
  zcase; [subst i; next_table; by apply walk_mapping|].
  zcase; [subst i; next_table|].
  { table; rewrite H30.
    zcase; [subst j; next_table; by rewrite walk_node|].
    zcase; [subst j; next_table|done].
    table; rewrite H21; zcase; [subst k; next_table; by apply walk_mach|done]. }
  zcase; [subst i; next_table; by apply walk_kernel|].
  zcase; [subst i; next_table; by apply walk_recursive|done].
Qed.

Lemma va_at_eta va : 0 <= va < W64 -> canonical va = true ->
  va = va_at (Pt.get_bits va 39 48) (Pt.get_bits va 30 39) (Pt.get_bits va 21 30) (Pt.get_bits va 12 21) (va mod 4096).
Proof.
  intros Hva Hc; unfold canonical in Hc; rewrite !get_bits_div in * by lia; unfold va_at.
  change (2 ^ (48 - 39)) with 512; change (2 ^ (39 - 30)) with 512; change (2 ^ (30 - 21)) with 512;
    change (2 ^ (21 - 12)) with 512; change (2 ^ (64 - 47)) with 131072 in Hc.
  assert (H12 := Z.div_mod va 4096); assert (H21 := Z.div_mod (va / 4096) 512).
  assert (H30 := Z.div_mod (va / 2 ^ 21) 512); assert (H39 := Z.div_mod (va / 2 ^ 30) 512).
  assert (H48 := Z.div_mod (va / 2 ^ 39) 512); assert (Hi := Z.mod_pos_bound (va / 2 ^ 39) 512).
  rewrite Z.div_div in H21, H30, H39 by lia; change (4096 * 512) with (2 ^ 21) in H21.
  change (2 ^ 21 * 512) with (2 ^ 30) in H30; change (2 ^ 30 * 512) with (2 ^ 39) in H39.
  assert (H47 : (va / 2 ^ 47) mod 131072 = va / 2 ^ 47)
    by (apply Z.mod_small; split; [apply Z.div_pos; lia | apply Z.div_lt_upper_bound; rewrite ?W64_val in *; lia]).
  rewrite H47 in Hc.
  assert (H39' : va / 2 ^ 47 = va / 2 ^ 39 / 256) by (by rewrite Z.div_div by lia).
  assert (Hr := Z.div_mod (va / 2 ^ 39) 256); assert (Hrb := Z.mod_pos_bound (va / 2 ^ 39) 256).
  change (va / 2 ^ 12) with (va / 4096); rewrite W64_val in Hva.
  apply orb_true_iff in Hc; rewrite !Z.eqb_eq, H39' in Hc; zcase; lia.
Qed.

(** ** The recursive region *)

(** The table reached from [tbl] by following entries that are present and are not
    large pages. *)
Fixpoint follow (m : mem) (tbl : Z) (path : list Z) : option Z :=
  match path with
  | [] => Some tbl
  | i :: path =>
      let e := ld 8 m (tbl + 8 * i) in
      if bit e 0 && negb (bit e 7) then follow m (Z.shiftl (Pt.get_bits e 12 52) 12) path else None
  end.

(** Where the recursive region is meant to show the table at [path]: the path, after
    as many recursive indices as it takes to reach the last level. *)
Definition window_va (path : list Z) (o : Z) : Z :=
  match path with
  | [] => va_at 508 508 508 508 o
  | [i] => va_at 508 508 508 i o
  | [i; j] => va_at 508 508 i j o
  | i :: j :: k :: _ => va_at 508 i j k o
  end.

Definition follow_e (e : Z) (path : list Z) : option Z :=
  if bit e 0 && negb (bit e 7) then follow m1 (Z.shiftl (Pt.get_bits e 12 52) 12) path else None.

Lemma follow_m1 p i path : table_page p = true -> index i ->
  follow m1 (ptr2hpa p) (i :: path) =
    match look i (tab p (stores lomem)) with Some ps => follow_e (ors ps) path | None => None end.
Proof. intros; cbn [follow]; rewrite m1_tables by auto; by destruct (look _ _). Qed.

Lemma follow_table p hi path : 0 <= p < 50 -> hi = NX \/ hi = X ->
  follow_e (ors [hi; ptr2hpa p; RW; P]) path = follow m1 (ptr2hpa p) path.
Proof.
  intros Hp Hhi; pose proof (hpa_frame p Hp) as Hf; unfold follow_e; rewrite ors_second.
  unfold bit; rewrite !Z.lor_spec, !(frame_bit _ _ Hf), get_bits_lor by lia.
  rewrite Z.shiftl_lor, get_bits_frame, ldiff_frame by (auto; lia).
  by destruct Hhi as [-> | ->]; simpl; rewrite Z.lor_0_r.
Qed.

Ltac ftable :=
  rewrite follow_m1 by done;
  match goal with |- context [tab ?p (stores lomem)] => eval_stores (tab p (stores lomem)) end;
  cbn [look].
Ltac fpath :=
  ftable;
  repeat (match goal with |- context [match (if ?a =? ?b then _ else _) with _ => _ end] => destruct (Z.eqb_spec a b) end;
          [subst; first [rewrite follow_table by (auto; lia) | done] |]).

Lemma recursive_entries path o : Forall index path -> (List.length path <= 3)%nat -> 0 <= o < 4096 ->
  head path <> Some 508 -> path <> [511; 0] -> path <> [511; 510] ->
  translate m1 (ptr2hpa pml4) (window_va path o) =
    (fun t => (t + o, rw)) <$> follow m1 (ptr2hpa pml4) path.
Proof.
  intros Hp Hl Ho Hh Hn1 Hn2.
  destruct path as [|i [|j [|k [|]]]]; repeat match goal with H : Forall _ (_ :: _) |- _ => inversion_clear H end;
    try (simpl in Hl; lia); cbn [window_va]; rewrite boot_translate by (try done; unfold index; lia).
  - done.
  - unfold pml4; fpath; try done; cbn; by repeat (zcase; try lia; try congruence).
  - unfold pml4; fpath; try done; try fpath.
    all: try (cbn; by repeat (zcase; try lia; try congruence)).
  - unfold pml4; fpath; try done; try fpath; try fpath.
    all: try (cbn; by repeat (zcase; try lia; try congruence)).
Qed.

Lemma kernel_path : follow m1 (ptr2hpa pml4) [511; 510] = Some (ptr2hpa kpml2) /\
  follow m1 (ptr2hpa pml4) [511; 0] = None.
Proof. split; unfold pml4; do 2 (ftable; cbn [Z.eqb Pos.eqb]; rewrite ?follow_table by (auto; lia)); done. Qed.
End boot_tables.

Lemma init0_pair lomem intr_stubs m : init0 lomem intr_stubs m = ((init0 lomem intr_stubs m).1, ptr2hpa lomem pml4).
Proof. done. Qed.

(** Only that the tables are in memory matters from here on. *)
Ltac only_tables :=
  match goal with Hz : zeroed ?lo ?m, Hlo : _ |- context [init0 ?lo ?s ?m] =>
    pose proof (init0_tables lo Hlo s m Hz) as Ht; rewrite (init0_pair lo s m);
    revert Ht; generalize ((init0 lo s m).1); intros m' Ht
  end.

Definition low_memory (lomem : Z) : Prop := 0 <= lomem /\ lomem mod 4096 = 0 /\ lomem + 50 * 4096 <= 2 ^ 46.

(** ** The address space as documented

    The page at [KZERO + 0x7000] is the one at physical address [0x7000]; every table
    appears under the indices that lead to it. *)
Definition intended_kernel (off : Z) : option (Z * access) :=
  if (0x7000 <=? off) && (off <? 0x8000) then Some (off, rw) else kernel_layout off.

Definition intended_windows : list (Z * Z * Z * Z) :=
  [(508, 508, 508, pml4);
   (508, 508, 509, mpml3); (508, 508, 510, ncpml3); (508, 508, 511, kpml3);
   (508, 509, 511, mpml2); (508, 510, 0, cpml2); (508, 510, 256, npml2); (508, 511, 510, kpml2);
   (509, 511, 511, mpml1); (510, 0, 0, cpml1); (510, 256, 0, npml1); (511, 510, 0, kpml1)].

Definition intended (lomem i j k l o : Z) : option (Z * access) :=
  if i =? 511 then
    if j =? 510 then intended_kernel (k * 2 ^ 21 + l * 2 ^ 12 + o) else None
  else if i =? 510 then
    if (j =? 0) && (k =? 0) then mach_layout lomem (l - 256) o else None
  else if i =? 508 then
    (fun p => (ptr2hpa lomem p + o, rw)) <$> window j k l intended_windows
  else None.

(** The three pages where the tables [init0] builds differ from that. *)
Definition deviates (lomem i j k l o : Z) : option (option (Z * access)) :=
  if (i =? 511) && (j =? 510) && (k =? 0) && (l =? 7) then Some (Some (0x70000 + o, rw))
  else if (i =? 508) && (j =? 508) && (k =? 511) && (l =? 510) then Some None
  else if (i =? 508) && (j =? 508) && (k =? 511) && (l =? 0) then Some (Some (ptr2hpa lomem kpml2 + o, rw))
  else None.

Lemma layout_intended lomem i j k l o : index j -> index k -> index l -> 0 <= o < 4096 ->
  layout lomem i j k l o = match deviates lomem i j k l o with Some r => r | None => intended lomem i j k l o end.
Proof.
  unfold layout, deviates, intended, index; intros Hj Hk Hl Ho.
  destruct (Z.eqb_spec i 511) as [->|Hi]; cbn [Z.eqb Pos.eqb andb].
  - destruct (j =? 510); cbn [andb]; [|done]; unfold intended_kernel, kernel_layout; change (2 ^ 21) with 2097152; change (2 ^ 12) with 4096.
    by repeat (zcase; cbn [andb]; try lia); try (repeat f_equal; lia).
  - destruct (Z.eqb_spec i 510) as [->|H510]; [done|]; destruct (Z.eqb_spec i 508) as [->|H508]; cbn [andb]; [|done].
    unfold window, windows, intended_windows; by repeat (zcase; cbn [andb]; subst; try lia).
Qed.

(** C33: the first address space of the x86_64 port: for any page-aligned, cleared
    low memory and every 64-bit address, the processor's walk from the root
    [init0] returns gives the documented address space (the kernel image with text
    executable and read-only, read-only data and data not executable, the [Mach]
    with its stacks, guard holes, tables, TSS, IDT and GDT, every table in the recursive
    region under its own indices, and nothing else) on every page but three:
    [KZERO + 0x7000] is at physical [0x70000], the window of the kernel's
    PML2 is not mapped, and the window of a table that does not exist shows it
    instead.  A non-canonical address translates to nothing. *)
Theorem init0_maps_exactly (lomem intr_stubs va : Z) (m : mem)
    (Hlo : low_memory lomem) (Hz : zeroed lomem m) (Hva : 0 <= va < W64) :
  let '(m', root) := init0 lomem intr_stubs m in
  let i := Pt.get_bits va 39 48 in let j := Pt.get_bits va 30 39 in
  let k := Pt.get_bits va 21 30 in let l := Pt.get_bits va 12 21 in let o := va mod 4096 in
  translate m' root va =
    if canonical va
    then match deviates lomem i j k l o with Some r => r | None => intended lomem i j k l o end
    else None.
Proof.
  only_tables; cbv zeta; destruct (canonical va) eqn:Hc; [|unfold translate; by rewrite Hc].
  rewrite <- layout_intended by (unfold index; rewrite ?get_bits_div by lia; apply Z.mod_pos_bound; lia).
  rewrite (va_at_eta va) at 1 by done; apply boot_translate; try done; unfold index;
    rewrite ?get_bits_div by lia; apply Z.mod_pos_bound; lia.
Qed.

(** C34: the recursive region shows the page tables themselves: the table reached from
    the root by any path of up to three present entries (starting outside the region)
    appears, writable and not executable, at the address formed by the recursive index
    and the path, and where there is no such table nothing is mapped.  The one
    exception is the kernel's second-level table, at path 511, 510: it appears at
    path 511, 0 instead. *)
Theorem recursive_region (lomem intr_stubs o : Z) (m : mem) (path : list Z)
    (Hlo : low_memory lomem) (Hz : zeroed lomem m) (Ho : 0 <= o < 4096)
    (Hp : Forall index path) (Hl : (List.length path <= 3)%nat) (Hh : head path <> Some 508) :
  let '(m', root) := init0 lomem intr_stubs m in
  translate m' root (window_va path o) =
    (fun t => (t + o, rw)) <$>
      (if bool_decide (path = [511; 510]) then None
       else if bool_decide (path = [511; 0]) then follow m' root [511; 510]
       else follow m' root path) /\
  follow m' root [511; 510] = Some (ptr2hpa lomem kpml2) /\ follow m' root [511; 0] = None.
Proof.
  only_tables; destruct (kernel_path lomem Hlo m' Ht) as [Hf H0]; split_and!; [|done|done].
  case_bool_decide; [subst path|case_bool_decide; [subst path; rewrite Hf|by apply recursive_entries]];
    cbn [window_va]; by rewrite boot_translate by (try done; unfold index; lia).
Qed.

Module XbDemo.

(** The boot code clears the second mebibyte and passes it to [init0]. *)
Definition lomem : Z := 0x100000.
Definition stubs : Z := KZERO + 0x3f0000.
Definition cleared : mem := fun _ => 0.

Lemma low : low_memory lomem.
Proof. split_and!; by vm_compute. Qed.

Lemma zero : zeroed lomem cleared.
Proof. by intros x _. Qed.

(** The stub page is text, at its physical address. *)
Lemma init0_maps_exactly_witness :
  let '(m', root) := init0 lomem stubs cleared in translate m' root stubs = Some (0x3f0000, rx).
Proof.
  pose proof (init0_maps_exactly lomem stubs stubs cleared low zero ltac:(by vm_compute)) as H.
  rewrite init0_pair in *; rewrite H; by vm_compute.
Defined.

(** The CPU region's first-level table, at its window. *)
Lemma recursive_region_witness :
  let '(m', root) := init0 lomem stubs cleared in
  translate m' root (window_va [510; 0; 0] 0) = (fun t => (t + 0, rw)) <$> follow m' root [510; 0; 0].
Proof.
  pose proof (recursive_region lomem stubs 0 cleared [510; 0; 0] low zero ltac:(lia)
    ltac:(repeat (apply Forall_cons; split; [unfold index; lia|]); by apply Forall_nil)
    ltac:(simpl; lia) ltac:(done)) as H.
  rewrite init0_pair in *; exact (proj1 H).
Defined.
End XbDemo.

End Xb.
