(* ===== verification/X86Mach.v ===== *)
(** * The x86_64 port: the per-CPU block and the delivery of traps
      ([x86_64/src/vsvm.rs], [x86_64/src/dat.rs])

    [vsvm::init] runs on the address space of [X86Boot]: it writes the [Mach]'s own
    address and its task state segment through the page tables and loads the
    descriptor tables.  The theorems follow a vector through the IDT, the GDT and the
    TSS to the stub and the stack it is delivered to. *)

From S2P Require Import Prelude Vm X86 X86Boot.
From Stdlib Require Import String.
#[local] Open Scope string_scope.
#[local] Open Scope Z_scope.

Module Xm.
Import Xd Xb.

Section mach.
Context (lomem : Z).
Hypothesis Hlo : low_memory lomem.
#[local] Notation ptr2hpa := (ptr2hpa lomem).

(** The [Mach] is mapped at [KMACH], page by page. *)
Lemma region_translate m va : tables lomem m -> KCPUZERO <= va < KCPUZERO + 2 ^ 21 ->
  translate m (ptr2hpa pml4) va = mach_layout lomem ((va - KMACH) / 4096) (va mod 4096).
Proof.
  intros Ht Hva; change (2 ^ 21) with 2097152 in Hva.
  assert (Hm : va mod 4096 = (va - KMACH) mod 4096)
    by (rewrite <- (Z.mod_add va (- (KMACH / 4096)) 4096) by lia; f_equal; unfold KMACH, KCPUZERO; simpl; lia).
  pose proof (Z.div_mod (va - KMACH) 4096); pose proof (Z.mod_pos_bound (va - KMACH) 4096).
  set (k := (va - KMACH) / 4096) in *; assert (-256 <= k < 256) by (unfold KMACH in *; lia).
  assert (va = va_at 510 0 0 (256 + k) (va mod 4096)) as ->
    by (rewrite Hm; unfold va_at; simpl; unfold KMACH, KCPUZERO in *; lia).
  rewrite boot_translate by (try done; unfold index; lia); unfold layout; simpl.
  replace (256 + k - 256) with k by lia; f_equal.
  destruct (va_at_indices 510 0 0 (256 + k) (va mod 4096)) as (_ & _ & _ & _ & Hoff & _); try (unfold index; lia).
  symmetry; exact Hoff.
Qed.

Lemma mach_translate m va : tables lomem m -> KMACH <= va < KMACH + Mach_size ->
  translate m (ptr2hpa pml4) va = mach_layout lomem ((va - KMACH) / 4096) (va mod 4096).
Proof. intros Ht Hva; apply region_translate; [done|]; change Mach_size with 262144 in Hva; unfold KMACH in *; lia. Qed.

(** The processor runs on the tables. *)
Definition booted (c : cpu) : Prop := tables lomem (phys c) /\ cr3 c = ptr2hpa pml4.

Definition data_page (p : Z) : bool := bool_decide (p ∈ [13; 15; 32]).

Lemma data_tables n p o v m : data_page p = true -> 0 <= o -> o + Z.of_nat n <= 4096 -> tables lomem m ->
  tables lomem (st n (ptr2hpa p + o) v m).
Proof.
  unfold data_page; intros Hp%bool_decide_eq_true Ho Hn Ht; apply st_tables; [done|]; intros q Hq.
  apply table_page_range in Hq; unfold Xb.ptr2hpa; set_unfold in Hp; lia.
Qed.

Lemma vst_mach n va v c p : booted c -> KMACH <= va < KMACH + Mach_size -> va mod 4096 + Z.of_nat n <= 4096 ->
  mach_layout lomem ((va - KMACH) / 4096) (va mod 4096) = Some (ptr2hpa p + va mod 4096, rw) ->
  vst n va v c = Some (with_phys c (st n (ptr2hpa p + va mod 4096) v (phys c))).
Proof.
  intros [Ht Hc] Hva Hn Hl; unfold vst; rewrite (proj2 (Z.leb_le _ _)), Hc by lia.
  by rewrite mach_translate, Hl by done.
Qed.

Lemma vld_mach n va c p acc : booted c -> KMACH <= va < KMACH + Mach_size -> va mod 4096 + Z.of_nat n <= 4096 ->
  mach_layout lomem ((va - KMACH) / 4096) (va mod 4096) = Some (ptr2hpa p + va mod 4096, acc) ->
  vld n va c = Some (ld n (phys c) (ptr2hpa p + va mod 4096)).
Proof.
  intros [Ht Hc] Hva Hn Hl; unfold vld; rewrite (proj2 (Z.leb_le _ _)), Hc by lia.
  by rewrite mach_translate, Hl by done.
Qed.


(** Where the stacks of the [Mach] end, and where the TSS holds each. *)
Definition tops : list (Z * Z) :=
  [(4, KMACH + 0x20000); (36, KMACH + 0x7000); (44, KMACH + 0x1000); (52, KMACH + 0x3000); (60, KMACH + 0x5000)].

Definition busy_task : Z := Pt.with_bits (TaskStateDescr_new KMACHTSS) 41 42 1.

(** Memory after [Mach::init]. *)
Definition mach_mem (m : mem) : mem :=
  let m := st 8 (ptr2hpa mach_page + 0) KMACH m in
  let m := fold_left (fun m '(o, top) => st 4 (ptr2hpa arch_page + (o + 4)) (Pt.get_bits top 32 64)
                                           (st 4 (ptr2hpa arch_page + o) (Pt.get_bits top 0 32) m)) tops m in
  let m := st 2 (ptr2hpa arch_page + 102) 104 m in
  st 16 (ptr2hpa gdt_page + 48) busy_task m.

Lemma mach_va k o : 0 <= o < 4096 -> (KMACH + 4096 * k + o) mod 4096 = o /\ (KMACH + 4096 * k + o - KMACH) / 4096 = k.
Proof.
  intros; replace (KMACH + 4096 * k + o - KMACH) with (o + k * 4096) by lia.
  replace (KMACH + 4096 * k + o) with (o + (KMACH / 4096 + k) * 4096)
    by (assert (KMACH = KMACH / 4096 * 4096) by (by vm_compute); lia).
  rewrite Z.mod_add, Z.div_add, Z.mod_small, Z.div_small by lia; lia.
Qed.

(** A store at offset [o] of page [k] of the [Mach], which is page [p] of low memory. *)
Lemma vst_page n k o v c m p va : cr3 c = ptr2hpa pml4 -> tables lomem m ->
  0 <= k < 64 -> 0 <= o < 4096 -> o + Z.of_nat n <= 4096 -> va = KMACH + 4096 * k + o ->
  (forall o, mach_layout lomem k o = Some (ptr2hpa p + o, rw)) -> data_page p = true ->
  let m' := st n (ptr2hpa p + o) v m in vst n va v (with_phys c m) = Some (with_phys c m') /\ tables lomem m'.
Proof.
  intros Hc Ht Hk Ho Hn -> Hl Hp; split; [|apply data_tables; auto; lia].
  destruct (mach_va k o) as [Hm Hd]; [lia|].
  by rewrite (vst_mach _ _ _ (with_phys c m) p); rewrite ?Hm, ?Hd; [|by split|change Mach_size with 262144; lia|..].
Qed.

Lemma mach_offsets :
  offset_of Mach_fields "me" = 0x20000 /\ offset_of Mach_fields "tss" = 0x28000 /\
  offset_of Mach_fields "stack" = 0x10000 /\ offset_of Mach_fields "nmi_stack" = 0x6000 /\
  offset_of Mach_fields "debug_stack" = 0 /\ offset_of Mach_fields "bp_stack" = 0x2000 /\
  offset_of Mach_fields "df_stack" = 0x4000 /\ offset_of Mach_fields "idt" = 0x29000 /\
  offset_of Mach_fields "gdt" = 0x30000 /\ offset_of Tss_fields "iomb" = 102 /\ Tss_size mod W16 = 104 /\
  Gdt_size = 65536 /\ Idt_size = 4096.
Proof. by vm_compute. Qed.

Lemma stack_tops :
  KStack_top (KMACH + 0x10000) = KMACH + 0x20000 /\ ExStack_top (KMACH + 0x6000) = KMACH + 0x7000 /\
  ExStack_top (KMACH + 0) = KMACH + 0x1000 /\ ExStack_top (KMACH + 0x2000) = KMACH + 0x3000 /\
  ExStack_top (KMACH + 0x4000) = KMACH + 0x5000.
Proof. by vm_compute. Qed.

Lemma set_stack_runs c m trapno top o : cr3 c = ptr2hpa pml4 -> tables lomem m ->
  offset_of Tss_fields (ist_field (from_trap trapno)) = o -> 0 <= o <= 96 ->
  let m' := st 4 (ptr2hpa arch_page + (o + 4)) (Pt.get_bits top 32 64)
              (st 4 (ptr2hpa arch_page + o) (Pt.get_bits top 0 32) m) in
  set_stack (KMACH + 0x28000) trapno top (with_phys c m) = Some (with_phys c m') /\ tables lomem m'.
Proof.
  intros Hc Ht Ho Hr; unfold set_stack; rewrite Ho.
  destruct (vst_page 4 40 o (Pt.get_bits top 0 32) c m arch_page (KMACH + 0x28000 + o)) as [-> Ht1];
    [done | done | lia .. | done | done |]; cbn [mbind option_bind].
  by destruct (vst_page 4 40 (o + 4) (Pt.get_bits top 32 64) c _ arch_page (KMACH + 0x28000 + o + 4) Hc Ht1) as [-> Ht2];
    [lia .. | done | done |].
Qed.

Lemma ltr_runs c : booted c -> gdtr c = (KMACH + 0x30000, 65535) ->
  ld 16 (phys c) (ptr2hpa gdt_page + 48) = TaskStateDescr_new KMACHTSS ->
  ltr tasksel c = Some (Cpu (st 16 (ptr2hpa gdt_page + 48) busy_task (phys c)) (cr3 c) (gdtr c) (idtr c)
                          (KMACHTSS, 425983) (gsbase c) (kernel_gs_base c) (msr_star c) (msr_lstar c) (msr_fmask c) (seg_cs c)).
Proof.
  intros Hb Hg Hd; unfold ltr; rewrite Hg; cbn [fst snd].
  change (tasksel + 15 <=? 65535) with true; cbv iota.
  change (KMACH + 0x30000 + tasksel) with (KMACHTSS + 0x8030).
  rewrite (vld_mach 16 _ c 15 rw Hb) by by vm_compute.
  change ((KMACHTSS + 0x8030) mod 4096) with 48; cbn [mbind option_bind]; change 15 with gdt_page; rewrite Hd.
  replace ((Pt.get_bits (TaskStateDescr_new KMACHTSS) 40 45 =? 9) && _) with true by by vm_compute; cbv iota.
  rewrite (vst_mach 16 _ _ c 15 Hb) by by vm_compute; cbn [mbind option_bind].
  replace (tss_base _, tss_limit _) with (KMACHTSS, 425983) by by vm_compute.
  by change ((KMACHTSS + 0x8030) mod 4096) with 48; simpl; rewrite Hg.
Qed.

Lemma vld_page n k o c p acc va : booted c -> 0 <= k < 64 -> 0 <= o < 4096 -> o + Z.of_nat n <= 4096 ->
  va = KMACH + 4096 * k + o -> (forall o, mach_layout lomem k o = Some (ptr2hpa p + o, acc)) ->
  vld n va c = Some (ld n (phys c) (ptr2hpa p + o)).
Proof.
  intros Hb Hk Ho Hn -> Hl; destruct (mach_va k o) as [Hm Hd]; [lia|].
  by rewrite (vld_mach n _ c p acc Hb); rewrite ?Hm, ?Hd; [|change Mach_size with 262144; lia|..].
Qed.

(** The new GDT is in force: the code segment is reloaded from it. *)
Lemma lgdt_runs c : booted c -> cpl c = 0 -> ld 8 (phys c) (ptr2hpa gdt_page + 8) = ktext64 ->
  lgdt (KMACH + 0x30000) c =
    Some (Cpu (phys c) (cr3 c) (KMACH + 0x30000, 65535) (idtr c) (tr c) (gsbase c) (kernel_gs_base c)
            (msr_star c) (msr_lstar c) (msr_fmask c) 8).
Proof.
  destruct mach_offsets as (_ & _ & _ & _ & _ & _ & _ & _ & _ & _ & _ & Eg & _); intros Hb Hcpl Hd.
  unfold lgdt; rewrite Eg; change ((65536 - 1) mod W16) with 65535; set (c1 := Cpu _ _ _ _ _ _ _ _ _ _ _).
  unfold far_return; change (cpl c1) with (cpl c); rewrite Hcpl; change (gdtr c1) with (KMACH + 0x30000, 65535); cbn [fst snd].
  change (negb (Z.ldiff 8 7 =? 0) && negb (bit 8 2) && (Z.ldiff 8 7 + 7 <=? 65535) && (Z.land 8 3 =? 0)) with true; cbv iota.
  change (Z.ldiff 8 7) with 8; rewrite (vld_page 8 48 8 c1 gdt_page rw) by (try done; lia); change (phys c1) with (phys c); rewrite Hd.
  reflexivity.
Qed.

Lemma load_runs c : booted c -> cpl c = 0 -> ld 8 (phys c) (ptr2hpa gdt_page + 8) = ktext64 ->
  ld 16 (phys c) (ptr2hpa gdt_page + 48) = TaskStateDescr_new KMACHTSS ->
  (c ← lgdt (KMACH + 0x30000) c; ltr tasksel (lidt (KMACH + 0x29000) c)) =
    Some (Cpu (st 16 (ptr2hpa gdt_page + 48) busy_task (phys c)) (cr3 c) (KMACH + 0x30000, 65535)
            (KMACH + 0x29000, 4095) (KMACHTSS, 425983) (gsbase c) (kernel_gs_base c)
            (msr_star c) (msr_lstar c) (msr_fmask c) 8).
Proof.
  destruct mach_offsets as (_ & _ & _ & _ & _ & _ & _ & _ & _ & _ & _ & _ & Ei); intros Hb Hcpl Hg Hd.
  rewrite (lgdt_runs c Hb Hcpl Hg); cbn [mbind option_bind]; destruct Hb; rewrite ltr_runs; unfold lidt; rewrite ?Ei; done.
Qed.

Ltac next_stack o :=
  match goal with Hc : cr3 ?c = _, Ht : tables lomem ?m |- context [set_stack _ ?t ?top (with_phys ?c ?m)] =>
    let H := fresh in
    destruct (set_stack_runs c m t top o Hc Ht ltac:(by vm_compute) ltac:(lia)) as [-> H]; clear Ht;
    cbn [mbind option_bind]
  end.

(** The task descriptor is not in the pages [Tss::init] writes. *)
Ltac other_pages := unfold Xb.ptr2hpa, mach_page, arch_page, gdt_page; lia.

Lemma with_phys_self c : with_phys c (phys c) = c.
Proof. by destruct c. Qed.

Lemma Mach_init_runs c m : cr3 c = ptr2hpa pml4 -> cpl c = 0 -> tables lomem m ->
  ld 8 m (ptr2hpa gdt_page + 8) = ktext64 -> ld 16 m (ptr2hpa gdt_page + 48) = TaskStateDescr_new KMACHTSS ->
  Mach_init KMACH (with_phys c m) =
    Some (Cpu (mach_mem m) (cr3 c) (KMACH + 0x30000, 65535) (KMACH + 0x29000, 4095)
            (KMACHTSS, 425983) (gsbase c) (kernel_gs_base c) (msr_star c) (msr_lstar c) (msr_fmask c) 8).
Proof.
  intros Hc Hcpl Ht Hg Hd; destruct mach_offsets as (Eme & Etss & Est & Enmi & Edb & Ebp & Edf & Eidt & Egdt & Eio & Esz & _).
  unfold Mach_init, Tss_init; rewrite Eme, Etss, Est, Enmi, Edb, Ebp, Edf, Eidt, Egdt, Eio, Esz; cbn [set_stacks].
  destruct stack_tops as (-> & -> & -> & -> & ->).
  destruct (vst_page 8 32 0 KMACH c m mach_page (KMACH + 0x20000)) as [-> Ht1]; [done | done | lia .. | done | done |].
  clear Ht; cbn [mbind option_bind]; next_stack 4; next_stack 36; next_stack 44; next_stack 52; next_stack 60.
  match goal with Ht : tables lomem ?m' |- _ =>
    destruct (vst_page 2 40 102 104 c m' arch_page (KMACH + 0x28000 + 102) Hc Ht) as [-> Ht2];
      [lia .. | done | done |] end.
  cbn [mbind option_bind]; rewrite load_runs; [reflexivity | by split | done | |].
  all: cbn [phys with_phys]; rewrite !ld_other by other_pages; done.
Qed.


Lemma vsvm_init_runs c m : cr3 c = ptr2hpa pml4 -> cpl c = 0 -> tables lomem m ->
  ld 8 m (ptr2hpa gdt_page + 8) = ktext64 -> ld 16 m (ptr2hpa gdt_page + 48) = TaskStateDescr_new KMACHTSS ->
  vsvm_init KMACH (with_phys c m) =
    Some (Cpu (mach_mem m) (cr3 c) (KMACH + 0x30000, 65535) (KMACH + 0x29000, 4095)
            (KMACHTSS, 425983) (KMACH + 0x20000) 0 (msr_star c) (msr_lstar c) (msr_fmask c) 8).
Proof. intros; unfold vsvm_init; by rewrite Mach_init_runs. Qed.


(** ** What [init0] leaves in the IDT and the GDT *)

Lemma stores_in_tables : forallb (fun s => table_page (s_page s)) (stores lomem) = true.
Proof. reflexivity. Qed.

Lemma ld_stores_other n ws m p o : Forall (store_ok) ws -> forallb (fun s => table_page (s_page s)) ws = true ->
  table_page p = false -> 0 <= o -> o + Z.of_nat n <= 4096 ->
  ld n (fold_left (do_store lomem) ws m) (ptr2hpa p + o) = ld n m (ptr2hpa p + o).
Proof.
  intros Hw Hp Hq Ho Hn; revert m; induction Hw as [|s ws [Hi _] _ IH]; intros m; [done|].
  cbn [forallb fold_left] in *; apply andb_true_iff in Hp as [Hs Hp]; rewrite IH by done.
  apply ld_other; unfold Xb.ptr2hpa; assert (s_page s <> p) by congruence; lia.
Qed.

Lemma with_bits_bound e l h v n : 0 <= l <= h -> h <= n -> 0 <= e < 2 ^ n -> 0 <= Pt.with_bits e l h v < 2 ^ n.
Proof.
  intros Hl Hn He; assert (Pt.with_bits e l h v = Pt.with_bits e l h v mod 2 ^ n) as ->; [|apply Z.mod_pos_bound; lia].
  apply Z.bits_inj'; intros i Hi; destruct (Z.lt_ge_cases i n); [by rewrite Z.mod_pow2_bits_low by lia|].
  rewrite Z.mod_pow2_bits_high, Pt.testbit_with_bits by lia.
  rewrite (proj2 (Z.ltb_ge i h)), andb_false_r by lia.
  rewrite <- (Z.mod_small e (2 ^ n)) by lia; by rewrite Z.mod_pow2_bits_high by lia.
Qed.

Lemma idt_gate_bound stubs v : 0 <= idt_gate stubs v < 256 ^ 16.
Proof.
  unfold idt_gate, IntrGateDescr_new; change (256 ^ 16) with (2 ^ 128).
  repeat (apply with_bits_bound; [lia | lia |]); by vm_compute.
Qed.

Lemma ld_Idt_gate base stubs m v : 0 <= v < 256 -> ld 16 (Idt_init base stubs m) (base + 16 * v) = idt_gate stubs v.
Proof.
  intros Hv; unfold Idt_init; assert (Hin : v ∈ seqZ 0 256) by (apply elem_of_seqZ; lia).
  revert m Hin; generalize (seqZ 0 256) as l; induction l as [|k l IH]; intros m Hin; [set_solver|].
  cbn [fold_left]; destruct (decide (v ∈ l)) as [Hl|Hl]; [by apply IH|].
  assert (k = v) as -> by set_solver; clear IH Hin.
  assert (Hs : ld 16 (st 16 (base + 16 * v) (idt_gate stubs v) m) (base + 16 * v) = idt_gate stubs v)
    by apply ld_same, idt_gate_bound.
  rewrite <- Hs at 2; generalize (st 16 (base + 16 * v) (idt_gate stubs v) m) as m'; clear Hs m.
  induction l as [|k l IH]; intros m; [done|]; cbn [fold_left].
  rewrite IH by set_solver; apply ld_other; assert (k <> v) by set_solver; lia.
Qed.

(** The IDT, the kernel text descriptor and the task descriptor. *)
Lemma init0_idt stubs m v : 0 <= v < 256 ->
  ld 16 (init0 lomem stubs m).1 (ptr2hpa idt + 16 * v) = idt_gate stubs v.
Proof.
  intros Hv; unfold init0; cbn [fst].
  rewrite ld_stores_other by (try done; try apply stores_ok; try apply stores_in_tables; try done; lia).
  rewrite ld_Gdt by (unfold Xb.ptr2hpa, idt, gdt_page; lia); by apply ld_Idt_gate.
Qed.

Lemma init0_gdt stubs m :
  ld 8 (init0 lomem stubs m).1 (ptr2hpa gdt_page + 8) = ktext64 /\
  ld 16 (init0 lomem stubs m).1 (ptr2hpa gdt_page + 48) = TaskStateDescr_new KMACHTSS.
Proof.
  unfold init0; cbn [fst].
  rewrite !ld_stores_other by (try done; try apply stores_ok; try apply stores_in_tables; try done; lia).
  unfold Gdt_init_in; cbv zeta beta; eval_offsets; split.
  - do 5 rewrite ld_other by lia; by apply ld_same.
  - apply ld_same; by vm_compute.
Qed.


(** ** Delivery *)

Lemma ist_range v : 0 <= ist_u8 (from_trap v) < 8.
Proof. unfold from_trap; repeat (zcase; [simpl; lia|]); simpl; lia. Qed.

Lemma sum_bits va : 0 <= va < W64 ->
  Pt.get_bits va 0 16 + Z.shiftl (Pt.get_bits va 16 32) 16 + Z.shiftl (Pt.get_bits va 32 64) 32 = va.
Proof.
  intros Hva; rewrite W64_val in Hva; rewrite !get_bits_div, !Z.shiftl_mul_pow2 by lia.
  rewrite Z.div_1_r, (Z.mod_small (va / 2 ^ 32)) by (split; [apply Z.div_pos | apply Z.div_lt_upper_bound]; lia).
  pose proof (Z.div_mod va 65536); pose proof (Z.div_mod (va / 65536) 65536).
  rewrite Z.div_div in * by lia; change (65536 * 65536) with 4294967296 in *.
  change (2 ^ (16 - 0)) with 65536; change (2 ^ (32 - 16)) with 65536; change (2 ^ 16) with 65536;
    change (2 ^ 32) with 4294967296; lia.
Qed.

(** The fields the processor reads from a gate. *)
Lemma gate_fields stubs v : 0 <= stubs -> stubs + 8 * 256 <= W64 -> 0 <= v < 256 ->
  let g := idt_gate stubs v in
  gate_offset g = stubs + 8 * v /\ Pt.get_bits g 16 32 = 8 /\ Pt.get_bits g 32 35 = ist_u8 (from_trap v) /\
  Pt.get_bits g 40 45 = 14 /\ bit g 47 = true /\ Pt.get_bits g 45 47 = if v =? BREAKPOINT_TRAPNO then 3 else 0.
Proof.
  intros Hs He Hv; pose proof (ist_range v); unfold idt_gate, IntrGateDescr_new, gate_offset.
  unfold with_dpl, with_present, with_segment_selector, with_stack_table_index, with_offset32, with_offset16, with_offset0.
  assert (Hsum := sum_bits (stubs + 8 * v)); repeat split.
  - repeat first [rewrite Pt.get_with_same by lia | rewrite Pt.get_with_other by lia].
    rewrite !get_bits_div, !Z.mod_mod in * by lia; apply Hsum; lia.
  - repeat first [rewrite Pt.get_with_same by lia | rewrite Pt.get_with_other by lia]; by vm_compute.
  - repeat first [rewrite Pt.get_with_same by lia | rewrite Pt.get_with_other by lia]; by apply Z.mod_small.
  - repeat first [rewrite Pt.get_with_same by lia | rewrite Pt.get_with_other by lia]; by vm_compute.
  - unfold bit; rewrite !Pt.testbit_with_bits by lia; by vm_compute.
  - rewrite Pt.get_with_same by lia; by destruct (v =? _).
Qed.


Lemma mach_mem_other n p o m : p <> 13 -> p <> 32 -> 0 <= o -> o + Z.of_nat n <= 4096 ->
  p <> 15 \/ o + Z.of_nat n <= 48 -> ld n (mach_mem m) (ptr2hpa p + o) = ld n m (ptr2hpa p + o).
Proof.
  intros; unfold mach_mem, tops; cbn [fold_left]; unfold Xb.ptr2hpa, mach_page, arch_page, gdt_page.
  by rewrite !ld_other by lia.
Qed.

Lemma mach_mem_tables m : tables lomem m -> tables lomem (mach_mem m).
Proof.
  intros Ht p i Hp Hi; pose proof (table_page_range p Hp).
  rewrite mach_mem_other by lia; by apply Ht.
Qed.

(** The TSS holds the tops of the stacks. *)
Lemma mach_mem_top i o top m : tops !! i = Some (o, top) -> ld 8 (mach_mem m) (ptr2hpa arch_page + o) = top.
Proof.
  intros Hin; unfold mach_mem; rewrite (ld_app 4 4).
  unfold tops in *; cbn [fold_left]; unfold Xb.ptr2hpa, mach_page, arch_page, gdt_page.
  destruct i as [|[|[|[|[|]]]]]; simplify_eq/=.
  all: repeat first [rewrite ld_other by lia | rewrite ld_same by (by vm_compute)
                    | rewrite ld_part by lia].
  all: match goal with |- context [256 ^ (?a - ?b)] => replace (a - b) with 0 by lia end; by vm_compute.
Qed.

(** The processor after [vsvm::init]. *)
Definition ready (c : cpu) (m : mem) : cpu :=
  Cpu (mach_mem m) (cr3 c) (KMACH + 0x30000, 65535) (KMACH + 0x29000, 4095) (KMACHTSS, 425983) (KMACH + 0x20000) 0
    (msr_star c) (msr_lstar c) (msr_fmask c) 8.

(** The stack a vector taken on stack [rsp] is handled on. *)
Definition handler_stack (v rsp : Z) : Z :=
  if v =? NMI_TRAPNO then KMACH + 0x7000
  else if v =? DEBUG_TRAPNO then KMACH + 0x1000
  else if v =? BREAKPOINT_TRAPNO then KMACH + 0x3000
  else if v =? DOUBLE_FAULT_TRAPNO then KMACH + 0x5000
  else rsp.

(** The stacks of the [Mach], by their first page and the page after their last. *)
Definition stacks : list (Z * Z) := [(0, 1); (2, 3); (4, 5); (6, 7); (16, 32)].

Lemma stack_pages lo hi : (lo, hi) ∈ stacks -> 0 <= lo < hi /\ hi <= 40 /\
  (forall k o, lo <= k < hi -> mach_layout lomem k o = Some (ptr2hpa k + o, rw)) /\
  (forall o, mach_layout lomem (lo - 1) o = None).
Proof.
  intros Hin; unfold stacks in Hin.
  repeat (apply elem_of_cons in Hin as [[=-> ->]|Hin];
    [split_and!; [lia | lia | lia | intros k o Hk; unfold mach_layout; by repeat (zcase; try lia) | done]|]).
  by apply elem_of_nil in Hin.
Qed.

(** They are mapped, writable, in one piece; the page below each is a hole. *)
Lemma stack_mapped m lo hi : tables lomem m -> (lo, hi) ∈ stacks ->
  (forall va, KMACH + 4096 * lo <= va < KMACH + 4096 * hi ->
     translate m (ptr2hpa pml4) va = Some (lomem + (va - KMACH), rw)) /\
  (forall va, KMACH + 4096 * (lo - 1) <= va < KMACH + 4096 * lo -> translate m (ptr2hpa pml4) va = None).
Proof.
  intros Ht (Hr & Hh & Hin & Hg)%stack_pages; split; intros va Hva;
    (rewrite region_translate by (auto; unfold KMACH in *; lia));
    pose proof (Z.div_mod (va - KMACH) 4096); pose proof (Z.mod_pos_bound (va - KMACH) 4096).
  - rewrite Hin by lia; unfold Xb.ptr2hpa; do 2 f_equal.
    destruct (mach_va ((va - KMACH) / 4096) ((va - KMACH) mod 4096)) as [Hm _]; [lia|].
    replace (KMACH + 4096 * ((va - KMACH) / 4096) + (va - KMACH) mod 4096) with va in Hm by lia; lia.
  - replace ((va - KMACH) / 4096) with (lo - 1) by lia; apply Hg.
Qed.

(** A stack pointer with room for a frame on one of them. *)
Definition on_stack (rsp : Z) : Prop :=
  exists lo hi, (lo, hi) ∈ stacks /\ KMACH + 4096 * lo + 64 <= rsp <= KMACH + 4096 * hi.

(** No page of the address space is a user page. *)
Lemma no_user m va pa acc : tables lomem m -> 0 <= va < W64 -> translate m (ptr2hpa pml4) va = Some (pa, acc) -> a_user acc = false.
Proof.
  intros Ht Hva H; destruct (canonical va) eqn:Hc; [|unfold translate in H; by rewrite Hc in H].
  rewrite (va_at_eta va) in H by done; rewrite boot_translate in H
    by (try done; unfold index; rewrite ?get_bits_div by lia; apply Z.mod_pos_bound; lia).
  revert H; generalize (Pt.get_bits va 39 48), (Pt.get_bits va 30 39), (Pt.get_bits va 21 30), (Pt.get_bits va 12 21), (va mod 4096).
  intros i1 i2 i3 i4 o; unfold layout, kernel_layout, mach_layout.
  destruct (window _ _ _ _); cbn [fmap option_fmap option_map]; intros H; repeat case_match; by simplify_eq.
Qed.

Lemma stack_table p lo hi k : (lo, hi) ∈ stacks -> lo <= k < hi -> table_page p = true -> p <> k.
Proof.
  intros Hin Hk Hp ->; unfold table_page in Hp; apply bool_decide_eq_true in Hp; unfold stacks in Hin; set_unfold in Hin; set_unfold in Hp; naive_solver lia.
Qed.

(** Words pushed on a stack of the [Mach] lie below each other; nothing else is
    written. *)
Lemma pushes_runs lo hi ws : (lo, hi) ∈ stacks -> Forall (fun w => 0 <= w < W64) ws -> forall rsp c,
  booted c -> cpl c <> 3 -> rsp mod 8 = 0 -> KMACH + 4096 * lo + 8 * len ws <= rsp <= KMACH + 4096 * hi ->
  exists m', pushes rsp ws c = Some (rsp - 8 * len ws, with_phys c m') /\ tables lomem m' /\
    (forall x, ~ lomem + (rsp - 8 * len ws - KMACH) <= x < lomem + (rsp - KMACH) -> m' x = phys c x) /\
    (forall i w, ws !! i = Some w -> ld 8 m' (lomem + (rsp - 8 * (Z.of_nat i + 1) - KMACH)) = w).
Proof.
  intros Hin; pose proof (stack_pages lo hi Hin) as (Hlo' & Hhi & _ & _).
  induction 1 as [|w ws Hw Hws IH]; intros rsp c Hb Hcpl Hal Hr.
  { exists (phys c); rewrite with_phys_self; cbn [pushes]; change (len []) with 0; rewrite Z.sub_0_r; split_and!; [done|apply Hb|done|done]. }
  assert (Hlen : len (w :: ws) = len ws + 1) by (unfold len; simpl; lia); rewrite Hlen in *; pose proof (len_nonneg ws); cbn [pushes]; unfold push.
  assert (Hmod : (rsp - 8) mod W64 = rsp - 8) by (apply Z.mod_small; rewrite W64_val; unfold KMACH, KCPUZERO in *; lia); rewrite Hmod.
  assert (Hal8 : (rsp - 8) mod 8 = 0) by (by rewrite <- (Z.mod_add _ 1) by lia; replace (rsp - 8 + 1 * 8) with rsp by lia).
  assert (Hpg : (rsp - 8) mod 4096 + 8 <= 4096).
  { pose proof (Z.mod_pos_bound (rsp - 8) 4096); pose proof (Z.div_mod (rsp - 8) 4096); pose proof (Z.div_mod (rsp - 8) 8); lia. }
  rewrite (proj2 (Z.leb_le _ _)) by done; destruct Hb as [Ht Hc]; rewrite Hc.
  destruct (stack_mapped (phys c) lo hi Ht Hin) as [Hmap _]; rewrite Hmap by lia; cbn [mbind option_bind a_write rw].
  rewrite (proj2 (Z.eqb_neq _ _)) by done; cbn [andb orb negb mbind option_bind].
  set (c1 := with_phys c _).
  assert (Ht1 : tables lomem (phys c1)).
  { apply st_tables; [done|]; intros p Hp; unfold Xb.ptr2hpa.
    pose proof (stack_table p lo hi ((rsp - 8 - KMACH) / 4096) Hin) as Hne.
    pose proof (Z.div_mod (rsp - 8 - KMACH) 4096); pose proof (Z.mod_pos_bound (rsp - 8 - KMACH) 4096).
    assert ((rsp - 8 - KMACH) mod 4096 + 8 <= 4096).
    { destruct (mach_va ((rsp - 8 - KMACH) / 4096) ((rsp - 8 - KMACH) mod 4096)) as [Hm _]; [lia|].
      replace (KMACH + 4096 * ((rsp - 8 - KMACH) / 4096) + (rsp - 8 - KMACH) mod 4096) with (rsp - 8) in Hm by lia; lia. }
    destruct (Z.eq_dec p ((rsp - 8 - KMACH) / 4096)); [exfalso; apply Hne; [lia|done|done]|lia]. }
  destruct (IH (rsp - 8) c1 ltac:(by split) Hcpl Hal8 ltac:(lia)) as (m' & E & Ht' & Hframe & Hld).
  exists m'; split_and!; [rewrite E; do 2 f_equal; lia|done|..].
  - intros x Hx; rewrite Hframe by lia; cbn [phys c1 with_phys]; unfold st.
    by destruct (Z.leb_spec (lomem + (rsp - 8 - KMACH)) x), (Z.ltb_spec x (lomem + (rsp - 8 - KMACH) + Z.of_nat 8)); cbn [andb]; try lia.
  - intros [|i] w' Hi; simplify_eq/=.
    + rewrite (ld_ext 8 m' (phys c1)) by (intros x Hx; apply Hframe; lia); cbn [phys c1 with_phys].
      replace (lomem + (rsp - 8 - KMACH)) with (lomem + (rsp - 8 * (Z.of_nat 0 + 1) - KMACH)) by lia; by apply ld_same.
    + replace (rsp - 8 * (Z.of_nat (S i) + 1)) with (rsp - 8 - 8 * (Z.of_nat i + 1)) by lia; by apply Hld.
Qed.

(** A push at level 3 faults. *)
Lemma push_user rsp w c : booted c -> cpl c = 3 -> push rsp w c = None.
Proof.
  intros [Ht Hc] Hcpl; unfold push; destruct (_ <=? _); [|done]; rewrite Hc.
  destruct (translate (phys c) (ptr2hpa pml4) _) as [[pa acc]|] eqn:E; [|done]; cbn [mbind option_bind].
  rewrite (no_user _ _ _ _ Ht ltac:(apply Z.mod_pos_bound; rewrite W64_val; lia) E), Hcpl; by destruct (a_write acc).
Qed.

Definition in_text (stubs : Z) : Prop := KZERO + 0x200000 <= stubs /\ stubs + 8 * 256 <= KZERO + 0x400000.

Lemma text_translate m va : tables lomem m -> KZERO + 0x200000 <= va < KZERO + 0x400000 ->
  translate m (ptr2hpa pml4) va = Some (va - KZERO, rx).
Proof.
  intros Ht Hva; set (o := va - KZERO - 0x200000).
  pose proof (Z.div_mod o 4096); pose proof (Z.mod_pos_bound o 4096).
  assert (va = va_at 511 510 1 (o / 4096) (o mod 4096)) as E by (unfold va_at; simpl; unfold KZERO in *; lia).
  rewrite E, boot_translate by (try done; unfold index, KZERO in *; lia); unfold layout; cbn [Z.eqb Pos.eqb].
  change (2 ^ 21) with 2097152; change (2 ^ 12) with 4096; unfold kernel_layout.
  repeat (zcase; cbn [andb]; try lia); do 2 f_equal; lia.
Qed.

Lemma text_canonical va : KZERO + 0x200000 <= va < KZERO + 0x400000 -> canonical va = true.
Proof.
  intros Hva; unfold canonical; apply orb_true_iff; right; rewrite get_bits_div by lia; apply Z.eqb_eq.
  replace (va / 2 ^ 47) with (2 ^ 17 - 1); [done|]; unfold KZERO in *.
  apply Z.div_unique with (r := va - 2 ^ 47 * (2 ^ 17 - 1)); lia.
Qed.

Lemma cpl_bound c : 0 <= cpl c <= 3.
Proof. pose proof (Z.land_ones (seg_cs c) 2 ltac:(lia)) as H; change (Z.land (seg_cs c) (Z.ones 2)) with (cpl c) in H; change (2 ^ 2) with 4 in H; pose proof (Z.mod_pos_bound (seg_cs c) 4); lia. Qed.

(** The gate, the segment and the stack of a vector; the frame is still to be pushed. *)
Lemma deliver_gate c m stubs v soft err p s : cr3 c = ptr2hpa pml4 -> tables lomem m -> 0 <= v < 256 -> in_text stubs ->
  ld 16 m (ptr2hpa idt + 16 * v) = idt_gate stubs v -> ld 8 m (ptr2hpa gdt_page + 8) = ktext64 ->
  let c0 := with_cs (ready c m) s in
  deliver v soft err p c0 =
    if negb soft || (cpl c0 <=? (if v =? BREAKPOINT_TRAPNO then 3 else 0)) then
      '(rsp, c1) ← pushes (Z.ldiff (handler_stack v (p_rsp p)) 15) (frame_words v soft err p c0) (with_cs c0 (Z.lor 8 (cpl c0)));
      Some (At (stubs + 8 * v) (entry_flags (p_flags p)) rsp (p_ss p), c1)
    else None.
Proof.
  intros Hc Ht Hv Htx Hi Hg c0; assert (Hb : booted c0) by (split; [by apply mach_mem_tables | done]).
  unfold deliver; change (idtr c0) with (KMACH + 0x29000, 4095); change (gdtr c0) with (KMACH + 0x30000, 65535).
  change (tr c0) with (KMACHTSS, 425983); cbn [fst snd]; rewrite (proj2 (Z.leb_le _ _)) by lia.
  rewrite (vld_page 16 41 (16 * v) _ idt ro) by (try done; lia); change (phys c0) with (mach_mem m); cbn [mbind option_bind].
  rewrite mach_mem_other, Hi by (unfold idt; lia).
  destruct (gate_fields stubs v) as (Ho & Hsel & Hist & Hty & Hpr & Hdpl);
    [destruct Htx; unfold KZERO in *; lia | destruct Htx; unfold KZERO in *; rewrite W64_val; lia | lia |].
  rewrite Ho, Hsel, Hist, Hty, Hpr, Hdpl; cbn [Z.eqb Pos.eqb andb]; destruct (negb soft || _); [|done].
  change (Z.ldiff 8 7) with 8; change (Z.ldiff 8 3) with 8; change (negb (bit 8 2)) with true; cbn [Z.eqb negb andb].
  rewrite (vld_page 8 48 8 c0 gdt_page rw (KMACH + 0x30000 + 8)) by (try done; lia); change (phys c0) with (mach_mem m).
  cbn [mbind option_bind]; rewrite mach_mem_other, Hg by (unfold gdt_page; lia).
  change (8 + 7 <=? 65535) with true; change (bit ktext64 44 && bit ktext64 43 && bit ktext64 47 && bit ktext64 53) with true.
  change (bit ktext64 42) with true; change (Pt.get_bits ktext64 45 47) with 0; cbn [andb negb].
  pose proof (cpl_bound c0); rewrite (proj2 (Z.leb_le 0 _)), text_canonical by (destruct Htx; lia); cbn [andb].
  assert (Hst : (if ist_u8 (from_trap v) =? 0 then Some (p_rsp p)
    else vld 8 (KMACHTSS + 36 + 8 * (ist_u8 (from_trap v) - 1)) c0) = Some (handler_stack v (p_rsp p))).
  { unfold from_trap, handler_stack.
    repeat (match goal with |- context [v =? ?n] => destruct (Z.eqb_spec v n) end; [cbn [ist_u8 Z.eqb];
      match goal with |- vld 8 (KMACHTSS + 36 + 8 * ?i) _ = Some ?t =>
        let o := eval vm_compute in (36 + 8 * i) in rewrite (vld_page 8 40 o _ arch_page rw)
          by (try done; try lia; unfold KMACHTSS; rewrite (proj1 (proj2 mach_offsets)); lia);
        change (phys c0) with (mach_mem m); f_equal; first [by apply (mach_mem_top 1) | by apply (mach_mem_top 2) | by apply (mach_mem_top 3)
                                          | by apply (mach_mem_top 4)]
      end |]); done. }
  rewrite Hst; cbn [mbind option_bind]; reflexivity.
Qed.

Lemma handled_on v rsp : from_trap v <> Rsp0 \/ on_stack rsp -> on_stack (handler_stack v rsp).
Proof.
  unfold from_trap, handler_stack, on_stack, stacks; intros H.
  repeat (match goal with |- context [v =? ?n] => destruct (v =? n) end; [|]).
  - exists 6, 7; split; [set_solver|lia].
  - exists 0, 1; split; [set_solver|lia].
  - exists 2, 3; split; [set_solver|lia].
  - exists 4, 5; split; [set_solver|lia].
  - by destruct H.
Qed.

Lemma ldiff15 r : Z.ldiff r 15 = r - r mod 16.
Proof. change 15 with (Z.ones 4); rewrite Z.ldiff_ones_r, Z.shiftl_mul_pow2, Z.shiftr_div_pow2 by lia; change (2 ^ 4) with 16; pose proof (Z.div_mod r 16); lia. Qed.

Definition word (w : Z) : Prop := 0 <= w < W64.

(** The frame of a trap taken outside level 3. *)
Lemma deliver_kernel c m stubs v soft err p s : cr3 c = ptr2hpa pml4 -> tables lomem m -> 0 <= v < 256 -> in_text stubs ->
  ld 16 m (ptr2hpa idt + 16 * v) = idt_gate stubs v -> ld 8 m (ptr2hpa gdt_page + 8) = ktext64 ->
  soft = false \/ Z.land s 3 = 0 \/ v = BREAKPOINT_TRAPNO -> Z.land s 3 <> 3 -> from_trap v <> Rsp0 \/ on_stack (p_rsp p) ->
  let c0 := with_cs (ready c m) s in let ws := frame_words v soft err p c0 in let top := Z.ldiff (handler_stack v (p_rsp p)) 15 in
  Forall word ws ->
  exists c1, deliver v soft err p c0 = Some (At (stubs + 8 * v) (entry_flags (p_flags p)) (top - 8 * len ws) (p_ss p), c1) /\
    seg_cs c1 = Z.lor 8 (Z.land s 3) /\
    (forall i w, ws !! i = Some w -> vld 8 (top - 8 * (Z.of_nat i + 1)) c1 = Some w) /\
    (forall x, ~ lomem + (top - 8 * len ws - KMACH) <= x < lomem + (top - KMACH) -> phys c1 x = phys c0 x) /\
    fetch_ok (stubs + 8 * v) c1 = true.
Proof.
  intros Hc Ht Hv Htx Hi Hg Hsoft Hs Hst c0 ws top Hws; unfold c0; rewrite (deliver_gate c m stubs) by done; fold c0 ws top.
  change (cpl c0) with (Z.land s 3); rewrite (proj2 (orb_true_iff _ _)).
  2:{ destruct Hsoft as [-> | [-> | ->]]; [by left | right; by destruct (v =? _) | right; apply Z.leb_le; pose proof (cpl_bound c0) as H; change (cpl c0) with (Z.land s 3) in H; simpl; lia]. }
  destruct (handled_on v (p_rsp p) Hst) as (lo & hi & Hin & Hr).
  assert (Hlen : 5 <= len ws <= 6) by (unfold ws, frame_words; destruct (_ && _); unfold len; simpl; lia).
  pose proof (Z.mod_pos_bound (handler_stack v (p_rsp p)) 16); pose proof (ldiff15 (handler_stack v (p_rsp p))) as Htop; fold top in Htop.
  pose proof (stack_pages lo hi Hin) as (Hlo' & Hhi & _ & _).
  assert (H8 : top mod 8 = 0).
  { pose proof (Z.div_mod (handler_stack v (p_rsp p)) 16); replace top with (0 + 2 * (handler_stack v (p_rsp p) / 16) * 8) by lia; by rewrite Z.mod_add by lia. }
  set (c2 := with_cs c0 _).
  assert (Hcpl : cpl c2 = Z.land s 3).
  { unfold cpl; cbn [seg_cs c2 with_cs]; rewrite Z.land_lor_distr_l; change (Z.land 8 3) with 0; rewrite Z.lor_0_l, <- Z.land_assoc; done. }
  assert (Hb2 : booted c2) by (split; [by apply mach_mem_tables | done]).
  destruct (pushes_runs lo hi ws Hin Hws top c2 Hb2 ltac:(congruence) H8 ltac:(lia)) as (m' & E & Ht' & Hfr & Hld).
  rewrite E; cbn [mbind option_bind]; eexists; split; [reflexivity|]; split_and!; [done| |exact Hfr|].
  - intros i w Hw; pose proof (lookup_lt_Some _ _ _ Hw) as Hlt; unfold len in Hlen, Hr; set (va := top - 8 * (Z.of_nat i + 1)).
    assert (Hva : va mod 4096 + 8 <= 4096).
    { pose proof (Z.mod_pos_bound va 4096); pose proof (Z.div_mod va 4096); pose proof (Z.div_mod top 8); lia. }
    unfold vld; rewrite (proj2 (Z.leb_le _ _)) by exact Hva; cbn [phys cr3 with_phys]; change (cr3 c2) with (cr3 c); rewrite Hc.
    destruct (stack_mapped m' lo hi Ht' Hin) as [Hmap _]; rewrite Hmap by lia; cbn [mbind option_bind]; f_equal; by apply Hld.
  - unfold fetch_ok; cbn [phys cr3 with_phys]; change (cr3 c2) with (cr3 c); rewrite Hc, text_translate by (try done; destruct Htx; lia).
    change (cpl (with_phys c2 m')) with (cpl c2); rewrite Hcpl, (proj2 (Z.eqb_neq _ _)) by done; done.
Qed.

(** At level 3 no vector is delivered. *)
Lemma deliver_user c m stubs v soft err p s : cr3 c = ptr2hpa pml4 -> tables lomem m -> 0 <= v < 256 -> in_text stubs ->
  ld 16 m (ptr2hpa idt + 16 * v) = idt_gate stubs v -> ld 8 m (ptr2hpa gdt_page + 8) = ktext64 -> Z.land s 3 = 3 ->
  deliver v soft err p (with_cs (ready c m) s) = None.
Proof.
  intros Hc Ht Hv Htx Hi Hg Hs; rewrite (deliver_gate c m stubs) by done; destruct (_ || _); [|done].
  set (c2 := with_cs (with_cs _ _) _); unfold frame_words; cbn [app pushes]; rewrite (push_user _ _ c2); [done| |].
  - split; [by apply mach_mem_tables | done].
  - unfold c2, cpl; cbn [seg_cs with_cs]; by rewrite Hs.
Qed.

(** The rest of the page of the TSS is clear. *)
Lemma init0_tss_page stubs m n o : zeroed lomem m -> 0 <= o -> o + Z.of_nat n <= 4096 ->
  ld n (init0 lomem stubs m).1 (ptr2hpa arch_page + o) = 0.
Proof.
  intros Hz Ho Hn; unfold init0; cbn [fst].
  rewrite ld_stores_other by (try done; try apply stores_ok; try apply stores_in_tables; try done; lia).
  rewrite ld_Gdt, ld_Idt by (unfold Xb.ptr2hpa, idt, gdt_page, arch_page; lia).
  apply ld_zero; intros; apply Hz; unfold Xb.ptr2hpa, arch_page in *; lia.
Qed.

(** The granularity bit makes the limit of the TSS count pages, so the I/O bitmap is
    the clear memory after the TSS: user code may use these ports. *)
Lemma io_ports_open c stubs m port : cr3 c = ptr2hpa pml4 -> zeroed lomem m -> 0 <= port < 31928 ->
  io_permitted port (ready c (init0 lomem stubs m).1) = Some true.
Proof.
  intros Hc Hz Hp; pose proof (Z.div_mod port 8); pose proof (Z.mod_pos_bound port 8).
  assert (Hb : booted (ready c (init0 lomem stubs m).1)) by (split; [by apply mach_mem_tables, init0_tables | done]).
  assert (Hk : KMACHTSS = KMACH + 4096 * 40) by (by vm_compute).
  unfold io_permitted; cbn [tr ready fst snd].
  rewrite (vld_page 2 40 102 _ arch_page rw) by (try done; lia); cbn [mbind option_bind phys ready].
  assert (ld 2 (mach_mem (init0 lomem stubs m).1) (ptr2hpa arch_page + 102) = 104) as ->.
  { unfold mach_mem; cbv zeta; rewrite ld_other by (unfold Xb.ptr2hpa, arch_page, gdt_page; lia); by apply ld_same. }
  rewrite (proj2 (Z.leb_le _ _)) by lia.
  rewrite (vld_page 2 40 (104 + port / 8) _ arch_page rw) by (try done; lia); cbn [mbind option_bind phys ready].
  assert (ld 2 (mach_mem (init0 lomem stubs m).1) (ptr2hpa arch_page + (104 + port / 8)) = 0) as ->.
  { unfold mach_mem, tops; cbn [fold_left].
    rewrite !ld_other by (unfold Xb.ptr2hpa, arch_page, gdt_page, mach_page; lia); apply init0_tss_page; [done | lia | lia]. }
  unfold bit; by rewrite Z.bits_0.
Qed.
End mach.

(** C35: on the first address space, [vsvm::init], run at level 0, succeeds, and traps
    taken outside level 3 are delivered where they should be: for every vector the
    processor finds, through the IDT, the GDT and the TSS it has just loaded, the
    vector's own stub in the kernel text segment, executable at its level, on the
    vector's own stack for NMI, debug, breakpoint and double fault and on the
    interrupted stack otherwise, which must be one of the [Mach]'s with room for 64
    bytes; the frame there is SS, RSP, RFLAGS, CS and RIP of the interrupted code and
    the error code of the vectors that have one, and nothing else of memory changes.
    The level is the interrupted one, because the kernel text segment is conforming;
    for the same reason no vector is delivered from level 3: the frame would be pushed
    at level 3, and no page is a user page.  Each of the [Mach]'s stacks is mapped
    writable in one piece above a hole; the TSS holds the scheduler's stack, [%gs:0]
    the [Mach], and the code segment is the new GDT's. *)
Theorem traps_delivered (lomem stubs : Z) (m : mem) (c : cpu)
    (Hlo : low_memory lomem) (Hz : zeroed lomem m) (Hs : in_text stubs)
    (Hm : phys c = (init0 lomem stubs m).1) (Hr : cr3 c = (init0 lomem stubs m).2) (Hcpl : cpl c = 0) :
  exists c', vsvm_init KMACH c = Some c' /\ seg_cs c' = ktextsel /\
    (forall v soft err p s, 0 <= v < 256 -> soft = false \/ Z.land s 3 = 0 \/ v = BREAKPOINT_TRAPNO -> Z.land s 3 <> 3 ->
       from_trap v <> Rsp0 \/ on_stack (p_rsp p) ->
       let c0 := with_cs c' s in let ws := frame_words v soft err p c0 in
       let top := Z.ldiff (handler_stack v (p_rsp p)) 15 in
       Forall word ws ->
       exists c1, deliver v soft err p c0 = Some (At (stubs + 8 * v) (entry_flags (p_flags p)) (top - 8 * len ws) (p_ss p), c1) /\
         seg_cs c1 = Z.lor ktextsel (Z.land s 3) /\
         (forall i w, ws !! i = Some w -> vld 8 (top - 8 * (Z.of_nat i + 1)) c1 = Some w) /\
         (forall x, ~ lomem + (top - 8 * len ws - KMACH) <= x < lomem + (top - KMACH) -> phys c1 x = phys c' x) /\
         fetch_ok (stubs + 8 * v) c1 = true) /\
    (forall v soft err p s, 0 <= v < 256 -> Z.land s 3 = 3 -> deliver v soft err p (with_cs c' s) = None) /\
    (forall lo hi, (lo, hi) ∈ stacks ->
       (forall va, KMACH + 4096 * lo <= va < KMACH + 4096 * hi ->
          translate (phys c') (cr3 c') va = Some (lomem + (va - KMACH), rw)) /\
       (forall va, KMACH + 4096 * (lo - 1) <= va < KMACH + 4096 * lo -> translate (phys c') (cr3 c') va = None)) /\
    vld 8 (KMACHTSS + offset_of Tss_fields "rsp0") c' = Some (KStack_top (KMACH + offset_of Mach_fields "stack")) /\
    vld 8 (gsbase c') c' = Some KMACH.
Proof.
  pose proof (init0_tables lomem Hlo stubs m Hz) as Ht; destruct (init0_gdt lomem Hlo stubs m) as [Hg Hd].
  change ((init0 lomem stubs m).2) with (ptr2hpa lomem pml4) in Hr.
  assert (Hi : forall v, 0 <= v < 256 -> ld 16 (init0 lomem stubs m).1 (ptr2hpa lomem idt + 16 * v) = idt_gate stubs v)
    by (intros; by apply init0_idt).
  exists (ready lomem c (init0 lomem stubs m).1); rewrite <- (with_phys_self c) at 1; rewrite Hm.
  revert Ht Hg Hd Hi; generalize (init0 lomem stubs m).1; clear Hm; intros m' Ht Hg Hd Hi.
  assert (Ht' := mach_mem_tables lomem m' Ht); split_and!.
  - by apply vsvm_init_runs.
  - reflexivity.
  - intros v soft err p s Hv Hsoft Hs3 Hst c0 ws top Hws; change ktextsel with 8; apply (deliver_kernel lomem Hlo c m' stubs v soft err p s); auto.
  - intros v soft err p s Hv Hs3; apply (deliver_user lomem Hlo c m' stubs); auto.
  - intros lo hi Hin; cbn [phys cr3 ready]; rewrite Hr; by apply stack_mapped.
  - rewrite (vld_page lomem Hlo 8 40 4 _ arch_page rw) by first [done | lia | by split | by vm_compute].
    cbn [phys ready]; f_equal; rewrite (mach_mem_top lomem 0 4 (KMACH + 0x20000)) by done; by vm_compute.
  - rewrite (vld_page lomem Hlo 8 32 0 _ mach_page rw) by first [done | lia | by split | by vm_compute].
    cbn [phys ready]; f_equal; unfold mach_mem, tops; cbn [fold_left].
    rewrite !ld_other by (unfold Xb.ptr2hpa, mach_page, arch_page, gdt_page; lia); by apply ld_same.
Qed.

(** [SYSCALL] and [SYSRET] load the kernel's and the user's segments. *)
Lemma syscall_selectors entry c : exists c', syscall_init entry c = Some c' /\
  syscall_cs c' = ktextsel /\ syscall_ss c' = offset_of GdtData_fields "kdata" /\
  sysret_cs c' = Z.lor utextsel 3 /\ sysret_ss c' = Z.lor (offset_of GdtData_fields "udata") 3 /\
  msr_fmask c' = 2 ^ 8 + 2 ^ 9 + 2 ^ 10.
Proof. eexists; split; [reflexivity|]; by vm_compute. Qed.

Module XmDemo.
Import XbDemo.

Definition boot_cpu : cpu :=
  Cpu (init0 lomem stubs cleared).1 (init0 lomem stubs cleared).2 (0, 0) (0, 0) (0, 0) 0 0 0 0 0 0x10.

Definition running : point := At (KZERO + 0x200100) 0x10202 0x1000 0x18.

(** A double fault on the first address space, with an unusable stack pointer: the
    frame is on the double-fault stack, the error code at its bottom. *)
Lemma traps_delivered_witness : exists c' c1, vsvm_init KMACH boot_cpu = Some c' /\
  deliver 8 false 0 running c' = Some (At (stubs + 64) 0x2 (KMACH + 0x5000 - 48) 0x18, c1) /\
  vld 8 (KMACH + 0x5000 - 16) c1 = Some 0x1000 /\ deliver 13 false 0 running (with_cs c' 0x23) = None.
Proof.
  destruct (traps_delivered lomem stubs cleared boot_cpu low zero ltac:(by vm_compute) eq_refl eq_refl eq_refl)
    as (c' & Hc & Hcs & Hd & Hu & _).
  destruct (Hd 8 false 0 running 8) as (c1 & E & _ & Hw & _ & _);
    [lia | by left | done | left; discriminate | repeat constructor; by vm_compute |].
  assert (Hself : with_cs c' 8 = c') by (destruct c'; cbn in Hcs; subst; reflexivity).
  exists c', c1; rewrite Hself in *; split; [exact Hc|]; split; [exact E|]; split.
  - apply (Hw 1%nat); reflexivity.
  - apply Hu; [lia | reflexivity].
Defined.
End XmDemo.

End Xm.
