(* ===== verification/X86Trap.v ===== *)
(** * The x86_64 port: trap and system-call entry, context switch
      ([x86_64/src/trap.rs], [x86_64/src/syscall.rs], [x86_64/src/proc.rs])

    The naked functions are lists of instructions, written as the source writes them,
    run by an interpreter of the instructions they use: 64-bit registers, byte
    memory, segment selectors, the two [GS] bases and the zero and carry flags (the
    other arithmetic flags are not tracked; nothing here tests them).  A call to a
    Rust function is a parameter that keeps the C calling convention. *)

From S2P Require Import Prelude Vm X86.
From Stdlib Require Import String.
#[local] Open Scope string_scope.
#[local] Open Scope Z_scope.

Module Xt.
Import Xd.

(** ** The machine *)

Inductive reg :=
  | RAX | RBX | RCX | RDX | RSI | RDI | RBP | RSP | R8 | R9 | R10 | R11 | R12 | R13 | R14 | R15.

#[global] Instance reg_eq_dec : EqDecision reg.
Proof. solve_decision. Defined.

Definition reg_id (r : reg) : nat :=
  match r with
  | RAX => 0 | RBX => 1 | RCX => 2 | RDX => 3 | RSI => 4 | RDI => 5 | RBP => 6 | RSP => 7
  | R8 => 8 | R9 => 9 | R10 => 10 | R11 => 11 | R12 => 12 | R13 => 13 | R14 => 14 | R15 => 15
  end.
Definition reg_eqb (a b : reg) : bool := Nat.eqb (reg_id a) (reg_id b).

Inductive seg := DS | ES | FS | GS | CS | SSEG.
#[global] Instance seg_eq_dec : EqDecision seg.
Proof. solve_decision. Defined.

Definition seg_id (s : seg) : nat := match s with DS => 0 | ES => 1 | FS => 2 | GS => 3 | CS => 4 | SSEG => 5 end.
Definition seg_eqb (a b : seg) : bool := Nat.eqb (seg_id a) (seg_id b).

Record mach := Mach {
  rg : reg -> Z;
  sg : seg -> Z;
  mm : mem;
  fl : Z;         (* RFLAGS *)
  gsb : Z;        (* GSBASE *)
  kgsb : Z;       (* MSR_KERNEL_GS_BASE *)
  pc : Z;         (* where control goes when the code ends *)
}.

Definition set_rg (r : reg) (v : Z) (s : mach) : mach :=
  Mach (fun r' => if reg_eqb r' r then v else rg s r') (sg s) (mm s) (fl s) (gsb s) (kgsb s) (pc s).
Definition set_sg (r : seg) (v : Z) (s : mach) : mach :=
  Mach (rg s) (fun r' => if seg_eqb r' r then v else sg s r') (mm s) (fl s) (gsb s) (kgsb s) (pc s).
Definition set_mm (m : mem) (s : mach) : mach := Mach (rg s) (sg s) m (fl s) (gsb s) (kgsb s) (pc s).
Definition set_fl (f : Z) (s : mach) : mach := Mach (rg s) (sg s) (mm s) f (gsb s) (kgsb s) (pc s).
Definition set_pc (p : Z) (s : mach) : mach := Mach (rg s) (sg s) (mm s) (fl s) (gsb s) (kgsb s) p.
Definition swap_gs (s : mach) : mach := Mach (rg s) (sg s) (mm s) (fl s) (kgsb s) (gsb s) (pc s).

Definition zf (s : mach) : bool := bit (fl s) 6.
Definition set_zf (b : bool) (s : mach) : mach := set_fl (Pt.with_bits (fl s) 6 7 (Z.b2z b)) s.
Definition set_cf (b : bool) (s : mach) : mach := set_fl (Pt.with_bits (fl s) 0 1 (Z.b2z b)) s.
Definition clear_if (s : mach) : mach := set_fl (Pt.with_bits (fl s) 9 10 0) s.

(** Operands: a register, an immediate, [disp(base)] and [%gs:disp]. *)
Inductive opd := R (r : reg) | I (v : Z) | M (disp : Z) (base : reg) | G (disp : Z).

Definition ea (o : opd) (s : mach) : Z :=
  match o with
  | M d b => (rg s b + d) mod W64
  | G d => (gsb s + d) mod W64
  | _ => 0
  end.

(** A read of [n] bytes. *)
Definition get (n : nat) (o : opd) (s : mach) : Z :=
  match o with
  | R r => rg s r mod 256 ^ Z.of_nat n
  | I v => v mod 256 ^ Z.of_nat n
  | _ => ld n (mm s) (ea o s)
  end.

(** A write of [n] bytes to memory, or of a whole register. *)
Definition put (n : nat) (o : opd) (v : Z) (s : mach) : mach :=
  match o with
  | R r => set_rg r v s
  | I _ => s
  | _ => set_mm (st n (ea o s) v (mm s)) s
  end.

Definition push (v : Z) (s : mach) : mach :=
  let sp := (rg s RSP - 8) mod W64 in
  set_mm (st 8 sp v (mm s)) (set_rg RSP sp s).

Definition pop (s : mach) : Z * mach :=
  (ld 8 (mm s) (rg s RSP), set_rg RSP ((rg s RSP + 8) mod W64) s).

Inductive instr :=
  | Movq (src dst : opd)
  | Movl_from (src : seg) (dst : reg)     (* [movl %seg, %r32], zero-extended *)
  | Movw_to (src : opd) (dst : seg)
  | Movzbl (src : opd) (dst : reg)
  | Pushq (src : opd)
  | Popq (dst : reg)
  | Addq (v : Z) (dst : reg)
  | Subq (v : Z) (dst : reg)
  | Orq (v : Z) (dst : reg)
  | Orb (v : Z) (dst : opd)
  | Shrw (n : Z) (dst : opd)
  | Btr (n : Z) (dst : opd)
  | Cmpq (a b : reg)
  | Cmpw (v : Z) (b : opd)
  | Xorl (r : reg)                        (* [xorl %r32, %r32] *)
  | Rdgsbase (dst : reg)
  | Swapgs
  | Cli
  | Je (skipped : list instr)             (* [je 1f; ...; 1:] *)
  | Call (f : mach -> mach)               (* a call of a Rust function *)
  | Callq (next target : Z)               (* a call of another naked function, from before [next] *)
  | Jmp (target : Z)
  | Ret
  | Iretq
  | Sysretq.

(** The selectors [SYSRETQ] loads, from [IA32_STAR]. *)
Definition SYSRET_CS : Z := Z.lor (Pt.get_bits star 48 64 + 16) 3.
Definition SYSRET_SS : Z := Pt.get_bits star 48 64 + 8.

Fixpoint step (i : instr) (s : mach) : mach :=
  match i with
  | Movq a b => put 8 b (get 8 a s) s
  | Movl_from g r => set_rg r (sg s g) s
  | Movw_to a g => set_sg g (get 2 a s) s
  | Movzbl a r => set_rg r (get 1 a s) s
  | Pushq a => push (get 8 a s) s
  | Popq r => let '(v, s) := pop s in set_rg r v s
  | Addq v r => let n := (rg s r + v) mod W64 in set_zf (n =? 0) (set_rg r n s)
  | Subq v r => let n := (rg s r - v) mod W64 in set_zf (n =? 0) (set_rg r n s)
  | Orq v r => let n := Z.lor (rg s r) v in set_zf (n =? 0) (set_rg r n s)
  | Orb v o => let n := Z.lor (get 1 o s) v in set_zf (n =? 0) (put 1 o n s)
  | Shrw k o => let n := Z.shiftr (get 2 o s) k in set_zf (n =? 0) (put 2 o n s)
  | Btr k o =>                            (* a 32-bit operand: the bit number counts modulo 32 *)
      let v := get 4 o s in
      set_cf (bit v (k mod 32)) (put 4 o (Z.clearbit v (k mod 32)) s)
  | Cmpq a b => set_zf (rg s b =? rg s a) s
  | Cmpw v o => set_zf (get 2 o s =? v) s
  | Xorl r => set_zf true (set_rg r 0 s)
  | Rdgsbase r => set_rg r (gsb s) s
  | Swapgs => swap_gs s
  | Cli => clear_if s
  | Je l => if zf s then s else (fix run l s := match l with [] => s | i :: l => run l (step i s) end) l s
  | Call f => f s
  | Callq next target => set_pc target (push next s)
  | Jmp target => set_pc target s
  | Ret => let '(v, s) := pop s in set_pc v s
  | Iretq =>
      let '(ip, s) := pop s in
      let '(cs, s) := pop s in
      let '(f, s) := pop s in
      let '(sp, s) := pop s in
      let '(ss, s) := pop s in
      set_pc ip (set_sg CS (cs mod W16) (set_fl f (set_rg RSP sp (set_sg SSEG (ss mod W16) s))))
  | Sysretq => set_pc (rg s RCX) (set_fl (rg s R11) (set_sg CS SYSRET_CS (set_sg SSEG SYSRET_SS s)))
  end.

Fixpoint run (l : list instr) (s : mach) : mach :=
  match l with [] => s | i :: l => run l (step i s) end.


(** ** The code *)

Definition SWAPPED : Z := 0x80.
Definition SWAPPED_CS_OFFSET : Z := 7.

(** [gen_trap_stub!]: the first arm that matches; the arm that would make the double
    fault special comes after the one that gives it an error word. *)
Inductive stub_kind := Plain | Spec | WithErr.

Definition gen_trap_stub (n : Z) : stub_kind :=
  if bool_decide (n ∈ [8; 10; 11; 12; 13; 14; 17]) then WithErr
  else if bool_decide (n ∈ [1; 2; 3]) then Spec
  else Plain.

Section code.
(** The addresses of the stubs and of the naked functions. *)
Context (intr_stubs intrregular_at intrspecial_at intrcommon_at syscallret_at : Z).

(** [gen_stub!]: a stub is at a multiple of 8; [pushq $0] takes two bytes and [callq]
    five. *)
Definition stub (n : Z) : list instr :=
  let at_ := intr_stubs + 8 * n in
  match gen_trap_stub n with
  | WithErr => [Callq (at_ + 5) intrregular_at]
  | Spec => [Pushq (I 0); Callq (at_ + 7) intrspecial_at]
  | Plain => [Pushq (I 0); Callq (at_ + 7) intrregular_at]
  end.

Definition intrspecial : list instr :=
  [Pushq (R RAX);
   Pushq (R RBX);
   Movq (I KMACH) (R RBX);
   Rdgsbase RAX;
   Cmpq RBX RAX;
   Popq RBX;
   Popq RAX;
   Je [Swapgs;
       Orb SWAPPED (M (SWAPPED_CS_OFFSET + 16) RSP)];
   Pushq (I intrcommon_at);
   Ret].

Definition intrregular : list instr :=
  [Cmpw 8 (M 24 RSP);
   Je [Swapgs;
       Orb SWAPPED (M (SWAPPED_CS_OFFSET + 24) RSP)];
   Jmp intrcommon_at].

(** [intrcommon], to the call of [trap] and from it. *)
Definition intrcommon_save : list instr :=
  [Subq ((4 + 15) * 8) RSP;
   Movq (R R15) (M (14 * 8) RSP);
   Movq (R R14) (M (13 * 8) RSP);
   Movq (R R13) (M (12 * 8) RSP);
   Movq (R R12) (M (11 * 8) RSP);
   Movq (R R11) (M (10 * 8) RSP);
   Movq (R R10) (M (9 * 8) RSP);
   Movq (R R9) (M (8 * 8) RSP);
   Movq (R R8) (M (7 * 8) RSP);
   Movq (R RBP) (M (6 * 8) RSP);
   Movq (R RDI) (M (5 * 8) RSP);
   Movq (R RSI) (M (4 * 8) RSP);
   Movq (R RDX) (M (3 * 8) RSP);
   Movq (R RCX) (M (2 * 8) RSP);
   Movq (R RBX) (M (1 * 8) RSP);
   Movq (R RAX) (M (0 * 8) RSP);
   Movl_from GS RDI;
   Movq (R RDI) (M (18 * 8) RSP);
   Movl_from FS RDI;
   Movq (R RDI) (M (17 * 8) RSP);
   Movl_from ES RDI;
   Movq (R RDI) (M (16 * 8) RSP);
   Movl_from DS RDI;
   Movq (R RDI) (M (15 * 8) RSP);
   Shrw 3 (M UREG_TRAPNO_OFFSET RSP);
   Movzbl (M UREG_TRAPNO_OFFSET RSP) RDI;
   Movq (R RDI) (M UREG_TRAPNO_OFFSET RSP);
   Movq (R RSP) (R RSI)].

Definition intrcommon_restore : list instr :=
  [Btr SWAPPED (M (SWAPPED_CS_OFFSET + UREG_CS_OFFSET) RSP);
   Je [Swapgs];
   Movq (M (0 * 8) RSP) (R RAX);
   Movq (M (1 * 8) RSP) (R RBX);
   Movq (M (2 * 8) RSP) (R RCX);
   Movq (M (3 * 8) RSP) (R RDX);
   Movq (M (4 * 8) RSP) (R RSI);
   Movq (M (5 * 8) RSP) (R RDI);
   Movq (M (6 * 8) RSP) (R RBP);
   Movq (M (7 * 8) RSP) (R R8);
   Movq (M (8 * 8) RSP) (R R9);
   Movq (M (9 * 8) RSP) (R R10);
   Movq (M (10 * 8) RSP) (R R11);
   Movq (M (11 * 8) RSP) (R R12);
   Movq (M (12 * 8) RSP) (R R13);
   Movq (M (13 * 8) RSP) (R R14);
   Movq (M (14 * 8) RSP) (R R15);
   Movw_to (M (15 * 8) RSP) DS;
   Movw_to (M (16 * 8) RSP) ES;
   Movw_to (M (17 * 8) RSP) FS;
   Addq ((2 + 4 + 15) * 8) RSP;
   Iretq].

Definition intrcommon (trap : mach -> mach) : list instr := intrcommon_save ++ [Call trap] ++ intrcommon_restore.

(** [swtch]. *)
Definition swtch : list instr :=
  [Movq (M 0 RSP) (R RAX);
   Movq (R RAX) (M 0 RDI);
   Movq (R RSP) (M 8 RDI);
   Movq (R RBP) (M 16 RDI);
   Movq (R RBX) (M 24 RDI);
   Movq (R R12) (M 32 RDI);
   Movq (R R13) (M 40 RDI);
   Movq (R R14) (M 48 RDI);
   Movq (R R15) (M 56 RDI);
   Movq (M 0 RSI) (R RAX);
   Movq (M 8 RSI) (R RSP);
   Movq (M 16 RSI) (R RBP);
   Movq (M 24 RSI) (R RBX);
   Movq (M 32 RSI) (R R12);
   Movq (M 40 RSI) (R R13);
   Movq (M 48 RSI) (R R14);
   Movq (M 56 RSI) (R R15);
   Movq (R RAX) (M 0 RSP);
   Xorl RAX;
   Ret].

(** [entry], to the call of [dispatch] and from it. *)
Definition entry_save : list instr :=
  [Swapgs;
   Movq (R RSP) (G 8);
   Movq (G 24) (R RSP);
   Subq (26 * 8) RSP;
   Movq (R RAX) (M (0 * 8) RSP);
   Movq (R RBX) (M (1 * 8) RSP);
   Movq (R RCX) (M (2 * 8) RSP);
   Movq (R RDX) (M (3 * 8) RSP);
   Movq (R RSI) (M (4 * 8) RSP);
   Movq (R RDI) (M (5 * 8) RSP);
   Movq (R RBP) (M (6 * 8) RSP);
   Movq (R R8) (M (7 * 8) RSP);
   Movq (R R9) (M (8 * 8) RSP);
   Movq (R R10) (M (9 * 8) RSP);
   Movq (R R11) (M (10 * 8) RSP);
   Movq (R R12) (M (11 * 8) RSP);
   Movq (R R13) (M (12 * 8) RSP);
   Movq (R R14) (M (13 * 8) RSP);
   Movq (R R15) (M (14 * 8) RSP);
   Movl_from DS RBX;
   Movq (R RBX) (M (15 * 8) RSP);
   Movl_from ES RBX;
   Movq (R RBX) (M (16 * 8) RSP);
   Movl_from FS RBX;
   Movq (R RBX) (M (17 * 8) RSP);
   Movq (I 0) (M (18 * 8) RSP);
   Movq (I 0) (M (19 * 8) RSP);
   Movq (I 0) (M (20 * 8) RSP);
   Movq (R RCX) (M (21 * 8) RSP);
   Movl_from CS RBX;
   Movq (R RBX) (M (22 * 8) RSP);
   Movq (R R11) (M (23 * 8) RSP);
   Movq (G 8) (R RBX);
   Movq (R RBX) (M (24 * 8) RSP);
   Movl_from SSEG RBX;
   Movq (R RBX) (M (25 * 8) RSP);
   Pushq (I syscallret_at);
   Pushq (R RCX);
   Movq (G 8) (R RBP);
   Movq (R RSP) (R RDI);
   Movq (R RAX) (R RSI)].

Definition entry (dispatch : mach -> mach) : list instr := entry_save ++ [Call dispatch; Addq 8 RSP; Ret].

(** [ret]. *)
Definition ret : list instr :=
  [Addq 8 RSP;
   Movq (M (1 * 8) RSP) (R RBX);
   Movq (M (3 * 8) RSP) (R RDX);
   Movq (M (4 * 8) RSP) (R RSI);
   Movq (M (5 * 8) RSP) (R RDI);
   Movq (M (6 * 8) RSP) (R RBP);
   Movq (M (7 * 8) RSP) (R R8);
   Movq (M (8 * 8) RSP) (R R9);
   Movq (M (9 * 8) RSP) (R R10);
   Movq (M (10 * 8) RSP) (R R11);
   Movq (M (11 * 8) RSP) (R R12);
   Movq (M (12 * 8) RSP) (R R13);
   Movq (M (13 * 8) RSP) (R R14);
   Movq (M (14 * 8) RSP) (R R15);
   Movq (M (21 * 8) RSP) (R RCX);
   Movq (M (23 * 8) RSP) (R R11);
   Orq 2 R11;
   Cli;
   Movw_to (M (15 * 8) RSP) DS;
   Movw_to (M (16 * 8) RSP) ES;
   Movw_to (M (17 * 8) RSP) FS;
   Movq (M (24 * 8) RSP) (R RSP);
   Swapgs;
   Sysretq].

(** ** What the processor does around them *)

(** The vectors for which it pushes an error word. *)
Definition hw_error (n : Z) : bool := has_error n.

(** Delivery on the stack [top], at privilege level [cpl] of the handler. *)
Definition interrupt (n cpl top ecode : Z) (s : mach) : mach :=
  let s' := set_rg RSP top s in
  let s' := push (sg s SSEG) s' in
  let s' := push (rg s RSP) s' in
  let s' := push (fl s) s' in
  let s' := push (sg s CS) s' in
  let s' := push (pc s) s' in
  let s' := if hw_error n then push ecode s' else s' in
  clear_if (set_sg CS (Z.lor ktextsel cpl) (set_pc (intr_stubs + 8 * n) s')).

(** From the interrupted instruction to the call of [trap], and on to the end. *)
Definition handler (n : Z) : list instr := match gen_trap_stub n with Spec => intrspecial | _ => intrregular end.

Definition to_trap (n cpl top ecode : Z) (s : mach) : mach :=
  run intrcommon_save (run (handler n) (run (stub n) (interrupt n cpl top ecode s))).

Definition take_trap (trap : mach -> mach) (n cpl top ecode : Z) (s : mach) : mach :=
  run intrcommon_restore (trap (to_trap n cpl top ecode s)).

(** [SYSCALL]. *)
Definition syscall_insn (entry_at : Z) (s : mach) : mach :=
  set_pc entry_at (set_fl (Z.ldiff (fl s) fmask) (set_sg CS ktextsel (set_sg SSEG (ktextsel + 8)
    (set_rg R11 (fl s) (set_rg RCX (pc s) s))))).

End code.


(** ** Words above a base *)

(** Stores of words at multiples of 8 above [B], in order. *)
Definition wr (B : Z) (l : list (Z * Z)) (m : mem) : mem := fold_left (fun m '(i, v) => st 8 (B + 8 * i) v m) l m.

Definition word (v : Z) : Prop := 0 <= v < W64.

Fixpoint at_slot (j : Z) (l : list (Z * Z)) : option Z :=
  match l with [] => None | (i, v) :: l => if j =? i then Some v else at_slot j l end.

Lemma at_slot_app j l l' : at_slot j (l ++ l') = match at_slot j l with Some v => Some v | None => at_slot j l' end.
Proof. induction l as [|[i v] l IH]; simpl; [done|]; by destruct (j =? i). Qed.

Lemma ld_wr B l m j : Forall (fun '(_, v) => word v) l ->
  ld 8 (wr B l m) (B + 8 * j) = match at_slot j (rev l) with Some v => v | None => ld 8 m (B + 8 * j) end.
Proof.
  intros Hl; revert m; induction Hl as [|[i v] l Hv _ IH]; intros m; [done|]; unfold wr in *; cbn [fold_left rev].
  rewrite IH, at_slot_app; destruct (at_slot j (rev l)); [done|]; simpl; destruct (Z.eqb_spec j i) as [->|].
  - by apply ld_same.
  - apply ld_other; lia.
Qed.

Lemma wr_above B l m a : Forall (fun '(i, _) => B + 8 * i + 8 <= a) l -> wr B l m a = m a.
Proof.
  intros Hl; revert m; induction Hl as [|[i v] l Hi _ IH]; intros m; [done|]; unfold wr in *; cbn [fold_left].
  rewrite IH; unfold st; destruct (Z.leb_spec (B + 8 * i) a), (Z.ltb_spec a (B + 8 * i + Z.of_nat 8)); simpl; try done; lia.
Qed.

(** The words of a [Ureg] at [B]. *)
Definition ureg (m : mem) (B : Z) : list Z := map (fun i => ld 8 m (B + 8 * i)) (seqZ 0 26).

Definition gprs : list reg := [RAX; RBX; RCX; RDX; RSI; RDI; RBP; R8; R9; R10; R11; R12; R13; R14; R15].

Record regs_ok (s : mach) : Prop := {
  ok_rg : forall r, word (rg s r);
  ok_sg : forall g, 0 <= sg s g < W16;
  ok_fl : word (fl s);
  ok_pc : word (pc s);
  ok_mm : bytes (mm s);
}.

Lemma sg_word s g : regs_ok s -> word (sg s g).
Proof. intros H; pose proof (ok_sg s H g); unfold word, W64, W16 in *; lia. Qed.

Lemma wrap_ok a : word a -> a mod W64 = a.
Proof. apply Z.mod_small. Qed.

(** A run of stores of registers relative to the stack pointer. *)
Definition saves (l : list (reg * Z)) : list instr := map (fun '(r, i) => Movq (R r) (M (8 * i) RSP)) l.

Lemma run_app l l' s : run (l ++ l') s = run l' (run l s).
Proof. revert s; induction l as [|i l IH]; intros s; [done|]; apply IH. Qed.

Lemma set_mm_mm m m' s : set_mm m (set_mm m' s) = set_mm m s.
Proof. done. Qed.

Lemma run_saves l s B : rg s RSP = B -> 0 <= B -> B + 8 * 26 <= W64 -> (forall r, word (rg s r)) ->
  Forall (fun '(_, i) => 0 <= i < 26) l ->
  run (saves l) s = set_mm (wr B (map (fun '(r, i) => (i, rg s r)) l) (mm s)) s.
Proof.
  intros HB H0 H1 Hw Hl; revert s HB Hw; induction Hl as [|[r i] l Hi _ IH]; intros s HB Hw.
  - by destruct s.
  - cbn [saves map run]; fold (saves l); cbn [step put get ea].
    rewrite HB, !Z.mod_small by (try apply Hw; rewrite W64_val in *; lia).
    rewrite IH by done; cbn [rg set_mm mm sg fl gsb kgsb pc map wr fold_left].
    by rewrite set_mm_mm.
Qed.


(** A push, in terms of the words above a base. *)
Lemma push_spec s v B i l m0 : rg s RSP = B + 8 * (i + 1) -> 0 <= B -> 0 <= i -> B + 8 * (i + 1) < W64 ->
  mm s = wr B l m0 ->
  rg (push v s) RSP = B + 8 * i /\ mm (push v s) = wr B (l ++ [(i, v)]) m0.
Proof.
  intros Hr HB Hi Ht Hm; unfold push; cbn [rg mm set_mm set_rg reg_eqb reg_id Nat.eqb].
  rewrite Hr, Z.mod_small by lia; replace (B + 8 * (i + 1) - 8) with (B + 8 * i) by lia.
  split; [done|]; unfold wr; by rewrite fold_left_app, Hm.
Qed.

(** The state after some pushes: [s1] is [s] with the words [l] above [B] and the stack
    pointer at word [i]. *)
Record pushed (s s1 : mach) (B i : Z) (l : list (Z * Z)) : Prop := {
  pd_rsp : rg s1 RSP = B + 8 * i;
  pd_rg : forall r, r <> RSP -> rg s1 r = rg s r;
  pd_mm : mm s1 = wr B l (mm s);
  pd_sg : forall g, g <> CS -> sg s1 g = sg s g;
  pd_gs : gsb s1 = gsb s /\ kgsb s1 = kgsb s;
}.

Lemma pushed_push s s1 B i l v : pushed s s1 B (i + 1) l -> 0 <= B -> 0 <= i -> B + 8 * (i + 1) < W64 ->
  pushed s (push v s1) B i (l ++ [(i, v)]).
Proof.
  intros [Hr Hg Hm Hs Hgs] HB Hi Ht.
  destruct (push_spec s1 v B i l (mm s)) as [Hr' Hm']; auto; split; auto.
  intros r Hne; rewrite <- Hg by done; unfold push; cbn; by destruct r.
Qed.

Lemma pushed_set_pc s s1 B i l p : pushed s s1 B i l -> pushed s (set_pc p s1) B i l.
Proof. by intros [Hr Hg Hm Hs Hgs]; split. Qed.

Lemma pushed_enter s s1 B i l p cs : pushed s s1 B i l -> pushed s (clear_if (set_sg CS cs (set_pc p s1))) B i l.
Proof.
  intros [Hr Hg Hm Hs Hgs]; split; try done; intros g Hne; rewrite <- Hs by done; cbn; by destruct g.
Qed.

Section frames.
Context (intr_stubs intrregular_at intrspecial_at intrcommon_at : Z).
Hypothesis stubs_ok : 0 <= intr_stubs /\ intr_stubs mod 4096 = 0 /\ intr_stubs + 8 * 256 <= W64.

Definition is_err (n : Z) : bool := match gen_trap_stub n with WithErr => true | _ => false end.

(** The return address a stub's call leaves, from which the vector is computed. *)
Definition stub_return (n : Z) : Z := intr_stubs + 8 * n + (if is_err n then 5 else 7).

Definition frame_words (n ecode : Z) (s : mach) : list (Z * Z) :=
  [(25, sg s SSEG); (24, rg s RSP); (23, fl s); (22, sg s CS); (21, pc s); (20, if is_err n then ecode else 0);
   (19, stub_return n)].

(** Delivery and the stub, for the vectors whose stubs agree with the processor on the
    error word. *)
Lemma stub_frame n cpl B ecode s : hw_error n = is_err n -> 0 <= B -> B + 8 * 26 < W64 ->
  pushed s (run (stub intr_stubs intrregular_at intrspecial_at n) (interrupt intr_stubs n cpl (B + 8 * 26) ecode s)) B 19
    (frame_words n ecode s).
Proof.
  intros He H0 H1; unfold interrupt, frame_words.
  assert (Hp : pushed s (set_rg RSP (B + 8 * 26) s) B (25 + 1) [])
    by (split; try done; intros r Hne; cbn; by destruct r).
  pose proof (pushed_push _ _ _ 25 _ (sg s SSEG) Hp) as H25.
  pose proof (pushed_push _ _ _ 24 _ (rg s RSP) (H25 ltac:(lia) ltac:(lia) ltac:(lia))) as H24.
  pose proof (pushed_push _ _ _ 23 _ (fl s) (H24 ltac:(lia) ltac:(lia) ltac:(lia))) as H23.
  pose proof (pushed_push _ _ _ 22 _ (sg s CS) (H23 ltac:(lia) ltac:(lia) ltac:(lia))) as H22.
  pose proof (pushed_push _ _ _ 21 _ (pc s) (H22 ltac:(lia) ltac:(lia) ltac:(lia))) as H21.
  specialize (H21 ltac:(lia) ltac:(lia) ltac:(lia)); clear Hp H25 H24 H23 H22; cbn [app] in H21.
  rewrite He; unfold stub, stub_return, is_err in *; revert H21.
  generalize (push (pc s) (push (sg s CS) (push (fl s) (push (rg s RSP) (push (sg s SSEG) (set_rg RSP (B + 8 * 26) s)))))).
  intros s1 H21; destruct (gen_trap_stub n); cbn [run step get].
  1,2: pose proof (pushed_enter _ _ _ _ _ (intr_stubs + 8 * n) (Z.lor ktextsel cpl) H21) as Ha;
    pose proof (pushed_push _ _ _ 20 _ 0 Ha ltac:(lia) ltac:(lia) ltac:(lia)) as H20;
    pose proof (pushed_push _ _ _ 19 _ (intr_stubs + 8 * n + 7) H20 ltac:(lia) ltac:(lia) ltac:(lia)) as H19;
    by apply pushed_set_pc.
  pose proof (pushed_push _ _ _ 20 _ ecode H21 ltac:(lia) ltac:(lia) ltac:(lia)) as H20.
  pose proof (pushed_enter _ _ _ _ _ (intr_stubs + 8 * n) (Z.lor ktextsel cpl) H20) as Ha.
  pose proof (pushed_push _ _ _ 19 _ (intr_stubs + 8 * n + 5) Ha ltac:(lia) ltac:(lia) ltac:(lia)) as H19.
  by apply pushed_set_pc.
Qed.

(** Bits of a sum of a low part and a high part. *)
Lemma testbit_parts k lo hi i : 0 <= k -> 0 <= lo < 2 ^ k -> 0 <= i ->
  Z.testbit (lo + 2 ^ k * hi) i = if i <? k then Z.testbit lo i else Z.testbit hi (i - k).
Proof.
  intros Hk Hlo Hi; destruct (Z.ltb_spec i k).
  - rewrite <- (Z.mod_pow2_bits_low _ k) by lia; f_equal.
    by rewrite Z.mul_comm, Z.mod_add, Z.mod_small by lia.
  - replace i with (i - k + k) at 1 by lia; rewrite <- Z.div_pow2_bits by lia; f_equal.
    by rewrite Z.mul_comm, Z.div_add, Z.div_small by lia.
Qed.

Lemma lor_parts k lo hi v : 0 <= k -> 0 <= lo < 2 ^ k -> 0 <= hi -> 0 <= v ->
  lo + 2 ^ k * Z.lor hi v = Z.lor (lo + 2 ^ k * hi) (2 ^ k * v).
Proof.
  intros Hk Hlo Hh Hv; apply Z.bits_inj'; intros i Hi.
  assert (Hz : 0 + 2 ^ k * v = 2 ^ k * v) by lia.
  rewrite Z.lor_spec, <- Hz, !testbit_parts by lia; zcase; rewrite ?Z.bits_0, ?orb_false_r, ?Z.lor_spec; done.
Qed.

(** [orb $SWAPPED] on the last byte of a word. *)
Definition SWAPPED_WORD : Z := 2 ^ 56 * SWAPPED.

Definition orb_last (B k : Z) (m : mem) : mem :=
  st 1 (B + 8 * k + 7) (Z.lor (ld 1 m (B + 8 * k + 7)) SWAPPED) m.

Lemma ld_orb B k j m : bytes m ->
  ld 8 (orb_last B k m) (B + 8 * j) = if j =? k then Z.lor (ld 8 m (B + 8 * k)) SWAPPED_WORD else ld 8 m (B + 8 * j).
Proof.
  intros Hb; unfold orb_last; destruct (Z.eqb_spec j k) as [->|]; [|apply ld_other; lia].
  rewrite !(ld_app 7 1), ld_other by lia; change (B + 8 * k + Z.of_nat 7) with (B + 8 * k + 7).
  pose proof (ld_bound 7 m (B + 8 * k) Hb); pose proof (ld_bound 1 m (B + 8 * k + 7) Hb).
  rewrite ld_same by (change (256 ^ Z.of_nat 1) with (2 ^ 8) in *; apply lor_bound; unfold SWAPPED; lia).
  change (256 ^ Z.of_nat 7) with (2 ^ 56) in *; apply lor_parts; unfold SWAPPED; lia.
Qed.

Lemma wr_bytes B l m : bytes m -> bytes (wr B l m).
Proof. revert m; induction l as [|[i v] l IH]; intros m Hm; [done|]; apply IH, st_bytes, Hm. Qed.

(** The two ways to [intrcommon]: [pre] and [post] are words the code leaves below the
    stack pointer, [k] the word whose last byte records the swap. *)
Record handled (s1 s2 : mach) (B k : Z) (pre post : list (Z * Z)) (swapped : bool) : Prop := {
  hd_rg : forall r, rg s2 r = rg s1 r;
  hd_sg : sg s2 = sg s1;
  hd_mm : mm s2 = wr B post (let m := wr B pre (mm s1) in if swapped then orb_last B k m else m);
  hd_gs : (gsb s2, kgsb s2) = if swapped then (kgsb s1, gsb s1) else (gsb s1, kgsb s1);
  hd_pc : pc s2 = intrcommon_at;
}.

Lemma zf_set_zf b s : zf (set_zf b s) = b.
Proof.
  unfold zf, set_zf, bit; cbn [fl set_fl]; rewrite Pt.testbit_with_bits by lia; by destruct b.
Qed.

Lemma frame_words_ok n ecode s : regs_ok s -> word ecode -> 0 <= n < 256 ->
  Forall (fun '(_, v) => word v) (frame_words n ecode s).
Proof.
  intros Hok He Hn; unfold frame_words; repeat (apply Forall_cons; split); try by apply sg_word.
  - apply Hok. - apply Hok. - apply Hok.
  - destruct (is_err n); [done | unfold word, W64; lia].
  - unfold stub_return, word; destruct (is_err n); lia.
  - by apply Forall_nil.
Qed.

Lemma regular_handled s s1 B n ecode : regs_ok s -> word ecode -> 0 <= n < 256 -> 0 <= B -> B + 8 * 26 < W64 ->
  pushed s s1 B 19 (frame_words n ecode s) ->
  handled s1 (run (intrregular intrcommon_at) s1) B 22 [] [] (negb (sg s CS =? 8)).
Proof.
  intros Hok Hec Hn H0 H1 [Hr Hg Hm Hs Hgs].
  assert (Hea : forall d, 0 <= d < 56 -> (rg s1 RSP + d) mod W64 = B + 152 + d) by (intros; rewrite Hr, Z.mod_small; lia).
  assert (Hcs : ld 2 (mm s1) (B + 152 + 24) = sg s CS).
  { rewrite (ld_low 2 6), Hm by (rewrite Hm; by apply wr_bytes, ok_mm).
    replace (B + 152 + 24) with (B + 8 * 22) by lia; rewrite ld_wr by (by apply frame_words_ok); cbn.
    apply Z.mod_small, ok_sg, Hok. }
  unfold intrregular; cbn [run step get ea]; rewrite Hea, Hcs, zf_set_zf by lia.
  destruct (Z.eqb_spec (sg s CS) 8) as [E|E]; cbn [negb].
  - split; done.
  - assert (Hor : (rg s1 RSP + (SWAPPED_CS_OFFSET + 24)) mod W64 = B + 8 * 22 + 7) by (rewrite Hea by done; unfold SWAPPED_CS_OFFSET; lia).
    split; try done; cbn -[Z.lor]; rewrite Hor; done.
Qed.

(** The part of [intrspecial] that compares [GSBASE]. *)
Definition compare_gs : list instr :=
  [Pushq (R RAX); Pushq (R RBX); Movq (I KMACH) (R RBX); Rdgsbase RAX; Cmpq RBX RAX; Popq RBX; Popq RAX].

Lemma compare_gs_spec s1 B : (forall r, word (rg s1 r)) -> rg s1 RSP = B + 8 * 19 -> 0 <= B -> B + 8 * 26 < W64 ->
  let s2 := run compare_gs s1 in
  (forall r, rg s2 r = rg s1 r) /\ sg s2 = sg s1 /\ mm s2 = wr B [(18, rg s1 RAX); (17, rg s1 RBX)] (mm s1) /\
  gsb s2 = gsb s1 /\ kgsb s2 = kgsb s1 /\ zf s2 = (gsb s1 =? KMACH).
Proof.
  intros Hw Hr H0 H1.
  assert (Hax : rg s1 RAX mod 256 ^ Z.of_nat 8 = rg s1 RAX) by apply Z.mod_small, Hw.
  assert (Hbx : rg s1 RBX mod 256 ^ Z.of_nat 8 = rg s1 RBX) by apply Z.mod_small, Hw.
  assert (H18 : (rg s1 RSP - 8) mod W64 = B + 8 * 18) by (rewrite Hr, Z.mod_small; lia).
  assert (H17 : (B + 8 * 18 - 8) mod W64 = B + 8 * 17) by (rewrite Z.mod_small; lia).
  assert (H17' : (B + 8 * 17 + 8) mod W64 = B + 8 * 18) by (rewrite Z.mod_small; lia).
  assert (H18' : (B + 8 * 18 + 8) mod W64 = B + 8 * 19) by (rewrite Z.mod_small; lia).
  set (m2 := wr B [(18, rg s1 RAX); (17, rg s1 RBX)] (mm s1)).
  assert (Hb17 : ld 8 m2 (B + 8 * 17) = rg s1 RBX) by (apply ld_same, Hw).
  assert (Ha18 : ld 8 m2 (B + 8 * 18) = rg s1 RAX)
    by (unfold m2, wr; cbn [fold_left]; rewrite ld_other by lia; apply ld_same, Hw).
  assert (Hm : mm (run compare_gs s1) = m2).
  { cbn -[ld st W64 Z.modulo Z.pow Z.sub Z.add]. by rewrite Hax, Hbx, H18, H17. }
  cbv zeta; split_and!; try done.
  - intros r; destruct r; cbn -[ld st W64 Z.modulo Z.pow Z.sub Z.add]; try done;
    rewrite ?Hax, ?Hbx, H18, H17, ?H17', ?H18'; done.
  - cbn [run compare_gs step pop]. exact (zf_set_zf _ _).
Qed.

Lemma special_handled s s1 B n ecode : regs_ok s -> word ecode -> word intrcommon_at -> 0 <= n < 256 -> 0 <= B -> B + 8 * 26 < W64 ->
  pushed s s1 B 19 (frame_words n ecode s) ->
  handled s1 (run (intrspecial intrcommon_at) s1) B 21 [(18, rg s RAX); (17, rg s RBX)] [(18, intrcommon_at)]
    (negb (gsb s =? KMACH)).
Proof.
  intros Hok Hec Hic Hn H0 H1 Hp; destruct Hp as [Hr Hg Hm Hs [Hgb Hkg]].
  destruct (compare_gs_spec s1 B) as (Hg2 & Hs2 & Hm2 & Hgb2 & Hkg2 & Hz2); auto.
  { intros r; destruct (decide (r = RSP)) as [->|]; [rewrite Hr; split; lia | rewrite Hg by done; apply Hok]. }
  change (intrspecial intrcommon_at) with (compare_gs ++ [Je [Swapgs; Orb SWAPPED (M (SWAPPED_CS_OFFSET + 16) RSP)]] ++
    [Pushq (I intrcommon_at); Ret])%list; rewrite !run_app.
  rewrite !Hg in Hm2 by done; rewrite Hgb in Hgb2, Hz2; rewrite Hkg in Hkg2.
  revert Hg2 Hs2 Hm2 Hgb2 Hkg2 Hz2; generalize (run compare_gs s1); intros s2 Hg2 Hs2 Hm2 Hgb2 Hkg2 Hz2.
  assert (Hr2 : rg s2 RSP = B + 8 * 19) by (by rewrite Hg2).
  assert (Hor : (rg s2 RSP + (SWAPPED_CS_OFFSET + 16)) mod W64 = B + 8 * 21 + 7)
    by (rewrite Hr2; unfold SWAPPED_CS_OFFSET; rewrite Z.mod_small; lia).
  assert (H18 : (rg s2 RSP - 8) mod W64 = B + 8 * 18) by (rewrite Hr2, Z.mod_small; lia).
  assert (H18' : (B + 8 * 18 + 8) mod W64 = B + 8 * 19) by (rewrite Z.mod_small; lia).
  assert (Hic' : intrcommon_at mod 256 ^ Z.of_nat 8 = intrcommon_at) by (by apply Z.mod_small).
  cbn [run step]; rewrite Hz2; destruct (gsb s =? KMACH); cbn [negb].
  all: split; [intros r; rewrite <- Hg2; destruct r; cbn -[ld st W64 Z.modulo Z.pow Z.sub Z.add]; try done; rewrite H18, H18'; congruence
    | by rewrite <- Hs2 | | |].
  all: cbn -[ld st W64 Z.modulo Z.pow Z.sub Z.add Z.lor SWAPPED SWAPPED_CS_OFFSET wr orb_last];
    rewrite ?Hor, ?H18, ?Hic', ?Hm2; try done; try congruence; by apply ld_same.
Qed.

(** The vector is in the low bits of the return address. *)
Lemma vector_of_return n : 0 <= n < 256 -> Z.shiftr (stub_return n mod 65536) 3 mod 256 = n.
Proof.
  intros Hn; destruct stubs_ok as (H0 & Ha & _); unfold stub_return.
  pose proof (Z.div_mod intr_stubs 4096); set (q := intr_stubs / 4096) in *.
  set (e := if is_err n then 5 else 7); assert (He : 0 <= e < 8) by (unfold e; destruct (is_err n); lia).
  rewrite Z.shiftr_div_pow2 by lia; change (2 ^ 3) with 8.
  replace (intr_stubs + 8 * n + e) with (e + (512 * q + n) * 8) by lia.
  change 65536 with (8 * 8192); rewrite Z.rem_mul_r, Z.mod_add, Z.div_add by lia.
  rewrite (Z.mod_small e), (Z.div_small e) by lia; rewrite Z.add_comm, Z.mul_comm, Z.div_add_l, (Z.div_small e) by lia.
  rewrite Z.add_0_r, Z.add_0_l; change 8192 with (256 * 32); rewrite Z.rem_mul_r by lia.
  rewrite (Z.mul_comm 256 (_ mod _)), Z.mod_add, Z.mod_mod by lia.
  replace (512 * q + n) with (n + (2 * q) * 256) by lia; by rewrite Z.mod_add, Z.mod_small by lia.
Qed.

Definition gpr_slots : list (reg * Z) :=
  [(R15, 14); (R14, 13); (R13, 12); (R12, 11); (R11, 10); (R10, 9); (R9, 8); (R8, 7); (RBP, 6); (RDI, 5); (RSI, 4);
   (RDX, 3); (RCX, 2); (RBX, 1); (RAX, 0)].

Definition save_segs : list instr :=
  [Movl_from GS RDI; Movq (R RDI) (M (18 * 8) RSP); Movl_from FS RDI; Movq (R RDI) (M (17 * 8) RSP);
   Movl_from ES RDI; Movq (R RDI) (M (16 * 8) RSP); Movl_from DS RDI; Movq (R RDI) (M (15 * 8) RSP)].

Definition save_vector : list instr :=
  [Shrw 3 (M UREG_TRAPNO_OFFSET RSP); Movzbl (M UREG_TRAPNO_OFFSET RSP) RDI;
   Movq (R RDI) (M UREG_TRAPNO_OFFSET RSP); Movq (R RSP) (R RSI)].

Lemma save_split : intrcommon_save = ([Subq ((4 + 15) * 8) RSP] ++ saves gpr_slots ++ save_segs ++ save_vector)%list.
Proof. reflexivity. Qed.

Lemma save_segs_spec s B : rg s RSP = B -> 0 <= B -> B + 8 * 26 < W64 -> (forall g, g <> CS -> 0 <= sg s g < W16) ->
  let s' := run save_segs s in
  (forall r, r <> RDI -> rg s' r = rg s r) /\ sg s' = sg s /\ gsb s' = gsb s /\ kgsb s' = kgsb s /\
  mm s' = wr B [(18, sg s GS); (17, sg s FS); (16, sg s ES); (15, sg s DS)] (mm s).
Proof.
  intros Hr H0 H1 Hg.
  assert (Hea : forall d, 0 <= d < 208 -> (rg s RSP + d) mod W64 = B + d) by (intros; rewrite Hr, Z.mod_small; lia).
  assert (Hsm : forall g, g <> CS -> sg s g mod 256 ^ Z.of_nat 8 = sg s g)
    by (intros g Hne; apply Z.mod_small; pose proof (Hg g Hne); change (256 ^ Z.of_nat 8) with W64; unfold W16, W64 in *; lia).
  cbv zeta; split_and!; try done.
  - intros r Hne; by destruct r.
  - cbn -[st W64 Z.modulo Z.pow Z.add Z.mul]; by rewrite !Hsm, !Hea by (done || lia).
Qed.

Lemma save_vector_spec s B : rg s RSP = B -> 0 <= B -> B + 8 * 26 < W64 ->
  let s' := run save_vector s in
  let v := Z.shiftr (ld 2 (mm s) (B + 8 * 19)) 3 in
  rg s' RDI = v mod 256 /\ rg s' RSI = B /\ (forall r, r <> RDI -> r <> RSI -> rg s' r = rg s r) /\ sg s' = sg s /\
  gsb s' = gsb s /\ kgsb s' = kgsb s /\ mm s' = wr B [(19, v mod 256)] (st 2 (B + 8 * 19) v (mm s)).
Proof.
  intros Hr H0 H1.
  assert (Hea : (rg s RSP + UREG_TRAPNO_OFFSET) mod W64 = B + 8 * 19)
    by (rewrite Hr; unfold UREG_TRAPNO_OFFSET; rewrite Z.mod_small; lia).
  assert (Hv : forall v m, ld 1 (st 2 (B + 8 * 19) v m) (B + 8 * 19) = v mod 256)
    by (intros; rewrite ld_part, Z.sub_diag, Z.div_1_r by lia; done).
  assert (Hvm : forall v, (v mod 256) mod 256 ^ Z.of_nat 8 = v mod 256)
    by (intros v; apply Z.mod_small; pose proof (Z.mod_pos_bound v 256); change (256 ^ Z.of_nat 8) with W64; unfold W64; lia).
  assert (HBm : B mod 256 ^ Z.of_nat 8 = B) by (apply Z.mod_small; change (256 ^ Z.of_nat 8) with W64; lia).
  cbv zeta; split_and!; try done.
  - cbn -[ld st W64 Z.modulo Z.pow Z.add UREG_TRAPNO_OFFSET Z.shiftr]; by rewrite Hea, Hv.
  - cbn -[ld st W64 Z.modulo Z.pow Z.add UREG_TRAPNO_OFFSET Z.shiftr]; by rewrite Hr, HBm.
  - intros r Hne Hne'; by destruct r.
  - cbn -[ld st W64 Z.modulo Z.pow Z.add Z.mul UREG_TRAPNO_OFFSET Z.shiftr]; by rewrite !Hea, Hv, Hvm.
Qed.

Lemma ld_wr_other n B l m a : Forall (fun '(i, _) => a + Z.of_nat n <= B + 8 * i \/ B + 8 * i + 8 <= a) l ->
  ld n (wr B l m) a = ld n m a.
Proof.
  intros Hl; revert m; induction Hl as [|[i v] l Hi _ IH]; intros m; [done|]; unfold wr in *; cbn [fold_left].
  rewrite IH; apply ld_other; lia.
Qed.

Lemma wr_app B l l' m : wr B l' (wr B l m) = wr B (l ++ l') m.
Proof. unfold wr; by rewrite fold_left_app. Qed.

(** The words [intrcommon] saves below the trap number. *)
Definition saved_words (s : mach) : list (Z * Z) :=
  (map (fun '(r, i) => (i, rg s r)) gpr_slots ++ [(18, sg s GS); (17, sg s FS); (16, sg s ES); (15, sg s DS)])%list.

Lemma save_spec s B : rg s RSP = B + 8 * 19 -> 0 <= B -> B + 8 * 26 < W64 -> (forall r, word (rg s r)) ->
  (forall g, g <> CS -> 0 <= sg s g < W16) ->
  let s' := run intrcommon_save s in
  let v := Z.shiftr (ld 2 (mm s) (B + 8 * 19)) 3 in
  rg s' RDI = v mod 256 /\ rg s' RSI = B /\ rg s' RSP = B /\
  (forall r, r <> RDI -> r <> RSI -> r <> RSP -> rg s' r = rg s r) /\ sg s' = sg s /\
  gsb s' = gsb s /\ kgsb s' = kgsb s /\
  mm s' = wr B [(19, v mod 256)] (st 2 (B + 8 * 19) v (wr B (saved_words s) (mm s))).
Proof.
  intros Hr H0 H1 Hw Hg; cbv zeta; rewrite save_split, !run_app.
  set (sA := run [Subq ((4 + 15) * 8) RSP] s).
  assert (HrA : rg sA RSP = B) by (cbn -[Z.modulo Z.sub W64]; rewrite Hr, Z.mod_small; lia).
  assert (HgA : forall r, r <> RSP -> rg sA r = rg s r) by (intros r Hne; by destruct r).
  assert (HmA : mm sA = mm s /\ sg sA = sg s /\ gsb sA = gsb s /\ kgsb sA = kgsb s) by done.
  clearbody sA; destruct HmA as (HmA & HsA & HgbA & HkgA).
  rewrite (run_saves _ sA B); [|done|lia|lia| |].
  2:{ intros r; destruct (decide (r = RSP)) as [->|]; [rewrite HrA; split; lia | rewrite HgA by done; apply Hw]. }
  2:{ repeat (apply Forall_cons; split; [lia|]); by apply Forall_nil. }
  replace (map (fun '(r, i) => (i, rg sA r)) gpr_slots) with (map (fun '(r, i) => (i, rg s r)) gpr_slots)
    by (unfold gpr_slots; cbn [map]; by rewrite !HgA).
  set (sB := set_mm _ sA).
  destruct (save_segs_spec sB B) as (HgC & HsC & HgbC & HkgC & HmC); [done | lia | lia | by intros g Hne; cbn; rewrite HsA; auto|].
  cbn [mm sg sB set_mm] in HmC; rewrite HsA, HmA, wr_app in HmC; fold (saved_words s) in HmC.
  destruct (save_vector_spec (run save_segs sB) B) as (HdD & HsiD & HgD & HsD & HgbD & HkgD & HmD); [by rewrite HgC | lia | lia |].
  rewrite HmC in HdD, HmD.
  assert (Hl : ld 2 (wr B (saved_words s) (mm s)) (B + 8 * 19) = ld 2 (mm s) (B + 8 * 19)).
  { apply ld_wr_other; unfold saved_words, gpr_slots; cbn [map app].
    repeat (apply Forall_cons; split; [lia|]); by apply Forall_nil. }
  rewrite Hl in HdD, HmD; split_and!; try done.
  intros r Hd Hsi Hsp; rewrite HgD, HgC by done; by apply HgA.
Qed.

Lemma saved_words_ok s : (forall r, word (rg s r)) -> (forall g, g <> CS -> 0 <= sg s g < W16) ->
  Forall (fun '(_, v) => word v) (saved_words s).
Proof.
  intros Hw Hg; assert (forall g, g <> CS -> word (sg s g)) by (intros g Hne; pose proof (Hg g Hne); unfold word, W16, W64 in *; lia).
  unfold saved_words, gpr_slots; cbn [map app]; repeat (apply Forall_cons; split; [auto|]); by apply Forall_nil.
Qed.

(** What the frame holds: the saved registers, the vector, and what was there above. *)
Lemma save_frame s B j : rg s RSP = B + 8 * 19 -> 0 <= B -> B + 8 * 26 < W64 -> (forall r, word (rg s r)) ->
  (forall g, g <> CS -> 0 <= sg s g < W16) -> 0 <= j ->
  ld 8 (mm (run intrcommon_save s)) (B + 8 * j) =
    if j =? 19 then Z.shiftr (ld 2 (mm s) (B + 8 * 19)) 3 mod 256
    else match at_slot j (rev (saved_words s)) with Some v => v | None => ld 8 (mm s) (B + 8 * j) end.
Proof.
  intros Hr H0 H1 Hw Hg Hj; destruct (save_spec s B) as (_ & _ & _ & _ & _ & _ & _ & ->); auto.
  set (v := Z.shiftr _ _); rewrite ld_wr.
  2:{ apply Forall_cons; split; [|by apply Forall_nil]; pose proof (Z.mod_pos_bound v 256); unfold word, W64; lia. }
  cbn [rev app at_slot]; destruct (Z.eqb_spec j 19); [done|].
  rewrite ld_other by lia; apply ld_wr, saved_words_ok; auto.
Qed.

(** The [Ureg] of a trap; [k] is the word the swap is recorded in. *)
Definition trap_ureg (n ecode : Z) (s : mach) (k : Z) (swapped : bool) : list Z :=
  let mark i v := if swapped && (i =? k) then Z.lor v SWAPPED_WORD else v in
  (map (rg s) gprs ++
   [sg s DS; sg s ES; sg s FS; sg s GS; n; if is_err n then ecode else 0;
    mark 21 (pc s); mark 22 (sg s CS); fl s; rg s RSP; sg s SSEG])%list.

Section to_trap.
Context (s s1 s2 : mach) (B n ecode k : Z) (pre post : list (Z * Z)) (sw : bool).
Hypothesis Hok : regs_ok s.
Hypothesis Hec : word ecode.
Hypothesis Hn : 0 <= n < 256.
Hypothesis HB : 0 <= B /\ B + 8 * 26 < W64.
Hypothesis Hpd : pushed s s1 B 19 (frame_words n ecode s).
Hypothesis Hhd : handled s1 s2 B k pre post sw.
Hypothesis Hpre : Forall (fun '(i, _) => i <= 18) (pre ++ post)%list.
Hypothesis Hk : 21 <= k <= 22.

Lemma below_wr l m a c : Forall (fun '(i, _) => i <= 18) l -> B + 8 * 19 <= a -> ld c (wr B l m) a = ld c m a.
Proof. intros Hl Ha; apply ld_wr_other; eapply Forall_impl; [exact Hl|]; intros [i v] Hi; lia. Qed.

Lemma s2_bytes : bytes (mm s2).
Proof.
  destruct Hpd as [_ _ Hm _ _], Hhd as [_ _ Hm2 _ _]; rewrite Hm2, Hm; apply wr_bytes.
  assert (bytes (wr B pre (wr B (frame_words n ecode s) (mm s)))) by (by apply wr_bytes, wr_bytes, ok_mm).
  cbv zeta; destruct sw; [by apply st_bytes | done].
Qed.

Lemma s2_word j : 19 <= j ->
  ld 8 (mm s2) (B + 8 * j) =
    let v := match at_slot j (rev (frame_words n ecode s)) with Some v => v | None => ld 8 (mm s) (B + 8 * j) end in
    if sw && (j =? k) then Z.lor v SWAPPED_WORD else v.
Proof.
  intros Hj; destruct Hpd as [_ _ Hm _ _], Hhd as [_ _ Hm2 _ _]; apply Forall_app in Hpre as [Hp1 Hp2].
  assert (Hb : bytes (wr B pre (mm s1))) by (rewrite Hm; by apply wr_bytes, wr_bytes, ok_mm).
  rewrite <- ld_wr, <- Hm by (by apply frame_words_ok); rewrite Hm2, below_wr by (auto; lia); cbv zeta.
  destruct sw; cbn [andb]; rewrite ?ld_orb by done.
  - destruct (Z.eqb_spec j k) as [->|]; by rewrite below_wr by (auto; lia).
  - by rewrite below_wr by (auto; lia).
Qed.

Lemma s2_return : ld 2 (mm s2) (B + 8 * 19) = stub_return n mod 65536.
Proof.
  rewrite (ld_low 2 6) by apply s2_bytes; rewrite s2_word by lia; cbv zeta.
  by rewrite (proj2 (Z.eqb_neq 19 k)), andb_false_r by lia.
Qed.

Lemma s2_regs : rg s2 RSP = B + 8 * 19 /\ (forall r, r <> RSP -> rg s2 r = rg s r) /\
  (forall r, word (rg s2 r)) /\ (forall g, g <> CS -> 0 <= sg s2 g < W16) /\ (forall g, g <> CS -> sg s2 g = sg s g).
Proof.
  destruct Hpd as [Hr Hg _ Hs _], Hhd as [Hg2 Hs2 _ _ _]; split_and!.
  - by rewrite Hg2.
  - intros r Hne; rewrite Hg2; auto.
  - intros r; rewrite Hg2; destruct (decide (r = RSP)) as [->|]; [rewrite Hr; unfold word; lia | rewrite Hg by done; apply Hok].
  - intros g Hne; rewrite Hs2, Hs by done; apply Hok.
  - intros g Hne; rewrite Hs2; auto.
Qed.
End to_trap.

(** At the call of [trap]: the vector and the frame's address are its arguments. *)
Lemma save_trap s s1 s2 B n ecode k pre post sw : regs_ok s -> word ecode -> 0 <= n < 256 ->
  0 <= B /\ B + 8 * 26 < W64 -> pushed s s1 B 19 (frame_words n ecode s) -> handled s1 s2 B k pre post sw ->
  Forall (fun '(i, _) => i <= 18) (pre ++ post)%list -> 21 <= k <= 22 ->
  let s3 := run intrcommon_save s2 in
  rg s3 RDI = n /\ rg s3 RSI = B /\ rg s3 RSP = B /\ ureg (mm s3) B = trap_ureg n ecode s k sw /\
  sg s3 = sg s2 /\ (gsb s3, kgsb s3) = (gsb s2, kgsb s2).
Proof.
  intros Hok Hec Hn HB Hpd Hhd Hpre Hk; cbv zeta.
  destruct (s2_regs s s1 s2 B n ecode k pre post sw Hok HB Hpd Hhd) as (Hr & Hg & Hw & Hgr & Hs).
  pose proof (s2_return s s1 s2 B n ecode k pre post sw Hok Hec Hn Hpd Hhd Hpre Hk) as Hret.
  destruct (save_spec s2 B) as (Hd & Hsi & Hsp & _ & Hs3 & Hgb & Hkg & _); try done; try lia.
  rewrite Hret, vector_of_return in Hd by done; split_and!; try congruence.
  unfold ureg; change (seqZ 0 26) with [0; 1; 2; 3; 4; 5; 6; 7; 8; 9; 10; 11; 12; 13; 14; 15; 16; 17; 18; 19; 20; 21; 22; 23; 24; 25].
  cbn [map]; rewrite !save_frame by (try done; lia); rewrite Hret, vector_of_return by done.
  assert (Hw2 : forall j, 19 <= j -> ld 8 (mm s2) (B + 8 * j) =
    let v := match at_slot j (rev (frame_words n ecode s)) with Some v => v | None => ld 8 (mm s) (B + 8 * j) end in
    if sw && (j =? k) then Z.lor v SWAPPED_WORD else v)
    by (intros; by apply (s2_word s s1 s2 B n ecode k pre post sw)).
  rewrite !(Hw2 20), !(Hw2 21), !(Hw2 22), !(Hw2 23), !(Hw2 24), !(Hw2 25) by lia.
  unfold saved_words, gpr_slots, frame_words, trap_ureg, gprs.
  cbn -[Z.lor SWAPPED_WORD is_err stub_return ld].
  rewrite !Hg, !Hs by done.
  assert (k = 21 \/ k = 22) as [-> | ->] by lia; cbn -[Z.lor SWAPPED_WORD is_err]; by rewrite !andb_false_r.
Qed.

(** Storing what is there changes nothing. *)
Lemma ld_byte n m a x : bytes m -> a <= x < a + Z.of_nat n -> (ld n m a / 256 ^ (x - a)) mod 256 = m x.
Proof.
  intros Hb; revert a; induction n as [|n IH]; intros a Hx; [lia|]; rewrite ld_S; pose proof (Hb a).
  destruct (Z.eq_dec x a) as [->|].
  - rewrite Z.sub_diag, Z.div_1_r, Z.mul_comm, Z.mod_add by lia; by rewrite Z.mod_small.
  - rewrite <- (IH (a + 1)) by lia; replace (x - a) with (Z.succ (x - (a + 1))) by lia.
    rewrite Z.pow_succ_r, <- Z.div_div by lia; do 2 f_equal.
    by rewrite Z.mul_comm, Z.div_add, Z.div_small by lia.
Qed.

Lemma st_self n m a x : bytes m -> st n a (ld n m a) m x = m x.
Proof.
  intros Hb; unfold st; destruct (Z.leb_spec a x), (Z.ltb_spec x (a + Z.of_nat n)); simpl; try done.
  apply ld_byte; [done | lia].
Qed.

(** The bit [btr] clears is bit 0 of the byte, not the one [orb] sets, and no other
    byte changes. *)
Lemma btr_swapped m a x : bytes m -> x <> a -> st 4 a (Z.clearbit (ld 4 m a) (SWAPPED mod 32)) m x = m x.
Proof.
  intros Hb Hx; change (SWAPPED mod 32) with 0; unfold st; destruct (Z.leb_spec a x), (Z.ltb_spec x (a + Z.of_nat 4)); cbn [andb]; try done.
  rewrite <- (ld_byte 4 m a x Hb ltac:(lia)); change 256 with (2 ^ 8); rewrite <- Z.pow_mul_r by lia; f_equal.
  rewrite <- !Z.shiftr_div_pow2 by lia; apply Z.bits_inj'; intros i Hi; rewrite !Z.shiftr_spec, Z.clearbit_eqb by lia.
  by rewrite (proj2 (Z.eqb_neq _ _)), andb_true_r by lia.
Qed.

Definition test_swapped : list instr :=
  [Btr SWAPPED (M (SWAPPED_CS_OFFSET + UREG_CS_OFFSET) RSP); Je [Swapgs]].

Lemma test_swapped_spec s B : rg s RSP = B -> 0 <= B -> B + 8 * 26 < W64 -> bytes (mm s) ->
  let s' := run test_swapped s in
  rg s' = rg s /\ sg s' = sg s /\ bytes (mm s') /\ (forall x, x <> B + 8 * 22 + 7 -> mm s' x = mm s x) /\
  (gsb s', kgsb s') = if zf s then (gsb s, kgsb s) else (kgsb s, gsb s).
Proof.
  intros Hr H0 H1 Hb.
  assert (Hea : (rg s RSP + (SWAPPED_CS_OFFSET + UREG_CS_OFFSET)) mod W64 = B + 8 * 22 + 7)
    by (rewrite Hr; unfold SWAPPED_CS_OFFSET, UREG_CS_OFFSET; rewrite Z.mod_small; lia).
  pose proof (fun x => btr_swapped (mm s) (B + 8 * 22 + 7) x Hb) as Hm.
  assert (Hz : forall b f, bit (Pt.with_bits f 0 1 (Z.b2z b)) 6 = bit f 6)
    by (intros; unfold bit; rewrite Pt.testbit_with_bits by lia; done).
  unfold test_swapped; cbn [run step get ea]; rewrite Hea; cbv zeta.
  match goal with |- context [zf ?t] => assert (zf t = zf s) as -> by (unfold zf; apply Hz) end.
  destruct (zf s); cbn -[ld st Z.clearbit Z.modulo Z.mul Z.add SWAPPED W64]; rewrite Hea; auto using st_bytes.
Qed.

Definition restore_regs : list instr :=
  [Movq (M (0 * 8) RSP) (R RAX); Movq (M (1 * 8) RSP) (R RBX); Movq (M (2 * 8) RSP) (R RCX);
   Movq (M (3 * 8) RSP) (R RDX); Movq (M (4 * 8) RSP) (R RSI); Movq (M (5 * 8) RSP) (R RDI);
   Movq (M (6 * 8) RSP) (R RBP); Movq (M (7 * 8) RSP) (R R8); Movq (M (8 * 8) RSP) (R R9);
   Movq (M (9 * 8) RSP) (R R10); Movq (M (10 * 8) RSP) (R R11); Movq (M (11 * 8) RSP) (R R12);
   Movq (M (12 * 8) RSP) (R R13); Movq (M (13 * 8) RSP) (R R14); Movq (M (14 * 8) RSP) (R R15);
   Movw_to (M (15 * 8) RSP) DS; Movw_to (M (16 * 8) RSP) ES; Movw_to (M (17 * 8) RSP) FS;
   Addq ((2 + 4 + 15) * 8) RSP; Iretq].

Lemma restore_split : intrcommon_restore = (test_swapped ++ restore_regs)%list.
Proof. reflexivity. Qed.

(** The registers a return loads from a frame. *)
Lemma restore_regs_spec s B : rg s RSP = B -> 0 <= B -> B + 8 * 26 < W64 -> bytes (mm s) ->
  let s' := run restore_regs s in
  let w i := ld 8 (mm s) (B + 8 * i) in
  map (rg s') gprs = map w (seqZ 0 15) /\
  rg s' RSP = w 24 /\ pc s' = w 21 /\ fl s' = w 23 /\
  sg s' CS = w 22 mod W16 /\ sg s' SSEG = w 25 mod W16 /\
  sg s' DS = w 15 mod W16 /\ sg s' ES = w 16 mod W16 /\ sg s' FS = w 17 mod W16 /\
  sg s' GS = sg s GS /\ mm s' = mm s /\ gsb s' = gsb s /\ kgsb s' = kgsb s.
Proof.
  intros Hr H0 H1 Hb.
  assert (Hea : forall d, 0 <= d < 208 -> (rg s RSP + d) mod W64 = B + d) by (intros; rewrite Hr, Z.mod_small; lia).
  assert (H2 : forall a, ld 2 (mm s) a = ld 8 (mm s) a mod W16) by (intros a; by rewrite (ld_low 2 6)).
  assert (E21 : (rg s RSP + (2 + 4 + 15) * 8) mod W64 = B + 8 * 21) by (rewrite Hea; lia).
  assert (E22 : (B + 8 * 21 + 8) mod W64 = B + 8 * 22) by (rewrite Z.mod_small; lia).
  assert (E23 : (B + 8 * 22 + 8) mod W64 = B + 8 * 23) by (rewrite Z.mod_small; lia).
  assert (E24 : (B + 8 * 23 + 8) mod W64 = B + 8 * 24) by (rewrite Z.mod_small; lia).
  assert (E25 : (B + 8 * 24 + 8) mod W64 = B + 8 * 25) by (rewrite Z.mod_small; lia).
  cbv zeta; split_and!; try done.
  all: cbn -[ld Z.modulo Z.mul Z.add W64 W16]; rewrite ?H2, ?E21, ?E22, ?E23, ?E24, ?E25; try done.
  all: by rewrite !Hea by lia.
Qed.

(** What the return loads from a [Ureg] [f]. *)
Record resumed (f : list Z) (s : mach) : Prop := {
  re_gprs : map (rg s) gprs = take 15 f;
  re_rsp : rg s RSP = nth 24 f 0;
  re_pc : pc s = nth 21 f 0;
  re_fl : fl s = nth 23 f 0;
  re_cs : sg s CS = nth 22 f 0 mod W16;
  re_ss : sg s SSEG = nth 25 f 0 mod W16;
  re_ds : sg s DS = nth 15 f 0 mod W16;
  re_es : sg s ES = nth 16 f 0 mod W16;
  re_fs : sg s FS = nth 17 f 0 mod W16;
}.

Lemma ureg_word m B l i : ureg m B = l -> 0 <= i < 26 -> ld 8 m (B + 8 * i) = nth (Z.to_nat i) l 0.
Proof.
  intros <- Hi; rewrite <- (Z2Nat.id i) at 1 by lia; assert (Hn : (Z.to_nat i < 26)%nat) by lia.
  revert Hn; generalize (Z.to_nat i); intros n Hn; do 26 (destruct n as [|n]; [done|]); lia.
Qed.

(** The return, whatever the frame holds by then. *)
Lemma restore_spec s B : rg s RSP = B -> 0 <= B -> B + 8 * 26 < W64 -> bytes (mm s) ->
  let s' := run intrcommon_restore s in
  resumed (ureg (mm s) B) s' /\ sg s' GS = sg s GS /\ (forall x, x <> B + 8 * 22 + 7 -> mm s' x = mm s x) /\
  (gsb s', kgsb s') = if zf s then (gsb s, kgsb s) else (kgsb s, gsb s).
Proof.
  intros Hr H0 H1 Hb; rewrite restore_split, run_app; cbv zeta.
  destruct (test_swapped_spec s B) as (Hg & Hs & Hb1 & Hm & Hgs); auto.
  destruct (restore_regs_spec (run test_swapped s) B) as (Q0 & Q1 & Q2 & Q3 & Q4 & Q5 & Q6 & Q7 & Q8 & Qg & Q9 & Q10 & Q11); [by rewrite Hg|done|done|done|].
  assert (Hl : forall i, i <> 22 -> ld 8 (mm (run test_swapped s)) (B + 8 * i) = ld 8 (mm s) (B + 8 * i))
    by (intros i Hi; apply ld_ext; intros x Hx; apply Hm; lia).
  assert (Hc : ld 8 (mm (run test_swapped s)) (B + 8 * 22) mod W16 = ld 8 (mm s) (B + 8 * 22) mod W16).
  { change W16 with (256 ^ Z.of_nat 2); rewrite <- !(ld_low 2 6) by done; apply ld_ext; intros x Hx; apply Hm; lia. }
  rewrite Hc in Q4; rewrite !Hl in Q1, Q2, Q3, Q5, Q6, Q7, Q8 by lia.
  split; [|split_and!; [by rewrite Qg, Hs|intros x Hx; rewrite Q9; by apply Hm|by rewrite Q10, Q11]].
  assert (Hu : forall i, 0 <= i < 26 -> ld 8 (mm s) (B + 8 * i) = nth (Z.to_nat i) (ureg (mm s) B) 0) by (intros; by apply ureg_word).
  rewrite Hu in Q1, Q2, Q3, Q4, Q5, Q6, Q7, Q8 by lia; split; try assumption.
  rewrite Q0; change (seqZ 0 15) with [0; 1; 2; 3; 4; 5; 6; 7; 8; 9; 10; 11; 12; 13; 14]; cbn [map]; rewrite !Hl by lia; reflexivity.
Qed.

Lemma st_outside n a v m x : a + Z.of_nat n <= x -> st n a v m x = m x.
Proof. intros; unfold st; rewrite (proj2 (Z.ltb_ge _ _)) by lia; by rewrite andb_false_r. Qed.

(** Nothing above the frame is touched. *)
Lemma save_above s s1 s2 B n ecode k pre post sw x : regs_ok s -> 0 <= B /\ B + 8 * 26 < W64 ->
  pushed s s1 B 19 (frame_words n ecode s) -> handled s1 s2 B k pre post sw ->
  Forall (fun '(i, _) => i <= 18) (pre ++ post)%list -> 21 <= k <= 22 -> B + 8 * 26 <= x ->
  mm (run intrcommon_save s2) x = mm s x.
Proof.
  intros Hok HB Hpd Hhd Hpre Hk Hx.
  destruct (s2_regs s s1 s2 B n ecode k pre post sw Hok HB Hpd Hhd) as (Hr & Hg & Hw & Hgr & Hs).
  destruct (save_spec s2 B) as (_ & _ & _ & _ & _ & _ & _ & ->); try done; try lia.
  destruct Hpd as [_ _ Hm _ _], Hhd as [_ _ Hm2 _ _]; apply Forall_app in Hpre as [Hp1 Hp2].
  assert (Hab : forall l m, Forall (fun '(i, _) => i <= 25) l -> wr B l m x = m x)
    by (intros l m Hl; apply wr_above; eapply Forall_impl; [exact Hl|]; intros [i v] ?; lia).
  assert (Hin : forall l : list (Z * Z), Forall (fun '(i, _) => i <= 18) l -> Forall (fun '(i, _) => i <= 25) l)
    by (intros l Hl; eapply Forall_impl; [exact Hl|]; intros [i v] ?; lia).
  rewrite Hab by (apply Forall_cons; split; [lia | by apply Forall_nil]); rewrite st_outside by lia.
  rewrite Hab by (unfold saved_words, gpr_slots; cbn [map app]; repeat (apply Forall_cons; split; [lia|]); by apply Forall_nil).
  rewrite Hm2, Hab by auto; cbv zeta.
  assert (Hf : wr B pre (mm s1) x = mm s x).
  { rewrite Hab, Hm by auto; apply Hab; unfold frame_words; repeat (apply Forall_cons; split; [lia|]); by apply Forall_nil. }
  destruct sw; [|done]; unfold orb_last; by rewrite st_outside by lia.
Qed.

(** A call under the C calling convention, of a function that leaves the segments and
    the two GS bases alone: the stack pointer is kept.  Memory, the frame it was given
    included, and the other registers are the function's to write. *)
Record c_call (s s' : mach) : Prop := {
  cc_rsp : rg s' RSP = rg s RSP;
  cc_sg : sg s' = sg s;
  cc_gs : (gsb s', kgsb s') = (gsb s, kgsb s);
  cc_bytes : bytes (mm s) -> bytes (mm s');
}.

(** The frame as it was built loads back all registers. *)
Lemma resumed_same s s5 n ecode k sw : regs_ok s -> resumed (trap_ureg n ecode s k sw) s5 -> sg s5 GS = sg s GS ->
  (forall r, rg s5 r = rg s r) /\ (forall g, sg s5 g = sg s g) /\ fl s5 = fl s /\
  pc s5 = (if sw && (21 =? k) then Z.lor (pc s) SWAPPED_WORD else pc s).
Proof.
  intros Hok [Q0 Q1 Q2 Q3 Q4 Q5 Q6 Q7 Q8] Hgs.
  assert (Hsm : forall g, sg s g mod W16 = sg s g) by (intros g; apply Z.mod_small, ok_sg, Hok).
  split_and!; [| |done|done].
  - cbn [map gprs take trap_ureg app] in Q0; injection Q0 as R0 R1 R2 R3 R4 R5 R6 R7 R8 R9 R10 R11 R12 R13 R14; intros r; destruct r; assumption.
  - intros g; destruct g; [exact (eq_trans Q6 (Hsm DS)) | exact (eq_trans Q7 (Hsm ES)) | exact (eq_trans Q8 (Hsm FS))
      | exact Hgs | | exact (eq_trans Q5 (Hsm SSEG))].
    rewrite Q4; transitivity ((if sw && (22 =? k) then Z.lor (sg s CS) SWAPPED_WORD else sg s CS) mod W16); [done|].
    destruct (sw && _); [|apply Hsm]; change W16 with (2 ^ 16) in *.
    rewrite <- !Z.land_ones, Z.land_lor_distr_l by lia; change (Z.land SWAPPED_WORD (Z.ones 16)) with 0.
    rewrite Z.lor_0_r, Z.land_ones by lia; apply Hsm.
Qed.

Lemma save_bytes s B : rg s RSP = B + 8 * 19 -> 0 <= B /\ B + 8 * 26 < W64 -> (forall r, word (rg s r)) ->
  (forall g, g <> CS -> 0 <= sg s g < W16) -> bytes (mm s) -> bytes (mm (run intrcommon_save s)).
Proof.
  intros Hr HB Hw Hg Hb; destruct (save_spec s B) as (_ & _ & _ & _ & _ & _ & _ & ->); auto; try lia.
  by apply wr_bytes, st_bytes, wr_bytes.
Qed.

(** Delivery, stub, handler, [trap] and return, for either kind of handler. *)
Lemma trap_path s s1 s2 s4 B n ecode k pre post sw : regs_ok s -> word ecode -> 0 <= n < 256 ->
  0 <= B /\ B + 8 * 26 < W64 -> pushed s s1 B 19 (frame_words n ecode s) -> handled s1 s2 B k pre post sw ->
  Forall (fun '(i, _) => i <= 18) (pre ++ post)%list -> 21 <= k <= 22 ->
  let s3 := run intrcommon_save s2 in c_call s3 s4 ->
  (rg s3 RDI = n /\ rg s3 RSI = B /\ ureg (mm s3) B = trap_ureg n ecode s k sw /\
   (gsb s3, kgsb s3) = (if sw then (kgsb s, gsb s) else (gsb s, kgsb s)) /\
   (forall x, B + 8 * 26 <= x -> mm s3 x = mm s x)) /\
  let s5 := run intrcommon_restore s4 in
  resumed (ureg (mm s4) B) s5 /\ sg s5 GS = sg s GS /\ (forall x, x <> B + 8 * 22 + 7 -> mm s5 x = mm s4 x) /\
  (gsb s5, kgsb s5) = (if zf s4 then (gsb s3, kgsb s3) else (kgsb s3, gsb s3)) /\
  (ureg (mm s4) B = ureg (mm s3) B ->
   (forall r, rg s5 r = rg s r) /\ (forall g, sg s5 g = sg s g) /\ fl s5 = fl s /\
   pc s5 = (if sw && (21 =? k) then Z.lor (pc s) SWAPPED_WORD else pc s)).
Proof.
  intros Hok Hec Hn HB Hpd Hhd Hpre Hk s3 [Hc1 Hc2 Hc3 Hc5].
  destruct (save_trap s s1 s2 B n ecode k pre post sw) as (Hd & Hsi & Hsp & Hu & Hs & Hgs); auto; fold s3 in Hd, Hsi, Hsp, Hu, Hs, Hgs.
  destruct (s2_regs s s1 s2 B n ecode k pre post sw Hok HB Hpd Hhd) as (Hr & Hg & Hw & Hgr & Hsg).
  assert (Hb : bytes (mm s3)) by (apply (save_bytes s2 B); auto; by apply (s2_bytes s s1 s2 B n ecode k pre post sw)).
  destruct (restore_spec s4 B) as (Q0 & Q1 & Q2 & Q3); [congruence|lia|lia|auto|].
  assert (HGS : sg (run intrcommon_restore s4) GS = sg s GS) by (rewrite Q1, Hc2, Hs; by apply Hsg).
  split; [split_and!; auto|split_and!; auto].
  - rewrite Hgs; destruct Hpd as [_ _ _ _ [G1 G2]], Hhd as [_ _ _ G3 _]; rewrite G3, G1, G2; done.
  - intros x Hx; by apply (save_above s s1 s2 B n ecode k pre post sw).
  - rewrite Q3; by injection Hc3 as -> ->.
  - intros Hkeep; rewrite Hkeep, Hu in Q0; by apply (resumed_same s _ n ecode k sw).
Qed.
End frames.

(** The Rust function [trap]: what it prints, and that it stops the processor on a
    double fault. *)
Inductive act := PrintTrap (t : Trap) | PrintFrame (frame : list Z) | Hlt.

Definition trap (vector : Z) (frame : list Z) : list act * Z :=
  ((PrintTrap (Trap_from vector) ::
     match vector with 2 => [] | 8 => [Hlt] | _ => [PrintFrame frame] end)%list, 0).

Lemma hw_error_stub n : 0 <= n < 256 -> n <> 21 -> hw_error n = is_err n.
Proof.
  intros Hn H21; unfold hw_error, has_error, is_err, gen_trap_stub; repeat case_bool_decide; try done; set_solver.
Qed.

(** C36: a trap through a regular stub: on the way in, [trap] is called with
    the vector, recovered from the return address of the stub, and with a [Ureg] that
    holds every register of the interrupted code, the error word and the trap number;
    [GSBASE] is swapped exactly when the interrupted code was not in the kernel's
    segment, and memory above the frame is untouched.  On the way out, every register,
    the stack pointer, the flags, the program counter and the selectors but GS are
    loaded from the [Ureg] as [trap] left it, GS keeps its selector, and memory is as
    [trap] left it but for one byte of the frame.  So if [trap] leaves the [Ureg]
    alone, the interrupted code finds all its registers and selectors.  The GS bases are
    exchanged once more exactly if the zero flag is clear when [trap] returns, whether
    or not they were on the way in. *)
Theorem trap_round_trip (intr_stubs intrregular_at intrspecial_at intrcommon_at n cpl B ecode : Z) (s : mach)
    (call : mach -> mach)
    (Hst : 0 <= intr_stubs /\ intr_stubs mod 4096 = 0 /\ intr_stubs + 8 * 256 <= W64)
    (Hn : 0 <= n < 256) (Hreg : gen_trap_stub n <> Spec) (H21 : n <> 21)
    (HB : 0 <= B /\ B + 8 * 26 < W64) (Hok : regs_ok s) (Hec : word ecode) (Hc : forall s, c_call s (call s)) :
  let user := negb (sg s CS =? ktextsel) in
  let s3 := to_trap intr_stubs intrregular_at intrspecial_at intrcommon_at n cpl (B + 8 * 26) ecode s in
  let s5 := take_trap intr_stubs intrregular_at intrspecial_at intrcommon_at call n cpl (B + 8 * 26) ecode s in
  (rg s3 RDI = n /\ rg s3 RSI = B /\ ureg (mm s3) B = trap_ureg n ecode s 22 user /\
   (gsb s3, kgsb s3) = (if user then (kgsb s, gsb s) else (gsb s, kgsb s)) /\
   (forall x, B + 8 * 26 <= x -> mm s3 x = mm s x)) /\
  resumed (ureg (mm (call s3)) B) s5 /\ sg s5 GS = sg s GS /\
  (forall x, x <> B + 8 * 22 + 7 -> mm s5 x = mm (call s3) x) /\
  (gsb s5, kgsb s5) = (if zf (call s3) then (gsb s3, kgsb s3) else (kgsb s3, gsb s3)) /\
  (ureg (mm (call s3)) B = ureg (mm s3) B ->
   (forall r, rg s5 r = rg s r) /\ (forall g, sg s5 g = sg s g) /\ fl s5 = fl s /\ pc s5 = pc s).
Proof.
  pose proof (stub_frame intr_stubs intrregular_at intrspecial_at n cpl B ecode s (hw_error_stub n Hn H21) (proj1 HB) (proj2 HB)) as Hp.
  pose proof (regular_handled intr_stubs intrcommon_at Hst s _ B n ecode Hok Hec Hn (proj1 HB) (proj2 HB) Hp) as Hh.
  change ktextsel with 8; cbv zeta.
  unfold take_trap, to_trap, handler; destruct (gen_trap_stub n) eqn:E; try done.
  all: destruct (trap_path intr_stubs intrcommon_at Hst s _ _ (call (run intrcommon_save (run (intrregular intrcommon_at)
      (run (stub intr_stubs intrregular_at intrspecial_at n) (interrupt intr_stubs n cpl (B + 8 * 26) ecode s)))))
      B n ecode 22 [] [] (negb (sg s CS =? 8)) Hok Hec Hn HB Hp Hh) as (Q & Q0 & Q1 & Q2 & Q3 & Q4);
    [by apply Forall_nil | lia | apply Hc |]; rewrite andb_false_r in Q4;
    exact (conj Q (conj Q0 (conj Q1 (conj Q2 (conj Q3 Q4))))).
Qed.


(** The special stubs record the swap in the saved program counter instead of the saved
    code segment: unless [GSBASE] is [KMACH] the code resumes at an address with its top
    bit set. *)
Lemma special_trap (intr_stubs intrregular_at intrspecial_at intrcommon_at n cpl B ecode : Z) (s : mach)
    (call : mach -> mach) :
  0 <= intr_stubs /\ intr_stubs mod 4096 = 0 /\ intr_stubs + 8 * 256 <= W64 -> word intrcommon_at ->
  gen_trap_stub n = Spec -> 0 <= B /\ B + 8 * 26 < W64 -> regs_ok s -> word ecode -> (forall s, c_call s (call s)) ->
  let swap := negb (gsb s =? KMACH) in
  let s3 := to_trap intr_stubs intrregular_at intrspecial_at intrcommon_at n cpl (B + 8 * 26) ecode s in
  let s5 := take_trap intr_stubs intrregular_at intrspecial_at intrcommon_at call n cpl (B + 8 * 26) ecode s in
  rg s3 RDI = n /\ ureg (mm s3) B = trap_ureg n ecode s 21 swap /\
  (gsb s3, kgsb s3) = (if swap then (kgsb s, gsb s) else (gsb s, kgsb s)) /\
  (ureg (mm (call s3)) B = ureg (mm s3) B ->
   (forall r, rg s5 r = rg s r) /\ pc s5 = if swap then Z.lor (pc s) SWAPPED_WORD else pc s).
Proof.
  intros Hst Hic E HB Hok Hec Hc.
  assert (Hn : n = 1 \/ n = 2 \/ n = 3).
  { unfold gen_trap_stub in E; repeat case_bool_decide; try done; set_solver. }
  pose proof (stub_frame intr_stubs intrregular_at intrspecial_at n cpl B ecode s
    (hw_error_stub n ltac:(lia) ltac:(lia)) (proj1 HB) (proj2 HB)) as Hp.
  pose proof (special_handled intr_stubs intrcommon_at s _ B n ecode Hok Hec Hic ltac:(lia) (proj1 HB) (proj2 HB) Hp) as Hh.
  cbv zeta; unfold take_trap, to_trap, handler; rewrite E.
  destruct (trap_path intr_stubs intrcommon_at Hst s _ _ (call (run intrcommon_save (run (intrspecial intrcommon_at)
      (run (stub intr_stubs intrregular_at intrspecial_at n) (interrupt intr_stubs n cpl (B + 8 * 26) ecode s)))))
      B n ecode 21 [(18, rg s RAX); (17, rg s RBX)] [(18, intrcommon_at)] (negb (gsb s =? KMACH)) Hok Hec ltac:(lia) HB Hp Hh)
    as ((A0 & _ & A1 & A2 & _) & _ & _ & _ & _ & Q);
    [repeat (apply Forall_cons; split; [lia|]); by apply Forall_nil | lia | apply Hc |].
  rewrite andb_true_r in Q; split_and!; [exact A0|exact A1|exact A2|]; intros Hkeep; destruct (Q Hkeep) as (Q0 & _ & _ & Q3); exact (conj Q0 Q3).
Qed.

(** ** The context switch *)

Definition label_regs : list reg := [RBP; RBX; R12; R13; R14; R15].

(** The words of a [Label] at [a]: pc, sp and the callee-saved registers. *)
Definition label (m : mem) (a : Z) : list Z := map (fun i => ld 8 m (a + 8 * i)) (seqZ 0 8).

Definition apart (a n b k : Z) : Prop := a + n <= b \/ b + k <= a.

Definition swtch_save : list instr :=
  [Movq (M 0 RSP) (R RAX); Movq (R RAX) (M 0 RDI); Movq (R RSP) (M 8 RDI); Movq (R RBP) (M 16 RDI);
   Movq (R RBX) (M 24 RDI); Movq (R R12) (M 32 RDI); Movq (R R13) (M 40 RDI); Movq (R R14) (M 48 RDI);
   Movq (R R15) (M 56 RDI)].

Definition swtch_load : list instr :=
  [Movq (M 0 RSI) (R RAX); Movq (M 8 RSI) (R RSP); Movq (M 16 RSI) (R RBP); Movq (M 24 RSI) (R RBX);
   Movq (M 32 RSI) (R R12); Movq (M 40 RSI) (R R13); Movq (M 48 RSI) (R R14); Movq (M 56 RSI) (R R15);
   Movq (R RAX) (M 0 RSP); Xorl RAX; Ret].

Lemma swtch_split : swtch = (swtch_save ++ swtch_load)%list.
Proof. reflexivity. Qed.

Definition label_words (s : mach) : list Z := (ld 8 (mm s) (rg s RSP) :: rg s RSP :: map (rg s) label_regs)%list.

Lemma swtch_save_spec s A : rg s RDI = A -> 0 <= A -> A + 64 <= W64 -> (forall r, word (rg s r)) -> bytes (mm s) ->
  let s' := run swtch_save s in
  (forall r, r <> RAX -> rg s' r = rg s r) /\ label (mm s') A = label_words s /\ bytes (mm s') /\
  (forall n a, apart A 64 a (Z.of_nat n) -> ld n (mm s') a = ld n (mm s) a).
Proof.
  intros HA A0 A1 Hw Hb.
  assert (Hea : forall d, 0 <= d < 64 -> (rg s RDI + d) mod W64 = A + d) by (intros; rewrite HA, Z.mod_small; lia).
  assert (Hsm : forall v, word v -> v mod 256 ^ Z.of_nat 8 = v) by (intros; by apply Z.mod_small).
  assert (Hsp : (rg s RSP + 0) mod W64 = rg s RSP) by (rewrite Z.add_0_r; apply Z.mod_small, Hw).
  assert (Hra : word (ld 8 (mm s) (rg s RSP))) by (by apply (ld_bound 8)).
  set (l := [(0, ld 8 (mm s) (rg s RSP)); (1, rg s RSP); (2, rg s RBP); (3, rg s RBX); (4, rg s R12); (5, rg s R13);
             (6, rg s R14); (7, rg s R15)]).
  assert (Hm : mm (run swtch_save s) = wr A l (mm s)).
  { cbn -[ld st Z.modulo Z.mul Z.add W64 Z.pow]; rewrite Hsp, !Hea, !Hsm by (auto; lia); reflexivity. }
  assert (Hl : Forall (fun '(_, v) => word v) l) by (repeat (apply Forall_cons; split; [auto|]); by apply Forall_nil).
  cbv zeta; rewrite Hm; split_and!.
  - intros r Hne; by destruct r.
  - unfold label; change (seqZ 0 8) with [0; 1; 2; 3; 4; 5; 6; 7]; cbn [map]; by rewrite !ld_wr by done.
  - by apply wr_bytes.
  - intros n a Ha; apply ld_wr_other; unfold apart, l in *; repeat (apply Forall_cons; split; [lia|]); by apply Forall_nil.
Qed.

Lemma swtch_load_spec s N : rg s RSI = N -> 0 <= N -> N + 64 <= W64 -> bytes (mm s) ->
  let s' := run swtch_load s in
  let w i := ld 8 (mm s) (N + 8 * i) in
  pc s' = w 0 /\ rg s' RSP = (w 1 + 8) mod W64 /\ map (rg s') label_regs = map w (seqZ 2 6) /\ rg s' RAX = 0 /\
  mm s' = st 8 (w 1) (w 0) (mm s).
Proof.
  intros HN N0 N1 Hb.
  assert (Hea : forall d, 0 <= d < 64 -> (rg s RSI + d) mod W64 = N + d) by (intros; rewrite HN, Z.mod_small; lia).
  assert (Hw : forall a, word (ld 8 (mm s) a)) by (intros a; by apply (ld_bound 8)).
  assert (Hsm : forall a, ld 8 (mm s) a mod 256 ^ Z.of_nat 8 = ld 8 (mm s) a) by (intros; apply Z.mod_small, Hw).
  assert (Hsp : forall a, (ld 8 (mm s) a + 0) mod W64 = ld 8 (mm s) a) by (intros; rewrite Z.add_0_r; apply Z.mod_small, Hw).
  cbv zeta; split_and!; cbn -[ld st Z.modulo Z.mul Z.add W64 Z.pow]; rewrite ?Hea, ?Hsp, ?Hsm by lia; try done.
  apply ld_same, Hw.
Qed.

Lemma label_word m a l i : label m a = l -> 0 <= i < 8 -> ld 8 m (a + 8 * i) = nth (Z.to_nat i) l 0.
Proof.
  intros <- Hi; rewrite <- (Z2Nat.id i) at 1 by lia; assert (Hn : (Z.to_nat i < 8)%nat) by lia.
  revert Hn; generalize (Z.to_nat i); intros n Hn; do 8 (destruct n as [|n]; [done|]); lia.
Qed.

(** C37: the context switch: [swtch] saves the caller's return address, stack pointer and
    callee-saved registers in the first label and continues at the second label's
    program counter, on its stack, with its registers; a later [swtch] back to the first
    label, by whatever code and from whatever stack, returns to the caller as from an
    ordinary call, with zero. *)
Theorem swtch_resumes (s t : mach) (A N C : Z)
    (HA : rg s RDI = A /\ 0 <= A /\ A + 64 <= W64) (HN : rg s RSI = N /\ 0 <= N /\ N + 64 <= W64)
    (HC : rg t RDI = C /\ 0 <= C /\ C + 64 <= W64) (Ht : rg t RSI = A)
    (Hs : (forall r, word (rg s r)) /\ bytes (mm s)) (Hw : (forall r, word (rg t r)) /\ bytes (mm t))
    (HAN : apart A 64 N 64) (HAC : apart C 64 A 64) (Hst : apart A 64 (ld 8 (mm s) (N + 8)) 8)
    (Hkept : label (mm t) A = label (mm (run swtch s)) A) :
  (pc (run swtch s) = ld 8 (mm s) N /\ rg (run swtch s) RSP = (ld 8 (mm s) (N + 8) + 8) mod W64 /\
   map (rg (run swtch s)) label_regs = map (fun i => ld 8 (mm s) (N + 8 * i)) (seqZ 2 6)) /\
  pc (run swtch t) = ld 8 (mm s) (rg s RSP) /\ rg (run swtch t) RSP = (rg s RSP + 8) mod W64 /\
  map (rg (run swtch t)) label_regs = map (rg s) label_regs /\ rg (run swtch t) RAX = 0.
Proof.
  rewrite swtch_split in *; rewrite !run_app in *.
  destruct HA as (HA & A0 & A1), HN as (HN & N0 & N1), HC as (HC & C0 & C1), Hs as [Hs Hbs], Hw as [Hw Hbt].
  destruct (swtch_save_spec s A) as (G1 & L1 & B1 & M1); auto.
  destruct (swtch_load_spec (run swtch_save s) N) as (P2 & S2 & R2 & _ & M2); [by rewrite G1 | done | done | done |].
  destruct (swtch_save_spec t C) as (G3 & _ & B3 & M3); auto.
  destruct (swtch_load_spec (run swtch_save t) A) as (P4 & S4 & R4 & Z4 & _); [by rewrite G3 | done | done | done |].
  assert (HN8 : forall i, 0 <= i < 8 -> ld 8 (mm (run swtch_save s)) (N + 8 * i) = ld 8 (mm s) (N + 8 * i))
    by (intros i Hi; apply M1; unfold apart in *; lia).
  assert (HA8 : forall i, 0 <= i < 8 -> ld 8 (mm (run swtch_save t)) (A + 8 * i) = nth (Z.to_nat i) (label_words s) 0).
  { intros i Hi; rewrite M3 by (unfold apart in *; lia); apply label_word; [|done]; rewrite <- L1, Hkept, M2, !HN8 by lia.
    unfold label; apply map_ext_in; intros j Hj; apply list_elem_of_In, elem_of_seqZ in Hj; apply ld_other.
    unfold apart in *; replace (N + 8 * 1) with (N + 8) by lia; lia. }
  rewrite HN8 in P2, S2 by lia; rewrite HA8 in P4, S4 by lia.
  change (seqZ 2 6) with [2; 3; 4; 5; 6; 7] in *; cbn [map] in R2, R4 |- *; rewrite !HN8 in R2 by lia; rewrite !HA8 in R4 by lia.
  replace (N + 8 * 0) with N in P2 by lia; replace (N + 8 * 1) with (N + 8) in S2 by lia; split_and!; done.
Qed.


(** ** System calls *)

(** The words [entry] stores above its frame's base, and the two it pushes below. *)
Definition syscall_words (syscallret_at : Z) (s : mach) : list (Z * Z) :=
  ([(0, rg s RAX); (1, rg s RBX); (2, rg s RCX); (3, rg s RDX); (4, rg s RSI); (5, rg s RDI); (6, rg s RBP);
    (7, rg s R8); (8, rg s R9); (9, rg s R10); (10, rg s R11); (11, rg s R12); (12, rg s R13); (13, rg s R14);
    (14, rg s R15); (15, sg s DS); (16, sg s ES); (17, sg s FS); (18, 0); (19, 0); (20, 0); (21, rg s RCX);
    (22, sg s CS); (23, rg s R11); (24, rg s RSP); (25, sg s SSEG); (-1, syscallret_at); (-2, rg s RCX)])%list.

Lemma entry_frame syscallret_at s B : regs_ok s -> word syscallret_at -> word (kgsb s) -> kgsb s + 32 <= W64 ->
  ld 8 (mm s) (kgsb s + 24) = B + 8 * 26 -> 16 <= B -> B + 8 * 26 < W64 ->
  apart (kgsb s) 32 (B - 16) (8 * 28) ->
  let s' := run (entry_save syscallret_at) s in
  mm s' = wr B (syscall_words syscallret_at s) (st 8 (kgsb s + 8) (rg s RSP) (mm s)) /\
  rg s' RDI = B - 16 /\ rg s' RSI = rg s RAX /\ rg s' RSP = B - 16 /\ gsb s' = kgsb s /\ kgsb s' = gsb s.
Proof.
  intros Hok Hsr Hk Hk' Htop H0 H1 Hap; unfold apart in Hap.
  assert (Hg8 : (kgsb s + 8) mod W64 = kgsb s + 8) by (apply Z.mod_small; unfold word in *; lia).
  assert (Hg24 : (kgsb s + 24) mod W64 = kgsb s + 24) by (apply Z.mod_small; unfold word in *; lia).
  assert (Hsm : forall v, word v -> v mod 256 ^ Z.of_nat 8 = v) by (intros; by apply Z.mod_small).
  assert (Hrs : forall r, rg s r mod 256 ^ Z.of_nat 8 = rg s r) by (intros; apply Hsm, Hok).
  assert (Hss : forall g, sg s g mod 256 ^ Z.of_nat 8 = sg s g) by (intros; by apply Hsm, sg_word).
  assert (Htp : ld 8 (st 8 (kgsb s + 8) (rg s RSP) (mm s)) (kgsb s + 24) = B + 8 * 26) by (rewrite ld_other by lia; done).
  assert (HB : (B + 8 * 26 - 26 * 8) mod W64 = B) by (rewrite Z.mod_small; lia).
  assert (Hea : forall d, 0 <= d < 208 -> (B + d) mod W64 = B + d) by (intros; rewrite Z.mod_small; lia).
  assert (Hm1 : (B - 8) mod W64 = B - 8) by (rewrite Z.mod_small; lia).
  assert (Hm2 : (B - 8 - 8) mod W64 = B - 16) by (rewrite Z.mod_small; lia).
  cbv zeta; split_and!; try done.
  all: cbn -[ld st Z.modulo Z.mul Z.add Z.sub W64 Z.pow syscall_words wr].
  all: rewrite ?Hg8, ?Hg24, ?Hrs, ?Hss, ?Htp, ?HB, ?Hm1, ?Hm2; try done.
  - rewrite !Hea, (Hsm syscallret_at), (Hsm 0) by (try done; lia).
    match goal with |- context [ld 8 ?m (kgsb s + 8)] => assert (ld 8 m (kgsb s + 8) = rg s RSP) as -> end.
    { rewrite !ld_other by lia; apply ld_same, Hok. }
    rewrite Hrs; unfold wr, syscall_words; cbn [fold_left].
    replace (B + 8 * -1) with (B - 8) by lia; by replace (B + 8 * -2) with (B - 16) by lia.
  - apply Hsm; unfold word; lia.
Qed.

(** The path of a system call: the frame of [entry] holds the user's registers, but the
    pointer [dispatch] gets is two words below it. *)
Lemma entry_ureg syscallret_at s B : regs_ok s -> word syscallret_at -> word (kgsb s) -> kgsb s + 32 <= W64 ->
  ld 8 (mm s) (kgsb s + 24) = B + 8 * 26 -> 16 <= B -> B + 8 * 26 < W64 -> apart (kgsb s) 32 (B - 16) (8 * 28) ->
  let s' := run (entry_save syscallret_at) s in
  ureg (mm s') B =
    (map (rg s) gprs ++ [sg s DS; sg s ES; sg s FS; 0; 0; 0; rg s RCX; sg s CS; rg s R11; rg s RSP; sg s SSEG])%list /\
  ld 8 (mm s') (B - 8) = syscallret_at /\ rg s' RDI = B - 16.
Proof.
  intros Hok Hsr Hk Hk' Htop H0 H1 Hap; cbv zeta.
  destruct (entry_frame syscallret_at s B) as (-> & Hd & _); auto.
  assert (Hl : Forall (fun '(_, v) => word v) (syscall_words syscallret_at s)).
  { unfold syscall_words; repeat (apply Forall_cons; split; [first [apply Hok | by apply sg_word | done]|]); by apply Forall_nil. }
  split_and!; [|replace (B - 8) with (B + 8 * -1) by lia; by rewrite ld_wr|done].
  unfold ureg; change (seqZ 0 26) with [0; 1; 2; 3; 4; 5; 6; 7; 8; 9; 10; 11; 12; 13; 14; 15; 16; 17; 18; 19; 20; 21; 22; 23; 24; 25].
  cbn [map]; by rewrite !ld_wr by done.
Qed.

(** [ret] advances the stack pointer by a word and then uses the offsets of the frame's
    base: each register gets the word after its own.  The program counter is the saved
    code segment and the stack pointer the saved stack segment. *)
Lemma ret_shifted s B : rg s RSP = B -> 0 <= B -> B + 8 * 26 < W64 -> bytes (mm s) ->
  let s' := run ret s in
  let w i := ld 8 (mm s) (B + 8 * i) in
  pc s' = w 22 /\ rg s' RSP = w 25 /\ fl s' = Z.lor (w 24) 2 /\
  map (rg s') [RBX; RDX; RSI; RDI; RBP; R8; R9; R10; R12; R13; R14; R15] = map w [2; 4; 5; 6; 7; 8; 9; 10; 12; 13; 14; 15].
Proof.
  intros Hr H0 H1 Hb.
  assert (Hsp : (rg s RSP + 8) mod W64 = B + 8) by (rewrite Hr, Z.mod_small; lia).
  assert (Hea : forall i, 0 <= i < 25 -> (B + 8 + i * 8) mod W64 = B + 8 * (i + 1)) by (intros; rewrite Z.mod_small; lia).
  cbv zeta; split_and!; cbn -[ld Z.modulo Z.mul Z.add W64 Z.lor Z.pow]; rewrite ?Hsp, ?Hea by lia; try done.
Qed.


(** ** Interrupt levels *)

Inductive IntrStatus := Disabled | Enabled.

(** [cpu::flags] and the functions on the interrupt flag, over the flags register. *)
Definition flags (rflags : Z) : Z := Flags_new (Z.lor rflags 2).
Definition intrstatus (rflags : Z) : IntrStatus := if intr (flags rflags) then Enabled else Disabled.
Definition spllo (rflags : Z) : IntrStatus * Z := (intrstatus rflags, Pt.with_bits rflags 9 10 1).
Definition splhi (rflags : Z) : IntrStatus * Z := (intrstatus rflags, Pt.with_bits rflags 9 10 0).
Definition splx (x : IntrStatus) (rflags : Z) : IntrStatus * Z :=
  match x with Disabled => splhi rflags | Enabled => spllo rflags end.

Lemma intr_with f b : intr (flags (Pt.with_bits f 9 10 (Z.b2z b))) = b.
Proof.
  unfold intr, flags, Flags_new, with_mb1; rewrite Pt.get_with_other by lia.
  unfold Pt.get_bits; rewrite Z.shiftr_lor, Z.land_lor_distr_l; change (Z.land (Z.shiftr 2 9) (Z.ones (10 - 9))) with 0.
  rewrite Z.lor_0_r; fold (Pt.get_bits (Pt.with_bits f 9 10 (Z.b2z b)) 9 10); rewrite Pt.get_with_same by lia; by destruct b.
Qed.

(** A section between [splhi], or [spllo], and [splx] leaves the level it found, and runs
    at its own. *)
Lemma splx_restores f :
  intrstatus (splx (splhi f).1 (splhi f).2).2 = intrstatus f /\ intrstatus (splhi f).2 = Disabled /\
  intrstatus (splx (spllo f).1 (spllo f).2).2 = intrstatus f /\ intrstatus (spllo f).2 = Enabled.
Proof.
  pose proof (fun g => intr_with g true) as H1; pose proof (fun g => intr_with g false) as H0.
  cbn [Z.b2z] in *; unfold intrstatus at 1 3 4 6; unfold splx, splhi, spllo; cbn [fst snd].
  destruct (intrstatus f); cbn [fst snd]; by rewrite ?H1, ?H0.
Qed.

Module XtDemo.

(** Kernel code at 0x1234 on a stack of its own. *)
Definition st0 : mach :=
  Mach (fun r => 0x100 * Z.of_nat (reg_id r)) (fun g => match g with CS => 8 | SSEG => 16 | _ => 0 end) (fun _ => 0) 0x202
    (KMACH + 0x20000) 0 0x1234.

Lemma st0_ok : regs_ok st0.
Proof.
  split.
  - intros r; destruct r; split; vm_compute; congruence.
  - intros g; destruct g; split; vm_compute; congruence.
  - split; vm_compute; congruence.
  - split; vm_compute; congruence.
  - intros x; cbn; lia.
Qed.

(** A handler that steps over the instruction: it writes the program counter of its
    frame. *)
Definition step_over (s : mach) : mach := set_mm (st 8 (rg s RSP + 8 * 21) 0x1236 (mm s)) s.

Lemma step_over_call s : c_call s (step_over s).
Proof. split; [done|done|done|]; intros Hb; by apply st_bytes. Qed.

(** A general protection fault in the kernel. *)
Lemma trap_round_trip_witness :
  rg (to_trap 0x3f0000 0 0 0 13 0 0x20000 7 st0) RDI = 13 /\
  ureg (mm (to_trap 0x3f0000 0 0 0 13 0 0x20000 7 st0)) (0x20000 - 208) = trap_ureg 13 7 st0 22 false /\
  pc (take_trap 0x3f0000 0 0 0 step_over 13 0 0x20000 7 st0) = 0x1236.
Proof.
  pose proof (trap_round_trip 0x3f0000 0 0 0 13 0 (0x20000 - 208) 7 st0 step_over
    ltac:(split_and!; by vm_compute) ltac:(lia) ltac:(by vm_compute) ltac:(lia) ltac:(split; by vm_compute) st0_ok
    ltac:(split; by vm_compute) step_over_call) as H.
  change (0x20000 - 208 + 8 * 26) with 0x20000 in H; cbv zeta in H.
  destruct H as ((H0 & _ & H1 & _) & H2 & _).
  exact (conj H0 (conj H1 (re_pc _ _ H2))).
Defined.

(** [main] switches to a thread that switches back. *)
Definition thread : mem := st 8 0x2000 0x5000 (st 8 0x2008 0x7ff8 (fun _ => 0)).
Definition main0 : mach :=
  Mach (fun r => match r with RDI => 0x1000 | RSI => 0x2000 | RSP => 0x6000 | _ => 3 end) (fun _ => 0)
    (st 8 0x6000 0x4321 thread) 0x2 0 0 0.
Definition thread1 : mach :=
  Mach (fun r => match r with RDI => 0x2000 | RSI => 0x1000 | RSP => 0x7ff0 | _ => 9 end) (fun _ => 0)
    (mm (run swtch main0)) 0x2 0 0 0.

Lemma swtch_resumes_witness :
  pc (run swtch main0) = 0x5000 /\ pc (run swtch thread1) = 0x4321 /\ rg (run swtch thread1) RSP = 0x6008.
Proof.
  destruct (swtch_resumes main0 thread1 0x1000 0x2000 0x2000) as ((H0 & _) & H1 & H2 & _).
  1,2,3: split_and!; [done | by vm_compute | by vm_compute].
  1: reflexivity.
  1,2: split; [intros r; destruct r; split; by vm_compute | repeat apply st_bytes; intros x; cbn; lia].
  1,2,3: unfold apart; first [by left; vm_compute | by right; vm_compute].
  1: vm_compute; reflexivity.
  exact (conj (eq_trans H0 ltac:(vm_compute; reflexivity)) (conj (eq_trans H1 ltac:(vm_compute; reflexivity))
    (eq_trans H2 ltac:(vm_compute; reflexivity)))).
Defined.
End XtDemo.

End Xt.
