(* ===== verification/Console.v ===== *)
(** * The kernel's console ([port/src/devcons.rs], [aarch64/src/devcons.rs],
      [aarch64/src/uartpl011.rs], [aarch64/src/uartmini.rs], the setup of
      [aarch64/src/mailbox.rs])

    The locked console behind [println!] and the direct one behind [iprint!], the
    UART drivers below them, and how the console comes up.  The devices are
    parameters: a class states what their manuals say of the registers the
    drivers use. *)

From S2P Require Import Prelude Addr Fdt BitmapAlloc Boot Vm Aspace Device Irq Gic Userlib Display.
From Stdlib Require Import SpecFloat.

Module Co.
Import Fd(str).
Import Gc(Mmio, mmio_read, mmio_write, read_reg, write_reg, write_or_reg).

(** ** 32-bit floating point

    The specification of IEEE 754 arithmetic with 24 bits of precision. *)

Definition f32 : Type := spec_float.
Definition f32_of (m e : Z) : f32 := binary_normalize 24 128 m e false.
Definition f32_div : f32 -> f32 -> f32 := SFdiv 24 128.
Definition f32_sub : f32 -> f32 -> f32 := SFsub 24 128.
Definition f32_mul : f32 -> f32 -> f32 := SFmul 24 128.
Definition f32_add : f32 -> f32 -> f32 := SFadd 24 128.

(** [as u32]: towards zero, saturating; 0 for what is not a number. *)
Definition f32_as_u32 (x : f32) : Z :=
  match x with
  | S754_zero _ | S754_nan => 0
  | S754_infinity s => if s then 0 else W32 - 1
  | S754_finite s m e => if s then 0 else Z.min (W32 - 1) (Z.shiftl (Z.pos m) e)
  end.

(** ** Registers *)

Definition GPFSEL1 : Z := 0x04.
Definition GPPUD : Z := 0x94.
Definition GPPUDCLK0 : Z := 0x98.

Definition UART0_DR : Z := 0x00.
Definition UART0_FR : Z := 0x18.
Definition UART0_IBRD : Z := 0x24.
Definition UART0_FBRD : Z := 0x28.
Definition UART0_LCRH : Z := 0x2c.
Definition UART0_CR : Z := 0x30.
Definition UART0_IMSC : Z := 0x38.
Definition UART0_ICR : Z := 0x44.
Definition CR_UARTEN : Z := Z.shiftl 1 0.
Definition CR_TXE : Z := Z.shiftl 1 8.
Definition CR_RXE : Z := Z.shiftl 1 9.

Definition AUX_ENABLE : Z := 0x04.
Definition AUX_MU_IO : Z := 0x00.
Definition AUX_MU_IER : Z := 0x04.
Definition AUX_MU_IIR : Z := 0x08.
Definition AUX_MU_LCR : Z := 0x0c.
Definition AUX_MU_MCR : Z := 0x10.
Definition AUX_MU_LSR : Z := 0x14.
Definition AUX_MU_CNTL : Z := 0x20.
Definition AUX_MU_BAUD : Z := 0x28.

Inductive GpioPull := Off | Down | Up.
Definition pull_u32 (p : GpioPull) : Z := match p with Off => 0 | Down => 1 | Up => 2 end.

Record Pl011Uart := { gpio_virtrange : VirtRange; pl011_virtrange : VirtRange }.
Record MiniUart := { mini_gpio_virtrange : VirtRange; aux_virtrange : VirtRange; miniuart_virtrange : VirtRange }.
Record Mailbox := { mbox_virtrange : VirtRange; req_buf_virtrange : VirtRange; req_buf_physrange : PhysRange }.

(** Time passes with every turn of a spin loop. *)
Class Spin (HW : Type) := { spin_loop : HW -> HW }.

Definition delay {HW} `{!Spin HW} (count : nat) (hw : HW) : HW := Nat.iter count spin_loop hw.

(** ** The drivers *)
Section drivers.
Context {HW : Type} `{!Mmio HW, !Spin HW} (core : Z) (spins : nat).
Implicit Types hw : HW.
#[local] Notation write_reg := (write_reg core).
#[local] Notation read_reg := (read_reg core).
#[local] Notation write_or_reg := (write_or_reg core).

(** *** The PL011 *)

Definition gpiosetpull (u : Pl011Uart) (pin : Z) (pull : GpioPull) hw : res HW :=
  let reg_offset := pin / 32 in
  let pud_bit := Z.shiftl 1 (pin mod 32) in
  let gppudclk_reg := GPPUDCLK0 + reg_offset * 4 in
  h1 ← write_reg (gpio_virtrange u) GPPUD (pull_u32 pull) hw;
  h2 ← write_reg (gpio_virtrange u) gppudclk_reg pud_bit (delay 150 h1);
  h3 ← write_reg (gpio_virtrange u) GPPUD 0 (delay 150 h2);
  write_reg (gpio_virtrange u) gppudclk_reg 0 h3.

(** [while FR & (1 << 5) != 0 {}]. *)
Fixpoint pl011_wait (fuel : nat) (u : Pl011Uart) hw : res HW :=
  match fuel with
  | O => Timeout
  | S fuel' =>
      '(v, h1) ← read_reg (pl011_virtrange u) UART0_FR hw;
      if negb (Z.land v (Z.shiftl 1 5) =? 0) then pl011_wait fuel' u h1 else Ok h1
  end.

Definition pl011_putb (u : Pl011Uart) (b : Z) hw : res HW :=
  h1 ← pl011_wait spins u hw; write_reg (pl011_virtrange u) UART0_DR b h1.

Definition uart_clock_rate_hz : Z := 3000000.
Definition baud_rate : Z := 115200.
Definition baud_rate_divisor : f32 := f32_div (f32_of uart_clock_rate_hz 0) (f32_of (16 * baud_rate) 0).
Definition int_brd : Z := f32_as_u32 baud_rate_divisor.
Definition frac_brd : Z :=
  f32_as_u32 (f32_add (f32_mul (f32_sub baud_rate_divisor (f32_of int_brd 0)) (f32_of 64 0)) (f32_of 1 (-1))).

(** [Pl011Uart::init], before and after the call of the mailbox. *)
Definition pl011_quiesce (u : Pl011Uart) hw : res HW :=
  h1 ← write_reg (pl011_virtrange u) UART0_CR 0 hw;
  h2 ← gpiosetpull u 14 Off h1;
  h3 ← gpiosetpull u 15 Off h2;
  write_reg (pl011_virtrange u) UART0_ICR 0x7ff h3.

Definition pl011_program (u : Pl011Uart) hw : res HW :=
  h1 ← write_reg (pl011_virtrange u) UART0_IBRD int_brd hw;
  h2 ← write_reg (pl011_virtrange u) UART0_FBRD frac_brd h1;
  h3 ← write_reg (pl011_virtrange u) UART0_LCRH 0x70 h2;
  h4 ← write_reg (pl011_virtrange u) UART0_IMSC 0x7f2 h3;
  write_reg (pl011_virtrange u) UART0_CR (Z.lor (Z.lor CR_UARTEN CR_TXE) CR_RXE) h4.

(** *** The mini UART *)

Definition mini_init (u : MiniUart) hw : res HW :=
  '(gpfsel1, h1) ← read_reg (mini_gpio_virtrange u) GPFSEL1 hw;
  let gpfsel1 := Z.land gpfsel1 (unot W32 (Z.lor (Z.shiftl 7 12) (Z.shiftl 7 15))) in
  let gpfsel1 := Z.lor gpfsel1 (Z.lor (Z.shiftl 2 12) (Z.shiftl 2 15)) in
  h2 ← write_reg (mini_gpio_virtrange u) GPFSEL1 gpfsel1 h1;
  h3 ← write_reg (mini_gpio_virtrange u) GPPUD 0 h2;
  h4 ← write_reg (mini_gpio_virtrange u) GPPUDCLK0 (Z.lor (Z.shiftl 1 14) (Z.shiftl 1 15)) (delay 150 h3);
  h5 ← write_reg (mini_gpio_virtrange u) GPPUDCLK0 0 (delay 150 h4);
  h6 ← write_or_reg (aux_virtrange u) AUX_ENABLE 1 h5;
  h7 ← write_reg (miniuart_virtrange u) AUX_MU_CNTL 0 h6;
  h8 ← write_reg (miniuart_virtrange u) AUX_MU_LCR 3 h7;
  h9 ← write_reg (miniuart_virtrange u) AUX_MU_MCR 0 h8;
  h10 ← write_reg (miniuart_virtrange u) AUX_MU_IER 0 h9;
  h11 ← write_reg (miniuart_virtrange u) AUX_MU_IIR 0xc6 h10;
  h12 ← write_reg (miniuart_virtrange u) AUX_MU_BAUD 545 h11;
  write_reg (miniuart_virtrange u) AUX_MU_CNTL 3 h12.

(** [while LSR & (1 << 5) == 0 { spin_loop() }]. *)
Fixpoint mini_wait (fuel : nat) (u : MiniUart) hw : res HW :=
  match fuel with
  | O => Timeout
  | S fuel' =>
      '(v, h1) ← read_reg (miniuart_virtrange u) AUX_MU_LSR hw;
      if Z.land v (Z.shiftl 1 5) =? 0 then mini_wait fuel' u (spin_loop h1) else Ok h1
  end.

Definition mini_putb (u : MiniUart) (b : Z) hw : res HW :=
  h1 ← mini_wait spins u hw; write_reg (miniuart_virtrange u) AUX_MU_IO b h1.
End drivers.

(** ** The console *)

(** The statics of the kernel around the console.  [Cons_locked] is whether the
    lock of [CONS] is held: the lock is not reentrant.  The one [IprintOps] of the
    kernel writes to [UART]. *)
Inductive IprintOps := Iputb.

Inductive DevErr := NotFound | CantCreate.

Record Sys (HW VC P : Type) := mkSys {
  km : Dv.Kmem P; hw : HW; vc : VC; irq : Irq.World Irq.Core;
  MAILBOX : option Mailbox;
  CONS : option Pl011Uart; Cons_locked : bool; CONSOLE_LIVE : bool;
  UART : option Pl011Uart; IPRINT_OPS : option IprintOps; IPRINT_LOCK : bool;
}.
Arguments km {HW VC P} _.
Arguments hw {HW VC P} _.
Arguments vc {HW VC P} _.
Arguments irq {HW VC P} _.
Arguments MAILBOX {HW VC P} _.
Arguments CONS {HW VC P} _.
Arguments Cons_locked {HW VC P} _.
Arguments CONSOLE_LIVE {HW VC P} _.
Arguments UART {HW VC P} _.
Arguments IPRINT_OPS {HW VC P} _.
Arguments IPRINT_LOCK {HW VC P} _.
Arguments mkSys {HW VC P} _ _ _ _ _ _ _ _ _ _ _.

Definition ctrl (b : Z) : Z := b - 64.
Definition BACKSPACE : Z := ctrl 72.

Section console.
Context {HW VC P : Type} `{!Mmio HW, !Spin HW, !Mb.VideoCore VC, !Pt.PageAllocator P}.
(** The core, the polls of a register, the fuel of the devicetree iterators, and the devicetree. *)
Context (core : Z) (spins fuel : nat) (s names : list Z).
#[local] Notation Sys := (Sys HW VC P).
Implicit Types w : Sys.

Definition with_km w x : Sys := mkSys x (hw w) (vc w) (irq w) (MAILBOX w) (CONS w) (Cons_locked w) (CONSOLE_LIVE w) (UART w) (IPRINT_OPS w) (IPRINT_LOCK w).
Definition with_hw w x : Sys := mkSys (km w) x (vc w) (irq w) (MAILBOX w) (CONS w) (Cons_locked w) (CONSOLE_LIVE w) (UART w) (IPRINT_OPS w) (IPRINT_LOCK w).
Definition with_vc w x : Sys := mkSys (km w) (hw w) x (irq w) (MAILBOX w) (CONS w) (Cons_locked w) (CONSOLE_LIVE w) (UART w) (IPRINT_OPS w) (IPRINT_LOCK w).
Definition with_irq w x : Sys := mkSys (km w) (hw w) (vc w) x (MAILBOX w) (CONS w) (Cons_locked w) (CONSOLE_LIVE w) (UART w) (IPRINT_OPS w) (IPRINT_LOCK w).
Definition with_mailbox w x : Sys := mkSys (km w) (hw w) (vc w) (irq w) x (CONS w) (Cons_locked w) (CONSOLE_LIVE w) (UART w) (IPRINT_OPS w) (IPRINT_LOCK w).
Definition with_cons w x : Sys := mkSys (km w) (hw w) (vc w) (irq w) (MAILBOX w) x (Cons_locked w) (CONSOLE_LIVE w) (UART w) (IPRINT_OPS w) (IPRINT_LOCK w).
Definition with_locked w x : Sys := mkSys (km w) (hw w) (vc w) (irq w) (MAILBOX w) (CONS w) x (CONSOLE_LIVE w) (UART w) (IPRINT_OPS w) (IPRINT_LOCK w).
Definition with_uart w x : Sys := mkSys (km w) (hw w) (vc w) (irq w) (MAILBOX w) (CONS w) (Cons_locked w) (CONSOLE_LIVE w) x (IPRINT_OPS w) (IPRINT_LOCK w).
Definition with_iops w x : Sys := mkSys (km w) (hw w) (vc w) (irq w) (MAILBOX w) (CONS w) (Cons_locked w) (CONSOLE_LIVE w) (UART w) x (IPRINT_LOCK w).
Definition with_ilock w x : Sys := mkSys (km w) (hw w) (vc w) (irq w) (MAILBOX w) (CONS w) (Cons_locked w) (CONSOLE_LIVE w) (UART w) (IPRINT_OPS w) x.

Definition set_console_live w : Sys :=
  mkSys (km w) (hw w) (vc w) (irq w) (MAILBOX w) (CONS w) (Cons_locked w) true (UART w) (IPRINT_OPS w) (IPRINT_LOCK w).

(** [CONS.lock]: a holder that locks again waits for itself. *)
Definition lock_cons w : res Sys := if Cons_locked w then Timeout else Ok (with_locked w true).
Definition unlock_cons w : Sys := with_locked w false.

(** *** [println!] *)

Definition putb (uart : Pl011Uart) (b : Z) (h : HW) : res HW :=
  h1 ← (if b =? 10 then pl011_putb core spins uart 13 h
        else if b =? BACKSPACE then h' ← pl011_putb core spins uart b h; pl011_putb core spins uart 32 h'
        else Ok h);
  pl011_putb core spins uart b h1.

Fixpoint putbs (uart : Pl011Uart) (text : list Z) (h : HW) : res HW :=
  match text with [] => Ok h | b :: text' => h1 ← putb uart b h; putbs uart text' h1 end.

Definition putstr (text : list Z) w : res Sys :=
  b ← Irq.in_interrupt (irq w);
  _ ← assert (negb b);
  if CONSOLE_LIVE w then Ok w else
  w1 ← lock_cons w;
  w2 ← match CONS w1 with Some uart => h ← putbs uart text (hw w1); Ok (with_hw w1 h) | None => Ok w1 end;
  Ok (unlock_cons w2).

(** [print]: [write_fmt] hands the pieces of the text to [write_str] one by one. *)
Fixpoint print (pieces : list (list Z)) w : res Sys :=
  match pieces with [] => Ok w | p :: ps => w1 ← putstr p w; print ps w1 end.
Definition println (pieces : list (list Z)) w : res Sys := print (pieces ++ [[10]]) w.

(** *** [iprint!] *)

Definition iputb (b : Z) w : res Sys :=
  match UART w with Some uart => h ← pl011_putb core spins uart b (hw w); Ok (with_hw w h) | None => Ok w end.

Definition set_iprint_ops w (ops : IprintOps) : Sys :=
  match IPRINT_OPS w with Some _ => w | None => with_iops w (Some ops) end.

(** Nobody else runs here: the lock is free or stays taken for the million tries ([Iprint] has the cores interleaved). *)
Definition iprint_trylock w : bool * Sys := if IPRINT_LOCK w then (false, w) else (true, with_ilock w true).

Fixpoint iwrite_str (text : list Z) w : res Sys :=
  match text with
  | [] => Ok w
  | b :: text' => w1 ← (if b =? 10 then iputb 13 w else Ok w); w2 ← iputb b w1; iwrite_str text' w2
  end.
Fixpoint iwrite_fmt (pieces : list (list Z)) w : res Sys :=
  match pieces with [] => Ok w | p :: ps => w1 ← iwrite_str p w; iwrite_fmt ps w1 end.

Definition iprint (pieces : list (list Z)) w : res Sys :=
  let '(_irq, i) := Irq.new (irq w) in
  let w1 := with_irq w i in
  w3 ← match IPRINT_OPS w1 with
       | None => Ok w1
       | Some Iputb =>
           let '(locked, w2) := iprint_trylock w1 in
           w3 ← iwrite_fmt pieces w2;
           Ok (if locked then with_ilock w3 false else w3)
       end;
  Ok (with_irq w3 (Irq.drop _irq (irq w3))).
Definition iprintln (pieces : list (list Z)) w : res Sys := iprint (pieces ++ [[10]]) w.

(** ** Bring-up *)

(** [map_device_register(..)] with the error printed by [pr]. *)
Definition map_or_print (pr : list (list Z) -> Sys -> res Sys) (what : list Z) (r : PhysRange) w : res (result VirtRange DevErr * Sys) :=
  '(v, k) ← Dv.map_device_register (km w) r Pt.Page4K;
  let w1 := with_km w k in
  match v with
  | Val v => Ok (Val v, w1)
  | Err _ => w2 ← pr [what; [34] ++ str "failed to map device register" ++ [34]] w1; Ok (Err CantCreate, w2)
  end.

(** [Mailbox::new]; the request buffer stays allocated when the registers are not found. *)
Definition Mailbox_new w : res (result Mailbox DevErr * Sys) :=
  '(r, k) ← Dv.alloc_device_page (km w) Pt.Page4K;
  let w1 := with_km w k in
  match r with
  | Err _ => Ok (Err CantCreate, w1)
  | Val (bv, bp) =>
      o ← Bt.find_dt_physrange fuel s names [str "brcm,bcm2835-mbox"];
      match o with
      | None => Ok (Err NotFound, w1)
      | Some pr =>
          '(v, w2) ← map_or_print iprintln (str "can't map mailbox ") pr w1;
          Ok (match v with Val v => Val {| mbox_virtrange := v; req_buf_virtrange := bv; req_buf_physrange := bp |} | Err e => Err e end, w2)
      end
  end.

(** [mailbox::init]; [msg] is the text of the error. *)
Definition mailbox_init (msg : list Z) w : res Sys :=
  '(r, w1) ← Mailbox_new w;
  match r with
  | Val mb => Ok (with_mailbox w1 (Some mb))
  | Err _ => iprintln [str "can't initialise mailbox: "; msg] w1
  end.

(** [mailbox::set_clock_rate]: panics without a mailbox. *)
Definition set_clock_rate (clock_id rate skip : Z) w : res Sys :=
  mb ← unwrap (MAILBOX w);
  v ← Mb.set_clock_rate spins (start (req_buf_physrange mb)) clock_id rate skip (vc w);
  Ok (with_vc w v).

Definition GPIO : list (list Z) := [str "brcm,bcm2835-gpio"; str "brcm,bcm2711-gpio"].

Definition Pl011Uart_new w : res (result Pl011Uart DevErr * Sys) :=
  o ← Bt.find_dt_physrange fuel s names GPIO;
  match o with
  | None => Ok (Err NotFound, w)
  | Some gpio =>
      '(g, w1) ← map_or_print println (str "can't map gpio ") gpio w;
      match g with
      | Err e => Ok (Err e, w1)
      | Val g =>
          o ← Bt.find_dt_physrange fuel s names [str "arm,pl011"];
          match o with
          | None => Ok (Err NotFound, w1)
          | Some pl011 =>
              '(p, w2) ← map_or_print println (str "can't map pl011 ") pl011 w1;
              Ok (match p with Val p => Val {| gpio_virtrange := g; pl011_virtrange := p |} | Err e => Err e end, w2)
          end
      end
  end.

Definition Pl011Uart_init (u : Pl011Uart) w : res Sys :=
  h1 ← pl011_quiesce core u (hw w);
  w1 ← set_clock_rate 2 uart_clock_rate_hz 0 (with_hw w h1);
  h2 ← pl011_program core u (hw w1);
  Ok (with_hw w1 h2).

(** The closure of [devcons::init]. *)
Definition make_uart (msg : list Z) w : res (option Pl011Uart * Sys) :=
  '(r, w1) ← Pl011Uart_new w;
  match r with
  | Val u =>
      w2 ← Pl011Uart_init u w1;
      match UART w2 with
      | None => Ok (Some u, set_iprint_ops (with_uart w2 (Some u)) Iputb)
      | Some _ => Ok (None, w2)
      end
  | Err _ => w2 ← println [str "can't initialise uart: "; msg] w1; Ok (None, w2)
  end.

(** [Console::set_uart]: the closure runs under the lock of [CONS]. *)
Definition set_uart (uart_fn : Sys -> res (option Pl011Uart * Sys)) w : res Sys :=
  w1 ← lock_cons w; '(u, w2) ← uart_fn w1; Ok (unlock_cons (with_cons w2 u)).

Definition devcons_init (msg : list Z) w : res Sys := set_uart (make_uart msg) w.

(** *** The mini UART *)

Definition new_assuming_mapped_mmio (mmio_virt_offset : Z) : res (result MiniUart DevErr) :=
  g ←? (o ← Bt.find_dt_physrange fuel s names GPIO; ok_or o NotFound);
  gv ← from_physrange g mmio_virt_offset;
  a ←? (o ← Bt.find_dt_physrange fuel s names [str "brcm,bcm2835-aux"]; ok_or o NotFound);
  av ← from_physrange a mmio_virt_offset;
  m ←? (o ← Bt.find_dt_physrange fuel s names [str "brcm,bcm2835-aux-uart"]; ok_or o NotFound);
  mv ← from_physrange m mmio_virt_offset;
  Ok (Val {| mini_gpio_virtrange := gv; aux_virtrange := av; miniuart_virtrange := mv |}).

(** [find_dt_physrange(..)?], then the map. *)
Definition find_and_map (compatibles : list (list Z)) (what : list Z) w : res (result VirtRange DevErr * Sys) :=
  o ← Bt.find_dt_physrange fuel s names compatibles;
  match o with None => Ok (Err NotFound, w) | Some r => map_or_print println what r w end.

Definition new_with_map_ranges w : res (result MiniUart DevErr * Sys) :=
  '(g, w1) ← find_and_map GPIO (str "can't map gpio ") w;
  match g with
  | Err e => Ok (Err e, w1)
  | Val gv =>
      '(a, w2) ← find_and_map [str "brcm,bcm2835-aux"] (str "can't map aux ") w1;
      match a with
      | Err e => Ok (Err e, w2)
      | Val av =>
          '(m, w3) ← find_and_map [str "brcm,bcm2835-aux-uart"] (str "can't map miniuart ") w2;
          Ok (match m with
              | Err e => Err e
              | Val mv => Val {| mini_gpio_virtrange := gv; aux_virtrange := av; miniuart_virtrange := mv |}
              end, w3)
      end
  end.
End console.


(** ** What the devices do

    [gbase] and [ubase] are the addresses of the GPIO block and of the PL011.
    [wire] is what was handed to the transmitter, [ctl] the control registers,
    [line] the divisors and the line format in use, [pull] the resistor of a
    pin.  The laws are those of the PL011 manual (a byte written while the
    transmit queue has room and the UART and its transmitter are enabled is sent; the
    divisors take effect with the write of LCRH, on a disabled UART; the queue is not
    full for ever) and of the BCM2835 manual (a pull is clocked into the
    pins of GPPUDCLK after 150 cycles of set-up and 150 of hold).  A BCM2711 has no
    GPPUD and GPPUDCLK registers: the class is not for its GPIO block. *)

(** The control registers that the driver writes. *)
Definition controls : list Z := [UART0_IBRD; UART0_FBRD; UART0_LCRH; UART0_CR; UART0_IMSC].

Definition transmitting (cr : Z) : bool := Z.testbit cr 0 && Z.testbit cr 8.

Fixpoint fr_polls {HW} `{!Mmio HW} (c a : Z) (n : nat) (h : HW) : HW :=
  match n with O => h | S n' => fr_polls c a n' (mmio_read c a h).2 end.

Class BcmUart (HW : Type) `{!Mmio HW, !Spin HW} (gbase ubase : Z) (patience : nat) := {
  wire : HW -> list Z;
  ctl : HW -> Z -> Z;
  line : HW -> Z * Z * Z;
  pull : HW -> Z -> Z;
  fr_same c h : let h' := (mmio_read c (ubase + UART0_FR) h).2 in
    wire h' = wire h /\ (forall o, ctl h' o = ctl h o) /\ line h' = line h /\ forall p, pull h' p = pull h p;
  fr_room c h : exists n, (n < patience)%nat /\ Z.land (mmio_read c (ubase + UART0_FR) (fr_polls c (ubase + UART0_FR) n h)).1 (Z.shiftl 1 5) = 0;
  dr_sends c h b : is_u8 b -> Z.land (mmio_read c (ubase + UART0_FR) h).1 (Z.shiftl 1 5) = 0 -> transmitting (ctl h UART0_CR) = true ->
    wire (mmio_write c (ubase + UART0_DR) b (mmio_read c (ubase + UART0_FR) h).2) = wire h ++ [b];
  dr_same c h b : let h' := mmio_write c (ubase + UART0_DR) b h in (forall o, ctl h' o = ctl h o) /\ line h' = line h /\ forall p, pull h' p = pull h p;
  ctl_write c off v h o : off ∈ controls -> ctl (mmio_write c (ubase + off) v h) o = if o =? off then v else ctl h o;
  icr_same c v h : let h' := mmio_write c (ubase + UART0_ICR) v h in (forall o, ctl h' o = ctl h o) /\ line h' = line h /\ wire h' = wire h;
  line_write c off v h : off ∈ controls -> Z.testbit (ctl h UART0_CR) 0 = false ->
    line (mmio_write c (ubase + off) v h) = if off =? UART0_LCRH then (ctl h UART0_IBRD, ctl h UART0_FBRD, v) else line h;
  line_cr c v h : line (mmio_write c (ubase + UART0_CR) v h) = line h;
  wire_write c off v h : off ∈ controls -> wire (mmio_write c (ubase + off) v h) = wire h;
  uart_pull c off v h p : off ∈ UART0_ICR :: controls -> pull (mmio_write c (ubase + off) v h) p = pull h p;
  gpio_same c off v h : off ∈ [GPPUD; GPPUDCLK0; GPPUDCLK0 + 4] -> let h' := mmio_write c (gbase + off) v h in
    wire h' = wire h /\ (forall o, ctl h' o = ctl h o) /\ line h' = line h;
  spin_same h : wire (spin_loop h) = wire h /\ (forall o, ctl (spin_loop h) o = ctl h o) /\ line (spin_loop h) = line h;
  pull_clocked c v k bits n1 n2 h p : (k = 0 \/ k = 1) -> (150 <= n1)%nat -> (150 <= n2)%nat ->
    pull (delay n2 (mmio_write c (gbase + (GPPUDCLK0 + k * 4)) bits (delay n1 (mmio_write c (gbase + GPPUD) v h)))) p =
    if (p / 32 =? k) && Z.testbit bits (p mod 32) then v else pull h p;
  pull_control c v h p : pull (mmio_write c (gbase + GPPUD) v h) p = pull h p;
  pull_unclock c k h p : (k = 0 \/ k = 1) -> pull (mmio_write c (gbase + (GPPUDCLK0 + k * 4)) 0 h) p = pull h p;
}.

(** What the console writes for a text. *)
Definition cook1 (b : Z) : list Z := if b =? 10 then [13; 10] else if b =? 8 then [8; 32; 8] else [b].
Definition icook1 (b : Z) : list Z := if b =? 10 then [13; 10] else [b].
Definition cook (text : list Z) : list Z := concat (map cook1 text).
Definition icook (text : list Z) : list Z := concat (map icook1 text).

Lemma reg_addr r base off : vstart r = base -> 0 <= base -> 0 <= off -> base + off < vend r -> base + off < W64 ->
  Virt.offset_addr r off = Ok (Some (base + off)).
Proof.
  intros <- H0 H1 H2 H3; unfold Virt.offset_addr; rewrite uadd_ok by lia; cbn [mbind res_bind].
  unfold Virt.contains; rewrite (proj2 (Z.leb_le _ _)), (proj2 (Z.ltb_lt _ _)) by lia; done.
Qed.

Section pl011.
Context {HW : Type} `{!Mmio HW, !Spin HW} (gbase ubase : Z) (spins : nat) `{L : !BcmUart HW gbase ubase spins} (c : Z).
Implicit Types h : HW.

(** The ranges of the driver reach the registers. *)
Record uart_ok (u : Pl011Uart) : Prop := {
  ok_gpio : vstart (gpio_virtrange u) = gbase /\ 0 <= gbase /\ gbase + 0xa0 <= vend (gpio_virtrange u) /\ gbase + 0xa0 < W64;
  ok_pl011 : vstart (pl011_virtrange u) = ubase /\ 0 <= ubase /\ ubase + 0x48 <= vend (pl011_virtrange u) /\ ubase + 0x48 < W64;
}.

(** The bytes [l] went out and nothing else changed. *)
Definition sent (h h' : HW) (l : list Z) : Prop :=
  wire h' = wire h ++ l /\ (forall o, ctl h' o = ctl h o) /\ line h' = line h /\ forall p, pull h' p = pull h p.

Lemma sent_nil h : sent h h [].
Proof. by split; [rewrite app_nil_r|]. Qed.

Lemma sent_app h1 h2 h3 l1 l2 : sent h1 h2 l1 -> sent h2 h3 l2 -> sent h1 h3 (l1 ++ l2).
Proof. intros (A1 & A2 & A3 & A4) (B1 & B2 & B3 & B4); split_and!; [by rewrite B1, A1, app_assoc|intros; by rewrite ?B2, ?B3, ?B4..]. Qed.

Context (u : Pl011Uart) (Hok : uart_ok u).

Lemma write_uart off v h : 0 <= off < 0x48 -> write_reg c (pl011_virtrange u) off v h = Ok (mmio_write c (ubase + off) v h).
Proof. intros Ho; destruct (ok_pl011 u Hok) as (H1 & H2 & H3 & H4); unfold write_reg; by rewrite (reg_addr _ ubase) by (done || lia). Qed.
Lemma read_uart off h : 0 <= off < 0x48 -> read_reg c (pl011_virtrange u) off h = Ok (mmio_read c (ubase + off) h).
Proof. intros Ho; destruct (ok_pl011 u Hok) as (H1 & H2 & H3 & H4); unfold read_reg; by rewrite (reg_addr _ ubase) by (done || lia). Qed.
Lemma write_gpio off v h : 0 <= off < 0xa0 -> write_reg c (gpio_virtrange u) off v h = Ok (mmio_write c (gbase + off) v h).
Proof. intros Ho; destruct (ok_gpio u Hok) as (H1 & H2 & H3 & H4); unfold write_reg; by rewrite (reg_addr _ gbase) by (done || lia). Qed.

(** *** Sending *)

Lemma pl011_wait_ok fuel : forall h, (exists n, (n < fuel)%nat /\ Z.land (mmio_read c (ubase + UART0_FR) (fr_polls c (ubase + UART0_FR) n h)).1 (Z.shiftl 1 5) = 0) ->
  exists h1, pl011_wait c fuel u h = Ok (mmio_read c (ubase + UART0_FR) h1).2 /\ sent h h1 [] /\ Z.land (mmio_read c (ubase + UART0_FR) h1).1 (Z.shiftl 1 5) = 0.
Proof.
  induction fuel as [|fuel IH]; intros h (n & Hn & Hz); [lia|]; cbn [pl011_wait]; rewrite read_uart by (unfold UART0_FR; lia); cbn [mbind res_bind].
  destruct (mmio_read c (ubase + UART0_FR) h) as [v h1] eqn:E; destruct (Z.eqb_spec (Z.land v (Z.shiftl 1 5)) 0) as [Hv|Hv]; cbn [negb].
  - exists h; rewrite E; split_and!; [done|apply sent_nil|done].
  - destruct n as [|n]; cbn [fr_polls] in Hz; rewrite E in Hz; cbn [fst snd] in Hz; [done|].
    destruct (IH h1) as (h2 & -> & Hs & Hz'); [exists n; split; [lia|done]|]; exists h2; split_and!; [done| |done].
    apply (sent_app h h1 h2 []); [|done]; destruct (fr_same c h) as (F1 & F2 & F3 & F4); rewrite E in F1, F2, F3, F4; cbn [snd] in *.
    by split_and!; [rewrite app_nil_r|..].
Qed.

Lemma pl011_putb_ok h b : is_u8 b -> transmitting (ctl h UART0_CR) = true -> exists h', pl011_putb c spins u b h = Ok h' /\ sent h h' [b].
Proof.
  intros Hb Ht; destruct (pl011_wait_ok spins h (fr_room c h)) as (h1 & E & Hs & Hz); unfold pl011_putb; rewrite E; cbn [mbind res_bind].
  rewrite write_uart by (unfold UART0_DR; lia); eexists; split; [reflexivity|]; change [b] with ([] ++ [b]); apply (sent_app h h1); [done|].
  destruct (dr_same c (mmio_read c (ubase + UART0_FR) h1).2 b) as (D1 & D2 & D3); destruct (fr_same c h1) as (_ & F2 & F3 & F4).
  split_and!; [apply dr_sends; [done..|by rewrite (proj1 (proj2 Hs))]|intros; by rewrite D1, F2|by rewrite D2, F3|intros; by rewrite D3, F4].
Qed.

(** A run of bytes. *)
Lemma sends_ok (f : Z -> HW -> res HW) (g : Z -> list Z) :
  (forall b h, is_u8 b -> transmitting (ctl h UART0_CR) = true -> exists h', f b h = Ok h' /\ sent h h' (g b)) ->
  forall (put : list Z -> HW -> res HW), (forall h, put [] h = Ok h) -> (forall b l h, put (b :: l) h = (h1 ← f b h; put l h1)) ->
  forall text h, Forall is_u8 text -> transmitting (ctl h UART0_CR) = true -> exists h', put text h = Ok h' /\ sent h h' (concat (map g text)).
Proof.
  intros Hf put H0 H1; induction text as [|b text IH]; intros h Hb Ht; [exists h; split; [apply H0|apply sent_nil]|].
  apply Forall_cons in Hb as [Hb Hbs]; destruct (Hf b h Hb Ht) as (h1 & E & S); rewrite H1, E; cbn [mbind res_bind].
  destruct (IH h1 Hbs) as (h2 & -> & S2); [by rewrite (proj1 (proj2 S))|]; exists h2; split; [done|]; cbn [map concat]; by apply (sent_app h h1).
Qed.

Lemma putb_ok b h : is_u8 b -> transmitting (ctl h UART0_CR) = true -> exists h', putb c spins u b h = Ok h' /\ sent h h' (cook1 b).
Proof.
  intros Hb Ht; unfold putb, cook1; change BACKSPACE with 8; destruct (Z.eqb_spec b 10) as [->|]; [|destruct (Z.eqb_spec b 8) as [->|]].
  - destruct (pl011_putb_ok h 13) as (h1 & -> & S1); [done..|]; cbn [mbind res_bind].
    destruct (pl011_putb_ok h1 10) as (h2 & -> & S2); [done|by rewrite (proj1 (proj2 S1))|]; exists h2; split; [done|]; by apply (sent_app h h1 h2 [13]).
  - destruct (pl011_putb_ok h 8) as (h1 & -> & S1); [done..|]; cbn [mbind res_bind].
    destruct (pl011_putb_ok h1 32) as (h2 & -> & S2); [done|by rewrite (proj1 (proj2 S1))|]; cbn [mbind res_bind].
    destruct (pl011_putb_ok h2 8) as (h3 & -> & S3); [done|by rewrite (proj1 (proj2 S2)), (proj1 (proj2 S1))|]; exists h3; split; [done|].
    apply (sent_app h h1 h3 [8]); [done|]; by apply (sent_app h1 h2 h3 [32]).
  - cbn [mbind res_bind]; by apply pl011_putb_ok.
Qed.

Lemma putbs_ok text h : Forall is_u8 text -> transmitting (ctl h UART0_CR) = true -> exists h', putbs c spins u text h = Ok h' /\ sent h h' (cook text).
Proof. by apply (sends_ok (putb c spins u) cook1 putb_ok (putbs c spins u)). Qed.
End pl011.


(** *** Bring-up of the UART *)
Section bringup.
Context {HW : Type} `{!Mmio HW, !Spin HW} (gbase ubase : Z) (spins : nat) `{L : !BcmUart HW gbase ubase spins} (c : Z).
Context (u : Pl011Uart) (Hok : uart_ok gbase ubase u).
Implicit Types h : HW.

(** The UART's registers and output are as before. *)
Definition same_uart (h h' : HW) : Prop := wire h' = wire h /\ (forall o, ctl h' o = ctl h o) /\ line h' = line h.

Lemma same_uart_trans h1 h2 h3 : same_uart h1 h2 -> same_uart h2 h3 -> same_uart h1 h3.
Proof. intros (A1 & A2 & A3) (B1 & B2 & B3); split_and!; [by rewrite B1|intros; by rewrite B2|by rewrite B3]. Qed.

Lemma delay_same n h : same_uart h (delay n h).
Proof. induction n as [|n IH]; [by split_and!|]; apply (same_uart_trans h (delay n h)); [done|apply spin_same]. Qed.

Lemma pin_bit pin p : (p / 32 =? pin / 32) && Z.testbit (Z.shiftl 1 (pin mod 32)) (p mod 32) = (p =? pin).
Proof.
  rewrite Z.shiftl_1_l, Z.pow2_bits_eqb by (apply Z.mod_pos_bound; lia).
  pose proof (Z.div_mod p 32); pose proof (Z.div_mod pin 32); pose proof (Z.mod_pos_bound p 32); pose proof (Z.mod_pos_bound pin 32); lia.
Qed.

Lemma gpiosetpull_ok pin p h : 0 <= pin < 64 -> exists h', gpiosetpull c u pin p h = Ok h' /\ same_uart h h' /\
  forall q, pull h' q = if q =? pin then pull_u32 p else pull h q.
Proof.
  intros Hp; unfold gpiosetpull; cbv zeta; assert (Hk : pin / 32 = 0 \/ pin / 32 = 1) by (Z.to_euclidean_division_equations; lia).
  assert (Hin : GPPUDCLK0 + pin / 32 * 4 ∈ [GPPUD; GPPUDCLK0; GPPUDCLK0 + 4]) by (destruct Hk as [-> | ->]; set_solver).
  assert (Hb : 0 <= GPPUDCLK0 + pin / 32 * 4 < 0xa0) by (unfold GPPUDCLK0; lia).
  do 4 (rewrite (write_gpio gbase ubase c u Hok) by (unfold GPPUD; lia); cbn [mbind res_bind]); eexists; split; [reflexivity|]; split.
  - eapply same_uart_trans; [|by apply gpio_same]; eapply same_uart_trans; [|apply gpio_same; set_solver]; eapply same_uart_trans; [|apply delay_same].
    eapply same_uart_trans; [|by apply gpio_same]; eapply same_uart_trans; [|apply delay_same]; apply gpio_same; set_solver.
  - intros q; rewrite pull_unclock, pull_control, pull_clocked, pin_bit by (done || lia); done.
Qed.

Lemma pl011_quiesce_ok h : exists h', pl011_quiesce c u h = Ok h' /\ wire h' = wire h /\ line h' = line h /\
  (forall o, ctl h' o = if o =? UART0_CR then 0 else ctl h o) /\ forall p, pull h' p = if (p =? 14) || (p =? 15) then 0 else pull h p.
Proof.
  unfold pl011_quiesce; rewrite (write_uart gbase ubase c u Hok) by (unfold UART0_CR; lia); cbn [mbind res_bind]; set (h1 := mmio_write _ _ _ h).
  destruct (gpiosetpull_ok 14 Off h1) as (h2 & -> & S2 & P2); [lia|]; cbn [mbind res_bind].
  destruct (gpiosetpull_ok 15 Off h2) as (h3 & -> & S3 & P3); [lia|]; cbn [mbind res_bind].
  rewrite (write_uart gbase ubase c u Hok) by (unfold UART0_ICR; lia); eexists; split; [reflexivity|].
  destruct (same_uart_trans _ _ _ S2 S3) as (A1 & A2 & A3); destruct (icr_same c 0x7ff h3) as (I1 & I2 & I3).
  assert (Hcr : UART0_CR ∈ controls) by set_solver; split_and!.
  - rewrite I3, A1; by apply wire_write.
  - rewrite I2, A3; apply line_cr.
  - intros o; rewrite I1, A2; by apply ctl_write.
  - intros p; rewrite uart_pull by set_solver; rewrite P3, P2; unfold h1; rewrite uart_pull by set_solver; cbn [pull_u32].
    by destruct (p =? 15), (p =? 14).
Qed.

(** The values written are the ones of 115200 baud. *)
Lemma divisors : int_brd = 1 /\ frac_brd = 40.
Proof. by split; vm_compute. Qed.

Lemma controls_offset off : off ∈ controls -> 0 <= off < 0x48.
Proof. intros H; repeat (apply elem_of_cons in H as [->|H]; [by split|]); by apply elem_of_nil in H. Qed.

(** Writes of control registers. *)
Definition after (ws : list (Z * Z)) (h : HW) : HW := fold_left (fun h '(off, v) => mmio_write c (ubase + off) v h) ws h.

Lemma after_ctl ws h o : Forall (fun '(off, _) => off ∈ controls) ws ->
  ctl (after ws h) o = fold_left (fun x '(off, v) => if o =? off then v else x) ws (ctl h o).
Proof.
  revert h; induction ws as [|[off v] ws IH]; intros h; [done|]; intros [Ho Hs]%Forall_cons.
  change (after ((off, v) :: ws) h) with (after ws (mmio_write c (ubase + off) v h)); cbn [fold_left]; rewrite IH by done; by rewrite ctl_write.
Qed.

Lemma after_keeps ws h : Forall (fun '(off, _) => off ∈ controls) ws -> wire (after ws h) = wire h /\ forall p, pull (after ws h) p = pull h p.
Proof.
  revert h; induction ws as [|[off v] ws IH]; intros h; [done|]; intros [Ho Hs]%Forall_cons.
  change (after ((off, v) :: ws) h) with (after ws (mmio_write c (ubase + off) v h)); destruct (IH (mmio_write c (ubase + off) v h) Hs) as [E1 E2].
  split; [rewrite E1; by apply wire_write|intros p; rewrite E2; apply uart_pull; by right].
Qed.

Definition program : list (Z * Z) :=
  [(UART0_IBRD, 1); (UART0_FBRD, 40); (UART0_LCRH, 0x70); (UART0_IMSC, 0x7f2); (UART0_CR, 0x301)].

Lemma pl011_program_ok h : Z.testbit (ctl h UART0_CR) 0 = false -> exists h', pl011_program c u h = Ok h' /\ wire h' = wire h /\
  line h' = (1, 40, 0x70) /\ ctl h' UART0_CR = 0x301 /\ ctl h' UART0_IMSC = 0x7f2 /\ forall p, pull h' p = pull h p.
Proof.
  intros Hd; exists (after program h); split_and!.
  - unfold pl011_program; destruct divisors as [-> ->].
    do 4 (rewrite (write_uart gbase ubase c u Hok) by (by apply controls_offset; set_solver); cbn [mbind res_bind]).
    by rewrite (write_uart gbase ubase c u Hok) by (by apply controls_offset; set_solver).
  - apply after_keeps; repeat constructor; set_solver.
  - change (after program h) with (mmio_write c (ubase + UART0_CR) 0x301 (after [(UART0_IBRD, 1); (UART0_FBRD, 40); (UART0_LCRH, 0x70); (UART0_IMSC, 0x7f2)] h)).
    rewrite line_cr; set (h2 := after [(UART0_IBRD, 1); (UART0_FBRD, 40)] h).
    change (after _ h) with (mmio_write c (ubase + UART0_IMSC) 0x7f2 (mmio_write c (ubase + UART0_LCRH) 0x70 h2)).
    assert (Hc : forall o, ctl h2 o = fold_left (fun x '(off, v) => if o =? off then v else x) [(UART0_IBRD, 1); (UART0_FBRD, 40)] (ctl h o))
      by (intros o; apply after_ctl; repeat constructor; set_solver).
    rewrite !line_write; [by rewrite !Hc|set_solver|by rewrite Hc|set_solver|rewrite ctl_write by set_solver; by rewrite Hc].
  - rewrite after_ctl by (repeat constructor; set_solver); done.
  - rewrite after_ctl by (repeat constructor; set_solver); done.
  - apply after_keeps; repeat constructor; set_solver.
Qed.
End bringup.


(** *** The console comes up *)
Section boot.
Context {lp : Pt.Looped} {P : Type} `{!Pt.PageAllocator P} (alloc_inv : P -> Prop) `{!Pt.AllocLaws P alloc_inv}.
Context {HW VC : Type} `{!Mmio HW, !Spin HW, !Mb.VideoCore VC}.
Context (core : Z) (spins fuel : nat) (s names : list Z).
Implicit Types w : Sys HW VC P.
#[local] Notation println := (println core spins).
#[local] Notation putstr := (putstr core spins).

(** A locked console hangs, whatever is printed: the pieces of [println!] end with the newline. *)
Lemma println_locked pieces w : Irq.in_interrupt (irq w) = Ok false -> CONSOLE_LIVE w = false -> Cons_locked w = true -> println pieces w = Timeout.
Proof.
  intros Hi Hl Hk; unfold Co.println; destruct pieces as [|p ps]; cbn [app print];
    unfold Co.putstr; rewrite Hi; cbn [mbind res_bind negb assert]; rewrite Hl; unfold lock_cons; by rewrite Hk.
Qed.

(** Memory and devices of a boot: the kernel's tree is well formed, the devicetree
    has the two blocks, the GPIO block found being a BCM2835's, and the cursor has
    room for them. *)
Record boot_ok w (T : PhysAddr) (rg ru : PhysRange) : Prop := {
  bt_root : Pt.ttbr1_el1 (Dv.kmem (km w)) = T;
  bt_ready : Pt.ready alloc_inv (Dv.kmem (km w)) Pt.Kernel T;
  bt_gpio : Bt.find_dt_physrange fuel s names GPIO = Ok (Some rg);
  bt_2835 : Bt.find_dt_physrange fuel s names [str "brcm,bcm2835-gpio"] = Ok (Some rg);
  bt_pl011 : Bt.find_dt_physrange fuel s names [str "arm,pl011"] = Ok (Some ru);
  bt_rg : Dv.regs_ok rg /\ 0xa0 <= end_ rg - start rg /\ Dv.page_count rg = 1%nat;
  bt_ru : Dv.regs_ok ru /\ 0x48 <= end_ ru - start ru /\ Dv.page_count ru = 1%nat;
  bt_cursor : Dv.cursor_ok (Dv.next_free_device_page_va (km w)) 2;
  bt_thread : Irq.in_interrupt (irq w) = Ok false;
  bt_live : CONSOLE_LIVE w = false;
}.

(** Where the two blocks are mapped. *)
Definition gpio_va w (rg : PhysRange) : Z := Dv.next_free_device_page_va (km w) + start rg mod 4096.
Definition pl011_va w (ru : PhysRange) : Z := Dv.next_free_device_page_va (km w) + 4096 + start ru mod 4096.

(** Every register of the block [r] is at [va]. *)
Definition reaches (k : Dv.Kmem P) (T va : Z) (r : PhysRange) : Prop :=
  forall o, 0 <= o < end_ r - start r -> exists en, Pt.leaf (Pt.words (Dv.kmem k)) T (va + o) = Some en /\ Pt.phys_addr en + (va + o) mod 4096 = start r + o.

Lemma next_page cur a : cur mod 4096 = 0 -> cur <= a < cur + 4096 -> ~ Pt.same_page (cur + 4096) a.
Proof.
  intros Hm Ha Hs; assert (1 = 0); [|done]; apply (Dv.same_page_near cur); [lia..|].
  replace (cur + 1 * 4096) with (cur + 4096) by lia; replace (cur + 0 * 4096) with cur by lia.
  eapply Dv.same_page_trans; [exact Hs|]; apply Dv.same_page_sym; by apply Pt.page_same_page.
Qed.

Lemma Pl011Uart_new_ok w T rg ru : boot_ok w T rg ru -> Cons_locked w = true ->
  Pl011Uart_new core spins fuel s names w = Timeout \/
  exists u k, Pl011Uart_new core spins fuel s names w = Ok (Val u, with_km w k) /\ uart_ok (gpio_va w rg) (pl011_va w ru) u /\
    reaches k T (gpio_va w rg) rg /\ reaches k T (pl011_va w ru) ru.
Proof.
  intros B Hk; pose proof (bt_cursor _ _ _ _ B) as (C0 & CK & CW & CM); destruct (bt_rg _ _ _ _ B) as (Hg & Hgs & Hg1), (bt_ru _ _ _ _ B) as (Hu & Hus & Hu1).
  unfold Pl011Uart_new; rewrite (bt_gpio _ _ _ _ B), (bt_pl011 _ _ _ _ B); cbn [mbind res_bind]; unfold map_or_print.
  set (cur := Dv.next_free_device_page_va (km w)) in *.
  destruct (Dv.map_device_register_spec alloc_inv (km w) rg T (bt_root _ _ _ _ B) (bt_ready _ _ _ _ B) Hg) as (r1 & k1 & E1 & S1 & N1 & D1).
  { fold cur; rewrite Hg1; split_and!; [done|done|lia|intros; apply CM; lia]. }
  rewrite E1; cbn [mbind res_bind]; destruct r1 as [g|]; [|left; rewrite println_locked; [done|apply B|apply B|done]]; cbn [mbind res_bind].
  assert (HT1 : Pt.ttbr1_el1 (Dv.kmem k1) = T) by (by rewrite (Dv.st_ttbr1 _ _ _ _ _ S1), (bt_root _ _ _ _ B)).
  change (km (with_km w k1)) with k1; destruct (Dv.map_device_register_spec alloc_inv k1 ru T HT1 (Dv.st_ready _ _ _ _ _ S1) Hu) as (r2 & k2 & E2 & S2 & N2 & D2).
  { rewrite N1, Hu1; fold cur; split_and!; [rewrite <- Z.add_mod_idemp_l, C0 by lia; done|lia|lia|intros; apply CM; lia]. }
  rewrite E2; cbn [mbind res_bind]; destruct r2 as [p|]; [|left; rewrite println_locked; [done|apply B|apply B|done]]; cbn [mbind res_bind].
  right; eexists _, k2; split; [reflexivity|]; rewrite N1 in D2; fold cur in D1, D2.
  pose proof D1 as [Eg M1]; pose proof D2 as [Ep M2]; subst g p; unfold gpio_va, pl011_va; fold cur.
  pose proof (Z.mod_pos_bound (start rg) 4096); pose proof (Z.mod_pos_bound (start ru) 4096).
  pose proof (Dv.page_count_spec rg Hg) as (_ & _ & Hf1 & _ & He1); pose proof (Dv.page_count_spec ru Hu) as (_ & _ & Hf2 & _ & He2).
  unfold Dv.first_page in *; rewrite Hg1 in He1; rewrite Hu1 in He2.
  assert (HcK : 0 <= cur) by (unfold KZERO in CK; lia).
  split; [split; cbn [gpio_virtrange pl011_virtrange vstart vend]; split_and!; (done || lia)|].
  assert (Hc2 : Dv.cursor_ok (cur + 4096) (Dv.page_count ru)) by (rewrite Hu1; split_and!; [rewrite <- Z.add_mod_idemp_l, C0 by lia; done|lia|lia|intros; apply CM; lia]).
  assert (Hc1 : Dv.cursor_ok cur (Dv.page_count rg)) by (rewrite Hg1; split_and!; [done|done|lia|intros; apply CM; lia]).
  split; [|intros o Ho; by apply (Dv.device_reached (Dv.kmem k1) (Dv.kmem k2) T (cur + 4096) ru _ o D2)].
  intros o Ho; destruct (Dv.device_reached (Dv.kmem (km w)) (Dv.kmem k1) T cur rg _ o D1 Hg Hc1 Ho) as (en & Hl & Hp); cbn [vstart] in *.
  exists en; split; [|done]; rewrite <- Hl; apply (M2 (cur + start rg mod 4096 + o)); [apply CM; lia|]; intros i Hi Hsp; rewrite Hu1 in Hi.
  apply (next_page cur (cur + start rg mod 4096 + o)); [done|lia|]; by replace (cur + 4096) with (cur + 4096 + Z.of_nat i * 4096) by lia.
Qed.
(** *** Printing *)
Section printing.
Context (gbase ubase : Z) `{L : !BcmUart HW gbase ubase spins} (u : Pl011Uart) (Hok : uart_ok gbase ubase u).

Record console_ready w : Prop := {
  cr_cons : CONS w = Some u;
  cr_uart : UART w = Some u;
  cr_iops : IPRINT_OPS w = Some Iputb;
  cr_unlocked : Cons_locked w = false;
  cr_on : transmitting (ctl (hw w) UART0_CR) = true;
}.

Lemma ready_sent w h l : console_ready w -> sent gbase ubase spins (hw w) h l -> console_ready (with_hw w h).
Proof. intros [R1 R2 R3 R4 R5] (_ & S & _); split; [done..|cbn [hw with_hw]; by rewrite S]. Qed.

Lemma putstr_ok text w : console_ready w -> Irq.in_interrupt (irq w) = Ok false -> CONSOLE_LIVE w = false -> Forall is_u8 text ->
  exists h, putstr text w = Ok (with_hw w h) /\ sent gbase ubase spins (hw w) h (cook text).
Proof.
  intros R Hi Hl Hb; destruct (putbs_ok gbase ubase spins core u Hok text (hw w) Hb (cr_on w R)) as (h & E & S); exists h; split; [|done].
  unfold Co.putstr; rewrite Hi; cbn [mbind res_bind negb assert]; rewrite Hl; unfold lock_cons; rewrite (cr_unlocked w R); cbn [mbind res_bind].
  change (CONS (with_locked w true)) with (CONS w); rewrite (cr_cons w R); change (hw (with_locked w true)) with (hw w); rewrite E; cbn [mbind res_bind].
  pose proof (cr_unlocked w R) as Hu; destruct w; cbn in *; by subst.
Qed.

Lemma cook_app l1 l2 : cook (l1 ++ l2) = cook l1 ++ cook l2.
Proof. unfold cook; by rewrite map_app, concat_app. Qed.
Lemma icook_app l1 l2 : icook (l1 ++ l2) = icook l1 ++ icook l2.
Proof. unfold icook; by rewrite map_app, concat_app. Qed.

Lemma print_ok pieces : forall w, console_ready w -> Irq.in_interrupt (irq w) = Ok false -> CONSOLE_LIVE w = false -> Forall (Forall is_u8) pieces ->
  exists h, print core spins pieces w = Ok (with_hw w h) /\ sent gbase ubase spins (hw w) h (cook (concat pieces)).
Proof.
  induction pieces as [|p ps IH]; intros w R Hi Hl Hb; [exists (hw w); split; [by destruct w|apply sent_nil]|].
  apply Forall_cons in Hb as [Hp Hps]; destruct (putstr_ok p w R Hi Hl Hp) as (h1 & E & S1); cbn [print concat]; rewrite E; cbn [mbind res_bind].
  destruct (IH (with_hw w h1)) as (h2 & -> & S2); [by eapply ready_sent|done..|]; exists h2; split; [done|]; rewrite cook_app; by eapply sent_app.
Qed.

(** The direct path. *)
Lemma iputb_ok b w : console_ready w -> is_u8 b -> exists h, iputb core spins b w = Ok (with_hw w h) /\ sent gbase ubase spins (hw w) h [b].
Proof.
  intros R Hb; destruct (pl011_putb_ok gbase ubase spins core u Hok (hw w) b Hb (cr_on w R)) as (h & E & S); exists h; split; [|done].
  unfold iputb; rewrite (cr_uart w R), E; done.
Qed.

Lemma iwrite_str_ok text : forall w, console_ready w -> Forall is_u8 text ->
  exists h, iwrite_str core spins text w = Ok (with_hw w h) /\ sent gbase ubase spins (hw w) h (icook text).
Proof.
  induction text as [|b text IH]; intros w R Hb; [exists (hw w); split; [by destruct w|apply sent_nil]|]; apply Forall_cons in Hb as [Hb Hbs].
  assert (Hcr : exists h, (if b =? 10 then iputb core spins 13 w else Ok w) = Ok (with_hw w h) /\ sent gbase ubase spins (hw w) h (if b =? 10 then [13] else [])).
  { destruct (b =? 10); [by apply iputb_ok|exists (hw w); split; [by destruct w|apply sent_nil]]. }
  destruct Hcr as (h1 & E1 & S1); cbn [iwrite_str]; rewrite E1; cbn [mbind res_bind].
  destruct (iputb_ok b (with_hw w h1)) as (h2 & -> & S2); [by eapply ready_sent|done|]; cbn [mbind res_bind].
  change (with_hw (with_hw w h1) h2) with (with_hw w h2); pose proof (sent_app _ _ _ _ _ _ _ _ S1 S2) as S12.
  destruct (IH (with_hw w h2)) as (h3 & -> & S3); [by eapply ready_sent|done|]; exists h3; split; [done|].
  assert (Ei : icook (b :: text) = ((if b =? 10 then [13] else []) ++ [b]) ++ icook text)
    by (unfold icook; cbn [map concat]; unfold icook1; by destruct (Z.eqb_spec b 10) as [->|]).
  rewrite Ei; by eapply sent_app.
Qed.

Lemma iwrite_fmt_ok pieces : forall w, console_ready w -> Forall (Forall is_u8) pieces ->
  exists h, iwrite_fmt core spins pieces w = Ok (with_hw w h) /\ sent gbase ubase spins (hw w) h (icook (concat pieces)).
Proof.
  induction pieces as [|p ps IH]; intros w R Hb; [exists (hw w); split; [by destruct w|apply sent_nil]|].
  apply Forall_cons in Hb as [Hp Hps]; destruct (iwrite_str_ok p w R Hp) as (h1 & E & S1); cbn [iwrite_fmt concat]; rewrite E; cbn [mbind res_bind].
  destruct (IH (with_hw w h1)) as (h2 & -> & S2); [by eapply ready_sent|done|]; exists h2; split; [done|]; rewrite icook_app; by eapply sent_app.
Qed.

(** [iprint] masks interrupts while it writes and leaves the mask and the interlock as they were. *)
Lemma iprint_ok (masked : Irq.Core -> bool) pieces w : console_ready w -> Forall (Forall is_u8) pieces ->
  match Irq.IRQ_OPS (irq w) with Some o => Irq.MaskLaws o masked | None => True end ->
  exists h, iprint core spins pieces w = Ok (with_hw w h) /\ sent gbase ubase spins (hw w) h (icook (concat pieces)).
Proof.
  intros R Hb Hm; unfold iprint; destruct (Irq.new (irq w)) as [g i] eqn:En.
  assert (Hd : Irq.drop g i = irq w) by (pose proof (Irq.drop_new masked (irq w) Hm) as Hd; by rewrite En in Hd).
  change (IPRINT_OPS (with_irq w i)) with (IPRINT_OPS w); rewrite (cr_iops w R); unfold iprint_trylock; change (IPRINT_LOCK (with_irq w i)) with (IPRINT_LOCK w).
  assert (Hw : forall b, exists h, iwrite_fmt core spins pieces (with_ilock (with_irq w i) b) = Ok (with_hw (with_ilock (with_irq w i) b) h) /\
    sent gbase ubase spins (hw w) h (icook (concat pieces))).
  { intros b; destruct R; by apply (iwrite_fmt_ok pieces (with_ilock (with_irq w i) b)). }
  destruct (IPRINT_LOCK w) eqn:El; [destruct (Hw true) as (h & E & S)|destruct (Hw true) as (h & E & S)]; exists h; (split; [|done]).
  - replace (with_irq w i) with (with_ilock (with_irq w i) true) by (unfold with_ilock; cbn; by rewrite <- El).
    rewrite E; cbn [mbind res_bind irq with_irq with_hw with_ilock]; rewrite Hd; unfold with_irq, with_hw, with_ilock; cbn; by rewrite El.
  - rewrite E; cbn [mbind res_bind irq with_irq with_hw with_ilock]; rewrite Hd; unfold with_irq, with_hw, with_ilock; cbn; by rewrite El.
Qed.
End printing.
End boot.


Section comes_up.
Context {lp : Pt.Looped} {P : Type} `{!Pt.PageAllocator P} (alloc_inv : P -> Prop) `{!Pt.AllocLaws P alloc_inv}.
Context {HW VC : Type} `{!Mmio HW, !Spin HW, !Mb.VideoCore VC}.
Context (core : Z) (spins fuel : nat) (s names : list Z) `{V : !Mb.VcLaws VC spins}.
Implicit Types w : Sys HW VC P.

Lemma print_live pieces w : Irq.in_interrupt (irq w) = Ok false -> CONSOLE_LIVE w = true -> print core spins pieces w = Ok w.
Proof.
  intros Hi Hl; induction pieces as [|p ps IH]; [done|]; cbn [print]; unfold putstr; rewrite Hi; cbn [mbind res_bind negb assert]; rewrite Hl; exact IH.
Qed.

(** The request buffer of the mailbox. *)
Definition mailbox_ok w : Prop := exists mb, MAILBOX w = Some mb /\ (16 | start (req_buf_physrange mb)) /\ is_u32 (start (req_buf_physrange mb)).

(** The mailbox was handed a request, in its buffer, to set [clock] to [rate]. *)
Definition clock_words (clock rate : Z) : list Z := [32; 0; Mb.SetClockRate; 12; 0; clock; rate; 0; 0].
Definition clock_asked w (clock rate : Z) (v : VC) : Prop := exists mb v0, MAILBOX w = Some mb /\
  Mb.holds v0 (start (req_buf_physrange mb)) (clock_words clock rate) /\ Mb.mbox_request spins (start (req_buf_physrange mb)) v0 = Ok v.

Lemma set_clock_rate_ok w clock rate : mailbox_ok w -> (0 < spins)%nat -> is_u32 clock -> is_u32 rate ->
  exists v, set_clock_rate spins clock rate 0 w = Ok (with_vc w v) /\ clock_asked w clock rate v.
Proof.
  intros (mb & Em & Ha & Hu) Hs Hc Hr; unfold set_clock_rate; rewrite Em; cbn [mbind res_bind unwrap].
  unfold Mb.set_clock_rate, Mb.request; cbv zeta.
  match goal with |- context [Mb.mbox_request spins ?b ?h] => set (v0 := h); destruct (Mb.mbox_request_ok spins v0 b Ha Hu Hs) as (v & E & _) end.
  rewrite E; exists v; split; [done|]; exists mb, v0; split_and!; [done| |exact E].
  apply (Mb.store_words_holds spins (clock_words clock rate)); [destruct Ha as [q ->]; exists (q * 4); lia|].
  repeat (constructor; [done || (split; (discriminate || reflexivity))|]); constructor.
Qed.

Lemma Pl011Uart_init_ok gbase ubase `{L : !BcmUart HW gbase ubase spins} u w : uart_ok gbase ubase u -> mailbox_ok w -> (0 < spins)%nat ->
  exists h v, Pl011Uart_init core spins u w = Ok (with_hw (with_vc w v) h) /\ clock_asked w 2 3000000 v /\ wire h = wire (hw w) /\ line h = (1, 40, 0x70) /\
    ctl h UART0_CR = 0x301 /\ forall p, pull h p = if (p =? 14) || (p =? 15) then 0 else pull (hw w) p.
Proof.
  intros Hok Hm Hs; unfold Pl011Uart_init; destruct (pl011_quiesce_ok gbase ubase spins core u Hok (hw w)) as (h1 & -> & W1 & L1 & C1 & P1); cbn [mbind res_bind].
  destruct (set_clock_rate_ok (with_hw w h1) 2 uart_clock_rate_hz Hm Hs) as (v & -> & Hv); [split; (discriminate || reflexivity)..|]; cbn [mbind res_bind].
  change (hw (with_vc (with_hw w h1) v)) with h1; destruct (pl011_program_ok gbase ubase spins core u Hok h1) as (h2 & -> & W2 & L2 & C2 & _ & P2); [by rewrite C1|].
  exists h2, v; split; [done|]; split_and!; [exact Hv|by rewrite W2|done|done|intros p; by rewrite P2].
Qed.

(** C38: the console comes up.  When the devicetree describes a BCM2835 GPIO block and
    the PL011, their pages can be mapped and the mailbox is set up, [devcons::init]
    returns; the mapped addresses translate to the device registers; the firmware was
    asked, by a request in the mailbox's buffer, to run the UART's clock at 3 MHz, and
    the UART is enabled with the divisor 1 + 40/64 (115384 baud at that clock; the
    answer is not looked at), 8-bit words and FIFOs; the pulls of pins 14 and 15 are
    off and those of the other pins as they were, and nothing was sent.  From then
    on [println!] sends exactly its text, with a carriage return before each newline
    and each backspace erasing; after [set_console_live] it sends nothing, while
    [iprint!] still sends its text and leaves interlock and interrupt mask as they
    were. *)
Theorem console_comes_up w (T : PhysAddr) (rg ru : PhysRange) (L : BcmUart HW (gpio_va w rg) (pl011_va w ru) spins) (masked : Irq.Core -> bool)
    (msg : list Z) (pieces : list (list Z)) (B : boot_ok alloc_inv fuel s names w T rg ru)
    (Hmap : is_ok (Pl011Uart_new core spins fuel s names (with_locked w true)) = true)
    (Hlock : Cons_locked w = false) (Huart : UART w = None) (Hops : IPRINT_OPS w = None) (Hmb : mailbox_ok w) (Hspins : (0 < spins)%nat)
    (Hirq : match Irq.IRQ_OPS (irq w) with Some o => Irq.MaskLaws o masked | None => True end) (Hb : Forall (Forall is_u8) pieces) :
  exists w', devcons_init core spins fuel s names msg w = Ok w' /\
    reaches (km w') T (gpio_va w rg) rg /\ reaches (km w') T (pl011_va w ru) ru /\
    clock_asked w 2 3000000 (vc w') /\
    wire (hw w') = wire (hw w) /\ line (hw w') = (1, 40, 0x70) /\ transmitting (ctl (hw w') UART0_CR) = true /\
    (forall p, pull (hw w') p = if (p =? 14) || (p =? 15) then 0 else pull (hw w) p) /\
    (exists h, println core spins pieces w' = Ok (with_hw w' h) /\ wire h = wire (hw w') ++ cook (concat pieces ++ [10])) /\
    println core spins pieces (set_console_live w') = Ok (set_console_live w') /\
    (exists h, iprintln core spins pieces (set_console_live w') = Ok (with_hw (set_console_live w') h) /\ wire h = wire (hw w') ++ icook (concat pieces ++ [10])).
Proof.
  set (w0 := with_locked w true) in *.
  assert (B0 : boot_ok alloc_inv fuel s names w0 T rg ru) by (by destruct B).
  destruct (Pl011Uart_new_ok alloc_inv core spins fuel s names w0 T rg ru B0 eq_refl) as [E|(u & k & En & Hok & R1 & R2)]; [by rewrite E in Hmap|].
  change (uart_ok (gpio_va w rg) (pl011_va w ru) u) in Hok.
  destruct (Pl011Uart_init_ok (gpio_va w rg) (pl011_va w ru) u (with_km w0 k) Hok Hmb Hspins) as (h & v & Ei & Ck & W & Ln & Cr & Pl).
  set (w' := unlock_cons (with_cons (set_iprint_ops (with_uart (with_hw (with_vc (with_km w0 k) v) h) (Some u)) Iputb) (Some u))).
  assert (Ed : devcons_init core spins fuel s names msg w = Ok w').
  { unfold devcons_init, set_uart, lock_cons; rewrite Hlock; cbn [mbind res_bind]; fold w0; unfold make_uart; rewrite En; cbn [mbind res_bind]; rewrite Ei; cbn [mbind res_bind].
    change (UART (with_hw (with_vc (with_km w0 k) v) h)) with (UART w); by rewrite Huart. }
  assert (R : console_ready spins (gpio_va w rg) (pl011_va w ru) u w').
  { unfold w', set_iprint_ops; change (IPRINT_OPS (with_uart _ _)) with (IPRINT_OPS w); rewrite Hops; split; try done; cbn [hw unlock_cons with_locked with_cons with_iops with_uart with_hw]; by rewrite Cr. }
  assert (Hw' : hw w' = h /\ km w' = k /\ irq w' = irq w /\ CONSOLE_LIVE w' = false /\ vc w' = v).
  { unfold w', set_iprint_ops; change (IPRINT_OPS (with_uart _ _)) with (IPRINT_OPS w); rewrite Hops; split_and!; try done; apply B. }
  destruct Hw' as (Hh & Hk & Hi & Hl & Hv); pose proof (bt_thread _ _ _ _ _ _ _ _ B) as Hth.
  assert (Hb' : Forall (Forall is_u8) (pieces ++ [[10]])) by (apply Forall_app; split; [done|by repeat constructor]).
  assert (Hc : concat (pieces ++ [[10]]) = concat pieces ++ [10]) by (by rewrite concat_app).
  exists w'; rewrite Hh, Hk, Hv; split_and!; try done; [by rewrite Cr|..].
  - destruct (print_ok core spins (gpio_va w rg) (pl011_va w ru) u Hok (pieces ++ [[10]]) w' R) as (h' & E & S & _); [by rewrite Hi|done..|].
    exists h'; split; [done|]; by rewrite S, Hc, Hh.
  - apply print_live; [cbn [irq set_console_live]; by rewrite Hi|done].
  - destruct (iprint_ok core spins (gpio_va w rg) (pl011_va w ru) u Hok masked (pieces ++ [[10]]) (set_console_live w')) as (h' & E & S & _); [|done|change (irq (set_console_live w')) with (irq w'); by rewrite Hi|].
    + by destruct R.
    + exists h'; split; [done|]; change (hw (set_console_live w')) with (hw w') in S; by rewrite S, Hc, Hh.
Qed.
End comes_up.


(** *** Without a UART

    The closure of [devcons::init] runs under the console lock.  When the UART
    is not found it reports that with [println!], which takes the same lock: the
    boot hangs there, whatever the text. *)
Lemma no_uart_hangs {HW VC P : Type} `{!Mmio HW, !Spin HW, !Mb.VideoCore VC, !Pt.PageAllocator P} (core : Z) (spins fuel : nat) (s names msg : list Z) (w : Sys HW VC P) :
  Irq.in_interrupt (irq w) = Ok false -> CONSOLE_LIVE w = false ->
  Bt.find_dt_physrange fuel s names GPIO = Ok None -> devcons_init core spins fuel s names msg w = Timeout.
Proof.
  intros Hi Hl Hf; unfold devcons_init, set_uart, lock_cons; destruct (Cons_locked w); [done|]; cbn [mbind res_bind].
  unfold make_uart, Pl011Uart_new; rewrite Hf; cbn [mbind res_bind]; by rewrite println_locked.
Qed.

(** *** The function select of the mini UART

    Pins 14 and 15 get function 2 (ALT5), every other field keeps its value. *)
Definition select_alt5 (gpfsel1 : Z) : Z :=
  Z.lor (Z.land gpfsel1 (unot W32 (Z.lor (Z.shiftl 7 12) (Z.shiftl 7 15)))) (Z.lor (Z.shiftl 2 12) (Z.shiftl 2 15)).

Lemma select_alt5_fields v i : is_u32 v -> 0 <= i < 10 ->
  Gc.field (select_alt5 v) (3 * i) (3 * i + 3) = if (i =? 4) || (i =? 5) then 2 else Gc.field v (3 * i) (3 * i + 3).
Proof.
  intros Hv Hi; unfold select_alt5; change W32 with (2 ^ 32); rewrite land_unot by (unfold is_u, W32 in *; done || lia).
  unfold Gc.field; replace (3 * i + 3 - 3 * i) with 3 by lia; apply Z.bits_inj'; intros n Hn; rewrite Z.land_spec, Z.shiftr_spec, Z.lor_spec, Z.ldiff_spec by lia.
  destruct (Z.ltb_spec n 3) as [Hn3|Hn3].
  - assert (Hc : exists j, 3 * i = j /\ (n = 0 \/ n = 1 \/ n = 2)) by (exists (3 * i); lia); destruct Hc as (_ & _ & Hn').
    assert (Hi' : i = 0 \/ i = 1 \/ i = 2 \/ i = 3 \/ i = 4 \/ i = 5 \/ i = 6 \/ i = 7 \/ i = 8 \/ i = 9) by lia.
    destruct Hn' as [->|[->| ->]], Hi' as [->|[->|[->|[->|[->|[->|[->|[->|[->| ->]]]]]]]]]; cbn [Z.eqb orb Pos.eqb]; rewrite ?Z.land_spec, ?Z.shiftr_spec by lia;
      cbn; rewrite ?andb_false_r, ?andb_true_r, ?orb_false_r, ?orb_true_r; done.
  - rewrite (Z.ones_spec_high 3 n), andb_false_r by lia; destruct (_ || _); [|by rewrite Z.land_spec, (Z.ones_spec_high 3 n), andb_false_r by lia].
    symmetry; apply Z.bits_above_log2; cbn; lia.
Qed.

Lemma mini_init_selects {HW} `{!Mmio HW, !Spin HW} core u (h h' : HW) : mini_init core u h = Ok h' ->
  exists v h1 h2, read_reg core (mini_gpio_virtrange u) GPFSEL1 h = Ok (v, h1) /\ write_reg core (mini_gpio_virtrange u) GPFSEL1 (select_alt5 v) h1 = Ok h2.
Proof.
  unfold mini_init; destruct (read_reg _ _ _ h) as [[v h1]| |]; [|done..]; cbn [mbind res_bind]; unfold select_alt5.
  destruct (write_reg core (mini_gpio_virtrange u) GPFSEL1 _ h1) as [h2| |] eqn:E; [|done..]; intros _; by exists v, h1, h2.
Qed.

(** ** A board *)
Module CoDemo.
Import Aspace.AsDemo Dv.DvDemo Fd.
#[local] Existing Instance demo_alloc.
#[local] Existing Instance demo_laws.
#[local] Existing Instance Mb.MbDemo.fw_core.
#[local] Existing Instance Mb.MbDemo.fw_laws.

Definition gb : Z := 0xffff900000000000.
Definition ub : Z := 0xffff900000001000.

Record Board := { b_wire : list Z; b_ctl : Z -> Z; b_line : Z * Z * Z; b_pull : Z -> Z; b_pud : Z }.

Definition set_ctl (o v : Z) (h : Board) : Board :=
  {| b_wire := b_wire h; b_ctl := fun x => if x =? o then v else b_ctl h x;
     b_line := if o =? UART0_LCRH then (b_ctl h UART0_IBRD, b_ctl h UART0_FBRD, v) else b_line h; b_pull := b_pull h; b_pud := b_pud h |}.
Definition clock (k bits : Z) (h : Board) : Board :=
  {| b_wire := b_wire h; b_ctl := b_ctl h; b_line := b_line h;
     b_pull := fun p => if (p / 32 =? k) && Z.testbit bits (p mod 32) then b_pud h else b_pull h p; b_pud := b_pud h |}.

#[export] Instance board_mmio : Mmio Board := {
  mmio_write c a v h :=
    if a =? ub + UART0_DR then {| b_wire := b_wire h ++ [v]; b_ctl := b_ctl h; b_line := b_line h; b_pull := b_pull h; b_pud := b_pud h |}
    else if (a =? ub + UART0_IBRD) || (a =? ub + UART0_FBRD) || (a =? ub + UART0_LCRH) || (a =? ub + UART0_CR) || (a =? ub + UART0_IMSC) then set_ctl (a - ub) v h
    else if a =? gb + GPPUD then {| b_wire := b_wire h; b_ctl := b_ctl h; b_line := b_line h; b_pull := b_pull h; b_pud := v |}
    else if a =? gb + GPPUDCLK0 then clock 0 v h
    else if a =? gb + (GPPUDCLK0 + 4) then clock 1 v h
    else h;
  mmio_read c a h := (0, h);
}.
#[export] Instance board_spin : Spin Board := { spin_loop h := h }.

Lemma board_delay n (h : Board) : delay n h = h.
Proof. induction n as [|n IH]; [done|exact IH]. Qed.

#[export] Instance board_uart : BcmUart Board gb ub 1.
Proof.
  refine {| wire := b_wire; ctl := b_ctl; line := b_line; pull := b_pull |}; try done.
  - intros c h; exists 0%nat; split; [lia|done].
  - intros c off v h o Ho; repeat (apply elem_of_cons in Ho as [->|Ho]; [done|]); by apply elem_of_nil in Ho.
  - intros c off v h Ho _; repeat (apply elem_of_cons in Ho as [->|Ho]; [done|]); by apply elem_of_nil in Ho.
  - intros c off v h Ho; repeat (apply elem_of_cons in Ho as [->|Ho]; [done|]); by apply elem_of_nil in Ho.
  - intros c off v h p Ho; repeat (apply elem_of_cons in Ho as [->|Ho]; [done|]); by apply elem_of_nil in Ho.
  - intros c off v h Ho; repeat (apply elem_of_cons in Ho as [->|Ho]; [done|]); by apply elem_of_nil in Ho.
  - intros c v k bits n1 n2 h p [-> | ->] _ _; by rewrite !board_delay.
  - intros c k h p Hk; transitivity (if (p / 32 =? k) && Z.testbit 0 (p mod 32) then b_pud h else b_pull h p); [by destruct Hk as [-> | ->]|].
    by rewrite Z.testbit_0_l, andb_false_r.
Defined.

(** GPIO and UART blocks of a Raspberry Pi 3, at the root of the tree. *)
Definition dnames : list Z := concat (map (fun n => str n ++ [0]) ["#address-cells"; "#size-cells"; "reg"; "compatible"]%string).
Definition device (compatible : string) (addr len : Z) : list item :=
  [IProp 31 (str compatible ++ [0]); IProp 27 (enc_reg 2 1 {| rb_addr := addr; rb_len := Some len |})].
Definition dtree : list item :=
  [INode [] [IProp 0 (to_be 4 2); IProp 15 (to_be 4 1);
             INode (str "gpio@3f200000") (device "brcm,bcm2835-gpio" 0x3f200000 0xb4);
             INode (str "serial@3f201000") (device "arm,pl011" 0x3f201000 0x200)]].
Definition rg : PhysRange := Range.new 0x3f200000 0x3f2000b4.
Definition ru : PhysRange := Range.new 0x3f201000 0x3f201200.

(** Everything was left on by the firmware: pull-ups, other divisors. *)
Definition power_on : Board := {| b_wire := []; b_ctl := fun _ => 0x1; b_line := (9, 9, 9); b_pull := fun _ => 2; b_pud := 0 |}.

Definition mbox : Mailbox :=
  {| mbox_virtrange := {| vstart := 0; vend := 0 |}; req_buf_virtrange := {| vstart := 0; vend := 0 |}; req_buf_physrange := Range.new 0x8000 0x9000 |}.
Definition sys0 : Sys Board Mb.MbDemo.Fw BitmapPageAlloc :=
  {| km := kmachine; hw := power_on; vc := Mb.MbDemo.idle; irq := Irq.init Irq.boot_world; MAILBOX := Some mbox;
     CONS := None; Cons_locked := false; CONSOLE_LIVE := false; UART := None; IPRINT_OPS := None; IPRINT_LOCK := false |}.

Lemma sys0_ok : boot_ok (phys_inv 2 2) 400 (block dtree) dnames sys0 T rg ru.
Proof.
  split.
  - reflexivity.
  - exact kmachine_ready.
  - vm_compute; reflexivity.
  - vm_compute; reflexivity.
  - vm_compute; reflexivity.
  - split; [split; cbn; lia|split; [cbn; lia|reflexivity]].
  - split; [split; cbn; lia|split; [cbn; lia|reflexivity]].
  - apply demo_cursor; lia.
  - reflexivity.
  - reflexivity.
Qed.

Lemma console_comes_up_witness : exists w', devcons_init 0 1 400 (block dtree) dnames [] sys0 = Ok w' /\
  b_wire (hw w') = [] /\ b_line (hw w') = (1, 40, 0x70) /\ b_pull (hw w') 14 = 0 /\ b_pull (hw w') 16 = 2 /\
  exists h, println 0 1 [str "r9"] w' = Ok (with_hw w' h) /\ b_wire h = str "r9" ++ [13; 10].
Proof.
  destruct (console_comes_up (phys_inv 2 2) 0 1 400 (block dtree) dnames sys0 T rg ru board_uart Irq.irqs_masked [] [str "r9"] sys0_ok)
    as (w' & H & _ & _ & _ & Hw & Hl & _ & Hp & (h & E & Ew) & _).
  - vm_compute; reflexivity.
  - reflexivity.
  - reflexivity.
  - reflexivity.
  - exists mbox; split; [reflexivity|]; split; [exists 0x800; reflexivity|split; [discriminate|reflexivity]].
  - lia.
  - exact Irq.aarch64_laws.
  - repeat constructor; discriminate.
  - exists w'; split; [exact H|]; split; [exact Hw|]; split; [exact Hl|]; split; [exact (Hp 14)|]; split; [exact (Hp 16)|].
    exists h; split; [exact E|]; refine (eq_trans Ew _); change (wire (hw w')) with (b_wire (hw w')); rewrite (Hw : b_wire (hw w') = []); reflexivity.
Defined.

End CoDemo.

End Co.
