(* ===== verification/Iprint.v ===== *)
(** * [iprint!] on several cores ([port/src/devcons.rs])

    The interrupt- and panic-safe print as a transition system whose steps are the
    atomic accesses of the code: activations of [iprint] on any number of cores, in any
    interleaving, in threads, in interrupt handlers and in the handler of a fault
    that strikes inside another activation.  A byte is written to the device by
    [putb]: polls of the flag register, each of which may find the transmit FIFO
    full, and a write. *)

From S2P Require Import Prelude Irq Console.

Module Ip.
Import Co(icook).

(** What became of a text: dropped, for want of [IprintOps], or written, with the
    interlock or without it. *)
Inductive Outcome := Dropped | Said (locked : bool).

Inductive Pc :=
  | Start                                     (** called *)
  | Guarded                                   (** interrupts are masked *)
  | Trying (left : Z)                         (** in [iprint_trylock], attempts left *)
  | Printing (locked room : bool) (rest : list Z)  (** bytes still to write; in [putb], the last poll saw room *)
  | Leaving (o : Outcome)                     (** the guard is dropped next *)
  | Done (o : Outcome).

(** An activation: its core, its text, the context it runs in and, when it is the
    handler of a fault, the activation the fault struck. *)
Record Act := { core : Z; text : list Z; pc : Pc; world : Irq.World Irq.Core; guard : Irq.IrqGuard; parent : option nat }.

Record St := { lock : bool; ops : bool; wire : list (nat * Z); acts : list Act; current : Z -> option nat }.

Definition ATTEMPTS : Z := 1000000.

Definition at_pc (a : Act) (p : Pc) : Act :=
  {| core := core a; text := text a; pc := p; world := world a; guard := guard a; parent := parent a |}.
Definition in_world (a : Act) (p : Pc) (w : Irq.World Irq.Core) (g : Irq.IrqGuard) : Act :=
  {| core := core a; text := text a; pc := p; world := w; guard := g; parent := parent a |}.

(** [compare_exchange(false, true)], and the count of the loop. *)
Definition iprint_trylock (locked : bool) (left : Z) (a : Act) : Act * bool :=
  if locked then (at_pc a (if left <=? 1 then Printing false false (icook (text a)) else Trying (left - 1)), true)
  else (at_pc a (Printing true false (icook (text a))), true).

(** The next action of an activation: the new lock and the byte written.  [full] is
    what the flag register says of the transmit FIFO, when the action is a poll. *)
Definition turn (full locked registered : bool) (a : Act) : Act * bool * list Z :=
  match pc a with
  | Start => let '(g, w) := Irq.new (world a) in (in_world a Guarded w g, locked, [])
  | Guarded => (at_pc a (if registered then Trying ATTEMPTS else Leaving Dropped), locked, [])
  | Trying n => (iprint_trylock locked n a, [])
  | Printing l false (b :: r) => (at_pc a (Printing l (negb full) (b :: r)), locked, [])
  | Printing l true (b :: r) => (at_pc a (Printing l false r), locked, [b])
  | Printing l _ [] => (at_pc a (Leaving (Said l)), if l then false else locked, [])
  | Leaving o => (in_world a (Done o) (Irq.drop (guard a) (world a)) (guard a), locked, [])
  | Done _ => (a, locked, [])
  end.

(** The next action is a poll of the flag register. *)
Definition polling (a : Act) : bool := match pc a with Printing _ false (_ :: _) => true | _ => false end.

Definition set_current (f : Z -> option nat) (c : Z) (o : option nat) : Z -> option nat := fun x => if x =? c then o else f x.

Definition call (c : Z) (t : list Z) (w : Irq.World Irq.Core) (par : option nat) (s : St) : St :=
  {| lock := lock s; ops := ops s; wire := wire s;
     acts := acts s ++ [{| core := c; text := t; pc := Start; world := w; guard := None; parent := par |}];
     current := set_current (current s) c (Some (length (acts s))) |}.
Definition switch (c : Z) (i : nat) (s : St) : St :=
  {| lock := lock s; ops := ops s; wire := wire s; acts := acts s; current := set_current (current s) c (Some i) |}.
Definition run (full : bool) (i : nat) (a : Act) (s : St) : St :=
  let '(a', l, bs) := turn full (lock s) (ops s) a in
  {| lock := l; ops := ops s; wire := wire s ++ map (pair i) bs; acts := <[i := a']> (acts s); current := current s |}.

Definition masked (a : Act) : bool := Irq.irqs_masked (Irq.cpu (world a)).

(** The core may turn to something else: nothing printing, or an activation that is
    over, or one whose context takes interrupts. *)
Definition free (s : St) (c : Z) : Prop :=
  match current s c with
  | None => True
  | Some i => exists a, acts s !! i = Some a /\ (masked a = false \/ (exists o, pc a = Done o) /\ parent a = None)
  end.

(** [Turn i true] is a poll of activation [i] that found the FIFO full. *)
Inductive label := Turn (i : nat) (full : bool) | Other.

(** A call in a thread or in an interrupt handler; a switch between contexts; a
    fault inside an activation, whose handler runs masked and returns to it;
    the registration of the writer; an action of the activation that has its core, with
    any answer of the device. *)
Inductive step (s : St) : label -> St -> Prop :=
  | s_call c t w : free s c -> Irq.IRQ_OPS w = Some Irq.aarch64_ops -> step s Other (call c t w None s)
  | s_switch c i a : free s c -> acts s !! i = Some a -> core a = c -> step s Other (switch c i s)
  | s_fault c i t w : current s c = Some i -> Irq.IRQ_OPS w = Some Irq.aarch64_ops -> Irq.irqs_masked (Irq.cpu w) = true ->
      step s Other (call c t w (Some i) s)
  | s_return c i a o j : current s c = Some i -> acts s !! i = Some a -> pc a = Done o -> parent a = Some j -> step s Other (switch c j s)
  | s_ops : step s Other {| lock := lock s; ops := true; wire := wire s; acts := acts s; current := current s |}
  | s_turn c i a full : current s c = Some i -> acts s !! i = Some a -> step s (Turn i (full && polling a)) (run full i a s).

Inductive steps (s : St) : list label -> St -> Prop :=
  | steps_nil : steps s [] s
  | steps_snoc ls s' l s'' : steps s ls s' -> step s' l s'' -> steps s (ls ++ [l]) s''.

Definition idle (registered : bool) : St := {| lock := false; ops := registered; wire := []; acts := []; current := fun _ => None |}.

(** ** The output of each activation *)

Definition out (s : St) (i : nat) : list Z := map snd (filter (fun p => p.1 = i) (wire s)).

(** What it still has to write. *)
Definition act_ok (o : list Z) (a : Act) : Prop :=
  match pc a with
  | Start | Guarded | Leaving Dropped | Done Dropped => o = []
  | Trying n => o = [] /\ 1 <= n <= ATTEMPTS
  | Printing _ _ r => o ++ r = icook (text a)
  | Leaving (Said _) | Done (Said _) => o = icook (text a)
  end.

Definition holds (a : Act) : Prop := exists rd r, pc a = Printing true rd r.
Definition inside (a : Act) : bool := match pc a with Start | Done _ => false | _ => true end.

(** The context: hooks registered; masked while the guard lives. *)
Definition ctx_ok (a : Act) : Prop :=
  Irq.IRQ_OPS (world a) = Some Irq.aarch64_ops /\ (inside a = true -> masked a = true).

Definition lock_ok (s : St) : Prop :=
  (lock s = false -> forall i a, acts s !! i = Some a -> ~ holds a) /\
  (forall i j a b, acts s !! i = Some a -> acts s !! j = Some b -> holds a -> holds b -> i = j).

Record ok (s : St) : Prop := {
  ok_acts : forall i a, acts s !! i = Some a -> act_ok (out s i) a /\ ctx_ok a;
  ok_fresh : forall i, (length (acts s) <= i)%nat -> out s i = [];
  ok_lock : lock_ok s;
}.

Lemma out_app s i j bs l o a c : out {| lock := l; ops := o; wire := wire s ++ map (pair i) bs; acts := a; current := c |} j =
  if decide (i = j) then out s j ++ bs else out s j.
Proof.
  unfold out; cbn [wire]; rewrite filter_app, map_app; destruct (decide (i = j)) as [->|Hne].
  - f_equal; induction bs as [|b bs IH]; [done|]; cbn [map]; rewrite filter_cons_True by done; cbn [map snd]; by f_equal.
  - rewrite <- (app_nil_r (map snd (filter _ (wire s)))) at 2; f_equal; induction bs as [|b bs IH]; [done|]; cbn [map]; by rewrite filter_cons_False.
Qed.

(** ** One action *)
Section action.
Context (fu lk reg : bool) (a : Act).
#[local] Notation a' := (turn fu lk reg a).1.1.
#[local] Notation lk' := (turn fu lk reg a).1.2.
#[local] Notation bs := (turn fu lk reg a).2.

Ltac turn_cases := unfold turn, iprint_trylock; destruct (pc a) as [| |n|l rd [|b r]|oc|oc] eqn:Ep; cbn [fst snd];
  [destruct (Irq.new (world a)) as [g w] eqn:En|destruct reg|destruct lk; [destruct (Z.leb_spec n 1)|]|destruct rd, l|destruct rd| |]; cbn [fst snd].

Lemma turn_same : core a' = core a /\ text a' = text a /\ parent a' = parent a.
Proof. turn_cases; done. Qed.

Lemma turn_act_ok o : act_ok o a -> act_ok (o ++ bs) a'.
Proof.
  unfold act_ok at 1; turn_cases; unfold act_ok; cbn [pc at_pc in_world text]; rewrite ?app_nil_r; try done; try (intros; by rewrite Ep).
  - by intros [-> _].
  - intros [-> Hn]; split; [done|lia].
  - by intros [-> _].
  - by rewrite <- app_assoc.
Qed.

Lemma turn_ctx_ok : ctx_ok a -> ctx_ok a'.
Proof.
  intros [Ho Hm]; unfold ctx_ok, inside, masked in *; turn_cases; cbn [pc at_pc in_world world]; rewrite ?Ep in Hm; try by split; [|intros; apply Hm].
  - unfold Irq.new in En; rewrite Ho in En; cbn in En; injection En as <- <-; split; [done|]; intros _.
    exact (Irq.mask_masks (MaskLaws := Irq.aarch64_laws) (Irq.cpu (world a))).
  - split; [|done]; unfold Irq.drop; rewrite Ho; by destruct (guard a).
  - by rewrite Ep.
Qed.

Lemma turn_acquires : holds a' -> holds a \/ lk = false.
Proof.
  unfold holds; turn_cases; cbn [pc at_pc in_world]; intros (rd' & r' & Hr); rewrite ?Ep in *; try discriminate Hr; try (by right); left; try (by eexists _, _).
  all: injection Hr as -> _ _; by eexists _, _.
Qed.

Lemma turn_releases : (lk = false -> ~ holds a) -> lk' = false -> ~ holds a' /\ (lk = false \/ holds a).
Proof.
  unfold holds; turn_cases; cbn [pc at_pc in_world]; rewrite ?Ep; intros HL Hl; try discriminate Hl; (split; [intros (rd' & r' & Hr); rewrite ?Ep in Hr; try discriminate Hr|]); eauto.
  all: injection Hr as -> _ _; apply (HL Hl); by eexists _, _.
Qed.
End action.

Lemma call_lookup c t w par s i a : acts (call c t w par s) !! i = Some a ->
  acts s !! i = Some a \/ i = length (acts s) /\ core a = c /\ text a = t /\ pc a = Start /\ world a = w /\ parent a = par.
Proof.
  cbn [call acts]; rewrite lookup_app; destruct (acts s !! i) eqn:E; [by left|]; intros H; right.
  apply lookup_ge_None in E; apply list_lookup_singleton_Some in H as [Hi <-]; split; [lia|done].
Qed.

Lemma run_lookup fu i a s j b : acts s !! i = Some a -> acts (run fu i a s) !! j = Some b ->
  j = i /\ b = (turn fu (lock s) (ops s) a).1.1 \/ j <> i /\ acts s !! j = Some b.
Proof.
  intros Hi; unfold run; destruct (turn fu (lock s) (ops s) a) as [[a' l] bs]; cbn [acts fst]; intros H.
  destruct (decide (j = i)) as [->|Hne]; [left|right]; (split; [done|]).
  - rewrite list_lookup_insert_eq in H by (by eapply lookup_lt_Some); by injection H.
  - by rewrite list_lookup_insert_ne in H.
Qed.

Lemma run_out fu i a s j : out (run fu i a s) j = if decide (i = j) then out s j ++ (turn fu (lock s) (ops s) a).2 else out s j.
Proof. unfold run; destruct (turn fu (lock s) (ops s) a) as [[a' l] bs]; apply out_app. Qed.

Lemma run_length fu i a s : length (acts (run fu i a s)) = length (acts s).
Proof. unfold run; destruct (turn fu (lock s) (ops s) a) as [[a' l] bs]; apply length_insert. Qed.

Lemma call_ok c t w par s : Irq.IRQ_OPS w = Some Irq.aarch64_ops -> ok s -> ok (call c t w par s).
Proof.
  intros Hw [Ha Hf [L1 L2]]; split.
  - intros i a [Hi|(-> & _ & _ & Hp & Hww & _)]%call_lookup; [by apply Ha|]; split; [unfold act_ok; rewrite Hp; by apply Hf|].
    unfold ctx_ok, inside; by rewrite Hww, Hp.
  - intros i Hi; apply Hf; cbn [call acts] in Hi; rewrite length_app in Hi; lia.
  - assert (Hn : forall i a, acts (call c t w par s) !! i = Some a -> holds a -> acts s !! i = Some a)
      by (intros i a [Hi|(_ & _ & _ & Hp & _)]%call_lookup; [done|intros (rd & r & Hr); congruence]).
    split; [intros Hl i a Hi Hh; by apply (L1 Hl i a (Hn i a Hi Hh))|intros i j a b Hi Hj Hh Hh'; by apply (L2 i j a b (Hn _ _ Hi Hh) (Hn _ _ Hj Hh'))].
Qed.

Lemma run_ok fu i a s : acts s !! i = Some a -> ok s -> ok (run fu i a s).
Proof.
  intros Hi [Ha Hf [L1 L2]]; split.
  - intros j b [[-> ->]|[Hne Hj]]%(run_lookup fu i a s j b Hi); rewrite run_out.
    + rewrite decide_True by done; destruct (Ha i a Hi); split; [by apply turn_act_ok|by apply turn_ctx_ok].
    + rewrite decide_False by done; by apply Ha.
  - intros j Hj; rewrite run_length in Hj; rewrite run_out, decide_False; [by apply Hf|]; apply lookup_lt_Some in Hi; lia.
  - assert (El : lock (run fu i a s) = (turn fu (lock s) (ops s) a).1.2) by (unfold run; by destruct (turn _ _ _ a) as [[? ?] ?]); split.
    + rewrite El; intros Hl j b Hj; destruct (turn_releases _ _ _ a (fun H => L1 H i a Hi) Hl) as [Hn Hc].
      apply (run_lookup fu i a s j b Hi) in Hj as [[-> ->]|[Hne Hj]]; [done|]; intros Hb; destruct Hc as [Hc|Hc]; [by apply (L1 Hc j b)|by apply Hne, (L2 j i b a)].
    + intros j k b d Hj Hk Hb Hd.
      apply (run_lookup fu i a s j b Hi) in Hj as [[-> ->]|[Hne Hj]]; apply (run_lookup fu i a s k d Hi) in Hk as [[-> ->]|[Hne' Hk]]; [done|..].
      * apply turn_acquires in Hb as [Hb|Hb]; [by apply (L2 i k a d)|by destruct (L1 Hb k d Hk)].
      * apply turn_acquires in Hd as [Hd|Hd]; [by apply (L2 j i b a)|by destruct (L1 Hd j b Hj)].
      * by apply (L2 j k b d).
Qed.

Lemma step_ok s l s' : step s l s' -> ok s -> ok s'.
Proof. destruct 1; intros Hok; [by apply call_ok|destruct Hok; by split|by apply call_ok|destruct Hok; by split|destruct Hok; by split|by apply run_ok]. Qed.

Lemma steps_ok s ls s' : steps s ls s' -> ok s -> ok s'.
Proof. induction 1 as [|ls s' l s'' _ IH Hs]; [done|]; intros H; eapply step_ok; [exact Hs|by apply IH]. Qed.

Lemma idle_ok registered : ok (idle registered).
Proof. split; [intros i a H; discriminate H|done|split; [intros _ i a H; discriminate H|intros i j a b H; discriminate H]]. Qed.


(** ** Who has a core *)

Definition no_faults (s : St) : Prop := forall i a, acts s !! i = Some a -> parent a = None.

Record placed (s : St) : Prop := {
  pl_current : forall c i, current s c = Some i -> exists a, acts s !! i = Some a /\ core a = c;
  pl_parent : forall i a j, acts s !! i = Some a -> parent a = Some j -> exists b, acts s !! j = Some b /\ core b = core a;
  pl_inside : no_faults s -> forall i a, acts s !! i = Some a -> inside a = true -> current s (core a) = Some i;
}.

Lemma set_current_Some f c o x i : set_current f c o x = Some i -> x = c /\ o = Some i \/ x <> c /\ f x = Some i.
Proof. unfold set_current; destruct (Z.eqb_spec x c); auto. Qed.

(** An activation inside its guard keeps its core. *)
Lemma free_inside s c i a : ok s -> placed s -> no_faults s -> free s c -> acts s !! i = Some a -> inside a = true -> core a <> c.
Proof.
  intros O L N F Hi Hin <-; unfold free in F; rewrite (pl_inside s L N i a Hi Hin) in F; destruct F as (b & Hb & F); rewrite Hi in Hb; injection Hb as <-.
  destruct (ok_acts s O i a Hi) as [_ [_ Hm]]; destruct F as [F|[[o F] _]]; [rewrite Hm in F by done; discriminate F|unfold inside in Hin; by rewrite F in Hin].
Qed.

Lemma lookup_call c t w par s i a : acts s !! i = Some a -> acts (call c t w par s) !! i = Some a.
Proof. intros H; by apply lookup_app_l_Some. Qed.

Lemma call_placed c t w par s : ok s -> placed s ->
  (par = None -> free s c) -> (forall j, par = Some j -> exists b, acts s !! j = Some b /\ core b = c) -> placed (call c t w par s).
Proof.
  intros O L Hf Hp; split.
  - intros x i [[-> [= <-]]|[Hne Hx]]%set_current_Some.
    + eexists; split; [by apply list_lookup_middle|done].
    + destruct (pl_current s L x i Hx) as (a & Ha & Hc); exists a; split; [by apply lookup_call|done].
  - intros i a j [Hi|(_ & Hc & _ & _ & _ & Hpa)]%call_lookup Hj.
    + destruct (pl_parent s L i a j Hi Hj) as (b & Hb & E); exists b; split; [by apply lookup_call|done].
    + rewrite Hj in Hpa; destruct (Hp j (eq_sym Hpa)) as (b & Hb & E); exists b; split; [by apply lookup_call|congruence].
  - intros N i a [Hi|(_ & _ & _ & Hpc & _)]%call_lookup Hin; [|unfold inside in Hin; by rewrite Hpc in Hin].
    assert (N' : no_faults s) by (intros k b Hk; by apply (N k b), lookup_call).
    assert (Hpn : par = None) by (apply (N (length (acts s)) {| core := c; text := t; pc := Start; world := w; guard := None; parent := par |}); by apply list_lookup_middle).
    pose proof (free_inside s c i a O L N' (Hf Hpn) Hi Hin); cbn [call current]; unfold set_current; rewrite (proj2 (Z.eqb_neq _ _)) by done; by apply (pl_inside s L).
Qed.

Lemma switch_placed c j b s : placed s -> acts s !! j = Some b -> core b = c ->
  (no_faults s -> forall i a, acts s !! i = Some a -> inside a = true -> core a <> c \/ i = j) -> placed (switch c j s).
Proof.
  intros L Hj Hc Hin; split.
  - intros x i [[-> [= <-]]|[Hne Hx]]%set_current_Some; [by exists b|by apply L].
  - apply L.
  - intros N i a Hi Ha; cbn [switch current]; unfold set_current; destruct (Hin N i a Hi Ha) as [Hne|Heq].
    + rewrite (proj2 (Z.eqb_neq _ _)) by done; by apply (pl_inside s L).
    + subst i; cbn [switch acts] in Hi; rewrite Hj in Hi; injection Hi as <-; by rewrite Hc, Z.eqb_refl.
Qed.

Lemma run_lookup_other fu i a s j b : acts s !! i = Some a -> acts s !! j = Some b ->
  exists b', acts (run fu i a s) !! j = Some b' /\ core b' = core b /\ text b' = text b /\ parent b' = parent b.
Proof.
  intros Hi Hj; unfold run; destruct (turn fu (lock s) (ops s) a) as [[a' l] bs] eqn:E; cbn [acts]; destruct (turn_same fu (lock s) (ops s) a) as (T1 & T2 & T3); rewrite E in T1, T2, T3; cbn in *.
  destruct (decide (i = j)) as [->|Hne]; [|exists b; by rewrite list_lookup_insert_ne].
  rewrite Hi in Hj; injection Hj as <-; exists a'; by rewrite list_lookup_insert_eq by (by eapply lookup_lt_Some).
Qed.

Lemma run_current fu i a s : current (run fu i a s) = current s.
Proof. unfold run; by destruct (turn _ _ _ a) as [[? ?] ?]. Qed.

Lemma run_placed fu c i a s : current s c = Some i -> acts s !! i = Some a -> placed s -> placed (run fu i a s).
Proof.
  intros Hc Hi L; destruct (turn_same fu (lock s) (ops s) a) as (T1 & T2 & T3); split; rewrite ?run_current.
  - intros x k Hx; destruct (pl_current s L x k Hx) as (b & Hb & E); destruct (run_lookup_other fu i a s k b Hi Hb) as (b' & Hb' & E1 & _); exists b'; split; [done|congruence].
  - intros k b j Hk Hj; assert (Hk' : exists d, acts s !! k = Some d /\ core d = core b /\ parent d = parent b)
      by (apply (run_lookup fu i a s k b Hi) in Hk as [[-> ->]|[_ Hk]]; [by exists a|by exists b]).
    destruct Hk' as (d & Hd & E1 & E2); destruct (pl_parent s L k d j Hd) as (e & He & E3); [congruence|].
    destruct (run_lookup_other fu i a s j e Hi He) as (e' & He' & E4 & _); exists e'; split; [done|congruence].
  - intros N k b Hk Hin; assert (N' : no_faults s) by (intros x d Hx; destruct (run_lookup_other fu i a s x d Hi Hx) as (d' & Hd' & _ & _ & <-); by apply (N x d')).
    apply (run_lookup fu i a s k b Hi) in Hk as [[-> ->]|[Hne Hk]]; [|by apply (pl_inside s L N')].
    destruct (pl_current s L c i Hc) as (a0 & Ha0 & Hca); rewrite Hi in Ha0; injection Ha0 as <-; by rewrite T1, Hca.
Qed.

Lemma step_placed s l s' : step s l s' -> ok s -> placed s -> placed s'.
Proof.
  destruct 1 as [c t w F Hw|c i a F Hi Hc|c i t w Hc Hw Hm|c i a o j Hc Hi Hd Hp| |c i a fu Hc Hi]; intros O L.
  - by apply call_placed.
  - apply (switch_placed c i a); [done..|]; intros N k b Hk Hin; left; by apply (free_inside s c k b).
  - apply call_placed; [done..|]; intros j [= <-]; by apply L.
  - destruct (pl_parent s L i a j Hi Hp) as (b & Hb & E); apply (switch_placed c j b); [done..| |].
    + destruct (pl_current s L c i Hc) as (a0 & Ha0 & Hca); rewrite Hi in Ha0; injection Ha0 as <-; congruence.
    + intros N; by rewrite (N i a Hi) in Hp.
  - destruct L; by split.
  - by apply (run_placed fu c).
Qed.


(** ** Whole messages *)

(** It did not get the interlock in its million attempts. *)
Definition gave_up (a : Act) : bool := match pc a with Printing false _ _ | Leaving (Said false) | Done (Said false) => true | _ => false end.

Definition whole (fin : list (nat * list Z)) : list (nat * Z) := concat (map (fun '(i, t) => map (pair i) (icook t)) fin).

(** The texts written so far one after the other and, while the interlock is held,
    the part its holder has written. *)
Definition blocks (s : St) : Prop := exists fin,
  Forall (fun '(i, t) => exists a, acts s !! i = Some a /\ text a = t) fin /\
  ((forall i a, acts s !! i = Some a -> ~ holds a) /\ wire s = whole fin \/
   exists h a, acts s !! h = Some a /\ holds a /\ wire s = whole fin ++ map (pair h) (out s h)).

Lemma turn_gave_up fu lk reg a : gave_up a = true -> gave_up (turn fu lk reg a).1.1 = true.
Proof. unfold gave_up, turn; destruct (pc a) as [| |n|[] [] [|b r]|[|[]]|[|[]]] eqn:E; cbn; rewrite ?E; done. Qed.

(** What one action of an activation that has not given up does. *)
Lemma turn_quiet fu lk reg a : gave_up (turn fu lk reg a).1.1 = false ->
  (~ holds a /\ ~ holds (turn fu lk reg a).1.1 /\ (turn fu lk reg a).2 = []) \/
  ((exists n, pc a = Trying n) /\ lk = false /\ holds (turn fu lk reg a).1.1 /\ (turn fu lk reg a).2 = []) \/
  (holds a /\ holds (turn fu lk reg a).1.1) \/
  ((exists rd, pc a = Printing true rd []) /\ ~ holds (turn fu lk reg a).1.1 /\ (turn fu lk reg a).2 = []).
Proof.
  unfold gave_up, holds, turn, iprint_trylock; destruct (pc a) as [| |n|l rd [|b r]|oc|oc] eqn:E; cbn [fst snd];
    [destruct (Irq.new (world a))|destruct reg|destruct lk; [destruct (n <=? 1)|]|destruct rd, l|destruct rd, l| |]; cbn [fst snd pc at_pc in_world]; rewrite ?E; intros Hg; try discriminate Hg;
    try (left; split_and!; [intros (rd' & r' & Hr); discriminate Hr..|done]).
  - right; left; split_and!; [by exists n|done|by eexists _, _|done].
  - right; right; right; split_and!; [by eexists|intros (rd' & r' & Hr); discriminate Hr|done].
  - right; right; right; split_and!; [by eexists|intros (rd' & r' & Hr); discriminate Hr|done].
  - right; right; left; split; by eexists _, _.
  - right; right; left; split; by eexists _, _.
Qed.

Lemma Forall_texts s s' fin : (forall i a, acts s !! i = Some a -> exists a', acts s' !! i = Some a' /\ text a' = text a) ->
  Forall (fun '(i, t) => exists a, acts s !! i = Some a /\ text a = t) fin -> Forall (fun '(i, t) => exists a, acts s' !! i = Some a /\ text a = t) fin.
Proof. intros H Hf; eapply Forall_impl; [exact Hf|]; intros [i t] (a & Ha & <-); destruct (H i a Ha) as (a' & Ha' & E); by exists a'. Qed.

Lemma run_wire fu i a s : wire (run fu i a s) = wire s ++ map (pair i) (turn fu (lock s) (ops s) a).2.
Proof. unfold run; by destruct (turn _ _ _ a) as [[? ?] ?]. Qed.

Lemma run_self fu i a s : acts s !! i = Some a -> acts (run fu i a s) !! i = Some (turn fu (lock s) (ops s) a).1.1.
Proof. intros Hi; unfold run; destruct (turn _ _ _ a) as [[? ?] ?]; cbn [acts fst]; apply list_lookup_insert_eq; by eapply lookup_lt_Some. Qed.

Lemma run_blocks fu i a s : acts s !! i = Some a -> ok s -> gave_up (turn fu (lock s) (ops s) a).1.1 = false -> blocks s -> blocks (run fu i a s).
Proof.
  intros Hi O Hg (fin & Hfin & Hb); pose proof (ok_lock s O) as [L1 L2].
  assert (Htx : forall j b, acts s !! j = Some b -> exists b', acts (run fu i a s) !! j = Some b' /\ text b' = text b)
    by (intros j b Hj; destruct (run_lookup_other fu i a s j b Hi Hj) as (b' & Hb' & _ & E & _); by exists b').
  pose proof (Forall_texts s (run fu i a s) fin Htx Hfin) as Hfin'; pose proof (run_self fu i a s Hi) as Hi'.
  destruct (turn_quiet _ _ _ a Hg) as [(N1 & N2 & Eb)|[((n & Et) & El & Hh & Eb)|[(Hh & Hh')|(Ep & N & Eb)]]]; unfold blocks; rewrite run_wire; setoid_rewrite run_out.
  - rewrite Eb, app_nil_r; exists fin; split; [done|]; destruct Hb as [[Hn Hw]|(h & d & Hd & Hh & Hw)]; [left|right].
    + split; [|done]; intros j b [[-> ->]|[_ Hj]]%(run_lookup fu i a s j b Hi); [done|by apply (Hn j)].
    + assert (h <> i) by (intros ->; rewrite Hi in Hd; injection Hd as <-; done).
      exists h, d; rewrite decide_False by done; split; [|done]; unfold run; destruct (turn _ _ _ a) as [[? ?] ?]; cbn [acts]; by rewrite list_lookup_insert_ne.
  - destruct Hb as [[Hn Hw]|(h & d & Hd & Hh' & Hw)]; [|by destruct (L1 El h d Hd)].
    destruct (ok_acts s O i a Hi) as [Ha _]; unfold act_ok in Ha; rewrite Et in Ha; destruct Ha as [Ho _].
    exists fin; split; [done|]; right; exists i, (turn fu (lock s) (ops s) a).1.1; rewrite decide_True, Ho, Eb by done; split_and!; [done|done|by rewrite Hw].
  - destruct Hb as [[Hn Hw]|(h & d & Hd & Hhd & Hw)]; [by destruct (Hn i a Hi)|]; assert (h = i) as -> by (by apply (L2 h i d a)).
    exists fin; split; [done|]; right; exists i, (turn fu (lock s) (ops s) a).1.1; rewrite decide_True by done; split_and!; [done|done|by rewrite Hw, map_app, app_assoc].
  - assert (Hh : holds a) by (destruct Ep as [rd Ep]; by exists rd, []).
    destruct Hb as [[Hn Hw]|(h & d & Hd & Hhd & Hw)]; [by destruct (Hn i a Hi)|]; assert (h = i) as -> by (by apply (L2 h i d a)).
    destruct (ok_acts s O i a Hi) as [Ha _]; destruct Ep as [rd Ep]; unfold act_ok in Ha; rewrite Ep, app_nil_r in Ha; rewrite Eb, app_nil_r.
    exists (fin ++ [(i, text a)]); split; [apply Forall_app; split; [done|]; constructor; [|constructor]; by apply Htx|]; left; split.
    + intros j b [[-> ->]|[Hne Hj]]%(run_lookup fu i a s j b Hi); [done|]; intros Hhb; by apply Hne, (L2 j i b a).
    + unfold whole; rewrite map_app, concat_app; cbn [map concat]; by rewrite app_nil_r, <- Ha, Hw.
Qed.

Definition patient (s : St) : Prop := forall i a, acts s !! i = Some a -> gave_up a = false.

Lemma same_blocks s s' : wire s' = wire s -> (forall i a, acts s !! i = Some a -> acts s' !! i = Some a) ->
  (forall i a, acts s' !! i = Some a -> holds a -> acts s !! i = Some a) -> blocks s -> blocks s'.
Proof.
  intros Hw Hsub Hh (fin & Hf & Hb); exists fin; split; [apply (Forall_texts s s'); [intros i a Hi; exists a; split; [by apply Hsub|done]|done]|].
  assert (Ho : forall i, out s' i = out s i) by (intros; unfold out; by rewrite Hw); destruct Hb as [[Hn E]|(h & a & Ha & Hha & E)]; [left|right].
  - split; [intros i a Hi H; by apply (Hn i a (Hh i a Hi H))|congruence].
  - exists h, a; rewrite Ho; split_and!; [by apply Hsub|done|congruence].
Qed.

Lemma call_blocks c t w par s : blocks s -> blocks (call c t w par s).
Proof.
  apply same_blocks; [done|intros; by apply lookup_call|]; intros i a [Hi|(_ & _ & _ & Hp & _)]%call_lookup (rd & r & Hr); [done|congruence].
Qed.

Lemma step_blocks s l s' : step s l s' -> ok s -> (patient s -> blocks s) -> patient s' -> blocks s'.
Proof.
  destruct 1 as [c t w F Hw|c i a F Hi Hc|c i t w Hc Hw Hm|c i a o j Hc Hi Hd Hp| |c i a fu Hc Hi]; intros O IH Hp'.
  1,3: apply call_blocks, IH; intros k b Hk; by apply (Hp' k b), lookup_call.
  1,2,3: by apply (same_blocks s); [done..|apply IH].
  apply run_blocks; [done|done|by apply (Hp' i), run_self|]; apply IH; intros k b Hk; destruct (decide (k = i)) as [->|Hne].
  - rewrite Hi in Hk; injection Hk as <-; apply not_true_is_false; intros Hg; apply (turn_gave_up fu (lock s) (ops s)) in Hg.
    by rewrite (Hp' i _ (run_self fu i a s Hi)) in Hg.
  - apply (Hp' k); unfold run; destruct (turn _ _ _ a) as [[? ?] ?]; cbn [acts]; by rewrite list_lookup_insert_ne.
Qed.


(** ** The interlock *)

(** With the writer registered no text is dropped. *)
Definition heard (s : St) : Prop := ops s = true /\ forall i a, acts s !! i = Some a -> pc a <> Leaving Dropped /\ pc a <> Done Dropped.

Lemma step_heard s l s' : step s l s' -> heard s -> heard s'.
Proof.
  destruct 1 as [c t w F Hw|c i a F Hi Hc|c i t w Hc Hw Hm|c i a o j Hc Hi Hd Hp| |c i a fu Hc Hi]; intros [Ho Ha]; try by split.
  1,2: split; [done|]; intros k b [Hk|(_ & _ & _ & -> & _)]%call_lookup; [by apply (Ha k)|by split].
  split; [unfold run; by destruct (turn _ _ _ a) as [[? ?] ?]|]; intros k b [[-> ->]|[_ Hk]]%(run_lookup fu i a s k b Hi); [|by apply (Ha k)].
  destruct (Ha i a Hi) as [H1 H2]; unfold turn, iprint_trylock; rewrite Ho; destruct (pc a) as [| |n|l [] [|b r]|oc|oc] eqn:E; cbn [fst snd];
    [destruct (Irq.new (world a))|..|]; cbn [fst snd pc at_pc in_world]; rewrite ?E; try (by split); [|split; congruence].
  destruct (lock s); [destruct (n <=? 1)|]; by split.
Qed.

Lemma reachable registered ls s : steps (idle registered) ls s -> ok s /\ placed s /\ (patient s -> blocks s) /\ (registered = true -> heard s).
Proof.
  intros H; remember (idle registered) as s0 eqn:E; induction H as [|ls s1 l s2 _ IH Hs].
  - subst; split_and!; [apply idle_ok|split; [done|intros i a j H; discriminate H|intros _ i a H; discriminate H]| |intros ->; by split].
    intros _; exists []; split; [constructor|]; left; split; [intros i a H; discriminate H|done].
  - destruct IH as (I1 & I2 & I3 & I4); split_and!; [by eapply step_ok|by eapply step_placed|by eapply step_blocks|intros Hr; by eapply step_heard, I4].
Qed.

(** C39: the interlock of [iprint!], for every interleaving of any number of cores,
    with interrupts and with faults inside an activation: what an activation has
    written is a prefix of its text with a carriage return before each newline, and
    the whole of it when it is done (nothing, if no writer was registered); at
    most one activation holds the interlock; without faults no activation waits for
    an interlock that its own core holds; and as long as nobody has run out of its
    million attempts, the output is a sequence of whole texts and the part that the
    holder has written. *)
Theorem iprint_interlock (registered : bool) (ls : list label) (s : St) (Hs : steps (idle registered) ls s) :
  (forall i a, acts s !! i = Some a -> (exists r, out s i ++ r = icook (text a)) /\
     (forall l, pc a = Done (Said l) -> out s i = icook (text a)) /\ (registered = true -> pc a <> Done Dropped)) /\
  (forall i j a b, acts s !! i = Some a -> acts s !! j = Some b -> holds a -> holds b -> i = j) /\
  (no_faults s -> forall i j a b n, acts s !! i = Some a -> acts s !! j = Some b -> holds a -> pc b = Trying n -> core a <> core b) /\
  (patient s -> blocks s).
Proof.
  destruct (reachable registered ls s Hs) as (O & L & B & Hh); split_and!; [|apply O| |done].
  - intros i a Hi; destruct (ok_acts s O i a Hi) as [Ha _]; split_and!; [|intros l Hl; unfold act_ok in Ha; by rewrite Hl in Ha|intros Hr; by apply (proj2 (Hh Hr) i)].
    unfold act_ok in Ha; destruct (pc a) as [| |n|l rd r|[|l]|[|l]]; try (rewrite Ha; by eexists); try (exists []; by rewrite app_nil_r); [destruct Ha as [-> _]; by eexists|by exists r].
  - intros N i j a b n Hi Hj (rd & r & Hr) Hb Hc.
    assert (Ii : inside a = true) by (unfold inside; by rewrite Hr); assert (Ij : inside b = true) by (unfold inside; by rewrite Hb).
    pose proof (pl_inside s L N i a Hi Ii) as E1; pose proof (pl_inside s L N j b Hj Ij) as E2; rewrite Hc, E2 in E1; injection E1 as ->; congruence.
Qed.

(** ** No waiting *)

(** The actions an activation can still take, polls that find the FIFO full apart: a
    poll and a write for each byte. *)
Definition weight (a : Act) : Z :=
  match pc a with
  | Start => ATTEMPTS + 2 * len (icook (text a)) + 4
  | Guarded => ATTEMPTS + 2 * len (icook (text a)) + 3
  | Trying n => n + 2 * len (icook (text a)) + 2
  | Printing _ true (_ :: r) => 2 * len r + 3
  | Printing _ _ r => 2 * len r + 2
  | Leaving _ => 1
  | Done _ => 0
  end.

(** Its actions in a run, without those polls. *)
Fixpoint turns (i : nat) (ls : list label) : Z :=
  match ls with [] => 0 | Turn j full :: ls' => (if decide (i = j) then if full then 0 else 1 else 0) + turns i ls' | Other :: ls' => turns i ls' end.

Lemma turns_app i l1 l2 : turns i (l1 ++ l2) = turns i l1 + turns i l2.
Proof. induction l1 as [|[j f|] l1 IH]; cbn [app turns]; lia. Qed.

Lemma turn_weight fu lk reg a o : act_ok o a -> weight (turn fu lk reg a).1.1 <= Z.max 0 (weight a - (if fu && polling a then 0 else 1)).
Proof.
  unfold act_ok, weight, turn, iprint_trylock, polling; assert (0 <= len (icook (text a))) by (unfold len; lia).
  destruct (pc a) as [| |n|l rd [|b r]|oc|oc] eqn:E; cbn [fst snd];
    [destruct (Irq.new (world a))|destruct reg|destruct lk; [destruct (n <=? 1)|]|destruct rd|destruct rd, fu|..]; cbn [fst snd pc at_pc in_world text negb]; rewrite ?E, ?andb_false_r; unfold ATTEMPTS in *; try lia.
  all: intros; unfold len in *; cbn [length andb] in *; lia.
Qed.

Lemma steps_weight s ls s' i a : steps s ls s' -> ok s -> acts s !! i = Some a ->
  exists a', acts s' !! i = Some a' /\ weight a' <= Z.max 0 (weight a - turns i ls).
Proof.
  intros Hs O Hi; induction Hs as [|ls s1 l s2 Hls IH Hs]; [exists a; split; [done|cbn; lia]|]; destruct IH as (a1 & H1 & W); rewrite turns_app.
  pose proof (steps_ok _ _ _ Hls O) as O1; destruct Hs as [c t w _ _|c k b _ _ _|c k t w _ _ _|c k b o j _ _ _ _| |c k b fu _ Hk]; cbn [turns];
    try (exists a1; split; [first [done|by apply lookup_call]|lia]).
  destruct (decide (i = k)) as [<-|Hne].
  - rewrite H1 in Hk; injection Hk as <-; exists (turn fu (lock s1) (ops s1) a1).1.1; split; [by apply run_self|].
    pose proof (turn_weight fu (lock s1) (ops s1) a1 _ (proj1 (ok_acts s1 O1 i a1 H1))); destruct (fu && polling a1); lia.
  - exists a1; split; [|lia]; unfold run; destruct (turn _ _ _ b) as [[? ?] ?]; cbn [acts]; by rewrite list_lookup_insert_ne.
Qed.

Lemma icook_length t : len (icook t) <= 2 * len t.
Proof.
  unfold icook, len; induction t as [|b t IH]; [done|]; cbn [map concat length]; rewrite length_app; unfold Co.icook1 at 1; destruct (b =? 10); cbn [length]; lia.
Qed.

(** C40: [iprint!] never waits for another core to release the interlock: apart from
    the polls that find the transmit FIFO full, an activation is over after a million and
    four actions of its own and four for each byte of its text, whatever the other
    cores do meanwhile, even if the interlock is never released.  The polls of [putb]
    are the one loop without a bound: they go on while the FIFO is full. *)
Theorem iprint_wait_free (registered : bool) (ls1 ls2 : list label) (s s' : St) (i : nat) (a : Act)
    (H1 : steps (idle registered) ls1 s) (Hi : acts s !! i = Some a) (H2 : steps s ls2 s') (Hn : ATTEMPTS + 4 + 4 * len (text a) <= turns i ls2) :
  exists a' o, acts s' !! i = Some a' /\ pc a' = Done o.
Proof.
  destruct (reachable registered ls1 s H1) as (O & _); destruct (steps_weight s ls2 s' i a H2 O Hi) as (a' & Ha' & W).
  assert (Hw : weight a <= ATTEMPTS + 4 + 2 * len (icook (text a))).
  { pose proof (proj1 (ok_acts s O i a Hi)) as Ha; unfold weight; unfold act_ok in Ha; assert (0 <= len (icook (text a))) by (unfold len; lia); unfold ATTEMPTS in *.
    destruct (pc a) as [| |n|l rd r|[|l]|[|l]]; try lia; rewrite <- Ha; unfold len; rewrite length_app; destruct rd, r; cbn [length]; lia. }
  pose proof (icook_length (text a)); assert (W0 : weight a' <= 0) by lia; exists a'.
  unfold weight in W0; pose proof (proj1 (ok_acts s' (steps_ok _ _ _ H2 O) i a' Ha')) as Ha; unfold act_ok in Ha; unfold len, ATTEMPTS in *.
  destruct (pc a') as [| |n|l rd [|b r]|oc|oc]; cbn [length] in *; try (destruct rd; lia); try lia; by exists oc.
Qed.


(** ** Two cores *)
Module IpDemo.

(** Runs: a call on a core that has none, or an action on a core. *)
Inductive event := ECall (c : Z) (t : list Z) | ETurn (c : Z) | EFull (c : Z).

Definition ctx : Irq.World Irq.Core := Irq.init Irq.boot_world.

Definition act1 (full : bool) (s : St) (c : Z) : option (label * St) :=
  match current s c with
  | Some i => match acts s !! i with Some a => Some (Turn i (full && polling a), run full i a s) | None => None end
  | None => None
  end.

Definition exec1 (s : St) (e : event) : option (label * St) :=
  match e with
  | ECall c t => match current s c with None => Some (Other, call c t ctx None s) | Some _ => None end
  | ETurn c => act1 false s c
  | EFull c => act1 true s c
  end.

Fixpoint exec (s : St) (es : list event) : option St :=
  match es with [] => Some s | e :: es' => match exec1 s e with Some (_, s') => exec s' es' | None => None end end.

Lemma act1_step full s c l s' : act1 full s c = Some (l, s') -> step s l s'.
Proof.
  unfold act1; destruct (current s c) as [i|] eqn:Ec; [|done]; destruct (acts s !! i) as [a|] eqn:Ea; [|done]; intros [= <- <-]; by apply (s_turn s c).
Qed.

Lemma exec_steps s0 es : forall s s' ls, steps s0 ls s -> exec s es = Some s' -> exists ls', steps s0 ls' s'.
Proof.
  induction es as [|e es IH]; intros s s' ls Hs; cbn [exec]; [intros [= <-]; by exists ls|].
  destruct (exec1 s e) as [[l s1]|] eqn:E; [|done]; apply (IH s1 s' (ls ++ [l])), (steps_snoc s0 ls s l s1 Hs).
  destruct e as [c t|c|c]; cbn [exec1] in E; [|by apply act1_step in E..].
  destruct (current s c) as [i|] eqn:Ec; [done|]; injection E as <- <-; apply s_call; [by unfold free; rewrite Ec|done].
Qed.

(** Core 0 has the interlock and has written one of its four bytes; core 1 tries and fails. *)
Definition script : list event := [ECall 0 [65; 10; 66]; ECall 1 [67]] ++ [ETurn 0; ETurn 1; ETurn 0; ETurn 1; ETurn 0; EFull 0; ETurn 0; ETurn 0; ETurn 1].

Definition final : St := match exec (idle true) script with Some s => s | None => idle true end.

Lemma final_run : exists ls, steps (idle true) ls final.
Proof. apply (exec_steps (idle true) script (idle true) final []); [constructor|vm_compute; reflexivity]. Qed.

Lemma final_patient : patient final.
Proof. intros [|[|i]] a H; vm_compute in H; [injection H as <-; reflexivity..|discriminate H]. Qed.

Lemma iprint_interlock_witness : out final 0 = [65] /\ (exists r, [65] ++ r = icook [65; 10; 66]) /\ blocks final.
Proof.
  assert (E : out final 0 = [65]) by (vm_compute; reflexivity); split; [exact E|].
  destruct (acts final !! 0%nat) as [a|] eqn:Ea; [|vm_compute in Ea; discriminate Ea].
  assert (Et : text a = [65; 10; 66]) by (vm_compute in Ea; injection Ea as <-; reflexivity).
  destruct final_run as [ls Hs]; destruct (iprint_interlock true ls final Hs) as (H1 & _ & _ & H4).
  split; [|exact (H4 final_patient)]; destruct (H1 0%nat a Ea) as [Hr _]; rewrite E, Et in Hr; exact Hr.
Defined.

(** An activation that has its core can act as often as it likes. *)
Lemma run_on c i n : forall s a, current s c = Some i -> acts s !! i = Some a -> exists s', steps s (replicate n (Turn i false)) s'.
Proof.
  induction n as [|n IH]; intros s a Hc Hi; [exists s; constructor|]; destruct (IH s a Hc Hi) as [s1 H1].
  assert (Hs1 : current s1 c = Some i /\ exists b, acts s1 !! i = Some b).
  { clear IH; remember (replicate n (Turn i false)) as ls eqn:El; revert n El; induction H1 as [|ls s1 l s2 Hls IH Hs]; intros n El; [by split; [|exists a]|].
    assert (Hl : l = Turn i false) by (assert (Hin : l ∈ replicate n (Turn i false)) by (rewrite <- El; set_solver); by apply elem_of_replicate in Hin as [-> _]).
    destruct n as [|n]; [by destruct ls|]; rewrite replicate_S_end in El; apply app_inj_tail in El as [-> _].
    destruct (IH n eq_refl) as [Hc1 [b Hb]]; subst l; inversion Hs as [| | | | |c' k b' fu Hck Hk]; subst; split; [by rewrite run_current|]; rewrite Hk in Hb; injection Hb as <-; eexists; by apply run_self. }
  destruct Hs1 as [Hc1 [b Hb]]; exists (run false i b s1); rewrite replicate_S_end; eapply steps_snoc; [exact H1|]; by apply (s_turn s1 c i b false).
Qed.

Lemma turns_replicate i n : turns i (replicate n (Turn i false)) = Z.of_nat n.
Proof. induction n as [|n IH]; [done|]; cbn [replicate turns]; rewrite decide_True by done; lia. Qed.

Lemma iprint_wait_free_witness : exists ls s' a' o, steps (call 0 [65] ctx None (idle true)) ls s' /\ acts s' !! 0%nat = Some a' /\ pc a' = Done o.
Proof.
  assert (Hn : exists n, Z.of_nat n = ATTEMPTS + 8) by (exists (Z.to_nat (ATTEMPTS + 8)); apply Z2Nat.id; discriminate); destruct Hn as [n Hn].
  destruct (run_on 0 0 n (call 0 [65] ctx None (idle true)) _ eq_refl eq_refl) as [s' Hs'].
  destruct (iprint_wait_free true ([] ++ [Other]) (replicate n (Turn 0 false)) (call 0 [65] ctx None (idle true)) s' 0
    {| core := 0; text := [65]; pc := Start; world := ctx; guard := None; parent := None |}) as (a' & o & H1 & H2).
  - eapply steps_snoc; [constructor|]; apply s_call; [exact I|reflexivity].
  - reflexivity.
  - exact Hs'.
  - rewrite turns_replicate, Hn; unfold len; cbn; lia.
  - exists (replicate n (Turn 0 false)), s', a', o; split; [exact Hs'|]; split; [exact H1|exact H2].
Defined.

End IpDemo.

End Ip.
